(* ===== verification/_CoqProject ===== *)
-Q . S2P
Prelude.v
Text.v
IpAddr.v
Egress.v
Credentials.v
Inject.v
Broker.v
Proxy.v
Endpoint.v
Dns.v
EntryName.v
Digest.v
Order.v
Layout.v
Effects.v
Sys.v
Calls.v
Unpack.v
MemFs.v
Confine.v
Whiteouts.v
Ceilings.v
Slots.v
Frame.v
Reference.v
HostIo.v
Ids.v
Names.v
Stage.v
Auth.v
Registry.v
Reaper.v
Console.v
Resources.v
Cmdline.v
GuestSys.v
Overlay.v
GuestNet.v
BootArgs.v
Nft.v
Setup.v
Rpc.v
Agent.v
CopyOut.v
Server.v
Base.v
Paper.v
Images.v
Adapt.v
Import.v
Snapshot.v
Records.v
Mounts.v
Launcher.v
Jail.v
