(* ===== verification/Prelude.v ===== *)
(** * isopod, verified

    isopod runs untrusted code in Firecracker microVMs.  Its network broker is the only way out of
    a guest and the only holder of its credentials; its registry client and image importer handle
    bytes somebody else wrote, on the host, before any VM exists; its stage store, network slots,
    packet filter, jail and host path policy keep runs apart from each other and from the host; its
    guest agent, PID 1 of a VM, answers the host over a socket that neither side may trust.  This
    development models these parts as the Rust code has them and proves what makes them safe and
    correct.

    ** The files

    Shared:

    - [Prelude]: this file. Rust's [Result] ([result], [let?], [traverse]), the tactics
      [reflect_bools], [case_test] and [run_ok], lemmas on lists.
    - [Text]: byte strings ([bytes]) and the [str] methods the code calls: splitting, trimming,
      ASCII classes, UTF-8 decoding, decimal and hexadecimal numbers.
    - [Effects]: computations with a state and errors ([SE], [do!], [se_try]), triples for them,
      and the inversion of a successful run.
    - [Calls]: programs as calls to a host that answers as it likes, over the log of the calls.
    - [Order]: the order of strings, and stable sorts of records, newest first.
    - [Paper]: a codec with its round trip, for the concrete runs of parts that store records as text.

    The network, [crates/core/src/net/]:

    - [IpAddr]: [std::net]'s addresses, their classes, printing and parsing.
    - [Egress] ([egress.rs]): host names, CIDR blocks, rules, the decision [decide] and the
      address guard [is_dialable] that holds whatever the rules say.
    - [Credentials] ([credentials.rs], [secret.rs]): path globs, request rules,
      [normalize_target], the store and the resolution of a run's credentials.
    - [Inject] ([inject.rs]): the pure logic of the credential endpoint, from a request head to
      an authorised upstream request, and the response head and chunks.
    - [Broker] ([broker.rs]): the recorder, the policy, the dial path, the splice.
    - [Proxy] ([broker.rs]): the SOCKS5 and HTTP proxy handlers.
    - [Endpoint] ([broker.rs]): the credential endpoint's handler, request and relay.
    - [Dns] ([broker.rs]): the DNS responder, and the broker as a whole as a step relation over
      the four handlers.
    - [Slots] ([core/src/net.rs]): the slots' addresses and devices, the manifest, the checks
      before a run, and the claim of a slot over the kernel's lock files.

    The handlers are state-passing functions on one world (the recorder's log and cache, the
    connection's two byte streams, the trace of what was dialled, resolved and requested).  The
    clock, the resolvers, the upstream and the sockets are parameters.  A guest's bytes reach
    [Proxy], [Endpoint] or [Dns]; each asks [Egress] or [Inject] for the decision and reaches
    the network only through [Broker.dial], or through one HTTPS call after [Inject.authorize],
    whose client connects to the pinned address, checked before the run, or to what
    [Broker.floored_resolve] keeps of a resolver's answer ([Endpoint.upstream_addresses]).

    Images, [crates/oci-registry/src/] and [crates/oci-unpack/src/]:

    - [Reference] ([reference.rs]): an image reference is parsed once, into registry, repository
      and tag or digest.
    - [Auth] ([auth.rs]): the token challenge, whether a credential may travel, the destination
      floor on URLs and on resolved addresses.  The [url] crate is the class [UrlLib], what its
      documentation says of it [UrlLaws].
    - [Registry] ([lib.rs]): the pull, from a reference to a layout on disk, over any peers and
      with any call of the file system failing.
    - [EntryName] ([name.rs]): an archive's name becomes a plan or the image is refused.
    - [Digest] ([digest.rs]): a digest string becomes a blob path or is refused.
    - [Layout] ([layout.rs]): the index, the choice of a manifest, verified reads of documents
      and blobs.
    - [Sys] ([sys.rs]): the file system of inodes, the class [Sys] of the system calls and the
      class [SysLaws] of what POSIX and Linux document of them for a name that is one component
      ([self_name]; of [..] and of paths the laws say nothing), and the operations of [Dir].
    - [Unpack] ([lib.rs]): the unpacker's state and every method, from [create] through
      [apply_layer] to [finish] and [Drop].
    - [MemFs]: a file system in memory that satisfies [SysLaws], and one that also resolves [..]; the
      concrete runs use it.
    - [Confine], [Whiteouts], [Ceilings]: the theorems on the unpacker.

    [Registry] fills a layout, [Layout] hands out its blobs, [Unpack] applies the tar streams
    inside them: each entry's name goes through [EntryName.plan], each change through the calls
    of [Sys].  [Registry] asks [Auth] where a request may go and [Digest] what a blob is called.

    Around a run:

    - [Stage] ([core/src/stage.rs]): the store of frozen layers: commit, list, resolve, remove,
      the chains and the comparison of bases.
    - [Names] ([core/src/names.rs]): generated names, which [Stage] gives its stages.
    - [Base] ([core/src/image/base.rs], the names of [import/mod.rs]): which image a run boots, as a
      string, and the defaults that an image's configuration contributes to a run.
    - [Images] ([core/src/image/rootfs.rs], [import/mod.rs], [base.rs]): the images and their stamps on
      the disk: publication, freshness, listing, removal; and the base of a run ([vm/mod.rs]).
    - [Adapt] ([import/mod.rs]): what makes an unpacked tree bootable, over the host's file system with
      its links, symbolic and hard; the pseudo-file of special modes and their count in a listing.
    - [Import] ([import/mod.rs]): the sidecar's provenance, the notes, the pack whose special modes are
      counted before it is published.
    - [Frame] ([proto/src/frame.rs]): the length-prefixed frames between host and guest.
    - [HostIo] ([mcp/src/hostio.rs]): which host paths a model's tool call may read and write.
    - [Ids] ([fc-client/src/id.rs]): VM ids and interface names.
    - [Nft], [Setup] ([core/src/net/setup.rs], [paths.rs]): the packet filter as text, as data and as
      what it does to a packet; the privileged set-up that loads it, as a log of commands.
    - [Resources], [Console] ([core/src/vm/resources.rs], [console.rs]): the size of a machine, and
      the pumps that keep its console from filling the disk.
    - [BootArgs] ([core/src/vm/mod.rs]): the kernel command line and the drives of a run.
    - [Snapshot] ([core/src/snapshot.rs]): the warm pool: keys, the check of a snapshot's files, the
      lock between builders as moves in any order, the resume, the store.
    - [Records] ([core/src/vm/registry.rs]): the directories of runs, owner tokens, the collection
      and the reaper.
    - [Mounts], [Launcher] ([crates/jail/src/]), [Jail] ([core/src/jail.rs]): the meaning of mounts, the
      launcher that confines itself and becomes Firecracker, and the host's half that prepares it.

    The guest, [crates/guest-agent/src/], and the host's side of it:

    - [GuestSys] ([sys.rs]): the calls PID 1 makes, over a log of calls with their answers.
    - [Cmdline], [Overlay] ([cmdline.rs], [overlay.rs]): the root of the guest from its drives.
    - [GuestNet] ([net.rs]): the guest's interface, routes, resolver and proxy variables.
    - [Reaper] ([reaper.rs]): who gets the exit status of a process.
    - [Rpc] ([proto/src/msg.rs]): requests and responses.
    - [Agent], [CopyOut] ([core/src/agent.rs]): the host's client against an arbitrary peer, and the
      copy of a guest's file onto the host over a file system whose calls may fail.
    - [Server] ([server.rs], [exec.rs], [conn.rs]): the guest's answers, and both sides together.

    [BootArgs] writes the command line that [Cmdline], [Overlay] and [GuestNet] read; [Setup] loads
    the table of [Nft] for the slots of [Slots]; [Agent] and [CopyOut] are joined to [Server] by the
    frames of one connection; [Snapshot] resumes through [Agent] and [Slots]; [Jail] writes the
    arguments that [Launcher] parses, whose calls [Mounts] gives a meaning.

    ** What is shown

    - Egress: [decide] is default-deny and complete for a declarative reading of the rules, the
      guard is exactly the complement of its address blocks, names and CIDRs have their canonical
      forms ([Egress]); every address a run ever connects to, for the guest or to send a token, passed
      the guard, every HTTPS call with a token was authorised by that credential's rules, over any
      interleaving of the handlers ([Dns.broker_run_safe], on [Broker.dial_safe],
      [Broker.pinned_hosts_checked], [Inject.authorized_request]).
    - Credentials: no accepted target can be read two ways ([normalize_target_safe]), globs
      decide their declarative meaning, on the decoded path too, a caller gets what the store
      says it may have and learns nothing else.
    - Protocols: round trips and bounds of SOCKS5, HTTP heads, DNS messages, chunked bodies and
      the guest's frames; no response splitting; a relayed body is whole or visibly broken.
    - Accounting: the recorder's log is exact and bounded, the splice counts what it forwards.
    - Slots: a claim takes the lowest free slot and leaks nothing; over any interleaving of all
      claimants' system calls and deaths an index has one live owner, and the claim refines an
      abstract pool ([Slots.pool_refinement], [Slots.claim_refines_pool]).
    - Pulling: a registry credential stays on its origin, or goes to a token service that origin
      named, and does not come back once dropped ([Registry.get_keeps_credential]); every address
      a pull may dial is through the floor, a proxy of the operator's environment apart
      ([Registry.pull_network_safe], [Auth.address_floor_spec]);
      nothing lies under a name it does not hash to and [index.json] appears only over a complete
      image ([Registry.pull_store_sound]); a reference addresses its own manifest endpoint.
    - Unpacking: accepted names are confined ([EntryName.plan_safe]); whatever the layers hold
      and wherever a call fails, no inode outside the staging root changes and no setuid, setgid
      or sticky bit reaches the tree ([Confine.unpack_confined]); whiteouts and opaque markers
      delete what they must and no more; the bytes on the host and the entries stay under the
      image's ceilings ([Ceilings.image_ceilings]); the recorded special modes follow the tree.
    - Layouts: a manifest comes only out of verified bytes, a blob is handed out exactly when it
      is the one named, a digest addresses nothing but [blobs/sha256/<hex>].
    - Stages: the store's invariant over any commits and removals ([Stage.stage_store_invariant]),
      what a commit leaves, and which bases a fork may stand on.
    - Images: a name and a base are one to one ([Base.base_names_roundtrip]); a stamp never vouches for
      other bytes than the image's ([Images.stamps_never_lie]), so what a run boots is what its stage was
      made on ([Images.booted_base]); nothing is removed that a stage stands on ([Images.import_removal]);
      a command on an imported base sees the run's variables over the image's over the guest's
      ([Base.imported_environment]).
    - Imports: unless the image ships a symbolic link where the agent goes, an adaptation changes only
      what it says, in the tree, and the other names of a hard-linked agent, and the kernel's [/init] is
      the agent ([Adapt.adapt_confined]); the check for a shell answers for the guest's kernel, if its
      links are UTF-8 and the operator may search its directories ([Adapt.shell_check_faithful]); as many
      entries of the image as modes recorded are special or nothing is published
      ([Import.import_published_whole]).
    - Host paths: an accepted path leads to one place under the root, whatever links there are, a
      destination's if it fits [PATH_MAX], and the check ends ([HostIo.check_confined],
      [HostIo.check_terminates]).
    - Values: VM ids are exactly their grammar, generated names are well formed and fresh.
    - The packet filter: nothing of a filtered slot is forwarded, a public slot sends only from its own
      address and to no private one, and each reaches the services it is meant to ([Nft]); a set-up
      that fails has opened nothing, one that succeeds enforces what it records ([Setup]).
    - The guest: what the host attaches is the root the guest runs on ([BootArgs.stage_boot],
      [Overlay.assembled_root]); its network is applied call by call with the resolver's failure
      reported ([GuestNet]); an exit status reaches the one waiter it is for ([Reaper]).
    - Host and guest together: an exec's result is the command's, for every interleaving of its output
      ([Server.exec_end_to_end]), and a function of the accepted chunks when the guest is hostile
      ([Agent.exec_spec]); a copy-out replaces its destination whole or leaves everything as it was
      ([CopyOut.copy_out_atomic]), inside the root the MCP check resolved, and delivers the file
      ([Server.copy_end_to_end]); the server answers in order, each request once, if its answer fits a
      frame ([Server.serve_answers_in_order]).
    - The warm pool: one builder at a time whatever dies where, and what a run comes to reuse passes the
      check then ([Snapshot.builds_once]); nothing that the check refuses is resumed ([Snapshot.resume_spec]).
    - Records: the collection removes only what is past the newest, old, finished and without a VMM, and
      makes no orphan ([Records.gc_safe]); a run that goes on keeps its directory and its VMM ([live_run_kept]).
    - The jail: Firecracker starts only after every step of its confinement was granted
      ([Launcher.exec_after_confinement]) and can write nowhere but in its machine's directory
      and the standard devices, whatever the host has mounted ([Jail.jailed_firecracker]).
    - Limits: the console's and the exec log's caps hold, a machine's size fits its host, the cgroup's
      limits are written before a launch, with the numbers of the machine's size ([Jail.setup_limits],
      [Jail.limits_exact]).

    Where the code does not do what it means to, or says something else than it does, an example
    beside the theorems states it: the hop-by-hop filter and a spaced header name ([Proxy]), a
    lone nested index of another platform ([Layout.foreign_index_followed]), recordings dropped
    under a directory its owner cannot list ([Ceilings.unreadable_directory_drops_recordings]),
    a switch set to bytes that are not UTF-8 ([HostIo.off_not_utf8]), a generated name that
    shadows a label ([Stage.name_shadows_label]), colliding hex names ([Names.hex_names_collide]),
    the message of a claim without public slots ([Slots.claim_without_public_slots]), the
    two address floors ([Auth.floors_differ]), a redirect lost to a challenge
    ([RegistryRun.challenge_costs_a_redirect]); taps that an earlier set-up left ([Nft.leftover_tap],
    [Setup.leftover_forwards]) and new connections from the outside ([Nft.unsolicited_inbound]); the
    27th drive ([Overlay.vdaa_before_vdb]); an orphan's status and the cap on statuses
    ([Reaper.orphan_status_served], [Reaper.stash_exceeds_cap]); a resolver's failure that fails the
    call ([GuestNet.resolver_failure_fails]) and is retried ([Agent.resolver_error_retried]); a failed
    write that ends a pump ([Console.failed_write_stops_pump]); pipes that outlive the time-out
    ([Server.exec_waits_for_pipes]) and reasons that do not fit a chunk ([Server.not_started]); in
    [Snapshot] a rebuild that is not awaited, a removal elsewhere, a write between digest and time, and a
    key of two lines; VMMs of another state directory ([Records.other_home_reaped]); in the jail a
    child without its supervisor ([Launcher.orphaned_before_guard]), a linked source
    ([Launcher.linked_source_gets_a_file]) and an overhead that wraps ([Jail.overhead_wraps]).
    In [Images], a stamp that does not parse, the offset of a program header, the newest kernel.
    In [Adapt], an image whose links lead the agent out of the tree ([Adapt.agent_through_link],
    [Adapt.agent_dir_through_link]) or over another file of it ([Adapt.agent_hard_linked]), shells that
    are there and refused, a mount point that leads nowhere; in [Import], modes in other places than
    recorded ([Import.other_paths]), a digest of the configuration under the name of the manifest's;
    destinations longer than the kernel's paths ([HostIo.long_path_unchecked]); an answer that does not
    fit a frame ([Server.long_file_unanswered]).
    Also the broker's comment on its ports and the frame reader's on a cut length.

    ** Fuel and bounds

    Recursion on data is structural.  Where the code loops on reads, the model takes the reads
    as a list, or takes fuel: [Layout.read_chunks] is proved to end for any fuel above the
    file's length; decimal and hexadecimal printing use the bit size of the number, which the
    [show_*_spec] lemmas prove enough; [Auth.params] one turn more than there are characters
    ([params_go_fuel]); [HostIo.resolve_loop] one round more than there are components
    ([HostIo.check_terminates]); [Records.weigh] one turn more than there are directories
    ([Records.dir_size_spec]).  [remove_child] and [prune] recurse on the code's own depth
    bound [max_path_depth], [resolve] on its [MAX_INDEX_DEPTH], [HostIo.walk] on the kernel's
    budget of 40 links, [Registry.get_loop] on the turns of its own [for] loop.  Counters that
    the code keeps saturating or bounded by a limit are unbounded [N]; the bounds are theorems.

    ** What is not modelled, and what is next

    Not modelled: the accept loops, the runtime and its timeouts (a timeout is the end of the
    input), TLS, the [tar], [serde_json], [sha2], [blake3], [url] and [reqwest] crates (parameters),
    changes to the staging tree or the layout by other processes; of Firecracker what it does with
    its requests; the building of root file systems and kernels (most of [core/src/image/rootfs.rs],
    [kernel.rs], [s3.rs]), which run external tools; two processes that publish the same image at once; the command line ([crates/cli]), the tool server
    ([crates/mcp/src/main.rs]) and the orchestration of a run ([core/src/vm/mod.rs] beyond the boot),
    which join the modelled parts; the HTTP client of [crates/fc-client] and its data.

    Of [import] itself the joints between the modelled parts: its layers go from [Layout] to [Unpack], the
    tree from [Unpack] to [Adapt] and [Import], whose models of the disk differ.

    Next: the exec path of [core/src/vm/mod.rs] as a composition of slots, jail, boot, agent and records. *)
From stdpp Require Export base tactics option list strings gmap.
From Stdlib Require Export ZArith NArith Lia.

(** ** Fallible results: Rust's [Result] *)

Inductive result (A E : Type) : Type :=
  | Ok (a : A)
  | Err (e : E).
Arguments Ok {A E} a.
Arguments Err {A E} e.

#[export] Instance result_eq_dec `{EqDecision A, EqDecision E} : EqDecision (result A E).
Proof. solve_decision. Defined.

Definition is_ok {A E} (r : result A E) : bool :=
  match r with Ok _ => true | Err _ => false end.

(** [r.and_then(k)], the meaning of the [?] operator. *)
Definition rbind {A B E} (r : result A E) (k : A -> result B E) : result B E :=
  match r with Ok a => k a | Err e => Err e end.

Definition rmap {A B E} (f : A -> B) (r : result A E) : result B E :=
  match r with Ok a => Ok (f a) | Err e => Err e end.

(** [r.map_err(f)] *)
Definition map_err {A E F} (f : E -> F) (r : result A E) : result A F :=
  match r with Ok a => Ok a | Err e => Err (f e) end.

(** [o.ok_or(e)] *)
Definition ok_or {A E} (o : option A) (e : E) : result A E :=
  match o with Some a => Ok a | None => Err e end.

Declare Scope result_scope.
Delimit Scope result_scope with res.
Notation "'let?' x ':=' c 'in' k" := (rbind c (fun x => k))
  (at level 10, x pattern, c at level 200, k at level 200) : result_scope.
Open Scope result_scope.

(** [iter.map(f).collect::<Result<Vec<_>, _>>()]: stops at the first error. *)
Fixpoint traverse {A B E} (f : A -> result B E) (l : list A) : result (list B) E :=
  match l with
  | [] => Ok []
  | x :: r => let? y := f x in let? ys := traverse f r in Ok (y :: ys)
  end.

Lemma rbind_Ok {A B E} (r : result A E) (k : A -> result B E) b :
  rbind r k = Ok b <-> exists a, r = Ok a /\ k a = Ok b.
Proof. destruct r; simpl; naive_solver. Qed.

Lemma rbind_Err {A B E} (r : result A E) (k : A -> result B E) e :
  rbind r k = Err e <-> r = Err e \/ exists a, r = Ok a /\ k a = Err e.
Proof. destruct r; simpl; naive_solver. Qed.

Lemma ok_or_Ok {A E} (o : option A) (e : E) a : ok_or o e = Ok a <-> o = Some a.
Proof. destruct o; simpl; naive_solver. Qed.

Lemma map_err_Ok {A E F} (f : E -> F) (r : result A E) a :
  map_err f r = Ok a <-> r = Ok a.
Proof. destruct r; simpl; naive_solver. Qed.

Lemma traverse_Ok {A B E} (f : A -> result B E) l ys :
  traverse f l = Ok ys <-> Forall2 (fun x y => f x = Ok y) l ys.
Proof.
  revert ys. induction l as [|x l IH]; intros ys; simpl.
  - split; [intros [= <-]; constructor | by inversion 1].
  - rewrite rbind_Ok. setoid_rewrite rbind_Ok. setoid_rewrite IH. split.
    + intros (y & Hy & zs & Hz & [= <-]). by constructor.
    + inversion 1; subst. eauto 8.
Qed.

(** ** Tactics *)

(** Turns the boolean tests in the context into propositions. *)
Ltac reflect_bools :=
  repeat match goal with
  | H : andb _ _ = true |- _ => apply andb_true_iff in H; destruct H
  | H : andb _ _ = false |- _ => apply andb_false_iff in H
  | H : orb _ _ = false |- _ => apply orb_false_iff in H; destruct H
  | H : orb _ _ = true |- _ => apply orb_true_iff in H
  | H : negb _ = true |- _ => apply negb_true_iff in H
  | H : negb _ = false |- _ => apply negb_false_iff in H
  | H : N.leb _ _ = true |- _ => apply N.leb_le in H
  | H : N.leb _ _ = false |- _ => apply N.leb_gt in H
  | H : N.ltb _ _ = true |- _ => apply N.ltb_lt in H
  | H : N.ltb _ _ = false |- _ => apply N.ltb_ge in H
  | H : N.eqb _ _ = true |- _ => apply N.eqb_eq in H
  | H : N.eqb _ _ = false |- _ => apply N.eqb_neq in H
  | H : Z.leb _ _ = true |- _ => apply Z.leb_le in H
  | H : Z.leb _ _ = false |- _ => apply Z.leb_gt in H
  | H : Z.ltb _ _ = true |- _ => apply Z.ltb_lt in H
  | H : Z.ltb _ _ = false |- _ => apply Z.ltb_ge in H
  | H : Z.eqb _ _ = true |- _ => apply Z.eqb_eq in H
  | H : Z.eqb _ _ = false |- _ => apply Z.eqb_neq in H
  | H : Nat.leb _ _ = true |- _ => apply Nat.leb_le in H
  | H : Nat.leb _ _ = false |- _ => apply Nat.leb_gt in H
  | H : Nat.ltb _ _ = true |- _ => apply Nat.ltb_lt in H
  | H : Nat.ltb _ _ = false |- _ => apply Nat.ltb_ge in H
  | H : Nat.eqb _ _ = true |- _ => apply Nat.eqb_eq in H
  | H : Nat.eqb _ _ = false |- _ => apply Nat.eqb_neq in H
  | H : bool_decide _ = true |- _ => apply bool_decide_eq_true in H
  | H : bool_decide _ = false |- _ => apply bool_decide_eq_false in H
  end.

(** Case analysis on the innermost test of the goal or of a hypothesis. *)
Ltac case_test :=
  match goal with
  | |- context [if ?b then _ else _] =>
      lazymatch b with context [if _ then _ else _] => fail | _ => destruct b eqn:? end
  | H : context [if ?b then _ else _] |- _ =>
      lazymatch b with context [if _ then _ else _] => fail | _ => destruct b eqn:? end
  end.

(** Unfolds a successful chain of [let?] into its steps. *)
Ltac run_ok :=
  repeat match goal with
  | H : rbind _ _ = Ok _ |- _ =>
      let a := fresh "a" in let Ha := fresh "Hrun" in
      apply rbind_Ok in H; destruct H as (a & Ha & H)
  | H : ok_or _ _ = Ok _ |- _ => apply ok_or_Ok in H
  | H : map_err _ _ = Ok _ |- _ => apply map_err_Ok in H
  | H : Ok _ = Ok _ |- _ => injection H as H; try subst
  | H : Ok _ = Err _ |- _ => discriminate H
  | H : Err _ = Ok _ |- _ => discriminate H
  end.

(** ** Lists *)

Section list_lemmas.
Context {A : Type}.
Implicit Types (l : list A) (p : A -> bool).

Lemma forallb_Forall p l : forallb p l = true <-> Forall (fun x => p x = true) l.
Proof. rewrite Forall_forall, forallb_forall. setoid_rewrite list_elem_of_In. done. Qed.

Lemma existsb_Exists p l : existsb p l = true <-> Exists (fun x => p x = true) l.
Proof. rewrite Exists_exists, existsb_exists. setoid_rewrite list_elem_of_In. done. Qed.

Lemma existsb_false p l : existsb p l = false <-> Forall (fun x => p x = false) l.
Proof.
  induction l as [|x l IH]; simpl; [naive_solver|].
  rewrite orb_false_iff, IH, Forall_cons. done.
Qed.

Lemma last_snoc_inv l x : last l = Some x -> exists l', l = l' ++ [x].
Proof. intros H. apply last_Some in H. done. Qed.

Lemma drop_eq_app (k l r : list A) : l = k ++ r -> drop (length k) l = r.
Proof. intros ->. apply drop_app_length. Qed.
End list_lemmas.
