(* ===== verification/Text.v ===== *)
(** * Text: byte strings and the [str] methods of the Rust standard library

    A Rust [&str] or [&[u8]] is a list of bytes here, a byte an [ascii] (the eight bits
    of one octet).  The definitions below are the standard-library methods the modelled
    files call ([split], [strip_prefix], [trim], [parse::<u32>], [from_utf8], ...); they
    model the language's library, so they have no source lines of their own. *)
From Stdlib Require Export Ascii String.
From S2P Require Export Prelude.
Open Scope list_scope.

Abbreviation bytes := (list ascii).

(** A literal. *)
Definition B (s : string) : bytes := list_ascii_of_string s.
Arguments B _ : simpl never.

(** The numeric value of a byte. *)
Definition code (c : ascii) : N := N_of_ascii c.

Definition len (s : bytes) : Z := Z.of_nat (length s).

(** ** Character classes *)

Definition between (lo hi : N) (c : ascii) : bool := (lo <=? code c)%N && (code c <=? hi)%N.

Definition is_ascii_digit (c : ascii) : bool := between 48 57 c.
Definition is_ascii_lowercase (c : ascii) : bool := between 97 122 c.
Definition is_ascii_uppercase (c : ascii) : bool := between 65 90 c.
Definition is_ascii_alphabetic (c : ascii) : bool := is_ascii_lowercase c || is_ascii_uppercase c.
Definition is_ascii_alphanumeric (c : ascii) : bool := is_ascii_alphabetic c || is_ascii_digit c.
(** [is_ascii_hexdigit] *)
Definition is_ascii_hexdigit (c : ascii) : bool :=
  is_ascii_digit c || between 97 102 c || between 65 70 c.
(** [is_ascii_graphic] *)
Definition is_ascii_graphic (c : ascii) : bool := between 33 126 c.
(** [is_ascii_control] *)
Definition is_ascii_control (c : ascii) : bool := (code c <? 32)%N || (code c =? 127)%N.
Definition is_ascii (c : ascii) : bool := (code c <? 128)%N.

Definition to_lower (c : ascii) : ascii :=
  if is_ascii_uppercase c then ascii_of_N (code c + 32) else c.

(** [s.to_ascii_lowercase()] *)
Definition to_ascii_lowercase (s : bytes) : bytes := map to_lower s.

(** [a.eq_ignore_ascii_case(b)] *)
Definition eq_ignore_ascii_case (a b : bytes) : bool :=
  bool_decide (to_ascii_lowercase a = to_ascii_lowercase b).

(** ** Searching and cutting *)

Definition beq (a b : bytes) : bool := bool_decide (a = b).

(** [s.contains(c)] for one byte. *)
Definition contains (c : ascii) (s : bytes) : bool := existsb (Ascii.eqb c) s.

Fixpoint strip_prefix (p s : bytes) : option bytes :=
  match p, s with
  | [], _ => Some s
  | x :: p', y :: s' => if Ascii.eqb x y then strip_prefix p' s' else None
  | _ :: _, [] => None
  end.

Definition starts_with (p s : bytes) : bool :=
  match strip_prefix p s with Some _ => true | None => false end.

Definition strip_suffix (p s : bytes) : option bytes :=
  match strip_prefix (rev p) (rev s) with Some r => Some (rev r) | None => None end.

Definition ends_with (p s : bytes) : bool :=
  match strip_suffix p s with Some _ => true | None => false end.

(** [s.contains(p)] for a substring. *)
Fixpoint contains_str (p s : bytes) : bool :=
  starts_with p s || match s with [] => false | _ :: r => contains_str p r end.

(** [s.split(c).collect()]: never empty, [n] separators give [n + 1] parts. *)
Fixpoint split (c : ascii) (s : bytes) : list bytes :=
  match s with
  | [] => [[]]
  | x :: r =>
      if Ascii.eqb x c then [] :: split c r
      else match split c r with
           | h :: t => (x :: h) :: t
           | [] => [[x]]
           end
  end.

(** [parts.join(sep)] *)
Fixpoint join (sep : bytes) (parts : list bytes) : bytes :=
  match parts with
  | [] => []
  | [p] => p
  | p :: r => p ++ sep ++ join sep r
  end.

(** [s.split_once(c)]: at the first separator. *)
Fixpoint split_once (c : ascii) (s : bytes) : option (bytes * bytes) :=
  match s with
  | [] => None
  | x :: r =>
      if Ascii.eqb x c then Some ([], r)
      else match split_once c r with
           | Some (a, b) => Some (x :: a, b)
           | None => None
           end
  end.

(** [s.rsplit_once(c)]: at the last separator. *)
Definition rsplit_once (c : ascii) (s : bytes) : option (bytes * bytes) :=
  match split_once c (rev s) with
  | Some (a, b) => Some (rev b, rev a)
  | None => None
  end.

(** [s.matches(c).count()] *)
Definition count (c : ascii) (s : bytes) : nat := length (List.filter (Ascii.eqb c) s).

Fixpoint trim_start_matches (p : ascii -> bool) (s : bytes) : bytes :=
  match s with
  | x :: r => if p x then trim_start_matches p r else s
  | [] => []
  end.

Definition trim_end_matches (p : ascii -> bool) (s : bytes) : bytes :=
  rev (trim_start_matches p (rev s)).

Definition trim_matches (p : ascii -> bool) (s : bytes) : bytes :=
  trim_end_matches p (trim_start_matches p s).

(** ** Numbers *)

Definition digit (n : N) : ascii := ascii_of_N (48 + n).
Definition digit_value (c : ascii) : N := code c - 48.

Fixpoint show_go (fuel : nat) (n : N) (acc : bytes) : bytes :=
  match fuel with
  | O => acc
  | S f =>
      let acc' := digit (n mod 10) :: acc in
      if (n / 10 =? 0)%N then acc' else show_go f (n / 10) acc'
  end.

(** [n.to_string()]; [size_nat] bits are more than enough decimal digits. *)
Definition show_N (n : N) : bytes := show_go (S (N.size_nat n)) n [].

Definition value_of (s : bytes) : N :=
  fold_left (fun v c => 10 * v + digit_value c)%N s 0%N.

(** [s.parse::<uW>().ok()]: an optional [+], then one or more digits, with the value at
    most [max] (the library refuses on overflow rather than wrapping). *)
Definition parse_uint (max : N) (s : bytes) : option N :=
  let ds := match s with c :: r => if Ascii.eqb c "+" then r else s | [] => s end in
  match ds with
  | [] => None
  | _ => if forallb is_ascii_digit ds
         then let v := value_of ds in if (v <=? max)%N then Some v else None
         else None
  end.

Definition u8_max : N := 255.
Definition u16_max : N := 65535.
Definition u32_max : N := 4294967295.
Definition u64_max : N := 18446744073709551615.

(** ** UTF-8 *)

(** One step of the decoder: a scalar value with the bytes that spell it, or a maximal
    ill-formed sequence. *)
Inductive utf8_item : Type :=
  | Chr (c : N) (raw : bytes)
  | Bad.

Definition cont (c : ascii) : bool := between 128 191 c.

Definition ok_second (b0 : N) (b1 : ascii) : bool :=
  if (b0 =? 224)%N then between 160 191 b1
  else if (b0 =? 237)%N then between 128 159 b1
  else if (b0 =? 240)%N then between 144 191 b1
  else if (b0 =? 244)%N then between 128 143 b1
  else cont b1.

Definition low6 (c : ascii) : N := N.land (code c) 63.

(** The sequence table of [core::str::validations]. *)
Fixpoint utf8_items (s : bytes) : list utf8_item :=
  match s with
  | [] => []
  | b0 :: r0 =>
      let x := code b0 in
      if (x <? 128)%N then Chr x [b0] :: utf8_items r0
      else if between 194 223 b0 then
        match r0 with
        | b1 :: r1 =>
            if cont b1 then Chr (N.land x 31 * 64 + low6 b1) [b0; b1] :: utf8_items r1
            else Bad :: utf8_items r0
        | [] => [Bad]
        end
      else if between 224 239 b0 then
        match r0 with
        | b1 :: r1 =>
            if ok_second x b1 then
              match r1 with
              | b2 :: r2 =>
                  if cont b2
                  then Chr ((N.land x 15 * 64 + low6 b1) * 64 + low6 b2) [b0; b1; b2]
                         :: utf8_items r2
                  else Bad :: utf8_items r1
              | [] => [Bad]
              end
            else Bad :: utf8_items r0
        | [] => [Bad]
        end
      else if between 240 244 b0 then
        match r0 with
        | b1 :: r1 =>
            if ok_second x b1 then
              match r1 with
              | b2 :: r2 =>
                  if cont b2 then
                    match r2 with
                    | b3 :: r3 =>
                        if cont b3
                        then Chr (((N.land x 7 * 64 + low6 b1) * 64 + low6 b2) * 64 + low6 b3)
                                 [b0; b1; b2; b3] :: utf8_items r3
                        else Bad :: utf8_items r2
                    | [] => [Bad]
                    end
                  else Bad :: utf8_items r1
              | [] => [Bad]
              end
            else Bad :: utf8_items r0
        | [] => [Bad]
        end
      else Bad :: utf8_items r0
  end.

Definition is_chr (i : utf8_item) : bool := match i with Chr _ _ => true | Bad => false end.

(** [std::str::from_utf8(s).is_ok()] *)
Definition is_utf8 (s : bytes) : bool := forallb is_chr (utf8_items s).

(** [s.chars()] of a valid string. *)
Definition chars (s : bytes) : list N :=
  omap (fun i => match i with Chr c _ => Some c | Bad => None end) (utf8_items s).

(** [String::from_utf8_lossy(s)]: U+FFFD for each maximal ill-formed sequence. *)
Definition from_utf8_lossy (s : bytes) : bytes :=
  concat (map (fun i => match i with
                        | Chr _ raw => raw
                        | Bad => [ascii_of_N 239; ascii_of_N 191; ascii_of_N 189]
                        end) (utf8_items s)).

(** ** Whitespace and substrings *)

(** [char::is_whitespace]: the Unicode White_Space property. *)
Definition is_whitespace (c : N) : bool :=
  ((9 <=? c) && (c <=? 13) || (c =? 32) || (c =? 133) || (c =? 160) || (c =? 5760) ||
   (8192 <=? c) && (c <=? 8202) || (c =? 8232) || (c =? 8233) || (c =? 8239) ||
   (c =? 8287) || (c =? 12288))%N.

Fixpoint drop_white (l : list utf8_item) : list utf8_item :=
  match l with
  | Chr c raw :: r => if is_whitespace c then drop_white r else l
  | _ => l
  end.

Definition item_bytes (i : utf8_item) : bytes := match i with Chr _ raw => raw | Bad => [] end.

(** [s.trim()] of a valid string. *)
Definition trim (s : bytes) : bytes :=
  concat (map item_bytes (rev (drop_white (rev (drop_white (utf8_items s)))))).

(** [s.split_once(sep)] for a string separator. *)
Fixpoint split_once_str (sep s : bytes) : option (bytes * bytes) :=
  match strip_prefix sep s with
  | Some r => Some ([], r)
  | None =>
      match s with
      | [] => None
      | x :: t => match split_once_str sep t with
                  | Some (a, b) => Some (x :: a, b)
                  | None => None
                  end
      end
  end.

Fixpoint split_str_go (fuel : nat) (sep s : bytes) : list bytes :=
  match fuel with
  | O => [s]
  | S f => match split_once_str sep s with
           | Some (a, b) => a :: split_str_go f sep b
           | None => [s]
           end
  end.

(** [s.split(sep).collect()] for a non-empty string separator: every part but the last is
    followed by a separator of at least one byte, so [length s] steps are enough. *)
Definition split_str (sep s : bytes) : list bytes := split_str_go (length s) sep s.

(** [{n:x}] *)
Definition hex_low (n : N) : ascii :=
  if (n <? 10)%N then ascii_of_N (48 + n) else ascii_of_N (87 + n).

Fixpoint show_hex_go (fuel : nat) (n : N) (acc : bytes) : bytes :=
  match fuel with
  | O => acc
  | S f =>
      let acc' := hex_low (n mod 16) :: acc in
      if (n / 16 =? 0)%N then acc' else show_hex_go f (n / 16) acc'
  end.

Definition show_hex (n : N) : bytes := show_hex_go (S (N.size_nat n)) n [].

(** [c.to_digit(16)] *)
Definition hex_value (c : ascii) : option N :=
  if is_ascii_digit c then Some (code c - 48)%N
  else if between 97 102 c then Some (code c - 87)%N
  else if between 65 70 c then Some (code c - 55)%N
  else None.

(** ** Lemmas *)

(** Decides a statement about one byte by going through the 256 of them. *)
Ltac all_bytes c := destruct c as [[] [] [] [] [] [] [] []]; vm_compute.

(** The same for two bytes at once, by one computation over all pairs. *)
Definition every_byte : list ascii := map (fun n => ascii_of_nat n) (seq 0 256).

Lemma every_byte_complete c : In c every_byte.
Proof.
  unfold every_byte. apply in_map_iff. exists (nat_of_ascii c).
  split; [apply ascii_nat_embedding|]. apply in_seq. pose proof (nat_ascii_bounded c). lia.
Qed.

Lemma all_byte_pairs (P : ascii -> ascii -> bool) :
  forallb (fun c => forallb (P c) every_byte) every_byte = true -> forall c d, P c d = true.
Proof.
  intros H c d. rewrite forallb_forall in H.
  specialize (H c (every_byte_complete c)). rewrite forallb_forall in H.
  apply H, every_byte_complete.
Qed.

Lemma code_lt c : (code c < 256)%N.
Proof. all_bytes c; reflexivity. Qed.

Lemma code_inj c d : code c = code d -> c = d.
Proof. intros H. rewrite <- (ascii_N_embedding c), <- (ascii_N_embedding d). by f_equal. Qed.

Lemma code_of_N n : (n < 256)%N -> code (ascii_of_N n) = n.
Proof. apply N_ascii_embedding. Qed.

Lemma ascii_eqb_eq c d : Ascii.eqb c d = true <-> c = d.
Proof. apply Ascii.eqb_eq. Qed.

Lemma contains_true c s : contains c s = true <-> c ∈ s.
Proof.
  unfold contains. rewrite existsb_exists. setoid_rewrite Ascii.eqb_eq.
  rewrite list_elem_of_In. naive_solver.
Qed.

Lemma contains_false c s : contains c s = false <-> c ∉ s.
Proof. rewrite <- contains_true. by destruct (contains c s). Qed.

Lemma beq_true a b : beq a b = true <-> a = b.
Proof. apply bool_decide_eq_true. Qed.

Lemma strip_prefix_Some p s r : strip_prefix p s = Some r <-> s = p ++ r.
Proof.
  revert s. induction p as [|x p IH]; intros [|y s]; simpl; try naive_solver.
  destruct (Ascii.eqb_spec x y) as [->|Hne]; [rewrite IH|]; naive_solver.
Qed.

Lemma starts_with_true p s : starts_with p s = true <-> exists r, s = p ++ r.
Proof.
  unfold starts_with. setoid_rewrite <- strip_prefix_Some.
  destruct (strip_prefix p s); naive_solver.
Qed.

Lemma strip_suffix_Some p s r : strip_suffix p s = Some r <-> s = r ++ p.
Proof.
  unfold strip_suffix. destruct (strip_prefix (rev p) (rev s)) as [q|] eqn:E.
  - apply strip_prefix_Some in E. rewrite <- (rev_involutive s), E, rev_app_distr,
      rev_involutive. split.
    + intros [= <-]. done.
    + intros H. apply app_inv_tail in H. by subst.
  - split; [done|]. intros ->. rewrite rev_app_distr in E.
    assert (strip_prefix (rev p) (rev p ++ rev r) = Some (rev r)) as E'
      by by apply strip_prefix_Some.
    congruence.
Qed.

Lemma ends_with_true p s : ends_with p s = true <-> exists r, s = r ++ p.
Proof.
  unfold ends_with. setoid_rewrite <- strip_suffix_Some.
  destruct (strip_suffix p s); naive_solver.
Qed.

(** *** Splitting and joining *)

Lemma split_ne c s : split c s <> [].
Proof. destruct s as [|x s]; simpl; [done|]. case_match; [done|]. by case_match. Qed.

Lemma join_split c s : join [c] (split c s) = s.
Proof.
  induction s as [|x s IH]; simpl; [done|].
  pose proof (split_ne c s) as Hne.
  destruct (Ascii.eqb_spec x c) as [->|].
  - rewrite <- IH at 2. by destruct (split c s).
  - rewrite <- IH at 2. destruct (split c s) as [|h [|h' t]]; done.
Qed.

Lemma split_no_sep c s : Forall (fun p => c ∉ p) (split c s).
Proof.
  induction s as [|x s IH]; simpl; [repeat constructor; set_solver|].
  destruct (Ascii.eqb_spec x c); [constructor; [set_solver|done]|].
  destruct (split c s) as [|h t]; [repeat constructor; set_solver|].
  inversion IH; subst. constructor; [set_solver|done].
Qed.

Lemma split_bytes c s p x : p ∈ split c s -> x ∈ p -> x ∈ s.
Proof.
  revert p. induction s as [|y s IH]; intros p; simpl.
  - intros ->%list_elem_of_singleton. done.
  - destruct (Ascii.eqb y c).
    + intros [->|Hp]%elem_of_cons Hx; [by apply not_elem_of_nil in Hx|].
      apply elem_of_cons. right. eauto.
    + destruct (split c s) as [|h t] eqn:E.
      { intros ->%list_elem_of_singleton ->%list_elem_of_singleton. by constructor. }
      intros [->|Hp]%elem_of_cons Hx; apply elem_of_cons.
      * apply elem_of_cons in Hx as [->|Hx]; [by left|].
        right. apply (IH h); [by constructor|done].
      * right. apply (IH p); [by constructor|done].
Qed.

Lemma split_none c s : c ∉ s -> split c s = [s].
Proof.
  induction s as [|x s IH]; simpl; [done|]. intros Hc.
  destruct (Ascii.eqb_spec x c); [set_solver|]. rewrite IH; [done|set_solver].
Qed.

Lemma split_app c p s : c ∉ p -> split c (p ++ c :: s) = p :: split c s.
Proof.
  induction p as [|x p IH]; simpl.
  - by rewrite Ascii.eqb_refl.
  - intros Hc. destruct (Ascii.eqb_spec x c); [set_solver|]. rewrite IH; [done|set_solver].
Qed.

(** Cutting at any separator, not only at the first. *)
Lemma split_app_sep c a b : split c (a ++ c :: b) = split c a ++ split c b.
Proof.
  induction a as [|x a IH]; simpl; [by rewrite Ascii.eqb_refl|].
  rewrite IH. destruct (Ascii.eqb x c); [done|].
  pose proof (split_ne c a). by destruct (split c a).
Qed.

Lemma split_join c ps :
  ps <> [] -> Forall (fun p => c ∉ p) ps -> split c (join [c] ps) = ps.
Proof.
  induction ps as [|p ps IH]; [done|]. intros _ [Hp Hps]%Forall_cons.
  destruct ps as [|q ps]; simpl; [by apply split_none|].
  change (split c (p ++ c :: join [c] (q :: ps)) = p :: q :: ps).
  rewrite split_app by done. f_equal. by apply IH.
Qed.

Lemma split_once_app c a b : c ∉ a -> split_once c (a ++ c :: b) = Some (a, b).
Proof.
  induction a as [|x a IH]; simpl; intros Hc; [by rewrite Ascii.eqb_refl|].
  destruct (Ascii.eqb_spec x c); [set_solver|]. rewrite IH; [done|set_solver].
Qed.

Lemma split_once_Some c s a b : split_once c s = Some (a, b) <-> s = a ++ c :: b /\ c ∉ a.
Proof.
  split; [|intros [-> Hc]; by apply split_once_app].
  revert a b. induction s as [|x s IH]; intros a b; simpl; [done|].
  destruct (Ascii.eqb_spec x c) as [->|Hne]; [intros [= <- <-]; split; set_solver|].
  destruct (split_once c s) as [[a' b']|]; [|done]. intros [= <- <-].
  destruct (IH _ _ eq_refl) as [-> Hc]. split; [done|set_solver].
Qed.

Lemma split_once_None c s : split_once c s = None <-> c ∉ s.
Proof.
  induction s as [|x s IH]; simpl; [split; [intros _; set_solver|done]|].
  destruct (Ascii.eqb_spec x c) as [->|Hne]; [split; [done|set_solver]|].
  destruct (split_once c s) as [[a b]|]; [|set_solver].
  split; [done|]. intros H. enough (None = Some (a, b)) by done.
  symmetry. apply IH. set_solver.
Qed.

Lemma rsplit_once_Some c s a b : rsplit_once c s = Some (a, b) <-> s = a ++ c :: b /\ c ∉ b.
Proof.
  unfold rsplit_once. destruct (split_once c (rev s)) as [[x y]|] eqn:E.
  - apply split_once_Some in E as [H Hc]. apply (f_equal (@rev ascii)) in H.
    rewrite rev_involutive, rev_app_distr in H. simpl in H. rewrite <- app_assoc in H.
    simpl in H. assert (c ∉ rev x) as Hc' by by rewrite list_elem_of_In, <- in_rev, <- list_elem_of_In.
    split; [intros [= <- <-]; done|].
    intros [H' Hb]. assert (split_once c (rev s) = Some (rev b, rev a)) as E'.
    { apply split_once_Some. rewrite H', rev_app_distr. simpl. rewrite <- app_assoc. split; [done|].
      by rewrite list_elem_of_In, <- in_rev, <- list_elem_of_In. }
    rewrite H' in H. assert (split_once c (rev s) = Some (x, y)) as E''.
    { apply split_once_Some. rewrite H', H, rev_app_distr. simpl.
      rewrite <- app_assoc, !rev_involutive. done. }
    rewrite E'' in E'. injection E' as -> ->. by rewrite !rev_involutive.
  - split; [done|]. intros [-> Hb]. apply split_once_None in E. exfalso. apply E.
    rewrite rev_app_distr. simpl. set_solver.
Qed.

Lemma rsplit_once_None c s : rsplit_once c s = None <-> c ∉ s.
Proof.
  unfold rsplit_once. destruct (split_once c (rev s)) as [[x y]|] eqn:E.
  - split; [done|]. apply split_once_Some in E as [H _].
    intros Hc. exfalso. apply Hc. rewrite list_elem_of_In, in_rev, H, <- list_elem_of_In. set_solver.
  - apply split_once_None in E. split; [intros _|done].
    by rewrite list_elem_of_In, in_rev, <- list_elem_of_In.
Qed.

(** *** Case folding *)

Lemma to_lower_idemp c : to_lower (to_lower c) = to_lower c.
Proof. all_bytes c; reflexivity. Qed.

Lemma to_ascii_lowercase_idemp s :
  to_ascii_lowercase (to_ascii_lowercase s) = to_ascii_lowercase s.
Proof.
  unfold to_ascii_lowercase. rewrite map_map. apply map_ext. apply to_lower_idemp.
Qed.

Lemma to_lower_not_upper c : is_ascii_uppercase (to_lower c) = false.
Proof. all_bytes c; reflexivity. Qed.

Lemma to_lower_eq_special c d :
  is_ascii_alphabetic d = false -> to_lower c = d <-> c = d.
Proof.
  intros Hd. split; intros H.
  - subst d. revert Hd. all_bytes c; intros; first [reflexivity | discriminate].
  - subst c. revert Hd. all_bytes d; intros; first [reflexivity | discriminate].
Qed.

Lemma length_to_ascii_lowercase s : length (to_ascii_lowercase s) = length s.
Proof. apply length_map. Qed.

Lemma to_ascii_lowercase_app s t :
  to_ascii_lowercase (s ++ t) = to_ascii_lowercase s ++ to_ascii_lowercase t.
Proof. apply map_app. Qed.

Lemma split_lowercase c s :
  is_ascii_alphabetic c = false ->
  split c (to_ascii_lowercase s) = map to_ascii_lowercase (split c s).
Proof.
  intros Hc. induction s as [|x s IH]; [done|]. cbn [to_ascii_lowercase map split].
  fold (to_ascii_lowercase s). rewrite IH.
  assert (Ascii.eqb (to_lower x) c = Ascii.eqb x c) as ->.
  { apply eq_true_iff_eq. rewrite !Ascii.eqb_eq. by apply to_lower_eq_special. }
  destruct (Ascii.eqb x c); [done|]. by destruct (split c s).
Qed.

(** *** Numbers *)

Lemma digit_value_digit n : (n < 10)%N -> digit_value (digit n) = n.
Proof. intros H. unfold digit_value, digit. rewrite code_of_N; lia. Qed.

Lemma is_digit_digit n : (n < 10)%N -> is_ascii_digit (digit n) = true.
Proof.
  intros H. unfold is_ascii_digit, between, digit. rewrite code_of_N by lia.
  apply andb_true_intro. split; apply N.leb_le; lia.
Qed.

Lemma value_of_snoc s c : value_of (s ++ [c]) = (10 * value_of s + digit_value c)%N.
Proof. unfold value_of. by rewrite fold_left_app. Qed.

Lemma size_nat_bound n : (n < 2 ^ N.of_nat (N.size_nat n))%N.
Proof.
  assert (N.of_nat (N.size_nat n) = N.size n) as ->.
  { destruct n as [|p]; [done|]. simpl. induction p; simpl; lia. }
  apply N.size_gt.
Qed.

Lemma show_go_app fuel n acc : show_go fuel n acc = show_go fuel n [] ++ acc.
Proof.
  revert n acc. induction fuel as [|f IH]; intros n acc; simpl; [done|].
  case_match; [done|]. rewrite IH, (IH _ [_]), <- app_assoc. done.
Qed.

Lemma show_go_spec fuel n :
  (n < 2 ^ N.of_nat fuel)%N -> (0 < fuel)%nat ->
  value_of (show_go fuel n []) = n /\ forallb is_ascii_digit (show_go fuel n []) = true /\
  show_go fuel n [] <> [].
Proof.
  revert n. induction fuel as [|f IH]; intros n Hf Hp; [lia|]. cbn [show_go].
  pose proof (N.mod_lt n 10 ltac:(lia)) as Hm.
  destruct (N.eqb_spec (n / 10) 0) as [Hd|Hd].
  - unfold value_of. simpl. rewrite digit_value_digit, is_digit_digit by done.
    split; [|done]. pose proof (N.div_mod n 10). lia.
  - rewrite show_go_app. destruct (IH (n / 10)%N) as (Hv & Hd' & Hne).
    { apply N.Div0.div_lt_upper_bound. rewrite Nat2N.inj_succ, N.pow_succ_r' in Hf. lia. }
    { destruct f; [|lia]. change (2 ^ N.of_nat 1)%N with 2%N in Hf.
      exfalso. apply Hd, N.div_small. lia. }
    rewrite value_of_snoc, Hv, digit_value_digit, forallb_app, Hd' by done.
    simpl. rewrite is_digit_digit by done. split_and!; [|done|by destruct (show_go f _ _)].
    pose proof (N.div_mod n 10). lia.
Qed.

Lemma show_N_spec n :
  value_of (show_N n) = n /\ forallb is_ascii_digit (show_N n) = true /\ show_N n <> [].
Proof.
  apply show_go_spec; [|lia]. pose proof (size_nat_bound n) as H.
  rewrite Nat2N.inj_succ, N.pow_succ_r'. lia.
Qed.

Lemma show_N_digits n : forallb is_ascii_digit (show_N n) = true.
Proof. by apply show_N_spec. Qed.

Lemma show_N_ne n : show_N n <> [].
Proof. by apply show_N_spec. Qed.

Lemma value_of_show_N n : value_of (show_N n) = n.
Proof. by apply show_N_spec. Qed.

Lemma show_N_inj a b : show_N a = show_N b -> a = b.
Proof. intros H. rewrite <- (value_of_show_N a), H. apply value_of_show_N. Qed.

Lemma digit_range c : is_ascii_digit c = true -> (48 <= code c <= 57)%N.
Proof. unfold is_ascii_digit, between. intros H. reflect_bools. lia. Qed.

(** Printing then parsing a number gives the number back. *)
Lemma parse_show max n : (n <= max)%N -> parse_uint max (show_N n) = Some n.
Proof.
  intros Hn. unfold parse_uint. pose proof (show_N_digits n) as Hd.
  pose proof (show_N_ne n) as Hne. pose proof (value_of_show_N n) as Hv.
  destruct (show_N n) as [|c s]; [done|].
  destruct (Ascii.eqb_spec c "+") as [->|_]; [discriminate Hd|].
  rewrite Hd, Hv. by apply N.leb_le in Hn as ->.
Qed.

(** What [parse] accepts is bounded by the width. *)
Lemma parse_uint_bound max s n : parse_uint max s = Some n -> (n <= max)%N.
Proof.
  unfold parse_uint. set (ds := match s with [] => s | _ => _ end).
  destruct ds; [done|]. case_match; [|done]. case_match; [|done].
  intros [= <-]. by apply N.leb_le.
Qed.

(** *** UTF-8 *)

(** A valid string is the concatenation of the sequences of its characters. *)
(** Strong induction on the length, the recursion of the decoder. *)
Lemma bytes_len_ind (P : bytes -> Prop) :
  (forall s, (forall t, (length t < length s)%nat -> P t) -> P s) -> forall s, P s.
Proof.
  intros H s. remember (length s) as n eqn:Hn. revert s Hn.
  induction n as [n IH] using lt_wf_ind. intros s ->. apply H. intros t Ht. by eapply IH.
Qed.

Lemma is_utf8_concat s : is_utf8 s = true -> concat (map item_bytes (utf8_items s)) = s.
Proof.
  induction s as [s IH] using bytes_len_ind. unfold is_utf8.
  destruct s as [|b0 r0]; [done|]. cbn [utf8_items].
  repeat (case_match; try done); cbn [forallb is_chr andb map concat item_bytes app];
    intros H'; try discriminate; subst;
    repeat f_equal; apply IH; simpl; try lia; try done.
Qed.

Lemma lossy_valid s : is_utf8 s = true -> from_utf8_lossy s = s.
Proof.
  intros Hs. rewrite <- (is_utf8_concat s Hs) at 2. unfold from_utf8_lossy, is_utf8 in *. f_equal.
  induction (utf8_items s) as [|[c raw|] l IH]; [done| |done]. cbn [map item_bytes]. f_equal. by apply IH.
Qed.

#[local] Ltac next_byte := cbn beta iota; rewrite <- ?app_comm_cons; cbn beta iota.
#[local] Ltac rest_by IH := cbn [forallb is_chr andb]; intros H; rewrite <- app_comm_cons; f_equal; apply IH; [cbn [length]; lia|exact H].

Lemma utf8_items_app a b : is_utf8 a = true -> utf8_items (a ++ b) = utf8_items a ++ utf8_items b.
Proof.
  induction a as [a IH] using bytes_len_ind. destruct a as [|b0 r0]; [done|]. rewrite <- app_comm_cons. unfold is_utf8.
  cbn [utf8_items]. cbn zeta. destruct (_ <? _)%N; [rest_by IH|].
  destruct (between 194 223 b0).
  { destruct r0 as [|b1 r1]; [done|]. next_byte. destruct (cont b1); [rest_by IH|done]. }
  destruct (between 224 239 b0).
  { destruct r0 as [|b1 r1]; [done|]. next_byte. destruct (ok_second _ b1); [|done]. destruct r1 as [|b2 r2]; [done|]. next_byte. destruct (cont b2); [rest_by IH|done]. }
  destruct (between 240 244 b0); [|done].
  destruct r0 as [|b1 r1]; [done|]. next_byte. destruct (ok_second _ b1); [|done]. destruct r1 as [|b2 r2]; [done|]. next_byte. destruct (cont b2); [|done].
  destruct r2 as [|b3 r3]; [done|]. next_byte. destruct (cont b3); [rest_by IH|done].
Qed.
Lemma is_utf8_app a b : is_utf8 a = true -> is_utf8 b = true -> is_utf8 (a ++ b) = true.
Proof. intros Ha Hb. unfold is_utf8. rewrite utf8_items_app by done. rewrite forallb_app. unfold is_utf8 in *. by rewrite Ha, Hb. Qed.

(** The ASCII control characters of a string are exactly its control bytes: every other
    byte of a multi-byte sequence is at least 128. *)
Definition is_control_char (n : N) : bool := (n <? 32)%N || (n =? 127)%N.

Lemma is_control_char_code c : is_control_char (code c) = is_ascii_control c.
Proof. done. Qed.

Lemma between_range lo hi c : between lo hi c = true <-> (lo <= code c <= hi)%N.
Proof. unfold between. rewrite andb_true_iff, !N.leb_le. done. Qed.

Lemma high_not_control c : (128 <= code c)%N -> is_ascii_control c = false.
Proof.
  intros H. unfold is_ascii_control. apply orb_false_iff. split.
  - apply N.ltb_ge. lia.
  - apply N.eqb_neq. lia.
Qed.

Lemma ok_second_high x c : ok_second x c = true -> (128 <= code c)%N.
Proof. unfold ok_second, cont. repeat case_match; rewrite between_range; lia. Qed.

Lemma lead2_bits c : between 194 223 c = true -> (2 <= N.land (code c) 31)%N.
Proof. all_bytes c; intros; first [discriminate | done]. Qed.

Lemma lead3_bits c : between 224 239 c = true -> code c = 224%N \/ (1 <= N.land (code c) 15)%N.
Proof. all_bytes c; intros; first [discriminate | by left | by right]. Qed.

Lemma lead4_bits c : between 240 244 c = true -> code c = 240%N \/ (1 <= N.land (code c) 7)%N.
Proof. all_bytes c; intros; first [discriminate | by left | by right]. Qed.

Lemma second3_bits c : ok_second 224 c = true -> (32 <= low6 c)%N.
Proof. all_bytes c; intros; first [discriminate | done]. Qed.

Lemma second4_bits c : ok_second 240 c = true -> (16 <= low6 c)%N.
Proof. all_bytes c; intros; first [discriminate | done]. Qed.

(** A decoded character is either an ASCII byte or made of high bytes only, and then its
    value is not ASCII either. *)
Definition item_wf (i : utf8_item) : Prop :=
  match i with
  | Chr c [b] => c = code b
  | Chr c raw => (128 <= c)%N /\ Forall (fun b => (128 <= code b)%N) raw
  | Bad => True
  end.

Lemma utf8_items_wf s : Forall item_wf (utf8_items s).
Proof.
  induction s as [s IH] using bytes_len_ind.
  destruct s as [|b0 r0]; [constructor|]. cbn [utf8_items].
  repeat (case_match; subst; try (by repeat constructor)); constructor;
    try (apply IH; simpl; lia); try done; simpl;
    unfold cont in *; repeat match goal with
    | H : ok_second _ _ = true |- _ =>
        lazymatch goal with _ : (128 <= code _)%N |- _ => fail | _ =>
        pose proof (ok_second_high _ _ H) end
    end.
  - pose proof (lead2_bits _ ltac:(eassumption)). rewrite between_range in *.
    split; [lia|]. repeat constructor; lia.
  - split.
    + destruct (lead3_bits b0 ltac:(assumption)) as [E|E]; [|lia].
      rewrite E in *. pose proof (second3_bits _ ltac:(eassumption)). lia.
    + rewrite between_range in *. repeat constructor; lia.
  - split.
    + destruct (lead4_bits b0 ltac:(assumption)) as [E|E]; [|lia].
      rewrite E in *. pose proof (second4_bits _ ltac:(eassumption)). lia.
    + rewrite between_range in *. repeat constructor; lia.
Qed.

Lemma chars_control_raw i :
  item_wf i -> is_chr i = true ->
  forall c raw, i = Chr c raw -> is_control_char c = existsb is_ascii_control raw.
Proof.
  intros Hi _ c raw ->. simpl in Hi.
  destruct raw as [|b [|b' raw]]; [..|destruct Hi as [Hc Hr]].
  - destruct Hi as [Hc _]. simpl. unfold is_control_char. apply orb_false_iff.
    split; [apply N.ltb_ge|apply N.eqb_neq]; lia.
  - subst. simpl. by rewrite orb_false_r.
  - transitivity false; [|symmetry].
    + unfold is_control_char. apply orb_false_iff.
      split; [apply N.ltb_ge|apply N.eqb_neq]; lia.
    + apply existsb_false. eapply Forall_impl; [exact Hr|].
      intros x Hx. by apply high_not_control.
Qed.

Lemma chars_control s :
  is_utf8 s = true -> existsb is_control_char (chars s) = existsb is_ascii_control s.
Proof.
  intros Hs. rewrite <- (is_utf8_concat s Hs) at 2. unfold is_utf8 in Hs.
  unfold chars. pose proof (utf8_items_wf s) as Hwf.
  induction (utf8_items s) as [|i l IH]; [done|].
  inversion Hwf; subst. simpl in Hs. apply andb_true_iff in Hs as [Hi Hs].
  cbn [map concat]. rewrite existsb_app, <- IH by done.
  destruct i as [c raw|]; [|discriminate]. simpl. f_equal. by eapply chars_control_raw.
Qed.

(** *** Splitting at a string separator *)

Lemma split_once_str_app sep a b :
  (forall x, x ∈ a -> head sep <> Some x) -> sep <> [] ->
  split_once_str sep (a ++ sep ++ b) = Some (a, b).
Proof.
  intros Ha Hs. induction a as [|x a IH].
  - rewrite app_nil_l. assert (strip_prefix sep (sep ++ b) = Some b) as E
      by by apply strip_prefix_Some.
    destruct (sep ++ b); simpl; by rewrite E.
  - simpl. destruct (strip_prefix sep (x :: a ++ sep ++ b)) as [r|] eqn:E.
    + apply strip_prefix_Some in E. destruct sep as [|y sep]; [done|].
      injection E as -> _. destruct (Ha y); [constructor|done].
    + rewrite IH; [done|]. intros y Hy. apply Ha. by constructor.
Qed.

Lemma split_once_str_Some sep s a b : split_once_str sep s = Some (a, b) -> s = a ++ sep ++ b.
Proof.
  revert a b. induction s as [|x s IH]; intros a b; simpl.
  - destruct (strip_prefix sep []) as [r|] eqn:E; [|done].
    intros [= <- <-]. by apply strip_prefix_Some in E.
  - destruct (strip_prefix sep (x :: s)) as [r|] eqn:E.
    + intros [= <- <-]. by apply strip_prefix_Some in E.
    + destruct (split_once_str sep s) as [[a' b']|]; [|done].
      intros [= <- <-]. by rewrite (IH a' b').
Qed.

Lemma split_once_str_head sep s y :
  head sep = Some y -> y ∉ s -> split_once_str sep s = None.
Proof.
  intros Hy. induction s as [|x s IH]; intros Hs; simpl.
  - by destruct sep.
  - destruct (strip_prefix sep (x :: s)) as [r|] eqn:E.
    + apply strip_prefix_Some in E. destruct sep as [|z sep]; [done|].
      injection Hy as ->. injection E as -> _. set_solver.
    + rewrite IH; [done|]. set_solver.
Qed.

(** Any fuel from the length on gives the same parts. *)
Lemma split_str_fuel sep s f :
  sep <> [] -> (length s <= f)%nat -> split_str_go f sep s = split_str sep s.
Proof.
  intros Hs. unfold split_str. revert f. induction s as [s IH] using bytes_len_ind.
  intros f Hf. destruct (split_once_str sep s) as [[a b]|] eqn:E.
  - pose proof (split_once_str_Some _ _ _ _ E) as Hsab.
    assert (length b < length s)%nat as Hb.
    { rewrite Hsab, !length_app. destruct sep; [done|]. simpl. lia. }
    destruct f as [|f]; [lia|]. destruct (length s) as [|n] eqn:En; [lia|].
    cbn [split_str_go]. rewrite E. f_equal.
    rewrite (IH b) by lia. symmetry. apply IH; lia.
  - destruct f as [|f]; destruct (length s); cbn [split_str_go]; by rewrite ?E.
Qed.

Lemma split_str_app sep a b :
  sep <> [] -> (forall x, x ∈ a -> head sep <> Some x) ->
  split_str sep (a ++ sep ++ b) = a :: split_str sep b.
Proof.
  intros Hs Ha. unfold split_str at 1.
  destruct (length (a ++ sep ++ b)) as [|n] eqn:En.
  { rewrite !length_app in En. destruct sep; [done|]. simpl in En. lia. }
  cbn [split_str_go]. rewrite split_once_str_app by done. f_equal.
  apply split_str_fuel; [done|]. rewrite !length_app in En. destruct sep; [done|].
  simpl in En. lia.
Qed.

Lemma split_str_none sep s y : head sep = Some y -> y ∉ s -> split_str sep s = [s].
Proof.
  intros Hy Hs. unfold split_str. destruct (length s); [done|]. cbn [split_str_go].
  by rewrite (split_once_str_head _ _ _ Hy Hs).
Qed.

(** *** Hexadecimal *)

Definition hex_step (v : option N) (c : ascii) : option N :=
  match v, hex_value c with Some v, Some d => Some (16 * v + d)%N | _, _ => None end.

(** The value of a run of hexadecimal digits. *)
Definition hex_of (s : bytes) : option N := fold_left hex_step s (Some 0%N).

Lemma hex_value_low n : (n < 16)%N -> hex_value (hex_low n) = Some n.
Proof.
  intros H. assert (n ∈ map N.of_nat (seq 0 16)) as Hin.
  { apply list_elem_of_fmap. exists (N.to_nat n). split; [lia|]. apply elem_of_seq. lia. }
  revert n H Hin. assert (Forall (fun n => hex_value (hex_low n) = Some n) (map N.of_nat (seq 0 16))) as Hall
    by (vm_compute; repeat constructor).
  rewrite Forall_forall in Hall. auto.
Qed.

Lemma show_hex_go_app fuel n acc : show_hex_go fuel n acc = show_hex_go fuel n [] ++ acc.
Proof.
  revert n acc. induction fuel as [|f IH]; intros n acc; [done|]. cbn [show_hex_go].
  destruct (n / 16 =? 0)%N; [done|]. rewrite IH, (IH _ [_]), <- app_assoc. done.
Qed.

Lemma show_hex_go_spec fuel n :
  (n < 2 ^ N.of_nat fuel)%N -> fuel <> 0%nat ->
  hex_of (show_hex_go fuel n []) = Some n /\ show_hex_go fuel n [] <> [] /\
  forallb is_ascii_hexdigit (show_hex_go fuel n []) = true.
Proof.
  revert n. induction fuel as [|f IH]; intros n Hn Hf; [done|]. cbn [show_hex_go].
  assert (forall d, (d < 16)%N -> is_ascii_hexdigit (hex_low d) = true) as Hd.
  { intros d Hd. assert (d ∈ map N.of_nat (seq 0 16)) as Hin.
    { apply list_elem_of_fmap. exists (N.to_nat d). split; [lia|]. apply elem_of_seq. lia. }
    assert (Forall (fun n => is_ascii_hexdigit (hex_low n) = true) (map N.of_nat (seq 0 16))) as Hall
      by (vm_compute; repeat constructor).
    rewrite Forall_forall in Hall. auto. }
  assert (n mod 16 < 16)%N as Hm by (apply N.mod_lt; lia).
  pose proof (N.div_mod n 16 ltac:(lia)) as Hdm.
  destruct (N.eqb_spec (n / 16) 0) as [E|E].
  - split_and!; [|done|].
    + unfold hex_of. cbn [fold_left hex_step]. rewrite hex_value_low by done. f_equal. lia.
    + simpl. by rewrite Hd.
  - rewrite show_hex_go_app.
    assert (n / 16 < 2 ^ N.of_nat f)%N as Hq.
    { apply N.Div0.div_lt_upper_bound. rewrite Nat2N.inj_succ, N.pow_succ_r' in Hn. lia. }
    assert (f <> 0%nat) as Hf0.
    { intros ->. change (2 ^ N.of_nat 0)%N with 1%N in Hq. lia. }
    destruct (IH _ Hq Hf0) as (Hv & Hne & Hh). split_and!.
    + unfold hex_of in *. rewrite fold_left_app, Hv. cbn [fold_left hex_step].
      rewrite hex_value_low by done. f_equal. lia.
    + intros Hx. apply app_nil in Hx as [? _]. done.
    + rewrite forallb_app, Hh. simpl. by rewrite Hd.
Qed.

Lemma show_hex_spec n :
  hex_of (show_hex n) = Some n /\ show_hex n <> [] /\ forallb is_ascii_hexdigit (show_hex n) = true.
Proof.
  apply show_hex_go_spec; [|done]. pose proof (size_nat_bound n).
  rewrite Nat2N.inj_succ, N.pow_succ_r'. lia.
Qed.

(** ** Words and lines *)

Definition item_white (i : utf8_item) : bool :=
  match i with Chr c _ => is_whitespace c | Bad => false end.

Fixpoint words_go (cur : bytes) (l : list utf8_item) : list bytes :=
  match l with
  | [] => match cur with [] => [] | _ => [cur] end
  | i :: r =>
      if item_white i then match cur with [] => words_go [] r | _ => cur :: words_go [] r end
      else words_go (cur ++ item_bytes i) r
  end.

(** [s.split_whitespace()] of a valid string. *)
Definition split_whitespace (s : bytes) : list bytes := words_go [] (utf8_items s).

(** [s.lines()] *)
Definition line_feed : ascii := ascii_of_N 10.
Definition strip_cr (s : bytes) : bytes :=
  match strip_suffix [ascii_of_N 13] s with Some r => r | None => s end.
Definition str_lines (s : bytes) : list bytes :=
  let parts := split line_feed s in
  map strip_cr (removelast parts) ++ match List.last parts [] with [] => [] | p => [p] end.

(** [s.parse::<iW>().ok()]: an optional sign, then one or more digits, within the bounds. *)
Definition parse_int (lo hi : Z) (s : bytes) : option Z :=
  let '(neg, ds) := match s with
                    | c :: r => if Ascii.eqb c "-" then (true, r)
                                else if Ascii.eqb c "+" then (false, r) else (false, s)
                    | [] => (false, s)
                    end in
  match ds with
  | [] => None
  | _ => if forallb is_ascii_digit ds then
           let v := Z.of_N (value_of ds) in
           let v := if (neg : bool) then (- v)%Z else v in
           if (lo <=? v)%Z && (v <=? hi)%Z then Some v else None
         else None
  end.

Definition i32_min : Z := -2147483648.
Definition i32_max : Z := 2147483647.

Lemma words_white cur i r : item_white i = true ->
  words_go cur (i :: r) = match cur with [] => [] | _ => [cur] end ++ words_go [] r.
Proof. intros Hi. cbn [words_go]. rewrite Hi. by destruct cur. Qed.

(** A word of ASCII graphic characters is read whole. *)
Lemma words_word cur w r : forallb is_ascii_graphic w = true ->
  words_go cur (utf8_items (w ++ r)) = words_go (cur ++ w) (utf8_items r).
Proof.
  revert cur. induction w as [|c w IH]; intros cur Hw; [by rewrite app_nil_r|]. cbn [forallb] in Hw.
  apply andb_true_iff in Hw as [Hc Hw]. cbn [app utf8_items].
  assert (Hlow : (code c <? 128)%N = true) by (revert Hc; by all_bytes c).
  assert (Hwhite : is_whitespace (code c) = false) by (revert Hc; by all_bytes c).
  rewrite Hlow. cbn [words_go item_white item_bytes]. rewrite Hwhite, IH by done. by rewrite <- app_assoc.
Qed.

Definition space : ascii := " "%char.

(** Words printed with a space between them are read back. *)
Lemma split_whitespace_join ws :
  Forall (fun w => w <> [] /\ forallb is_ascii_graphic w = true) ws ->
  split_whitespace (join [space] ws) = ws.
Proof.
  unfold split_whitespace. induction 1 as [|w ws [Hne Hw] Hws IH]; [done|]. destruct ws as [|w' ws].
  - cbn [join]. rewrite <- (app_nil_r w) at 1. rewrite words_word by done. cbn. by destruct w.
  - change (join [space] (w :: w' :: ws)) with (w ++ space :: join [space] (w' :: ws)).
    rewrite words_word by done. change (utf8_items (space :: ?r)) with (Chr 32 [space] :: utf8_items r).
    rewrite words_white by done. rewrite IH. by destruct w.
Qed.
