(* ===== verification/IpAddr.v ===== *)
(** * IpAddr: the parts of [std::net] the network code uses

    Addresses, their classification predicates, [Display] and [FromStr].  Octets are
    bytes, so an address is well formed by typing.  This models the language's standard
    library; it has no source lines of its own. *)
From S2P Require Import Prelude Text.

(** A 16-bit group of an IPv6 address, high octet first. *)
Abbreviation seg := (ascii * ascii)%type.

Definition seg_val (s : seg) : N := code (fst s) * 256 + code (snd s).
Definition seg_of (n : N) : seg := (ascii_of_N (n / 256), ascii_of_N (n mod 256)).

Inductive ipv4 : Type := Ipv4 (a b c d : ascii).
Inductive ipv6 : Type := Ipv6 (s0 s1 s2 s3 s4 s5 s6 s7 : seg).

Inductive ip_addr : Type :=
  | V4 (a : ipv4)
  | V6 (a : ipv6).

#[export] Instance ipv4_eq_dec : EqDecision ipv4.
Proof. solve_decision. Defined.
#[export] Instance ipv6_eq_dec : EqDecision ipv6.
Proof. solve_decision. Defined.
#[export] Instance ip_addr_eq_dec : EqDecision ip_addr.
Proof. solve_decision. Defined.

(** [Ipv4Addr::new] *)
Definition ipv4_new (a b c d : N) : ipv4 :=
  Ipv4 (ascii_of_N a) (ascii_of_N b) (ascii_of_N c) (ascii_of_N d).

Definition octets4 (a : ipv4) : bytes := let 'Ipv4 a b c d := a in [a; b; c; d].

Definition segments (a : ipv6) : list seg :=
  let 'Ipv6 s0 s1 s2 s3 s4 s5 s6 s7 := a in [s0; s1; s2; s3; s4; s5; s6; s7].

Definition octets6 (a : ipv6) : bytes :=
  concat (map (fun s : seg => [fst s; snd s]) (segments a)).

Definition ipv6_of_segments (l : list seg) : option ipv6 :=
  match l with
  | [s0; s1; s2; s3; s4; s5; s6; s7] => Some (Ipv6 s0 s1 s2 s3 s4 s5 s6 s7)
  | _ => None
  end.

Definition is_ipv4 (ip : ip_addr) : bool := match ip with V4 _ => true | V6 _ => false end.

(** ** Classification *)

Module Ipv4Addr.
Definition is_loopback (ip : ipv4) : bool := let 'Ipv4 a _ _ _ := ip in (code a =? 127)%N.
Definition is_link_local (ip : ipv4) : bool :=
  let 'Ipv4 a b _ _ := ip in (code a =? 169)%N && (code b =? 254)%N.
Definition is_broadcast (ip : ipv4) : bool := bool_decide (ip = ipv4_new 255 255 255 255).
Definition is_multicast (ip : ipv4) : bool := let 'Ipv4 a _ _ _ := ip in between 224 239 a.
Definition is_unspecified (ip : ipv4) : bool := bool_decide (ip = ipv4_new 0 0 0 0).
Definition is_documentation (ip : ipv4) : bool :=
  let 'Ipv4 a b c _ := ip in
  ((code a =? 192) && (code b =? 0) && (code c =? 2) ||
   (code a =? 198) && (code b =? 51) && (code c =? 100) ||
   (code a =? 203) && (code b =? 0) && (code c =? 113))%N.
Definition is_private (ip : ipv4) : bool :=
  let 'Ipv4 a b _ _ := ip in
  ((code a =? 10) || (code a =? 172) && between 16 31 b ||
   (code a =? 192) && (code b =? 168))%N.
End Ipv4Addr.

Module Ipv6Addr.
Definition zero : seg := seg_of 0.
Definition localhost : ipv6 := Ipv6 zero zero zero zero zero zero zero (seg_of 1).
Definition unspecified : ipv6 := Ipv6 zero zero zero zero zero zero zero zero.
Definition is_loopback (ip : ipv6) : bool := bool_decide (ip = localhost).
Definition is_unspecified (ip : ipv6) : bool := bool_decide (ip = unspecified).
Definition is_multicast (ip : ipv6) : bool :=
  let 'Ipv6 s0 _ _ _ _ _ _ _ := ip in (N.land (seg_val s0) 65280 =? 65280)%N.
(** [::ffff:a.b.c.d] *)
Definition to_ipv4_mapped (ip : ipv6) : option ipv4 :=
  let 'Ipv6 s0 s1 s2 s3 s4 s5 s6 s7 := ip in
  if bool_decide (s0 = zero /\ s1 = zero /\ s2 = zero /\ s3 = zero /\ s4 = zero /\
                  s5 = seg_of 65535)
  then Some (Ipv4 (fst s6) (snd s6) (fst s7) (snd s7))
  else None.
End Ipv6Addr.

(** ** Display *)

Definition show_ipv4 (a : ipv4) : bytes :=
  join (B ".") (map (fun o => show_N (code o)) (octets4 a)).

Definition hex_digit (n : N) : ascii :=
  if (n <? 10)%N then ascii_of_N (48 + n) else ascii_of_N (87 + n).

(** [{:x}] of a 16-bit group: no leading zeros. *)
Definition show_seg (s : seg) : bytes :=
  let n := seg_val s in
  let ds := map hex_digit [n / 4096 mod 16; n / 256 mod 16; n / 16 mod 16; n mod 16]%N in
  match trim_start_matches (Ascii.eqb "0") ds with [] => B "0" | r => r end.

Definition show_segs (l : list seg) : bytes := join (B ":") (map show_seg l).

(** The first longest run of zero groups: (start, length). *)
Fixpoint zero_runs (i : nat) (cur best : nat * nat) (l : list seg) : nat * nat :=
  match l with
  | [] => best
  | s :: r =>
      if bool_decide (s = Ipv6Addr.zero) then
        let cur' := (if Nat.eqb (snd cur) 0 then i else fst cur, S (snd cur)) in
        zero_runs (S i) cur' (if Nat.ltb (snd best) (snd cur') then cur' else best) r
      else zero_runs (S i) (0, 0) best r
  end.

Definition show_ipv6 (a : ipv6) : bytes :=
  match Ipv6Addr.to_ipv4_mapped a with
  | Some v4 => B "::ffff:" ++ show_ipv4 v4
  | None =>
      let ss := segments a in
      let '(start, n) := zero_runs 0 (0, 0) (0, 0) ss in
      if Nat.ltb 1 n
      then show_segs (take start ss) ++ B "::" ++ show_segs (drop (start + n) ss)
      else show_segs ss
  end.

Definition show_ip (ip : ip_addr) : bytes :=
  match ip with V4 a => show_ipv4 a | V6 a => show_ipv6 a end.

(** ** FromStr: [core::net::parser] *)

Definition to_digit (radix : N) (c : ascii) : option N :=
  let v := if is_ascii_digit c then Some (code c - 48)%N
           else if between 97 102 c then Some (code c - 87)%N
           else if between 65 70 c then Some (code c - 55)%N
           else None in
  match v with Some d => if (d <? radix)%N then Some d else None | None => None end.

(** Reads digits while there are any: (value, number of digits, rest). *)
Fixpoint read_digits (radix : N) (acc : N) (n : nat) (s : bytes) : N * nat * bytes :=
  match s with
  | c :: r => match to_digit radix c with
              | Some d => read_digits radix (acc * radix + d) (S n) r
              | None => (acc, n, s)
              end
  | [] => (acc, n, s)
  end.

Definition read_number (radix : N) (max_digits : nat) (max : N) (allow_zero_prefix : bool)
    (s : bytes) : option (N * bytes) :=
  let '(v, n, r) := read_digits radix 0 0 s in
  let leading_zero := match s with c :: _ => Ascii.eqb c "0" | [] => false end in
  if Nat.ltb max_digits n then None
  else if Nat.eqb n 0 then None
  else if negb allow_zero_prefix && leading_zero && Nat.ltb 1 n then None
  else if (v <=? max)%N then Some (v, r) else None.

Definition read_given_char (c : ascii) (s : bytes) : option bytes := strip_prefix [c] s.

Definition read_octet : bytes -> option (N * bytes) := read_number 10 3 u8_max false.

Definition read_dot_octet (s : bytes) : option (N * bytes) :=
  r ← read_given_char "." s; read_octet r.

Definition read_ipv4_addr (s : bytes) : option (ipv4 * bytes) :=
  '(a, s) ← read_octet s; '(b, s) ← read_dot_octet s;
  '(c, s) ← read_dot_octet s; '(d, s) ← read_dot_octet s;
  Some (ipv4_new a b c d, s).

Definition read_sep (first : bool) (s : bytes) : option bytes :=
  if first then Some s else read_given_char ":" s.

(** [read_groups]: the groups read, whether a trailing IPv4 ended them, the rest. *)
Fixpoint read_groups (limit : nat) (first : bool) (s : bytes) : list seg * bool * bytes :=
  match limit with
  | O => ([], false, s)
  | S l =>
      let v4 := if Nat.ltb 0 l then r ← read_sep first s; read_ipv4_addr r else None in
      match v4 with
      | Some (Ipv4 a b c d, r) => ([(a, b); (c, d)], true, r)
      | None =>
          match r ← read_sep first s; read_number 16 4 u16_max true r with
          | Some (g, r) =>
              let '(gs, v, r') := read_groups l false r in (seg_of g :: gs, v, r')
          | None => ([], false, s)
          end
      end
  end.

Definition read_ipv6_addr (s : bytes) : option (ipv6 * bytes) :=
  let '(head, head_ipv4, r) := read_groups 8 true s in
  if Nat.eqb (length head) 8 then a ← ipv6_of_segments head; Some (a, r)
  else if (head_ipv4 : bool) then None
  else
    r ← read_given_char ":" r; r ← read_given_char ":" r;
    let '(tail, _, r) := read_groups (8 - (length head + 1)) true r in
    let gap := 8 - length head - length tail in
    a ← ipv6_of_segments (head ++ replicate gap Ipv6Addr.zero ++ tail); Some (a, r).

Definition all_consumed {A} (o : option (A * bytes)) : option A :=
  match o with Some (a, []) => Some a | _ => None end.

(** [s.parse::<Ipv4Addr>()] *)
Definition parse_ipv4 (s : bytes) : option ipv4 :=
  if Nat.ltb 15 (length s) then None else all_consumed (read_ipv4_addr s).

(** [s.parse::<Ipv6Addr>()] *)
Definition parse_ipv6 (s : bytes) : option ipv6 := all_consumed (read_ipv6_addr s).

(** [s.parse::<IpAddr>()] *)
Definition parse_ip (s : bytes) : option ip_addr :=
  all_consumed
    match read_ipv4_addr s with
    | Some (a, r) => Some (V4 a, r)
    | None => match read_ipv6_addr s with Some (a, r) => Some (V6 a, r) | None => None end
    end.

(** ** Lemmas *)

Example parse_examples :
  parse_ip (B "192.0.2.1") = Some (V4 (ipv4_new 192 0 2 1)) /\
  parse_ip (B "01.2.3.4") = None /\ parse_ip (B "1.2.3.256") = None /\
  (show_ip <$> parse_ip (B "2001:DB8:0:0::1")) = Some (B "2001:db8::1") /\
  (show_ip <$> parse_ip (B "::ffff:7f00:1")) = Some (B "::ffff:127.0.0.1") /\
  (show_ip <$> parse_ip (B "::")) = Some (B "::") /\
  (show_ip <$> parse_ip (B "1:2:3:4:5:6:1.2.3.4")) = Some (B "1:2:3:4:5:6:102:304") /\
  parse_ip (B "fe80::1::2") = None.
Proof. vm_compute. done. Qed.

Lemma read_octet_show c rest :
  match rest with x :: _ => is_ascii_digit x = false | [] => True end ->
  read_octet (show_N (code c) ++ rest) = Some (code c, rest).
Proof.
  intros Hr.
  assert (read_digits 10 0 0 (show_N (code c) ++ rest) = (code c, length (show_N (code c)), rest)) as E.
  { assert (forall acc n, read_digits 10 acc n rest = (acc, n, rest)) as Hrest.
    { intros acc n. destruct rest as [|x rest]; [done|]. simpl. unfold to_digit.
      rewrite Hr. by all_bytes x. }
    destruct c as [[] [] [] [] [] [] [] []];
      match goal with |- context [show_N ?n] => let v := eval vm_compute in (show_N n) in
        replace (show_N n) with v by (vm_compute; reflexivity) end;
      cbn [app read_digits]; unfold to_digit; simpl; by rewrite Hrest. }
  unfold read_octet, read_number. rewrite E. clear E Hr. revert rest.
  all_bytes c; reflexivity.
Qed.

Lemma ipv4_new_code a b c d : ipv4_new (code a) (code b) (code c) (code d) = Ipv4 a b c d.
Proof. unfold ipv4_new, code. by rewrite !ascii_N_embedding. Qed.

Lemma read_dot_octet_show c rest :
  match rest with x :: _ => is_ascii_digit x = false | [] => True end ->
  read_dot_octet ("."%char :: show_N (code c) ++ rest) = Some (code c, rest).
Proof.
  intros Hr. unfold read_dot_octet, read_given_char. cbn [strip_prefix]. simpl.
  by apply read_octet_show.
Qed.

Lemma read_show_ipv4 a : read_ipv4_addr (show_ipv4 a) = Some (a, []).
Proof.
  destruct a as [a b c d]. unfold show_ipv4, read_ipv4_addr. cbn [map octets4 join B app].
  change (list_ascii_of_string ".") with ["."%char]. cbn [app].
  rewrite read_octet_show by done. simpl. rewrite read_dot_octet_show by done. simpl.
  rewrite read_dot_octet_show by done. simpl.
  rewrite <- (app_nil_r (show_N (code d))). rewrite read_dot_octet_show by done. simpl.
  by rewrite ipv4_new_code.
Qed.

Lemma parse_show_ipv4 a : parse_ip (show_ip (V4 a)) = Some (V4 a).
Proof. unfold parse_ip. simpl. by rewrite read_show_ipv4. Qed.

(** Addresses as keys of finite maps. *)
#[export] Instance ipv4_countable : Countable ipv4.
Proof.
  refine (inj_countable' (fun a => let 'Ipv4 a b c d := a in (a, b, c, d))
    (fun '(a, b, c, d) => Ipv4 a b c d) _).
  by intros [].
Defined.
#[export] Instance ipv6_countable : Countable ipv6.
Proof.
  refine (inj_countable (fun a => segments a) ipv6_of_segments _). by intros [].
Defined.
#[export] Instance ip_addr_countable : Countable ip_addr.
Proof.
  refine (inj_countable' (fun a => match a with V4 a => inl a | V6 a => inr a end)
    (fun s => match s with inl a => V4 a | inr a => V6 a end) _).
  by intros [].
Defined.
