(* ===== verification/Egress.v ===== *)
(** * Egress: allowlist rules and the decision of the filtered-egress mode

    Models [crates/core/src/net/egress.rs]: host-name validation ([normalize_name],
    [SafeName]), CIDR prefixes, allowlist rules, [decide] and the host-side dial guard
    [is_dialable]. *)
From S2P Require Import Prelude Text IpAddr.

Definition MAX_NAME_LEN : nat := 253.
Definition MAX_LABEL_LEN : nat := 63.

Inductive EgressError : Type :=
  | Empty
  | TooLong (n : nat)
  | BadLabel
  | BadCharacter
  | BadWildcard
  | BadCidr (raw : bytes)
  | BadPrefix (p : N).

#[export] Instance EgressError_eq_dec : EqDecision EgressError.
Proof. solve_decision. Defined.

(** ** Host names *)

Definition is_name_byte (b : ascii) : bool :=
  is_ascii_alphanumeric b || Ascii.eqb b "-" || Ascii.eqb b "_".

(** The body of the label loop of [normalize_name]. *)
Definition check_label (label : bytes) : result unit EgressError :=
  if Nat.eqb (length label) 0 || Nat.ltb MAX_LABEL_LEN (length label) then Err BadLabel
  else if starts_with (B "-") label || ends_with (B "-") label then Err BadLabel
  else if negb (forallb is_name_byte label) then Err BadCharacter
  else Ok tt.

Definition normalize_name (raw : bytes) : result bytes EgressError :=
  if beq raw [] then Err Empty
  else
    let trimmed := default raw (strip_suffix (B ".") raw) in
    if beq trimmed [] then Err Empty
    else if Nat.ltb MAX_NAME_LEN (length trimmed) then Err (TooLong (length trimmed))
    else
      let? _ := traverse check_label (split "." trimmed) in
      Ok (to_ascii_lowercase trimmed).

Record SafeName : Type := MkSafeName { name_str : bytes }.

#[export] Instance SafeName_eq_dec : EqDecision SafeName.
Proof. solve_decision. Defined.

Definition placeholder (n : nat) : bytes := B "<invalid:" ++ show_N (N.of_nat n) ++ B ">".

Module SafeName.
Definition parse (raw : bytes) : result SafeName EgressError :=
  rmap MkSafeName (normalize_name raw).

Definition sanitized (raw : bytes) : SafeName :=
  match normalize_name raw with
  | Ok name => MkSafeName name
  | Err _ => MkSafeName (placeholder (length raw))
  end.

Definition sanitized_bytes (raw : bytes) : SafeName :=
  if is_utf8 raw then sanitized raw else MkSafeName (placeholder (length raw)).

Definition from_addr (ip : ip_addr) : SafeName := MkSafeName (show_ip ip).

Definition as_str (n : SafeName) : bytes := name_str n.

Definition is_valid (n : SafeName) : bool := negb (starts_with (B "<invalid:") (name_str n)).
End SafeName.

(** ** CIDR prefixes *)

Record Cidr : Type := MkCidr { base : ip_addr; prefix : N }.

#[export] Instance Cidr_eq_dec : EqDecision Cidr.
Proof. solve_decision. Defined.

(** [a.get(..n)] *)
Definition get_to (n : nat) (l : bytes) : option bytes :=
  if Nat.leb n (length l) then Some (take n l) else None.

(** [0xffu8 << k] *)
Definition mask_u8 (k : N) : N := N.shiftl 255 k mod 256.

Definition prefix_eq (a b : bytes) (prefix : N) : bool :=
  let full := N.to_nat (prefix / 8) in
  if negb (bool_decide (get_to full a = get_to full b)) then false
  else
    let rem := (prefix mod 8)%N in
    if (rem =? 0)%N then true
    else
      let mask := mask_u8 (8 - rem) in
      match a !! full, b !! full with
      | Some x, Some y => (N.land (code x) mask =? N.land (code y) mask)%N
      | _, _ => false
      end.

Module Cidr.
Definition parse (raw : bytes) : result Cidr EgressError :=
  let '(addr_part, prefix_part) :=
    match split_once "/" raw with
    | Some (a, p) => (a, Some p)
    | None => (raw, None)
    end in
  let? base := ok_or (parse_ip addr_part) (BadCidr raw) in
  let width := if is_ipv4 base then 32%N else 128%N in
  let? prefix := match prefix_part with
                 | Some p => ok_or (parse_uint u32_max p) (BadCidr raw)
                 | None => Ok width
                 end in
  if (width <? prefix)%N then Err (BadPrefix prefix) else Ok (MkCidr base prefix).

Definition contains (c : Cidr) (ip : ip_addr) : bool :=
  match base c, ip with
  | V4 b, V4 other => prefix_eq (octets4 b) (octets4 other) (prefix c)
  | V6 b, V6 other => prefix_eq (octets6 b) (octets6 other) (prefix c)
  | _, _ => false
  end.

Definition display (c : Cidr) : bytes := show_ip (base c) ++ B "/" ++ show_N (prefix c).
End Cidr.

(** ** Rules *)

Inductive HostRule : Type :=
  | Exact (name : bytes)
  | Wildcard (suffix : bytes)
  | CidrRule (c : Cidr).

#[export] Instance HostRule_eq_dec : EqDecision HostRule.
Proof. solve_decision. Defined.

Module HostRule.
Definition parse_host (raw : bytes) : result HostRule EgressError :=
  if beq raw [] then Err Empty
  else if beq raw (B "*") || beq raw (B "*.") then Err BadWildcard
  else match strip_prefix (B "*.") raw with
       | Some suffix =>
           if contains "*" suffix then Err BadWildcard
           else rmap Wildcard (normalize_name suffix)
       | None =>
           if contains "*" raw then Err BadWildcard
           else rmap Exact (normalize_name raw)
       end.

Definition parse_cidr (raw : bytes) : result HostRule EgressError :=
  rmap CidrRule (Cidr.parse raw).

Definition display (r : HostRule) : bytes :=
  match r with
  | Exact n => n
  | Wildcard s => B "*." ++ s
  | CidrRule c => Cidr.display c
  end.
End HostRule.

(** ** Targets and the decision *)

(** A port is a [u16]; it takes no part in matching. *)
Inductive Target : Type :=
  | Name (name : SafeName) (port : N)
  | Addr (ip : ip_addr) (port : N).

#[export] Instance Target_eq_dec : EqDecision Target.
Proof. solve_decision. Defined.

Module Target.
Definition port (t : Target) : N := match t with Name _ p | Addr _ p => p end.
Definition safe_host (t : Target) : SafeName :=
  match t with Name n _ => n | Addr ip _ => SafeName.from_addr ip end.
Definition display_host (t : Target) : bytes :=
  match t with Name n _ => name_str n | Addr ip _ => show_ip ip end.
End Target.

Inductive DenyReason : Type :=
  | EmptyAllowlist
  | LiteralAddress
  | NotAllowed
  | Malformed
  | PinnedCredentialHost
  | CredentialRefused
  | NonPublicAddress.

#[export] Instance DenyReason_eq_dec : EqDecision DenyReason.
Proof. solve_decision. Defined.

Module DenyReason.
Definition explain (r : DenyReason) : bytes :=
  match r with
  | EmptyAllowlist => B "the allowlist is empty; this run permits no egress"
  | LiteralAddress => B "the destination is a literal address and no --allow-cidr rule covers it"
  | NotAllowed => B "the destination is not on this run's allowlist"
  | Malformed => B "the requested host name is not a well-formed host name"
  | PinnedCredentialHost =>
      B "this destination is the pinned host of a credential injected into this run. A credential is spent through the endpoint at $ISOPOD_CREDENTIAL_ENDPOINT (GET $ISOPOD_CREDENTIAL_ENDPOINT/<alias>/<path>), which attaches the token host-side; connecting to the host directly is refused so that the token can never be sent by anything but the broker"
  | CredentialRefused =>
      B "the credential endpoint refused this request; the event's " ++ [ascii_of_nat 34] ++
      B "note" ++ [ascii_of_nat 34] ++ B " says which check failed"
  | NonPublicAddress =>
      B "the destination resolved to a loopback, link-local or private address, which the broker will not dial from the host. Allowing one would give the sandbox reach the packet filter denies it — the host's own services, its LAN, the cloud metadata endpoint, or another run's broker. Re-provision with `sudo isopod setup --allow-lan-egress` to permit private ranges; loopback, link-local and isopod's own slot addresses are never dialled"
  end.
End DenyReason.

Inductive Decision : Type := Allow | Deny (why : DenyReason).

#[export] Instance Decision_eq_dec : EqDecision Decision.
Proof. solve_decision. Defined.

Definition is_allowed (d : Decision) : bool := match d with Allow => true | Deny _ => false end.

Definition is_dialable_v4 (v4 : ipv4) (allow_private : bool) : bool :=
  let 'Ipv4 a b _ _ := v4 in
  if (code a =? 10)%N && (code b =? 107)%N then false
  else if Ipv4Addr.is_loopback v4 || Ipv4Addr.is_link_local v4 || Ipv4Addr.is_broadcast v4 ||
          Ipv4Addr.is_multicast v4 || Ipv4Addr.is_unspecified v4 || Ipv4Addr.is_documentation v4
  then false
  else
    let cgnat := (code a =? 100)%N && between 64 127 b in
    if Ipv4Addr.is_private v4 || cgnat then allow_private else true.

Definition is_dialable (ip : ip_addr) (allow_private : bool) : bool :=
  match ip with
  | V4 v4 => is_dialable_v4 v4 allow_private
  | V6 v6 =>
      if Ipv6Addr.is_loopback v6 || Ipv6Addr.is_multicast v6 || Ipv6Addr.is_unspecified v6
      then false
      else
        let 'Ipv6 s0 _ _ _ _ _ _ _ := v6 in
        let sg := seg_val s0 in
        if (N.land sg 65472 =? 65152)%N || (N.land sg 65472 =? 65216)%N then false
        else if (N.land sg 65024 =? 64512)%N then allow_private
        else match Ipv6Addr.to_ipv4_mapped v6 with
             | Some mapped => is_dialable_v4 mapped allow_private
             | None => true
             end
  end.

(** Whether [host] is exactly one label below [suffix]. *)
Definition matches_wildcard (host suffix : bytes) : bool :=
  match strip_suffix suffix host with
  | None => false
  | Some head =>
      match strip_suffix (B ".") head with
      | None => false
      | Some label => negb (beq label []) && negb (contains "." label)
      end
  end.

(** The two loops of [decide]. *)
Definition rule_hits_name (host : bytes) (rule : HostRule) : bool :=
  match rule with
  | Exact want => beq host want
  | Wildcard suffix => matches_wildcard host suffix
  | CidrRule _ => false
  end.

Definition rule_hits_addr (ip : ip_addr) (rule : HostRule) : bool :=
  match rule with CidrRule c => Cidr.contains c ip | _ => false end.

Definition decide (rules : list HostRule) (target : Target) : Decision :=
  match rules with
  | [] => Deny EmptyAllowlist
  | _ =>
      match target with
      | Name name _ =>
          if negb (SafeName.is_valid name) then Deny Malformed
          else if existsb (rule_hits_name (SafeName.as_str name)) rules then Allow
          else Deny NotAllowed
      | Addr ip _ =>
          if existsb (rule_hits_addr ip) rules then Allow else Deny LiteralAddress
      end
  end.

(** ** Specification: canonical host names *)

Definition is_canonical_byte (b : ascii) : bool :=
  is_ascii_lowercase b || is_ascii_digit b || Ascii.eqb b "-" || Ascii.eqb b "_".

(** A label as it is stored: 1 to 63 canonical bytes, no hyphen at either end. *)
Definition good_label (l : bytes) : Prop :=
  1 <= length l <= MAX_LABEL_LEN /\ head l <> Some "-"%char /\ last l <> Some "-"%char /\
  Forall (fun b => is_canonical_byte b = true) l.

(** What a stored name looks like: at most 253 bytes, good labels separated by dots. *)
Definition canonical (n : bytes) : Prop :=
  length n <= MAX_NAME_LEN /\ Forall good_label (split "." n).

(** ** Lemmas on names *)

Lemma starts_with_single c l : starts_with [c] l = true <-> head l = Some c.
Proof. rewrite starts_with_true. destruct l; simpl; naive_solver. Qed.

Lemma ends_with_single c l : ends_with [c] l = true <-> last l = Some c.
Proof. rewrite ends_with_true, last_Some. done. Qed.

Lemma last_lower l c :
  is_ascii_alphabetic c = false ->
  last (to_ascii_lowercase l) = Some c <-> last l = Some c.
Proof.
  intros Hc. unfold to_ascii_lowercase.
  change (last (to_lower <$> l) = Some c <-> last l = Some c).
  rewrite fmap_last. destruct (last l) as [x|]; simpl; [|done].
  pose proof (to_lower_eq_special x c Hc) as Hx. split; intros [= H]; f_equal; tauto.
Qed.

Lemma head_lower l c :
  is_ascii_alphabetic c = false ->
  head (to_ascii_lowercase l) = Some c <-> head l = Some c.
Proof.
  intros Hc. destruct l as [|x l]; simpl; [done|].
  pose proof (to_lower_eq_special x c Hc) as Hx. split; intros [= H]; f_equal; tauto.
Qed.

Lemma canonical_byte_lower b : is_canonical_byte (to_lower b) = is_name_byte b.
Proof. all_bytes b; reflexivity. Qed.

Lemma check_label_spec l : check_label l = Ok tt <-> good_label (to_ascii_lowercase l).
Proof.
  unfold check_label, good_label. rewrite length_to_ascii_lowercase.
  rewrite head_lower, last_lower by done.
  assert (Forall (fun b => is_canonical_byte b = true) (to_ascii_lowercase l) <->
          forallb is_name_byte l = true) as ->.
  { unfold to_ascii_lowercase. rewrite forallb_Forall, List.Forall_map.
    split; intros H; (eapply Forall_impl; [exact H|]); intros b; simpl;
      by rewrite canonical_byte_lower. }
  rewrite <- (starts_with_single "-" l), <- (ends_with_single "-" l).
  change (B "-") with ["-"%char].
  destruct (Nat.eqb_spec (length l) 0); simpl.
  { split; [done|]. intros [? _]. lia. }
  destruct (Nat.ltb_spec MAX_LABEL_LEN (length l)); simpl.
  { split; [done|]. intros [? _]. lia. }
  destruct (starts_with ["-"%char] l), (ends_with ["-"%char] l), (forallb is_name_byte l); simpl;
    split; intros Hx; try done; try (destruct Hx as (? & ? & ? & ?); done).
  split_and!; try done; lia.
Qed.

Lemma traverse_unit {A E} (f : A -> result unit E) l :
  is_ok (traverse f l) = true <-> Forall (fun x => f x = Ok tt) l.
Proof.
  induction l as [|x l IH]; simpl; [split; [constructor|done]|].
  rewrite Forall_cons, <- IH. destruct (f x) as [[]|e]; simpl; [|naive_solver].
  destruct (traverse f l); simpl; naive_solver.
Qed.

Lemma check_labels_spec l :
  is_ok (traverse check_label l) = true <-> Forall good_label (map to_ascii_lowercase l).
Proof.
  rewrite traverse_unit, List.Forall_map. split; intros H; (eapply Forall_impl; [exact H|]);
    intros x; apply check_label_spec.
Qed.

(** The core of [normalize_name], past the trimming. *)
Lemma canonical_lower_iff t :
  (Nat.ltb MAX_NAME_LEN (length t) = false /\ is_ok (traverse check_label (split "." t)) = true)
  <-> canonical (to_ascii_lowercase t).
Proof.
  unfold canonical. rewrite split_lowercase, length_to_ascii_lowercase by done.
  rewrite check_labels_spec, Nat.ltb_ge. done.
Qed.

Lemma canonical_no_final_dot n : ~ canonical (n ++ B ".").
Proof.
  intros [_ H]. change (B ".") with ["."%char] in H.
  rewrite split_app_sep in H. apply Forall_app in H as [_ H].
  apply Forall_cons in H as [[Hl _] _]. simpl in Hl. lia.
Qed.

Lemma canonical_ne n : canonical n -> n <> [].
Proof. intros [_ H] ->. apply Forall_cons in H as [[Hl _] _]. simpl in Hl. lia. Qed.

(** [raw] names [n]: the same up to case and one trailing dot. *)
Definition names (raw n : bytes) : Prop :=
  to_ascii_lowercase raw = n \/ to_ascii_lowercase raw = n ++ B ".".

Lemma trimmed_spec raw :
  let t := default raw (strip_suffix (B ".") raw) in
  (raw = t /\ (forall r, raw <> r ++ B ".")) \/ raw = t ++ B ".".
Proof.
  destruct (strip_suffix (B ".") raw) as [r|] eqn:E; simpl.
  - right. by apply strip_suffix_Some.
  - left. split; [done|]. intros r Hr. apply strip_suffix_Some in Hr. congruence.
Qed.

Lemma lower_dot_inv raw n :
  to_ascii_lowercase raw = n ++ B "." -> exists r, raw = r ++ B "." /\ to_ascii_lowercase r = n.
Proof.
  intros H. destruct raw as [|x r _] using rev_ind.
  - by destruct n.
  - rewrite to_ascii_lowercase_app in H. simpl in H.
    change (B ".") with ["."%char] in H. apply app_inj_tail in H as [H Hx].
    apply (to_lower_eq_special x "." eq_refl) in Hx. subst. by exists r.
Qed.

(** ** Normalisation *)

Lemma normalize_name_iff raw n :
  normalize_name raw = Ok n <-> canonical n /\ names raw n.
Proof.
  unfold normalize_name, names, beq. pose proof (trimmed_spec raw) as Ht. simpl in Ht.
  set (t := default raw (strip_suffix (B ".") raw)) in *.
  pose proof (canonical_lower_iff t) as Hc. split.
  - do 3 (case_test; [done|]). intros Hok. run_ok. split.
    + apply Hc. split; [done|]. by rewrite Hrun.
    + destruct Ht as [[Ht _]|Ht]; rewrite Ht at 1; [left|right]; [by rewrite <- Ht|].
      by rewrite Ht at 1; rewrite to_ascii_lowercase_app.
  - intros [Hn Hname].
    assert (to_ascii_lowercase t = n) as <-.
    { destruct Hname as [Hname|Hname].
      - destruct Ht as [[Ht _]|Ht]; [by rewrite <- Ht|].
        rewrite Ht, to_ascii_lowercase_app in Hname. subst n.
        by apply canonical_no_final_dot in Hn.
      - destruct (lower_dot_inv _ _ Hname) as (r & Hr & <-).
        destruct Ht as [[_ Ht]|Ht]; [by destruct (Ht r)|].
        rewrite Hr in Ht at 1. by apply app_inv_tail in Ht as <-. }
    apply Hc in Hn as [Hl Hok]. pose proof (canonical_ne _ (proj1 Hc (conj Hl Hok))) as Hne.
    rewrite Hl. rewrite !bool_decide_eq_false_2.
    + destruct (traverse check_label (split "." t)); [done|discriminate].
    + intros ->. by apply Hne.
    + intros ->. by apply Hne.
Qed.

(** [normalize_name] decides the documented grammar: it answers exactly the canonical
    names (lower-case labels of letters, digits, hyphens and underscores, within the length
    limits, no hyphen at a label's ends), and answers [n] for exactly the spellings that
    differ from [n] by case and one trailing dot. *)
Theorem normalize_name_spec raw n :
  normalize_name raw = Ok n <-> canonical n /\ names raw n.
Proof. apply normalize_name_iff. Qed.

(** Normalisation is idempotent on what it returns, and a stored name never needs
    another pass. *)
Lemma canonical_lower n : canonical n -> to_ascii_lowercase n = n.
Proof.
  intros [_ H]. rewrite <- (join_split "." n) at 2. rewrite <- (join_split "." n) at 1.
  assert (Forall (fun p => to_ascii_lowercase p = p) (split "." n)) as Hp.
  { eapply Forall_impl; [exact H|]. intros l (_ & _ & _ & Hl).
    induction Hl as [|c l Hc _ IH]; [done|]. simpl. rewrite IH. f_equal.
    revert Hc. by all_bytes c. }
  induction Hp as [|p ps Hp Hps IH]; [done|]. simpl in *.
  apply Forall_cons in H as [_ H].
  destruct ps as [|q ps]; [done|]. rewrite !to_ascii_lowercase_app, Hp. f_equal.
  simpl. f_equal. by apply IH.
Qed.

Lemma normalize_canonical n : canonical n -> normalize_name n = Ok n.
Proof. intros H. apply normalize_name_iff. split; [done|]. left. by apply canonical_lower. Qed.

Definition is_placeholder_byte (b : ascii) : bool :=
  Ascii.eqb b "<" || Ascii.eqb b ">" || Ascii.eqb b ":".

Lemma canonical_bytes n b : canonical n -> b ∈ n -> is_canonical_byte b = true \/ b = "."%char.
Proof.
  intros [_ H] Hb. rewrite <- (join_split "." n) in Hb.
  induction H as [|p ps (_ & _ & _ & Hp) Hps IH]; [by apply not_elem_of_nil in Hb|].
  rewrite Forall_forall in Hp. destruct ps as [|q ps]; simpl in Hb; [left; by apply Hp|].
  apply elem_of_app in Hb as [Hb|Hb]; [left; by apply Hp|].
  apply elem_of_cons in Hb as [Hb|Hb]; [by right|]. by apply IH.
Qed.

Lemma canonical_is_valid n : canonical n -> SafeName.is_valid (MkSafeName n) = true.
Proof.
  intros H. unfold SafeName.is_valid. simpl.
  destruct (starts_with (B "<invalid:") n) eqn:E; [|done].
  apply starts_with_true in E as [r ->].
  destruct (canonical_bytes _ "<"%char H) as [?|?]; [constructor|done|done].
Qed.

Lemma placeholder_invalid k : SafeName.is_valid (MkSafeName (placeholder k)) = false.
Proof. reflexivity. Qed.

Lemma show_N_bytes n b : b ∈ show_N n -> is_ascii_digit b = true.
Proof.
  pose proof (show_N_digits n) as H. rewrite forallb_Forall, Forall_forall in H. apply H.
Qed.

(** The bytes a recorded name can hold: no control byte, no space, no escape, no
    upper-case letter, nothing but host-name bytes and the placeholder's own spelling. *)
Definition is_safe_byte (b : ascii) : bool :=
  is_canonical_byte b || Ascii.eqb b "." || is_placeholder_byte b.

Lemma digit_is_safe b : is_ascii_digit b = true -> is_safe_byte b = true.
Proof. all_bytes b; done. Qed.

Lemma placeholder_bytes k b : b ∈ placeholder k -> is_safe_byte b = true.
Proof.
  unfold placeholder. rewrite !elem_of_app. intros [Hb|[Hb|Hb]].
  - assert (forallb is_safe_byte (B "<invalid:") = true) as H by reflexivity.
    rewrite forallb_Forall, Forall_forall in H. by apply H.
  - by eapply digit_is_safe, show_N_bytes.
  - apply list_elem_of_singleton in Hb as ->. reflexivity.
Qed.

(** The recording constructor never lets an attacker's byte through: whatever the input,
    every byte of the stored name is a safe one; the name is the normalised input when the
    input is acceptable and a placeholder with the input's length otherwise; and the two
    cases cannot be confused, because no acceptable name reads as a placeholder. *)
Theorem sanitized_safe raw :
  Forall (fun b => is_safe_byte b = true) (name_str (SafeName.sanitized raw)) /\
  (if SafeName.is_valid (SafeName.sanitized raw)
   then SafeName.parse raw = Ok (SafeName.sanitized raw)
   else is_ok (SafeName.parse raw) = false /\
        name_str (SafeName.sanitized raw) = placeholder (length raw)).
Proof.
  unfold SafeName.sanitized, SafeName.parse.
  destruct (normalize_name raw) as [n|e] eqn:E; cbn [name_str rmap].
  - apply normalize_name_iff in E as [Hn _]. split.
    + apply Forall_forall. intros b Hb.
      destruct (canonical_bytes _ _ Hn Hb) as [Hc| ->]; [|done].
      unfold is_safe_byte. by rewrite Hc.
    + by rewrite canonical_is_valid.
  - split; [|by rewrite placeholder_invalid].
    apply Forall_forall. intros b. apply placeholder_bytes.
Qed.

(** ** CIDR matching is arithmetic on the address *)

(** An octet string as a big-endian number. *)
Definition be_value (l : bytes) : N := fold_left (fun v c => v * 256 + code c)%N l 0%N.

Lemma be_value_snoc l c : be_value (l ++ [c]) = (be_value l * 256 + code c)%N.
Proof. unfold be_value. by rewrite fold_left_app. Qed.

Lemma pow_8_snoc (l : bytes) c :
  (2 ^ (8 * N.of_nat (length (l ++ [c]))) = 2 ^ (8 * N.of_nat (length l)) * 256)%N.
Proof.
  rewrite length_app. simpl.
  replace (8 * N.of_nat (length l + 1))%N with (8 * N.of_nat (length l) + 8)%N by lia.
  by rewrite N.pow_add_r.
Qed.

Lemma be_value_app l m :
  be_value (l ++ m) = (be_value l * 2 ^ (8 * N.of_nat (length m)) + be_value m)%N.
Proof.
  induction m as [|x m IH] using rev_ind.
  - rewrite app_nil_r. change (be_value []) with 0%N. simpl. lia.
  - rewrite app_assoc, !be_value_snoc, IH, pow_8_snoc. lia.
Qed.

Lemma be_value_bound l : (be_value l < 2 ^ (8 * N.of_nat (length l)))%N.
Proof.
  induction l as [|x l IH] using rev_ind; [reflexivity|].
  rewrite be_value_snoc, pow_8_snoc. pose proof (code_lt x). nia.
Qed.

Lemma be_value_inj l m : length l = length m -> be_value l = be_value m -> l = m.
Proof.
  revert m. induction l as [|x l IH] using rev_ind; intros m Hlen H.
  - by destruct m.
  - destruct m as [|y m _] using rev_ind; rewrite !length_app in Hlen; simpl in Hlen; [lia|].
    rewrite !be_value_snoc in H. pose proof (code_lt x). pose proof (code_lt y).
    assert (be_value l = be_value m /\ code x = code y) as [Hl Hc] by lia.
    f_equal; [apply IH; [lia|done]|]. f_equal. by apply code_inj.
Qed.

(** The first [p] bits of an octet string. *)
Definition top_bits (p : N) (l : bytes) : N :=
  N.shiftr (be_value l) (8 * N.of_nat (length l) - p).

Lemma mask_is_shift k c :
  (0 < k < 8)%N ->
  N.land (code c) (mask_u8 (8 - k)) = N.shiftl (N.shiftr (code c) (8 - k)) (8 - k).
Proof.
  intros Hk.
  assert (k = 1 \/ k = 2 \/ k = 3 \/ k = 4 \/ k = 5 \/ k = 6 \/ k = 7)%N as
    [->|[->|[->|[->|[->|[->| ->]]]]]] by lia; all_bytes c; reflexivity.
Qed.

Lemma mask_eq k c d :
  (0 < k < 8)%N ->
  (N.land (code c) (mask_u8 (8 - k)) =? N.land (code d) (mask_u8 (8 - k)))%N = true <->
  N.shiftr (code c) (8 - k) = N.shiftr (code d) (8 - k).
Proof.
  intros Hk. rewrite N.eqb_eq, !mask_is_shift by done. split; [|by intros ->].
  intros H. apply (f_equal (fun x => N.shiftr x (8 - k))) in H.
  by rewrite !N.shiftr_shiftl_l, !N.sub_diag, !N.shiftl_0_r in H by done.
Qed.

Lemma shiftr_be_app l m : N.shiftr (be_value (l ++ m)) (8 * N.of_nat (length m)) = be_value l.
Proof.
  rewrite be_value_app, N.shiftr_div_pow2. pose proof (be_value_bound m).
  rewrite N.div_add_l by lia. rewrite N.div_small by done. lia.
Qed.

(** The bits above a byte boundary plus [r] bits of the next byte. *)
Lemma shiftr_snoc l c r :
  (0 < r < 8)%N ->
  N.shiftr (be_value (l ++ [c])) (8 - r) = (be_value l * 2 ^ r + N.shiftr (code c) (8 - r))%N /\
  (N.shiftr (code c) (8 - r) < 2 ^ r)%N.
Proof.
  intros Hr. rewrite be_value_snoc, !N.shiftr_div_pow2.
  assert (256 = 2 ^ r * 2 ^ (8 - r))%N as E by (rewrite <- N.pow_add_r; by replace (r + (8 - r))%N with 8%N by lia).
  split.
  - rewrite E at 1. rewrite N.mul_assoc. apply N.div_add_l. apply N.pow_nonzero. lia.
  - apply N.Div0.div_lt_upper_bound. rewrite N.mul_comm, <- E. apply code_lt.
Qed.

Lemma top_bits_byte l m : top_bits (8 * N.of_nat (length l)) (l ++ m) = be_value l.
Proof.
  unfold top_bits. rewrite <- (shiftr_be_app l m). f_equal. rewrite length_app. lia.
Qed.

Lemma top_bits_partial l c m r :
  (0 < r < 8)%N ->
  top_bits (8 * N.of_nat (length l) + r) (l ++ c :: m) =
  (be_value l * 2 ^ r + N.shiftr (code c) (8 - r))%N.
Proof.
  intros Hr. unfold top_bits. rewrite <- (proj1 (shiftr_snoc l c r Hr)).
  rewrite <- (shiftr_be_app (l ++ [c]) m), N.shiftr_shiftr, <- app_assoc. simpl.
  f_equal. rewrite length_app. simpl. lia.
Qed.

Lemma top_bits_whole a n :
  n <= length a -> top_bits (8 * N.of_nat n) a = be_value (take n a).
Proof.
  intros H. rewrite <- (take_drop n a) at 1. rewrite <- (length_take_le a n H) at 1.
  apply top_bits_byte.
Qed.

Lemma top_bits_rest a n x r :
  a !! n = Some x -> (0 < r < 8)%N ->
  top_bits (8 * N.of_nat n + r) a =
  (be_value (take n a) * 2 ^ r + N.shiftr (code x) (8 - r))%N.
Proof.
  intros Hx Hr. pose proof (lookup_lt_Some _ _ _ Hx).
  rewrite <- (take_drop_middle a n x Hx) at 1.
  rewrite <- (length_take_le a n) at 1 by lia. by apply top_bits_partial.
Qed.

Lemma get_to_eq a b n :
  n <= length a -> n <= length b ->
  bool_decide (get_to n a = get_to n b) = true <->
  be_value (take n a) = be_value (take n b).
Proof.
  intros Ha Hb. unfold get_to.
  rewrite (proj2 (Nat.leb_le _ _) Ha), (proj2 (Nat.leb_le _ _) Hb), bool_decide_eq_true.
  split; [by intros [= ->]|]. intros H. f_equal. apply be_value_inj; [|done].
  by rewrite !length_take_le.
Qed.

(** Comparing octets and a masked byte is comparing the leading bits as numbers. *)
Lemma prefix_eq_spec a b p :
  length a = length b -> (p <= 8 * N.of_nat (length a))%N ->
  prefix_eq a b p = true <-> top_bits p a = top_bits p b.
Proof.
  intros Hlen Hp. unfold prefix_eq.
  pose proof (N.div_mod p 8 ltac:(lia)) as Hdm. pose proof (N.mod_lt p 8 ltac:(lia)) as Hm.
  remember (p mod 8)%N as r eqn:Er. remember (N.to_nat (p / 8)) as n eqn:En.
  assert (p = 8 * N.of_nat n + r)%N as Ep by lia.
  assert (n <= length a) as Hn by lia. clear Hdm En Er.
  pose proof (get_to_eq a b n Hn ltac:(lia)) as Hget.
  destruct (N.eqb_spec r 0) as [->|Hz].
  - assert (p = 8 * N.of_nat n)%N as -> by lia. rewrite !top_bits_whole by lia.
    rewrite <- Hget. by destruct (bool_decide _).
  - destruct (lookup_lt_is_Some_2 a n) as [x Hx]; [lia|].
    destruct (lookup_lt_is_Some_2 b n) as [y Hy]; [lia|].
    rewrite Hx, Hy, Ep, (top_bits_rest a n x r), (top_bits_rest b n y r) by (done || lia).
    assert (forall c, N.shiftr (code c) (8 - r) < 2 ^ r)%N as Hlt
      by (intros c; apply (shiftr_snoc [] c r); lia).
    pose proof (Hlt x). pose proof (Hlt y).
    destruct (bool_decide (get_to n a = get_to n b)) eqn:E; simpl.
    + rewrite mask_eq, (proj1 Hget eq_refl) by lia. lia.
    + split; [done|]. intros H'. exfalso. enough (false = true) by done. apply Hget. nia.
Qed.

(** The width of an address and its value as a number. *)
Definition ip_octets (ip : ip_addr) : bytes :=
  match ip with V4 a => octets4 a | V6 a => octets6 a end.

(** The addresses a CIDR block denotes: same family, same leading [prefix] bits. *)
Definition in_cidr (c : Cidr) (ip : ip_addr) : Prop :=
  is_ipv4 (base c) = is_ipv4 ip /\
  top_bits (prefix c) (ip_octets ip) = top_bits (prefix c) (ip_octets (base c)).

Lemma length_octets4 a : length (octets4 a) = 4.
Proof. by destruct a. Qed.
Lemma length_octets6 a : length (octets6 a) = 16.
Proof. by destruct a. Qed.

Definition cidr_wf (c : Cidr) : Prop :=
  (prefix c <= if is_ipv4 (base c) then 32 else 128)%N.

Lemma parse_cidr_wf raw c : Cidr.parse raw = Ok c -> cidr_wf c.
Proof.
  unfold Cidr.parse.
  generalize (match split_once "/" raw with
              | Some (a, p) => (a, Some p) | None => (raw, None) end).
  intros [ap pp] H. run_ok. unfold cidr_wf.
  destruct (N.ltb_spec (if is_ipv4 a then 32 else 128) a0) as [|Hw]; [done|].
  injection H as <-. exact Hw.
Qed.

Lemma contains_spec c ip : cidr_wf c -> Cidr.contains c ip = true <-> in_cidr c ip.
Proof.
  unfold cidr_wf, Cidr.contains, in_cidr. destruct c as [[b|b] p], ip as [o|o]; simpl;
    intros Hp; try (split; [done|intros [? _]; done]).
  - rewrite prefix_eq_spec by (rewrite ?length_octets4; done || lia). naive_solver.
  - rewrite prefix_eq_spec by (rewrite ?length_octets6; done || lia). naive_solver.
Qed.

(** A CIDR the operator wrote matches exactly the addresses of its family with the same
    leading bits, whatever the alignment of the prefix. *)
Theorem cidr_contains_iff raw c (Hparse : Cidr.parse raw = Ok c) ip :
  Cidr.contains c ip = true <-> in_cidr c ip.
Proof. apply contains_spec. by eapply parse_cidr_wf. Qed.

(** ** Wildcards and the decision *)

(** A wildcard covers exactly one further label: never the apex, never two labels, never
    a mere textual suffix. *)
Lemma matches_wildcard_iff host suffix :
  matches_wildcard host suffix = true <->
  exists label, host = label ++ B "." ++ suffix /\ label <> [] /\ "."%char ∉ label.
Proof.
  unfold matches_wildcard. split.
  - destruct (strip_suffix suffix host) as [head|] eqn:Eh; [|done].
    destruct (strip_suffix (B ".") head) as [label|] eqn:El; [|done].
    apply strip_suffix_Some in Eh as ->. apply strip_suffix_Some in El as ->.
    intros H. reflect_bools. apply bool_decide_eq_false in H. apply contains_false in H0.
    exists label. by rewrite <- app_assoc.
  - intros (label & -> & Hne & Hdot). rewrite app_assoc.
    assert (strip_suffix suffix ((label ++ B ".") ++ suffix) = Some (label ++ B ".")) as ->
      by by apply strip_suffix_Some.
    assert (strip_suffix (B ".") (label ++ B ".") = Some label) as ->
      by by apply strip_suffix_Some.
    apply contains_false in Hdot as ->. apply andb_true_intro. split; [|done].
    apply negb_true_iff. by apply bool_decide_eq_false.
Qed.

(** What an allowlist entry authorises, independently of the code's loops. *)
Inductive permits : HostRule -> Target -> Prop :=
  | permits_exact n p :
      SafeName.is_valid (MkSafeName n) = true -> permits (Exact n) (Name (MkSafeName n) p)
  | permits_wildcard label suffix p :
      label <> [] -> "."%char ∉ label ->
      SafeName.is_valid (MkSafeName (label ++ B "." ++ suffix)) = true ->
      permits (Wildcard suffix) (Name (MkSafeName (label ++ B "." ++ suffix)) p)
  | permits_cidr c ip p : in_cidr c ip -> permits (CidrRule c) (Addr ip p).

Lemma permits_valid r n p : permits r (Name n p) -> SafeName.is_valid n = true.
Proof. by inversion 1. Qed.

(** The reason a refusal reports. *)
Inductive refused_because (rules : list HostRule) : Target -> DenyReason -> Prop :=
  | because_empty t : rules = [] -> refused_because rules t EmptyAllowlist
  | because_malformed n p :
      rules <> [] -> SafeName.is_valid n = false -> refused_because rules (Name n p) Malformed
  | because_not_allowed n p :
      rules <> [] -> SafeName.is_valid n = true ->
      ~ Exists (fun r => permits r (Name n p)) rules ->
      refused_because rules (Name n p) NotAllowed
  | because_literal ip p :
      rules <> [] -> ~ Exists (fun r => permits r (Addr ip p)) rules ->
      refused_because rules (Addr ip p) LiteralAddress.

Definition rule_wf (r : HostRule) : Prop :=
  match r with CidrRule c => cidr_wf c | _ => True end.

Lemma parsed_rule_wf raw r :
  HostRule.parse_host raw = Ok r \/ HostRule.parse_cidr raw = Ok r -> rule_wf r.
Proof.
  intros [H|H].
  - unfold HostRule.parse_host, rmap in H. repeat case_match; simplify_eq; done.
  - unfold HostRule.parse_cidr, rmap in H. destruct (Cidr.parse raw) eqn:E; [|done].
    injection H as <-. by eapply parse_cidr_wf.
Qed.

Lemma rule_hits_name_iff n p r :
  SafeName.is_valid n = true -> rule_hits_name (SafeName.as_str n) r = true <-> permits r (Name n p).
Proof.
  destruct n as [h]. intros Hv. destruct r as [w|s|c]; simpl.
  - rewrite beq_true. split; [intros ->; by constructor | by inversion 1].
  - rewrite matches_wildcard_iff. split.
    + intros (l & -> & Hne & Hdot). by constructor.
    + inversion 1; subst. eauto.
  - split; [done | by inversion 1].
Qed.

Lemma rule_hits_addr_iff ip p r :
  rule_wf r -> rule_hits_addr ip r = true <-> permits r (Addr ip p).
Proof.
  destruct r as [w|s|c]; simpl; try (split; [done | by inversion 1]).
  intros Hc. rewrite contains_spec by done. split; [by constructor | by inversion 1].
Qed.

Lemma existsb_permits (f : HostRule -> bool) t rules :
  (forall r, r ∈ rules -> f r = true <-> permits r t) ->
  existsb f rules = true <-> Exists (fun r => permits r t) rules.
Proof.
  intros H. rewrite existsb_Exists, !Exists_exists. naive_solver.
Qed.

(** The shape both halves of [decide] end in. *)
Lemma decide_branch rules t why (b : bool) :
  b = true <-> Exists (fun r => permits r t) rules ->
  (~ Exists (fun r => permits r t) rules -> refused_because rules t why) ->
  (forall why', refused_because rules t why' ->
     ~ Exists (fun r => permits r t) rules /\ why' = why) ->
  ((if b then Allow else Deny why) = Allow <-> Exists (fun r => permits r t) rules) /\
  (forall why', (if b then Allow else Deny why) = Deny why' <-> refused_because rules t why').
Proof.
  intros He Hw Hinv. destruct b.
  - assert (Exists (fun r => permits r t) rules) as Hx by by apply He.
    split; [by split|]. intros why'. split; [done|]. intros H. by destruct (Hinv _ H).
  - assert (~ Exists (fun r => permits r t) rules) as Hx by (intros Hx; by apply He in Hx).
    split; [by split|]. intros why'. split; [intros [= <-]; by apply Hw|].
    intros H. by destruct (Hinv _ H) as [_ ->].
Qed.

(** C26: [decide] is default-deny and complete: it allows exactly what some rule authorises,
    with name rules for names and CIDR rules for literal addresses only, and every refusal
    carries the one reason that applies. *)
Theorem decide_spec rules t (Hwf : Forall rule_wf rules) :
  (decide rules t = Allow <-> Exists (fun r => permits r t) rules) /\
  (forall why, decide rules t = Deny why <-> refused_because rules t why).
Proof.
  destruct rules as [|r0 rs]; [simpl; split|].
  { split; [done|]. by inversion 1. }
  { intros why. split; [intros [= <-]; by constructor | by inversion 1]. }
  rewrite Forall_forall in Hwf. unfold decide. set (rules := r0 :: rs) in *.
  assert (rules <> []) as Hne by done. clearbody rules.
  destruct t as [n p|ip p].
  - destruct (SafeName.is_valid n) eqn:Hv; simpl.
    + pose proof (existsb_permits (rule_hits_name (SafeName.as_str n)) (Name n p) rules
        (fun r _ => rule_hits_name_iff n p r Hv)) as He.
      apply (decide_branch rules _ NotAllowed _ He); [by apply because_not_allowed|].
      intros why' Hw. inversion Hw; subst; try congruence; done.
    + split.
      * split; [done|]. intros H. apply Exists_exists in H as (r & _ & Hr).
        apply permits_valid in Hr. congruence.
      * intros why. split; [intros [= <-]; by constructor|]. inversion 1; subst; congruence.
  - pose proof (existsb_permits (rule_hits_addr ip) (Addr ip p) rules
      (fun r Hr => rule_hits_addr_iff ip p r (Hwf r Hr))) as He.
    apply (decide_branch rules _ LiteralAddress _ He); [by apply because_literal|].
    intros why' Hw. inversion Hw; subst; try congruence; done.
Qed.

(** ** The dial guard as address blocks *)

(** [ip] lies in one of the blocks written [l]. *)
Definition in_blocks (l : list string) (ip : ip_addr) : Prop :=
  Exists (fun s => exists c, Cidr.parse (B s) = Ok c /\ in_cidr c ip) l.

Definition blocks (l : list string) : list Cidr :=
  omap (fun s => match Cidr.parse (B s) with Ok c => Some c | Err _ => None end) l.

Lemma in_blocks_test l ip :
  in_blocks l ip <-> existsb (fun c => Cidr.contains c ip) (blocks l) = true.
Proof.
  unfold in_blocks. induction l as [|s l IH]; simpl.
  - split; [by inversion 1|done].
  - rewrite Exists_cons, IH. destruct (Cidr.parse (B s)) as [c|e] eqn:E; simpl.
    + rewrite orb_true_iff, contains_spec by (by eapply parse_cidr_wf). naive_solver.
    + naive_solver.
Qed.

(** The slot supernet, loopback, link-local (cloud metadata), broadcast, multicast,
    unspecified and documentation addresses: never dialled. *)
Definition never_v4 : list string :=
  ["10.107.0.0/16"; "127.0.0.0/8"; "169.254.0.0/16"; "255.255.255.255/32"; "224.0.0.0/4";
   "0.0.0.0/32"; "192.0.2.0/24"; "198.51.100.0/24"; "203.0.113.0/24"]%string.

(** RFC 1918 and carrier NAT: only with the LAN flag. *)
Definition private_v4 : list string :=
  ["10.0.0.0/8"; "172.16.0.0/12"; "192.168.0.0/16"; "100.64.0.0/10"]%string.

Definition never_v6 : list string :=
  ["::1/128"; "::/128"; "ff00::/8"; "fe80::/10"; "fec0::/10"]%string.
Definition private_v6 : list string := ["fc00::/7"]%string.

(** Prefix tests at the widths the blocks use, as tests on octet values. *)
Definition eqc (x a : ascii) : bool := (code a =? code x)%N.

Lemma eqc_spec x a : eqc x a = true <-> x = a.
Proof.
  unfold eqc. rewrite N.eqb_eq. split; [|by intros ->]. intros H. symmetry. by apply code_inj.
Qed.

Lemma eqc_refl x : eqc x x = true.
Proof. by apply eqc_spec. Qed.

Lemma get_to_octets n (l m : bytes) :
  n <= length l -> n <= length m ->
  bool_decide (get_to n l = get_to n m) = forallb (fun p => eqc (fst p) (snd p)) (take n (zip l m)).
Proof.
  revert l m. induction n as [|n IH]; intros l m Hl Hm.
  - by apply bool_decide_eq_true_2.
  - destruct l as [|x l], m as [|y m]; simpl in Hl, Hm; try lia. simpl.
    rewrite <- IH by lia. unfold get_to. simpl.
    rewrite (proj2 (Nat.leb_le n (length l))), (proj2 (Nat.leb_le n (length m))) by lia.
    apply eq_true_iff_eq. rewrite bool_decide_eq_true, andb_true_iff, bool_decide_eq_true, eqc_spec.
    split; [by intros [= -> ->] | by intros [-> [= ->]]].
Qed.

(** Rewrites every prefix test of the goal at a literal width. *)
Ltac octet_tests :=
  unfold prefix_eq;
  repeat match goal with
  | |- context [N.to_nat ?n] => let v := eval vm_compute in (N.to_nat n) in
      change (N.to_nat n) with v
  end;
  rewrite !get_to_octets by (simpl; lia); simpl.

Lemma if_negb_id (b : bool) : (if negb b then false else true) = b.
Proof. by destruct b. Qed.

Lemma ipv4_eqc x y z w a b c d :
  bool_decide (Ipv4 a b c d = Ipv4 x y z w) = eqc x a && eqc y b && eqc z c && eqc w d.
Proof.
  apply eq_true_iff_eq. rewrite bool_decide_eq_true, !andb_true_iff, !eqc_spec.
  split; [by intros [= -> -> -> ->] | by intros [[[-> ->] ->] ->]].
Qed.

Lemma if_negb_and (b c : bool) : (if negb b then false else c) = b && c.
Proof. by destruct b. Qed.

(** Masked comparisons against a literal octet are ranges. *)
Lemma masked_224_4 a :
  match N.land (code a) (mask_u8 (8 - 4 mod 8)) with
  | 0%N => false | N.pos q => (224 =? q)%positive end = between 224 239 a.
Proof. by all_bytes a. Qed.
Lemma masked_16_4 a :
  match N.land (code a) (mask_u8 (8 - 12 mod 8)) with
  | 0%N => false | N.pos q => (16 =? q)%positive end = between 16 31 a.
Proof. by all_bytes a. Qed.
Lemma masked_64_2 a :
  match N.land (code a) (mask_u8 (8 - 10 mod 8)) with
  | 0%N => false | N.pos q => (64 =? q)%positive end = between 64 127 a.
Proof. by all_bytes a. Qed.

Create Rewrite HintDb blocks.
#[export] Hint Rewrite if_negb_id if_negb_and ipv4_eqc masked_224_4 masked_16_4 masked_64_2 : blocks.

(** Octet tests against literals, and both sides in one association. *)
Ltac octet_norm :=
  autorewrite with blocks;
  repeat match goal with
  | |- context [eqc ?x ?a] =>
      let v := eval vm_compute in (code x) in change (eqc x a) with (code a =? v)%N
  end;
  rewrite ?andb_true_r, ?orb_false_r, ?andb_assoc, ?orb_assoc; reflexivity.

Lemma v4_blocks_never a b c d :
  existsb (fun k => Cidr.contains k (V4 (Ipv4 a b c d))) (blocks never_v4) =
  ((code a =? 10) && (code b =? 107))%N ||
  (Ipv4Addr.is_loopback (Ipv4 a b c d) || Ipv4Addr.is_link_local (Ipv4 a b c d) ||
   Ipv4Addr.is_broadcast (Ipv4 a b c d) || Ipv4Addr.is_multicast (Ipv4 a b c d) ||
   Ipv4Addr.is_unspecified (Ipv4 a b c d) || Ipv4Addr.is_documentation (Ipv4 a b c d)).
Proof.
  let v := eval vm_compute in (blocks never_v4) in change (blocks never_v4) with v.
  cbn [existsb Cidr.contains base prefix octets4]. octet_tests.
  unfold Ipv4Addr.is_broadcast, Ipv4Addr.is_unspecified, ipv4_new.
  octet_norm.
Qed.

Lemma v4_blocks_private a b c d :
  existsb (fun k => Cidr.contains k (V4 (Ipv4 a b c d))) (blocks private_v4) =
  Ipv4Addr.is_private (Ipv4 a b c d) || (code a =? 100)%N && between 64 127 b.
Proof.
  let v := eval vm_compute in (blocks private_v4) in change (blocks private_v4) with v.
  cbn [existsb Cidr.contains base prefix octets4]. octet_tests.
  octet_norm.
Qed.

Lemma dialable_v4_spec v4 allow :
  is_dialable_v4 v4 allow = true <->
  ~ in_blocks never_v4 (V4 v4) /\ (allow = true \/ ~ in_blocks private_v4 (V4 v4)).
Proof.
  destruct v4 as [a b c d]. rewrite !in_blocks_test, v4_blocks_never, v4_blocks_private.
  unfold is_dialable_v4.
  generalize ((code a =? 10) && (code b =? 107))%N.
  generalize (Ipv4Addr.is_private (Ipv4 a b c d) || (code a =? 100)%N && between 64 127 b).
  match goal with |- context [if ?x then false else if _ then allow else true] =>
    generalize x end.
  intros [] [] []; simpl; destruct allow; intuition congruence.
Qed.

(** The IPv6 half: group masks are tests on the first two octets. *)
Lemma seg_masks h l :
  (N.land (seg_val (h, l)) 65280 =? 65280)%N = (code h =? 255)%N /\
  (N.land (seg_val (h, l)) 65472 =? 65152)%N = ((code h =? 254)%N && between 128 191 l) /\
  (N.land (seg_val (h, l)) 65472 =? 65216)%N = ((code h =? 254)%N && between 192 255 l) /\
  (N.land (seg_val (h, l)) 65024 =? 64512)%N = between 252 253 h.
Proof.
  split_and!; apply eqb_prop; revert h l;
  match goal with |- forall h l, Bool.eqb (@?f h l) (@?g h l) = true =>
    refine (all_byte_pairs (fun h l => Bool.eqb (f h l) (g h l)) _) end;
  vm_compute; reflexivity.
Qed.

Lemma masked_128_2 a :
  match N.land (code a) (mask_u8 (8 - 10 mod 8)) with
  | 0%N => false | N.pos q => (128 =? q)%positive end = between 128 191 a.
Proof. by all_bytes a. Qed.
Lemma masked_192_2 a :
  match N.land (code a) (mask_u8 (8 - 10 mod 8)) with
  | 0%N => false | N.pos q => (192 =? q)%positive end = between 192 255 a.
Proof. by all_bytes a. Qed.
Lemma masked_252_7 a :
  match N.land (code a) (mask_u8 (8 - 7 mod 8)) with
  | 0%N => false | N.pos q => (252 =? q)%positive end = between 252 253 a.
Proof. by all_bytes a. Qed.
#[export] Hint Rewrite masked_128_2 masked_192_2 masked_252_7 : blocks.

Lemma ipv6_eqc a0 a1 a2 a3 a4 a5 a6 a7 b0 b1 b2 b3 b4 b5 b6 b7 :
  bool_decide (Ipv6 a0 a1 a2 a3 a4 a5 a6 a7 = Ipv6 b0 b1 b2 b3 b4 b5 b6 b7) =
  forallb (fun p : seg * seg => eqc (fst (fst p)) (fst (snd p)) && eqc (snd (fst p)) (snd (snd p)))
    (zip [b0; b1; b2; b3; b4; b5; b6; b7] [a0; a1; a2; a3; a4; a5; a6; a7]).
Proof.
  apply eq_true_iff_eq. rewrite bool_decide_eq_true. simpl.
  rewrite !andb_true_iff, !eqc_spec.
  assert (forall x y : seg, x = y <-> fst y = fst x /\ snd y = snd x) as Hp
    by (intros [] []; simpl; split; [by intros [= -> ->] | by intros [-> ->]]).
  split.
  - intros [= -> -> -> -> -> -> -> ->]. done.
  - intros H. repeat match goal with H : _ /\ _ |- _ => destruct H end.
    f_equal; apply Hp; done.
Qed.

Lemma v6_blocks_never v6 :
  existsb (fun k => Cidr.contains k (V6 v6)) (blocks never_v6) =
  Ipv6Addr.is_loopback v6 || Ipv6Addr.is_unspecified v6 || Ipv6Addr.is_multicast v6 ||
  (N.land (seg_val (let 'Ipv6 s0 _ _ _ _ _ _ _ := v6 in s0)) 65472 =? 65152)%N ||
  (N.land (seg_val (let 'Ipv6 s0 _ _ _ _ _ _ _ := v6 in s0)) 65472 =? 65216)%N.
Proof.
  destruct v6 as [[h0 l0] [h1 l1] [h2 l2] [h3 l3] [h4 l4] [h5 l5] [h6 l6] [h7 l7]].
  unfold Ipv6Addr.is_multicast. destruct (seg_masks h0 l0) as (-> & -> & -> & _).
  unfold Ipv6Addr.is_loopback, Ipv6Addr.is_unspecified, Ipv6Addr.localhost, Ipv6Addr.unspecified.
  rewrite !ipv6_eqc.
  let v := eval vm_compute in (blocks never_v6) in change (blocks never_v6) with v.
  cbn [existsb Cidr.contains base prefix octets6 segments map concat fst snd app]. octet_tests.
  octet_norm.
Qed.

Lemma v6_blocks_private v6 :
  existsb (fun k => Cidr.contains k (V6 v6)) (blocks private_v6) =
  (N.land (seg_val (let 'Ipv6 s0 _ _ _ _ _ _ _ := v6 in s0)) 65024 =? 64512)%N.
Proof.
  destruct v6 as [[h0 l0] [h1 l1] [h2 l2] [h3 l3] [h4 l4] [h5 l5] [h6 l6] [h7 l7]].
  destruct (seg_masks h0 l0) as (_ & _ & _ & ->).
  let v := eval vm_compute in (blocks private_v6) in change (blocks private_v6) with v.
  cbn [existsb Cidr.contains base prefix octets6 segments map concat fst snd app]. octet_tests.
  octet_norm.
Qed.

Lemma dialable_blocks ip allow :
  is_dialable ip allow = true <->
  match ip with
  | V4 _ => ~ in_blocks never_v4 ip /\ (allow = true \/ ~ in_blocks private_v4 ip)
  | V6 v6 =>
      ~ in_blocks never_v6 ip /\ (allow = true \/ ~ in_blocks private_v6 ip) /\
      match Ipv6Addr.to_ipv4_mapped v6 with
      | Some v4 => ~ in_blocks never_v4 (V4 v4) /\
                   (allow = true \/ ~ in_blocks private_v4 (V4 v4))
      | None => True
      end
  end.
Proof.
  destruct ip as [v4|v6]; [apply dialable_v4_spec|].
  rewrite !in_blocks_test, v6_blocks_never, v6_blocks_private.
  destruct v6 as [s0 s1 s2 s3 s4 s5 s6 s7]. unfold is_dialable.
  set (mapped := Ipv6Addr.to_ipv4_mapped _).
  assert (forall v4, mapped = Some v4 -> (N.land (seg_val s0) 65024 =? 64512)%N = false) as Hm.
  { intros v4. unfold mapped. simpl. case_bool_decide as Hz; [|done].
    by destruct Hz as [-> _]. }
  destruct (Ipv6Addr.is_loopback _), (Ipv6Addr.is_unspecified _), (Ipv6Addr.is_multicast _);
    simpl; try (split; [done|intros [? _]; done]).
  destruct (_ =? 65152)%N, (_ =? 65216)%N; simpl; try (split; [done|intros [? _]; done]).
  destruct mapped as [v4|].
  - rewrite (Hm v4 eq_refl). cbv iota. rewrite dialable_v4_spec. naive_solver.
  - destruct (_ =? 64512)%N; naive_solver.
Qed.

(** C32: The dial guard, as address blocks: loopback, link-local and metadata, multicast,
    unspecified, documentation and isopod's own slot addresses are never dialled; private
    ranges only with the LAN flag; and an IPv4-mapped address is judged as the IPv4 address
    it spells. *)
Theorem is_dialable_spec ip allow :
  is_dialable ip allow = true <->
  match ip with
  | V4 _ => ~ in_blocks never_v4 ip /\ (allow = true \/ ~ in_blocks private_v4 ip)
  | V6 v6 =>
      ~ in_blocks never_v6 ip /\ (allow = true \/ ~ in_blocks private_v6 ip) /\
      match Ipv6Addr.to_ipv4_mapped v6 with
      | Some v4 => ~ in_blocks never_v4 (V4 v4) /\
                   (allow = true \/ ~ in_blocks private_v4 (V4 v4))
      | None => True
      end
  end.
Proof. exact (dialable_blocks ip allow). Qed.

(** ** Witnesses *)

Definition example_rules : list HostRule :=
  [Exact (B "pypi.org"); Wildcard (B "pythonhosted.org");
   CidrRule (MkCidr (V4 (ipv4_new 192 0 2 0)) 24)].

Lemma decide_spec_witness :
  Forall rule_wf example_rules /\
  Exists (fun r => permits r (Name (SafeName.sanitized (B "Files.PythonHosted.org.")) 443))
    example_rules /\
  refused_because example_rules (Addr (V4 (ipv4_new 151 101 0 223)) 443) LiteralAddress.
Proof.
  assert (Forall rule_wf example_rules) as Hwf by (repeat constructor; done).
  split; [exact Hwf|]. split.
  - apply (decide_spec example_rules (Name (SafeName.sanitized (B "Files.PythonHosted.org.")) 443)
      Hwf). vm_compute. reflexivity.
  - apply (decide_spec example_rules (Addr (V4 (ipv4_new 151 101 0 223)) 443) Hwf).
    vm_compute. reflexivity.
Defined.

Lemma cidr_contains_iff_witness :
  in_cidr (MkCidr (V4 (ipv4_new 10 0 0 0)) 12) (V4 (ipv4_new 10 15 255 255)) /\
  ~ in_cidr (MkCidr (V4 (ipv4_new 10 0 0 0)) 12) (V4 (ipv4_new 10 16 0 0)).
Proof.
  assert (Cidr.parse (B "10.0.0.0/12") = Ok (MkCidr (V4 (ipv4_new 10 0 0 0)) 12)) as Hp
    by (vm_compute; reflexivity).
  split.
  - apply (cidr_contains_iff _ _ Hp). vm_compute. reflexivity.
  - intros H. apply (cidr_contains_iff _ _ Hp) in H. vm_compute in H. discriminate H.
Defined.
