(* ===== verification/Credentials.v ===== *)
(** * Credentials: request rules, target normalisation and credential resolution

    Models [crates/core/src/net/credentials.rs] and [secret.rs]: the closed method set,
    path globs, [allow] rules and presets, [normalize_target], and the resolution of named
    credentials for an operator or a model.  The environment, the filesystem and the JSON
    decoder are parameters of the resolution functions. *)
From S2P Require Import Prelude Text IpAddr Egress.

(** ** Methods *)

Inductive Method : Type := Get | Head | Post | Put | Patch | Delete.

#[export] Instance Method_eq_dec : EqDecision Method.
Proof. solve_decision. Defined.

Module Method.
Definition parse (raw : bytes) : option Method :=
  if beq raw (B "GET") then Some Get
  else if beq raw (B "HEAD") then Some Head
  else if beq raw (B "POST") then Some Post
  else if beq raw (B "PUT") then Some Put
  else if beq raw (B "PATCH") then Some Patch
  else if beq raw (B "DELETE") then Some Delete
  else None.

Definition as_str (m : Method) : bytes :=
  match m with
  | Get => B "GET" | Head => B "HEAD" | Post => B "POST"
  | Put => B "PUT" | Patch => B "PATCH" | Delete => B "DELETE"
  end.

Definition is_safe (m : Method) : bool := match m with Get | Head => true | _ => false end.
End Method.

(** ** Path globs *)

Record PathGlob : Type := MkGlob { segments : list bytes; trailing : bool }.

#[export] Instance PathGlob_eq_dec : EqDecision PathGlob.
Proof. solve_decision. Defined.

(** One constructor per message of [PathGlob::parse]. *)
Inductive GlobError : Type :=
  | NotAbsolute (raw : bytes)
  | QueryOrFragment
  | PercentEscape
  | Backslash
  | NotVisible
  | DoubleStarNotLast
  | EmptySegment
  | DotSegment
  | PartialWildcard.

#[export] Instance GlobError_eq_dec : EqDecision GlobError.
Proof. solve_decision. Defined.

(** [(0x21..=0x7e).contains(&b)] *)
Definition is_visible (b : ascii) : bool := between 33 126 b.

(** The loop over the parts: the segments and whether it ended on a double star. *)
Fixpoint glob_parts (parts : list bytes) : result (list bytes * bool) GlobError :=
  match parts with
  | [] => Ok ([], false)
  | part :: rest =>
      if beq part (B "**") then
        match rest with [] => Ok ([], true) | _ => Err DoubleStarNotLast end
      else if beq part [] then Err EmptySegment
      else if beq part (B ".") || beq part (B "..") then Err DotSegment
      else if contains "*" part && negb (beq part (B "*")) then Err PartialWildcard
      else
        let? (segs, tr) := glob_parts rest in
        Ok (part :: segs, tr)
  end.

Module PathGlob.
Definition parse (raw : bytes) : result PathGlob GlobError :=
  if negb (starts_with (B "/") raw) then Err (NotAbsolute raw)
  else if contains "?" raw || contains "#" raw then Err QueryOrFragment
  else if contains "%" raw then Err PercentEscape
  else if contains "\" raw then Err Backslash
  else if negb (forallb is_visible raw) then Err NotVisible
  else
    let body := drop 1 raw in
    if beq body [] then Ok (MkGlob [] false)
    else
      let? (segs, tr) := glob_parts (split "/" body) in
      Ok (MkGlob segs tr).

Definition matches (g : PathGlob) (target : bytes) : bool :=
  let path := match split_once "?" target with Some (p, _) => p | None => target end in
  let body := default path (strip_prefix (B "/") path) in
  let actual := if beq body [] then [] else split "/" body in
  if (if trailing g then Nat.ltb (length actual) (length (segments g))
      else negb (Nat.eqb (length actual) (length (segments g))))
  then false
  else forallb (fun p => beq (fst p) (B "*") || beq (fst p) (snd p)) (zip (segments g) actual).

Definition display (g : PathGlob) : bytes :=
  B "/" ++ join (B "/") (segments g) ++
  (if trailing g then match segments g with [] => B "**" | _ => B "/**" end else []).
End PathGlob.

(** ** Request rules *)

Record RequestRule : Type := MkRule { methods : list Method; path : PathGlob }.

#[export] Instance RequestRule_eq_dec : EqDecision RequestRule.
Proof. solve_decision. Defined.

Inductive RuleError : Type :=
  | NotMethodPath (raw : bytes)
  | UnknownMethod (raw method : bytes)
  | BadGlob (e : GlobError).

#[export] Instance RuleError_eq_dec : EqDecision RuleError.
Proof. solve_decision. Defined.

Module RequestRule.
Definition preset (name : bytes) : option (list RequestRule) :=
  if beq name (B "readonly") then Some [MkRule [Get; Head] (MkGlob [] true)]
  else if beq name (B "none") then Some []
  else None.

Definition parse (raw : bytes) : result (list RequestRule) RuleError :=
  let trimmed := trim raw in
  match preset trimmed with
  | Some p => Ok p
  | None =>
      let? (method, path) := ok_or (split_once " " trimmed) (NotMethodPath raw) in
      let? parsed := ok_or (Method.parse (trim method)) (UnknownMethod raw (trim method)) in
      let? glob := map_err BadGlob (PathGlob.parse (trim path)) in
      Ok [MkRule [parsed] glob]
  end.

Definition permits (r : RequestRule) (m : Method) (p : bytes) : bool :=
  existsb (fun m' => bool_decide (m' = m)) (methods r) && PathGlob.matches (path r) p.

Definition display (r : RequestRule) : bytes :=
  join (B "|") (map Method.as_str (methods r)) ++ B " " ++ PathGlob.display (path r).
End RequestRule.

(** ** Target normalisation *)

(** [u8::from_str_radix(h, 16)] of two bytes: the library also accepts a leading [+]. *)
Definition hex_pair (a b : ascii) : option N :=
  if Ascii.eqb a "+" then hex_value b
  else match hex_value a, hex_value b with
       | Some x, Some y => Some (x * 16 + y)%N
       | _, _ => None
       end.

(** The loop over the percent signs of the path. *)
Fixpoint check_escapes (s : bytes) : result unit string :=
  match s with
  | [] => Ok tt
  | c :: r =>
      if Ascii.eqb c "%" then
        let hex := match r with a :: b :: _ => hex_pair a b | _ => None end in
        match hex with
        | Some d =>
            if ((33 <=? d) && (d <=? 126) && negb (d =? 37))%N then check_escapes r
            else Err "request target must not percent-encode a control character, a space, or another percent sign"%string
        | None => Err "request target contains a malformed percent-escape"%string
        end
      else check_escapes r
  end.

Definition encodes_separator (path : bytes) : bool :=
  let lowered := to_ascii_lowercase path in
  existsb (fun enc => contains_str (B enc) lowered) ["%2f"; "%5c"; "%2e"]%string.

Definition normalize_target (raw : bytes) : result bytes string :=
  if beq raw [] then Err "empty request target"%string
  else if negb (starts_with (B "/") raw) then
    Err "request target must be origin-form, beginning with '/'"%string
  else if contains "#" raw then Err "request target must not contain a fragment"%string
  else if starts_with (B "//") raw then
    Err "request target must not begin with '//' (scheme-relative)"%string
  else if match raw !! 1 with Some c => Ascii.eqb c "\" | None => false end then
    Err "request target must not begin with '/\'"%string
  else if contains "\" raw then Err "request target must not contain a backslash"%string
  else if negb (forallb is_visible raw) then
    Err "request target must be visible ASCII with no spaces or control bytes"%string
  else
    let '(path, query) := match split_once "?" raw with
                          | Some (p, q) => (p, Some q)
                          | None => (raw, None)
                          end in
    if encodes_separator path then
      Err "request target must not percent-encode '/', '\' or '.'"%string
    else
      let? _ := check_escapes path in
      if contains ";" path then
        Err "request target must not contain a path parameter (';')"%string
      else if existsb (fun s => beq s (B ".") || beq s (B "..")) (split "/" path) then
        Err "request target must not contain '.' or '..' segments"%string
      else if contains_str (B "//") path then
        Err "request target must not contain an empty segment"%string
      else Ok (match query with Some q => path ++ B "?" ++ q | None => path end).

(** ** Secrets *)

Record Secret : Type := MkSecret { expose : bytes }.

Module Secret.
Definition is_blank (s : Secret) : bool := beq (trim (expose s)) [].

(** [b == b'\t' || (0x20..=0x7e).contains(&b)] *)
Definition is_header_byte (b : ascii) : bool := (code b =? 9)%N || between 32 126 b.

Definition has_illegal_header_bytes (s : Secret) : bool :=
  negb (forallb is_header_byte (expose s)).
End Secret.

(** ** The store and its resolution *)

Inductive Caller : Type := Operator | Model.

Inductive CredScheme : Type := Bearer.

Inductive Problem : Type :=
  | AliasNotName
  | HostWildcard
  | HostNotName
  | AllowEmpty
  | ProblemRule (e : RuleError)
  | ProblemSameAs (first : bytes).

(** Paths and the library's error texts are byte strings. *)
Inductive CredError : Type :=
  | NoStore (path : bytes)
  | BadMode (path : bytes) (mode : N)
  | NotRegular (path : bytes)
  | Unreadable (path : bytes) (reason : bytes)
  | BadVersion (found : N)
  | BadSpec (alias : bytes) (problem : Problem)
  | Unavailable (alias : bytes)
  | UnavailableOpaque.

Definition for_caller (e : CredError) (c : Caller) : CredError :=
  match c with Model => UnavailableOpaque | Operator => e end.

Record CredentialSpec : Type := MkSpec {
  spec_host : bytes; spec_scheme : CredScheme; spec_source : bytes;
  spec_allow : list bytes; spec_mcp : bool }.

(** The [BTreeMap] of the file, in its iteration order. *)
Record CredentialStore : Type := MkStore {
  version : N; credentials : list (bytes * CredentialSpec) }.

Record ResolvedCredential : Type := MkCredential {
  alias : SafeName; host : SafeName; scheme : CredScheme;
  allow : list RequestRule; secret : Secret }.

Definition cred_permits (c : ResolvedCredential) (m : Method) (p : bytes) : bool :=
  existsb (fun r => RequestRule.permits r m p) (allow c).

Definition CREDENTIALS_VERSION : N := 1.
Definition MAX_SOURCE_BYTES : N := 65536.

(** Why a source did not resolve; told to the operator only. *)
Inductive SourceError : Type :=
  | EnvNoName
  | EnvUnset (name : bytes)
  | SourceNotAbsolute
  | SourceUnreadable (kind : bytes)
  | SourceNotRegular
  | SourceTooLarge
  | SourceBadMode (mode : N)
  | SourceNoPrefix
  | SecretEmpty
  | SecretIllegal (alias : bytes).

(** What [symlink_metadata] reports. *)
Record FileMeta : Type := MkMeta { is_file : bool; st_mode : N; st_len : N }.

Inductive IoError : Type := NotFound | OtherIo (kind : bytes).

Definition io_text (e : IoError) : bytes :=
  match e with NotFound => B "entity not found" | OtherIo k => k end.

Section Resolution.
(** The process environment, the filesystem and the JSON decoder. *)
Variable env_var : bytes -> option bytes.
Variable symlink_metadata : bytes -> result FileMeta IoError.
Variable read_to_string : bytes -> result bytes IoError.
Variable from_json : bytes -> result CredentialStore bytes.

Definition check_secret (alias : bytes) (s : Secret) : result Secret SourceError :=
  if Secret.is_blank s then Err SecretEmpty
  else if Secret.has_illegal_header_bytes s then Err (SecretIllegal alias)
  else Ok s.

Definition is_newline (b : ascii) : bool := (code b =? 10)%N || (code b =? 13)%N.

Definition resolve_source (source alias : bytes) : result Secret SourceError :=
  let? secret :=
    match strip_prefix (B "env:") source with
    | Some name =>
        if beq name [] then Err EnvNoName
        else rmap MkSecret (ok_or (env_var name) (EnvUnset name))
    | None =>
        match strip_prefix (B "file:") source with
        | Some path =>
            if negb (starts_with (B "/") path) then Err SourceNotAbsolute
            else
              let? meta := map_err (fun e => SourceUnreadable (io_text e))
                             (symlink_metadata path) in
              if negb (is_file meta) then Err SourceNotRegular
              else if (MAX_SOURCE_BYTES <? st_len meta)%N then Err SourceTooLarge
              else
                let mode := N.land (st_mode meta) 511 in
                if negb (N.land mode 63 =? 0)%N then Err (SourceBadMode mode)
                else
                  let? raw := map_err (fun e => SourceUnreadable (io_text e))
                                (read_to_string path) in
                  Ok (MkSecret (trim_end_matches is_newline raw))
        | None => Err SourceNoPrefix
        end
    end in
  check_secret alias secret.

(** Aliases that differ only in case make the store ambiguous. *)
Fixpoint check_aliases (seen : gmap (list ascii) bytes) (keys : list bytes)
    : result unit CredError :=
  match keys with
  | [] => Ok tt
  | a :: r =>
      let folded := to_ascii_lowercase a in
      match seen !! folded with
      | Some first => Err (BadSpec a (ProblemSameAs first))
      | None => check_aliases (<[folded := a]> seen) r
      end
  end.

Definition read_store (path : bytes) : result CredentialStore CredError :=
  let? meta := map_err (fun e => match e with
                                 | NotFound => NoStore path
                                 | OtherIo k => Unreadable path k
                                 end) (symlink_metadata path) in
  if negb (is_file meta) then Err (NotRegular path)
  else
    let mode := N.land (st_mode meta) 511 in
    if negb (N.land mode 63 =? 0)%N then Err (BadMode path mode)
    else if (MAX_SOURCE_BYTES <? st_len meta)%N then
      Err (Unreadable path (B "larger than 65536 bytes"))
    else
      let? raw := map_err (fun e => Unreadable path (io_text e)) (read_to_string path) in
      let? store := map_err (Unreadable path) (from_json raw) in
      if negb (version store =? CREDENTIALS_VERSION)%N then Err (BadVersion (version store))
      else
        let? _ := check_aliases ∅ (map fst (credentials store)) in
        Ok store.

Definition resolve_one (alias : bytes) (store : CredentialStore) (caller : Caller)
    : result ResolvedCredential CredError :=
  let unavailable := for_caller (Unavailable alias) caller in
  match List.find (fun kv => eq_ignore_ascii_case (fst kv) alias) (credentials store) with
  | None => Err unavailable
  | Some (_, spec) =>
      if match caller with Model => negb (spec_mcp spec) | Operator => false end
      then Err unavailable
      else
        let? alias_name := map_err (fun _ => BadSpec alias AliasNotName) (SafeName.parse alias) in
        if contains "*" (spec_host spec) then Err (BadSpec alias HostWildcard)
        else
          let? host := map_err (fun _ => BadSpec alias HostNotName)
                         (SafeName.parse (spec_host spec)) in
          match spec_allow spec with
          | [] => Err (BadSpec alias AllowEmpty)
          | entries =>
              let? rules := map_err (fun e => BadSpec alias (ProblemRule e))
                              (traverse RequestRule.parse entries) in
              let? secret := map_err (fun _ => unavailable)
                               (resolve_source (spec_source spec) alias) in
              Ok (MkCredential alias_name host (spec_scheme spec) (concat rules) secret)
          end
  end.

Definition load_credentials (required : list bytes) (caller : Caller) (store_path : bytes)
    : result (list ResolvedCredential) CredError :=
  match required with
  | [] => Ok []
  | _ =>
      map_err (fun e => for_caller e caller)
        (let? store := read_store store_path in
         traverse (fun a => resolve_one a store caller) required)
  end.
End Resolution.

(** ** Lemmas on percent-escapes *)

(** A server's decoder: one pass over the percent-escapes. *)
Fixpoint pct_decode (s : bytes) : bytes :=
  match s with
  | [] => []
  | c :: r =>
      if Ascii.eqb c "%" then
        match r with
        | a :: b :: r' =>
            match hex_value a, hex_value b with
            | Some x, Some y => ascii_of_N (x * 16 + y) :: pct_decode r'
            | _, _ => c :: pct_decode r
            end
        | _ => c :: pct_decode r
        end
      else c :: pct_decode r
  end.

(** A byte an accepted escape can stand for. *)
Definition plain_byte (d : ascii) : Prop :=
  is_visible d = true /\ d <> "%"%char /\ d <> "/"%char /\ d <> "."%char /\ d <> "\"%char.

(** Paths all of whose escapes stand for plain bytes, with their decoding. *)
Inductive decodes : bytes -> bytes -> Prop :=
  | decodes_nil : decodes [] []
  | decodes_lit c s q : c <> "%"%char -> decodes s q -> decodes (c :: s) (c :: q)
  | decodes_esc a b d s q x y :
      hex_value a = Some x -> hex_value b = Some y -> d = ascii_of_N (x * 16 + y) ->
      plain_byte d -> decodes s q -> decodes ("%"%char :: a :: b :: s) (d :: q).

Lemma contains_str_true p s : contains_str p s = true <-> exists l r, s = l ++ p ++ r.
Proof.
  induction s as [|x s IH]; simpl; rewrite orb_true_iff.
  - rewrite starts_with_true. split.
    + intros [[r Hr]|H]; [|done]. by exists [], r.
    + intros (l & r & H). left. exists []. destruct l, p, r; done.
  - rewrite starts_with_true, IH. split.
    + intros [[r Hr]|(l & r & ->)]; [by exists [], r|by exists (x :: l), r].
    + intros (l & r & H). destruct l as [|y l]; [by left; exists r|right].
      injection H as -> ->. by exists l, r.
Qed.

Lemma contains_str_false_app p l s : contains_str p (l ++ s) = false -> contains_str p s = false.
Proof.
  intros H. destruct (contains_str p s) eqn:E; [|done].
  apply contains_str_true in E as (l' & r & ->).
  rewrite (proj2 (contains_str_true p (l ++ l' ++ p ++ r))) in H; [done|].
  exists (l ++ l'), r. by rewrite <- app_assoc.
Qed.

Lemma encodes_separator_tail c s : encodes_separator (c :: s) = false -> encodes_separator s = false.
Proof.
  unfold encodes_separator. cbn [existsb to_ascii_lowercase map].
  intros H. reflect_bools.
  assert (forall p, contains_str p (to_lower c :: to_ascii_lowercase s) = false ->
                    contains_str p (to_ascii_lowercase s) = false) as Ht
    by (intros p; apply (contains_str_false_app p [to_lower c])).
  cbn [existsb]. by rewrite !Ht.
Qed.

(** The three spellings the path may not hold, at the head of the path. *)
Lemma encodes_separator_head a b s :
  encodes_separator ("%"%char :: a :: b :: s) = false ->
  forall d, hex_pair a b = Some d -> Ascii.eqb a "+" = false ->
  (d <> 47 /\ d <> 92 /\ d <> 46)%N.
Proof.
  intros H d Hd Hp.
  assert (encodes_separator ["%"%char; a; b] = false) as H3.
  { unfold encodes_separator in *. cbn [existsb to_ascii_lowercase map] in *.
    reflect_bools. rewrite !orb_false_iff. 
    assert (forall p, contains_str p ([to_lower "%"; to_lower a; to_lower b] ++ to_ascii_lowercase s) = false ->
              contains_str p [to_lower "%"; to_lower a; to_lower b] = false) as Ht.
    { intros p Hc. destruct (contains_str p [_; _; _]) eqn:E; [|done].
      apply contains_str_true in E as (l & r & E). rewrite E in Hc.
      rewrite (proj2 (contains_str_true _ _)) in Hc; [done|].
      exists l, (r ++ to_ascii_lowercase s). by rewrite <- !app_assoc. }
    split_and!; try done; by apply Ht. }
  clear H. revert H3 d Hd Hp.
  assert (forall a b, (if encodes_separator ["%"%char; a; b] then true
            else if Ascii.eqb a "+" then true
            else match hex_pair a b with
                 | Some d => negb (d =? 47)%N && negb (d =? 92)%N && negb (d =? 46)%N
                 | None => true end) = true) as Hall.
  { apply all_byte_pairs. vm_compute. reflexivity. }
  intros H3 d Hd Hp. specialize (Hall a b). rewrite H3, Hp, Hd in Hall. reflect_bools. done.
Qed.

Lemma hex_value_lt c x : hex_value c = Some x -> (x < 16)%N.
Proof. revert x. all_bytes c; intros x [= <-]; reflexivity. Qed.

(** A pair that decodes to a visible byte is two hex digits: the [+] form the library also
    accepts only spells values below 16. *)
Lemma hex_pair_digits a b d :
  hex_pair a b = Some d -> (33 <= d)%N ->
  exists x y, hex_value a = Some x /\ hex_value b = Some y /\ d = (x * 16 + y)%N /\
              Ascii.eqb a "+" = false.
Proof.
  unfold hex_pair. destruct (Ascii.eqb a "+") eqn:Ha.
  - intros Hb Hd. apply hex_value_lt in Hb. lia.
  - destruct (hex_value a) as [x|], (hex_value b) as [y|]; try done.
    intros [= <-] _. by exists x, y.
Qed.

Lemma code_neq n c : (n < 256)%N -> n <> code c -> ascii_of_N n <> c.
Proof. intros Hn Hc <-. by rewrite code_of_N in Hc. Qed.

Lemma visible_code d : (33 <= d <= 126)%N -> is_visible (ascii_of_N d) = true.
Proof.
  intros H. unfold is_visible. rewrite between_range, code_of_N; lia.
Qed.

(** An accepted path decodes. *)
Lemma accepted_decodes s :
  check_escapes s = Ok tt -> encodes_separator s = false -> decodes s (pct_decode s).
Proof.
  induction s as [s IH] using bytes_len_ind. destruct s as [|c r]; [constructor|].
  cbn [check_escapes pct_decode]. intros Hc He.
  destruct (Ascii.eqb_spec c "%") as [->|Hne].
  - destruct r as [|a [|b r]]; [done..|].
    destruct (hex_pair a b) as [d|] eqn:Hd; [|done].
    destruct (_ && _ && _) eqn:Hr; [|done]. reflect_bools.
    destruct (hex_pair_digits a b d Hd) as (x & y & Hx & Hy & -> & Hp); [lia|].
    destruct (encodes_separator_head a b r He _ Hd Hp) as (N1 & N2 & N3).
    rewrite Hx, Hy.
    eapply decodes_esc; [exact Hx|exact Hy|done| |].
    + split_and!; [by apply visible_code| | | |]; apply code_neq; try lia; assumption.
    + apply IH; [simpl; lia| |].
      * assert (Ascii.eqb a "%" = false /\ Ascii.eqb b "%" = false) as [Ea Eb].
        { split; apply Ascii.eqb_neq; intros ->; discriminate. }
        cbn [check_escapes] in Hc. by rewrite Ea, Eb in Hc.
      * by do 3 apply encodes_separator_tail in He.
  - constructor; [done|]. apply IH; [simpl; lia|done|].
    by apply encodes_separator_tail in He.
Qed.

Lemma pct_decode_id s : "%"%char ∉ s -> pct_decode s = s.
Proof.
  induction s as [|c s IH]; [done|]. intros Hs. simpl.
  destruct (Ascii.eqb_spec c "%"); [set_solver|]. rewrite IH; [done|set_solver].
Qed.

Lemma decodes_no_percent s q : decodes s q -> "%"%char ∉ q.
Proof. induction 1; [set_solver|set_solver|]. destruct H2 as (_ & ? & _). set_solver. Qed.

Lemma decodes_fun s q : decodes s q -> pct_decode s = q.
Proof.
  induction 1; [done| |]; simpl.
  - destruct (Ascii.eqb_spec c "%"); [done|]. by f_equal.
  - rewrite H, H0. subst. by f_equal.
Qed.

(** Each segment decodes on its own, and decoding makes no new segment. *)
Lemma decodes_split s q :
  decodes s q ->
  split "/" q = map pct_decode (split "/" s) /\
  Forall (fun seg => decodes seg (pct_decode seg)) (split "/" s).
Proof.
  induction 1 as [|c s q Hc Hd [IH1 IH2]|a b d s q x y Ha Hb Ed Hp Hd [IH1 IH2]].
  - split; [done|]. repeat constructor.
  - cbn [split]. rewrite IH1. pose proof (split_ne "/" s) as Hne.
    destruct (Ascii.eqb_spec c "/") as [->|_].
    + split; [done|]. constructor; [constructor|done].
    + destruct (split "/" s) as [|h t]; [done|]. simpl map.
      destruct (Ascii.eqb_spec c "%"); [done|]. split; [done|].
      apply Forall_cons in IH2 as [Hh Ht]. constructor; [|done]. simpl.
      destruct (Ascii.eqb_spec c "%"); [done|]. by constructor.
  - destruct Hp as (Hv & H37 & H47 & H46 & H92).
    assert (Ascii.eqb a "/" = false /\ Ascii.eqb b "/" = false) as [Ea Eb].
    { split; apply Ascii.eqb_neq; intros ->; discriminate. }
    cbn [split]. rewrite IH1, Ea, Eb. pose proof (split_ne "/" s) as Hne.
    change (Ascii.eqb "%" "/") with false. cbv iota.
    destruct (Ascii.eqb_spec d "/") as [|_]; [done|].
    destruct (split "/" s) as [|h t]; [done|]. simpl map. rewrite Ha, Hb, <- Ed.
    split; [done|]. apply Forall_cons in IH2 as [Hh Ht]. constructor; [|done]. simpl.
    rewrite Ha, Hb, <- Ed. by eapply decodes_esc.
Qed.

Lemma decodes_dots s q : decodes s q -> Forall (fun c => c = "."%char) q -> s = q.
Proof.
  induction 1 as [|c s q Hc Hd IH|a b d s q x y Ha Hb Ed (_ & _ & _ & H46 & _) Hd IH];
    [done| |]; intros Hq; apply Forall_cons in Hq as [H1 H2]; [|done].
  f_equal. by apply IH.
Qed.

Lemma decodes_visible s q :
  decodes s q -> forallb is_visible s = true -> forallb is_visible q = true.
Proof.
  induction 1 as [|c s q Hc Hd IH|a b d s q x y Ha Hb Ed (Hv & _) Hd IH]; simpl; [done| |];
    intros H; reflect_bools; apply andb_true_intro; (split; [done|by apply IH]).
Qed.

Lemma decodes_backslash s q : decodes s q -> "\"%char ∉ s -> "\"%char ∉ q.
Proof.
  induction 1 as [|c s q Hc Hd IH|a b d s q x y Ha Hb Ed (_ & _ & _ & _ & Hb') Hd IH];
    [done|set_solver|set_solver].
Qed.

(** ** Target normalisation *)

(** The part of a target before the query. *)
Definition target_path (t : bytes) : bytes :=
  match split_once "?" t with Some (p, _) => p | None => t end.

(** What [normalize_target] establishes about a target and about every way a server may
    decode it. *)
Definition safe_target (t : bytes) : Prop :=
  let p := target_path t in
  (exists r, t = "/"%char :: r /\ head r <> Some "/"%char /\ head r <> Some "\"%char) /\
  forallb is_visible t = true /\ "#"%char ∉ t /\ "\"%char ∉ t /\ ";"%char ∉ p /\
  contains_str (B "//") p = false /\
  Forall (fun seg => seg <> B "." /\ seg <> B "..") (split "/" p) /\
  split "/" (pct_decode p) = map pct_decode (split "/" p) /\
  Forall (fun seg => seg <> B "." /\ seg <> B "..") (split "/" (pct_decode p)) /\
  pct_decode (pct_decode p) = pct_decode p /\
  forallb is_visible (pct_decode p) = true /\ "\"%char ∉ pct_decode p.

Lemma dots_segment seg :
  decodes seg (pct_decode seg) -> seg <> B "." /\ seg <> B ".." ->
  pct_decode seg <> B "." /\ pct_decode seg <> B "..".
Proof.
  intros Hd [H1 H2]. split; intros E; rewrite E in Hd;
    apply decodes_dots in Hd; [done|by repeat constructor|done|by repeat constructor].
Qed.

Lemma target_path_incl t x : x ∈ target_path t -> x ∈ t.
Proof.
  unfold target_path. destruct (split_once "?" t) as [[p q]|] eqn:E; [|done].
  apply split_once_Some in E as [-> _]. set_solver.
Qed.

Lemma forallb_target_path t : forallb is_visible t = true -> forallb is_visible (target_path t) = true.
Proof.
  rewrite !forallb_Forall, !Forall_forall. intros H x Hx. by apply H, target_path_incl.
Qed.

Lemma safe_segments p :
  existsb (fun s => beq s (B ".") || beq s (B "..")) (split "/" p) = false ->
  Forall (fun seg => seg <> B "." /\ seg <> B "..") (split "/" p).
Proof.
  intros H. apply existsb_false in H. eapply Forall_impl; [exact H|]. intros s Hs.
  simpl in Hs. apply orb_false_iff in Hs as [H1 H2]. unfold beq in *.
  by apply bool_decide_eq_false in H1, H2.
Qed.

Lemma normalized raw t (Hok : normalize_target raw = Ok t) :
  t = raw /\ safe_target t.
Proof.
  revert Hok. unfold normalize_target.
  destruct (beq raw []) eqn:E0; [done|]. destruct (starts_with (B "/") raw) eqn:E1; [|done].
  destruct (contains "#" raw) eqn:E2; [done|]. destruct (starts_with (B "//") raw) eqn:E3; [done|].
  destruct (match raw !! 1 with Some _ => _ | None => _ end) eqn:E4; [done|].
  destruct (contains "\" raw) eqn:E5; [done|]. destruct (forallb is_visible raw) eqn:E6; [|done].
  cbn [negb].
  assert (exists q, (match split_once "?" raw with Some (p, q) => (p, Some q) | None => (raw, None) end)
      = (target_path raw, q) /\
      raw = match q with Some q => target_path raw ++ B "?" ++ q | None => target_path raw end)
    as (q & -> & Hraw).
  { unfold target_path. destruct (split_once "?" raw) as [[p q]|] eqn:E.
    - exists (Some q). split; [done|]. by apply split_once_Some in E as [-> _].
    - by exists None. }
  destruct (encodes_separator (target_path raw)) eqn:E7; [done|].
  destruct (check_escapes (target_path raw)) as [[]|] eqn:E8; [|done]. cbn [rbind].
  destruct (contains ";" _) eqn:E9; [done|]. destruct (existsb _ _) eqn:E10; [done|].
  destruct (contains_str _ _) eqn:E11; [done|]. intros [= <-].
  match goal with |- ?x = _ /\ _ => assert (Heq : x = raw) by (symmetry; exact Hraw) end.
  rewrite Heq. split; [done|].
  apply contains_false in E2, E5, E9.
  pose proof (accepted_decodes _ E8 E7) as Hd. pose proof (decodes_split _ _ Hd) as [Hs Hsegs].
  pose proof (safe_segments _ E10) as Hdots.
  unfold safe_target. split_and!; try done.
  - apply starts_with_true in E1 as [r ->]. exists r. split; [done|]. split.
    + intros Hh. destruct r as [|x r]; [done|]. injection Hh as ->. discriminate E3.
    + intros Hh. destruct r as [|x r]; [done|]. injection Hh as ->. discriminate E4.
  - rewrite Hs. apply List.Forall_map. rewrite Forall_forall in Hsegs |- *.
    rewrite Forall_forall in Hdots. intros seg Hseg.
    apply dots_segment; [by apply Hsegs|by apply Hdots].
  - apply pct_decode_id. by eapply decodes_no_percent.
  - eapply decodes_visible; [exact Hd|]. by apply forallb_target_path.
  - eapply decodes_backslash; [exact Hd|]. intros Hin. by apply target_path_incl in Hin.
Qed.

(** C31: An accepted target is the guest's own bytes, unchanged, and no reading of it disagrees
    with the rule matcher's: it is an absolute path that cannot be taken for an authority,
    and percent-decoding its path adds no separator, no dot segment, no backslash and no
    control byte, and leaves nothing for a second decoding to find. *)
Theorem normalize_target_safe raw t (Hok : normalize_target raw = Ok t) :
  t = raw /\ safe_target t.
Proof. by apply normalized. Qed.

Lemma normalize_target_safe_witness :
  safe_target (B "/repos/me/proj%41/issues?state=open&x=../..").
Proof.
  apply (normalize_target_safe (B "/repos/me/proj%41/issues?state=open&x=../..")).
  vm_compute. reflexivity.
Defined.

(** ** What globs and rules accept *)

(** The segments a rule is matched against: those after the leading slash. *)
Definition path_segments (p : bytes) : list bytes :=
  match strip_prefix (B "/") p with
  | Some [] => []
  | Some body => split "/" body
  | None => match p with [] => [] | _ => split "/" p end
  end.

(** A glob accepts a list of segments: its own match one by one, and only a trailing double
    star leaves any over. *)
Definition glob_accepts (g : PathGlob) (segs : list bytes) : Prop :=
  exists front rest, segs = front ++ rest /\
    Forall2 (fun p s => p = B "*" \/ p = s) (segments g) front /\
    (trailing g = false -> rest = []).

Lemma forallb_zip_Forall2 {X Y} (p : X * Y -> bool) (l : list X) (k : list Y) :
  length l = length k ->
  forallb p (zip l k) = true <-> Forall2 (fun x y => p (x, y) = true) l k.
Proof.
  revert k. induction l as [|x l IH]; intros [|y k] Hl; try done; simpl.
  - injection Hl as Hl. rewrite andb_true_iff, IH by done. split.
    + intros [Hx Hk]. by constructor.
    + inversion 1; subst; by split.
Qed.

Lemma zip_take {X Y} (l : list X) (k : list Y) : zip l k = zip l (take (length l) k).
Proof. revert k. induction l as [|x l IH]; intros [|y k]; simpl; try done. by f_equal. Qed.

Lemma seg_test p s : beq p (B "*") || beq p s = true <-> p = B "*" \/ p = s.
Proof. by rewrite orb_true_iff, !beq_true. Qed.

Lemma glob_accepts_length g segs :
  glob_accepts g segs <->
  (if trailing g then length (segments g) <= length segs else length segs = length (segments g)) /\
  forallb (fun p => beq (fst p) (B "*") || beq (fst p) (snd p)) (zip (segments g) segs) = true.
Proof.
  rewrite zip_take. split.
  - intros (front & rest & -> & H2 & Hr). pose proof (Forall2_length _ _ _ H2) as Hl.
    rewrite Hl, take_app_length, <- Hl, length_app. split.
    + destruct (trailing g); [lia|]. rewrite (Hr eq_refl). simpl. lia.
    + apply forallb_zip_Forall2; [done|]. eapply Forall2_impl; [exact H2|].
      intros p s Hps. by apply seg_test.
  - intros [Hl Hz]. exists (take (length (segments g)) segs), (drop (length (segments g)) segs).
    assert (length (segments g) <= length segs) as Hle by (destruct (trailing g); lia).
    rewrite take_drop. split; [done|]. split.
    + apply forallb_zip_Forall2 in Hz; [|rewrite length_take; lia].
      eapply Forall2_impl; [exact Hz|]. intros p s Hps. by apply seg_test in Hps.
    + intros Ht. rewrite Ht in Hl. apply drop_ge. lia.
Qed.

Lemma glob_matches g t :
  PathGlob.matches g t = true <-> glob_accepts g (path_segments (target_path t)).
Proof.
  rewrite glob_accepts_length. unfold PathGlob.matches. fold (target_path t).
  set (body := default (target_path t) _).
  assert ((if beq body [] then [] else split "/" body) = path_segments (target_path t)) as ->.
  { subst body. unfold path_segments. destruct (strip_prefix (B "/") (target_path t)) as [r|];
      simpl; [by destruct r|by destruct (target_path t)]. }
  destruct (forallb _ _); destruct (trailing g);
    [destruct (Nat.ltb_spec (length (path_segments (target_path t))) (length (segments g)))
    |destruct (Nat.eqb_spec (length (path_segments (target_path t))) (length (segments g)))
    |destruct (Nat.ltb _ _)|destruct (negb _)]; simpl; intuition (congruence || lia).
Qed.

(** [PathGlob::matches] decides exactly: the segments of the target's path, query left out,
    are matched one by one, a lone star standing for any one segment, and a trailing double
    star for any number of them. *)
Theorem glob_matches_spec g t :
  PathGlob.matches g t = true <-> glob_accepts g (path_segments (target_path t)).
Proof. apply glob_matches. Qed.

Lemma join_snoc sep l x :
  join sep (l ++ [x]) = join sep l ++ match l with [] => x | _ => sep ++ x end.
Proof.
  induction l as [|y l IH]; [done|]. destruct l as [|z l]; [done|].
  change (join sep ((y :: z :: l) ++ [x])) with (y ++ sep ++ join sep ((z :: l) ++ [x])).
  rewrite IH. cbn [join]. by rewrite <- !(assoc_L (++)).
Qed.

(** A segment a parsed glob holds. *)
Definition glob_segment (s : bytes) : Prop :=
  s <> [] /\ s <> B "." /\ s <> B ".." /\ s <> B "**" /\ (s = B "*" \/ "*"%char ∉ s).

Lemma glob_parts_Ok parts segs tr :
  glob_parts parts = Ok (segs, tr) ->
  parts = segs ++ (if tr then [B "**"] else []) /\ Forall glob_segment segs.
Proof.
  revert segs tr. induction parts as [|p parts IH]; intros segs tr; cbn [glob_parts].
  { intros [= <- <-]. by split; [|constructor]. }
  destruct (beq p (B "**")) eqn:E1.
  { destruct parts; [|done]. intros [= <- <-]. apply beq_true in E1 as ->. by split; [|constructor]. }
  destruct (beq p []) eqn:E2; [done|]. destruct (beq p (B ".") || _) eqn:E3; [done|].
  destruct (contains _ _ && _) eqn:E4; [done|]. intros H.
  apply rbind_Ok in H as ([segs' tr'] & Hrec & H). injection H as <- <-.
  destruct (IH _ _ Hrec) as [-> IHs]. split; [done|]. constructor; [|done].
  apply orb_false_iff in E3 as [E3 E3']. unfold beq in *.
  apply bool_decide_eq_false in E1, E2, E3, E3'. unfold glob_segment. split_and!; try done.
  apply andb_false_iff in E4 as [E4|E4]; [right; by apply contains_false|left].
  by apply negb_false_iff, bool_decide_eq_true in E4.
Qed.

Lemma glob_parsed raw g (Hok : PathGlob.parse raw = Ok g) :
  PathGlob.display g = raw /\ Forall glob_segment (segments g) /\
  Forall (fun s => "%"%char ∉ s /\ "/"%char ∉ s) (segments g).
Proof.
  revert Hok. unfold PathGlob.parse. destruct (starts_with (B "/") raw) eqn:E1; [|done].
  apply starts_with_true in E1 as [body ->]. cbn [negb].
  destruct (_ || _); [done|]. destruct (contains "%" _) eqn:E2; [done|].
  destruct (contains "\" _); [done|]. destruct (negb _); [done|].
  change (drop 1 (B "/" ++ body)) with body.
  destruct (beq body []) eqn:Eb.
  { apply beq_true in Eb as ->. intros [= <-]. by repeat constructor. }
  intros H. apply rbind_Ok in H as ([segs tr] & Hp & H). injection H as <-.
  apply glob_parts_Ok in Hp as [Hs Hseg]. pose proof (join_split "/" body) as Hj.
  apply contains_false in E2. split_and!; [|done|].
  - unfold PathGlob.display. simpl segments. simpl trailing. f_equal. rewrite <- Hj, Hs.
    destruct tr; [|by rewrite !app_nil_r]. rewrite join_snoc. reflexivity.
  - apply Forall_forall. intros s Hin.
    assert (s ∈ split "/" body) as Hin' by (rewrite Hs; set_solver). split.
    + intros Hc. apply E2. pose proof (split_bytes _ _ _ _ Hin' Hc). set_solver.
    + pose proof (split_no_sep "/" body) as Hno. rewrite Forall_forall in Hno. by apply Hno.
Qed.

(** A glob is displayed as it was written, so an accepted rule's text is its meaning: its segments are
    lone stars or literals without a star, a slash or a percent sign, and never dot segments. *)
Theorem glob_display_parse raw g (Hok : PathGlob.parse raw = Ok g) :
  PathGlob.display g = raw /\ Forall glob_segment (segments g) /\
  Forall (fun s => "%"%char ∉ s /\ "/"%char ∉ s) (segments g).
Proof. by apply glob_parsed. Qed.

Lemma glob_display_parse_witness :
  PathGlob.display (MkGlob [B "repos"; B "*"; B "pulls"] true) = B "/repos/*/pulls/**".
Proof.
  apply (glob_display_parse (B "/repos/*/pulls/**")). vm_compute. reflexivity.
Defined.

Lemma path_segments_slash r : path_segments ("/"%char :: r) = match r with [] => [] | _ => split "/" r end.
Proof. by destruct r. Qed.

Lemma pct_decode_nil s : pct_decode s = [] -> s = [].
Proof.
  destruct s as [|c s]; [done|]. cbn [pct_decode]. destruct (Ascii.eqb c "%"); [|done].
  destruct s as [|a [|b s]]; try done. by destruct (hex_value a), (hex_value b).
Qed.

(** Decoding the path of an accepted target decodes its segments, one by one. *)
Lemma path_segments_decode t :
  safe_target t ->
  path_segments (pct_decode (target_path t)) = map pct_decode (path_segments (target_path t)).
Proof.
  intros ((r & -> & _) & _ & _ & _ & _ & _ & _ & Hs & _).
  assert (exists r', target_path ("/"%char :: r) = "/"%char :: r') as [r' Hr'].
  { unfold target_path. cbn [split_once]. change (Ascii.eqb "/" "?") with false. cbv iota.
    destruct (split_once "?" r) as [[a b]|]; eauto. }
  rewrite Hr' in Hs |- *. cbn [pct_decode split] in *.
  change (Ascii.eqb "/" "%") with false in *. change (Ascii.eqb "/" "/") with true in *.
  cbv iota in *. injection Hs as Hs. rewrite !path_segments_slash.
  destruct r' as [|c r']; [done|]. destruct (pct_decode (c :: r')) eqn:E; [|done].
  by apply pct_decode_nil in E.
Qed.

(** The rule matcher and a server that percent-decodes the path agree: what a parsed glob
    accepts of a normalised target, it also accepts of the segments of the decoded path. *)
Theorem glob_accepts_decoded glob_text g raw t
    (Hg : PathGlob.parse glob_text = Ok g) (Ht : normalize_target raw = Ok t)
    (Hm : PathGlob.matches g t = true) :
  glob_accepts g (path_segments (pct_decode (target_path t))).
Proof.
  apply normalized in Ht as [_ Hsafe]. apply glob_parsed in Hg as (_ & _ & Hlit).
  rewrite path_segments_decode by done. apply glob_matches in Hm as (front & rest & -> & H2 & Hr).
  exists (map pct_decode front), (map pct_decode rest). rewrite map_app. split_and!; [done| |].
  - revert Hlit H2. generalize (segments g). clear. intros l Hlit H2.
    induction H2 as [|p s l k Hps H2 IH]; [constructor|].
    apply Forall_cons in Hlit as [[Hp _] Hl]. constructor; [|by apply IH].
    destruct Hps as [->|<-]; [by left|right]. by rewrite pct_decode_id.
  - intros Ht. by rewrite Hr.
Qed.

Lemma glob_accepts_decoded_witness :
  glob_accepts (MkGlob [B "repos"; B "*"] true)
    (path_segments (pct_decode (target_path (B "/repos/me%2dtoo/x%41?q=%2e")))).
Proof.
  apply (glob_accepts_decoded (B "/repos/*/**") _ (B "/repos/me%2dtoo/x%41?q=%2e"));
    vm_compute; reflexivity.
Defined.

(** ** Resolving the store *)

Section Resolving.
Variable env_var : bytes -> option bytes.
Variable symlink_metadata : bytes -> result FileMeta IoError.
Variable read_to_string : bytes -> result bytes IoError.
Variable from_json : bytes -> result CredentialStore bytes.

Local Abbreviation load := (load_credentials env_var symlink_metadata read_to_string from_json).
Local Abbreviation read_it := (read_store symlink_metadata read_to_string from_json).
Local Abbreviation resolve := (resolve_one env_var symlink_metadata read_to_string).

Lemma check_aliases_fresh seen keys :
  check_aliases seen keys = Ok tt ->
  NoDup (map to_ascii_lowercase keys) /\
  Forall (fun k => seen !! to_ascii_lowercase k = None) keys.
Proof.
  revert seen. induction keys as [|k keys IH]; intros seen; cbn [check_aliases map].
  { by repeat constructor. }
  destruct (seen !! _) eqn:E; [done|]. intros H. apply IH in H as [Hnd Hf].
  rewrite Forall_forall in Hf. split.
  - constructor; [|done]. intros Hin. apply list_elem_of_In, in_map_iff in Hin as (k' & Hk & Hk').
    apply list_elem_of_In, Hf in Hk'. by rewrite Hk, lookup_insert_eq in Hk'.
  - constructor; [done|]. apply Forall_forall. intros k' Hk'. apply Hf in Hk'.
    by apply lookup_insert_None in Hk' as [? _].
Qed.

(** A store that was read: private to its owner, of the one version, and without two
    aliases that differ only in case. *)
Definition store_at (p : bytes) (store : CredentialStore) : Prop :=
  exists meta raw, symlink_metadata p = Ok meta /\ is_file meta = true /\
    N.land (st_mode meta) 63 = 0%N /\ (st_len meta <= MAX_SOURCE_BYTES)%N /\
    read_to_string p = Ok raw /\ from_json raw = Ok store /\
    version store = CREDENTIALS_VERSION /\
    NoDup (map (fun kv => to_ascii_lowercase (fst kv)) (credentials store)).

Lemma private_mode m : N.land (N.land m 511) 63 = N.land m 63.
Proof. by rewrite <- N.land_assoc. Qed.

Lemma read_store_Ok p store : read_it p = Ok store -> store_at p store.
Proof.
  unfold read_store. intros H. apply rbind_Ok in H as (meta & Hm & H).
  destruct (negb (is_file meta)) eqn:E1; [done|].
  destruct (negb (_ =? 0)%N) eqn:E2; [done|]. destruct (_ <? _)%N eqn:E3; [done|]. run_ok.
  destruct (negb (version _ =? _)%N) eqn:E4; [done|]. run_ok. reflect_bools.
  rewrite private_mode in *. unfold store_at.
  destruct a1. apply check_aliases_fresh in Hrun1 as [Hnd _]. rewrite map_map in Hnd.
  exists meta, a. split_and!; done.
Qed.

(** The sentence a source answers: environment variable or private absolute file. *)
Definition source_gives (source secret : bytes) : Prop :=
  (exists name, source = B "env:" ++ name /\ name <> [] /\ env_var name = Some secret) \/
  (exists p meta raw, source = B "file:" ++ p /\ starts_with (B "/") p = true /\
    symlink_metadata p = Ok meta /\ is_file meta = true /\ N.land (st_mode meta) 63 = 0%N /\
    (st_len meta <= MAX_SOURCE_BYTES)%N /\ read_to_string p = Ok raw /\
    secret = trim_end_matches is_newline raw).

Lemma resolve_source_Ok source a s :
  resolve_source env_var symlink_metadata read_to_string source a = Ok s ->
  source_gives source (expose s) /\
  trim (expose s) <> [] /\ Forall (fun b => Secret.is_header_byte b = true) (expose s).
Proof.
  unfold resolve_source. intros H. apply rbind_Ok in H as (s' & Hs & H).
  unfold check_secret in H. destruct (Secret.is_blank s') eqn:E1; [done|].
  destruct (Secret.has_illegal_header_bytes s') eqn:E2; [done|]. injection H as <-.
  split; [|split].
  - destruct (strip_prefix (B "env:") source) as [name|] eqn:E3.
    { apply strip_prefix_Some in E3 as ->. left. destruct (beq name []) eqn:E4; [done|].
      destruct (env_var name) as [v|] eqn:E5; [|done]. injection Hs as <-.
      exists name. split_and!; [done| |done]. by apply bool_decide_eq_false in E4. }
    destruct (strip_prefix (B "file:") source) as [p|] eqn:E4; [|done].
    apply strip_prefix_Some in E4 as ->. right. destruct (starts_with (B "/") p) eqn:E5; [|done].
    cbn [negb] in Hs. apply rbind_Ok in Hs as (meta & Hm & Hs). apply map_err_Ok in Hm.
    destruct (negb (is_file meta)) eqn:E6; [done|]. destruct (_ <? _)%N eqn:E7; [done|].
    destruct (negb (_ =? 0)%N) eqn:E8; [done|]. run_ok. reflect_bools.
    rewrite private_mode in *. exists p, meta, a0. by split_and!.
  - by apply bool_decide_eq_false in E1.
  - by apply negb_false_iff, forallb_Forall in E2.
Qed.
End Resolving.

Section Loading.
Variable env_var : bytes -> option bytes.
Variable symlink_metadata : bytes -> result FileMeta IoError.
Variable read_to_string : bytes -> result bytes IoError.
Variable from_json : bytes -> result CredentialStore bytes.

Local Abbreviation load := (load_credentials env_var symlink_metadata read_to_string from_json).
Local Abbreviation resolve := (resolve_one env_var symlink_metadata read_to_string).

(** What a caller may be told: a credential [c] answers the alias [a] of a store when it
    is built from the one entry of that alias, and, for a model, one the operator marked
    usable over MCP. *)
Definition answers (store : CredentialStore) (who : Caller) (a : bytes)
    (c : ResolvedCredential) : Prop :=
  exists key spec rules,
    (key, spec) ∈ credentials store /\ to_ascii_lowercase key = to_ascii_lowercase a /\
    (forall key' spec', (key', spec') ∈ credentials store ->
       to_ascii_lowercase key' = to_ascii_lowercase a -> key' = key /\ spec' = spec) /\
    (who = Model -> spec_mcp spec = true) /\
    (canonical (name_str (alias c)) /\ names a (name_str (alias c))) /\
    (canonical (name_str (host c)) /\ names (spec_host spec) (name_str (host c))) /\
    spec_allow spec <> [] /\
    Forall2 (fun text rs => RequestRule.parse text = Ok rs) (spec_allow spec) rules /\
    allow c = concat rules /\
    source_gives env_var symlink_metadata read_to_string (spec_source spec) (expose (secret c)) /\
    trim (expose (secret c)) <> [] /\
    Forall (fun b => Secret.is_header_byte b = true) (expose (secret c)).

Lemma eq_ignore_case a b : eq_ignore_ascii_case a b = true <-> to_ascii_lowercase a = to_ascii_lowercase b.
Proof. unfold eq_ignore_ascii_case. by rewrite bool_decide_eq_true. Qed.

Lemma NoDup_map_inj {X Y} (f : X -> Y) (l : list X) x y :
  NoDup (map f l) -> x ∈ l -> y ∈ l -> f x = f y -> x = y.
Proof.
  induction l as [|z l IH]; simpl; [by rewrite elem_of_nil|].
  rewrite NoDup_cons, !elem_of_cons. intros [Hz Hnd] [->|Hx] [->|Hy] E; try done.
  - destruct Hz. rewrite E. by apply list_elem_of_In, in_map, list_elem_of_In.
  - destruct Hz. rewrite <- E. by apply list_elem_of_In, in_map, list_elem_of_In.
  - by apply IH.
Qed.

Lemma resolve_one_Ok store who a c p :
  store_at symlink_metadata read_to_string from_json p store ->
  resolve a store who = Ok c -> answers store who a c.
Proof.
  intros (_ & _ & _ & _ & _ & _ & _ & _ & _ & Hnd). unfold resolve_one.
  destruct (List.find _ (credentials store)) as [[key spec]|] eqn:Ef; [|done].
  apply find_some in Ef as [Hin Hk]. apply list_elem_of_In in Hin. simpl in Hk.
  apply eq_ignore_case in Hk.
  destruct (match who with Operator => _ | Model => _ end) eqn:Em; [done|].
  intros H. apply rbind_Ok in H as (al & Hal & H). destruct (contains _ _) eqn:Ew; [done|].
  apply rbind_Ok in H as (h & Hh & H). destruct (spec_allow spec) as [|e es] eqn:Ea; [done|].
  run_ok. apply resolve_source_Ok in Hrun0 as (Hsrc & Hb & Hl).
  unfold SafeName.parse in Hal, Hh.
  destruct (normalize_name a) eqn:Na; [|done]. injection Hal as <-.
  destruct (normalize_name (spec_host spec)) eqn:Nh; [|done]. injection Hh as <-.
  apply normalize_name_iff in Na, Nh.
  assert (Forall2 (fun text rs => RequestRule.parse text = Ok rs) (spec_allow spec) a0)
    by (rewrite Ea; by apply traverse_Ok).
  exists key, spec, a0. split; [done|]. split; [done|].
  split; [|split; [|split; [exact Na|split; [exact Nh|split_and!; try done; by rewrite Ea]]]].
  - intros key' spec' Hin' Hk'.
    assert ((key', spec') = (key, spec)) as [= -> ->]; [|done].
    eapply (NoDup_map_inj (fun kv => to_ascii_lowercase (fst kv))); try done. simpl. congruence.
  - intros ->. by apply negb_false_iff.
Qed.

(** Resolution answers every requested alias from a private, unambiguous store, with the
    host, rules and secret of that alias's own entry, a non-blank secret that cannot break
    out of a header, and, for a model, only entries marked for MCP; a model is never told
    anything but one opaque error. *)
Theorem load_credentials_spec required who p :
  match load required who p with
  | Ok creds =>
      (required = [] /\ creds = []) \/ exists store,
        store_at symlink_metadata read_to_string from_json p store /\
        Forall2 (answers store who) required creds
  | Err e => match who with Model => e = UnavailableOpaque | Operator => True end
  end.
Proof.
  unfold load_credentials. destruct required as [|a l]; [by left|].
  set (r := rbind _ _). destruct r as [creds|e] eqn:E; cbn [map_err]; [|by destruct who].
  right. subst r. apply rbind_Ok in E as (store & Hs & Ht). exists store.
  apply read_store_Ok in Hs. split; [done|]. apply traverse_Ok in Ht.
  eapply Forall2_impl; [exact Ht|]. intros x y Hx. by eapply resolve_one_Ok.
Qed.
End Loading.

(** A store of one entry resolves for a model; without the [mcp] mark it does not. *)
Section Sample.
Let spec (mcp : bool) : CredentialSpec :=
  MkSpec (B "API.example.com.") Bearer (B "env:TOKEN") [B "GET /repos/**"; B "readonly"] mcp.
Let load mcp := load_credentials
  (fun n => if beq n (B "TOKEN") then Some (B "s3cret") else None)
  (fun _ => Ok (MkMeta true 33152 100)) (fun _ => Ok (B "{}"))
  (fun _ => Ok (MkStore 1 [(B "forge", spec mcp)])) [B "Forge"] Model (B "/etc/store").

Example load_for_model :
  load true = Ok [MkCredential (MkSafeName (B "forge")) (MkSafeName (B "api.example.com")) Bearer
                    [MkRule [Get] (MkGlob [B "repos"] true); MkRule [Get; Head] (MkGlob [] true)]
                    (MkSecret (B "s3cret"))].
Proof. vm_compute. reflexivity. Qed.

Example load_unmarked : load false = Err UnavailableOpaque.
Proof. vm_compute. reflexivity. Qed.
End Sample.
