(* ===== verification/Inject.v ===== *)
(** * Inject: the credential endpoint's request and response logic

    Models [crates/core/src/net/inject.rs]: parsing the guest's stated intent, authorising it
    against the run's credentials, building the upstream request from the broker's own
    parts, and re-framing the response. *)
From S2P Require Import Prelude Text IpAddr Egress Credentials.

Definition MAX_INJECT_HEAD : nat := 8 * 1024.
Definition MAX_INJECT_BODY : N := 1024 * 1024.
Definition MAX_INJECT_RESP : N := 64 * 1024 * 1024.
Definition FORWARDABLE : list bytes := [B "accept"; B "content-type"].
Definition MAX_HEADER_VALUE : nat := 1024.

Definition CRLF : bytes := [ascii_of_nat 13; ascii_of_nat 10].

(** ** Refusals *)

Inductive InjectRefusal : Type :=
  | Malformed | HeadTooLarge | BadMethod | NoAlias | UnknownAlias
  | BadTarget | NotPermitted | BadHeader | BadBody.

#[export] Instance InjectRefusal_eq_dec : EqDecision InjectRefusal.
Proof. solve_decision. Defined.

Definition reason_phrase (status : N) : bytes :=
  match status with
  | 400 => B "Bad Request"
  | 403 => B "Forbidden"
  | 405 => B "Method Not Allowed"
  | 413 => B "Payload Too Large"
  | 431 => B "Request Header Fields Too Large"
  | 502 => B "Bad Gateway"
  | 504 => B "Gateway Timeout"
  | _ => B "Error"
  end%N.

Definition fixed_response (status : N) (message : bytes) : bytes :=
  let body := B "isopod credential endpoint: " ++ message ++ [ascii_of_nat 10] in
  B "HTTP/1.1 " ++ show_N status ++ B " " ++ reason_phrase status ++ CRLF ++
  B "Content-Type: text/plain" ++ CRLF ++
  B "Content-Length: " ++ show_N (N.of_nat (length body)) ++ CRLF ++
  B "Connection: close" ++ CRLF ++ CRLF ++ body.

Module InjectRefusal.
Definition status (r : InjectRefusal) : N :=
  match r with
  | Malformed | NoAlias | BadTarget | BadHeader => 400
  | HeadTooLarge => 431
  | BadMethod => 405
  | UnknownAlias | NotPermitted => 403
  | BadBody => 413
  end.

Definition explain (r : InjectRefusal) : bytes :=
  match r with
  | Malformed => B "malformed request"
  | HeadTooLarge => B "request head too large"
  | BadMethod => B "method not usable with an injected credential"
  | NoAlias => B "request path must begin with /<alias>/"
  | UnknownAlias => B "no such credential is injected into this run"
  | BadTarget => B "request target is not a safe origin-form path"
  | NotPermitted =>
      B "this credential does not permit that method and path; widen its " ++
      [ascii_of_nat 34] ++ B "allow" ++ [ascii_of_nat 34] ++ B " list if that is intended"
  | BadHeader => B "a forwarded header was too long or malformed"
  | BadBody => B "request body too large or ambiguously framed"
  end.

Definition tag (r : InjectRefusal) : bytes :=
  match r with
  | Malformed => B "inject-malformed"
  | HeadTooLarge => B "inject-head-too-large"
  | BadMethod => B "inject-bad-method"
  | NoAlias => B "inject-no-alias"
  | UnknownAlias => B "inject-unknown-alias"
  | BadTarget => B "inject-bad-target"
  | NotPermitted => B "inject-not-permitted"
  | BadHeader => B "inject-bad-header"
  | BadBody => B "inject-bad-body"
  end.

Definition response (r : InjectRefusal) : bytes := fixed_response (status r) (explain r).
End InjectRefusal.

Inductive UpstreamFailure : Type := Unreachable | TimedOut | TooLarge.

Module UpstreamFailure.
Definition status (f : UpstreamFailure) : N :=
  match f with Unreachable | TooLarge => 502 | TimedOut => 504 end.

Definition explain (f : UpstreamFailure) : bytes :=
  match f with
  | Unreachable => B "the credential's pinned host could not be reached over TLS from the host"
  | TimedOut => B "the credential's pinned host did not answer in time"
  | TooLarge => B "the response exceeded the endpoint's size ceiling"
  end.

Definition tag (f : UpstreamFailure) : bytes :=
  match f with
  | Unreachable => B "inject-upstream-unreachable"
  | TimedOut => B "inject-upstream-timeout"
  | TooLarge => B "inject-response-too-large"
  end.

Definition response (f : UpstreamFailure) : bytes := fixed_response (status f) (explain f).
End UpstreamFailure.

(** ** The response leg *)

Abbreviation header := (bytes * bytes)%type.

Definition RESPONSE_HEADER_DENY : list bytes :=
  [B "connection"; B "content-length"; B "keep-alive"; B "proxy-authenticate";
   B "proxy-connection"; B "te"; B "trailer"; B "transfer-encoding"; B "upgrade"].

Definition MAX_RESPONSE_HEADERS : nat := 64.

(** [b == b'\t' || (0x20..=0x7e).contains(&b)] *)
Definition field_byte (b : ascii) : bool := (code b =? 9)%N || between 32 126 b.

Definition relayable_header (lname value : bytes) : bool :=
  negb (bool_decide (lname ∈ RESPONSE_HEADER_DENY))
  && negb (beq lname [])
  && forallb (fun b => is_ascii_alphanumeric b || Ascii.eqb b "-" || Ascii.eqb b "_") lname
  && Nat.leb (length value) MAX_HEADER_VALUE
  && forallb field_byte value.

Definition relay_headers (headers : list header) : list header :=
  map (fun h => (to_ascii_lowercase (fst h), snd h))
    (take MAX_RESPONSE_HEADERS
       (List.filter (fun h => relayable_header (to_ascii_lowercase (fst h)) (snd h)) headers)).

Definition upstream_reason_phrase (status : N) : bytes :=
  match status with
  | 200 => B "OK"
  | 201 => B "Created"
  | 202 => B "Accepted"
  | 204 => B "No Content"
  | 301 => B "Moved Permanently"
  | 302 => B "Found"
  | 304 => B "Not Modified"
  | 307 => B "Temporary Redirect"
  | 308 => B "Permanent Redirect"
  | 400 => B "Bad Request"
  | 401 => B "Unauthorized"
  | 403 => B "Forbidden"
  | 404 => B "Not Found"
  | 409 => B "Conflict"
  | 422 => B "Unprocessable Content"
  | 429 => B "Too Many Requests"
  | 500 => B "Internal Server Error"
  | 502 => B "Bad Gateway"
  | 503 => B "Service Unavailable"
  | 504 => B "Gateway Timeout"
  | s => if (200 <=? s) && (s <? 300) then B "OK"
         else if (300 <=? s) && (s <? 400) then B "Redirection"
         else if (400 <=? s) && (s <? 500) then B "Client Error"
         else B "Server Error"
  end%N.

Definition build_response_head (status : N) (headers : list header) : bytes :=
  B "HTTP/1.1 " ++ show_N status ++ B " " ++ upstream_reason_phrase status ++ CRLF ++
  concat (map (fun h => fst h ++ B ": " ++ snd h ++ CRLF) headers) ++
  B "Transfer-Encoding: chunked" ++ CRLF ++ B "Connection: close" ++ CRLF ++ CRLF.

Definition chunk_frame (b : bytes) : bytes :=
  show_hex (N.of_nat (length b)) ++ CRLF ++ b ++ CRLF.

Definition CHUNK_TERMINATOR : bytes := B "0" ++ CRLF ++ CRLF.

(** ** The guest's stated intent *)

Record StatedIntent : Type := MkIntent {
  si_alias : bytes; si_method : Method; si_path : bytes;
  si_headers : list header; si_body_len : N }.

Definition split_alias (target : bytes) : result (bytes * bytes) InjectRefusal :=
  let? body := ok_or (strip_prefix (B "/") target) NoAlias in
  let '(alias, rest) := match split_once "/" body with
                        | Some (a, r) => (a, B "/" ++ r)
                        | None => (body, B "/")
                        end in
  if beq alias [] then Err NoAlias
  else if negb (forallb (fun b => is_ascii_alphanumeric b || Ascii.eqb b "-" || Ascii.eqb b "_")
                  alias) then Err NoAlias
  else Ok (to_ascii_lowercase alias, rest).

(** The loop over the header lines: the headers kept so far and the declared length. *)
Fixpoint intent_headers (lines : list bytes) (headers : list header) (body_len : option N)
    : result (list header * option N) InjectRefusal :=
  match lines with
  | [] => Ok (headers, body_len)
  | line :: rest =>
      if beq line [] then Ok (headers, body_len)
      else
        let? (name, value) := ok_or (split_once ":" line) Malformed in
        let lname := to_ascii_lowercase (trim name) in
        let value := trim value in
        if beq lname (B "content-length") then
          let? n := ok_or (parse_uint u64_max value) BadBody in
          match body_len with
          | Some _ => Err BadBody
          | None => if (MAX_INJECT_BODY <? n)%N then Err BadBody
                    else intent_headers rest headers (Some n)
          end
        else if beq lname (B "transfer-encoding") then Err BadBody
        else if negb (bool_decide (lname ∈ FORWARDABLE)) then
          intent_headers rest headers body_len
        else if Nat.ltb MAX_HEADER_VALUE (length value) then Err BadHeader
        else if negb (forallb field_byte value) then Err BadHeader
        else if existsb (fun h => beq (fst h) lname) headers then Err BadHeader
        else intent_headers rest (headers ++ [(lname, value)]) body_len
  end.

Definition parse_intent (head : bytes) : result StatedIntent InjectRefusal :=
  if Nat.ltb MAX_INJECT_HEAD (length head) then Err HeadTooLarge
  else if negb (is_utf8 head) then Err Malformed
  else
    let lines := split_str CRLF head in
    let? request_line := ok_or (List.hd_error lines) Malformed in
    let parts := split " " request_line in
    let? method_raw := ok_or (parts !! 0%nat) Malformed in
    let? target := ok_or (parts !! 1%nat) Malformed in
    let? version := ok_or (parts !! 2%nat) Malformed in
    if negb (starts_with (B "HTTP/") version) || bool_decide (is_Some (parts !! 3%nat))
    then Err Malformed
    else
      let? method := ok_or (Method.parse method_raw) BadMethod in
      let? (alias, rest) := split_alias target in
      let? path := map_err (fun _ => BadTarget) (normalize_target rest) in
      let? (headers, body_len) := intent_headers (tail lines) [] None in
      Ok (MkIntent alias method path headers (default 0%N body_len)).

(** ** Authorisation *)

Record UpstreamRequest : Type := MkUpstream {
  url : bytes; up_method : Method; up_headers : list header;
  up_alias : bytes; up_host : bytes }.

Definition authorize (creds : list ResolvedCredential) (intent : StatedIntent)
    : result (UpstreamRequest * ResolvedCredential) InjectRefusal :=
  let? cred := ok_or (List.find (fun c => beq (SafeName.as_str (alias c)) (si_alias intent)) creds)
                 UnknownAlias in
  if negb (cred_permits cred (si_method intent) (si_path intent)) then Err NotPermitted
  else
    let host := SafeName.as_str (host cred) in
    Ok (MkUpstream (B "https://" ++ host ++ si_path intent) (si_method intent)
          (si_headers intent) (si_alias intent) host, cred).

Section Examples.
Let cr := [ascii_of_nat 13; ascii_of_nat 10].

Example ex_intent :
  parse_intent (B "POST /GitHub/repos/a/b?x=1 HTTP/1.1" ++ cr ++ B "Host: evil" ++ cr ++
                B "Accept:  text/html " ++ cr ++ B "Content-Length: 12" ++ cr ++ cr ++ B "x")
  = Ok (MkIntent (B "github") Post (B "/repos/a/b?x=1") [(B "accept", B "text/html")] 12).
Proof. vm_compute. reflexivity. Qed.

Example ex_two_lengths :
  parse_intent (B "GET /g/ HTTP/1.1" ++ cr ++ B "Content-Length: 1" ++ cr ++
                B "content-length: 1" ++ cr ++ cr) = Err BadBody.
Proof. vm_compute. reflexivity. Qed.
End Examples.

(** ** The response cannot be split *)

Lemma CR_head x : head CRLF <> Some x <-> x <> ascii_of_nat 13.
Proof. split; [intros H ->; by apply H|intros H [= <-]; by apply H]. Qed.

Lemma split_line a b :
  ascii_of_nat 13 ∉ a -> split_str CRLF (a ++ CRLF ++ b) = a :: split_str CRLF b.
Proof.
  intros Ha. apply split_str_app; [done|]. intros x Hx. apply CR_head. by intros ->.
Qed.

Lemma not_CR (p : ascii -> bool) s :
  p (ascii_of_nat 13) = false -> forallb p s = true -> ascii_of_nat 13 ∉ s.
Proof.
  intros Hp Hs Hin. rewrite forallb_Forall, Forall_forall in Hs. apply Hs in Hin. congruence.
Qed.

Lemma show_N_no_CR n : ascii_of_nat 13 ∉ show_N n.
Proof. eapply (not_CR is_ascii_digit); [done|apply show_N_digits]. Qed.

Lemma upstream_phrase_no_CR st : ascii_of_nat 13 ∉ upstream_reason_phrase st.
Proof.
  apply (not_CR (fun c => negb (Ascii.eqb c (ascii_of_nat 13)))); [done|].
  unfold upstream_reason_phrase. repeat case_match; reflexivity.
Qed.

(** A header the endpoint may write into the response head. *)
Definition clean_header (h : header) : Prop :=
  fst h <> [] /\ fst h ∉ RESPONSE_HEADER_DENY /\ to_ascii_lowercase (fst h) = fst h /\
  Forall (fun b => is_ascii_alphanumeric b || Ascii.eqb b "-" || Ascii.eqb b "_" = true) (fst h) /\
  length (snd h) <= MAX_HEADER_VALUE /\ Forall (fun b => field_byte b = true) (snd h).

Lemma relay_headers_clean hs :
  Forall clean_header (relay_headers hs) /\ length (relay_headers hs) <= MAX_RESPONSE_HEADERS.
Proof.
  unfold relay_headers. split; [|rewrite length_map, length_take; lia].
  apply List.Forall_map, Forall_take, Forall_forall. intros h Hh.
  apply list_elem_of_In, filter_In in Hh as [_ Hh]. unfold relayable_header in Hh.
  apply andb_true_iff in Hh as [Hh Hv]. apply andb_true_iff in Hh as [Hh Hl].
  apply andb_true_iff in Hh as [Hh Hn]. apply andb_true_iff in Hh as [Hd He].
  apply negb_true_iff, bool_decide_eq_false in Hd, He. apply Nat.leb_le in Hl.
  unfold clean_header. cbn [fst snd]. rewrite to_ascii_lowercase_idemp.
  by apply forallb_Forall in Hn, Hv.
Qed.

Lemma clean_header_no_CR h : clean_header h -> ascii_of_nat 13 ∉ fst h ++ B ": " ++ snd h.
Proof.
  intros (_ & _ & _ & Hn & _ & Hv). apply forallb_Forall in Hn, Hv.
  apply (not_CR _ _ eq_refl) in Hn. apply (not_CR _ _ eq_refl) in Hv.
  rewrite !elem_of_app. intros [?|[Hx|?]]; [done| |done].
  revert Hx. rewrite <- contains_true. done.
Qed.

Lemma split_headers hs rest :
  Forall clean_header hs ->
  split_str CRLF (concat (map (fun h : header => fst h ++ B ": " ++ snd h ++ CRLF) hs) ++ rest)
  = map (fun h => fst h ++ B ": " ++ snd h) hs ++ split_str CRLF rest.
Proof.
  induction 1 as [|h hs Hh _ IH]; [done|]. cbn [map concat].
  rewrite <- !app_assoc, (app_assoc (B ": ")), (app_assoc (fst h)).
  rewrite split_line by by apply clean_header_no_CR. rewrite IH.
  cbn [app]. done.
Qed.

(** Whatever status and headers the upstream answers, the head the guest receives has
    exactly the lines the broker meant to write: a status line, at most 64 relayed headers
    with plain names and legal values, none of them about framing or the hop, then the
    broker's own two framing headers and one blank line. *)
Theorem response_head_lines st hs :
  split_str CRLF (build_response_head st (relay_headers hs)) =
    (B "HTTP/1.1 " ++ show_N st ++ B " " ++ upstream_reason_phrase st) ::
    map (fun h => fst h ++ B ": " ++ snd h) (relay_headers hs) ++
    [B "Transfer-Encoding: chunked"; B "Connection: close"; []; []] /\
  Forall clean_header (relay_headers hs) /\ length (relay_headers hs) <= MAX_RESPONSE_HEADERS.
Proof.
  pose proof (relay_headers_clean hs) as [Hc Hl]. split; [|done].
  unfold build_response_head.
  rewrite (app_assoc (B " ")), (app_assoc (show_N st)), (app_assoc (B "HTTP/1.1 ")).
  rewrite split_line.
  - f_equal. rewrite split_headers by done. reflexivity.
  - rewrite !elem_of_app. intros [Hx|[Hx|[Hx|Hx]]].
    + revert Hx. by rewrite <- contains_true.
    + by apply show_N_no_CR in Hx.
    + revert Hx. by rewrite <- contains_true.
    + by apply upstream_phrase_no_CR in Hx.
Qed.

(** ** Chunked framing *)

(** A client's decoder of a chunked body: the body and what follows it, or nothing when the
    body is incomplete or malformed. *)
Fixpoint dechunk (fuel : nat) (s : bytes) : option (bytes * bytes) :=
  match fuel with
  | O => None
  | S f =>
      match split_once_str CRLF s with
      | None => None
      | Some (size, rest) =>
          match hex_of size with
          | None => None
          | Some 0%N => match strip_prefix CRLF rest with
                        | Some rest => Some ([], rest)
                        | None => None
                        end
          | Some n =>
              let n := N.to_nat n in
              if Nat.ltb (length rest) n then None
              else match strip_prefix CRLF (drop n rest) with
                   | None => None
                   | Some rest' => match dechunk f rest' with
                                   | Some (b, r) => Some (take n rest ++ b, r)
                                   | None => None
                                   end
                   end
          end
      end
  end.

Lemma show_hex_no_CR n : forall x, x ∈ show_hex n -> head CRLF <> Some x.
Proof.
  intros x Hx. apply CR_head. intros ->.
  eapply (not_CR is_ascii_hexdigit); [done|apply show_hex_spec|exact Hx].
Qed.

Lemma dechunk_frame f b s :
  b <> [] ->
  dechunk (S f) (chunk_frame b ++ s) =
  match dechunk f s with Some (c, r) => Some (b ++ c, r) | None => None end.
Proof.
  intros Hb. unfold chunk_frame. rewrite <- !app_assoc. cbn [dechunk].
  rewrite split_once_str_app; [|apply show_hex_no_CR|done].
  destruct (show_hex_spec (N.of_nat (length b))) as (-> & _ & _).
  destruct (N.of_nat (length b)) as [|p] eqn:E; [by destruct b|]. rewrite <- E, Nat2N.id.
  destruct (Nat.ltb_spec (length (b ++ CRLF ++ s)) (length b)) as [Hl|_].
  { rewrite length_app in Hl. lia. }
  rewrite drop_app_length, take_app_length.
  assert (strip_prefix CRLF (CRLF ++ s) = Some s) as -> by by apply strip_prefix_Some.
  done.
Qed.

(** The chunked body a client sees is the upstream's: the frames of non-empty chunks,
    closed by the terminator, decode to their concatenation with nothing left over; and the
    same frames without the terminator, which is how the broker ends a response it cuts off,
    never decode, so a truncated body is never taken for a whole one. *)
Theorem chunks_roundtrip (chunks : list bytes) (Hne : Forall (fun c => c <> []) chunks)
    (fuel : nat) (Hfuel : length chunks < fuel) :
  dechunk fuel (concat (map chunk_frame chunks) ++ CHUNK_TERMINATOR) = Some (concat chunks, []) /\
  dechunk fuel (concat (map chunk_frame chunks)) = None.
Proof.
  revert fuel Hfuel. induction Hne as [|c cs Hc _ IH]; intros fuel Hf; (destruct fuel as [|f]; [lia|]).
  - split; reflexivity.
  - cbn [map concat]. rewrite <- app_assoc, !dechunk_frame by done.
    destruct (IH f) as [-> ->]; [simpl in Hf; lia|]. done.
Qed.

Lemma chunks_roundtrip_witness :
  dechunk 4 (concat (map chunk_frame [B "hello "; B "wide, wide "; B "world"]) ++ CHUNK_TERMINATOR)
    = Some (concat [B "hello "; B "wide, wide "; B "world"], []).
Proof.
  refine (proj1 (chunks_roundtrip [B "hello "; B "wide, wide "; B "world"] _ 4 _)).
  - repeat constructor; discriminate.
  - simpl; lia.
Defined.

(** ** The request leg *)

(** The headers an intent may carry: at most one of each forwardable name, with a bounded,
    legal value. *)
Definition intent_headers_wf (hs : list header) : Prop :=
  Forall (fun h => fst h ∈ FORWARDABLE /\ length (snd h) <= MAX_HEADER_VALUE /\
                   Forall (fun b => field_byte b = true) (snd h)) hs /\
  NoDup (map fst hs).

Lemma intent_headers_Ok lines hs bl hs' bl' :
  intent_headers lines hs bl = Ok (hs', bl') ->
  intent_headers_wf hs -> (default 0 bl <= MAX_INJECT_BODY)%N ->
  intent_headers_wf hs' /\ (default 0 bl' <= MAX_INJECT_BODY)%N.
Proof.
  revert hs bl. induction lines as [|line lines IH]; intros hs bl; cbn [intent_headers].
  { by intros [= <- <-]. }
  destruct (beq line []); [by intros [= <- <-]|]. intros H Hwf Hbl.
  apply rbind_Ok in H as ([name value] & _ & H).
  destruct (beq _ (B "content-length")).
  { apply rbind_Ok in H as (n & _ & H). destruct bl; [done|].
    destruct (N.ltb_spec MAX_INJECT_BODY n); [done|]. by eapply IH. }
  destruct (beq _ (B "transfer-encoding")); [done|].
  destruct (bool_decide (_ ∈ FORWARDABLE)) eqn:Ef; cbn [negb] in H; [|by eapply IH].
  destruct (Nat.ltb_spec MAX_HEADER_VALUE (length (trim value))); [done|].
  destruct (forallb field_byte (trim value)) eqn:Ev; cbn [negb] in H; [|done].
  destruct (existsb _ hs) eqn:Ed; [done|]. eapply IH; [exact H| |done].
  destruct Hwf as [Hall Hnd]. apply bool_decide_eq_true in Ef. apply forallb_Forall in Ev. split.
  - apply Forall_app. split; [done|]. apply Forall_singleton. split; [exact Ef|by split].
  - rewrite map_app. apply NoDup_app. split; [done|]. split; [|apply NoDup_singleton].
    intros x Hx Hin. apply list_elem_of_singleton in Hin as ->.
    apply existsb_false in Ed. rewrite Forall_forall in Ed.
    apply list_elem_of_In, in_map_iff in Hx as (h & Hh & Hin). apply list_elem_of_In in Hin.
    apply Ed, bool_decide_eq_false in Hin. done.
Qed.

(** The name a server for an origin-form target reads out of a URL. *)
Definition url_authority (u : bytes) : option bytes :=
  match strip_prefix (B "https://") u with
  | None => None
  | Some r => Some (List.hd [] (split "/" r))
  end.

Lemma canonical_no n (c : ascii) :
  canonical n -> is_canonical_byte c = false -> c <> "."%char -> c ∉ n.
Proof. intros Hn Hc Hd Hin. destruct (canonical_bytes _ _ Hn Hin); congruence. Qed.

Lemma split_alias_Ok target al rest :
  split_alias target = Ok (al, rest) ->
  exists a, al = to_ascii_lowercase a /\ a <> [] /\
    Forall (fun b => is_ascii_alphanumeric b || Ascii.eqb b "-" || Ascii.eqb b "_" = true) a /\
    (target = B "/" ++ a ++ rest \/ target = B "/" ++ a /\ rest = B "/").
Proof.
  unfold split_alias. intros H. apply rbind_Ok in H as (body & Hb & H).
  apply ok_or_Ok, strip_prefix_Some in Hb as ->.
  destruct (split_once "/" body) as [[a r]|] eqn:E.
  - apply split_once_Some in E as [-> _]. destruct (beq a []) eqn:Ea; [done|].
    destruct (forallb _ a) eqn:Ef; [|done]. injection H as <- <-. exists a.
    apply bool_decide_eq_false in Ea. apply forallb_Forall in Ef. split_and!; try done. by left.
  - destruct (beq body []) eqn:Ea; [done|].
    destruct (forallb _ body) eqn:Ef; [|done]. injection H as <- <-. exists body.
    apply bool_decide_eq_false in Ea. apply forallb_Forall in Ef. split_and!; try done. by right.
Qed.

(** What an accepted head says. *)
Definition intent_of (head : bytes) (i : StatedIntent) : Prop :=
  length head <= MAX_INJECT_HEAD /\ safe_target (si_path i) /\
  intent_headers_wf (si_headers i) /\ (si_body_len i <= MAX_INJECT_BODY)%N /\
  exists method target version a,
    split " " (List.hd [] (split_str CRLF head)) = [method; target; version] /\
    Method.parse method = Some (si_method i) /\ si_alias i = to_ascii_lowercase a /\ a <> [] /\
    Forall (fun b => is_ascii_alphanumeric b || Ascii.eqb b "-" || Ascii.eqb b "_" = true) a /\
    (target = B "/" ++ a ++ si_path i \/ target = B "/" ++ a /\ si_path i = B "/").

Lemma parse_intent_Ok head i : parse_intent head = Ok i -> intent_of head i.
Proof.
  unfold parse_intent. destruct (Nat.ltb_spec MAX_INJECT_HEAD (length head)) as [|Hl]; [done|].
  destruct (is_utf8 head); [|done]. cbn [negb]. intros H.
  apply rbind_Ok in H as (line & Hline & H). apply ok_or_Ok in Hline.
  assert (List.hd [] (split_str CRLF head) = line) as Hhd by by destruct (split_str CRLF head); inversion Hline.
  apply rbind_Ok in H as (m & Hm & H). apply rbind_Ok in H as (t & Ht & H).
  apply rbind_Ok in H as (v & Hv & H). apply ok_or_Ok in Hm, Ht, Hv.
  destruct (starts_with _ v); [|done]. destruct (bool_decide _) eqn:E3; [done|]. cbn [negb orb] in H.
  apply bool_decide_eq_false, eq_None_not_Some in E3.
  apply rbind_Ok in H as (me & Hme & H). apply rbind_Ok in H as ([al rest] & Hal & H).
  apply rbind_Ok in H as (path & Hp & H). apply rbind_Ok in H as ([hs bl] & Hh & H).
  injection H as <-. apply ok_or_Ok in Hme. apply map_err_Ok, normalized in Hp as [-> Hsafe].
  apply intent_headers_Ok in Hh as [Hwf Hbl]; [|by repeat constructor|done].
  apply split_alias_Ok in Hal as (a & Ha & Hne & Hab & Hta).
  split; [done|]. split; [done|]. split; [done|]. split; [done|]. exists m, t, v, a.
  split_and!; try done. rewrite Hhd.
  destruct (split " " line) as [|x [|y [|z [|w l]]]]; try done. cbn in *. congruence.
Qed.

(** C2: A credentialled request is the broker's own: for an accepted head and a run whose
    credentials have canonical hosts, the URL's authority is exactly the pinned host of an
    injected credential named by the first path segment, the rest of the URL is the
    normalised target unchanged, one of that credential's own rules covers the method and
    the path, at most the two forwardable headers go along, and the body is bounded. *)
Theorem authorized_request head i creds u c
    (Hhosts : Forall (fun c => canonical (name_str (host c))) creds)
    (Hi : parse_intent head = Ok i) (Ha : authorize creds i = Ok (u, c)) :
  intent_of head i /\ c ∈ creds /\ name_str (alias c) = si_alias i /\
  url u = B "https://" ++ name_str (host c) ++ si_path i /\
  url_authority (url u) = Some (name_str (host c)) /\ up_host u = name_str (host c) /\
  up_method u = si_method i /\ up_headers u = si_headers i /\
  exists r, r ∈ allow c /\ si_method i ∈ methods r /\
    glob_accepts (path r) (path_segments (target_path (si_path i))).
Proof.
  apply parse_intent_Ok in Hi. split; [done|]. revert Ha. unfold authorize. intros H.
  apply rbind_Ok in H as (c' & Hf & H). apply ok_or_Ok, find_some in Hf as [Hin Hal].
  apply list_elem_of_In in Hin. apply beq_true in Hal.
  destruct (cred_permits c' _ _) eqn:Hp; [|done]. cbn [negb] in H. injection H as <- <-.
  rewrite Forall_forall in Hhosts. specialize (Hhosts _ Hin). cbn [url up_host up_method up_headers].
  split_and!; try done.
  - unfold url_authority, SafeName.as_str.
    rewrite (proj2 (strip_prefix_Some _ _ (name_str (host c') ++ si_path i))) by done.
    destruct Hi as (_ & ((r & -> & _) & _) & _).
    rewrite split_app; [done|]. by apply canonical_no.
  - unfold cred_permits in Hp. apply existsb_exists in Hp as (r & Hr & Hp).
    unfold RequestRule.permits in Hp. apply andb_true_iff in Hp as [Hm Hg].
    exists r. split; [by apply list_elem_of_In|]. split; [|by apply glob_matches].
    apply existsb_exists in Hm as (m & Hm & E). apply bool_decide_eq_true in E as <-.
    by apply list_elem_of_In.
Qed.

Definition sample_credential : ResolvedCredential :=
  MkCredential (MkSafeName (B "github")) (MkSafeName (B "api.github.com")) Bearer
    [MkRule [Get] (MkGlob [B "repos"; B "*"] true)] (MkSecret (B "t0ken")).

Lemma authorized_request_witness :
  url_authority (B "https://api.github.com/repos/a/issues?q=1") = Some (B "api.github.com").
Proof.
  pose (head := B "GET /GitHub/repos/a/issues?q=1 HTTP/1.1" ++ CRLF ++ B "Accept: */*" ++ CRLF ++ CRLF).
  pose (i := MkIntent (B "github") Get (B "/repos/a/issues?q=1") [(B "accept", B "*/*")] 0).
  refine (proj1 (proj2 (proj2 (proj2 (proj2
    (authorized_request head i [sample_credential]
       (MkUpstream (B "https://api.github.com/repos/a/issues?q=1") Get [(B "accept", B "*/*")]
          (B "github") (B "api.github.com")) sample_credential _ _ _)))))).
  - constructor; [|constructor]. split; [vm_compute; lia|].
    repeat constructor; vm_compute; try done; lia.
  - vm_compute. reflexivity.
  - vm_compute. reflexivity.
Defined.
