(* ===== verification/Broker.v ===== *)
(** * Broker: the egress broker's recorder, policy and dialler

    Models [crates/core/src/net/broker.rs] up to the protocol handlers: the flight recorder
    with its resolution cache, [Policy::check], the destination guard, the start-up check of
    pinned hosts, and [dial].  The resolver, the connector, the URL parser and the clock are
    parameters; the recorder's mutex serialises its operations, so each is one step. *)
From S2P Require Import Prelude Text IpAddr Egress Credentials Inject.

Definition MAX_RECORDED_EVENTS : nat := 10000.
Definition MAX_HTTP_HEAD : nat := 8 * 1024.
Definition MAX_CONCURRENT_CONNS : nat := 64.

(** [a.saturating_add(b)] on [u64] *)
Definition saturating_add (a b : N) : N := N.min (a + b) u64_max.

(** ** The flight recorder *)

Inductive Proto : Type := Socks5 | Http | ProtoInject | Dns.

Record EgressEvent : Type := MkEvent {
  ev_proto : Proto; ev_host : SafeName; ev_port : N; ev_allowed : bool;
  ev_reason : option DenyReason; ev_bytes_up : N; ev_bytes_down : N; ev_ts_ms : N;
  ev_note : option bytes }.

Record Shared : Type := MkShared {
  events : list EgressEvent; total : N; resolved : gmap ip_addr SafeName }.

Definition Shared_default : Shared := MkShared [] 0 ∅.

Module Recorder.
Definition record (event : EgressEvent) (sh : Shared) : option nat * Shared :=
  let sh := MkShared (events sh) (saturating_add (total sh) 1) (resolved sh) in
  if Nat.leb MAX_RECORDED_EVENTS (length (events sh)) then (None, sh)
  else
    let sh := MkShared (events sh ++ [event]) (total sh) (resolved sh) in
    (Some (length (events sh) - 1), sh).

Definition add_bytes (slot : option nat) (up down : N) (sh : Shared) : Shared :=
  match slot with
  | None => sh
  | Some i =>
      match events sh !! i with
      | None => sh
      | Some e =>
          let e := MkEvent (ev_proto e) (ev_host e) (ev_port e) (ev_allowed e) (ev_reason e)
                     (saturating_add (ev_bytes_up e) up)
                     (saturating_add (ev_bytes_down e) down) (ev_ts_ms e) (ev_note e) in
          MkShared (<[i := e]> (events sh)) (total sh) (resolved sh)
      end
  end.

Definition remember_resolved (ip : ip_addr) (name : SafeName) (sh : Shared) : Shared :=
  if Nat.ltb (size (resolved sh)) MAX_RECORDED_EVENTS
  then MkShared (events sh) (total sh) (<[ip := name]> (resolved sh))
  else sh.

Definition name_for (ip : ip_addr) (sh : Shared) : option SafeName := resolved sh !! ip.

Definition snapshot (sh : Shared) : list EgressEvent * N := (events sh, total sh).
End Recorder.

(** ** The policy *)

(** The fields of [Policy] that do not change while the broker runs. *)
Record Policy : Type := MkPolicy {
  rules : list HostRule; pol_credentials : list ResolvedCredential;
  gateway : ipv4; guest : ipv4; inject_port : N;
  allow_private : bool; allow_loopback : bool }.

Inductive Verdict : Type := VAllow (name : SafeName) | VDeny (why : DenyReason).

Definition is_loopback (ip : ip_addr) : bool :=
  match ip with V4 a => Ipv4Addr.is_loopback a | V6 a => Ipv6Addr.is_loopback a end.

(** The test both the dialler and the resolver apply to an address. *)
Definition floor_ok (p : Policy) (ip : ip_addr) : bool :=
  (allow_loopback p && is_loopback ip) || is_dialable ip (allow_private p).

Module Policy.
Definition pinned_credential_host (p : Policy) (target : Target) : bool :=
  match target with
  | Name name _ =>
      SafeName.is_valid name &&
      existsb (fun c => beq (SafeName.as_str (host c)) (SafeName.as_str name)) (pol_credentials p)
  | Addr _ _ => false
  end.

Definition check (p : Policy) (sh : Shared) (target : Target) : Verdict :=
  let refused :=
    match decide (rules p) target with
    | Deny reason => if pinned_credential_host p target
                     then VDeny PinnedCredentialHost else VDeny reason
    | Allow => VAllow (Target.safe_host target)
    end in
  match decide (rules p) target with
  | Allow => VAllow (Target.safe_host target)
  | Deny _ =>
      match target with
      | Addr ip _ => match Recorder.name_for ip sh with
                     | Some name => VAllow name
                     | None => refused
                     end
      | Name _ _ => refused
      end
  end.

Definition is_own_credential_endpoint (p : Policy) (target : Target) : bool :=
  match target with
  | Addr (V4 ip) port => bool_decide (ip = gateway p) && (port =? inject_port p)%N
  | _ => false
  end.

(** The answer, and the once-only flag after it. *)
Definition peer_permitted (p : Policy) (logged : bool) (peer : ip_addr) : bool * bool :=
  let ok := match peer with
            | V4 v4 => bool_decide (v4 = guest p)
            | V6 v6 => bool_decide (Ipv6Addr.to_ipv4_mapped v6 = Some (guest p))
            end in
  (ok, if ok then logged else true).
End Policy.

(** ** Pinned hosts *)

(** [url::Host] of a parsed URL, with its text. *)
Inductive UrlHost : Type := UrlIpv4 (a : ipv4) | UrlIpv6 (a : ipv6) | UrlDomain.

Inductive PinnedOrigin : Type := Literal (ip : ip_addr) | PinnedName.

Inductive PinnedError : Type :=
  | NotUsable (host why : bytes)
  | NoAuthority (host : bytes)
  | Rewritten (host dialed : bytes)
  | Floored (alias host : bytes).

Section Pinned.
(** [url::Url::parse], giving the host and its text. *)
Variable url_parse : bytes -> result (option (UrlHost * bytes)) bytes.

Definition classify_pinned_host (host : bytes) : result PinnedOrigin PinnedError :=
  let? url := map_err (NotUsable host) (url_parse (B "https://" ++ host ++ B "/")) in
  match url with
  | None => Err (NoAuthority host)
  | Some (parsed, dialed) =>
      if negb (beq dialed host) then Err (Rewritten host dialed)
      else Ok (match parsed with
               | UrlIpv4 v4 => Literal (V4 v4)
               | UrlIpv6 v6 => Literal (V6 v6)
               | UrlDomain => PinnedName
               end)
  end.

Fixpoint refuse_floored_pinned_hosts (p : Policy) (creds : list ResolvedCredential)
    : result unit PinnedError :=
  match creds with
  | [] => Ok tt
  | cred :: rest =>
      let h := SafeName.as_str (host cred) in
      let? origin := classify_pinned_host h in
      match origin with
      | PinnedName => refuse_floored_pinned_hosts p rest
      | Literal ip =>
          if floor_ok p ip then refuse_floored_pinned_hosts p rest
          else Err (Floored (SafeName.as_str (alias cred)) h)
      end
  end.
End Pinned.

(** ** Resolution and dialling *)

Abbreviation SocketAddr := (ip_addr * N)%type.

(** [FlooredResolver::resolve] on the host resolver's answer; [None] is a timeout. *)
Definition floored_resolve (p : Policy) (answer : option (result (list SocketAddr) bytes))
    : result (list SocketAddr) bytes :=
  match answer with
  | None => Err (B "the pinned host did not resolve in time")
  | Some (Err e) => Err e
  | Some (Ok all) =>
      match List.filter (fun a => floor_ok p (fst a)) all with
      | [] => Err (B "the pinned host has no address this broker will dial")
      | kept => Ok kept
      end
  end.

Inductive DialFailure : Type := Denied (why : DenyReason) | DialUnreachable.

(** A request as the HTTPS client is given it. *)
Record UpstreamCall : Type := MkCall {
  call_method : Method; call_url : bytes; call_headers : list header;
  call_authorization : bytes; call_body : bytes }.

(** What a connection handler acts on: the bytes the peer will still send before it closes
    or its deadline passes, the bytes written to it, how many more writes it accepts, the
    shared recorder, the addresses the broker connected to, in order, the bytes written to
    the upstream connection, and the requests handed to the HTTPS client. *)
Record World : Type := MkWorld {
  inbox : bytes; outbox : bytes; writes : nat; shared : Shared;
  dialed : list SocketAddr; upstream : bytes; calls : list UpstreamCall }.

Definition with_shared (sh : Shared) (w : World) : World :=
  MkWorld (inbox w) (outbox w) (writes w) sh (dialed w) (upstream w) (calls w).
Definition log_dial (a : SocketAddr) (w : World) : World :=
  MkWorld (inbox w) (outbox w) (writes w) (shared w) (dialed w ++ [a]) (upstream w) (calls w).

(** State passing over [World]. *)
Definition M (A : Type) : Type := World -> A * World.
Definition ret {A} (a : A) : M A := fun w => (a, w).
Definition bindM {A B} (m : M A) (k : A -> M B) : M B :=
  fun w => let '(a, w') := m w in k a w'.
Declare Scope broker_scope.
Notation "'let!' x ':=' m 'in' k" := (bindM m (fun x => k))
  (at level 10, x pattern, m at level 200, k at level 200) : broker_scope.
Open Scope broker_scope.

Section Dial.
(** [tokio::net::lookup_host] within its budget, [TcpStream::connect] within its budget,
    and the clock. *)
Variable lookup_host : bytes -> N -> option (list SocketAddr).
Variable connect : SocketAddr -> bool.
Variable now_ms : N.
Variable policy : Policy.

Definition record (e : EgressEvent) : M (option nat) :=
  fun w => let '(slot, sh) := Recorder.record e (shared w) in (slot, with_shared sh w).

Definition resolve_v4_detailed (h : bytes) (port : N) : option (list SocketAddr) :=
  match lookup_host h port with
  | Some l => Some (List.filter (fun a => is_ipv4 (fst a)) l)
  | None => None
  end.

Definition resolve_v4 (h : bytes) (port : N) : list SocketAddr :=
  default [] (resolve_v4_detailed h port).

Definition event (proto : Proto) (h : SafeName) (port : N) (allowed : bool)
    (reason : option DenyReason) (note : option bytes) : EgressEvent :=
  MkEvent proto h port allowed reason 0 0 now_ms note.

(** The loop over the candidate addresses. *)
Fixpoint try_connect (addrs : list SocketAddr) : M (option SocketAddr) :=
  match addrs with
  | [] => ret None
  | a :: rest => fun w =>
      let w := log_dial a w in
      if connect a then (Some a, w) else try_connect rest w
  end.

Definition remember_all (addrs : list SocketAddr) (h : SafeName) : M unit :=
  fun w => (tt, with_shared
    (fold_left (fun sh a => Recorder.remember_resolved (fst a) h sh) addrs (shared w)) w).

Definition dial (target : Target) (proto : Proto)
    : M (result (SocketAddr * option nat) DialFailure) := fun w =>
  let port := Target.port target in
  match Policy.check policy (shared w) target with
  | VDeny reason =>
      (let! _ := record (event proto (Target.safe_host target) port false (Some reason) None) in
       ret (Err (Denied reason))) w
  | VAllow name =>
      let resolved :=
        match target with
        | Addr ip port => [(ip, port)]
        | Name h port => resolve_v4 (SafeName.as_str h) port
        end in
      let addrs := List.filter (fun a => floor_ok policy (fst a)) resolved in
      let blocked := List.filter (fun a => negb (floor_ok policy (fst a))) resolved in
      (let! _ := match target with
                 | Name h _ => remember_all addrs h
                 | Addr _ _ => ret tt
                 end in
       match addrs, blocked with
       | [], _ :: _ =>
           let! _ := record (event proto name port false (Some NonPublicAddress)
                               (Some (B "non-public-address"))) in
           ret (Err (Denied NonPublicAddress))
       | [], [] =>
           let! _ := record (event proto name port false None (Some (B "resolve-failed"))) in
           ret (Err DialUnreachable)
       | _, _ =>
           let! found := try_connect addrs in
           match found with
           | Some a =>
               let! slot := record (event proto name port true None None) in
               ret (Ok (a, slot))
           | None =>
               let! _ := record (event proto name port false None (Some (B "dial-failed"))) in
               ret (Err DialUnreachable)
           end
       end) w
  end.
End Dial.

(** ** The byte pump *)

Inductive Direction : Type := Up | Down.

(** One chunk of a spliced connection, counted as it is forwarded. *)
Definition count_chunk (slot : option nat) (c : Direction * N) (sh : Shared) : Shared :=
  match fst c with
  | Up => Recorder.add_bytes slot (snd c) 0 sh
  | Down => Recorder.add_bytes slot 0 (snd c) sh
  end.

(** The chunks of both directions, in the order their counts reach the recorder. *)
Definition pump (slot : option nat) (chunks : list (Direction * N)) (sh : Shared) : Shared :=
  fold_left (fun sh c => count_chunk slot c sh) chunks sh.

(** ** The recorder's invariants *)

Lemma saturating_add_assoc a b c : saturating_add (saturating_add a b) c = saturating_add a (b + c).
Proof. unfold saturating_add. lia. Qed.

(** The log and the cache are bounded, and the total never counts less than is kept. *)
Definition recorder_wf (sh : Shared) : Prop :=
  length (events sh) <= MAX_RECORDED_EVENTS /\ size (resolved sh) <= MAX_RECORDED_EVENTS /\
  (N.of_nat (length (events sh)) <= total sh <= u64_max)%N.

(** Every cached address passed the destination guard when it was resolved for a name the
    rules allow. *)
Definition cache_ok (p : Policy) (sh : Shared) : Prop :=
  map_Forall (fun ip name => floor_ok p ip = true /\ decide (rules p) (Name name 0) = Allow)
    (resolved sh).

Lemma record_spec e sh :
  let '(slot, sh') := Recorder.record e sh in
  resolved sh' = resolved sh /\ total sh' = saturating_add (total sh) 1 /\
  match slot with
  | Some i => i = length (events sh) /\ events sh' = events sh ++ [e] /\
              length (events sh) < MAX_RECORDED_EVENTS
  | None => events sh' = events sh /\ MAX_RECORDED_EVENTS <= length (events sh)
  end.
Proof.
  unfold Recorder.record. cbn [events total resolved].
  destruct (Nat.leb_spec MAX_RECORDED_EVENTS (length (events sh))); cbn [events total resolved].
  - done.
  - rewrite length_app. simpl length. split_and!; try done. lia.
Qed.

Lemma record_wf e sh : recorder_wf sh -> recorder_wf (snd (Recorder.record e sh)).
Proof.
  intros (Hl & Hs & Ht). pose proof (record_spec e sh) as Hr.
  destruct (Recorder.record e sh) as [[i|] sh']; destruct Hr as (Hres & Htot & Hr); cbn [snd];
    unfold recorder_wf; rewrite Hres, Htot; unfold saturating_add.
  - destruct Hr as (_ & -> & Hlt). rewrite length_app. simpl length.
    assert (N.of_nat MAX_RECORDED_EVENTS <= u64_max)%N by (vm_compute; done).
    split_and!; lia.
  - destruct Hr as (-> & _). split_and!; lia.
Qed.

Lemma add_bytes_spec slot up down sh :
  resolved (Recorder.add_bytes slot up down sh) = resolved sh /\
  total (Recorder.add_bytes slot up down sh) = total sh /\
  length (events (Recorder.add_bytes slot up down sh)) = length (events sh).
Proof.
  unfold Recorder.add_bytes. destruct slot as [i|]; [|done].
  destruct (events sh !! i); [|done]. cbn. by rewrite length_insert.
Qed.

Lemma remember_wf ip n sh : recorder_wf sh -> recorder_wf (Recorder.remember_resolved ip n sh).
Proof.
  intros (Hl & Hs & Ht). unfold Recorder.remember_resolved.
  destruct (Nat.ltb_spec (size (resolved sh)) MAX_RECORDED_EVENTS); [|done].
  unfold recorder_wf. cbn [events total resolved]. rewrite map_size_insert.
  destruct (resolved sh !! ip); cbn [id]; split_and!; lia.
Qed.

Lemma remember_cache p ip n sh :
  cache_ok p sh -> floor_ok p ip = true -> decide (rules p) (Name n 0) = Allow ->
  cache_ok p (Recorder.remember_resolved ip n sh).
Proof.
  intros Hc Hf Hd. unfold Recorder.remember_resolved.
  destruct (Nat.ltb _ _); [|done]. by apply map_Forall_insert_2.
Qed.

(** What the listeners do to the shared state. *)
Inductive recorder_op : Type :=
  | OpRecord (e : EgressEvent)
  | OpAddBytes (slot : option nat) (up down : N)
  | OpRemember (ip : ip_addr) (n : SafeName).

Definition apply_op (sh : Shared) (op : recorder_op) : Shared :=
  match op with
  | OpRecord e => snd (Recorder.record e sh)
  | OpAddBytes s u d => Recorder.add_bytes s u d sh
  | OpRemember ip n => Recorder.remember_resolved ip n sh
  end.

Definition op_event (op : recorder_op) : option EgressEvent :=
  match op with OpRecord e => Some e | _ => None end.

(** What identifies an event, its byte counters aside. *)
Definition same_event (e e' : EgressEvent) : Prop :=
  ev_proto e = ev_proto e' /\ ev_host e = ev_host e' /\ ev_port e = ev_port e' /\
  ev_allowed e = ev_allowed e' /\ ev_reason e = ev_reason e' /\ ev_ts_ms e = ev_ts_ms e' /\
  ev_note e = ev_note e'.

#[export] Instance same_event_refl : Reflexive same_event.
Proof. intros e. by repeat split. Qed.

#[export] Instance same_event_trans : Transitive same_event.
Proof. intros a b c (?&?&?&?&?&?&?) (?&?&?&?&?&?&?). repeat split; congruence. Qed.

Lemma Forall2_refl_event l : Forall2 same_event l l.
Proof. induction l; by constructor. Qed.

Lemma apply_op_events sh op :
  Forall2 same_event
    (take MAX_RECORDED_EVENTS (events sh ++ match op_event op with Some e => [e] | None => [] end))
    (take MAX_RECORDED_EVENTS (events (apply_op sh op))) /\
  (length (events sh) <= MAX_RECORDED_EVENTS ->
   length (events (apply_op sh op)) <= MAX_RECORDED_EVENTS).
Proof.
  destruct op as [e|s u d|ip n]; cbn [op_event apply_op].
  - pose proof (record_spec e sh) as Hr. destruct (Recorder.record e sh) as [[i|] sh'];
      destruct Hr as (_ & _ & Hr); cbn [snd].
    + destruct Hr as (_ & -> & ?). rewrite length_app. simpl length.
      split; [apply Forall2_refl_event|lia].
    + destruct Hr as (-> & ?). rewrite take_app_le by lia. split; [apply Forall2_refl_event|done].
  - rewrite app_nil_r. destruct (add_bytes_spec s u d sh) as (_ & _ & Hl). rewrite Hl.
    split; [|done]. unfold Recorder.add_bytes. destruct s as [i|]; [|apply Forall2_refl_event].
    destruct (events sh !! i) as [e|] eqn:E; [|apply Forall2_refl_event]. cbn [events].
    apply Forall2_take. rewrite <- (list_insert_id (events sh) i e E) at 1.
    apply Forall2_insert; [apply Forall2_refl_event|by repeat split].
  - rewrite app_nil_r. unfold Recorder.remember_resolved.
    destruct (Nat.ltb _ _); (split; [apply Forall2_refl_event|done]).
Qed.

Lemma apply_op_total sh op :
  total (apply_op sh op) =
  match op_event op with Some _ => saturating_add (total sh) 1 | None => total sh end.
Proof.
  destruct op as [e|s u d|ip n]; cbn [op_event apply_op].
  - pose proof (record_spec e sh) as Hr. destruct (Recorder.record e sh).
    cbn [snd]. by destruct Hr as (_ & -> & _).
  - by destruct (add_bytes_spec s u d sh) as (_ & -> & _).
  - unfold Recorder.remember_resolved. by destruct (Nat.ltb _ _).
Qed.

Lemma apply_op_wf sh op : recorder_wf sh -> recorder_wf (apply_op sh op).
Proof.
  destruct op as [e|s u d|ip n]; cbn [apply_op]; intros Hwf.
  - by apply record_wf.
  - destruct (add_bytes_spec s u d sh) as (Hr & Ht & Hl). unfold recorder_wf. by rewrite Hr, Ht, Hl.
  - by apply remember_wf.
Qed.

Lemma recorder_run_gen ops sh :
  recorder_wf sh ->
  let sh' := fold_left apply_op ops sh in
  recorder_wf sh' /\
  total sh' = saturating_add (total sh) (N.of_nat (length (omap op_event ops))) /\
  Forall2 same_event (take MAX_RECORDED_EVENTS (events sh ++ omap op_event ops)) (events sh').
Proof.
  revert sh. induction ops as [|op ops IH]; intros sh Hwf; cbn [fold_left].
  - split; [done|]. rewrite app_nil_r. destruct Hwf as (Hl & _ & _ & Ht). split.
    + unfold saturating_add. cbn. lia.
    + rewrite take_ge by done. apply Forall2_refl_event.
  - destruct (IH (apply_op sh op) (apply_op_wf _ _ Hwf)) as (Hwf' & Ht & He).
    split; [done|]. split.
    + rewrite Ht, apply_op_total. change (omap op_event (op :: ops)) with
        (match op_event op with Some y => y :: omap op_event ops | None => omap op_event ops end).
      destruct (op_event op); [|done]. rewrite saturating_add_assoc. f_equal. simpl length. lia.
    + destruct (apply_op_events sh op) as [Hev Hlen]. destruct Hwf as (Hl & _).
      specialize (Hlen Hl). rewrite (take_ge (events (apply_op sh op))) in Hev by done.
      etrans; [|exact He].
      assert (events sh ++ omap op_event (op :: ops) =
              (events sh ++ match op_event op with Some e => [e] | None => [] end) ++ omap op_event ops) as ->.
      { change (omap op_event (op :: ops)) with
          (match op_event op with Some y => y :: omap op_event ops | None => omap op_event ops end).
        destruct (op_event op); [by rewrite <- app_assoc|by rewrite app_nil_r]. }
      rewrite (firstn_app _ (events sh ++ _)), (firstn_app _ (events (apply_op sh op))).
      apply Forall2_app.
      * rewrite (take_ge (events (apply_op sh op))) by done. exact Hev.
      * apply Forall2_length in Hev. rewrite <- Hev.
        rewrite length_take.
        replace (MAX_RECORDED_EVENTS - Nat.min MAX_RECORDED_EVENTS
          (length (events sh ++ match op_event op with Some e => [e] | None => [] end)))
          with (MAX_RECORDED_EVENTS -
          length (events sh ++ match op_event op with Some e => [e] | None => [] end)) by lia.
        apply Forall2_refl_event.
Qed.

(** The flight recorder loses and rewrites nothing: after any interleaving of the listeners'
    operations the log is, byte counters aside, the first 10,000 recorded events in the
    order they were recorded, the total counts every one of them, and the log and the
    resolution cache stay within their bound. *)
Theorem recorder_run ops :
  let sh := fold_left apply_op ops Shared_default in
  recorder_wf sh /\
  total sh = N.min (N.of_nat (length (omap op_event ops))) u64_max /\
  Forall2 same_event (take MAX_RECORDED_EVENTS (omap op_event ops)) (events sh).
Proof.
  apply (recorder_run_gen ops Shared_default).
  unfold recorder_wf, Shared_default. cbn [events total resolved]. rewrite map_size_empty.
  split_and!; simpl length; lia.
Qed.

(** ** Byte accounting *)

Definition bytes_in (d : Direction) (chunks : list (Direction * N)) : N :=
  fold_right (fun c n => match fst c, d with Up, Up | Down, Down => snd c + n | _, _ => n end)%N
    0%N chunks.

Lemma bytes_in_cons d c cs : bytes_in d (c :: cs) = (bytes_in d [c] + bytes_in d cs)%N.
Proof. unfold bytes_in. cbn [fold_right]. destruct c as [[] n], d; cbn [fst snd]; lia. Qed.

Lemma count_chunk_lookup i c sh e :
  events sh !! i = Some e ->
  events (count_chunk (Some i) c sh) = <[i :=
    MkEvent (ev_proto e) (ev_host e) (ev_port e) (ev_allowed e) (ev_reason e)
      (saturating_add (ev_bytes_up e) (bytes_in Up [c]))
      (saturating_add (ev_bytes_down e) (bytes_in Down [c])) (ev_ts_ms e) (ev_note e)]> (events sh).
Proof.
  intros He. unfold count_chunk, Recorder.add_bytes. destruct c as [[] n]; cbn [fst snd];
    rewrite He; cbn [events bytes_in fold_right fst snd]; by rewrite N.add_0_r.
Qed.

(** Bytes are counted as they flow: whatever the interleaving of the two directions, the
    event of a spliced connection ends with its counters grown by exactly the bytes
    forwarded each way (saturating at [u64::MAX]), and nothing else of the recorder
    changes. *)
Theorem pump_counts i chunks sh e (He : events sh !! i = Some e)
    (Hu : (ev_bytes_up e <= u64_max)%N) (Hd : (ev_bytes_down e <= u64_max)%N) :
  pump (Some i) chunks sh =
  MkShared
    (<[i := MkEvent (ev_proto e) (ev_host e) (ev_port e) (ev_allowed e) (ev_reason e)
              (saturating_add (ev_bytes_up e) (bytes_in Up chunks))
              (saturating_add (ev_bytes_down e) (bytes_in Down chunks)) (ev_ts_ms e) (ev_note e)]>
       (events sh)) (total sh) (resolved sh).
Proof.
  revert sh e He Hu Hd. induction chunks as [|c chunks IH]; intros sh e He Hu Hd.
  - cbn [pump fold_left bytes_in fold_right]. unfold saturating_add.
    rewrite !N.add_0_r, !N.min_l by done. rewrite list_insert_id; [by destruct sh|].
    by destruct e.
  - change (pump (Some i) (c :: chunks) sh) with (pump (Some i) chunks (count_chunk (Some i) c sh)).
    pose proof (count_chunk_lookup i c sh e He) as Hc.
    assert (total (count_chunk (Some i) c sh) = total sh /\
            resolved (count_chunk (Some i) c sh) = resolved sh) as [Ht Hr].
    { unfold count_chunk. destruct (fst c); by edestruct add_bytes_spec as (-> & -> & _). }
    erewrite IH; [|rewrite Hc; apply list_lookup_insert_eq; by eapply lookup_lt_Some| |];
      cbn [ev_bytes_up ev_bytes_down]; [|unfold saturating_add; lia|unfold saturating_add; lia].
    rewrite Hc, Ht, Hr, list_insert_insert_eq. cbn [ev_proto ev_host ev_port ev_allowed ev_reason
      ev_bytes_up ev_bytes_down ev_ts_ms ev_note]. rewrite !saturating_add_assoc.
    by rewrite <- !bytes_in_cons.
Qed.

Lemma pump_counts_witness :
  events (pump (Some 0) [(Up, 10); (Down, 7); (Up, 5)]%N
    (MkShared [MkEvent Http (MkSafeName (B "a.b")) 80 true None 1 0 3 None] 1 ∅)) =
  [MkEvent Http (MkSafeName (B "a.b")) 80 true None 16 7 3 None].
Proof.
  rewrite (pump_counts 0 [(Up, 10); (Down, 7); (Up, 5)]%N
    (MkShared [MkEvent Http (MkSafeName (B "a.b")) 80 true None 1 0 3 None] 1 ∅)
    (MkEvent Http (MkSafeName (B "a.b")) 80 true None 1 0 3 None));
    [reflexivity|reflexivity|vm_compute; discriminate|vm_compute; discriminate].
Defined.

(** ** Dialling *)

Lemma decide_port rs n p q : decide rs (Name n p) = decide rs (Name n q).
Proof. by destruct rs. Qed.

Lemma filter_forall {A} (f : A -> bool) l : Forall (fun x => f x = true) (List.filter f l).
Proof. apply Forall_forall. intros x Hx. by apply list_elem_of_In, filter_In in Hx as [_ Hx]. Qed.

(** The policy permits a target outright, or it is an address this broker resolved for a
    name the policy allows. *)
Definition permitted (p : Policy) (sh : Shared) (t : Target) : Prop :=
  decide (rules p) t = Allow \/
  exists ip port name, t = Addr ip port /\ resolved sh !! ip = Some name /\
    decide (rules p) (Name name 0) = Allow.

Lemma check_allow p sh t n :
  cache_ok p sh -> Policy.check p sh t = VAllow n ->
  permitted p sh t /\ (forall h q, t = Name h q -> n = h /\ decide (rules p) (Name h 0) = Allow).
Proof.
  intros Hc. unfold Policy.check. destruct (decide (rules p) t) eqn:Ed.
  - intros [= <-]. split; [by left|]. intros h q ->. split; [done|].
    by rewrite (decide_port _ _ 0%N q).
  - destruct t as [h q|ip q].
    + by destruct (Policy.pinned_credential_host p _).
    + unfold Recorder.name_for. destruct (resolved sh !! ip) as [n'|] eqn:E.
      * intros [= <-]. split; [|done]. right. exists ip, q, n'. split_and!; [done|done|].
        by apply (Hc ip n').
      * by destruct (Policy.pinned_credential_host p _).
Qed.

Lemma check_deny p sh t why :
  Policy.check p sh t = VDeny why ->
  decide (rules p) t <> Allow /\ (forall ip q, t = Addr ip q -> resolved sh !! ip = None) /\
  (decide (rules p) t = Deny why \/
   why = PinnedCredentialHost /\ Policy.pinned_credential_host p t = true).
Proof.
  unfold Policy.check. destruct (decide (rules p) t) as [|r] eqn:Ed; [done|].
  destruct t as [h q|ip q].
  - destruct (Policy.pinned_credential_host p _) eqn:Ep; intros [= <-]; (split; [done|]);
      (split; [done|]); [by right|by left].
  - unfold Recorder.name_for. destruct (resolved sh !! ip) as [n'|] eqn:E; [done|].
    intros [= <-]. split; [done|]. split; [by intros ? ? [= <- <-]|by left].
Qed.

Lemma remember_fold p addrs h sh :
  cache_ok p sh -> Forall (fun a : SocketAddr => floor_ok p (fst a) = true) addrs ->
  decide (rules p) (Name h 0) = Allow ->
  let sh' := fold_left (fun sh a => Recorder.remember_resolved (fst a) h sh) addrs sh in
  cache_ok p sh' /\ events sh' = events sh /\ total sh' = total sh /\
  (recorder_wf sh -> recorder_wf sh').
Proof.
  intros Hc Hf Hd. revert sh Hc. induction Hf as [|a addrs Ha _ IH]; intros sh Hc; [done|].
  cbn [fold_left]. destruct (IH (Recorder.remember_resolved (fst a) h sh)) as (H1 & H2 & H3 & H4).
  { by apply remember_cache. }
  split; [done|]. rewrite H2, H3. unfold Recorder.remember_resolved at 1 2.
  split_and!; [by destruct (Nat.ltb _ _)|by destruct (Nat.ltb _ _)|].
  intros Hwf. by apply H4, remember_wf.
Qed.

Lemma try_connect_spec connect addrs w :
  let '(found, w') := try_connect connect addrs w in
  exists tried, w' = MkWorld (inbox w) (outbox w) (writes w) (shared w) (dialed w ++ tried) (upstream w) (calls w) /\
    tried `prefix_of` addrs /\
    match found with
    | Some a => connect a = true /\ exists t, tried = t ++ [a] /\ Forall (fun a => connect a = false) t
    | None => tried = addrs /\ Forall (fun a => connect a = false) addrs
    end.
Proof.
  revert w. induction addrs as [|a addrs IH]; intros w; cbn [try_connect].
  { exists []. rewrite app_nil_r. by destruct w. }
  destruct (connect a) eqn:Ea.
  { exists [a]. split; [done|]. split; [by exists addrs|]. split; [done|]. by exists []. }
  specialize (IH (log_dial a w)). destruct (try_connect connect addrs (log_dial a w)) as [found w'].
  destruct IH as (tried & -> & Hp & Hf). exists (a :: tried). cbn.
  rewrite <- app_assoc. split; [done|]. split; [by apply prefix_cons|].
  destruct found as [b|].
  - destruct Hf as (Hb & t & -> & Ht). split; [done|]. exists (a :: t). split; [done|]. by constructor.
  - destruct Hf as (-> & Ht). split; [done|]. by constructor.
Qed.

(** What one [dial] does to the world: the connections it attempts, the one event it
    records, and its answer. *)
Record dial_effect (lookup_host : bytes -> N -> option (list SocketAddr)) (connect : SocketAddr -> bool)
    (p : Policy) (t : Target) (proto : Proto) (w : World)
    (r : result (SocketAddr * option nat) DialFailure) (w' : World) (tried : list SocketAddr)
    (e : EgressEvent) : Prop := {
  de_world : w' = MkWorld (inbox w) (outbox w) (writes w) (shared w') (dialed w ++ tried) (upstream w) (calls w);
  de_floor : Forall (fun a => floor_ok p (fst a) = true) tried;
  de_source : Forall (fun a => match t with
    | Addr ip q => a = (ip, q)
    | Name h q => exists l, lookup_host (SafeName.as_str h) q = Some l /\ a ∈ l /\ is_ipv4 (fst a) = true
    end) tried;
  de_permitted : tried <> [] -> permitted p (shared w) t;
  de_event : exists slot sh0, Recorder.record e sh0 = (slot, shared w') /\
    events sh0 = events (shared w) /\ total sh0 = total (shared w) /\
    (forall a s, r = Ok (a, s) -> s = slot);
  de_fields : ev_proto e = proto /\ ev_port e = Target.port t /\ ev_allowed e = is_ok r;
  de_result :
    match r with
    | Ok (a, _) => last tried = Some a /\ connect a = true
    | Err (Denied why) => tried = [] /\ ev_reason e = Some why /\
                          (permitted p (shared w) t -> why = NonPublicAddress)
    | Err DialUnreachable => Forall (fun a => connect a = false) tried /\ permitted p (shared w) t
    end }.

Section DialProof.
Variable lookup_host : bytes -> N -> option (list SocketAddr).
Variable connect : SocketAddr -> bool.
Variable now_ms : N.
Variable p : Policy.

Lemma record_ret {A} e (a : A) w :
  (let! _ := record e in ret a) w =
  (a, with_shared (snd (Recorder.record e (shared w))) w).
Proof. unfold bindM, record, ret. by destruct (Recorder.record e (shared w)). Qed.

Lemma record_cache e sh : cache_ok p sh -> cache_ok p (snd (Recorder.record e sh)).
Proof.
  intros Hc. pose proof (record_spec e sh) as Hr. destruct (Recorder.record e sh) as [s sh'].
  destruct Hr as (Hr & _). unfold cache_ok in *. cbn [snd]. by rewrite Hr.
Qed.

Lemma candidates_source t :
  Forall (fun a => match t with
    | Addr ip q => a = (ip, q)
    | Name h q => exists l, lookup_host (SafeName.as_str h) q = Some l /\ a ∈ l /\ is_ipv4 (fst a) = true
    end)
    match t with Addr ip q => [(ip, q)] | Name h q => resolve_v4 lookup_host (SafeName.as_str h) q end.
Proof.
  destruct t as [h q|ip q]; [|by constructor].
  unfold resolve_v4, resolve_v4_detailed.
  destruct (lookup_host (SafeName.as_str h) q) as [l|]; [|constructor]. cbn [default].
  apply Forall_forall. intros a Ha. apply list_elem_of_In, filter_In in Ha as [Ha Hv].
  exists l. split_and!; [done|by apply list_elem_of_In|done].
Qed.

Lemma filter_incl_forall {X} (P : X -> Prop) f l : Forall P l -> Forall P (List.filter f l).
Proof.
  rewrite !Forall_forall. intros H x Hx. apply H.
  apply list_elem_of_In, filter_In in Hx as [Hx _]. by apply list_elem_of_In.
Qed.

Lemma refused_unpermitted sh t why :
  Policy.check p sh t = VDeny why -> ~ permitted p sh t.
Proof.
  intros H. apply check_deny in H as (Hd & Hn & _). intros [Hp|(ip & q & n & -> & Hr & _)]; [done|].
  by rewrite (Hn ip q) in Hr.
Qed.

Lemma dial_spec_gen t proto w :
  cache_ok p (shared w) ->
  let '(r, w') := dial lookup_host connect now_ms p t proto w in
  (cache_ok p (shared w') /\ (recorder_wf (shared w) -> recorder_wf (shared w'))) /\
  exists tried e, dial_effect lookup_host connect p t proto w r w' tried e.
Proof.
  intros Hc. unfold dial. destruct (Policy.check p (shared w) t) as [name|why] eqn:Ek.
  2: { rewrite record_ret. split; [by split; [apply record_cache|apply record_wf]|].
       exists [], (event now_ms proto (Target.safe_host t) (Target.port t) false (Some why) None).
       split; cbn [shared with_shared]; try done.
       - unfold with_shared. by rewrite app_nil_r.
       - destruct (Recorder.record _ (shared w)) as [slot sh'] eqn:E. exists slot, (shared w).
         by rewrite E.
       - split_and!; [done|done|]. intros Hp. by apply refused_unpermitted in Ek. }
  destruct (check_allow _ _ _ _ Hc Ek) as [Hp Hname].
  pose proof (candidates_source t) as Hsrc.
  set (cand := match t with Addr ip q => _ | Name h q => _ end) in *.
  set (addrs := List.filter (fun a => floor_ok p (fst a)) cand).
  assert (Forall (fun a => floor_ok p (fst a) = true) addrs) as Hfl by apply filter_forall.
  apply (filter_incl_forall _ (fun a => floor_ok p (fst a))) in Hsrc. fold addrs in Hsrc.
  set (blocked := List.filter _ cand). clearbody addrs blocked cand.
  assert (exists sh1, (match t with Name h _ => remember_all addrs h | Addr _ _ => ret tt end) w
            = (tt, with_shared sh1 w) /\ cache_ok p sh1 /\ events sh1 = events (shared w) /\
            total sh1 = total (shared w) /\ (recorder_wf (shared w) -> recorder_wf sh1))
    as (sh1 & Hrem & Hc1 & He1 & Ht1 & Hw1).
  { destruct t as [h q|ip q].
    - destruct (Hname h q eq_refl) as [_ Hd].
      destruct (remember_fold p addrs h (shared w) Hc Hfl Hd) as (H1 & H2 & H3 & H4).
      by eexists.
    - exists (shared w). split_and!; try done. by destruct w. }
  unfold bindM at 1. rewrite Hrem. clear Hrem.
  destruct addrs as [|a0 addrs].
  { destruct blocked; rewrite record_ret; cbn [shared with_shared];
      (split; [split; [by apply record_cache|intros Hw; by apply record_wf, Hw1]|]); exists [];
      eexists (event now_ms proto name (Target.port t) false _ _);
      (split; cbn [shared with_shared]; try done;
       [unfold with_shared; cbn; by rewrite app_nil_r
       |destruct (Recorder.record _ sh1) as [slot sh'] eqn:E; exists slot, sh1; by rewrite E]). }
  clear blocked. pose proof (try_connect_spec connect (a0 :: addrs) (with_shared sh1 w)) as Htry.
  unfold bindM at 1. destruct (try_connect connect (a0 :: addrs) (with_shared sh1 w)) as [found w1].
  destruct Htry as (tried & -> & [k Hk] & Hfound). rewrite Hk in Hfl, Hsrc.
  apply Forall_app in Hfl as [Hfl _]. apply Forall_app in Hsrc as [Hsrc _].
  destruct found as [a|].
  - destruct Hfound as (Ha & t' & -> & _). unfold bindM, record, ret. cbn [shared with_shared].
    destruct (Recorder.record _ sh1) as [slot sh'] eqn:E. cbn [shared with_shared]. split.
    { change sh' with (snd (slot, sh')). rewrite <- E.
      split; [by apply record_cache|intros Hw; by apply record_wf, Hw1]. }
    exists (t' ++ [a]), (event now_ms proto name (Target.port t) true None None).
    split; cbn [shared with_shared]; try done.
    + exists slot, sh1. split_and!; try done. by intros ? ? [= <- <-].
    + by rewrite last_snoc.
  - destruct Hfound as (-> & Hall). rewrite record_ret. cbn [shared with_shared]. split.
    { split; [by apply record_cache|intros Hw; by apply record_wf, Hw1]. }
    eexists _, (event now_ms proto name (Target.port t) false _ _).
    split; cbn [shared with_shared]; try done.
    destruct (Recorder.record _ sh1) as [slot sh'] eqn:E. exists slot, sh1. by rewrite E.
Qed.
End DialProof.

(** The dialler's contract, for every target the guest can name and every answer of the
    resolver: the broker connects only to addresses that pass the destination guard, only
    for a target the rules permit or an address it resolved itself for a permitted name,
    and, for a name, only to IPv4 addresses its own resolver gave; it reports the first one
    that accepted; it records exactly one event, allowed exactly when a connection was made;
    and it keeps the resolution cache sound. *)
Theorem dial_safe lookup_host connect now_ms p t proto w (Hc : cache_ok p (shared w)) :
  let '(r, w') := dial lookup_host connect now_ms p t proto w in
  cache_ok p (shared w') /\ exists tried e, dial_effect lookup_host connect p t proto w r w' tried e.
Proof.
  pose proof (dial_spec_gen lookup_host connect now_ms p t proto w Hc) as H.
  destruct (dial _ _ _ _ _ _ _) as [r w']. by destruct H as [[H1 _] H2].
Qed.

Definition sample_policy : Policy :=
  MkPolicy [Exact (B "pypi.org")] [sample_credential] (ipv4_new 10 107 0 1) (ipv4_new 10 107 0 2)
    3129 false false.

Definition sample_lookup (h : bytes) (port : N) : option (list SocketAddr) :=
  if beq h (B "pypi.org")
  then Some [(V6 Ipv6Addr.localhost, port); (V4 (ipv4_new 127 0 0 1), port); (V4 (ipv4_new 151 101 0 223), port)]
  else None.

Definition sample_world : World := MkWorld [] [] 10 Shared_default [] [] [].

(** An allowed name that also resolves to loopback is dialled at its public address only. *)
Lemma dial_safe_witness :
  dialed (snd (dial sample_lookup (fun _ => true) 7 sample_policy
                 (Name (MkSafeName (B "pypi.org")) 443) Socks5 sample_world))
    = [(V4 (ipv4_new 151 101 0 223), 443%N)] /\
  cache_ok sample_policy (shared (snd (dial sample_lookup (fun _ => true) 7 sample_policy
                 (Name (MkSafeName (B "pypi.org")) 443) Socks5 sample_world))).
Proof.
  split; [vm_compute; reflexivity|].
  pose proof (dial_safe sample_lookup (fun _ => true) 7 sample_policy
                (Name (MkSafeName (B "pypi.org")) 443) Socks5 sample_world
                (map_Forall_empty _)) as H.
  destruct (dial _ _ _ _ _ _ _) as [r w']. exact (proj1 H).
Defined.

(** ** Safe steps *)

(** The recorder's invariant. *)
Definition inv (p : Policy) (sh : Shared) : Prop := cache_ok p sh /\ recorder_wf sh.

(** What any handler may do from a good state: keep it good, connect only to addresses
    that pass the guard, and hand the HTTPS client only calls that satisfy [ok_call]. *)
Definition step_ok (p : Policy) (ok_call : UpstreamCall -> Prop) (w w' : World) : Prop :=
  inv p (shared w) ->
  inv p (shared w') /\
  (exists tried, dialed w' = dialed w ++ tried /\ Forall (fun a => floor_ok p (fst a) = true) tried) /\
  (exists cs, calls w' = calls w ++ cs /\ Forall ok_call cs).

Definition safe {A} (p : Policy) (ok_call : UpstreamCall -> Prop) (m : M A) : Prop :=
  forall w, step_ok p ok_call w (snd (m w)).

Section Safe.
Context (p : Policy) (ok_call : UpstreamCall -> Prop).

#[export] Instance step_ok_refl : Reflexive (step_ok p ok_call).
Proof. intros w Hi. split; [done|]. split; exists []; by rewrite app_nil_r. Qed.

#[export] Instance step_ok_trans : Transitive (step_ok p ok_call).
Proof.
  intros a b c Hab Hbc Hi. destruct (Hab Hi) as (Hb & (t1 & Ht1 & Hf1) & (c1 & Hc1 & Hk1)).
  destruct (Hbc Hb) as (Hc & (t2 & Ht2 & Hf2) & (c2 & Hc2 & Hk2)). split; [done|].
  split; [exists (t1 ++ t2)|exists (c1 ++ c2)].
  - rewrite Ht2, Ht1, app_assoc. split; [done|]. by apply Forall_app.
  - rewrite Hc2, Hc1, app_assoc. split; [done|]. by apply Forall_app.
Qed.

Lemma safe_ret {A} (a : A) : safe p ok_call (ret a).
Proof. intros w. reflexivity. Qed.

Lemma safe_bind {A B} (m : M A) (k : A -> M B) :
  safe p ok_call m -> (forall a, safe p ok_call (k a)) -> safe p ok_call (bindM m k).
Proof.
  intros Hm Hk w. unfold bindM. specialize (Hm w). destruct (m w) as [a w'].
  etrans; [exact Hm|]. apply Hk.
Qed.

(** A step that leaves the recorder, the dialled addresses and the calls alone. *)
Lemma safe_local {A} (m : M A) :
  (forall w, shared (snd (m w)) = shared w /\ dialed (snd (m w)) = dialed w /\
             calls (snd (m w)) = calls w) -> safe p ok_call m.
Proof.
  intros H w Hi. destruct (H w) as (-> & -> & ->). split; [done|].
  split; exists []; by rewrite app_nil_r.
Qed.

Lemma safe_shared {A} (m : M A) f :
  (forall w, snd (m w) = with_shared (f (shared w)) w) ->
  (forall sh, inv p sh -> inv p (f sh)) -> safe p ok_call m.
Proof.
  intros H Hf w Hi. rewrite H. split; [by apply Hf|]. split; exists []; by rewrite app_nil_r.
Qed.

Lemma safe_record e : safe p ok_call (record e).
Proof.
  apply (safe_shared _ (fun sh => snd (Recorder.record e sh))).
  - intros w. unfold record. by destruct (Recorder.record e (shared w)).
  - intros sh [Hc Hw]. split; [by apply record_cache|by apply record_wf].
Qed.

Lemma add_bytes_inv slot u d sh : inv p sh -> inv p (Recorder.add_bytes slot u d sh).
Proof.
  intros [Hc Hw]. destruct (add_bytes_spec slot u d sh) as (Hr & Ht & Hl).
  unfold inv, cache_ok, recorder_wf. by rewrite Hr, Ht, Hl.
Qed.

Lemma pump_inv slot chunks sh : inv p sh -> inv p (pump slot chunks sh).
Proof.
  revert sh. induction chunks as [|c cs IH]; intros sh Hi; [done|].
  apply IH. unfold count_chunk. destruct (fst c); by apply add_bytes_inv.
Qed.

Lemma safe_dial lookup_host connect now_ms t proto :
  safe p ok_call (dial lookup_host connect now_ms p t proto).
Proof.
  intros w [Hc Hw]. pose proof (dial_spec_gen lookup_host connect now_ms p t proto w Hc) as H.
  destruct (dial _ _ _ _ _ _ _) as [r w']. destruct H as [[H1 H2] (tried & e & He)].
  split; [split; [done|by apply H2]|]. cbn [snd]. pose proof (de_world _ _ _ _ _ _ _ _ _ _ He) as ->.
  split; [exists tried; split; [done|by eapply de_floor]|]. exists []. by rewrite app_nil_r.
Qed.
End Safe.

(** ** Policy *)

(** [Policy::check] on every branch: the rules decide; a literal address the rules do not
    cover is let through only as an address the broker handed out, under the name it was
    resolved for; and a refusal keeps the rules' reason, except that a credential's pinned
    host is named as such. *)
Theorem policy_check_spec p sh t :
  match Policy.check p sh t with
  | VAllow n =>
      (decide (rules p) t = Allow /\ n = Target.safe_host t) \/
      (decide (rules p) t <> Allow /\ exists ip q, t = Addr ip q /\ resolved sh !! ip = Some n)
  | VDeny why =>
      exists reason, decide (rules p) t = Deny reason /\
        (forall ip q, t = Addr ip q -> resolved sh !! ip = None) /\
        (if Policy.pinned_credential_host p t
         then why = PinnedCredentialHost /\
              exists n q c, t = Name n q /\ c ∈ pol_credentials p /\ host c = n
         else why = reason)
  end.
Proof.
  unfold Policy.check. destruct (decide (rules p) t) as [|reason]; [by left|].
  destruct t as [n q|ip q].
  - destruct (Policy.pinned_credential_host p (Name n q)) eqn:E; exists reason;
      (split; [done|]; split; [done|]); [|done].
    split; [done|]. unfold Policy.pinned_credential_host in E.
    apply andb_true_iff in E as [_ E]. apply existsb_exists in E as (c & Hin & Hc).
    apply beq_true in Hc. exists n, q, c. split; [done|]. split; [by apply list_elem_of_In|].
    destruct (host c), n. unfold SafeName.as_str in Hc. simpl in Hc. by subst.
  - unfold Recorder.name_for. destruct (resolved sh !! ip) as [n|] eqn:E.
    + right. split; [done|]. by exists ip, q.
    + exists reason. split_and!; try done. by intros ? ? [= <- <-].
Qed.

(** The listeners serve the run's own guest and nobody else, in either spelling of its
    address, and explain a refusal at most once. *)
Theorem peer_permitted_spec p logged peer :
  let '(ok, logged') := Policy.peer_permitted p logged peer in
  (ok = true <-> peer = V4 (guest p) \/
     exists v6, peer = V6 v6 /\ Ipv6Addr.to_ipv4_mapped v6 = Some (guest p)) /\
  (logged' = (if ok then logged else true)).
Proof.
  unfold Policy.peer_permitted. split; [|done].
  destruct peer as [v4|v6]; rewrite bool_decide_eq_true; split.
  - intros ->. by left.
  - intros [[= ->]|(v & ? & _)]; done.
  - intros H. right. by exists v6.
  - intros [?|(v & [= <-] & H)]; done.
Qed.

(** ** Pinned hosts *)

(** What the URL parser will make of a pinned host, when it leaves it unchanged. *)
Definition pinned_ok (url_parse : bytes -> result (option (UrlHost * bytes)) bytes) (p : Policy)
    (c : ResolvedCredential) : Prop :=
  let h := name_str (host c) in
  exists parsed, url_parse (B "https://" ++ h ++ B "/") = Ok (Some (parsed, h)) /\
    match parsed with
    | UrlIpv4 v4 => floor_ok p (V4 v4) = true
    | UrlIpv6 v6 => floor_ok p (V6 v6) = true
    | UrlDomain => True
    end.

(** A run starts only if every pinned host survives the dialler's own URL parser unchanged
    and, where that parser sees an address, the address passes the destination guard. *)
Theorem pinned_hosts_checked url_parse p creds :
  refuse_floored_pinned_hosts url_parse p creds = Ok tt <-> Forall (pinned_ok url_parse p) creds.
Proof.
  induction creds as [|c creds IH]; cbn [refuse_floored_pinned_hosts]; [by split|].
  rewrite Forall_cons, <- IH. unfold classify_pinned_host, pinned_ok, SafeName.as_str. cbn zeta.
  destruct (url_parse _) as [[[parsed dialed]|]|e]; cbn [map_err rbind].
  - destruct (beq dialed (name_str (host c))) eqn:E; cbn [negb rbind].
    + apply beq_true in E as ->. destruct parsed as [a|a|]; cbn [rbind];
        [destruct (floor_ok p (V4 a)) eqn:Ef|destruct (floor_ok p (V6 a)) eqn:Ef|];
        try (split; [intros Hrec; split; [by eexists|exact Hrec]|by intros [_ Hrec]]);
        (split; [done|]); intros [(x & [= <-] & Hx) _]; congruence.
    + apply bool_decide_eq_false in E. split; [done|]. intros [(x & [= <- ->] & _) _]. done.
  - split; [done|]. intros [(x & ? & _) _]. done.
  - split; [done|]. intros [(x & ? & _) _]. done.
Qed.
