(* ===== verification/Proxy.v ===== *)
(** * Proxy: the SOCKS5 and HTTP listeners

    Models the protocol handlers of [crates/core/src/net/broker.rs]: the SOCKS5 handshake,
    reading and parsing a proxy request head, and what each handler answers.  A handler's
    input is the bytes the guest sends before it closes or its deadline passes; the splice
    that follows a successful dial is [Broker.pump]. *)
From S2P Require Import Prelude Text IpAddr Egress Credentials Inject Broker.

(** ** Reading and writing a connection *)

Definition byte (n : N) : ascii := ascii_of_N n.

(** [stream.read_exact(&mut [0; n])] *)
Definition read_exact (n : nat) : M (option bytes) := fun w =>
  if Nat.ltb (length (inbox w)) n
  then (None, MkWorld [] (outbox w) (writes w) (shared w) (dialed w) (upstream w) (calls w))
  else (Some (take n (inbox w)),
        MkWorld (drop n (inbox w)) (outbox w) (writes w) (shared w) (dialed w) (upstream w) (calls w)).

(** [stream.write_all(b)]; whether it succeeded. *)
Definition write_all (b : bytes) : M bool := fun w =>
  match writes w with
  | O => (false, w)
  | S k => (true, MkWorld (inbox w) (outbox w ++ b) k (shared w) (dialed w) (upstream w) (calls w))
  end.

(** [upstream.write_all(b)] *)
Definition write_upstream (accepts : bool) (b : bytes) : M bool := fun w =>
  if accepts
  then (true, MkWorld (inbox w) (outbox w) (writes w) (shared w) (dialed w) (upstream w ++ b) (calls w))
  else (false, w).

Definition on_shared (f : Shared -> Shared) : M unit := fun w => (tt, with_shared (f (shared w)) w).

(** [u16::from_be_bytes] *)
Definition be16 (b : bytes) : N :=
  match b with [x; y] => code x * 256 + code y | _ => 0 end.

(** ** SOCKS5 *)

Module socks_reply.
Definition OK : N := 0.
Definition NOT_ALLOWED : N := 2.
Definition UNREACHABLE : N := 4.
Definition CMD_UNSUPPORTED : N := 7.
Definition ATYP_UNSUPPORTED : N := 8.
End socks_reply.

Definition socks_reply (c : N) : M bool := write_all (map byte [5; c; 0; 1; 0; 0; 0; 0; 0; 0]%N).

Inductive SocksHost : Type := SocksName (n : SafeName) | SocksAddr (a : ip_addr).

(** [IpAddr::from(octets)] *)
Definition ip_of_octets (o : bytes) : option ip_addr :=
  match o with
  | [a; b; c; d] => Some (V4 (Ipv4 a b c d))
  | [a0; a1; a2; a3; a4; a5; a6; a7; a8; a9; a10; a11; a12; a13; a14; a15] =>
      Some (V6 (Ipv6 (a0, a1) (a2, a3) (a4, a5) (a6, a7) (a8, a9) (a10, a11) (a12, a13) (a14, a15)))
  | _ => None
  end.

(** A read that ends the handshake when it fails. *)
Definition bind_opt {A B} (m : M (option A)) (k : A -> M (option B)) : M (option B) :=
  bindM m (fun o => match o with Some a => k a | None => ret None end).
Notation "'let*' x ':=' m 'in' k" := (bind_opt m (fun x => k))
  (at level 10, x pattern, m at level 200, k at level 200) : broker_scope.

Definition code_at (i : nat) (b : bytes) : N := match b !! i with Some c => code c | None => 0%N end.

Definition socks_host (atyp : N) : M (option SocksHost) :=
  if (atyp =? 1)%N then
    let* octets := read_exact 4 in ret (option_map SocksAddr (ip_of_octets octets))
  else if (atyp =? 3)%N then
    let* len := read_exact 1 in
    let* name := read_exact (N.to_nat (code_at 0 len)) in
    ret (Some (SocksName (SafeName.sanitized_bytes name)))
  else if (atyp =? 4)%N then
    let* octets := read_exact 16 in ret (option_map SocksAddr (ip_of_octets octets))
  else
    let! _ := socks_reply socks_reply.ATYP_UNSUPPORTED in ret None.

Definition socks_handshake : M (option Target) :=
  let* head := read_exact 2 in
  if negb (code_at 0 head =? 5)%N then ret None
  else
    let* _ := read_exact (N.to_nat (code_at 1 head)) in
    let! ok := write_all (map byte [5; 0]%N) in
    if negb ok then ret None
    else
      let* req := read_exact 4 in
      if negb (code_at 1 req =? 1)%N then
        let! _ := socks_reply socks_reply.CMD_UNSUPPORTED in ret None
      else
        let* h := socks_host (code_at 3 req) in
        let* p := read_exact 2 in
        ret (Some (match h with
                   | SocksName n => Name n (be16 p)
                   | SocksAddr a => Addr a (be16 p)
                   end)).

(** ** HTTP *)

Inductive HttpKind : Type := Connect | Absolute (rewritten : bytes) | HttpsAbsolute.

Record HttpRequest : Type := MkHttp { target : Target; kind : HttpKind }.

Definition http_error (c : N) (message : bytes) : bytes :=
  let reason := match c with
                | 400 => B "Bad Request"
                | 403 => B "Forbidden"
                | 501 => B "Not Implemented"
                | 502 => B "Bad Gateway"
                | _ => B "Error"
                end%N in
  let body := B "isopod egress broker: " ++ message ++ [ascii_of_nat 10] in
  B "HTTP/1.1 " ++ show_N c ++ B " " ++ reason ++ CRLF ++
  B "Content-Type: text/plain" ++ CRLF ++
  B "Content-Length: " ++ show_N (N.of_nat (length body)) ++ CRLF ++
  B "Connection: close" ++ CRLF ++ CRLF ++ body.

Inductive HeadError : Type := UnexpectedEof | HeadTooLong.

(** The loop of [read_http_head] and [read_inject_head]: one byte at a time, up to [max]. *)
Fixpoint read_head (max : nat) (buf inp : bytes) : result bytes HeadError * bytes :=
  match inp with
  | [] => (Err UnexpectedEof, [])
  | b :: rest =>
      let buf := buf ++ [b] in
      if ends_with (CRLF ++ CRLF) buf then (Ok buf, rest)
      else if Nat.leb max (length buf) then (Err HeadTooLong, rest)
      else read_head max buf rest
  end.

Definition read_http_head : M (result bytes HeadError) := fun w =>
  let '(r, rest) := read_head MAX_HTTP_HEAD [] (inbox w) in
  (r, MkWorld rest (outbox w) (writes w) (shared w) (dialed w) (upstream w) (calls w)).

Definition split_authority (authority : bytes) (default_port : N) : option (bytes * N) :=
  if beq authority [] then None
  else
    match strip_prefix (B "[") authority with
    | Some rest =>
        match split_once "]" rest with
        | None => None
        | Some (addr, tail) =>
            match strip_prefix (B ":") tail with
            | Some p => match parse_uint u16_max p with Some p => Some (addr, p) | None => None end
            | None => Some (addr, default_port)
            end
        end
    | None =>
        match rsplit_once ":" authority with
        | Some (host, port) =>
            match parse_uint u16_max port with Some p => Some (host, p) | None => None end
        | None => Some (authority, default_port)
        end
    end.

Definition make_target (host : bytes) (port : N) : Target :=
  match parse_ip host with
  | Some ip => Addr ip port
  | None => Name (SafeName.sanitized host) port
  end.

(** The header lines of the rewritten head. *)
Fixpoint forwarded_lines (lines : list bytes) : list bytes :=
  match lines with
  | [] => []
  | line :: rest =>
      if beq line [] then []
      else
        let name := List.hd [] (split ":" line) in
        if eq_ignore_ascii_case name (B "proxy-connection")
           || eq_ignore_ascii_case name (B "connection")
           || eq_ignore_ascii_case name (B "keep-alive")
        then forwarded_lines rest
        else line :: forwarded_lines rest
  end.

Definition parse_http_head (head : bytes) : option HttpRequest :=
  if negb (is_utf8 head) then None
  else
    match split_str CRLF head with
    | [] => None
    | request_line :: lines =>
        match split " " request_line with
        | method :: uri :: version :: _ =>
            if negb (starts_with (B "HTTP/") version) then None
            else if eq_ignore_ascii_case method (B "CONNECT") then
              match split_authority uri 443 with
              | Some (host, port) => Some (MkHttp (make_target host port) Connect)
              | None => None
              end
            else
              match strip_prefix (B "https://") uri with
              | Some rest =>
                  match split_authority (List.hd [] (split "/" rest)) 443 with
                  | Some (host, port) => Some (MkHttp (make_target host port) HttpsAbsolute)
                  | None => None
                  end
              | None =>
                  match strip_prefix (B "http://") uri with
                  | None => None
                  | Some rest =>
                      let '(authority, path) := match split_once "/" rest with
                                                | Some (a, p) => (a, B "/" ++ p)
                                                | None => (rest, B "/")
                                                end in
                      match split_authority authority 80 with
                      | None => None
                      | Some (host, port) =>
                          Some (MkHttp (make_target host port)
                            (Absolute (method ++ B " " ++ path ++ B " " ++ version ++ CRLF ++
                               concat (map (fun l => l ++ CRLF) (forwarded_lines lines)) ++
                               B "Connection: close" ++ CRLF ++ CRLF)))
                      end
                  end
              end
        | _ => None
        end
    end.

(** ** The handlers *)

Section Handlers.
Variable lookup_host : bytes -> N -> option (list SocketAddr).
Variable connect : SocketAddr -> bool.
Variable now_ms : N.
Variable policy : Policy.
(** Whether the upstream connection takes the forwarded head, and the chunks of the splice
    that follows. *)
Variable upstream_accepts : bool.
Variable traffic : SocketAddr -> list (Direction * N).
(** Serving a credentialled call in place (see [Endpoint]). *)
Variable serve_inject : bytes -> M unit.

Definition dial_ := dial lookup_host connect now_ms policy.

Definition splice (a : SocketAddr) (slot : option nat) : M unit :=
  on_shared (pump slot (traffic a)).

Definition handle_socks : M unit :=
  let! handshake := socks_handshake in
  match handshake with
  | None => ret tt
  | Some target =>
      let! dialed := dial_ target Socks5 in
      match dialed with
      | Ok (a, slot) =>
          let! ok := socks_reply socks_reply.OK in
          if ok then splice a slot else ret tt
      | Err (Denied _) => let! _ := socks_reply socks_reply.NOT_ALLOWED in ret tt
      | Err DialUnreachable => let! _ := socks_reply socks_reply.UNREACHABLE in ret tt
      end
  end.

Definition answer_failure (f : DialFailure) : M unit :=
  match f with
  | Denied reason => let! _ := write_all (http_error 403 (DenyReason.explain reason)) in ret tt
  | DialUnreachable =>
      let! _ := write_all (http_error 502 (B "the allowed destination could not be reached")) in
      ret tt
  end.

Definition NEEDS_CONNECT : bytes :=
  B "this client sent an absolute-form https:// request; an HTTPS destination must be reached with CONNECT (or via ALL_PROXY=socks5h://). The broker does not terminate TLS.".

Definition handle_http : M unit :=
  let! read := read_http_head in
  match read with
  | Err _ => ret tt
  | Ok head =>
      match parse_http_head head with
      | None =>
          let! _ := record (event now_ms Http (SafeName.sanitized []) 0 false (Some Egress.Malformed)
                              (Some (B "unparseable-proxy-request"))) in
          let! _ := write_all (http_error 400 (B "malformed proxy request")) in
          ret tt
      | Some request =>
          match kind request with
          | HttpsAbsolute =>
              let pinned := Policy.pinned_credential_host policy (target request) in
              let! _ := record (event now_ms Http (Target.safe_host (target request))
                          (Target.port (target request)) false
                          (Some (if pinned then PinnedCredentialHost else Egress.Malformed))
                          (Some (if pinned then B "pinned-credential-host"
                                 else B "https-absolute-form-needs-connect"))) in
              let! _ := write_all
                          (if pinned then http_error 403 (DenyReason.explain PinnedCredentialHost)
                           else http_error 501 NEEDS_CONNECT) in
              ret tt
          | Connect =>
              let! dialed := dial_ (target request) Http in
              match dialed with
              | Ok (a, slot) =>
                  let! ok := write_all (B "HTTP/1.1 200 Connection established" ++ CRLF ++ CRLF) in
                  if ok then splice a slot else ret tt
              | Err f => answer_failure f
              end
          | Absolute rewritten =>
              if Policy.is_own_credential_endpoint policy (target request)
              then serve_inject rewritten
              else
                let! dialed := dial_ (target request) Http in
                match dialed with
                | Ok (a, slot) =>
                    let! ok := write_upstream upstream_accepts rewritten in
                    if ok then
                      let! _ := on_shared (Recorder.add_bytes slot (N.of_nat (length rewritten)) 0) in
                      splice a slot
                    else ret tt
                | Err f => answer_failure f
                end
          end
      end
  end.
End Handlers.

(** ** Handlers are safe *)

Section HandlerProofs.
Context (p : Policy) (ok_call : UpstreamCall -> Prop).

Lemma safe_read_exact n : safe p ok_call (read_exact n).
Proof. apply safe_local. intros w. unfold read_exact. by destruct (Nat.ltb _ _). Qed.

Lemma safe_write_all b : safe p ok_call (write_all b).
Proof. apply safe_local. intros w. unfold write_all. by destruct (writes w). Qed.

Lemma safe_write_upstream a b : safe p ok_call (write_upstream a b).
Proof. apply safe_local. intros w. unfold write_upstream. by destruct a. Qed.

Lemma safe_read_http_head : safe p ok_call read_http_head.
Proof.
  apply safe_local. intros w. unfold read_http_head.
  by destruct (read_head MAX_HTTP_HEAD [] (inbox w)).
Qed.

Lemma safe_bind_opt {A B} (m : M (option A)) (k : A -> M (option B)) :
  safe p ok_call m -> (forall a, safe p ok_call (k a)) -> safe p ok_call (bind_opt m k).
Proof. intros Hm Hk. apply safe_bind; [done|]. intros [a|]; [apply Hk|apply safe_ret]. Qed.

Lemma safe_on_shared f : (forall sh, inv p sh -> inv p (f sh)) -> safe p ok_call (on_shared f).
Proof. intros Hf. by apply (safe_shared p ok_call _ f). Qed.
End HandlerProofs.

Create HintDb safe.
#[export] Hint Resolve safe_ret safe_record safe_dial safe_read_exact safe_write_all
  safe_write_upstream safe_read_http_head pump_inv add_bytes_inv : safe.

(** Walks a handler: sequencing, branching, and the library's steps. *)
Ltac safe_steps :=
  repeat first
    [ solve [auto with safe]
    | apply safe_bind; [|intros ?]
    | apply safe_bind_opt; [|intros ?]
    | apply safe_on_shared; intros ? ?; solve [auto with safe]
    | match goal with
      | |- safe _ _ (match ?x with _ => _ end) => destruct x
      | |- safe _ _ (if ?x then _ else _) => destruct x
      end ].

Lemma safe_socks_handshake p ok_call : safe p ok_call socks_handshake.
Proof. unfold socks_handshake, socks_host, socks_reply. safe_steps. Qed.
#[export] Hint Resolve safe_socks_handshake : safe.

Lemma safe_handle_socks lookup_host connect now_ms p traffic ok_call :
  safe p ok_call (handle_socks lookup_host connect now_ms p traffic).
Proof. unfold handle_socks, dial_, splice, socks_reply. safe_steps. Qed.

Lemma safe_handle_http lookup_host connect now_ms p accepts traffic serve ok_call :
  (forall head, safe p ok_call (serve head)) ->
  safe p ok_call (handle_http lookup_host connect now_ms p accepts traffic serve).
Proof. intros Hs. unfold handle_http, dial_, splice, answer_failure. safe_steps. Qed.

(** ** Request heads *)

Definition BLANK : bytes := CRLF ++ CRLF.

Lemma read_head_spec_gen max buf inp :
  length buf < max -> (forall n, n <= length buf -> ends_with BLANK (take n buf) = false) ->
  match read_head max buf inp with
  | (Ok head, rest) => buf ++ inp = head ++ rest /\ ends_with BLANK head = true /\
      length head <= max /\ forall n, n < length head -> ends_with BLANK (take n head) = false
  | (Err HeadTooLong, rest) => rest = drop max (buf ++ inp) /\ max <= length (buf ++ inp) /\
      forall n, n <= max -> ends_with BLANK (take n (buf ++ inp)) = false
  | (Err UnexpectedEof, rest) => rest = [] /\ length (buf ++ inp) < max /\
      forall n, ends_with BLANK (take n (buf ++ inp)) = false
  end.
Proof.
  revert buf. induction inp as [|b inp IH]; intros buf Hlt Hno; cbn [read_head].
  { rewrite app_nil_r. split; [done|]. split; [done|]. intros n.
    destruct (Nat.le_gt_cases n (length buf)) as [Hn|Hn]; [by apply Hno|].
    rewrite take_ge by lia. rewrite <- (take_ge buf (length buf)) by lia. by apply Hno. }
  change (CRLF ++ CRLF) with BLANK.
  assert (length (buf ++ [b]) = S (length buf)) as Hlen by (rewrite length_app; simpl; lia).
  assert (buf ++ b :: inp = (buf ++ [b]) ++ inp) as Happ by by rewrite <- app_assoc.
  destruct (ends_with BLANK (buf ++ [b])) eqn:Eb.
  { rewrite Happ. split; [done|]. split; [done|]. split; [lia|]. intros n Hn.
    rewrite take_app_le by lia. apply Hno. lia. }
  assert (forall n, n <= length (buf ++ [b]) -> ends_with BLANK (take n (buf ++ [b])) = false) as Hno'.
  { intros n Hn. destruct (Nat.le_gt_cases n (length buf)) as [Hn'|Hn'].
    - rewrite take_app_le by lia. by apply Hno.
    - rewrite take_ge by lia. done. }
  rewrite Happ. destruct (Nat.leb_spec max (length (buf ++ [b]))) as [Hm|Hm]; [|by apply IH].
  assert (max = length (buf ++ [b])) as -> by lia.
  rewrite drop_app_length. split; [done|]. split; [rewrite (length_app (buf ++ [b])); lia|].
  intros n Hn. rewrite take_app_le by lia. by apply Hno'.
Qed.

(** A request head is read up to its first blank line and no further, never beyond the
    ceiling, so the bytes of a body stay on the connection; and when no head comes, it is
    because the input ended or the ceiling was reached without a blank line. *)
Theorem read_head_spec max inp (Hmax : 0 < max) :
  match read_head max [] inp with
  | (Ok head, rest) => inp = head ++ rest /\ ends_with BLANK head = true /\
      length head <= max /\ forall n, n < length head -> ends_with BLANK (take n head) = false
  | (Err HeadTooLong, rest) => rest = drop max inp /\ max <= length inp /\
      forall n, n <= max -> ends_with BLANK (take n inp) = false
  | (Err UnexpectedEof, rest) => rest = [] /\ length inp < max /\
      forall n, ends_with BLANK (take n inp) = false
  end.
Proof.
  apply (read_head_spec_gen max []); [done|]. intros n Hn. simpl in Hn.
  assert (n = 0) as -> by lia. done.
Qed.

Lemma read_head_spec_witness :
  let head := B "GET / HTTP/1.1" ++ BLANK in
  read_head MAX_HTTP_HEAD [] (head ++ B "body") = (Ok head, B "body") /\
  (head ++ B "body" = head ++ B "body" /\ ends_with BLANK head = true).
Proof.
  intros head. assert (read_head MAX_HTTP_HEAD [] (head ++ B "body") = (Ok head, B "body")) as E
    by (vm_compute; reflexivity).
  split; [exact E|].
  pose proof (read_head_spec MAX_HTTP_HEAD (head ++ B "body") ltac:(unfold MAX_HTTP_HEAD; lia)) as H.
  rewrite E in H. destruct H as (H1 & H2 & _). split; assumption.
Defined.

(** ** The SOCKS5 handshake *)

(** A destination as a client writes it (RFC 1928). *)
Inductive socks_dest : Type :=
  | DestV4 (a : ipv4)
  | DestName (n : bytes)
  | DestV6 (a : ipv6).

Definition dest_wire (d : socks_dest) : bytes :=
  match d with
  | DestV4 a => byte 1 :: octets4 a
  | DestName n => byte 3 :: byte (N.of_nat (length n)) :: n
  | DestV6 a => byte 4 :: octets6 a
  end.

Definition dest_target (d : socks_dest) (port : N) : Target :=
  match d with
  | DestV4 a => Addr (V4 a) port
  | DestName n => Name (SafeName.sanitized_bytes n) port
  | DestV6 a => Addr (V6 a) port
  end.

(** The greeting with its methods, then the CONNECT request. *)
Definition socks_wire (methods : bytes) (d : socks_dest) (port : N) : bytes :=
  byte 5 :: byte (N.of_nat (length methods)) :: methods ++
  byte 5 :: byte 1 :: byte 0 :: dest_wire d ++ [byte (port / 256); byte (port mod 256)].

Lemma read_exact_app a rest w :
  inbox w = a ++ rest ->
  read_exact (length a) w =
  (Some a, MkWorld rest (outbox w) (writes w) (shared w) (dialed w) (upstream w) (calls w)).
Proof.
  intros E. unfold read_exact. rewrite E, length_app.
  destruct (Nat.ltb_spec (length a + length rest) (length a)); [lia|].
  by rewrite take_app_length, drop_app_length.
Qed.

Lemma bind_read {B} n a rest (k : bytes -> M (option B)) w :
  inbox w = a ++ rest -> length a = n ->
  bind_opt (read_exact n) k w =
  k a (MkWorld rest (outbox w) (writes w) (shared w) (dialed w) (upstream w) (calls w)).
Proof. intros E <-. unfold bind_opt, bindM. by rewrite (read_exact_app a rest). Qed.

Lemma code_byte n : (n < 256)%N -> code (byte n) = n.
Proof. apply code_of_N. Qed.

Lemma be16_bytes port : (port < 65536)%N -> be16 [byte (port / 256); byte (port mod 256)] = port.
Proof.
  intros H. unfold be16. rewrite !code_byte.
  - pose proof (N.div_mod port 256). lia.
  - apply N.mod_lt. lia.
  - apply N.Div0.div_lt_upper_bound. lia.
Qed.


Lemma ip_octets6 a : ip_of_octets (octets6 a) = Some (V6 a).
Proof.
  destruct a as [s0 s1 s2 s3 s4 s5 s6 s7].
  destruct s0, s1, s2, s3, s4, s5, s6, s7. reflexivity.
Qed.

Definition dest_ok (d : socks_dest) : Prop :=
  match d with DestName n => length n < 256 | _ => True end.

Definition dest_host (d : socks_dest) : SocksHost :=
  match d with
  | DestV4 a => SocksAddr (V4 a)
  | DestName n => SocksName (SafeName.sanitized_bytes n)
  | DestV6 a => SocksAddr (V6 a)
  end.

Lemma socks_host_dest d rest w :
  dest_ok d -> inbox w = tail (dest_wire d) ++ rest ->
  socks_host (code_at 0 (dest_wire d)) w =
  (Some (dest_host d),
   MkWorld rest (outbox w) (writes w) (shared w) (dialed w) (upstream w) (calls w)).
Proof.
  intros Hd Hin. destruct d as [a|n|a]; unfold code_at; cbn [dest_wire lookup list_lookup tail] in *.
  - unfold socks_host. change (code (byte 1)) with 1%N. cbv iota beta.
    change (1 =? 1)%N with true. cbv iota. rewrite (bind_read 4 (octets4 a) rest) by (done || by destruct a).
    by destruct a.
  - unfold socks_host. change (code (byte 3)) with 3%N.
    change (3 =? 1)%N with false. change (3 =? 3)%N with true. cbv iota.
    rewrite (bind_read 1 [byte (N.of_nat (length n))] (n ++ rest)) by done.
    unfold code_at. cbn [lookup list_lookup]. rewrite code_byte by (simpl in Hd; lia).
    rewrite Nat2N.id. by rewrite (bind_read (length n) n rest).
  - unfold socks_host. change (code (byte 4)) with 4%N.
    change (4 =? 1)%N with false. change (4 =? 3)%N with false. change (4 =? 4)%N with true. cbv iota.
    rewrite (bind_read 16 (octets6 a) rest) by (done || apply length_octets6).
    by rewrite ip_octets6.
Qed.

(** What a client writes is what the broker reads: any well-formed CONNECT handshake, with
    any methods offered and any kind of destination, is answered with the no-authentication
    method and yields exactly the destination written, a name sanitised first, leaving what
    follows unread. *)
Theorem socks_handshake_roundtrip methods d port rest w k
    (Hm : length methods < 256) (Hd : dest_ok d) (Hp : (port < 65536)%N)
    (Hin : inbox w = socks_wire methods d port ++ rest) (Hw : writes w = S k) :
  socks_handshake w =
  (Some (dest_target d port),
   MkWorld rest (outbox w ++ [byte 5; byte 0]) k (shared w) (dialed w) (upstream w) (calls w)).
Proof.
  unfold socks_handshake, socks_wire in *. cbn [app] in Hin. rewrite <- !app_assoc in Hin.
  rewrite (bind_read 2 [byte 5; byte (N.of_nat (length methods))] _ _ w Hin eq_refl).
  unfold code_at at 1 2. cbn [lookup list_lookup]. change (negb (code (byte 5) =? 5)%N) with false.
  cbv iota. rewrite code_byte, Nat2N.id by lia.
  erewrite (bind_read (length methods) methods); [|reflexivity|reflexivity].
  unfold bindM at 1, write_all. cbn [writes inbox]. rewrite Hw. cbn [negb].
  destruct (dest_wire d) as [|atyp addr] eqn:Ew; [by destruct d|]. cbn [app].
  erewrite (bind_read 4 [byte 5; byte 1; byte 0; atyp]); [|reflexivity|reflexivity].
  unfold code_at at 1. cbn [lookup list_lookup]. change (negb (code (byte 1) =? 1)%N) with false.
  cbv iota. unfold bind_opt at 1, bindM at 1.
  change (code_at 3 [byte 5; byte 1; byte 0; atyp]) with (code_at 0 (atyp :: addr)).
  rewrite <- Ew. erewrite socks_host_dest; [|done|rewrite Ew; cbn [inbox tail app]; rewrite <- app_assoc; reflexivity]. cbn [inbox outbox writes].
  rewrite (bind_read 2 [byte (port / 256); byte (port mod 256)] rest) by done.
  rewrite be16_bytes by done. by destruct d.
Qed.

Lemma socks_handshake_roundtrip_witness :
  fst (socks_handshake (MkWorld (socks_wire [byte 0] (DestName (B "PyPI.org")) 443 ++ B "tls") [] 3
                          Shared_default [] [] []))
  = Some (Name (MkSafeName (B "pypi.org")) 443).
Proof.
  rewrite (socks_handshake_roundtrip [byte 0] (DestName (B "PyPI.org")) 443 (B "tls") _ 2);
    [vm_compute; reflexivity|simpl; lia|simpl; lia|lia|reflexivity|reflexivity].
Defined.

(** ** The proxy request head *)

(** A header line that names none of the hop-by-hop headers. *)
Definition passes_hop (line : bytes) : Prop :=
  line <> [] /\
  Forall (fun h => to_ascii_lowercase (List.hd [] (split ":" line)) <> B h)
    ["proxy-connection"; "connection"; "keep-alive"]%string.

Lemma forwarded_lines_spec lines :
  Forall passes_hop (forwarded_lines lines) /\ forwarded_lines lines `sublist_of` lines.
Proof.
  induction lines as [|l lines [IH1 IH2]]; cbn [forwarded_lines].
  { split; constructor. }
  destruct (beq l []) eqn:El. { split; [constructor|apply sublist_nil_l]. }
  cbn zeta. destruct (_ || _ || _) eqn:E; [split; [done|by constructor]|].
  split; [|by constructor]. constructor; [|done].
  apply orb_false_iff in E as [E E3]. apply orb_false_iff in E as [E1 E2].
  unfold eq_ignore_ascii_case in E1, E2, E3.
  apply bool_decide_eq_false in E1, E2, E3, El. split; [done|]. by repeat constructor.
Qed.

(** A proxy request is decided by its request line alone. *)
Definition request_of (head : bytes) (req : HttpRequest) : Prop :=
  exists method uri version rest lines,
    split_str CRLF head = (List.hd [] (split_str CRLF head)) :: lines /\
    split " " (List.hd [] (split_str CRLF head)) = method :: uri :: version :: rest /\
    starts_with (B "HTTP/") version = true /\
    match kind req with
    | Connect =>
        to_ascii_lowercase method = B "connect" /\
        exists h port, split_authority uri 443 = Some (h, port) /\ target req = make_target h port
    | HttpsAbsolute =>
        to_ascii_lowercase method <> B "connect" /\
        exists r h port, uri = B "https://" ++ r /\
          split_authority (List.hd [] (split "/" r)) 443 = Some (h, port) /\
          target req = make_target h port
    | Absolute out =>
        to_ascii_lowercase method <> B "connect" /\
        exists authority path h port, "/"%char ∉ authority /\
          (uri = B "http://" ++ authority ++ path /\ List.hd_error path = Some "/"%char \/
           uri = B "http://" ++ authority /\ path = B "/") /\
          split_authority authority 80 = Some (h, port) /\ target req = make_target h port /\
          out = method ++ B " " ++ path ++ B " " ++ version ++ CRLF ++
                concat (map (fun l => l ++ CRLF) (forwarded_lines lines)) ++
                B "Connection: close" ++ CRLF ++ CRLF /\
          Forall passes_hop (forwarded_lines lines) /\ forwarded_lines lines `sublist_of` lines
    end.

(** Where a proxied request goes is decided by its request line alone, never by a Host or
    any other header: the target is the authority of a CONNECT or absolute-form URI; and a
    rewritten head is the origin-form request line, the remaining header lines in order but
    for the hop-by-hop ones, and one closing [Connection: close]. *)
Theorem parse_http_head_spec head req (Hok : parse_http_head head = Some req) :
  request_of head req.
Proof.
  revert Hok. unfold parse_http_head. destruct (is_utf8 head); [|done]. cbn [negb].
  destruct (split_str CRLF head) as [|line lines] eqn:El; [done|].
  destruct (split " " line) as [|method [|uri [|version rest]]] eqn:Ep; try done.
  destruct (starts_with (B "HTTP/") version) eqn:Ev; [|done]. cbn [negb]. intros H.
  exists method, uri, version, rest, lines. rewrite El. cbn [List.hd].
  split; [done|]. split; [done|]. split; [done|].
  destruct (eq_ignore_ascii_case method (B "CONNECT")) eqn:Ec.
  { apply bool_decide_eq_true in Ec. destruct (split_authority uri 443) as [[h port]|] eqn:Ea; [|done].
    injection H as <-. cbn [kind target]. split; [done|]. by exists h, port. }
  apply bool_decide_eq_false in Ec.
  destruct (strip_prefix (B "https://") uri) as [r|] eqn:Es.
  { apply strip_prefix_Some in Es as ->.
    destruct (split_authority (List.hd [] (split "/" r)) 443) as [[h port]|] eqn:Ea; [|done].
    injection H as <-. cbn [kind target]. split; [done|]. by exists r, h, port. }
  destruct (strip_prefix (B "http://") uri) as [r|] eqn:Eh; [|done].
  apply strip_prefix_Some in Eh as ->. pose proof (forwarded_lines_spec lines) as Hf.
  destruct (split_once "/" r) as [[a pa]|] eqn:Eo.
  - apply split_once_Some in Eo as [-> Ha].
    destruct (split_authority a 80) as [[h port]|] eqn:Ea; [|done]. injection H as <-.
    cbn [kind target]. split; [done|]. exists a, (B "/" ++ pa), h, port.
    split; [done|]. split; [by left|].
    split; [exact Ea|]. split; [reflexivity|]. split; [reflexivity|exact Hf].
  - apply split_once_None in Eo.
    destruct (split_authority r 80) as [[h port]|] eqn:Ea; [|done]. injection H as <-.
    cbn [kind target]. split; [done|]. exists r, (B "/"), h, port.
    split; [done|]. split; [by right|].
    split; [exact Ea|]. split; [reflexivity|]. split; [reflexivity|exact Hf].
Qed.

Lemma parse_http_head_spec_witness :
  request_of (B "GET http://pypi.org:81/a?b HTTP/1.1" ++ CRLF ++ B "Host: evil.example" ++ CRLF ++
              B "Proxy-Connection: keep-alive" ++ BLANK)
    (MkHttp (Name (MkSafeName (B "pypi.org")) 81)
       (Absolute (B "GET /a?b HTTP/1.1" ++ CRLF ++ B "Host: evil.example" ++ CRLF ++
                  B "Connection: close" ++ BLANK))).
Proof. apply parse_http_head_spec. vm_compute. reflexivity. Defined.

(** Observed: a [Connection] header with a space before its colon is not recognised as one,
    and is forwarded beside the broker's own. *)
Example hop_header_with_space :
  option_map kind (parse_http_head (B "GET http://pypi.org/ HTTP/1.1" ++ CRLF ++
                                    B "Connection : keep-alive" ++ BLANK))
  = Some (Absolute (B "GET / HTTP/1.1" ++ CRLF ++ B "Connection : keep-alive" ++ CRLF ++
                    B "Connection: close" ++ BLANK)).
Proof. vm_compute. reflexivity. Qed.
