(* ===== verification/Endpoint.v ===== *)
(** * Endpoint: serving a credentialled call

    Models the credential endpoint of [crates/core/src/net/broker.rs]: reading the request,
    refusing or authorising it with [Inject], handing the HTTPS client a request built from
    parts with the token attached last, and relaying the response.  Of the client,
    [build_upstream_client] decides which addresses it may connect to; what the resolver answers,
    which of the addresses it tries and what the upstream answers are parameters. *)
From S2P Require Import Prelude Text IpAddr Egress Credentials Inject Broker Proxy.

(** What the HTTPS client answers: the chunks of the body in order, and whether the body
    ended or the upstream died. *)
Record Response : Type := MkResponse {
  resp_status : N; resp_headers : list (bytes * option bytes);
  resp_chunks : list bytes; resp_complete : bool }.

Record SendError : Type := MkSendError { is_connect : bool; is_timeout : bool }.

(** The HTTPS client: the host resolver's answer for a name, [None] when it times out; the
    places, in the list of the addresses it has, of those it connects to, in order; and what a
    call comes to. *)
Record Client : Type := MkClient {
  lookup_pinned : bytes -> option (result (list SocketAddr) bytes);
  attempts : UpstreamCall -> list nat;
  send : UpstreamCall -> result Response SendError }.

(** The token of the method the client is given. *)
Definition reqwest_method (m : Method) : bytes :=
  match m with
  | Get => B "GET" | Head => B "HEAD" | Post => B "POST"
  | Put => B "PUT" | Patch => B "PATCH" | Delete => B "DELETE"
  end.

Section Endpoint.
(** The URL parser; the client; whether [HeaderValue::from_str] takes a value; the clock; the sizes of
    the reads of a refused body before it ends or its deadline passes; and whether a head
    that never came was cut off by the deadline. *)
Variable url_parse : bytes -> result (option (UrlHost * bytes)) bytes.
Variable client : Client.
Variable header_value : bytes -> bool.
Variable now_ms : N.
Variable drain_reads : list nat.
Variable timed_out : bool.
Variable policy : Policy.

Definition inject_event (h : SafeName) (allowed : bool) (reason : option DenyReason)
    (up : N) (note : option bytes) : EgressEvent :=
  MkEvent ProtoInject h 443 allowed reason up 0 now_ms note.

(** The loop of [drain_refused_body]. *)
Fixpoint drain (drained : N) (reads : list nat) (inp : bytes) : bytes :=
  match reads with
  | [] => inp
  | n :: rest =>
      if (drained <? MAX_INJECT_BODY)%N then
        let n := Nat.min n (Nat.min 4096 (length inp)) in
        if Nat.eqb n 0 then inp
        else drain (saturating_add drained (N.of_nat n)) rest (drop n inp)
      else inp
  end.

Definition drain_refused_body : M unit := fun w =>
  (tt, MkWorld (drain 0 drain_reads (inbox w)) (outbox w) (writes w) (shared w) (dialed w)
         (upstream w) (calls w)).

Definition refuse_inject (h : option SafeName) (refusal : InjectRefusal) : M unit :=
  let! _ := record (inject_event (default (SafeName.sanitized []) h) false
                      (Some CredentialRefused) 0 (Some (InjectRefusal.tag refusal))) in
  let! ok := write_all (InjectRefusal.response refusal) in
  if ok then drain_refused_body else ret tt.

Definition pinned_host_of (al : bytes) : option SafeName :=
  match List.find (fun c => beq (SafeName.as_str (alias c)) al) (pol_credentials policy) with
  | Some c => Some (host c)
  | None => None
  end.

Definition read_inject_body (len : N) : M (option bytes) :=
  if (len =? 0)%N then ret (Some [])
  else if (MAX_INJECT_BODY <? len)%N then ret None
  else read_exact (N.to_nat len).

(** The relay loop: [down] bytes relayed so far. *)
Fixpoint relay_chunks (slot : option nat) (h : SafeName) (complete : bool) (down : N)
    (chunks : list bytes) : M unit :=
  match chunks with
  | [] => if complete then let! _ := write_all CHUNK_TERMINATOR in ret tt else ret tt
  | c :: rest =>
      if beq c [] then relay_chunks slot h complete down rest
      else
        let down := saturating_add down (N.of_nat (length c)) in
        if (MAX_INJECT_RESP <? down)%N then
          let! _ := record (inject_event h false (Some CredentialRefused) 0
                              (Some (UpstreamFailure.tag TooLarge))) in
          ret tt
        else
          let! ok := write_all (chunk_frame c) in
          if ok then
            let! _ := on_shared (Recorder.add_bytes slot 0 (N.of_nat (length c))) in
            relay_chunks slot h complete down rest
          else ret tt
  end.

(** The addresses that the client of [build_upstream_client] has for a URL.  It takes no proxy
    and follows no redirect, so it connects for the URL it is given only: to the address, if
    the authority is one, else to those [FlooredResolver] gives it; at the port of HTTPS, as the
    URL names none. *)
Definition upstream_addresses (u : bytes) : result (list SocketAddr) SendError :=
  match url_parse u with
  | Ok (Some (UrlIpv4 a, _)) => Ok [(V4 a, 443%N)]
  | Ok (Some (UrlIpv6 a, _)) => Ok [(V6 a, 443%N)]
  | Ok (Some (UrlDomain, name)) =>
      match floored_resolve policy (lookup_pinned client name) with
      | Ok kept => Ok (map (fun a => (fst a, 443%N)) kept)
      | Err _ => Err (MkSendError true false)
      end
  | Ok None | Err _ => Err (MkSendError false false)
  end.

Definition send_call (c : UpstreamCall) : M (result Response SendError) := fun w =>
  let sent tried := MkWorld (inbox w) (outbox w) (writes w) (shared w) (dialed w ++ tried) (upstream w)
                      (calls w ++ [c]) in
  match upstream_addresses (call_url c) with
  | Err e => (Err e, sent [])
  | Ok addrs => (send client c, sent (omap (fun i => addrs !! i) (attempts client c)))
  end.

Definition serve_inject (head : bytes) : M unit :=
  match parse_intent head with
  | Err refusal => refuse_inject None refusal
  | Ok intent =>
      match authorize (pol_credentials policy) intent with
      | Err refusal => refuse_inject (pinned_host_of (si_alias intent)) refusal
      | Ok (request, cred) =>
          let! body := read_inject_body (si_body_len intent) in
          match body with
          | None => ret tt
          | Some body =>
              let up := N.of_nat (length body) in
              let value := match scheme cred with
                           | Bearer => B "Bearer " ++ expose (secret cred)
                           end in
              if negb (header_value value) then refuse_inject None Inject.Malformed
              else
                let h := host cred in
                let! answer := send_call (MkCall (up_method request) (url request)
                                 (up_headers request) value body) in
                match answer with
                | Err e =>
                    let reached := negb (is_connect e) in
                    let failure := if is_timeout e then TimedOut else Unreachable in
                    let! _ := record (inject_event h reached
                                (if reached then None else Some CredentialRefused) up
                                (Some (UpstreamFailure.tag failure))) in
                    let! _ := write_all (UpstreamFailure.response failure) in
                    ret tt
                | Ok response =>
                    let! slot := record (inject_event h true None up None) in
                    let headers := relay_headers
                      (omap (fun nv => match snd nv with Some v => Some (fst nv, v) | None => None end)
                         (resp_headers response)) in
                    let! ok := write_all (build_response_head (resp_status response) headers) in
                    if ok
                    then relay_chunks slot h (resp_complete response) 0 (resp_chunks response)
                    else ret tt
                end
          end
      end
  end.

Definition read_inject_head : M (result bytes HeadError) := fun w =>
  let '(r, rest) := read_head MAX_INJECT_HEAD [] (inbox w) in
  (r, MkWorld rest (outbox w) (writes w) (shared w) (dialed w) (upstream w) (calls w)).

Definition handle_inject : M unit :=
  let! head := read_inject_head in
  match head with
  | Ok h => serve_inject h
  | Err HeadTooLong => refuse_inject None HeadTooLarge
  | Err UnexpectedEof => if timed_out then ret tt else refuse_inject None Inject.Malformed
  end.
End Endpoint.

(** ** Every call is authorised *)

(** A call the broker may hand the HTTPS client: built from an accepted request head and
    one credential of the run whose rules permit it, with that credential's token, the
    declared number of body bytes, and nothing else. *)
Definition authorized_call (p : Policy) (c : UpstreamCall) : Prop :=
  exists head i u cred, parse_intent head = Ok i /\ authorize (pol_credentials p) i = Ok (u, cred) /\
    call_method c = up_method u /\ call_url c = url u /\ call_headers c = up_headers u /\
    call_authorization c = B "Bearer " ++ expose (secret cred) /\
    N.of_nat (length (call_body c)) = si_body_len i.

(** What is documented of the URL parser: the path has no part in the host. *)
Definition path_apart (url_parse : bytes -> result (option (UrlHost * bytes)) bytes) : Prop :=
  forall (h rest : bytes) (parsed : UrlHost), url_parse (B "https://" ++ h ++ B "/") = Ok (Some (parsed, h)) ->
    url_parse (B "https://" ++ h ++ B "/" ++ rest) = Ok (Some (parsed, h)).

(** The pinned host and the path that an authorised URL is built from. *)
Lemma authorize_url head i creds u c : parse_intent head = Ok i -> authorize creds i = Ok (u, c) ->
  c ∈ creds /\ exists rest, url u = B "https://" ++ name_str (host c) ++ B "/" ++ rest.
Proof.
  intros Hi Ha. apply parse_intent_Ok in Hi as (_ & ((r & E & _) & _) & _). unfold authorize in Ha.
  apply rbind_Ok in Ha as (c' & Hf & Ha). apply ok_or_Ok, find_some in Hf as [Hin _]. apply list_elem_of_In in Hin.
  destruct (negb _); [done|]. injection Ha as <- <-. split; [done|]. exists r. by rewrite E.
Qed.

Section EndpointProofs.
Context (url_parse : bytes -> result (option (UrlHost * bytes)) bytes) (client : Client) (header_value : bytes -> bool)
  (now_ms : N) (drain_reads : list nat) (timed_out : bool) (p : Policy).

Lemma safe_drain ok_call : safe p ok_call (drain_refused_body drain_reads).
Proof. by apply safe_local. Qed.
#[local] Hint Resolve safe_drain : safe.

Lemma safe_refuse ok_call h r : safe p ok_call (refuse_inject now_ms drain_reads h r).
Proof. unfold refuse_inject. safe_steps. Qed.
#[local] Hint Resolve safe_refuse : safe.

Lemma safe_relay ok_call slot h complete down chunks :
  safe p ok_call (relay_chunks now_ms slot h complete down chunks).
Proof.
  revert down. induction chunks as [|c chunks IH]; intros down; cbn [relay_chunks]; safe_steps;
    apply IH.
Qed.
#[local] Hint Resolve safe_relay : safe.

Lemma read_inject_body_length len w b w' :
  read_inject_body len w = (Some b, w') -> N.of_nat (length b) = len.
Proof.
  unfold read_inject_body. destruct (N.eqb_spec len 0) as [->|]; [by intros [= <- _]|].
  destruct (_ <? _)%N; [done|]. unfold read_exact.
  destruct (Nat.ltb_spec (length (inbox w)) (N.to_nat len)); [done|].
  intros [= <- _]. rewrite length_take. lia.
Qed.

Lemma safe_read_body ok_call len : safe p ok_call (read_inject_body len).
Proof. unfold read_inject_body. safe_steps. Qed.

Hypothesis url_law : path_apart url_parse.
Hypothesis pinned : refuse_floored_pinned_hosts url_parse p (pol_credentials p) = Ok tt.

(** Whatever the resolver answers, the client has only addresses that pass the guard. *)
Lemma upstream_floored head i u c addrs : parse_intent head = Ok i -> authorize (pol_credentials p) i = Ok (u, c) ->
  upstream_addresses url_parse client p (url u) = Ok addrs -> Forall (fun a => floor_ok p (fst a) = true) addrs.
Proof using url_law pinned.
  intros Hi Ha Hu. destruct (authorize_url _ _ _ _ _ Hi Ha) as (Hin & rest & E).
  pose proof (proj1 (pinned_hosts_checked url_parse p _) pinned) as Hp. rewrite Forall_forall in Hp.
  destruct (Hp c Hin) as (parsed & Hparse & Hok). apply (url_law _ rest) in Hparse.
  unfold upstream_addresses in Hu. rewrite E, Hparse in Hu. destruct parsed as [a|a|]; [by injection Hu as <-; constructor..|].
  destruct (floored_resolve p _) as [kept|e] eqn:Ek; [|done]. injection Hu as <-. apply Forall_map.
  unfold floored_resolve in Ek. destruct (lookup_pinned _ _) as [[all|]|]; try done.
  assert (Hk : kept = List.filter (fun a => floor_ok p (fst a)) all) by (destruct (List.filter _ all); congruence).
  subst kept. apply filter_forall.
Qed.

Lemma safe_send head i u cred c : parse_intent head = Ok i -> authorize (pol_credentials p) i = Ok (u, cred) ->
  call_url c = url u -> authorized_call p c -> safe p (authorized_call p) (send_call url_parse client p c).
Proof using url_law pinned.
  intros Hi Ha Eu Hc w Hinv. unfold send_call. rewrite Eu.
  destruct (upstream_addresses url_parse client p (url u)) as [addrs|e] eqn:E; cbn [snd shared dialed calls];
    (split; [done|]; split; [eexists; split; [done|]|exists [c]; split; [done|]; by constructor]); [|constructor].
  pose proof (upstream_floored _ _ _ _ _ Hi Ha E) as Hf. rewrite Forall_forall in Hf |- *.
  intros a (n & _ & Hn)%list_elem_of_omap. by apply Hf, (list_elem_of_lookup_2 _ n).
Qed.

Lemma safe_serve_inject head :
  safe p (authorized_call p) (serve_inject url_parse client header_value now_ms drain_reads p head).
Proof.
  unfold serve_inject. destruct (parse_intent head) as [i|] eqn:Ei; [|safe_steps].
  destruct (authorize _ i) as [[u cred]|] eqn:Ea; [|safe_steps].
  intros w. unfold bindM at 1.
  pose proof (safe_read_body (authorized_call p) (si_body_len i) w) as Hb.
  destruct (read_inject_body (si_body_len i) w) as [[b|] w'] eqn:Eb; [|exact Hb].
  etrans; [exact Hb|]. apply read_inject_body_length in Eb. clear Hb. revert w'.
  fold (safe (A:=unit) p (authorized_call p)).
  destruct (negb (header_value _)); [apply safe_refuse|].
  apply safe_bind; [|intros a; safe_steps].
  apply (safe_send head i u cred); [done..|]. exists head, i, u, cred. by destruct (scheme cred).
Qed.

Lemma safe_handle_inject :
  safe p (authorized_call p)
    (handle_inject url_parse client header_value now_ms drain_reads timed_out p).
Proof.
  unfold handle_inject. apply safe_bind.
  - apply safe_local. intros w. unfold read_inject_head.
    by destruct (read_head MAX_INJECT_HEAD [] (inbox w)).
  - intros [h|[]]; [apply safe_serve_inject| |]; safe_steps.
Qed.
End EndpointProofs.

(** ** The response leg *)

Definition byte_count (chunks : list bytes) : N := N.of_nat (length (concat chunks)).

Lemma byte_count_cons c cs : byte_count (c :: cs) = (N.of_nat (length c) + byte_count cs)%N.
Proof. unfold byte_count. cbn [concat]. rewrite length_app. lia. Qed.

(** What the relay writes: frames of a prefix of the non-empty chunks, and the terminator
    exactly when the whole body went through. *)
Lemma relay_output now_ms slot h complete down chunks w :
  (down <= MAX_INJECT_RESP)%N ->
  exists sent fin,
    outbox (snd (relay_chunks now_ms slot h complete down chunks w)) =
      outbox w ++ concat (map chunk_frame sent) ++ (if fin : bool then CHUNK_TERMINATOR else []) /\
    Forall (fun c => c <> []) sent /\ concat sent `prefix_of` concat chunks /\
    (down + byte_count sent <= MAX_INJECT_RESP)%N /\
    (fin = true -> complete = true /\ concat sent = concat chunks).
Proof.
  revert down w. induction chunks as [|c chunks IH]; intros down w Hd; cbn [relay_chunks].
  - exists []. destruct complete.
    + unfold bindM, write_all, ret. destruct (writes w); cbn [snd outbox].
      * exists false. rewrite app_nil_r. split_and!; try done. unfold byte_count. simpl. lia.
      * exists true. split_and!; try done. unfold byte_count. simpl. lia.
    + exists false. rewrite app_nil_r. split_and!; try done. unfold byte_count. simpl. lia.
  - destruct (beq c []) eqn:Ec.
    { apply beq_true in Ec as ->. destruct (IH down w Hd) as (sent & fin & H). by exists sent, fin. }
    apply bool_decide_eq_false in Ec.
    assert (saturating_add down (N.of_nat (length c)) = (down + N.of_nat (length c))%N \/
            (MAX_INJECT_RESP < saturating_add down (N.of_nat (length c)))%N) as Hsat.
    { unfold saturating_add. assert (MAX_INJECT_RESP < u64_max)%N by (vm_compute; done). lia. }
    destruct (N.ltb_spec MAX_INJECT_RESP (saturating_add down (N.of_nat (length c)))) as [Hlt|Hle].
    { exists [], false. unfold bindM, record, ret.
      destruct (Recorder.record _ (shared w)) as [s sh]. cbn [snd outbox with_shared].
      rewrite app_nil_r. split_and!; try done; try apply prefix_nil. unfold byte_count; simpl; lia. }
    destruct Hsat as [Hsat|]; [|lia]. rewrite Hsat in *.
    unfold bindM at 1, write_all. destruct (writes w) as [|k].
    { exists [], false. cbn [snd outbox ret]. rewrite app_nil_r.
      split_and!; try done; try apply prefix_nil. unfold byte_count; simpl; lia. }
    unfold bindM at 1, on_shared at 1.
    destruct (IH (down + N.of_nat (length c))%N
      (with_shared (Recorder.add_bytes slot 0 (N.of_nat (length c)) (shared w))
         (MkWorld (inbox w) (outbox w ++ chunk_frame c) k (shared w) (dialed w) (upstream w) (calls w))) Hle)
      as (sent & fin & Ho & Hne & Hp & Hb & Hf).
    exists (c :: sent), fin. cbn [shared]. rewrite Ho. cbn [outbox with_shared map concat].
    rewrite <- !app_assoc. split; [done|]. split; [by constructor|]. split; [by apply prefix_app|].
    rewrite byte_count_cons. split; [lia|]. intros Hfin. destruct (Hf Hfin) as [? ->]. done.
Qed.

Lemma dechunk_frames sent fuel fin :
  Forall (fun c => c <> []) sent ->
  dechunk fuel (concat (map chunk_frame sent) ++ (if fin : bool then CHUNK_TERMINATOR else [])) =
  if fin && Nat.ltb (length sent) fuel then Some (concat sent, []) else None.
Proof.
  intros Hne. revert fuel. induction Hne as [|c cs Hc _ IH]; intros fuel.
  - destruct fuel; destruct fin; reflexivity.
  - destruct fuel as [|f]; [by rewrite andb_false_r|]. cbn [map concat].
    rewrite <- app_assoc, dechunk_frame, IH by done.
    change (Nat.ltb (length (c :: cs)) (S f)) with (Nat.ltb (length cs) f).
    by destruct (fin && _).
Qed.

(** A relayed response is whole or visibly cut: whatever the upstream sends and wherever the
    guest stops reading, if the body the guest received decodes at all, it decodes to exactly
    the upstream's complete body, nothing follows it, and it is within the ceiling. *)
Theorem relay_whole_or_nothing now_ms slot h complete chunks w fuel body rest
    (Hempty : outbox w = [])
    (Hdec : dechunk fuel (outbox (snd (relay_chunks now_ms slot h complete 0 chunks w))) =
            Some (body, rest)) :
  body = concat chunks /\ rest = [] /\ complete = true /\
  (N.of_nat (length body) <= MAX_INJECT_RESP)%N.
Proof.
  destruct (relay_output now_ms slot h complete 0 chunks w) as (sent & fin & Ho & Hne & _ & Hb & Hf).
  { apply N.le_0_l. }
  rewrite Ho, Hempty, app_nil_l, dechunk_frames in Hdec by done.
  destruct fin; [|done]. destruct (Nat.ltb _ _); [|done]. injection Hdec as <- <-.
  destruct (Hf eq_refl) as [-> <-]. unfold byte_count in Hb. split_and!; done || lia.
Qed.

Lemma relay_whole_or_nothing_witness :
  B "abcdef" = concat [B "abc"; []; B "def"].
Proof.
  refine (proj1 (relay_whole_or_nothing 0 None (MkSafeName (B "h")) true [B "abc"; []; B "def"]
    (MkWorld [] [] 9 Shared_default [] [] []) 5 (B "abcdef") [] eq_refl _)).
  vm_compute. reflexivity.
Defined.

(** A complete response within the ceiling, to a guest that reads it, does arrive. *)
Theorem relay_delivers now_ms slot h chunks w
    (Hsize : (byte_count chunks <= MAX_INJECT_RESP)%N) (Hw : length chunks < writes w) :
  outbox (snd (relay_chunks now_ms slot h true 0 chunks w)) =
  outbox w ++ concat (map chunk_frame (List.filter (fun c => negb (beq c [])) chunks)) ++
  CHUNK_TERMINATOR.
Proof.
  assert (forall down, (down + byte_count chunks <= MAX_INJECT_RESP)%N ->
    outbox (snd (relay_chunks now_ms slot h true down chunks w)) =
    outbox w ++ concat (map chunk_frame (List.filter (fun c => negb (beq c [])) chunks)) ++
    CHUNK_TERMINATOR) as H; [|by apply (H 0%N)].
  clear Hsize. revert w Hw. induction chunks as [|c cs IH]; intros w Hw down Hd; cbn [relay_chunks List.filter].
  { unfold bindM, write_all. destruct (writes w); [simpl in Hw; lia|]. done. }
  rewrite byte_count_cons in Hd. destruct (beq c []) eqn:Ec; cbn [negb].
  { apply beq_true in Ec as ->. simpl length in *. apply IH; lia. }
  assert (saturating_add down (N.of_nat (length c)) = (down + N.of_nat (length c))%N) as ->.
  { unfold saturating_add. assert (MAX_INJECT_RESP < u64_max)%N by (vm_compute; done). lia. }
  destruct (N.ltb_spec MAX_INJECT_RESP (down + N.of_nat (length c))); [lia|].
  unfold bindM at 1, write_all. destruct (writes w) as [|k] eqn:Ek; [lia|].
  unfold bindM at 1, on_shared at 1. cbn [length] in Hw.
  rewrite IH; [|cbn [writes with_shared]; lia|lia].
  cbn [outbox with_shared map concat]. by rewrite <- !app_assoc.
Qed.

Lemma relay_delivers_witness :
  outbox (snd (relay_chunks 0 None (MkSafeName (B "h")) true 0 [B "abc"; []]
    (MkWorld [] [] 9 Shared_default [] [] []))) = chunk_frame (B "abc") ++ CHUNK_TERMINATOR.
Proof.
  rewrite (relay_delivers 0 None (MkSafeName (B "h")) [B "abc"; []]);
    [vm_compute; reflexivity|vm_compute; discriminate|simpl; lia].
Defined.

(** ** Refusals *)

Lemma intent_headers_refusals lines hs bl : intent_headers lines hs bl <> Err NotPermitted.
Proof.
  revert hs bl. induction lines as [|l lines IH]; intros hs bl; cbn [intent_headers]; [done|].
  destruct (beq l []); [done|]. intros H.
  apply rbind_Err in H as [H|([name value] & _ & H)]; [by destruct (split_once ":" l)|].
  destruct (beq _ (B "content-length")).
  { apply rbind_Err in H as [H|(n & _ & H)]; [by destruct (parse_uint _ _)|].
    destruct bl; [done|]. destruct (_ <? _)%N; [done|]. by apply IH in H. }
  repeat (case_test; try done); by apply IH in H.
Qed.

Lemma parse_intent_refusals head : parse_intent head <> Err NotPermitted.
Proof.
  unfold parse_intent. destruct (Nat.ltb _ _); [done|]. destruct (negb _); [done|]. intros H.
  repeat (apply rbind_Err in H as [H|(? & _ & H)];
          [solve [match type of H with ok_or ?o _ = _ => by destruct o end]|]).
  destruct (negb _ || _); [done|].
  apply rbind_Err in H as [H|(m & _ & H)]; [by destruct (Method.parse _)|].
  apply rbind_Err in H as [H|([al rest] & _ & H)].
  { unfold split_alias in H. apply rbind_Err in H as [H|(b & _ & H)]; [by destruct (strip_prefix _ _)|].
    destruct (split_once "/" b) as [[? ?]|]; repeat (case_test; try done). }
  apply rbind_Err in H as [H|(pa & _ & H)]; [by destruct (normalize_target rest)|].
  apply rbind_Err in H as [H|([hs bl] & _ & H)]; [|done]. by apply intent_headers_refusals in H.
Qed.

(** A request the endpoint refuses costs nothing: no call is made and nothing is dialled,
    the one event recorded is a credential refusal that names the check that failed and, for
    a known alias, its pinned host, and the guest is answered the fixed text of that refusal. *)
Theorem refused_without_call url_parse client header_value now_ms drain_reads p head w refusal
    (Hr : match parse_intent head with
          | Err e => e = refusal
          | Ok i => exists e, authorize (pol_credentials p) i = Err e /\ e = refusal
          end) :
  let w' := snd (serve_inject url_parse client header_value now_ms drain_reads p head w) in
  calls w' = calls w /\ dialed w' = dialed w /\ upstream w' = upstream w /\
  (exists e, shared w' = snd (Recorder.record e (shared w)) /\ ev_allowed e = false /\
     ev_reason e = Some CredentialRefused /\ ev_note e = Some (InjectRefusal.tag refusal) /\
     (refusal = NotPermitted -> exists c, c ∈ pol_credentials p /\ ev_host e = host c)) /\
  outbox w' = outbox w ++ (if writes w then [] else InjectRefusal.response refusal).
Proof.
  assert (forall h, (refusal = NotPermitted -> exists c, c ∈ pol_credentials p /\ h = Some (host c)) ->
    let w' := snd (refuse_inject now_ms drain_reads h refusal w) in
    calls w' = calls w /\ dialed w' = dialed w /\ upstream w' = upstream w /\
    (exists e, shared w' = snd (Recorder.record e (shared w)) /\ ev_allowed e = false /\
      ev_reason e = Some CredentialRefused /\ ev_note e = Some (InjectRefusal.tag refusal) /\
      (refusal = NotPermitted -> exists c, c ∈ pol_credentials p /\ ev_host e = host c)) /\
    outbox w' = outbox w ++ (if writes w then [] else InjectRefusal.response refusal)) as Hrefuse.
  { intros h Hh. unfold refuse_inject, bindM, record, write_all.
    set (e := inject_event _ _ _ _ _ _). destruct (Recorder.record e (shared w)) as [s sh] eqn:E.
    cbn [writes with_shared]. destruct (writes w) as [|k]; cbn;
      (split; [done|]; split; [done|]; split; [done|]; split;
       [exists e; rewrite E; split_and!; try done;
        intros Hn; destruct (Hh Hn) as (c & Hc & ->); by exists c|]); by rewrite ?app_nil_r. }
  unfold serve_inject. destruct (parse_intent head) as [i|e] eqn:Ei.
  - destruct Hr as (e & Ha & ->). rewrite Ha. apply Hrefuse. intros ->.
    unfold authorize in Ha. unfold pinned_host_of.
    destruct (List.find _ (pol_credentials p)) as [c|] eqn:Ef; [|done].
    exists c. split; [|done]. by apply find_some in Ef as [Hin _]; apply list_elem_of_In.
  - subst e. apply Hrefuse. intros ->. by apply parse_intent_refusals in Ei.
Qed.

Lemma refused_without_call_witness :
  calls (snd (serve_inject (fun _ => Err []) (MkClient (fun _ => None) (fun _ => []) (fun _ => Err (MkSendError true false))) (fun _ => true) 0 [] sample_policy
    (B "DELETE /github/repos/a HTTP/1.1" ++ BLANK) sample_world)) = [].
Proof.
  refine (proj1 (refused_without_call _ _ _ 0 [] sample_policy
    (B "DELETE /github/repos/a HTTP/1.1" ++ BLANK) sample_world NotPermitted _)).
  vm_compute. by eexists.
Defined.
