(* ===== verification/Dns.v ===== *)
(** * Dns: the gateway resolver

    Models the DNS responder of [crates/core/src/net/broker.rs]: the query parser, the
    response encoder, and [answer_dns] in its filtered and open modes; and the whole broker of a run,
    its start and the steps of its four handlers. *)
From S2P Require Import Prelude Text IpAddr Egress Credentials Inject Broker Proxy Endpoint.

Definition MAX_DNS_MSG : nat := 512.
Definition ANSWER_TTL : N := 60.
Definition QTYPE_A : N := 1.
Definition RCODE_NOERROR : N := 0.
Definition RCODE_NXDOMAIN : N := 3.
Definition RCODE_FORMERR : N := 1.
Definition RCODE_SERVFAIL : N := 2.

(** [n.to_be_bytes()] *)
Definition be16_of (n : N) : bytes := [byte (n / 256); byte (n mod 256)].
Definition be32_of (n : N) : bytes := be16_of (n / 65536) ++ be16_of (n mod 65536).

Record DnsQuery : Type := MkQuery {
  q_id : N; q_recursion_desired : bool; q_name : SafeName; q_type : N; q_question : bytes }.

(** [raw.get(i)] as a number *)
Definition get_u8 (raw : bytes) (i : nat) : option N :=
  match raw !! i with Some c => Some (code c) | None => None end.

Definition get_u16 (raw : bytes) (i : nat) : option N :=
  match get_u8 raw i, get_u8 raw (i + 1) with
  | Some h, Some l => Some (h * 256 + l)%N
  | _, _ => None
  end.

(** [raw.get(a..b)] *)
Definition get_range (raw : bytes) (a b : nat) : option bytes :=
  if Nat.leb a b && Nat.leb b (length raw) then Some (take (b - a) (drop a raw)) else None.

(** The loop over the labels from [pos]; every turn moves [pos] forward, so the message's
    length is enough fuel. *)
Fixpoint dns_labels (fuel : nat) (raw : bytes) (pos : nat) : option (list bytes * nat) :=
  match fuel with
  | O => None
  | S f =>
      match get_u8 raw pos with
      | None => None
      | Some len =>
          if negb (N.land len 192 =? 0)%N then None
          else
            let pos := S pos in
            if (len =? 0)%N then Some ([], pos)
            else
              let fin := pos + N.to_nat len in
              match get_range raw pos fin with
              | None => None
              | Some label =>
                  if negb (is_utf8 label) then None
                  else match dns_labels f raw fin with
                       | Some (ls, p) => Some (label :: ls, p)
                       | None => None
                       end
              end
      end
  end.

Definition parse_dns_query (raw : bytes) : option DnsQuery :=
  if Nat.ltb (length raw) 12 then None
  else
    let id := default 0%N (get_u16 raw 0) in
    let flags := default 0%N (get_u16 raw 2) in
    if negb (N.land flags 32768 =? 0)%N || negb (N.land (N.shiftr flags 11) 15 =? 0)%N then None
    else
      let rd := negb (N.land flags 256 =? 0)%N in
      if negb (default 0%N (get_u16 raw 4) =? 1)%N then None
      else
        match dns_labels (S (length raw)) raw 12 with
        | None => None
        | Some (labels, pos) =>
            match get_u16 raw pos, get_u16 raw (pos + 2) with
            | Some qtype, Some qclass =>
                if negb (qclass =? 1)%N then None
                else
                  match get_range raw 12 (pos + 4) with
                  | None => None
                  | Some question =>
                      let name := match labels with
                                  | [] => SafeName.sanitized []
                                  | _ => SafeName.sanitized (join (B ".") labels)
                                  end in
                      Some (MkQuery id rd name qtype question)
                  end
            | _, _ => None
            end
        end.

Definition u8_of_bool (b : bool) : N := if b then 1 else 0.

Definition dns_header_only (id : N) (rd : bool) (rcode : N) : bytes :=
  be16_of id ++ [byte (N.lor 132 (u8_of_bool rd)); byte (N.lor 128 rcode)] ++
  be16_of 0 ++ be16_of 0 ++ be16_of 0 ++ be16_of 0.

Fixpoint encode_labels (labels : list bytes) : option bytes :=
  match labels with
  | [] => Some []
  | label :: rest =>
      if beq label [] then encode_labels rest
      else if Nat.leb (length label) 63 then
        match encode_labels rest with
        | Some w => Some (byte (N.of_nat (length label)) :: label ++ w)
        | None => None
        end
      else None
  end.

Definition encode_dns_name (name : bytes) : bytes :=
  match encode_labels (split "." name) with
  | Some w => w ++ [byte 0]
  | None => [byte 0]
  end.

Definition dns_answer (name_wire : bytes) (addr : ipv4) : bytes :=
  name_wire ++ be16_of QTYPE_A ++ be16_of 1 ++ be32_of ANSWER_TTL ++ be16_of 4 ++ octets4 addr.

Definition max_answers (q : DnsQuery) : nat :=
  let per_answer := length (encode_dns_name (SafeName.as_str (q_name q))) + 14 in
  (MAX_DNS_MSG - (12 + length (q_question q))) / per_answer.

Definition build_dns_response (q : DnsQuery) (rcode : N) (addrs : list ipv4) : bytes :=
  let name_wire := encode_dns_name (SafeName.as_str (q_name q)) in
  let answers := take (Nat.min (length addrs) (max_answers q)) addrs in
  let truncated := Nat.ltb (length answers) (length addrs) in
  let flags_hi := N.lor 132 (u8_of_bool (q_recursion_desired q)) in
  let flags_hi := if truncated then N.lor flags_hi 2 else flags_hi in
  let ancount := N.of_nat (length answers) in
  let ancount := if (ancount <=? u16_max)%N then ancount else 0%N in
  be16_of (q_id q) ++ [byte flags_hi; byte (N.lor 128 rcode)] ++
  be16_of 1 ++ be16_of ancount ++ be16_of 0 ++ be16_of 0 ++ q_question q ++
  concat (map (dns_answer name_wire) answers).

Inductive DnsMode : Type := Filtered | Open (allow_private : bool).

Section Responder.
Variable lookup_host : bytes -> N -> option (list SocketAddr).
Variable now_ms : N.
Variable policy : Policy.

(** The addresses the guest may be told. *)
Definition answerable (loopback private : bool) (a : SocketAddr) : option ipv4 :=
  match fst a with
  | V4 v4 => if (loopback && Ipv4Addr.is_loopback v4) || is_dialable (V4 v4) private
             then Some v4 else None
  | V6 _ => None
  end.

Definition dns_event (h : SafeName) (allowed : bool) (reason : option DenyReason) : EgressEvent :=
  MkEvent Dns h 0 allowed reason 0 0 now_ms None.

(** The part after the first touchpoint. *)
Definition resolve_answer (mode : DnsMode) (q : DnsQuery) (sh : Shared) : bytes * Shared :=
  if negb (q_type q =? QTYPE_A)%N then (build_dns_response q RCODE_NOERROR [], sh)
  else
    let '(lo, priv) := match mode with
                       | Filtered => (allow_loopback policy, allow_private policy)
                       | Open priv => (false, priv)
                       end in
    match resolve_v4_detailed lookup_host (SafeName.as_str (q_name q)) 0 with
    | None => (build_dns_response q RCODE_SERVFAIL [], sh)
    | Some answered =>
        match omap (answerable lo priv) answered with
        | [] => (build_dns_response q RCODE_NOERROR [], sh)
        | ips =>
            let sh := match mode with
                      | Filtered =>
                          fold_left (fun sh ip => Recorder.remember_resolved (V4 ip) (q_name q) sh)
                            ips sh
                      | Open _ => sh
                      end in
            (build_dns_response q RCODE_NOERROR ips, sh)
        end
    end.

Definition answer_dns (mode : DnsMode) (raw : bytes) (sh : Shared) : option bytes * Shared :=
  match parse_dns_query raw with
  | None =>
      match get_u16 raw 0 with
      | Some id => (Some (dns_header_only id false RCODE_FORMERR), sh)
      | None => (None, sh)
      end
  | Some q =>
      match mode with
      | Filtered =>
          let '(allowed, reason) :=
            match Policy.check policy sh (Name (q_name q) 0) with
            | VAllow _ => (true, None)
            | VDeny r => (false, Some r)
            end in
          let sh := snd (Recorder.record (dns_event (q_name q) allowed reason) sh) in
          if negb allowed then (Some (build_dns_response q RCODE_NXDOMAIN []), sh)
          else let '(reply, sh) := resolve_answer mode q sh in (Some reply, sh)
      | Open _ =>
          let sh := snd (Recorder.record (dns_event (q_name q) true None) sh) in
          let '(reply, sh) := resolve_answer mode q sh in (Some reply, sh)
      end
  end.

(** One query over TCP: a length prefix, then the message. *)
Definition handle_dns_tcp (mode : DnsMode) (inp : bytes) (sh : Shared) : bytes * Shared :=
  match get_u16 inp 0 with
  | None => ([], sh)
  | Some len =>
      if Nat.ltb MAX_DNS_MSG (N.to_nat len) then ([], sh)
      else
        match get_range inp 2 (2 + N.to_nat len) with
        | None => ([], sh)
        | Some query =>
            match answer_dns mode query sh with
            | (Some reply, sh) =>
                if (N.of_nat (length reply) <=? u16_max)%N
                then (be16_of (N.of_nat (length reply)) ++ reply, sh) else ([], sh)
            | (None, sh) => ([], sh)
            end
        end
  end.
End Responder.

(** [DnsResponder::peer_permitted]; the open mode keeps its own flag. *)
Definition dns_peer_permitted (p : Policy) (mode : DnsMode) (logged : bool) (peer : ip_addr)
    : bool * bool :=
  match mode with
  | Filtered => Policy.peer_permitted p logged peer
  | Open _ =>
      let ok := match peer with
                | V4 v4 => bool_decide (v4 = guest p)
                | V6 v6 => bool_decide (Ipv6Addr.to_ipv4_mapped v6 = Some (guest p))
                end in
      (ok, if ok then logged else true)
  end.

Section Samples.
Let q := map byte [1; 2; 1; 0; 0; 1; 0; 0; 0; 0; 0; 0; 4]%N ++ B "PyPi" ++ [byte 3] ++ B "org" ++
         map byte [0; 0; 1; 0; 1]%N.
Example sample_parse :
  parse_dns_query q = Some (MkQuery 258 true (MkSafeName (B "pypi.org")) 1 (drop 12 q)).
Proof. vm_compute. reflexivity. Qed.
Example sample_answer :
  fst (answer_dns (fun h _ => sample_lookup h 0) 0 sample_policy Filtered q Shared_default) =
  Some (map byte [1; 2; 133; 128; 0; 1; 0; 1; 0; 0; 0; 0]%N ++ drop 12 q ++ [byte 4] ++ B "pypi" ++
        [byte 3] ++ B "org" ++ map byte [0; 0; 1; 0; 1; 0; 0; 0; 60; 0; 4; 151; 101; 0; 223]%N).
Proof. vm_compute. reflexivity. Qed.
End Samples.

(** ** Reading what was written *)

Lemma get_u8_app pre s i : get_u8 (pre ++ s) (length pre + i) = get_u8 s i.
Proof. unfold get_u8. by rewrite lookup_app_r, Nat.add_comm, Nat.add_sub by lia. Qed.

Lemma get_u16_app pre s i : get_u16 (pre ++ s) (length pre + i) = get_u16 s i.
Proof. unfold get_u16. by rewrite <- Nat.add_assoc, !get_u8_app. Qed.

Lemma get_range_app pre s a b :
  get_range (pre ++ s) (length pre + a) (length pre + b) = get_range s a b.
Proof.
  unfold get_range. rewrite length_app.
  assert (Nat.leb (length pre + a) (length pre + b) = Nat.leb a b) as ->
    by (apply eq_true_iff_eq; rewrite !Nat.leb_le; lia).
  assert (Nat.leb (length pre + b) (length pre + length s) = Nat.leb b (length s)) as ->
    by (apply eq_true_iff_eq; rewrite !Nat.leb_le; lia).
  rewrite drop_app_ge by lia.
  replace (length pre + b - (length pre + a)) with (b - a) by lia.
  by replace (length pre + a - length pre) with a by lia.
Qed.

Lemma get_range_prefix s rest : get_range (s ++ rest) 0 (length s) = Some s.
Proof.
  unfold get_range. rewrite length_app. rewrite (proj2 (Nat.leb_le _ _)), (proj2 (Nat.leb_le _ _)) by lia.
  cbn [andb]. rewrite drop_0, Nat.sub_0_r. by rewrite take_app_length.
Qed.

Lemma get_u16_be16 n rest : (n < 65536)%N -> get_u16 (be16_of n ++ rest) 0 = Some n.
Proof.
  intros H. pose proof (be16_bytes n H) as Hb. unfold be16 in Hb. unfold get_u16, get_u8, be16_of.
  cbn. by rewrite Hb.
Qed.

(** Labels as they are written on the wire. *)
Definition wire_label (l : bytes) : bytes := byte (N.of_nat (length l)) :: l.
Definition labels_wire (ls : list bytes) : bytes := concat (map wire_label ls) ++ [byte 0].

Definition label_ok (l : bytes) : Prop := 0 < length l <= 63 /\ is_utf8 l = true.

Lemma label_bits n : n <= 63 -> (N.land (N.of_nat n) 192 =? 0)%N = true.
Proof.
  intros H. assert (forallb (fun n => (N.land (N.of_nat n) 192 =? 0)%N) (seq 0 64) = true) as Hall
    by (vm_compute; reflexivity).
  rewrite forallb_Forall, Forall_forall in Hall. apply Hall, elem_of_seq. lia.
Qed.

Lemma dns_labels_wire fuel pre ls post :
  Forall label_ok ls -> length ls < fuel ->
  dns_labels fuel (pre ++ labels_wire ls ++ post) (length pre) =
  Some (ls, length pre + length (labels_wire ls)).
Proof.
  intros Hls. revert fuel pre. induction Hls as [|l ls [Hl Hu] _ IH]; intros fuel pre Hf;
    (destruct fuel as [|f]; [simpl in Hf; lia|]); cbn [dns_labels].
  - rewrite <- (Nat.add_0_r (length pre)) at 1. rewrite get_u8_app. cbn. do 2 f_equal. lia.
  - assert (pre ++ labels_wire (l :: ls) ++ post =
            (pre ++ [byte (N.of_nat (length l))]) ++ l ++ labels_wire ls ++ post) as Hraw.
    { unfold labels_wire, wire_label. cbn [map concat]. by rewrite <- !app_assoc. }
    assert (get_u8 (pre ++ labels_wire (l :: ls) ++ post) (length pre) = Some (N.of_nat (length l))) as ->.
    { rewrite Hraw, <- app_assoc. rewrite <- (Nat.add_0_r (length pre)). rewrite get_u8_app.
      cbn. by rewrite code_byte by lia. }
    rewrite Hraw, label_bits by lia. cbn [negb].
    destruct (N.eqb_spec (N.of_nat (length l)) 0) as [|_]; [lia|]. rewrite Nat2N.id.
    assert (S (length pre) = length (pre ++ [byte (N.of_nat (length l))]) + 0) as ->
      by (rewrite length_app; simpl; lia).
    rewrite <- Nat.add_assoc, get_range_app. cbn [Nat.add].
    rewrite get_range_prefix, Hu. cbn [negb].
    rewrite app_assoc. rewrite <- (length_app (pre ++ [byte (N.of_nat (length l))]) l).
    rewrite IH by (simpl in Hf; lia). do 2 f_equal.
    unfold labels_wire, wire_label. cbn [map concat]. rewrite !length_app.
    cbn [length app]. rewrite ?length_app. simpl. lia.
Qed.

(** ** Queries *)

(** A standard query as a resolver library writes it: one question, class IN, with whatever
    records it appends. *)
Definition query_wire (id : N) (rd : bool) (extra : N) (labels : list bytes) (qtype : N) : bytes :=
  be16_of id ++ [byte (u8_of_bool rd); byte 0] ++ be16_of 1 ++ be16_of 0 ++ be16_of 0 ++
  be16_of extra ++ labels_wire labels ++ be16_of qtype ++ be16_of 1.

Definition name_of_labels (labels : list bytes) : SafeName :=
  SafeName.sanitized (match labels with [] => [] | _ => join (B ".") labels end).

(** The parser reads back every query a resolver writes, whatever follows it in the
    message: the id, the recursion flag, the sanitised name, the type, and the question
    section byte for byte. *)
Theorem dns_query_roundtrip id rd extra labels qtype trailing
    (Hid : (id < 65536)%N) (Hqt : (qtype < 65536)%N) (Hls : Forall label_ok labels) :
  parse_dns_query (query_wire id rd extra labels qtype ++ trailing) =
  Some (MkQuery id rd (name_of_labels labels) qtype
          (labels_wire labels ++ be16_of qtype ++ be16_of 1)).
Proof.
  set (hdr := be16_of id ++ [byte (u8_of_bool rd); byte 0] ++ be16_of 1 ++ be16_of 0 ++ be16_of 0 ++
              be16_of extra).
  set (tail := be16_of qtype ++ be16_of 1 ++ trailing).
  assert (query_wire id rd extra labels qtype ++ trailing = hdr ++ labels_wire labels ++ tail) as E.
  { unfold query_wire, hdr, tail. by rewrite <- !app_assoc. }
  assert (length hdr = 12) as Hh by reflexivity.
  unfold parse_dns_query. rewrite E.
  destruct (Nat.ltb_spec (length (hdr ++ labels_wire labels ++ tail)) 12) as [Hlt|_].
  { rewrite length_app in Hlt. lia. }
  assert (default 0%N (get_u16 (hdr ++ labels_wire labels ++ tail) 0) = id) as ->.
  { unfold hdr. rewrite <- !app_assoc. by rewrite get_u16_be16. }
  assert (default 0%N (get_u16 (hdr ++ labels_wire labels ++ tail) 2) = (u8_of_bool rd * 256)%N) as ->
    by by destruct rd.
  assert (default 0%N (get_u16 (hdr ++ labels_wire labels ++ tail) 4) = 1%N) as -> by reflexivity.
  assert (negb (N.land (u8_of_bool rd * 256) 32768 =? 0)%N ||
          negb (N.land (N.shiftr (u8_of_bool rd * 256) 11) 15 =? 0)%N = false) as -> by by destruct rd.
  assert (negb (N.land (u8_of_bool rd * 256) 256 =? 0)%N = rd) as -> by by destruct rd.
  change (negb (1 =? 1)%N) with false. cbv iota. rewrite <- Hh.
  rewrite dns_labels_wire; [|done|].
  2: { rewrite !length_app. unfold labels_wire. rewrite length_app.
       assert (length labels <= length (concat (map wire_label labels))); [|simpl; lia].
       clear. induction labels as [|l ls IH]; simpl; [lia|]. rewrite length_app. lia. }
  rewrite <- (Nat.add_0_r (length hdr + length (labels_wire labels))) at 1.
  rewrite <- (length_app hdr (labels_wire labels)). rewrite (app_assoc hdr).
  rewrite get_u16_app, get_u16_app. unfold tail at 1 2.
  rewrite get_u16_be16 by done.
  assert (get_u16 (be16_of qtype ++ be16_of 1 ++ trailing) 2 = Some 1%N) as -> by reflexivity.
  change (negb (1 =? 1)%N) with false. cbv iota. rewrite <- app_assoc.
  rewrite length_app, <- Nat.add_assoc. rewrite <- (Nat.add_0_r (length hdr)) at 1. rewrite get_range_app.
  assert (labels_wire labels ++ tail = (labels_wire labels ++ be16_of qtype ++ be16_of 1) ++ trailing) as ->.
  { unfold tail. by rewrite <- !app_assoc. }
  assert (length (labels_wire labels) + 4 = length (labels_wire labels ++ be16_of qtype ++ be16_of 1)) as ->
    by (rewrite !length_app; reflexivity).
  rewrite get_range_prefix. unfold name_of_labels. by destruct labels.
Qed.

Lemma dns_query_roundtrip_witness :
  option_map q_name (parse_dns_query (query_wire 7 true 1 [B "PyPI"; B "org"] 1 ++ B "opt"))
  = Some (MkSafeName (B "pypi.org")).
Proof.
  rewrite (dns_query_roundtrip 7 true 1 [B "PyPI"; B "org"] 1 (B "opt"));
    [vm_compute; reflexivity|lia|lia|repeat constructor; simpl; lia].
Defined.

(** ** Responses *)

(** A client's reader of the answer section: [n] records of type A and class IN. *)
Fixpoint decode_answers (n : nat) (raw : bytes) (pos : nat) : option (list (bytes * ipv4)) :=
  match n with
  | O => Some []
  | S n =>
      match dns_labels (S (length raw)) raw pos with
      | None => None
      | Some (ls, p) =>
          match get_u16 raw p, get_u16 raw (p + 2), get_u16 raw (p + 8), get_range raw (p + 10) (p + 14) with
          | Some 1%N, Some 1%N, Some 4%N, Some [a; b; c; d] =>
              match decode_answers n raw (p + 14) with
              | Some rest => Some ((join (B ".") ls, Ipv4 a b c d) :: rest)
              | None => None
              end
          | _, _, _, _ => None
          end
      end
  end.

Lemma encode_labels_ok ls :
  Forall (fun l => 0 < length l <= 63) ls -> encode_labels ls = Some (concat (map wire_label ls)).
Proof.
  induction 1 as [|l ls Hl _ IH]; [done|]. cbn [encode_labels].
  destruct (beq l []) eqn:E; [apply beq_true in E as ->; simpl in Hl; lia|].
  rewrite (proj2 (Nat.leb_le _ _)) by lia. by rewrite IH.
Qed.

Lemma canonical_byte_ascii b : is_canonical_byte b = true -> is_ascii b = true.
Proof. all_bytes b; done. Qed.

Lemma ascii_utf8 s : Forall (fun b => is_ascii b = true) s -> is_utf8 s = true.
Proof.
  unfold is_utf8. induction 1 as [|b s Hb _ IH]; [done|]. cbn [utf8_items].
  change ((code b <? 128)%N) with (is_ascii b). by rewrite Hb.
Qed.

Lemma good_label_ok l : good_label l -> label_ok l.
Proof.
  intros (Hl & _ & _ & Hb). split; [unfold MAX_LABEL_LEN in Hl; lia|]. apply ascii_utf8.
  eapply Forall_impl; [exact Hb|]. intros b. apply canonical_byte_ascii.
Qed.

Lemma encode_canonical n :
  canonical n -> encode_dns_name n = labels_wire (split "." n) /\ Forall label_ok (split "." n).
Proof.
  intros [_ H]. assert (Forall label_ok (split "." n)) as Hok.
  { eapply Forall_impl; [exact H|]. apply good_label_ok. }
  split; [|done]. unfold encode_dns_name. rewrite encode_labels_ok; [done|].
  eapply Forall_impl; [exact Hok|]. by intros l [? _].
Qed.

Lemma length_dns_answer w a : length (dns_answer w a) = length w + 14.
Proof. unfold dns_answer. rewrite length_app. by destruct a. Qed.

Lemma length_answers w addrs :
  length (concat (map (dns_answer w) addrs)) = length addrs * (length w + 14).
Proof.
  induction addrs as [|a l IH]; [done|]. cbn [map concat]. rewrite length_app, IH, length_dns_answer.
  simpl. lia.
Qed.

(** A response to a query of at most 512 bytes is at most 512 bytes. *)
Lemma response_bound q rcode addrs :
  12 + length (q_question q) <= MAX_DNS_MSG ->
  length (build_dns_response q rcode addrs) <= MAX_DNS_MSG.
Proof.
  intros H. unfold build_dns_response. cbn zeta.
  set (w := encode_dns_name _). set (ans := take _ _).
  assert (length ans <= max_answers q) as Ha by (unfold ans; rewrite length_take; lia).
  rewrite !length_app, length_answers. cbn [length be16_of].
  unfold max_answers in Ha. fold w in Ha. cbn zeta in Ha.
  pose proof (Nat.Div0.mul_div_le (MAX_DNS_MSG - (12 + length (q_question q))) (length w + 14)).
  nia.
Qed.

Lemma parse_query_facts raw q :
  parse_dns_query raw = Some q ->
  (q_id q < 65536)%N /\ 12 + length (q_question q) <= length raw /\
  exists s, q_name q = SafeName.sanitized s.
Proof.
  unfold parse_dns_query. destruct (Nat.ltb_spec (length raw) 12); [done|].
  set (id := default 0%N (get_u16 raw 0)).
  destruct (_ || _); [done|]. destruct (negb _); [done|].
  destruct (dns_labels _ raw 12) as [[ls pos]|]; [|done].
  destruct (get_u16 raw pos) as [ty|]; [|done]. destruct (get_u16 raw (pos + 2)) as [cl|]; [|done].
  destruct (negb _); [done|]. destruct (get_range raw 12 (pos + 4)) as [qs|] eqn:Eg; [|done].
  intros [= <-]. cbn [q_id q_question q_name]. split_and!.
  - subst id. unfold get_u16, get_u8. destruct (raw !! 0) as [a|], (raw !! (0 + 1)) as [b|]; simpl; try lia.
    pose proof (code_lt a). pose proof (code_lt b). lia.
  - unfold get_range in Eg. destruct (_ && _) eqn:E; [|done]. injection Eg as <-.
    apply andb_true_iff in E as [E1 E2]. apply Nat.leb_le in E1, E2.
    rewrite length_take, length_drop. lia.
  - destruct ls; by eexists.
Qed.

Lemma sanitized_canonical s : SafeName.is_valid (SafeName.sanitized s) = true ->
  canonical (name_str (SafeName.sanitized s)).
Proof.
  unfold SafeName.sanitized. destruct (normalize_name s) eqn:E; [|by rewrite placeholder_invalid].
  intros _. by apply normalize_name_iff in E as [? _].
Qed.

Lemma decode_answers_spec n raw pre addrs post :
  canonical n -> raw = pre ++ concat (map (dns_answer (encode_dns_name n)) addrs) ++ post ->
  decode_answers (length addrs) raw (length pre) = Some (map (fun a => (n, a)) addrs).
Proof.
  intros Hn. destruct (encode_canonical n Hn) as [Hw Hls].
  revert pre. induction addrs as [|a addrs IH]; intros pre Hraw; [done|].
  cbn [length decode_answers map].
  set (rdata := be16_of QTYPE_A ++ be16_of 1 ++ be32_of ANSWER_TTL ++ be16_of 4 ++ octets4 a).
  set (rest := concat (map (dns_answer (encode_dns_name n)) addrs) ++ post).
  assert (raw = pre ++ labels_wire (split "." n) ++ rdata ++ rest) as E1.
  { rewrite Hraw. unfold rest, rdata, dns_answer. cbn [map concat]. rewrite Hw, <- !app_assoc. done. }
  assert (length (labels_wire (split "." n)) <= length raw) as Hlen.
  { rewrite E1, !length_app. lia. }
  assert (length (split "." n) <= length (labels_wire (split "." n))) as Hcount.
  { unfold labels_wire. rewrite length_app. clear. generalize (split "." n) as l.
    induction l as [|x l IH]; simpl in *; [lia|]. rewrite length_app. lia. }
  pose proof (dns_labels_wire (S (length raw)) pre (split "." n) (rdata ++ rest) Hls ltac:(lia)) as Hd.
  rewrite <- E1 in Hd. rewrite Hd. clear Hd.
  set (p := length pre + length (labels_wire (split "." n))).
  assert (raw = (pre ++ labels_wire (split "." n)) ++ rdata ++ rest) as E2
    by (rewrite E1; by rewrite <- app_assoc).
  assert (p = length (pre ++ labels_wire (split "." n))) as Hp by by rewrite length_app.
  assert (forall i, get_u16 raw (p + i) = get_u16 (rdata ++ rest) i) as Hget.
  { intros i. rewrite E2, Hp. apply get_u16_app. }
  assert (get_range raw (p + 10) (p + 14) = get_range (rdata ++ rest) 10 14) as ->
    by (rewrite E2, Hp; apply get_range_app).
  rewrite <- (Nat.add_0_r p) at 1. rewrite !Hget.
  assert (get_u16 (rdata ++ rest) 0 = Some 1%N) as -> by reflexivity.
  assert (get_u16 (rdata ++ rest) 2 = Some 1%N) as -> by reflexivity.
  assert (get_u16 (rdata ++ rest) 8 = Some 4%N) as -> by reflexivity.
  assert (get_range (rdata ++ rest) 10 14 = Some (octets4 a)) as ->.
  { unfold get_range. rewrite length_app. assert (length rdata = 14) as -> by by destruct a.
    rewrite (proj2 (Nat.leb_le 14 (14 + length rest))) by lia. by destruct a. }
  assert (decode_answers (length addrs) raw (p + 14) = Some (map (fun a => (n, a)) addrs)) as Hrec.
  { assert (p + 14 = length (pre ++ labels_wire (split "." n) ++ rdata)) as ->.
    { rewrite !length_app. assert (length rdata = 14) as -> by by destruct a. lia. }
    apply IH. rewrite E1. unfold rest. by rewrite <- !app_assoc. }
  rewrite Hrec. destruct a. cbn [octets4]. change (B ".") with ["."%char]. by rewrite join_split.
Qed.

(** Every answer the guest gets is a well-formed reply to its own query: at most 512 bytes,
    with the query's id and its question section, the response code, and, for a valid name,
    exactly the first addresses that fit, readable by an ordinary client under the queried
    name, with the truncation bit set exactly when some were left out. *)
Theorem dns_response_spec raw q rcode addrs
    (Hraw : length raw <= MAX_DNS_MSG) (Hq : parse_dns_query raw = Some q)
    (Hv : SafeName.is_valid (q_name q) = true) (Hr : (rcode < 16)%N) :
  let r := build_dns_response q rcode addrs in
  let n := Nat.min (length addrs) (max_answers q) in
  length r <= MAX_DNS_MSG /\ get_u16 r 0 = Some (q_id q) /\
  get_u16 r 6 = Some (N.of_nat n) /\
  (exists hi, get_u8 r 2 = Some hi /\ N.testbit hi 7 = true /\
     N.testbit hi 1 = Nat.ltb n (length addrs) /\ N.testbit hi 0 = q_recursion_desired q) /\
  get_u8 r 3 = Some (N.lor 128 rcode) /\
  get_range r 12 (12 + length (q_question q)) = Some (q_question q) /\
  decode_answers n r (12 + length (q_question q)) =
    Some (map (fun a => (name_str (q_name q), a)) (take n addrs)).
Proof.
  intros r n. destruct (parse_query_facts _ _ Hq) as (Hid & Hlen & s & Hs).
  assert (canonical (name_str (q_name q))) as Hc by (rewrite Hs in *; by apply sanitized_canonical).
  assert (length (take n addrs) = n) as Hn by (rewrite length_take; unfold n; lia).
  assert (n <= 512) as Hn512.
  { unfold n, max_answers. cbn zeta. set (per := _ + 14).
    assert ((MAX_DNS_MSG - (12 + length (q_question q))) / per <= 512); [|lia].
    apply Nat.Div0.div_le_upper_bound. unfold MAX_DNS_MSG, per. nia. }
  assert (r = be16_of (q_id q) ++
     [byte (if Nat.ltb n (length addrs) then N.lor (N.lor 132 (u8_of_bool (q_recursion_desired q))) 2
            else N.lor 132 (u8_of_bool (q_recursion_desired q))); byte (N.lor 128 rcode)] ++
     be16_of 1 ++ be16_of (N.of_nat n) ++ be16_of 0 ++ be16_of 0 ++ q_question q ++
     concat (map (dns_answer (encode_dns_name (name_str (q_name q)))) (take n addrs))) as Er.
  { unfold r, build_dns_response, SafeName.as_str. cbn zeta. fold n. rewrite Hn.
    assert ((N.of_nat n <=? u16_max)%N = true) as ->; [|done].
    apply N.leb_le. unfold u16_max. lia. }
  assert (exists hdr, length hdr = 12 /\ r = hdr ++ q_question q ++
     concat (map (dns_answer (encode_dns_name (name_str (q_name q)))) (take n addrs))) as (hdr & Hh & Er').
  { eexists (be16_of (q_id q) ++ [_; _] ++ be16_of 1 ++ be16_of (N.of_nat n) ++ be16_of 0 ++ be16_of 0).
    split; [reflexivity|]. rewrite Er, <- !app_assoc. reflexivity. }
  split_and!.
  - apply response_bound. lia.
  - rewrite Er. by apply get_u16_be16.
  - rewrite Er. etrans; [|apply (get_u16_be16 (N.of_nat n) []); lia]. reflexivity.
  - rewrite Er. eexists. split; [reflexivity|].
    destruct (Nat.ltb n (length addrs)), (q_recursion_desired q); by vm_compute.
  - rewrite Er. unfold get_u8. cbn. rewrite code_byte; [done|].
    assert (forallb (fun n => (N.lor 128 (N.of_nat n) <? 256)%N) (seq 0 16) = true) as Hall
      by (vm_compute; reflexivity).
    rewrite forallb_Forall, Forall_forall in Hall. specialize (Hall (N.to_nat rcode)).
    rewrite N2Nat.id in Hall. apply N.ltb_lt, Hall, elem_of_seq. lia.
  - rewrite Er', <- Hh. rewrite <- (Nat.add_0_r (length hdr)) at 1. rewrite get_range_app.
    apply get_range_prefix.
  - rewrite <- Hn at 1. rewrite <- Hh, <- length_app.
    apply (decode_answers_spec _ _ _ _ []); [done|]. by rewrite Er', app_nil_r, <- app_assoc.
Qed.

Lemma dns_response_spec_witness :
  let raw := query_wire 7 true 0 [B "pypi"; B "org"] 1 in
  exists q, parse_dns_query raw = Some q /\
  decode_answers 1 (build_dns_response q RCODE_NOERROR [ipv4_new 151 101 0 223])
    (12 + length (q_question q)) = Some [(B "pypi.org", ipv4_new 151 101 0 223)].
Proof.
  intros raw.
  set (q := MkQuery 7 true (MkSafeName (B "pypi.org")) 1
              (labels_wire [B "pypi"; B "org"] ++ be16_of 1 ++ be16_of 1)).
  assert (parse_dns_query raw = Some q) as Hq by (vm_compute; reflexivity).
  exists q. split; [exact Hq|].
  refine (proj2 (proj2 (proj2 (proj2 (proj2 (proj2
    (dns_response_spec raw q RCODE_NOERROR [ipv4_new 151 101 0 223] _ Hq _ _))))))).
  - vm_compute. lia.
  - vm_compute. reflexivity.
  - vm_compute. reflexivity.
Defined.

(** ** What the resolver tells the guest *)

(** The addresses a mode may put in an answer. *)
Definition may_tell (p : Policy) (mode : DnsMode) (a : ipv4) : Prop :=
  match mode with
  | Filtered => floor_ok p (V4 a) = true
  | Open priv => is_dialable (V4 a) priv = true
  end.

Section AnswerProofs.
Context (lookup_host : bytes -> N -> option (list SocketAddr)) (now_ms : N) (p : Policy).

Lemma answerable_tell mode l :
  Forall (may_tell p mode)
    (omap (match mode with
           | Filtered => answerable (allow_loopback p) (allow_private p)
           | Open priv => answerable false priv
           end) l).
Proof.
  apply Forall_forall. intros a Ha. apply list_elem_of_omap in Ha as ([ip q] & _ & Ha).
  destruct mode as [|priv]; unfold answerable in Ha; cbn [fst] in Ha; destruct ip as [v|v]; try done.
  - destruct (_ || _) eqn:E; [|done]. injection Ha as <-. exact E.
  - cbn [andb orb] in Ha. destruct (is_dialable _ _) eqn:E; [|done]. injection Ha as <-. exact E.
Qed.

Lemma remember_ips n ips sh :
  inv p sh -> Forall (fun a => floor_ok p (V4 a) = true) ips ->
  decide (rules p) (Name n 0) = Allow ->
  inv p (fold_left (fun sh ip => Recorder.remember_resolved (V4 ip) n sh) ips sh).
Proof.
  intros Hi Hf Hd. revert sh Hi. induction Hf as [|a ips Ha _ IH]; intros sh [Hc Hw]; [done|].
  cbn [fold_left]. apply IH. split; [by apply remember_cache|by apply remember_wf].
Qed.

Lemma remember_ips_events n ips sh :
  events (fold_left (fun sh ip => Recorder.remember_resolved (V4 ip) n sh) ips sh) = events sh.
Proof.
  revert sh. induction ips as [|a ips IH]; intros sh; [done|]. cbn [fold_left]. rewrite IH.
  unfold Recorder.remember_resolved. by destruct (Nat.ltb _ _).
Qed.

(** The reply past the first touchpoint. *)
Lemma resolve_answer_spec mode q sh :
  let '(reply, sh') := resolve_answer lookup_host p mode q sh in
  exists rcode ips, reply = build_dns_response q rcode ips /\ Forall (may_tell p mode) ips /\
    (rcode = RCODE_NOERROR \/
     rcode = RCODE_SERVFAIL /\ ips = [] /\ lookup_host (name_str (q_name q)) 0 = None) /\
    (ips <> [] -> q_type q = QTYPE_A /\ rcode = RCODE_NOERROR) /\ events sh' = events sh /\
    ((mode = Filtered -> decide (rules p) (Name (q_name q) 0) = Allow) -> inv p sh -> inv p sh').
Proof.
  unfold resolve_answer. destruct (N.eqb_spec (q_type q) QTYPE_A) as [Ht|Ht]; cbn [negb].
  2: { exists RCODE_NOERROR, []. split_and!; try done. by left. }
  pose proof (answerable_tell mode) as Htell.
  unfold resolve_v4_detailed, SafeName.as_str.
  destruct mode as [|priv]; destruct (lookup_host (name_str (q_name q)) 0) as [l|] eqn:El;
    try (exists RCODE_SERVFAIL, []; split_and!; try done; by right);
    specialize (Htell (List.filter (fun a => is_ipv4 (fst a)) l));
    destruct (omap _ _) as [|a ips];
    try (exists RCODE_NOERROR, []; split_and!; try done; by left);
    exists RCODE_NOERROR, (a :: ips);
    (split; [done|]; split; [exact Htell|]; split; [by left|]; split; [done|]).
  - split; [apply (remember_ips_events _ (a :: ips))|]. intros Hd Hi.
    by apply remember_ips; [|exact Htell|apply Hd].
  - done.
Qed.

Lemma answer_dns_gen mode raw sh :
  let '(reply, sh') := answer_dns lookup_host now_ms p mode raw sh in
  (inv p sh -> inv p sh') /\
  match parse_dns_query raw with
  | None => sh' = sh /\
      reply = option_map (fun id => dns_header_only id false RCODE_FORMERR) (get_u16 raw 0)
  | Some q => exists rcode ips,
      reply = Some (build_dns_response q rcode ips) /\ Forall (may_tell p mode) ips /\
      (ips <> [] -> q_type q = QTYPE_A /\ rcode = RCODE_NOERROR) /\
      (rcode = RCODE_NXDOMAIN <->
         mode = Filtered /\ decide (rules p) (Name (q_name q) 0) <> Allow) /\
      exists e, ev_host e = q_name q /\ ev_allowed e = negb (rcode =? RCODE_NXDOMAIN)%N /\
        events sh' = events (snd (Recorder.record e sh))
  end.
Proof.
  unfold answer_dns. destruct (parse_dns_query raw) as [q|]; [|by destruct (get_u16 raw 0)].
  assert (forall m rc, (m = Filtered -> decide (rules p) (Name (q_name q) 0) = Allow) ->
    rc = RCODE_NOERROR \/ rc = RCODE_SERVFAIL ->
    (rc = RCODE_NXDOMAIN <-> m = Filtered /\ decide (rules p) (Name (q_name q) 0) <> Allow) /\
    negb (rc =? RCODE_NXDOMAIN)%N = true) as Hrc.
  { intros m rc Hm Hcase. split; [|by destruct Hcase as [->| ->]].
    split; [intros ->; by destruct Hcase|]. intros [Hmode Hd]. by apply Hm in Hmode. }
  assert (forall m (reason : option DenyReason),
    (m = Filtered -> decide (rules p) (Name (q_name q) 0) = Allow) ->
    let '(reply, sh') := (let '(reply, sh') := resolve_answer lookup_host p m q
        (snd (Recorder.record (dns_event now_ms (q_name q) true reason) sh)) in (Some reply, sh')) in
    (inv p sh -> inv p sh') /\ exists rcode ips,
      reply = Some (build_dns_response q rcode ips) /\ Forall (may_tell p m) ips /\
      (ips <> [] -> q_type q = QTYPE_A /\ rcode = RCODE_NOERROR) /\
      (rcode = RCODE_NXDOMAIN <-> m = Filtered /\ decide (rules p) (Name (q_name q) 0) <> Allow) /\
      exists e, ev_host e = q_name q /\ ev_allowed e = negb (rcode =? RCODE_NXDOMAIN)%N /\
        events sh' = events (snd (Recorder.record e sh))) as Hgo.
  { intros m reason Hm. set (e := dns_event now_ms (q_name q) true reason).
    pose proof (resolve_answer_spec m q (snd (Recorder.record e sh))) as Hs.
    destruct (resolve_answer lookup_host p m q _) as [reply sh'].
    destruct Hs as (rc & ips & -> & Htell & Hcase & Ha & Hev & Hinv). split.
    { intros [Hc Hw]. apply Hinv; [done|]. split; [by apply record_cache|by apply record_wf]. }
    assert (rc = RCODE_NOERROR \/ rc = RCODE_SERVFAIL) as Hc2 by tauto.
    destruct (Hrc m rc Hm Hc2) as [H1 H2].
    exists rc, ips. split; [done|]. split; [done|]. split; [done|]. split; [exact H1|]. by exists e. }
  destruct mode as [|priv]; [|by apply (Hgo (Open priv))].
  destruct (Policy.check p sh (Name (q_name q) 0)) as [n|why] eqn:Ek; cbn [negb].
  - apply (Hgo Filtered). intros _. revert Ek. unfold Policy.check.
    destruct (decide (rules p) (Name (q_name q) 0)); [done|].
    by destruct (Policy.pinned_credential_host _ _).
  - apply check_deny in Ek as (Hd & _). split.
    { intros [Hc Hw]. split; [by apply record_cache|by apply record_wf]. }
    exists RCODE_NXDOMAIN, []. split; [done|]. split; [constructor|]. split; [done|].
    split; [by split|]. by exists (dns_event now_ms (q_name q) false (Some why)).
Qed.
End AnswerProofs.

(** The resolver tells a guest nothing its run may not use: a filtered run is answered
    NXDOMAIN exactly for the names its rules refuse, an address in a reply always passes the
    destination guard (loopback and metadata addresses never do, in either mode), addresses
    are given for A queries only, one event is recorded per query under the sanitised name,
    and the recorder's invariant, with the soundness of the resolution cache, is kept. *)
Theorem answer_dns_spec lookup_host now_ms p mode raw sh :
  let '(reply, sh') := answer_dns lookup_host now_ms p mode raw sh in
  (inv p sh -> inv p sh') /\
  match parse_dns_query raw with
  | None => sh' = sh /\
      reply = option_map (fun id => dns_header_only id false RCODE_FORMERR) (get_u16 raw 0)
  | Some q => exists rcode ips,
      reply = Some (build_dns_response q rcode ips) /\ Forall (may_tell p mode) ips /\
      (ips <> [] -> q_type q = QTYPE_A /\ rcode = RCODE_NOERROR) /\
      (rcode = RCODE_NXDOMAIN <->
         mode = Filtered /\ decide (rules p) (Name (q_name q) 0) <> Allow) /\
      exists e, ev_host e = q_name q /\ ev_allowed e = negb (rcode =? RCODE_NXDOMAIN)%N /\
        events sh' = events (snd (Recorder.record e sh))
  end.
Proof. apply answer_dns_gen. Qed.

(** ** A whole run of the broker *)

(** A new connection of the run, with what the guest will send and how much it will read. *)
Definition connection (inp : bytes) (accepts : nat) (w : World) : World :=
  MkWorld inp [] accepts (shared w) (dialed w) [] (calls w).

(** One interaction of the guest with one of the listeners, for any behaviour of the guest,
    the network, the resolvers, the HTTPS client and the clock. *)
Inductive broker_step (url_parse : bytes -> result (option (UrlHost * bytes)) bytes) (p : Policy) : World -> World -> Prop :=
  | step_socks lookup_host connect now_ms traffic inp accepts w :
      broker_step url_parse p w
        (snd (handle_socks lookup_host connect now_ms p traffic (connection inp accepts w)))
  | step_http lookup_host connect now_ms up traffic client header_value drain inp accepts w :
      broker_step url_parse p w
        (snd (handle_http lookup_host connect now_ms p up traffic
                (serve_inject url_parse client header_value now_ms drain p) (connection inp accepts w)))
  | step_inject client header_value now_ms drain timed_out inp accepts w :
      broker_step url_parse p w
        (snd (handle_inject url_parse client header_value now_ms drain timed_out p (connection inp accepts w)))
  | step_dns lookup_host now_ms raw w :
      broker_step url_parse p w
        (with_shared (snd (answer_dns lookup_host now_ms p Filtered raw (shared w))) w).

(** [Broker::start], past the sockets: nothing is served unless the pinned hosts are checked. *)
Definition start (url_parse : bytes -> result (option (UrlHost * bytes)) bytes) (p : Policy) : result World PinnedError :=
  let? _ := refuse_floored_pinned_hosts url_parse p (pol_credentials p) in
  Ok (MkWorld [] [] 0 Shared_default [] [] []).

Lemma broker_step_ok url_parse p w w' : path_apart url_parse -> refuse_floored_pinned_hosts url_parse p (pol_credentials p) = Ok tt ->
  broker_step url_parse p w w' -> step_ok p (authorized_call p) w w'.
Proof.
  intros Hu Hp H. destruct H as [lk cn nm tr inp acc w|lk cn nm up tr cl hv dr inp acc w
                          |cl hv nm dr to inp acc w|lk nm raw w].
  - apply (safe_handle_socks lk cn nm p tr (authorized_call p) (connection inp acc w)).
  - apply (safe_handle_http lk cn nm p up tr (serve_inject url_parse cl hv nm dr p) (authorized_call p)
             (fun head => safe_serve_inject url_parse cl hv nm dr p Hu Hp head) (connection inp acc w)).
  - apply (safe_handle_inject url_parse cl hv nm dr to p Hu Hp (connection inp acc w)).
  - intros Hi. pose proof (answer_dns_gen lk nm p Filtered raw (shared w)) as H.
    destruct (answer_dns _ _ _ _ _ _) as [r sh']. cbn [snd shared with_shared dialed calls].
    split; [by apply H|]. split; exists []; by rewrite app_nil_r.
Qed.

(** C1: Whatever the guest does over a whole run that starts, through any sequence of SOCKS,
    HTTP, credential and DNS interactions and whatever the network and the resolvers answer:
    every address the broker ever connected to, for a proxied connection or to send a token,
    passes the destination guard, every request it ever gave a token to was authorised by a rule
    of that credential, and the recorder's bounds and its cache's soundness hold. *)
Theorem broker_run_safe (url_parse : bytes -> result (option (UrlHost * bytes)) bytes) (p : Policy) (w0 w : World)
    (Hurl : path_apart url_parse) (Hstart : start url_parse p = Ok w0) (Hrun : rtc (broker_step url_parse p) w0 w) :
  inv p (shared w) /\ Forall (fun a => floor_ok p (fst a) = true) (dialed w) /\
  Forall (authorized_call p) (calls w).
Proof.
  unfold start in Hstart. destruct (refuse_floored_pinned_hosts _ _ _) as [[]|] eqn:Hp; [|done]. injection Hstart as <-.
  set (w0 := MkWorld [] [] 0 Shared_default [] [] []) in *.
  assert (step_ok p (authorized_call p) w0 w) as H.
  { induction Hrun as [w|a b c Hab _ IH]; [reflexivity|]. etrans; [by eapply broker_step_ok|done]. }
  destruct H as (Hi & (t & -> & Ht) & (cs & -> & Hcs)); [|done].
  split; [by apply map_Forall_empty|]. unfold recorder_wf, w0, Shared_default.
  cbn [shared events total resolved]. rewrite map_size_empty. simpl length. split_and!; lia.
Qed.

(** A parser that sees a name in every authority, and a client whose resolver answers with the
    metadata service and with a public address, and which tries whatever it is given. *)
Definition sample_url (u : bytes) : result (option (UrlHost * bytes)) bytes :=
  match strip_prefix (B "https://") u with
  | Some r => Ok (option_map (fun hr => (UrlDomain, fst hr)) (split_once "/" r))
  | None => Err []
  end.

Definition sample_client : Client :=
  MkClient (fun _ => Some (Ok [(V4 (ipv4_new 169 254 169 254), 0%N); (V4 (ipv4_new 140 82 112 6), 0%N)])) (fun _ => [0; 1])
    (fun _ => Ok (MkResponse 200 [] [B "ok"] true)).

Lemma sample_url_apart : path_apart sample_url.
Proof.
  intros h rest parsed. unfold sample_url. rewrite !(proj2 (strip_prefix_Some _ _ _) eq_refl). intros H. injection H as H.
  destruct (split_once "/" (h ++ B "/")) as [[a b]|] eqn:E; [|done]. cbn in H. injection H as <- ->.
  apply split_once_Some in E as [_ Hh]. change (B "/" ++ rest) with (ascii_of_nat 47 :: rest).
  by rewrite split_once_app.
Qed.

Definition sample_request : bytes := B "GET /github/repos/a HTTP/1.1" ++ BLANK.

Lemma broker_run_safe_witness :
  exists w, rtc (broker_step sample_url sample_policy) (MkWorld [] [] 0 Shared_default [] [] []) w /\
    dialed w = [(V4 (ipv4_new 140 82 112 6), 443%N)] /\ length (calls w) = 1 /\
    Forall (fun a => floor_ok sample_policy (fst a) = true) (dialed w) /\ Forall (authorized_call sample_policy) (calls w).
Proof.
  assert (Hrun : rtc (broker_step sample_url sample_policy) (MkWorld [] [] 0 Shared_default [] [] [])
    (snd (handle_inject sample_url sample_client (fun _ => true) 5 [] false sample_policy
            (connection sample_request 9 (MkWorld [] [] 0 Shared_default [] [] []))))) by (eapply rtc_l; [apply step_inject|apply rtc_refl]).
  eexists. split; [exact Hrun|]. split; [by vm_compute|]. split; [by vm_compute|].
  exact (proj2 (broker_run_safe sample_url sample_policy _ _ sample_url_apart eq_refl Hrun)).
Defined.
