(* ===== verification/EntryName.v ===== *)
(** * EntryName: planning one layer entry

    Models [crates/oci-unpack/src/name.rs] and, from [lib.rs], the limits and the refusals:
    an archive-supplied name becomes a plan whose paths are root-relative and free of dot
    segments, or the image is refused. *)
From S2P Require Import Prelude Text.

(** ** Limits and refusals *)

Record Limits : Type := MkLimits {
  max_total_bytes : N; max_entry_bytes : N; max_entries : N;
  max_path_len : nat; max_path_depth : nat }.

Definition Limits_default : Limits :=
  MkLimits (N.shiftl 8 30) (N.shiftl 4 30) 500000 4096 256.

Inductive Refusal : Type :=
  | PathEscapesRoot (entry : bytes)
  | AbsolutePath (entry : bytes)
  | SymlinkEscape (entry via : bytes)
  | HardlinkEscape (entry target : bytes)
  | NonUtf8Name (raw : bytes)
  | ControlCharInName (entry : bytes)
  | LimitExceeded (limit : string) (cap : N) (raise : string)
  | Malformed (entry detail : bytes)
  | Io (path detail : bytes).

#[export] Instance Refusal_eq_dec : EqDecision Refusal.
Proof. solve_decision. Defined.

(** ** Plans *)

Inductive Plan : Type :=
  | Write (components : list bytes)
  | Whiteout (parent : list bytes) (target : bytes)
  | Opaque (parent : list bytes)
  | Root.

#[export] Instance Plan_eq_dec : EqDecision Plan.
Proof. solve_decision. Defined.

Definition WH : bytes := B ".wh.".
Definition OPQ : bytes := B ".wh..wh..opq".

(** The loop over the parts of a name. *)
Fixpoint plan_parts (name : bytes) (parts : list bytes) : result (list bytes) Refusal :=
  match parts with
  | [] => Ok []
  | part :: rest =>
      if beq part [] || beq part (B ".") then plan_parts name rest
      else if beq part (B "..") then Err (PathEscapesRoot name)
      else let? cs := plan_parts name rest in Ok (part :: cs)
  end.

(** The components before the last, and the last. *)
Definition split_last (cs : list bytes) : list bytes * bytes :=
  (take (length cs - 1) cs, default [] (last cs)).

Section Plan.
(** [str::escape_debug] and the [{:?}] of a string (which adds the quotes), used in
    messages only. *)
Variables escape_debug debug_str : bytes -> bytes.

Definition marker_as_directory (bad : bytes) : bytes :=
  debug_str bad ++
  B " is a whiteout marker used as a directory. Markers delete things; they are never created, so nothing can live beneath one.".

Definition plan (raw : bytes) (limits : Limits) : result Plan Refusal :=
  if Nat.ltb (max_path_len limits) (length raw) then
    Err (LimitExceeded "max_path_len" (N.of_nat (max_path_len limits)) "Limits::max_path_len")
  else if negb (is_utf8 raw) then Err (NonUtf8Name raw)
  else if existsb is_control_char (chars raw) then Err (ControlCharInName (escape_debug raw))
  else if starts_with (B "/") raw then Err (AbsolutePath raw)
  else
    let? components := plan_parts raw (split "/" raw) in
    match components with
    | [] => Ok Root
    | _ =>
        if Nat.ltb (max_path_depth limits) (length components) then
          Err (LimitExceeded "max_path_depth" (N.of_nat (max_path_depth limits))
                 "Limits::max_path_depth")
        else
          let '(parent, last) := split_last components in
          match List.find (starts_with WH) parent with
          | Some bad => Err (Malformed raw (marker_as_directory bad))
          | None =>
              if beq last OPQ then Ok (Opaque parent)
              else
                match strip_prefix WH last with
                | Some target =>
                    if beq target [] then
                      Err (Malformed raw (B "a `.wh.` marker with no basename names nothing to delete"))
                    else if beq target (B "..") then Err (PathEscapesRoot raw)
                    else if beq target (B ".") then
                      Err (Malformed raw (B "a `.wh.` marker whose basename is `.` names its own directory, not anything in it"))
                    else Ok (Whiteout parent target)
                | None => Ok (Write components)
                end
          end
    end.
End Plan.

(** [name::join] *)
Definition join_path (components : list bytes) : bytes := join (B "/") components.

(** ** What an accepted name is *)

(** A single, self-naming path component. *)
Definition component_ok (c : bytes) : Prop :=
  c <> [] /\ c <> B "." /\ c <> B ".." /\ "/"%char ∉ c /\
  Forall (fun b => is_ascii_control b = false) c.

(** The components a name spells, empty and dot parts left out. *)
Definition entry_parts (raw : bytes) : list bytes :=
  List.filter (fun p => negb (beq p [] || beq p (B "."))) (split "/" raw).

(** A name none of the name-shaped refusals applies to. *)
Definition clean_name (limits : Limits) (raw : bytes) : Prop :=
  length raw <= max_path_len limits /\ is_utf8 raw = true /\
  Forall (fun b => is_ascii_control b = false) raw /\ List.hd_error raw <> Some "/"%char /\
  B ".." ∉ split "/" raw.

Lemma plan_parts_Ok name parts cs :
  plan_parts name parts = Ok cs <->
  B ".." ∉ parts /\ cs = List.filter (fun p => negb (beq p [] || beq p (B "."))) parts.
Proof.
  revert cs. induction parts as [|p parts IH]; intros cs; cbn [plan_parts List.filter].
  { split; [intros [= <-]; split; [by apply not_elem_of_nil|done]|by intros [_ ->]]. }
  rewrite not_elem_of_cons.
  destruct (beq p [] || beq p (B ".")) eqn:E1; cbn [negb].
  - rewrite IH. split; [intros [? ->]|tauto]. split; [|done]. split; [|done].
    intros <-. discriminate E1.
  - destruct (beq p (B "..")) eqn:E2.
    + apply beq_true in E2 as ->. split; [done|]. intros [[? _] _]. done.
    + apply bool_decide_eq_false in E2. rewrite rbind_Ok. setoid_rewrite IH. split.
      * intros (cs' & [Hn ->] & [= <-]). split; [|done]. split; [|done]. congruence.
      * intros [[_ Hn] ->]. eauto.
Qed.

Lemma entry_parts_ok limits raw :
  clean_name limits raw -> Forall component_ok (entry_parts raw).
Proof.
  intros (_ & _ & Hctl & _ & Hdd). unfold entry_parts. apply Forall_forall. intros p Hp.
  apply list_elem_of_In, filter_In in Hp as [Hin Hp]. apply list_elem_of_In in Hin.
  apply negb_true_iff, orb_false_iff in Hp as [H1 H2].
  apply bool_decide_eq_false in H1, H2. pose proof (split_no_sep "/" raw) as Hs.
  rewrite Forall_forall in Hs. rewrite Forall_forall in Hctl. split_and!; try done.
  - intros ->. done.
  - by apply Hs.
  - apply Forall_forall. intros b Hb. apply Hctl. by eapply split_bytes.
Qed.

Lemma split_last_snoc cs : cs <> [] -> cs = fst (split_last cs) ++ [snd (split_last cs)].
Proof.
  intros Hne. destruct cs as [|c cs _] using rev_ind; [done|].
  unfold split_last. cbn [fst snd]. rewrite length_app, last_snoc. simpl length.
  replace (length cs + 1 - 1) with (length cs) by lia. by rewrite take_app_length.
Qed.

Section PlanProofs.
Context (escape_debug debug_str : bytes -> bytes) (limits : Limits).

(** The front of [plan]: what is left once the name-shaped refusals are past. *)
Lemma plan_front raw p :
  plan escape_debug debug_str raw limits = Ok p ->
  clean_name limits raw /\
  (entry_parts raw = [] /\ p = Root \/
   entry_parts raw <> [] /\ length (entry_parts raw) <= max_path_depth limits /\
   let '(parent, last) := split_last (entry_parts raw) in
   Forall (fun c => starts_with WH c = false) parent /\
   (last = OPQ /\ p = Opaque parent \/
    (last <> OPQ /\ exists t, last = WH ++ t /\ t <> [] /\ t <> B "." /\ t <> B ".." /\
      p = Whiteout parent t) \/
    starts_with WH last = false /\ p = Write (entry_parts raw))).
Proof.
  unfold plan. destruct (Nat.ltb_spec (max_path_len limits) (length raw)) as [|Hl]; [done|].
  destruct (is_utf8 raw) eqn:Eu; [|done]. cbn [negb].
  destruct (existsb is_control_char (chars raw)) eqn:Ec; [done|].
  destruct (starts_with (B "/") raw) eqn:Es; [done|]. intros H.
  apply rbind_Ok in H as (cs & Hcs & H). apply plan_parts_Ok in Hcs as [Hdd Hcs].
  fold (entry_parts raw) in Hcs. rewrite chars_control in Ec by done. apply existsb_false in Ec.
  split.
  { split_and!; try done. intros Hh. destruct raw as [|x raw]; [done|]. injection Hh as ->. done. }
  rewrite <- Hcs. destruct cs as [|c cs]; [left; by injection H as <-|right].
  split; [done|]. destruct (Nat.ltb_spec (max_path_depth limits) (length (c :: cs))); [done|].
  split; [done|]. destruct (split_last (c :: cs)) as [parent l].
  destruct (List.find (starts_with WH) parent) eqn:Ef; [done|]. split.
  { apply Forall_forall. intros x Hx. by apply (find_none _ _ Ef), list_elem_of_In. }
  destruct (beq l OPQ) eqn:Eo; [left; apply beq_true in Eo; by injection H as <-|right].
  apply bool_decide_eq_false in Eo.
  destruct (strip_prefix WH l) as [t|] eqn:Et.
  - left. split; [done|]. exists t. apply strip_prefix_Some in Et.
    destruct (beq t []) eqn:E1; [done|]. destruct (beq t (B "..")) eqn:E2; [done|].
    destruct (beq t (B ".")) eqn:E3; [done|]. apply bool_decide_eq_false in E1, E2, E3.
    by injection H as <-.
  - right. injection H as <-. split; [|done]. unfold starts_with. by rewrite Et.
Qed.
End PlanProofs.

(** The paths a plan acts on. *)
Definition plan_path (p : Plan) : list bytes :=
  match p with
  | Write cs => cs
  | Whiteout parent t => parent ++ [t]
  | Opaque parent => parent
  | Root => []
  end.

(** Every name the extractor acts on is a confined one: whatever bytes the archive spells,
    an accepted plan's path is a list of single self-naming components (never empty, a dot
    segment, a separator or a control byte, the whiteout target included), within the depth
    limit, with no whiteout marker in a directory position; and a path to write is exactly
    what the name spells. *)
Theorem plan_safe escape_debug debug_str limits raw p
    (Hok : plan escape_debug debug_str raw limits = Ok p) :
  Forall component_ok (plan_path p) /\ length (plan_path p) <= max_path_depth limits /\
  length raw <= max_path_len limits /\
  match p with
  | Write cs => cs = entry_parts raw /\ cs <> [] /\ Forall (fun c => starts_with WH c = false) cs
  | Whiteout parent t => entry_parts raw = parent ++ [WH ++ t] /\
      Forall (fun c => starts_with WH c = false) parent
  | Opaque parent => entry_parts raw = parent ++ [OPQ] /\
      Forall (fun c => starts_with WH c = false) parent
  | Root => entry_parts raw = []
  end.
Proof.
  apply plan_front in Hok as [Hc Hp]. pose proof (entry_parts_ok _ _ Hc) as Hok.
  assert (length raw <= max_path_len limits) as Hlen by apply Hc.
  destruct Hp as [[He ->]|(Hne & Hd & Hp)].
  { split_and!; [constructor|simpl; lia|done|done]. }
  pose proof (split_last_snoc _ Hne) as Hs. destruct (split_last (entry_parts raw)) as [parent l].
  cbn [fst snd] in Hs. destruct Hp as [Hpar Hp]. rewrite Hs in Hok.
  apply Forall_app in Hok as [Hok1 Hok2]. apply Forall_cons in Hok2 as [Hok2 _].
  pose proof (f_equal length Hs) as Hl. rewrite length_app in Hl. simpl in Hl.
  destruct Hp as [[-> ->]|[(_ & t & -> & H1 & H2 & H3 & ->)|[Hw ->]]]; cbn [plan_path].
  - split_and!; try done. lia.
  - split; [|rewrite length_app; simpl; split_and!; try done; lia].
    apply Forall_app. split; [done|]. apply Forall_singleton.
    destruct Hok2 as (_ & _ & _ & Hsl & Hctl). split_and!; try done.
    + intros Hin. apply Hsl. apply elem_of_app. by right.
    + by apply Forall_app in Hctl as [_ ?].
  - rewrite Hs. split; [by apply Forall_app; split; [|apply Forall_singleton]|].
    rewrite <- Hs. split_and!; try done. rewrite Hs. apply Forall_app. by split; [|apply Forall_singleton].
Qed.

Lemma plan_safe_witness :
  plan (fun s => s) (fun s => s) (B "./usr//bin/.wh.sh") Limits_default =
    Ok (Whiteout [B "usr"; B "bin"] (B "sh")) /\
  Forall component_ok [B "usr"; B "bin"; B "sh"].
Proof.
  assert (Hp : plan (fun s => s) (fun s => s) (B "./usr//bin/.wh.sh") Limits_default =
    Ok (Whiteout [B "usr"; B "bin"] (B "sh"))) by (vm_compute; reflexivity).
  split; [exact Hp|]. exact (proj1 (plan_safe _ _ _ _ _ Hp)).
Defined.

(** The refusals the fixtures of [name.rs] list, on the model. *)
Example plan_refusals :
  let p s := plan (fun s => s) (fun s => s) (B s) Limits_default in
  p "foo/../../etc/passwd" = Err (PathEscapesRoot (B "foo/../../etc/passwd")) /\
  p "a/../b" = Err (PathEscapesRoot (B "a/../b")) /\
  p "//etc/passwd" = Err (AbsolutePath (B "//etc/passwd")) /\
  p ".wh..." = Err (PathEscapesRoot (B ".wh...")) /\
  p "d/.wh..wh..opq" = Ok (Opaque [B "d"]) /\
  p "././" = Ok Root /\
  is_ok (p ".wh.foo/bar") = false /\
  p "var/log/" = Ok (Write [B "var"; B "log"]).
Proof. vm_compute. repeat split. Qed.
