(* ===== verification/Digest.v ===== *)
(** * Digest: content digests

    Models [crates/oci-unpack/src/digest.rs]: the one place a registry-supplied string
    becomes a path under [blobs/].  The hash itself ([hex::encode(Sha256::digest(..))]) is
    the [sha2] and [hex] crates' and a parameter. *)
From S2P Require Import Prelude Text.

Module Digest.
Record Digest : Type := MkDigest { algorithm : bytes; encoded : bytes }.

#[export] Instance Digest_eq_dec : EqDecision Digest.
Proof. solve_decision. Defined.
End Digest.
Export (hints) Digest.
Abbreviation Digest := Digest.Digest.

Module DigestError.
Inductive DigestError : Type :=
  | Malformed (s : bytes)
  | UnsupportedAlgorithm (s : bytes)
  | BadEncoding (s : bytes).

#[export] Instance DigestError_eq_dec : EqDecision DigestError.
Proof. solve_decision. Defined.

(** [{s:?}] is [str]'s [Debug], used in messages only. *)
Definition explain (debug_str : bytes -> bytes) (e : DigestError) : bytes :=
  match e with
  | Malformed s =>
      debug_str s ++ B " is not a digest. The form is `<algorithm>:<hex>`, as in `sha256:e3b0c442…`."
  | UnsupportedAlgorithm s =>
      B "digest algorithm " ++ debug_str s ++
      B " is not one isopod can compute, so a blob claiming it could not be verified against it. Only `sha256` is accepted; re-push the image with a registry that uses it."
  | BadEncoding s =>
      B "digest " ++ debug_str s ++
      B " does not encode the number of lowercase hex characters its algorithm produces. A digest is also how a blob is addressed inside an image layout, so anything but plain hex is refused rather than turned into a path."
  end.
End DigestError.
Export (hints) DigestError.
Abbreviation DigestError := DigestError.DigestError.

Definition ALGORITHMS : list (bytes * nat) := [(B "sha256", 64)].

Definition is_lower_hex (b : ascii) : bool := is_ascii_digit b || between 97 102 b.

(** [Digest::parse] *)
Definition parse_digest (s : bytes) : result Digest DigestError :=
  match split_once ":" s with
  | None => Err (DigestError.Malformed s)
  | Some (algorithm, encoded) =>
      if beq algorithm [] || beq encoded [] then Err (DigestError.Malformed s)
      else
        match List.find (fun al => beq (fst al) algorithm) ALGORITHMS with
        | None => Err (DigestError.UnsupportedAlgorithm algorithm)
        | Some (_, len) =>
            if negb (Nat.eqb (length encoded) len) || negb (forallb is_lower_hex encoded)
            then Err (DigestError.BadEncoding s)
            else Ok (Digest.MkDigest algorithm encoded)
        end
  end.

(** [Path::join] of the Unix standard library, on paths as bytes. *)
Definition path_join (a b : bytes) : bytes :=
  if starts_with (B "/") b then b
  else if beq a [] || ends_with (B "/") a then a ++ b
  else a ++ B "/" ++ b.

(** [Digest::blob_path] *)
Definition digest_blob_path (d : Digest) : bytes :=
  path_join (path_join (B "blobs") (Digest.algorithm d)) (Digest.encoded d).

(** The [Display] of a digest. *)
Definition show_digest (d : Digest) : bytes := Digest.algorithm d ++ B ":" ++ Digest.encoded d.

Section Compute.
(** [hex::encode(Sha256::digest(bytes))] *)
Variable sha256_hex : bytes -> bytes.

(** [Digest::compute]; [None] is its [unreachable!]. *)
Definition compute_digest (d : Digest) (data : bytes) : option bytes :=
  if beq (Digest.algorithm d) (B "sha256") then Some (sha256_hex data) else None.

(** [Digest::matches] *)
Definition digest_matches (d : Digest) (data : bytes) : option bool :=
  h ← compute_digest d data; Some (beq h (Digest.encoded d)).
End Compute.

(** ** What a parsed digest is *)

Definition digest_ok (d : Digest) : Prop :=
  Digest.algorithm d = B "sha256" /\ length (Digest.encoded d) = 64 /\
  Forall (fun b => is_lower_hex b = true) (Digest.encoded d).

Lemma parse_digest_Ok s d : parse_digest s = Ok d <-> digest_ok d /\ s = show_digest d.
Proof.
  unfold parse_digest, digest_ok, show_digest. split.
  - destruct (split_once ":" s) as [[a e]|] eqn:Es; [|done].
    apply split_once_Some in Es as [-> _]. destruct (beq a [] || beq e []); [done|].
    cbn [List.find ALGORITHMS fst]. destruct (beq (B "sha256") a) eqn:Ea; [|done].
    apply beq_true in Ea as <-. intros H. case_test; [done|]. injection H as <-. reflect_bools.
    split; [|done]. split; [done|]. split; [done|]. by apply forallb_Forall.
  - destruct d as [a e]. cbn [Digest.algorithm Digest.encoded]. intros [(-> & Hl & Hh) ->].
    change (B "sha256" ++ B ":" ++ e) with (B "sha256" ++ ":"%char :: e).
    rewrite split_once_app by (apply contains_false; done).
    destruct e as [|x e]; [done|].
    replace (beq (B "sha256") [] || beq (x :: e) []) with false by done.
    cbn [List.find ALGORITHMS fst]. replace (beq (B "sha256") (B "sha256")) with true by done.
    rewrite Hl, (proj2 (forallb_Forall _ _) Hh). done.
Qed.

Lemma digest_ok_computes sha256_hex d data :
  digest_ok d -> compute_digest sha256_hex d data = Some (sha256_hex data).
Proof. intros (Ha & _). unfold compute_digest. by rewrite Ha. Qed.

Lemma lower_hex_not_slash b : is_lower_hex b = true -> b <> "/"%char.
Proof. by intros H ->. Qed.

Lemma digest_blob_path_ok d :
  digest_ok d -> digest_blob_path d = B "blobs/sha256/" ++ Digest.encoded d.
Proof.
  intros (Ha & Hl & Hh). unfold digest_blob_path, path_join at 1. rewrite Ha.
  replace (starts_with (B "/") (Digest.encoded d)) with false; [done|].
  destruct (Digest.encoded d) as [|x e]; [done|].
  apply Forall_cons in Hh as [Hx _]. apply lower_hex_not_slash in Hx.
  symmetry. apply not_true_is_false. intros H. apply starts_with_true in H as [r Hr].
  by injection Hr as ->.
Qed.

(** A digest string becomes a path only through its grammar: [Digest::parse] accepts exactly
    [sha256:] followed by 64 lowercase hex digits, what it accepts prints back as the same
    string, and the blob path of an accepted digest is the two fixed directories and those 64
    digits, so no separator and no dot segment an image author writes reaches the path. *)
Theorem digest_parse_spec s d :
  (parse_digest s = Ok d <-> digest_ok d /\ s = show_digest d) /\
  (digest_ok d ->
   digest_blob_path d = B "blobs/sha256/" ++ Digest.encoded d /\
   "/"%char ∉ Digest.encoded d /\ "."%char ∉ Digest.encoded d /\
   forall sha256_hex data,
     digest_matches sha256_hex d data = Some (beq (sha256_hex data) (Digest.encoded d))).
Proof.
  split; [apply parse_digest_Ok|]. intros Hd. split; [by apply digest_blob_path_ok|].
  pose proof Hd as (_ & _ & Hh). rewrite Forall_forall in Hh.
  split; [by intros H%Hh|]. split; [by intros H%Hh|]. intros f data. unfold digest_matches.
  by rewrite digest_ok_computes.
Qed.

Example digest_traversal :
  let p s := parse_digest (B s) in
  is_ok (p "sha256:../../../../etc/shadow") = false /\
  is_ok (p "sha256:................................................................") = false /\
  is_ok (p "sha256:E3B0C44298FC1C149AFBF4C8996FB92427AE41E4649B934CA495991B7852B855") = false /\
  is_ok (p "sha256:e3b0c44298fc1c149afbf4c8996fb92427ae41e4649b934ca495991b7852b855") = true /\
  is_ok (p "sha512:e3b0c44298fc1c149afbf4c8996fb92427ae41e4649b934ca495991b7852b855") = false.
Proof. vm_compute. repeat split. Qed.

Lemma digest_parse_spec_witness :
  let d := Digest.MkDigest (B "sha256")
    (B "e3b0c44298fc1c149afbf4c8996fb92427ae41e4649b934ca495991b7852b855") in
  parse_digest (show_digest d) = Ok d /\
  digest_blob_path d = B "blobs/sha256/" ++ Digest.encoded d.
Proof.
  intros d. assert (Hd : digest_ok d).
  { split; [done|]. split; [done|]. apply forallb_Forall. vm_compute. done. }
  destruct (digest_parse_spec (show_digest d) d) as [Hp Hb].
  split; [by apply Hp|]. by apply Hb.
Defined.
