(* ===== verification/Order.v ===== *)
(** * Sorting byte strings

    The order of Rust strings, bytewise and lexicographic, and [sort()] with it: as a list of
    equal strings cannot be told from another, any sort gives the same result.  And the stable sort
    of records, newest first. *)
From stdpp Require Import sorting.
From S2P Require Import Prelude Text.

Fixpoint bytes_leb (a b : bytes) : bool :=
  match a, b with
  | [], _ => true
  | _ :: _, [] => false
  | x :: a, y :: b =>
      if (code x <? code y)%N then true else if (code y <? code x)%N then false else bytes_leb a b
  end.

Definition bytes_le (a b : bytes) : Prop := bytes_leb a b = true.
#[export] Instance bytes_le_dec a b : Decision (bytes_le a b).
Proof. unfold bytes_le. apply _. Defined.

Lemma bytes_leb_cons x y a b : bytes_leb (x :: a) (y :: b) = true <->
  (code x < code y)%N \/ x = y /\ bytes_leb a b = true.
Proof.
  cbn [bytes_leb]. destruct (N.ltb_spec (code x) (code y)) as [H|H]; [naive_solver|].
  destruct (N.ltb_spec (code y) (code x)) as [H'|H'].
  - split; [done|]. intros [?|[-> ?]]; lia.
  - assert (x = y) as -> by (apply code_inj; lia). split; [naive_solver|]. intros [?|[_ ?]]; [lia|done].
Qed.

#[export] Instance bytes_le_total : Total bytes_le.
Proof.
  intros a. unfold bytes_le. induction a as [|x a IH]; intros [|y b]; [by left..|by right|].
  rewrite !bytes_leb_cons. destruct (N.lt_trichotomy (code x) (code y)) as [?|[E|?]]; [tauto| |tauto].
  apply code_inj in E as ->. destruct (IH b); tauto.
Qed.

#[export] Instance bytes_le_trans : Transitive bytes_le.
Proof.
  intros a. unfold bytes_le. induction a as [|x a IH]; intros [|y b] [|z c]; try done.
  rewrite !bytes_leb_cons. intros [H1|[-> H1]] [H2|[-> H2]];
    [left; lia|by left|by left|right]. split; [done|]. by apply (IH b).
Qed.

#[export] Instance bytes_le_antisymm : AntiSymm (=) bytes_le.
Proof.
  intros a. unfold bytes_le. induction a as [|x a IH]; intros [|y b]; try done.
  rewrite !bytes_leb_cons. intros [H1|[-> H1]] [H2|[E2 H2]]; [lia| |lia|].
  - subst. lia.
  - f_equal. by apply IH.
Qed.

(** [names.sort()] *)
Definition sort_bytes (l : list bytes) : list bytes := merge_sort bytes_le l.

Lemma elem_of_sort_bytes x l : x ∈ sort_bytes l <-> x ∈ l.
Proof. unfold sort_bytes. by rewrite merge_sort_Permutation. Qed.

(** The only sorted arrangement of a list is its sort. *)
Lemma sort_bytes_unique l s : Sorted bytes_le s -> s ≡ₚ l -> sort_bytes l = s.
Proof.
  intros Hs Hp. apply (Sorted_unique bytes_le); [apply Sorted_merge_sort, _|done|].
  unfold sort_bytes. by rewrite merge_sort_Permutation.
Qed.

(** [sort_by_key(Reverse(stamp))], which is stable. *)
Section newest.
Context {A : Type} (stamp : A -> N).

Fixpoint insert_newest (x : A) (l : list A) : list A :=
  match l with
  | [] => [x]
  | y :: r => if (stamp y <? stamp x)%N then x :: l else y :: insert_newest x r
  end.
Definition newest_first (l : list A) : list A := fold_left (fun acc x => insert_newest x acc) l [].

Definition newer (x y : A) : Prop := (stamp y <= stamp x)%N.

Lemma insert_newest_perm x l : insert_newest x l ≡ₚ x :: l.
Proof. induction l as [|y l IH]; cbn [insert_newest]; [done|]. destruct (_ <? _)%N; [done|]. rewrite IH. apply Permutation_swap. Qed.

Lemma newest_first_snoc l x : newest_first (l ++ [x]) = insert_newest x (newest_first l).
Proof. unfold newest_first. by rewrite fold_left_app. Qed.

Lemma newest_first_perm l : newest_first l ≡ₚ l.
Proof.
  induction l as [|x l IH] using rev_ind; [done|].
  by rewrite newest_first_snoc, insert_newest_perm, IH, Permutation_cons_append.
Qed.

Lemma newest_first_in x l : x ∈ newest_first l <-> x ∈ l.
Proof. by rewrite newest_first_perm. Qed.

Lemma insert_newest_sorted x l : Sorted newer l -> Sorted newer (insert_newest x l).
Proof.
  induction 1 as [|y l Hl IH Hy]; cbn [insert_newest]; [by repeat constructor|]. destruct (N.ltb_spec (stamp y) (stamp x)).
  - constructor; [by constructor|]. constructor. unfold newer. lia.
  - constructor; [done|]. destruct l as [|z l]; cbn [insert_newest]; [by repeat constructor|].
    destruct (_ <? _)%N; [by constructor|]. inversion Hy. by constructor.
Qed.

Lemma newest_first_sorted l : Sorted newer (newest_first l).
Proof.
  induction l as [|x l IH] using rev_ind; [constructor|]. rewrite newest_first_snoc. by apply insert_newest_sorted.
Qed.
End newest.
