(* ===== verification/Layout.v ===== *)
(** * Layout: reading an OCI image layout

    Models [crates/oci-unpack/src/layout.rs]: the index, the choice of a manifest for a
    platform, the manifest, the config and the blobs, each verified against the digest that
    named it before it is used.

    The file system is the section's parameter: a world [W] and the calls the code makes on
    it.  Each call takes the world and gives the next, so a file may read differently from
    one call to the next.  SHA-256 (with its hex encoding) and the JSON decoders of the
    private wire types are parameters too. *)
From S2P Require Import Prelude Text Digest.
From S2P Require Order.

Definition MAX_METADATA_BYTES : N := 4 * 1024 * 1024.
Definition MAX_INDEX_DEPTH : nat := 4.
Definition LAYOUT_VERSIONS : list bytes := [B "1.0.0"].

Definition INDEX_TYPES : list bytes :=
  [B "application/vnd.oci.image.index.v1+json";
   B "application/vnd.docker.distribution.manifest.list.v2+json"].
Definition MANIFEST_TYPES : list bytes :=
  [B "application/vnd.oci.image.manifest.v1+json";
   B "application/vnd.docker.distribution.manifest.v2+json"].
Definition CONFIG_TYPES : list bytes :=
  [B "application/vnd.oci.image.config.v1+json";
   B "application/vnd.docker.container.image.v1+json"].

Module Compression.
Inductive Compression : Type := None | Gzip | Zstd.

#[export] Instance Compression_eq_dec : EqDecision Compression.
Proof. solve_decision. Defined.

(** [Compression::of] *)
Definition of_media (media_type : bytes) : option Compression :=
  if beq media_type (B "application/vnd.oci.image.layer.v1.tar")
     || beq media_type (B "application/vnd.docker.image.rootfs.diff.tar") then Some None
  else if beq media_type (B "application/vnd.oci.image.layer.v1.tar+gzip")
     || beq media_type (B "application/vnd.docker.image.rootfs.diff.tar.gzip") then Some Gzip
  else if beq media_type (B "application/vnd.oci.image.layer.v1.tar+zstd") then Some Zstd
  else Datatypes.None.
End Compression.
Export (hints) Compression.

(** ** The document types *)

Module Platform.
Record Platform : Type := MkPlatform {
  os : bytes; architecture : bytes; variant : option bytes }.

#[export] Instance Platform_eq_dec : EqDecision Platform.
Proof. solve_decision. Defined.

Definition host : Platform := MkPlatform (B "linux") (B "amd64") None.

Definition satisfies (self want : Platform) : bool :=
  beq (os self) (os want) && beq (architecture self) (architecture want) &&
  (bool_decide (variant self = None) || bool_decide (variant self = variant want)).

(** Its [Display]. *)
Definition display (p : Platform) : bytes :=
  os p ++ B "/" ++ architecture p ++
  match variant p with Some v => B "/" ++ v | None => [] end.
End Platform.
Export (hints) Platform.

(** The map of annotations is an association list: nothing here looks one up. *)
Record Descriptor : Type := MkDescriptor {
  media_type : bytes; digest : Digest; size : N;
  platform : option Platform.Platform; annotations : list (bytes * bytes) }.

#[export] Instance Descriptor_eq_dec : EqDecision Descriptor.
Proof. solve_decision. Defined.

Record Manifest : Type := MkManifest { config_desc : Descriptor; layers : list Descriptor }.

Record ImageConfig : Type := MkImageConfig {
  env : list bytes; working_dir : option bytes; entrypoint : list bytes; cmd : list bytes;
  user : option bytes; diff_ids : list bytes }.

(** ** The wire types: every field optional *)

Record RawPlatform : Type := MkRawPlatform {
  raw_os : option bytes; raw_architecture : option bytes; raw_variant : option bytes }.
(** [size] is an [i64]. *)
Record RawDescriptor : Type := MkRawDescriptor {
  raw_media_type : option bytes; raw_digest : option bytes; raw_size : option Z;
  raw_platform : option RawPlatform; raw_annotations : option (list (bytes * bytes)) }.
Record RawLayout : Type := MkRawLayout { image_layout_version : option bytes }.
Record RawIndex : Type := MkRawIndex { raw_manifests : option (list RawDescriptor) }.
Record RawManifest : Type := MkRawManifest {
  raw_config : option RawDescriptor; raw_layers : option (list RawDescriptor) }.
Record RawConfigInner : Type := MkRawConfigInner {
  raw_env : option (list bytes); raw_working_dir : option bytes;
  raw_entrypoint : option (list bytes); raw_cmd : option (list bytes);
  raw_user : option bytes }.
Record RawRootfs : Type := MkRawRootfs { raw_diff_ids : option (list bytes) }.
Record RawConfig : Type := MkRawConfig {
  raw_inner : option RawConfigInner; raw_rootfs : option RawRootfs }.

(** ** Errors *)

Module LayoutError.
Inductive LayoutError : Type :=
  | NotALayout (path detail : bytes)
  | Io (path detail : bytes)
  | Malformed (what detail : bytes)
  | BadDigest (e : DigestError)
  | DigestMismatch (expected actual : bytes)
  | TooLarge (what : bytes) (cap actual : N)
  | NoSuchPlatform (want : bytes) (have : list bytes).

(** Its [Display]. *)
Definition explain (debug_str : bytes -> bytes) (e : LayoutError) : bytes :=
  match e with
  | NotALayout path detail =>
      path ++ B " is not an OCI image layout: " ++ detail ++
      B ". A layout is a directory holding `oci-layout`, `index.json` and `blobs/` — what `skopeo copy … oci:DIR` and `docker save` produce."
  | Io path detail => B "reading " ++ path ++ B " failed: " ++ detail
  | Malformed what detail => what ++ B " is malformed: " ++ detail
  | BadDigest e => DigestError.explain debug_str e
  | DigestMismatch expected actual =>
      B "a blob does not match the digest that named it: the manifest says " ++ expected ++
      B ", the bytes hash to sha256:" ++ actual ++
      B ". The image is corrupt or was altered after it was signed; isopod refuses it rather than unpacking bytes nothing vouches for."
  | TooLarge what cap actual =>
      what ++ B " is " ++ show_N actual ++ B " bytes, over the " ++ show_N cap ++
      B "-byte ceiling. Image metadata is kilobytes; something this size is not an index, a manifest or a config."
  | NoSuchPlatform want have =>
      B "this image has no manifest for " ++ want ++ B ". It offers: " ++
      match have with [] => B "nothing" | _ => join (B ", ") have end ++
      B ". isopod boots x86-64 Linux guests, so an image without a linux/amd64 manifest cannot become a base."
  end.
End LayoutError.
Abbreviation LayoutError := LayoutError.LayoutError.

(** ** Pure parts *)

Definition is_index (media_type : bytes) : bool := bool_decide (media_type ∈ INDEX_TYPES).
Definition is_manifest (media_type : bytes) : bool := bool_decide (media_type ∈ MANIFEST_TYPES).

(** [raw.platform.and_then(..)] of [descriptor]: both names, or no platform. *)
Definition platform_of (p : RawPlatform) : option Platform.Platform :=
  os ← raw_os p; arch ← raw_architecture p;
  Some (Platform.MkPlatform os arch (raw_variant p)).

Definition descriptor (raw : RawDescriptor) (what : bytes) : result Descriptor LayoutError :=
  let malformed detail := LayoutError.Malformed what (B detail) in
  let? text := ok_or (raw_digest raw) (malformed "a descriptor has no digest") in
  let? digest := map_err LayoutError.BadDigest (parse_digest text) in
  let? size := ok_or (raw_size raw) (malformed "a descriptor has no size") in
  let? size := if (size <? 0)%Z then Err (malformed "a descriptor has a negative size")
               else Ok (Z.to_N size) in
  let? media_type := ok_or (raw_media_type raw) (malformed "a descriptor has no mediaType") in
  Ok (MkDescriptor media_type digest size (raw_platform raw ≫= platform_of)
        (default [] (raw_annotations raw))).

Definition descriptors (raw : list RawDescriptor) (what : bytes) :
    result (list Descriptor) LayoutError :=
  traverse (fun d => descriptor d what) raw.

(** A platform match: the entry states one that satisfies [want], and names a document. *)
Definition matching (want : Platform.Platform) (d : Descriptor) : bool :=
  match platform d with
  | Some p => Platform.satisfies p want && (is_manifest (media_type d) || is_index (media_type d))
  | None => false
  end.

(** The first loop of [pick]: the first match, and what was pushed to [offered] on the way. *)
Fixpoint pick_match (entries : list Descriptor) (want : Platform.Platform)
    (offered : list bytes) : option Descriptor * list bytes :=
  match entries with
  | [] => (None, offered)
  | d :: rest =>
      match platform d with
      | Some p =>
          let offered := offered ++ [Platform.display p] in
          if matching want d then (Some d, offered) else pick_match rest want offered
      | None => pick_match rest want offered
      end
  end.

Definition unplatformed (entries : list Descriptor) : list Descriptor :=
  List.filter (fun d => bool_decide (platform d = None) && is_manifest (media_type d)) entries.
Definition nested_entries (entries : list Descriptor) : list Descriptor :=
  List.filter (fun d => is_index (media_type d)) entries.

(** [Layout::pick], which never fails. *)
Definition pick (entries : list Descriptor) (want : Platform.Platform) (offered : list bytes) :
    option Descriptor * list bytes :=
  let '(found, offered) := pick_match entries want offered in
  match found with
  | Some d => (Some d, offered)
  | None =>
      match unplatformed entries with
      | [only] => (Some only, offered)
      | _ :: _ :: _ as several =>
          (None, offered ++ [show_N (N.of_nat (length several)) ++
                             B " manifests with no platform recorded"])
      | [] =>
          match nested_entries entries with
          | [only] => (Some only, offered)
          | _ => (None, offered)
          end
      end
  end.

(** [dedup], which drops consecutive repeats. *)
Fixpoint dedup (l : list bytes) : list bytes :=
  match l with
  | x :: ((y :: _) as r) => if beq x y then dedup r else x :: dedup r
  | l => l
  end.

(** ** The reader *)

Section Layout.
Context {W F : Type}.
(** [Path::is_dir], [Path::is_file], [fs::read], [fs::metadata(..).len()], [File::open],
    [file.metadata()?.len()], one [read] into the 256 KiB buffer (empty at the end), and
    [file.take(n).read_to_end]; an error is its [Display]. *)
Variables fs_is_dir fs_is_file : bytes -> W -> bool * W.
Variables (fs_read : bytes -> W -> result bytes bytes * W)
  (fs_metadata_len : bytes -> W -> result N bytes * W)
  (fs_open : bytes -> W -> result F bytes * W)
  (fs_file_len : F -> W -> result N bytes * W)
  (fs_read_chunk : F -> W -> result bytes bytes * W)
  (fs_take : F -> N -> W -> result bytes bytes * W).
Variable sha256_hex : bytes -> bytes.
(** [serde_json::from_slice] at each wire type. *)
Variables (from_layout : bytes -> result RawLayout bytes)
  (from_index : bytes -> result RawIndex bytes)
  (from_manifest : bytes -> result RawManifest bytes)
  (from_config : bytes -> result RawConfig bytes).
(** [{:?}] of a string. *)
Variable debug_str : bytes -> bytes.

Definition M (A : Type) : Type := W -> result A LayoutError * W.
Definition retM {A} (r : result A LayoutError) : M A := fun w => (r, w).
Definition bindM {A B} (m : M A) (k : A -> M B) : M B :=
  fun w => let '(r, w') := m w in
           match r with Ok a => k a w' | Err e => (Err e, w') end.
(** A call of the file system, its error wrapped. *)
Definition call {A} (wrap : bytes -> LayoutError) (c : W -> result A bytes * W) : M A :=
  fun w => let '(r, w') := c w in (map_err wrap r, w').
Definition test (c : W -> bool * W) : M bool :=
  fun w => let '(b, w') := c w in (Ok b, w').

Notation "'let!' x ':=' c 'in' k" := (bindM c (fun x => k))
  (at level 10, x pattern, c at level 200, k at level 200).

(** [read_capped] *)
Definition read_capped (path : bytes) (cap : N) (what : bytes) : M bytes :=
  let! file := call (LayoutError.Io path) (fs_open path) in
  let! len := call (LayoutError.Io path) (fs_file_len file) in
  if (cap <? len)%N then retM (Err (LayoutError.TooLarge what cap len))
  else
    let! data := call (LayoutError.Io path) (fs_take file (cap + 1)) in
    if (cap <? N.of_nat (length data))%N
    then retM (Err (LayoutError.TooLarge what cap (N.of_nat (length data))))
    else retM (Ok data).

Definition size_mismatch (d : Descriptor) (actual : N) : LayoutError :=
  LayoutError.Malformed (B "blob " ++ show_digest (digest d))
    (B "the manifest declares " ++ show_N (size d) ++ B " bytes, the file is " ++ show_N actual).

(** [check_digest].  [d.digest.compute] panics on an algorithm [parse_digest] does not accept,
    so never on a digest of a [Descriptor] ([digest_ok_computes]); that branch is an error
    here. *)
Definition check_digest (d : Descriptor) (data : bytes) : result unit LayoutError :=
  if negb (size d =? N.of_nat (length data))%N
  then Err (size_mismatch d (N.of_nat (length data)))
  else
    match compute_digest sha256_hex (digest d) data with
    | Some actual =>
        if negb (beq actual (Digest.encoded (digest d)))
        then Err (LayoutError.DigestMismatch (show_digest (digest d)) actual)
        else Ok tt
    | None => Err (LayoutError.DigestMismatch (show_digest (digest d)) [])
    end.

(** The [Layout] is its root. *)
Section Reader.
Variable root : bytes.

(** [Layout::open] *)
Definition open : M bytes :=
  let not detail := LayoutError.NotALayout root detail in
  let! dir := test (fs_is_dir root) in
  if negb dir then retM (Err (not (B "not a directory")))
  else
    let! data := call (fun e => not (B "no `oci-layout`: " ++ e))
                   (fs_read (path_join root (B "oci-layout"))) in
    let! parsed := retM (map_err (fun e => not (B "`oci-layout` does not parse: " ++ e))
                           (from_layout data)) in
    let! version := retM (ok_or (image_layout_version parsed)
                            (not (B "`oci-layout` declares no imageLayoutVersion"))) in
    if negb (bool_decide (version ∈ LAYOUT_VERSIONS)) then
      retM (Err (not (B "layout version " ++ debug_str version ++
                      B " is not one this build reads (knows: " ++
                      join (B ", ") LAYOUT_VERSIONS ++ B ")")))
    else
      let! file := test (fs_is_file (path_join root (B "index.json"))) in
      if negb file then retM (Err (not (B "no `index.json`"))) else retM (Ok root).

(** [Layout::index] *)
Definition index : M (list Descriptor) :=
  let! data := read_capped (path_join root (B "index.json")) MAX_METADATA_BYTES (B "index.json") in
  let! raw := retM (map_err (LayoutError.Malformed (B "index.json")) (from_index data)) in
  retM (descriptors (default [] (raw_manifests raw)) (B "index.json")).

(** [Layout::blob_path] *)
Definition blob_path (d : Descriptor) : bytes := path_join root (digest_blob_path (digest d)).

(** [Layout::metadata_blob] *)
Definition metadata_blob (d : Descriptor) (what : bytes) : M bytes :=
  if (MAX_METADATA_BYTES <? size d)%N
  then retM (Err (LayoutError.TooLarge what MAX_METADATA_BYTES (size d)))
  else
    let! data := read_capped (blob_path d) MAX_METADATA_BYTES what in
    let! _ := retM (check_digest d data) in
    retM (Ok data).

(** [Layout::nested_index] *)
Definition nested_index (d : Descriptor) : M (list Descriptor) :=
  let! data := metadata_blob d (B "a nested index") in
  let! raw := retM (map_err (LayoutError.Malformed (B "index " ++ show_digest (digest d)))
                      (from_index data)) in
  retM (descriptors (default [] (raw_manifests raw)) (B "a nested index")).

(** What [Layout::manifest] makes of the decoded document. *)
Definition manifest_of (d : Descriptor) (raw : RawManifest) : result Manifest LayoutError :=
  let malformed detail := LayoutError.Malformed (B "manifest " ++ show_digest (digest d)) detail in
  let? c := ok_or (raw_config raw) (malformed (B "no config descriptor")) in
  let? config := descriptor c (B "a manifest's config") in
  if negb (bool_decide (media_type config ∈ CONFIG_TYPES)) then
    Err (malformed (B "its config blob is " ++ debug_str (media_type config) ++
                    B ", which is not an image config"))
  else
    let? layers := descriptors (default [] (raw_layers raw)) (B "a manifest's layers") in
    match layers with
    | [] => Err (malformed (B "no layers; an image with no filesystem cannot be a base"))
    | _ =>
        match List.find (fun l => bool_decide (Compression.of_media (media_type l) = None)) layers with
        | Some l =>
            Err (malformed (B "layer " ++ show_digest (digest l) ++ B " is " ++
              debug_str (media_type l) ++
              B ", which is not a tar layer isopod can unpack (foreign or non-distributable layers are not stored in the layout at all)"))
        | None => Ok (MkManifest config layers)
        end
    end.

(** [Layout::manifest] *)
Definition manifest (d : Descriptor) : M Manifest :=
  let! data := metadata_blob d (B "a manifest") in
  let! raw := retM (map_err (LayoutError.Malformed (B "manifest " ++ show_digest (digest d)))
                      (from_manifest data)) in
  retM (manifest_of d raw).

(** What [Layout::config] makes of the decoded document. *)
Definition config_of (raw : RawConfig) : ImageConfig :=
  let inner := default (MkRawConfigInner None None None None None) (raw_inner raw) in
  let nonempty (o : option bytes) := s ← o; if beq s [] then None else Some s in
  MkImageConfig (default [] (raw_env inner)) (nonempty (raw_working_dir inner))
    (default [] (raw_entrypoint inner)) (default [] (raw_cmd inner))
    (nonempty (raw_user inner)) (default [] (raw_rootfs raw ≫= raw_diff_ids)).

(** [Layout::config] *)
Definition config (d : Descriptor) : M ImageConfig :=
  let! data := metadata_blob d (B "a config") in
  let! raw := retM (map_err (LayoutError.Malformed (B "config " ++ show_digest (digest d)))
                      (from_config data)) in
  retM (Ok (config_of raw)).

(** The loop of [Layout::resolve]: [rounds] iterations are left. *)
Fixpoint resolve_loop (rounds : nat) (want : Platform.Platform) (entries : list Descriptor)
    (offered : list bytes) : M Manifest :=
  let none offered :=
    retM (Err (LayoutError.NoSuchPlatform (Platform.display want) (dedup (Order.sort_bytes offered)))) in
  match rounds with
  | O => none offered
  | S rounds' =>
      let '(chosen, offered) := pick entries want offered in
      match chosen with
      | None => none offered
      | Some chosen =>
          if is_manifest (media_type chosen) then manifest chosen
          else
            let! entries := nested_index chosen in
            resolve_loop rounds' want entries offered
      end
  end.

(** [Layout::resolve] *)
Definition resolve (want : Platform.Platform) : M Manifest :=
  let! entries := index in
  resolve_loop MAX_INDEX_DEPTH want entries [].

(** The loop of [Layout::verify]: the bytes of a file to its end, [fuel] reads at most;
    [None] when the fuel runs out. *)
Fixpoint read_chunks (fuel : nat) (file : F) (acc : bytes) (w : W) :
    option (result bytes bytes * W) :=
  match fuel with
  | O => None
  | S fuel' =>
      let '(r, w') := fs_read_chunk file w in
      match r with
      | Err e => Some (Err e, w')
      | Ok [] => Some (Ok acc, w')
      | Ok chunk => read_chunks fuel' file (acc ++ chunk) w'
      end
  end.

(** [Layout::verify]; the hasher is the hash of all it was fed. *)
Definition verify (fuel : nat) (d : Descriptor) (path : bytes) (w : W) :
    option (result unit LayoutError * W) :=
  let io := LayoutError.Io path in
  let '(r, w) := call io (fs_metadata_len path) w in
  match r with
  | Err e => Some (Err e, w)
  | Ok len =>
      if negb (len =? size d)%N then Some (Err (size_mismatch d len), w)
      else
        let '(r, w) := call io (fs_open path) w in
        match r with
        | Err e => Some (Err e, w)
        | Ok file =>
            match read_chunks fuel file [] w with
            | None => None
            | Some (Err e, w) => Some (Err (io e), w)
            | Some (Ok data, w) =>
                let actual := sha256_hex data in
                if negb (beq actual (Digest.encoded (digest d)))
                then Some (Err (LayoutError.DigestMismatch (show_digest (digest d)) actual), w)
                else Some (Ok tt, w)
            end
        end
  end.

(** [Layout::blob] *)
Definition blob (fuel : nat) (d : Descriptor) (w : W) : option (result F LayoutError * W) :=
  match verify fuel d (blob_path d) w with
  | None => None
  | Some (Err e, w) => Some (Err e, w)
  | Some (Ok _, w) => Some (call (LayoutError.Io (blob_path d)) (fs_open (blob_path d)) w)
  end.
End Reader.
End Layout.

(** ** The choice of an entry *)

(** What [pick] may choose: the first platform match; with none, the only manifest that states
    no platform; with no such manifest either, the only nested index. *)
Inductive Chosen (want : Platform.Platform) (entries : list Descriptor) : Descriptor -> Prop :=
  | chosen_match before d after :
      entries = before ++ d :: after -> Forall (fun e => matching want e = false) before ->
      matching want d = true -> Chosen want entries d
  | chosen_unplatformed d :
      Forall (fun e => matching want e = false) entries ->
      unplatformed entries = [d] -> Chosen want entries d
  | chosen_nested d :
      Forall (fun e => matching want e = false) entries ->
      unplatformed entries = [] -> nested_entries entries = [d] -> Chosen want entries d.

Lemma pick_match_spec want entries offered :
  match fst (pick_match entries want offered) with
  | Some d => exists before after, entries = before ++ d :: after /\
      Forall (fun e => matching want e = false) before /\ matching want d = true
  | None => Forall (fun e => matching want e = false) entries
  end.
Proof.
  revert offered. induction entries as [|d entries IH]; intros offered; cbn [pick_match fst].
  { constructor. }
  destruct (matching want d) eqn:Em.
  - destruct (platform d) eqn:Ep; [|by unfold matching in Em; rewrite Ep in Em].
    cbn [fst]. by exists [], entries.
  - assert (Hstep : forall o, match fst (pick_match entries want o) with
      | Some e => exists before after, d :: entries = before ++ e :: after /\
          Forall (fun e => matching want e = false) before /\ matching want e = true
      | None => Forall (fun e => matching want e = false) (d :: entries) end).
    { intros o. specialize (IH o). destruct (fst (pick_match entries want o)) as [e|].
      - destruct IH as (b & a & -> & Hb & He). exists (d :: b), a. by repeat constructor.
      - by constructor. }
    destruct (platform d); apply Hstep.
Qed.

Lemma pick_spec want entries offered :
  match fst (pick entries want offered) with
  | Some d => Chosen want entries d
  | None => Forall (fun e => matching want e = false) entries /\
      (1 < length (unplatformed entries) \/
       unplatformed entries = [] /\ length (nested_entries entries) <> 1)
  end.
Proof.
  unfold pick. pose proof (pick_match_spec want entries offered) as Hm.
  destruct (pick_match entries want offered) as [[d|] o]; cbn [fst] in *.
  { destruct Hm as (b & a & -> & Hb & Hd). by econstructor. }
  destruct (unplatformed entries) as [|d [|d' l]] eqn:Eu; cbn [fst].
  - destruct (nested_entries entries) as [|d [|d' l]] eqn:En; cbn [fst].
    + split; [done|]. by right.
    + by apply chosen_nested.
    + split; [done|]. right. by split.
  - by apply chosen_unplatformed.
  - split; [done|]. left. simpl. lia.
Qed.

Lemma chosen_in want entries d : Chosen want entries d -> d ∈ entries.
Proof.
  assert (Hf : forall p x, List.filter p entries = [x] -> x ∈ entries).
  { intros p x Hp. apply list_elem_of_In.
    assert (Hi : In x (List.filter p entries)) by (rewrite Hp; by left).
    by apply filter_In in Hi as [? _]. }
  intros [b x a He _ _|x _ Hu|x _ _ Hn]; [rewrite He; set_solver|by eapply Hf..].
Qed.

Lemma is_manifest_not_index t : is_manifest t = true -> is_index t = false.
Proof.
  unfold is_manifest, is_index. intros H%bool_decide_eq_true. apply bool_decide_eq_false.
  unfold MANIFEST_TYPES, INDEX_TYPES in *. rewrite !elem_of_cons in *. intros Hi.
  destruct H as [->|[->|?%elem_of_nil]]; [..|done];
    (destruct Hi as [Hi|[Hi|?%elem_of_nil]]; [discriminate Hi..|done]).
Qed.

(** A chosen entry is a document of one of the two kinds, and a chosen manifest that states a
    platform states one that satisfies the request. *)
Lemma chosen_sound want entries d :
  Chosen want entries d ->
  (is_manifest (media_type d) = true \/ is_index (media_type d) = true) /\
  (is_manifest (media_type d) = true ->
   forall p, platform d = Some p -> Platform.satisfies p want = true).
Proof.
  assert (Hf : forall p x, List.filter p entries = [x] -> p x = true).
  { intros p x Hp. assert (Hi : In x (List.filter p entries)) by (rewrite Hp; by left).
    by apply filter_In in Hi as [_ ?]. }
  intros [b x a _ _ Hm|x _ Hu|x _ _ Hn].
  - unfold matching in Hm. destruct (platform x) as [p|]; [|done]. reflect_bools.
    split; [tauto|]. by intros _ ? [= <-].
  - apply Hf, andb_true_iff in Hu as [Hp Hm]. apply bool_decide_eq_true in Hp. rewrite Hp.
    split; [by left|done].
  - apply Hf in Hn. split; [by right|]. intros Hm%is_manifest_not_index. congruence.
Qed.

(** ** Descriptors *)

Lemma descriptor_ok raw what d : descriptor raw what = Ok d -> digest_ok (digest d).
Proof.
  unfold descriptor. intros H. run_ok. by apply parse_digest_Ok in Hrun0 as [? _].
Qed.

Lemma descriptors_ok raw what ds :
  descriptors raw what = Ok ds -> Forall (fun d => digest_ok (digest d)) ds.
Proof.
  unfold descriptors. intros H%traverse_Ok. induction H as [|x d xs ds Hx _ IH]; constructor.
  - by eapply descriptor_ok.
  - done.
Qed.

(** What a manifest that is accepted carries. *)
Definition manifest_wf (m : Manifest) : Prop :=
  media_type (config_desc m) ∈ CONFIG_TYPES /\ digest_ok (digest (config_desc m)) /\
  layers m <> [] /\
  Forall (fun l => digest_ok (digest l) /\ Compression.of_media (media_type l) <> None) (layers m).

Lemma manifest_of_wf debug_str d raw m : manifest_of debug_str d raw = Ok m -> manifest_wf m.
Proof.
  unfold manifest_of. intros Hm. run_ok. apply descriptor_ok in Hrun0.
  destruct (bool_decide (media_type a0 ∈ CONFIG_TYPES)) eqn:Ec; [|done]. cbn [negb] in Hm.
  apply bool_decide_eq_true in Ec. run_ok. apply descriptors_ok in Hrun1.
  destruct a1 as [|l ls]; [done|]. destruct (List.find _ (l :: ls)) eqn:Ef; [done|].
  injection Hm as <-. split; [done|]. split; [done|]. split; [done|].
  cbn [layers]. apply Forall_forall. intros x Hx. rewrite Forall_forall in Hrun1.
  split; [by apply Hrun1|]. apply list_elem_of_In in Hx. pose proof (find_none _ _ Ef _ Hx) as Hn.
  by apply bool_decide_eq_false in Hn.
Qed.

(** ** Reading, verified *)

Lemma bindM_Ok {W A B} (m : M A) (k : A -> M B) (w : W) b w' :
  bindM m k w = (Ok b, w') <-> exists a w1, m w = (Ok a, w1) /\ k a w1 = (Ok b, w').
Proof. unfold bindM. destruct (m w) as [[a|e] w1]; naive_solver. Qed.

Lemma retM_Ok {W A} (r : result A LayoutError) (w : W) a w' :
  retM r w = (Ok a, w') <-> r = Ok a /\ w' = w.
Proof. unfold retM. naive_solver. Qed.

Lemma call_Ok {W A} wrap (c : W -> result A bytes * W) w a w' :
  call wrap c w = (Ok a, w') <-> c w = (Ok a, w').
Proof. unfold call. destruct (c w) as [[x|e] w1]; naive_solver. Qed.

Section Reading.
Context {W F : Type}.
Context (fs_open : bytes -> W -> result F bytes * W) (fs_file_len : F -> W -> result N bytes * W)
  (fs_take : F -> N -> W -> result bytes bytes * W).
Context (sha256_hex : bytes -> bytes) (from_index : bytes -> result RawIndex bytes)
  (from_manifest : bytes -> result RawManifest bytes) (debug_str : bytes -> bytes).
Context (root : bytes).
Implicit Types (w : W) (d : Descriptor).

Local Abbreviation read_capped := (read_capped fs_open fs_file_len fs_take).
Local Abbreviation metadata_blob := (metadata_blob fs_open fs_file_len fs_take sha256_hex root).
Local Abbreviation nested_index :=
  (nested_index fs_open fs_file_len fs_take sha256_hex from_index root).
Local Abbreviation manifest :=
  (manifest fs_open fs_file_len fs_take sha256_hex from_manifest debug_str root).
Local Abbreviation resolve_loop :=
  (resolve_loop fs_open fs_file_len fs_take sha256_hex from_index from_manifest debug_str root).

(** The bytes one bounded read of the file at [path] returned, at some moment of the run. *)
Definition read_from (path data : bytes) : Prop :=
  exists file w0 w1 w2 w3, fs_open path w0 = (Ok file, w1) /\
    fs_take file (MAX_METADATA_BYTES + 1) w2 = (Ok data, w3).

Lemma read_capped_Ok path what w data w' :
  read_capped path MAX_METADATA_BYTES what w = (Ok data, w') ->
  read_from path data /\ (N.of_nat (length data) <= MAX_METADATA_BYTES)%N.
Proof.
  unfold Layout.read_capped. intros (file & w1 & Ho%call_Ok & Hr)%bindM_Ok.
  apply bindM_Ok in Hr as (n & w2 & Hl%call_Ok & Hr).
  destruct (MAX_METADATA_BYTES <? n)%N; [by apply retM_Ok in Hr as [? _]|].
  apply bindM_Ok in Hr as (x & w3 & Ht%call_Ok & Hr).
  destruct (N.ltb_spec MAX_METADATA_BYTES (N.of_nat (length x))) as [|Hle];
    [by apply retM_Ok in Hr as [? _]|].
  apply retM_Ok in Hr as [[= ->] ->]. split; [|done]. by exists file, w, w1, w2, w3.
Qed.

(** The bytes of a metadata blob that passed: read whole from the path its digest spells, of
    the size stated, no longer than the ceiling, and hashing to the digest. *)
Definition verified (d : Descriptor) (data : bytes) : Prop :=
  read_from (blob_path root d) data /\ N.of_nat (length data) = size d /\
  (size d <= MAX_METADATA_BYTES)%N /\
  compute_digest sha256_hex (digest d) data = Some (Digest.encoded (digest d)).

Lemma check_digest_Ok d data :
  check_digest sha256_hex d data = Ok tt <->
  N.of_nat (length data) = size d /\
  compute_digest sha256_hex (digest d) data = Some (Digest.encoded (digest d)).
Proof.
  unfold check_digest. destruct (N.eqb_spec (size d) (N.of_nat (length data))) as [->|Hn]; cbn [negb].
  - destruct (compute_digest _ _ _) as [h|]; [|naive_solver].
    destruct (beq h _) eqn:Eb; cbn [negb].
    + apply beq_true in Eb as ->. naive_solver.
    + apply bool_decide_eq_false in Eb. naive_solver.
  - split; [done|]. intros [? _]. congruence.
Qed.

Lemma metadata_blob_Ok d what w data w' :
  metadata_blob d what w = (Ok data, w') -> verified d data.
Proof.
  unfold Layout.metadata_blob.
  destruct (N.ltb_spec MAX_METADATA_BYTES (size d)); [by intros [? _]%retM_Ok|].
  intros (x & w1 & Hr & Hk)%bindM_Ok. apply bindM_Ok in Hk as ([] & w2 & Hc & Hk).
  apply retM_Ok in Hc as [Hc ->]. apply retM_Ok in Hk as [[= ->] ->].
  apply check_digest_Ok in Hc as [Hl Hd]. apply read_capped_Ok in Hr as [Hf _]. done.
Qed.

Lemma manifest_Ok d w m w' :
  manifest d w = (Ok m, w') ->
  exists data raw, verified d data /\ from_manifest data = Ok raw /\
    manifest_of debug_str d raw = Ok m.
Proof.
  unfold Layout.manifest. intros (data & w1 & Hb%metadata_blob_Ok & Hk)%bindM_Ok.
  apply bindM_Ok in Hk as (raw & w2 & [Hr%map_err_Ok ->]%retM_Ok & Hk).
  apply retM_Ok in Hk as [Hk ->]. eauto.
Qed.

Lemma nested_index_Ok d w entries w' :
  nested_index d w = (Ok entries, w') ->
  exists data raw, verified d data /\ from_index data = Ok raw /\
    descriptors (default [] (raw_manifests raw)) (B "a nested index") = Ok entries.
Proof.
  unfold Layout.nested_index. intros (data & w1 & Hb%metadata_blob_Ok & Hk)%bindM_Ok.
  apply bindM_Ok in Hk as (raw & w2 & [Hr%map_err_Ok ->]%retM_Ok & Hk).
  apply retM_Ok in Hk as [Hk ->]. eauto.
Qed.

(** A manifest reached from a working set of entries through at most [n] documents, each one
    chosen from the set before it and verified before it was parsed. *)
Inductive Resolves (want : Platform.Platform) : nat -> list Descriptor -> Manifest -> Prop :=
  | resolves_manifest n entries d data raw m :
      Chosen want entries d -> is_manifest (media_type d) = true ->
      (forall p, platform d = Some p -> Platform.satisfies p want = true) ->
      verified d data -> from_manifest data = Ok raw -> manifest_of debug_str d raw = Ok m ->
      Resolves want (S n) entries m
  | resolves_nested n entries d data raw entries' m :
      Chosen want entries d -> is_index (media_type d) = true ->
      verified d data -> from_index data = Ok raw ->
      descriptors (default [] (raw_manifests raw)) (B "a nested index") = Ok entries' ->
      Resolves want n entries' m -> Resolves want (S n) entries m.

Lemma resolve_loop_Ok n want entries offered w m w' :
  resolve_loop n want entries offered w = (Ok m, w') -> Resolves want n entries m.
Proof.
  revert entries offered w. induction n as [|n IH]; intros entries offered w;
    cbn [Layout.resolve_loop]; [by intros [? _]%retM_Ok|].
  pose proof (pick_spec want entries offered) as Hp.
  destruct (pick entries want offered) as [[d|] o]; cbn [fst] in Hp; [|by intros [? _]%retM_Ok].
  destruct (chosen_sound _ _ _ Hp) as [Hk Hplat]. destruct (is_manifest (media_type d)) eqn:Em.
  - intros (data & raw & Hv & Hr & Hm)%manifest_Ok. eapply resolves_manifest; eauto.
  - intros (es & w1 & (data & raw & Hv & Hr & Hd)%nested_index_Ok & Hl)%bindM_Ok.
    destruct Hk as [|Hk]; [done|]. eapply resolves_nested; eauto.
Qed.

Lemma Resolves_wf n want entries m : Resolves want n entries m -> manifest_wf m.
Proof. induction 1; [by eapply manifest_of_wf|done]. Qed.
End Reading.

(** A manifest comes only out of verified bytes: whatever the file system returns from one
    call to the next, [resolve] yields a manifest only if it was parsed from the blob named by
    an entry of [index.json] or of a chain of at most three nested indexes, each document
    chosen by the platform rules, no longer than the ceiling, read at the path its digest
    spells and hashing to that digest before it was parsed; a manifest whose entry states a
    platform states one satisfying the request; and its config and layers are of known kinds
    with well-formed digests. *)
Theorem resolve_sound {W F : Type} (fs_open : bytes -> W -> result F bytes * W) fs_file_len fs_take
    sha256_hex from_index from_manifest debug_str root want w m w'
    (Hr : resolve fs_open fs_file_len fs_take sha256_hex from_index from_manifest debug_str root
            want w = (Ok m, w')) :
  exists data raw entries,
    read_from fs_open fs_take (path_join root (B "index.json")) data /\
    (N.of_nat (length data) <= MAX_METADATA_BYTES)%N /\ from_index data = Ok raw /\
    descriptors (default [] (raw_manifests raw)) (B "index.json") = Ok entries /\
    Resolves fs_open fs_take sha256_hex from_index from_manifest debug_str root want
      MAX_INDEX_DEPTH entries m /\
    manifest_wf m.
Proof.
  unfold resolve in Hr. apply bindM_Ok in Hr as (entries & w1 & Hi & Hl). unfold index in Hi.
  apply bindM_Ok in Hi as (data & w2 & [Hf Hle]%read_capped_Ok & Hi).
  apply bindM_Ok in Hi as (raw & w3 & [Hraw%map_err_Ok ->]%retM_Ok & Hi).
  apply retM_Ok in Hi as [Hd ->]. apply resolve_loop_Ok in Hl.
  exists data, raw, entries. split; [done|]. split; [done|]. split; [done|]. split; [done|].
  split; [done|]. by eapply Resolves_wf.
Qed.

(** ** A small layout *)

Module Sample.
Definition hex_of (c : ascii) : bytes := replicate 64 c.
Definition sha256_hex (data : bytes) : bytes :=
  if beq data (B "nested") then hex_of "a" else if beq data (B "manifest") then hex_of "b"
  else if beq data (B "cycle") then hex_of "c" else hex_of "0".
Definition file_at (path : bytes) : option bytes :=
  if beq path (B "img/index.json") then Some (B "index")
  else if beq path (B "img/blobs/sha256/" ++ hex_of "a") then Some (B "nested")
  else if beq path (B "img/blobs/sha256/" ++ hex_of "b") then Some (B "manifest")
  else if beq path (B "img/blobs/sha256/" ++ hex_of "c") then Some (B "cycle")
  else None.
Definition fs_open (path : bytes) (w : unit) : result bytes bytes * unit :=
  (ok_or (file_at path) (B "no such file"), w).
Definition fs_file_len (file : bytes) (w : unit) : result N bytes * unit :=
  (Ok (N.of_nat (length file)), w).
Definition fs_take (file : bytes) (n : N) (w : unit) : result bytes bytes * unit :=
  (Ok (take (N.to_nat n) file), w).

Definition raw (media_type : string) (c : ascii) (size : Z) (p : option RawPlatform) : RawDescriptor :=
  MkRawDescriptor (Some (B media_type)) (Some (B "sha256:" ++ hex_of c)) (Some size) p None.
Definition arm64 : RawPlatform := MkRawPlatform (Some (B "linux")) (Some (B "arm64")) None.
Definition amd64 : RawPlatform := MkRawPlatform (Some (B "linux")) (Some (B "amd64")) None.
Definition OCI_INDEX : string := "application/vnd.oci.image.index.v1+json".
Definition OCI_MANIFEST : string := "application/vnd.oci.image.manifest.v1+json".

Definition from_manifest (data : bytes) : result RawManifest bytes :=
  if beq data (B "manifest") then
    Ok (MkRawManifest (Some (raw "application/vnd.oci.image.config.v1+json" "d" 7 None))
          (Some [raw "application/vnd.oci.image.layer.v1.tar+gzip" "e" 9 None]))
  else Err (B "expected value").

(** [index.json] lists one nested index, for the platform given; inside it, one manifest. *)
Definition from_index (outer inner : option RawPlatform) (data : bytes) : result RawIndex bytes :=
  if beq data (B "index") then Ok (MkRawIndex (Some [raw OCI_INDEX "a" 6 outer]))
  else if beq data (B "nested") then Ok (MkRawIndex (Some [raw OCI_MANIFEST "b" 8 inner]))
  else Err (B "expected value").

(** An index whose only entry is itself. *)
Definition from_cycle (data : bytes) : result RawIndex bytes :=
  Ok (MkRawIndex (Some [raw OCI_INDEX "c" 5 None])).

Definition resolve_with from_index (want : Platform.Platform) : result Manifest LayoutError :=
  fst (resolve fs_open fs_file_len fs_take sha256_hex from_index from_manifest (fun s => s)
         (B "img") want tt).

Definition desc (media_type : string) (c : ascii) (size : N) : Descriptor :=
  MkDescriptor (B media_type) (Digest.MkDigest (B "sha256") (hex_of c)) size None [].
Definition the_manifest : Manifest :=
  MkManifest (desc "application/vnd.oci.image.config.v1+json" "d" 7)
    [desc "application/vnd.oci.image.layer.v1.tar+gzip" "e" 9].
End Sample.

Lemma resolve_sound_witness :
  fst (resolve Sample.fs_open Sample.fs_file_len Sample.fs_take Sample.sha256_hex
         (Sample.from_index None (Some Sample.amd64)) Sample.from_manifest (fun s => s)
         (B "img") Platform.host tt) = Ok Sample.the_manifest /\
  manifest_wf Sample.the_manifest.
Proof.
  assert (Hr : resolve Sample.fs_open Sample.fs_file_len Sample.fs_take Sample.sha256_hex
         (Sample.from_index None (Some Sample.amd64)) Sample.from_manifest (fun s => s)
         (B "img") Platform.host tt = (Ok Sample.the_manifest, tt)) by (vm_compute; reflexivity).
  split; [by rewrite Hr|].
  destruct (resolve_sound _ _ _ _ _ _ _ _ _ _ _ _ Hr) as (data & raw & entries & _ & _ & _ & _ & _ & Hwf).
  exact Hwf.
Defined.

(** A layout whose index points at itself costs four rounds and is refused. *)
Example cycle_refused :
  Sample.resolve_with Sample.from_cycle Platform.host =
  Err (LayoutError.NoSuchPlatform (B "linux/amd64") []).
Proof. vm_compute. reflexivity. Qed.

(** A manifest stated for another platform is refused inside a nested index too. *)
Example foreign_manifest_refused :
  Sample.resolve_with (Sample.from_index None (Some Sample.arm64)) Platform.host =
  Err (LayoutError.NoSuchPlatform (B "linux/amd64") [B "linux/arm64"]).
Proof. vm_compute. reflexivity. Qed.

(** But the platform a lone nested index states is not looked at: [pick]'s last resort follows
    the only index whatever it says, so an index stated for [linux/arm64] whose manifest states
    nothing resolves for [linux/amd64]. *)
Example foreign_index_followed :
  Sample.resolve_with (Sample.from_index (Some Sample.arm64) None) Platform.host =
  Ok Sample.the_manifest.
Proof. vm_compute. reflexivity. Qed.

(** ** Blobs for streaming *)

Section Blob.
Context {W F : Type}.
Context (fs_metadata_len : bytes -> W -> result N bytes * W)
  (fs_open : bytes -> W -> result F bytes * W) (fs_read_chunk : F -> W -> result bytes bytes * W)
  (sha256_hex : bytes -> bytes).

(** A file that is there and does not change while it is read: its length is stated, it opens
    at its start, and a read returns the next bytes in whatever pieces it likes, nothing only
    at the end. *)
Record StaticFile (path content : bytes) (there : W -> Prop)
    (reading : F -> bytes -> W -> Prop) : Prop := {
  static_len w : there w -> exists w', there w' /\
    fs_metadata_len path w = (Ok (N.of_nat (length content)), w');
  static_open w : there w -> exists file w', there w' /\ reading file content w' /\
    fs_open path w = (Ok file, w');
  static_read file rest w : there w -> reading file rest w ->
    exists chunk rest' w', there w' /\ reading file rest' w' /\ rest = chunk ++ rest' /\
      (chunk = [] -> rest = []) /\ fs_read_chunk file w = (Ok chunk, w') }.

Context (path content : bytes) (there : W -> Prop) (reading : F -> bytes -> W -> Prop).
Context (Hs : StaticFile path content there reading).

Lemma read_chunks_all fuel file rest acc w :
  length rest < fuel -> there w -> reading file rest w ->
  exists w', there w' /\
    read_chunks fs_read_chunk fuel file acc w = Some (Ok (acc ++ rest), w').
Proof.
  revert rest acc w. induction fuel as [|fuel IH]; intros rest acc w Hf Ht Hr; [lia|].
  destruct (static_read _ _ _ _ Hs file rest w Ht Hr)
    as (chunk & rest' & w' & Ht' & Hr' & -> & He & Hc).
  cbn [read_chunks]. rewrite Hc. destruct chunk as [|x chunk].
  - rewrite (He eq_refl), app_nil_r. eauto.
  - rewrite (app_assoc acc). apply IH; [|done..]. rewrite length_app in Hf. simpl in Hf. lia.
Qed.

Lemma verify_static fuel d w :
  length content < fuel -> there w ->
  exists w', there w' /\
    verify fs_metadata_len fs_open fs_read_chunk sha256_hex fuel d path w =
    Some (if negb (N.of_nat (length content) =? size d)%N
          then Err (size_mismatch d (N.of_nat (length content)))
          else if negb (beq (sha256_hex content) (Digest.encoded (digest d)))
          then Err (LayoutError.DigestMismatch (show_digest (digest d)) (sha256_hex content))
          else Ok tt, w').
Proof.
  intros Hf Ht. unfold verify, call.
  destruct (static_len _ _ _ _ Hs w Ht) as (w1 & Ht1 & ->). cbn [map_err].
  destruct (negb (_ =? _)%N); [eauto|].
  destruct (static_open _ _ _ _ Hs w1 Ht1) as (file & w2 & Ht2 & Hr2 & ->). cbn [map_err].
  destruct (read_chunks_all fuel file content [] w2 Hf Ht2 Hr2) as (w3 & Ht3 & ->).
  rewrite app_nil_l. destruct (negb (beq _ _)); eauto.
Qed.
End Blob.

(** A blob is handed out exactly when it is the one the descriptor names: over a file that
    stays as it is, in however many pieces its reads come, [Layout::blob] ends, refuses a file
    of another size and one whose bytes do not hash to the digest, naming both, and otherwise
    returns a handle at the start of the whole content, not of what was left of it. *)
Theorem blob_spec {W F : Type} fs_metadata_len (fs_open : bytes -> W -> result F bytes * W)
    fs_read_chunk sha256_hex root d content there reading fuel w
    (Hs : StaticFile fs_metadata_len fs_open fs_read_chunk (blob_path root d) content there reading)
    (Hf : length content < fuel) (Ht : there w) :
  exists r w', blob fs_metadata_len fs_open fs_read_chunk sha256_hex root fuel d w = Some (r, w') /\
    (N.of_nat (length content) <> size d ->
       r = Err (size_mismatch d (N.of_nat (length content)))) /\
    (N.of_nat (length content) = size d -> sha256_hex content <> Digest.encoded (digest d) ->
       r = Err (LayoutError.DigestMismatch (show_digest (digest d)) (sha256_hex content))) /\
    (N.of_nat (length content) = size d -> sha256_hex content = Digest.encoded (digest d) ->
       exists file, r = Ok file /\ reading file content w').
Proof.
  unfold blob. destruct (verify_static _ _ _ sha256_hex _ _ _ _ Hs fuel d w Hf Ht) as (w1 & Ht1 & ->).
  destruct (N.eqb_spec (N.of_nat (length content)) (size d)) as [El|El]; cbn [negb].
  2:{ eexists _, _. split; [reflexivity|]. split; [done|]. by split; intros ?. }
  destruct (beq (sha256_hex content) _) eqn:Eb; cbn [negb].
  - apply beq_true in Eb. destruct (static_open _ _ _ _ _ _ _ Hs w1 Ht1) as (file & w2 & Ht2 & Hr & Ho).
    unfold call. rewrite Ho. cbn [map_err]. eexists _, _. split; [reflexivity|].
    split; [by intros ?|]. split; [by intros _ ?|]. eauto.
  - apply bool_decide_eq_false in Eb. eexists _, _. split; [reflexivity|].
    split; [by intros ?|]. split; [done|]. by intros _ ?.
Qed.

(** The world of the witness: one open file, the bytes of it left, read two at a time. *)
Lemma blob_spec_witness :
  let d := Sample.desc "application/vnd.oci.image.layer.v1.tar" "c" 5 in
  exists w', blob (fun p (w : bytes) => (Ok 5%N, w)) (fun p w => (Ok tt, B "cycle"))
    (fun _ w => (Ok (take 2 w), drop 2 w)) Sample.sha256_hex (B "img") 6 d [] = Some (Ok tt, w').
Proof.
  intros d.
  destruct (blob_spec (W := bytes) (F := unit) (fun p w => (Ok 5%N, w)) (fun p w => (Ok tt, B "cycle"))
    (fun _ w => (Ok (take 2 w), drop 2 w)) Sample.sha256_hex (B "img") d (B "cycle")
    (fun _ => True) (fun _ rest w => rest = w) 6 []) as ([[]|e] & w' & Hb & _ & _ & Hok).
  - split; [eauto|eauto|]. intros file rest w _ ->. exists (take 2 w), (drop 2 w), (drop 2 w).
    split; [done|]. split; [done|]. split; [by rewrite take_drop|].
    split; [|done]. by destruct w as [|x [|y w]].
  - simpl. lia.
  - done.
  - by exists w'.
  - destruct Hok as (f & [=] & _); vm_compute; reflexivity.
Defined.
