(* ===== verification/Effects.v ===== *)
(** * Effects: computations with a state and errors

    The monad of the modelled code that changes a state and may fail: [SE], with the notation
    [do!], the [?]-less [se_try], and two ways to reason: triples, and the inversion of a
    successful run. *)
From S2P Require Import Prelude.

(** ** Computations *)

Definition SE (S E A : Type) : Type := S -> result A E * S.
Definition se_ret {S E A} (r : result A E) : SE S E A := fun s => (r, s).
Definition se_bind {S E A B} (m : SE S E A) (k : A -> SE S E B) : SE S E B :=
  fun s => let '(r, s') := m s in match r with Ok a => k a s' | Err e => (Err e, s') end.
(** The result of a call as a value, for a [match] on it. *)
Definition se_try {S E F A} (m : SE S E A) : SE S F (result A E) :=
  fun s => let '(r, s') := m s in (Ok r, s').
Definition se_map_err {S E F A} (f : E -> F) (m : SE S E A) : SE S F A :=
  fun s => let '(r, s') := m s in (map_err f r, s').

Notation "'do!' x ':=' c 'in' k" := (se_bind c (fun x => k))
  (at level 10, x pattern, c at level 200, k at level 200).

(** [for x in l { m(x)?; }] *)
Fixpoint se_iter {S E A} (m : A -> SE S E unit) (l : list A) : SE S E unit :=
  match l with
  | [] => se_ret (Ok tt)
  | x :: r => do! _ := m x in se_iter m r
  end.

(** ** Reasoning about computations *)

(** From a state in [P], [m] ends with a result and a state in [Q]. *)
Definition triple {S E A} (P : S -> Prop) (m : SE S E A) (Q : result A E -> S -> Prop) : Prop :=
  forall s, P s -> Q (fst (m s)) (snd (m s)).

(** A postcondition for each outcome. *)
Definition outcome {S E A} (Q : A -> S -> Prop) (X : E -> S -> Prop) (r : result A E) (s : S) : Prop :=
  match r with Ok a => Q a s | Err e => X e s end.

Section Triples.
Context {S E : Type}.
Implicit Types (P : S -> Prop).

Lemma triple_conseq {A} P P' (m : SE S E A) Q Q' :
  triple P' m Q' -> (forall s, P s -> P' s) -> (forall r s, Q' r s -> Q r s) -> triple P m Q.
Proof. intros Hm HP HQ s Hs. by apply HQ, Hm, HP. Qed.

Lemma triple_post {A} P (m : SE S E A) Q Q' :
  triple P m Q' -> (forall r s, Q' r s -> Q r s) -> triple P m Q.
Proof. intros Hm HQ. by eapply triple_conseq. Qed.

Lemma triple_ret {A} (r : result A E) (Q : result A E -> S -> Prop) :
  triple (Q r) (se_ret r) Q.
Proof. intros s Hs. exact Hs. Qed.

Lemma triple_bind {A B} P (m : SE S E A) (k : A -> SE S E B) R Q :
  triple P m (outcome R (fun e => Q (Err e))) ->
  (forall a, triple (R a) (k a) Q) -> triple P (se_bind m k) Q.
Proof.
  intros Hm Hk s Hs. specialize (Hm s Hs). unfold se_bind.
  destruct (m s) as [[a|e] s']; cbn in *; [by apply Hk|done].
Qed.

Lemma triple_try {F A} P (m : SE S E A) (Q : result (result A E) F -> S -> Prop) :
  triple P m (fun r s => Q (Ok r) s) -> triple P (se_try m) Q.
Proof. intros Hm s Hs. specialize (Hm s Hs). unfold se_try. by destruct (m s). Qed.

Lemma triple_map_err {F A} P (f : E -> F) (m : SE S E A) Q :
  triple P m (fun r s => Q (map_err f r) s) -> triple P (se_map_err f m) Q.
Proof. intros Hm s Hs. specialize (Hm s Hs). unfold se_map_err. by destruct (m s). Qed.

Lemma triple_iter {A} P (m : A -> SE S E unit) (l : list A) X :
  (forall x, x ∈ l -> triple P (m x) (outcome (fun _ => P) X)) ->
  triple P (se_iter m l) (outcome (fun _ => P) X).
Proof.
  induction l as [|x l IH]; intros Hm; [by intros s Hs|]. cbn [se_iter].
  apply triple_bind with (R := fun _ => P); [apply Hm; set_solver|].
  intros _. apply IH. intros y Hy. apply Hm. set_solver.
Qed.
End Triples.

(** ** The steps of a successful run *)

Lemma se_bind_Ok {S E A B} (m : SE S E A) (k : A -> SE S E B) s b s' :
  se_bind m k s = (Ok b, s') <-> exists a s1, m s = (Ok a, s1) /\ k a s1 = (Ok b, s').
Proof. unfold se_bind. destruct (m s) as [[a|e] s1]; naive_solver. Qed.

Lemma se_try_Ok {S E F A} (m : SE S E A) s (r : result A E) s' :
  se_try (F := F) m s = (Ok r, s') <-> m s = (r, s').
Proof. unfold se_try. destruct (m s) as [x s1]. naive_solver. Qed.

Lemma se_map_err_Ok {S E F A} (f : E -> F) (m : SE S E A) s a s' :
  se_map_err f m s = (Ok a, s') <-> m s = (Ok a, s').
Proof. unfold se_map_err. destruct (m s) as [[x|e] s1]; naive_solver. Qed.

(** A run of two steps: the first fails, or the second runs. *)
Lemma se_bind_cases {S E A C : Type} (m : SE S E A) (k : A -> SE S E C) s r s' : se_bind m k s = (r, s') ->
  (exists e, m s = (Err e, s') /\ r = Err e) \/ exists a s1, m s = (Ok a, s1) /\ k a s1 = (r, s').
Proof.
  unfold se_bind. destruct (m s) as [[a|e] s1]; [right; by exists a, s1|]. intros [= <- <-]. left. by exists e.
Qed.
