(* ===== verification/Sys.v ===== *)
(** * Sys: directory-relative system calls

    Models [crates/oci-unpack/src/sys.rs]: one open directory descriptor and one name at a
    time.  The kernel is not under [src/]: the calls are the operations of the class [Sys],
    over a file system of inodes, and what POSIX and Linux document of them is the class
    [SysLaws].  The laws speak of names that are one component ([self_name]): what a call does with
    [..], [.] or a path is not said, so that [cname], which refuses them, matters.  A call may fail for any reason the laws do not tie to the file system
    (permissions, space, ...); only the code's own calls change the file system. *)
From S2P Require Import Prelude Text Effects.

(** ** The file system *)

(** The number of an inode; a descriptor is the inode it is open on. *)
Abbreviation ino := positive.

Inductive node : Type :=
  | NDir (mode : N) (ents : gmap bytes ino)
  | NFile (mode : N) (data : bytes)
  | NLink (target : bytes)
  | NOther (mode : N).

Abbreviation fs := (gmap ino node).

(** The inode a name is bound to in a directory. *)
Definition entry (w : fs) (d : ino) (name : bytes) : option ino :=
  match w !! d with Some (NDir _ ents) => ents !! name | _ => None end.

Definition is_NDir (w : fs) (i : ino) : Prop := exists m e, w !! i = Some (NDir m e).
Definition is_NLink (w : fs) (i : ino) : Prop := exists t, w !! i = Some (NLink t).

Definition set_mode (mode : N) (n : node) : node :=
  match n with
  | NDir _ e => NDir mode e
  | NFile _ c => NFile mode c
  | NLink t => NLink t
  | NOther _ => NOther mode
  end.

(** The file-type bits of [st_mode]. *)
Definition S_IFMT : N := 61440.
Definition S_IFLNK : N := 40960.
Definition S_IFDIR : N := 16384.
Definition S_IFREG : N := 32768.
Definition fmt_bits (n : node) : N :=
  match n with NDir _ _ => S_IFDIR | NFile _ _ => S_IFREG | NLink _ => S_IFLNK | NOther _ => 8192 end.

(** The setuid, setgid and sticky bits, and the sticky bit alone. *)
Definition special_bits (mode : N) : N := N.land mode 3584.
Definition S_ISVTX : N := 512.

(** ** Errors of the operating system: [io::Error] *)

Record IoError : Type := MkIoError { raw_os_error : option N; error_text : bytes }.

#[export] Instance IoError_eq_dec : EqDecision IoError.
Proof. solve_decision. Defined.

Definition EPERM : N := 1.
Definition ENOENT : N := 2.
Definition EEXIST : N := 17.
Definition EISDIR : N := 21.

(** [is(e, errno)] of [lib.rs]. *)
Definition is_errno (e : IoError) (errno : N) : bool := bool_decide (raw_os_error e = Some errno).

Abbreviation IO := (SE fs IoError).

(** ** The calls *)

Class Sys : Type := {
  sys_openat : ino -> bytes -> IO ino;
  sys_mkdirat : ino -> bytes -> N -> IO unit;
  sys_create : ino -> bytes -> N -> IO ino;
  sys_symlinkat : bytes -> ino -> bytes -> IO unit;
  sys_linkat : ino -> bytes -> ino -> bytes -> IO unit;
  sys_fstatat : ino -> bytes -> IO N;
  sys_unlinkat : ino -> bytes -> bool -> IO unit;
  sys_fchmod : ino -> N -> IO unit;
  sys_fchmodat : ino -> bytes -> N -> IO unit;
  sys_readdir : ino -> IO (list bytes);
  sys_write : ino -> bytes -> IO unit;
  sys_dup : ino -> IO unit
}.

(** Adding the name [name] for [i] to the directory [d]. *)
Definition add_entry (w : fs) (d : ino) (name : bytes) (i : ino) (w' : fs) : Prop :=
  exists m e, w !! d = Some (NDir m e) /\ e !! name = None /\ w' = <[d := NDir m (<[name := i]> e)]> w.

Definition del_entry (w : fs) (d : ino) (name : bytes) (w' : fs) : Prop :=
  exists m e, w !! d = Some (NDir m e) /\ w' = <[d := NDir m (delete name e)]> w.

(** A name that is one component of a path and names itself: only of such a name does a call on a
    directory do no more than look it up there.  Of any other ([..], [a/b], the empty name) the laws say
    nothing: Linux resolves it as a path, which may lead anywhere. *)
Definition self_name (n : bytes) : Prop := n <> [] /\ n <> B "." /\ n <> B ".." /\ "/"%char ∉ n /\ "000"%char ∉ n.

(** What the code relies on.  [openat] has [O_RDONLY | O_DIRECTORY | O_NOFOLLOW], [create] has
    [O_CREAT | O_EXCL | O_NOFOLLOW], [fstatat] has [AT_SYMLINK_NOFOLLOW], [linkat] and
    [fchmodat] have no flags (so the latter follows a link), the [bool] of [unlinkat] is
    [AT_REMOVEDIR], [write] is [write_all].  No inode carries the immutable or append-only
    attribute, so [EPERM] of [unlinkat] means a directory unless the parent is sticky. *)
Class SysLaws (S : Sys) : Prop := {
  openat_law d n w r w' : self_name n -> sys_openat d n w = (r, w') -> w' = w /\
    match r with
    | Ok i => entry w d n = Some i /\ is_NDir w i
    | Err e => is_errno e ENOENT = true -> entry w d n = None
    end;
  mkdirat_law d n mode w r w' : self_name n -> sys_mkdirat d n mode w = (r, w') ->
    match r with
    | Ok _ => exists i m' w1, w !! i = None /\ add_entry w d n i w1 /\ w' = <[i := NDir m' ∅]> w1 /\
        (forall m e, w !! d = Some (NDir m e) -> special_bits m = 0%N ->
           special_bits mode = 0%N -> special_bits m' = 0%N)
    | Err e => w' = w /\ (is_errno e EEXIST = true -> is_Some (entry w d n))
    end;
  create_law d n mode w r w' : self_name n -> sys_create d n mode w = (r, w') ->
    match r with
    | Ok i => exists m' w1, w !! i = None /\ add_entry w d n i w1 /\ w' = <[i := NFile m' []]> w1 /\
        (special_bits mode = 0%N -> special_bits m' = 0%N)
    | Err e => w' = w /\ (is_errno e EEXIST = true -> is_Some (entry w d n))
    end;
  symlinkat_law t d n w r w' : self_name n -> sys_symlinkat t d n w = (r, w') ->
    match r with
    | Ok _ => exists i w1, w !! i = None /\ add_entry w d n i w1 /\ w' = <[i := NLink t]> w1
    | Err e => w' = w /\ (is_errno e EEXIST = true -> is_Some (entry w d n))
    end;
  linkat_law sd s d n w r w' : self_name s -> self_name n -> sys_linkat sd s d n w = (r, w') ->
    match r with
    | Ok _ => exists i, entry w sd s = Some i /\ ~ is_NDir w i /\ add_entry w d n i w'
    | Err e => w' = w /\ (is_errno e EEXIST = true -> is_Some (entry w d n))
    end;
  fstatat_law d n w r w' : self_name n -> sys_fstatat d n w = (r, w') -> w' = w /\
    forall st, r = Ok st -> exists i nd, entry w d n = Some i /\ w !! i = Some nd /\
      N.land st S_IFMT = fmt_bits nd;
  unlinkat_law d n w r w' : self_name n -> sys_unlinkat d n false w = (r, w') ->
    match r with
    | Ok _ => (exists i, entry w d n = Some i /\ ~ is_NDir w i) /\ del_entry w d n w'
    | Err e => w' = w /\ (is_errno e ENOENT = true -> entry w d n = None) /\
        (is_errno e EISDIR = true -> exists i, entry w d n = Some i /\ is_NDir w i) /\
        (is_errno e EPERM = true -> forall m ents, w !! d = Some (NDir m ents) ->
           N.land m S_ISVTX = 0%N -> exists i, entry w d n = Some i /\ is_NDir w i)
    end;
  rmdir_law d n w r w' : self_name n -> sys_unlinkat d n true w = (r, w') ->
    match r with
    | Ok _ => (exists i m, entry w d n = Some i /\ w !! i = Some (NDir m ∅)) /\ del_entry w d n w'
    | Err _ => w' = w
    end;
  fchmod_law d mode w r w' : sys_fchmod d mode w = (r, w') ->
    match r with Ok _ => w' = alter (set_mode mode) d w | Err _ => w' = w end;
  fchmodat_law d n mode w r w' : self_name n -> sys_fchmodat d n mode w = (r, w') ->
    match r with
    | Ok _ => exists i, entry w d n = Some i /\
        (is_NLink w i /\ (exists j, w' = alter (set_mode mode) j w) \/
         ~ is_NLink w i /\ w' = alter (set_mode mode) i w)
    | Err _ => w' = w
    end;
  readdir_law d w r w' : sys_readdir d w = (r, w') -> w' = w /\
    forall names, r = Ok names -> is_NDir w d /\
      forall n, n <> B "." -> n <> B ".." -> n ∈ names <-> is_Some (entry w d n);
  write_law f data w r w' : sys_write f data w = (r, w') ->
    (exists m c k, w !! f = Some (NFile m c) /\ w' = <[f := NFile m (c ++ take k data)]> w /\
       k <= length data /\ (r = Ok tt -> k = length data)) \/ (w' = w /\ r <> Ok tt);
  dup_law d w r w' : sys_dup d w = (r, w') -> w' = w
}.

(** ** [sys.rs] *)

Section Dir.
Context `{Sys}.
(** [{:?}] of a name. *)
Variable debug_name : bytes -> bytes.

Definition InvalidInput (text : bytes) : IoError := MkIoError None text.

(** [cname]; a name with a NUL byte is [CString::new]'s to refuse. *)
Definition cname (name : bytes) : result bytes IoError :=
  if beq name [] || contains "/" name || beq name (B ".") || beq name (B "..") then
    Err (InvalidInput (debug_name name ++ B " is not a single, self-naming path component"))
  else if contains "000" name then Err (InvalidInput (B "name contains NUL"))
  else Ok name.

Lemma cname_self n c : cname n = Ok c -> c = n /\ self_name n.
Proof.
  unfold cname, self_name.
  destruct (beq n [] || contains "/" n || beq n (B ".") || beq n (B "..")) eqn:E1; [done|].
  destruct (contains "000" n) eqn:E0; [done|]. intros [= <-].
  apply orb_false_iff in E1 as [[[E1 E4]%orb_false_iff E2]%orb_false_iff E3]. apply bool_decide_eq_false in E1, E2, E3.
  split; [done|]. split_and!; try done; intros Hin%contains_true; congruence.
Qed.

Definition try_clone (d : ino) : IO ino := do! _ := sys_dup d in se_ret (Ok d).

Definition open_dir (d : ino) (name : bytes) : IO ino :=
  do! c := se_ret (cname name) in sys_openat d c.

Definition mkdir (d : ino) (name : bytes) (mode : N) : IO unit :=
  do! c := se_ret (cname name) in sys_mkdirat d c mode.

Definition create_file (d : ino) (name : bytes) (mode : N) : IO ino :=
  do! c := se_ret (cname name) in sys_create d c mode.

Definition symlink (d : ino) (target name : bytes) : IO unit :=
  do! c := se_ret (cname name) in
  do! t := se_ret (if contains "000" target then Err (InvalidInput (B "target contains NUL"))
                   else Ok target) in
  sys_symlinkat t d c.

Definition link_from (d src_dir : ino) (src name : bytes) : IO unit :=
  do! s := se_ret (cname src) in
  do! c := se_ret (cname name) in
  sys_linkat src_dir s d c.

Definition lstat (d : ino) (name : bytes) : IO N :=
  do! c := se_ret (cname name) in sys_fstatat d c.

Definition unlink (d : ino) (name : bytes) (dir : bool) : IO unit :=
  do! c := se_ret (cname name) in sys_unlinkat d c dir.

Definition chmod (d : ino) (mode : N) : IO unit := sys_fchmod d mode.

Definition chmod_child (d : ino) (name : bytes) (mode : N) : IO unit :=
  do! c := se_ret (cname name) in sys_fchmodat d c mode.

(** The names [readdir] lists, [.] and [..] left out. *)
Definition entries (d : ino) : IO (list bytes) :=
  do! names := sys_readdir d in
  se_ret (Ok (List.filter (fun n => negb (beq n (B ".") || beq n (B ".."))) names)).

Definition is_symlink (st : N) : bool := (N.land st S_IFMT =? S_IFLNK)%N.
Definition is_dir (st : N) : bool := (N.land st S_IFMT =? S_IFDIR)%N.
End Dir.
