(* ===== verification/Calls.v ===== *)
(** * Calls and their answers

    Programs whose effects are calls to a host that is not under [src/]: the host's answer to a call is
    a parameter, of the calls made before it and of the call itself, and a program is a state
    transformer over the log of the calls made with their answers. *)
From S2P Require Import Prelude Text Effects Sys.

Section calls.
Context {C : Type}.

Abbreviation Log := (list (C * result bytes IoError)).

Definition ask (host : Log -> C -> result bytes IoError) (c : C) : SE Log IoError bytes := fun h =>
  let a := host h c in (a, h ++ [(c, a)]).

Definition ask_ (host : Log -> C -> result bytes IoError) (c : C) : SE Log IoError unit :=
  do! _ := ask host c in se_ret (Ok tt).

(** The calls that were granted. *)
Definition granted (h : Log) : list C := omap (fun ca => if is_ok (snd ca) then Some (fst ca) else None) h.

Lemma granted_app h h' : granted (h ++ h') = granted h ++ granted h'.
Proof. apply omap_app. Qed.

(** [m] makes no call but those [safe] admits, and where it succeeds the granted ones among those that
    matter are [cs], in order. *)
Section plan.
Context (safe matters : C -> bool).

Definition plans {E A} (m : SE Log E A) (cs : list C) : Prop :=
  forall h, exists new, snd (m h) = h ++ new /\ Forall (fun ca => safe (fst ca) = true) new /\
    (is_ok (fst (m h)) = true -> List.filter matters (granted new) = cs).

Lemma plans_ret {E A} (a : A) : plans (E := E) (se_ret (Ok a)) [].
Proof. intros h. exists []. by rewrite app_nil_r. Qed.

Lemma plans_fail {E A} (e : E) cs : plans (A := A) (se_ret (Err e)) cs.
Proof. intros h. exists []. by rewrite app_nil_r. Qed.

Lemma plans_bind {E A B} (m : SE Log E A) (k : A -> SE Log E B) cs cs' :
  plans m cs -> (forall a, plans (k a) cs') -> plans (se_bind m k) (cs ++ cs').
Proof.
  intros Hm Hk h. destruct (Hm h) as (n1 & E1 & S1 & O1). unfold se_bind. destruct (m h) as [[a|e] h1]; cbn [fst snd] in *; subst h1.
  - destruct (Hk a (h ++ n1)) as (n2 & E2 & S2 & O2). exists (n1 ++ n2). rewrite E2, app_assoc. split; [done|]. split; [by apply Forall_app|].
    intros Hok. rewrite granted_app, List.filter_app, O1, O2 by done. done.
  - exists n1. split; [done|]. split; [done|]. by intros [=].
Qed.

Lemma plans_then {E A B} (m : SE Log E A) (k : A -> SE Log E B) cs cs' cs'' :
  plans m cs -> (forall a, plans (k a) cs') -> cs'' = cs ++ cs' -> plans (se_bind m k) cs''.
Proof. intros Hm Hk ->. by apply plans_bind. Qed.

Lemma plans_ask host c : safe c = true -> plans (ask host c) (if matters c then [c] else []).
Proof.
  intros Hs h. exists [(c, host h c)]. split; [done|]. split; [by repeat constructor|]. unfold ask. cbn [fst]. intros Hok.
  unfold granted. cbn [omap list_omap snd fst]. rewrite Hok. cbn [List.filter]. by destruct (matters c).
Qed.

Lemma plans_ask_ host c : safe c = true -> plans (ask_ host c) (if matters c then [c] else []).
Proof. intros Hs. eapply plans_then; [by apply plans_ask|intros; apply plans_ret|by rewrite app_nil_r]. Qed.

(** A question whose answer is looked at, whatever it is. *)
Lemma plans_probe host c F : safe c = true -> matters c = false -> plans (E := F) (se_try (ask host c)) [].
Proof.
  intros Hs Hm h. exists [(c, host h c)]. split; [done|]. split; [by repeat constructor|]. intros _.
  unfold granted. cbn [omap list_omap snd fst]. destruct (is_ok (host h c)); [|done]. cbn [List.filter]. by rewrite Hm.
Qed.

Lemma plans_map_err {E F A} (f : E -> F) (m : SE Log E A) cs : plans m cs -> plans (se_map_err f m) cs.
Proof.
  intros Hm h. destruct (Hm h) as (n & E1 & S1 & O1). exists n. unfold se_map_err. by destruct (m h) as [[a|e] h1].
Qed.

Lemma plans_iter {E A} (m : A -> SE Log E unit) (f : A -> list C) (l : list A) :
  (forall x, x ∈ l -> plans (m x) (f x)) -> plans (se_iter m l) (flat_map f l).
Proof.
  induction l as [|x l IH]; intros Hm; [apply plans_ret|]. cbn [se_iter flat_map].
  apply plans_bind; [apply Hm; by left|]. intros _. apply IH. intros y Hy. apply Hm. by right.
Qed.
End plan.
End calls.
Abbreviation LogOf C := (list (C * result bytes IoError)).
