(* ===== verification/Unpack.v ===== *)
(** * Unpack: applying layers onto a staging tree

    Models [crates/oci-unpack/src/lib.rs]: the unpacker's state, one function per method, over
    the calls of [Sys].  The tar stream is the [tar] crate's: a layer is the list of what its
    iterator yields, an entry the record of what the code asks of it. *)
From S2P Require Import Prelude Text EntryName Effects Sys.

(** ** [BTreeMap]: an association list sorted by its keys *)

Section BTree.
Context {K V : Type} (cmp : K -> K -> comparison).

Fixpoint bt_insert (k : K) (v : V) (m : list (K * V)) : list (K * V) :=
  match m with
  | [] => [(k, v)]
  | (k', v') :: r =>
      match cmp k k' with
      | Lt => (k, v) :: m
      | Eq => (k, v) :: r
      | Gt => (k', v') :: bt_insert k v r
      end
  end.

Fixpoint bt_remove (k : K) (m : list (K * V)) : list (K * V) :=
  match m with
  | [] => []
  | (k', v') :: r => match cmp k k' with Eq => r | _ => (k', v') :: bt_remove k r end
  end.
End BTree.

(** The orders of [String] and of [Vec<String>]. *)
Fixpoint lex_cmp {A} (cmp : A -> A -> comparison) (a b : list A) : comparison :=
  match a, b with
  | [], [] => Eq
  | [], _ => Lt
  | _, [] => Gt
  | x :: a', y :: b' => match cmp x y with Eq => lex_cmp cmp a' b' | c => c end
  end.
Definition string_cmp : bytes -> bytes -> comparison := lex_cmp (fun x y => N.compare (code x) (code y)).
Definition path_cmp : list bytes -> list bytes -> comparison := lex_cmp string_cmp.

(** ** State *)

Record Report : Type := MkReport {
  entries_written : N; bytes_written : N; whiteouts_applied : N; opaque_dirs_applied : N;
  devices_skipped : list bytes; setuid_paths : list (bytes * N); xattrs_dropped : N }.

Definition Report_default : Report := MkReport 0 0 0 0 [] [] 0.

(** [Report::merge] *)
Definition merge (self other : Report) : Report :=
  MkReport (entries_written self + entries_written other)
    (bytes_written self + bytes_written other)
    (whiteouts_applied self + whiteouts_applied other)
    (opaque_dirs_applied self + opaque_dirs_applied other)
    (devices_skipped self ++ devices_skipped other)
    (setuid_paths self)
    (xattrs_dropped self + xattrs_dropped other).

Definition add_bytes_written (n : N) (r : Report) : Report :=
  MkReport (entries_written r) (bytes_written r + n) (whiteouts_applied r) (opaque_dirs_applied r)
    (devices_skipped r) (setuid_paths r) (xattrs_dropped r).
Definition add_entry_written (r : Report) : Report :=
  MkReport (entries_written r + 1) (bytes_written r) (whiteouts_applied r) (opaque_dirs_applied r)
    (devices_skipped r) (setuid_paths r) (xattrs_dropped r).
Definition add_whiteout (r : Report) : Report :=
  MkReport (entries_written r) (bytes_written r) (whiteouts_applied r + 1) (opaque_dirs_applied r)
    (devices_skipped r) (setuid_paths r) (xattrs_dropped r).
Definition add_opaque (r : Report) : Report :=
  MkReport (entries_written r) (bytes_written r) (whiteouts_applied r) (opaque_dirs_applied r + 1)
    (devices_skipped r) (setuid_paths r) (xattrs_dropped r).
Definition add_device (p : bytes) (r : Report) : Report :=
  MkReport (entries_written r) (bytes_written r) (whiteouts_applied r) (opaque_dirs_applied r)
    (devices_skipped r ++ [p]) (setuid_paths r) (xattrs_dropped r).
Definition add_xattrs (n : N) (r : Report) : Report :=
  MkReport (entries_written r) (bytes_written r) (whiteouts_applied r) (opaque_dirs_applied r)
    (devices_skipped r) (setuid_paths r) (xattrs_dropped r + n).
Definition with_setuid_paths (l : list (bytes * N)) (r : Report) : Report :=
  MkReport (entries_written r) (bytes_written r) (whiteouts_applied r) (opaque_dirs_applied r)
    (devices_skipped r) l (xattrs_dropped r).

(** [u_root] is the descriptor of the staging root. *)
Record Unpacker : Type := MkUnpacker {
  dest : bytes; staging : bytes; u_root : ino; u_limits : Limits; total : Report;
  entries_seen : N; deferred_modes : list (list bytes * N); special_modes : list (bytes * N);
  promoted : bool }.

Definition with_total (t : Report) (u : Unpacker) : Unpacker :=
  MkUnpacker (dest u) (staging u) (u_root u) (u_limits u) t (entries_seen u)
    (deferred_modes u) (special_modes u) (promoted u).
Definition count_entry (u : Unpacker) : Unpacker :=
  MkUnpacker (dest u) (staging u) (u_root u) (u_limits u) (total u) (entries_seen u + 1)
    (deferred_modes u) (special_modes u) (promoted u).
Definition with_deferred (m : list (list bytes * N)) (u : Unpacker) : Unpacker :=
  MkUnpacker (dest u) (staging u) (u_root u) (u_limits u) (total u) (entries_seen u)
    m (special_modes u) (promoted u).
Definition with_special (m : list (bytes * N)) (u : Unpacker) : Unpacker :=
  MkUnpacker (dest u) (staging u) (u_root u) (u_limits u) (total u) (entries_seen u)
    (deferred_modes u) m (promoted u).
Definition promote (u : Unpacker) : Unpacker :=
  MkUnpacker (dest u) (staging u) (u_root u) (u_limits u) (total u) (entries_seen u)
    (deferred_modes u) (special_modes u) true.

(** What a method runs on: the host, the unpacker, and the two locals of [apply_layer] it
    lends out, the layer's report and the set of paths the layer wrote. *)
Record St : Type := MkSt { st_fs : fs; st_u : Unpacker; st_rep : Report; st_written : gset bytes }.

Abbreviation M := (SE St Refusal).

Definition on_fs {A} (m : SE fs Refusal A) : M A :=
  fun s => let '(r, w) := m (st_fs s) in (r, MkSt w (st_u s) (st_rep s) (st_written s)).
Definition mod_u (f : Unpacker -> Unpacker) : M unit :=
  fun s => (Ok tt, MkSt (st_fs s) (f (st_u s)) (st_rep s) (st_written s)).
Definition mod_rep (f : Report -> Report) : M unit :=
  fun s => (Ok tt, MkSt (st_fs s) (st_u s) (f (st_rep s)) (st_written s)).
Definition add_written (p : bytes) : M unit :=
  fun s => (Ok tt, MkSt (st_fs s) (st_u s) (st_rep s) ({[p]} ∪ st_written s)).
Definition get_u : M Unpacker := fun s => (Ok (st_u s), s).
Definition get_rep : M Report := fun s => (Ok (st_rep s), s).
Definition get_written : M (gset bytes) := fun s => (Ok (st_written s), s).

(** ** Layers *)

(** [tar::EntryType] *)
Inductive EntryType : Type :=
  | Regular | Link | Symlink | Char | Block | Directory | Fifo | Continuous
  | GNULongName | GNULongLink | GNUSparse | XGlobalHeader | XHeader | Other (b : ascii).

#[export] Instance EntryType_eq_dec : EqDecision EntryType.
Proof. solve_decision. Defined.

(** What the code asks of a [tar::Entry]: [path_bytes], [header().entry_type()],
    [header().mode()], [link_name_bytes], the keys of [pax_extensions], and the successive
    [read]s of its data into the 64 KiB buffer. *)
Record TarEntry : Type := MkTarEntry {
  path_bytes : bytes; entry_type : EntryType; header_mode : result N bytes;
  link_name_bytes : option bytes; pax_extensions : result (option (list (result bytes bytes))) bytes;
  data : list (result bytes bytes) }.

(** [count_xattrs] *)
Definition count_xattrs (e : TarEntry) : N :=
  match pax_extensions e with
  | Ok (Some exts) =>
      let is_xattr k := starts_with (B "SCHILY.xattr.") k || starts_with (B "LIBARCHIVE.xattr.") k in
      N.of_nat (length (List.filter (fun r => match r with Ok k => is_xattr k | Err _ => false end) exts))
  | _ => 0
  end.

(** [host_mode]: [raw & 0o777]. *)
Definition host_mode (raw : N) : N := N.land raw 511.
Definition DIR_MODE : N := 493.

Section Unpack.
Context `{Sys}.
(** [str]'s [{:?}] and [escape_debug], a name's [{:?}], a type's byte as a quoted [char], and
    [io::Error]'s [Display]: messages only. *)
Variables debug_str escape_debug debug_name : bytes -> bytes.
Variable debug_kind : EntryType -> bytes.

Definition io_err (path : bytes) (e : IoError) : Refusal := Io path (error_text e).

(** *** Deleting *)

Definition too_deep : IoError := InvalidInput (B "tree is deeper than max_path_depth").

(** [remove_child] at depth [max_path_depth + 1 - n]. *)
Fixpoint remove_child_go (n : nat) (dir : ino) (name : bytes) : IO unit :=
  match n with
  | O => se_ret (Err too_deep)
  | S n' =>
      do! r := se_try (unlink debug_name dir name false) in
      match r with
      | Ok _ => se_ret (Ok tt)
      | Err e =>
          if is_errno e ENOENT then se_ret (Ok tt)
          else if is_errno e EISDIR || is_errno e EPERM then
            do! _ := se_try (chmod_child debug_name dir name 448) in
            do! sub := open_dir debug_name dir name in
            do! children := entries sub in
            do! _ := se_iter (remove_child_go n' sub) children in
            unlink debug_name dir name true
          else se_ret (Err e)
      end
  end.

Definition remove_child (dir : ino) (name : bytes) (limits : Limits) (depth : nat) : IO unit :=
  remove_child_go (S (max_path_depth limits) - depth) dir name.

(** [prune] at depth [max_path_depth + 1 - n]. *)
Fixpoint prune_go (n : nat) (dir : ino) (prefix : list bytes) (keep : gset bytes) : IO unit :=
  match n with
  | O => se_ret (Err too_deep)
  | S n' =>
      do! children := entries dir in
      se_iter (fun child =>
        let components := prefix ++ [child] in
        if negb (bool_decide (join_path components ∈ keep)) then remove_child_go n dir child
        else
          do! st := lstat debug_name dir child in
          if is_dir st then
            do! sub := open_dir debug_name dir child in
            prune_go n' sub components keep
          else se_ret (Ok tt)) children
  end.

Definition prune (dir : ino) (prefix : list bytes) (keep : gset bytes) (limits : Limits)
    (depth : nat) : IO unit :=
  prune_go (S (max_path_depth limits) - depth) dir prefix keep.

(** *** The confined walk *)

(** The loop of [dir_existing], at the components [rest] below [seen]. *)
Fixpoint existing_go (cur : ino) (seen rest : list bytes) (entry : bytes) : SE fs Refusal (option ino) :=
  match rest with
  | [] => se_ret (Ok (Some cur))
  | comp :: rest =>
      let so_far := join_path (seen ++ [comp]) in
      do! r := se_try (open_dir debug_name cur comp) in
      match r with
      | Ok d => existing_go d (seen ++ [comp]) rest entry
      | Err e =>
          if is_errno e ENOENT then se_ret (Ok None)
          else
            do! st := se_map_err (fun _ => io_err so_far e) (lstat debug_name cur comp) in
            if is_symlink st then se_ret (Err (SymlinkEscape entry so_far))
            else se_ret (Ok None)
      end
  end.

Definition dir_existing (root : ino) (components : list bytes) (entry : bytes) :
    SE fs Refusal (option ino) :=
  do! cur := se_map_err (io_err []) (try_clone root) in
  existing_go cur [] components entry.

(** The recovery of [dir_create] when a component is missing, and when it is not a directory. *)
Definition make_missing (cur : ino) (comp so_far : bytes) : SE fs Refusal ino :=
  do! _ := se_try (mkdir debug_name cur comp DIR_MODE) in
  do! made := se_map_err (io_err so_far) (open_dir debug_name cur comp) in
  do! _ := se_map_err (io_err so_far) (chmod made DIR_MODE) in
  se_ret (Ok made).

Definition replace_with_dir (cur : ino) (comp so_far : bytes) (limits : Limits) : SE fs Refusal ino :=
  do! _ := se_map_err (io_err so_far) (remove_child cur comp limits 0) in
  do! _ := se_map_err (io_err so_far) (mkdir debug_name cur comp DIR_MODE) in
  do! made := se_map_err (io_err so_far) (open_dir debug_name cur comp) in
  do! _ := se_map_err (io_err so_far) (chmod made DIR_MODE) in
  se_ret (Ok made).

Definition create_step (cur : ino) (comp so_far entry : bytes) (limits : Limits) : SE fs Refusal ino :=
  do! r := se_try (open_dir debug_name cur comp) in
  match r with
  | Ok d => se_ret (Ok d)
  | Err e =>
      if is_errno e ENOENT then make_missing cur comp so_far
      else
        do! st := se_map_err (fun _ => io_err so_far e) (lstat debug_name cur comp) in
        if is_symlink st then se_ret (Err (SymlinkEscape entry so_far))
        else if is_dir st then se_ret (Err (io_err so_far e))
        else replace_with_dir cur comp so_far limits
  end.

Fixpoint create_go (cur : ino) (seen rest : list bytes) (entry : bytes) (limits : Limits) : M ino :=
  match rest with
  | [] => se_ret (Ok cur)
  | comp :: rest =>
      let so_far := join_path (seen ++ [comp]) in
      do! d := on_fs (create_step cur comp so_far entry limits) in
      do! _ := add_written so_far in
      create_go d (seen ++ [comp]) rest entry limits
  end.

Definition dir_create (components : list bytes) (entry : bytes) : M ino :=
  do! u := get_u in
  do! cur := on_fs (se_map_err (io_err []) (try_clone (u_root u))) in
  create_go cur [] components entry (u_limits u).

(** [ensure_dir] *)
Definition ensure_dir (parent : ino) (name path : bytes) (limits : Limits) : SE fs Refusal unit :=
  do! r := se_try (mkdir debug_name parent name DIR_MODE) in
  match r with
  | Ok _ => se_ret (Ok tt)
  | Err e =>
      if is_errno e EEXIST then
        do! st := se_map_err (io_err path) (lstat debug_name parent name) in
        if is_dir st then se_ret (Ok tt)
        else
          do! _ := se_map_err (io_err path) (remove_child parent name limits 0) in
          se_map_err (io_err path) (mkdir debug_name parent name DIR_MODE)
      else se_ret (Err (io_err path e))
  end.

(** [set_dir_mode] *)
Definition set_dir_mode (parent : ino) (name : bytes) (components : list bytes) (mode : N)
    (path : bytes) : M unit :=
  if (N.land mode 448 =? 448)%N then
    do! _ := on_fs (se_map_err (io_err path)
               (do! d := open_dir debug_name parent name in chmod d mode)) in
    mod_u (fun u => with_deferred (bt_remove path_cmp components (deferred_modes u)) u)
  else mod_u (fun u => with_deferred (bt_insert path_cmp components mode (deferred_modes u)) u).
(** *** Entries *)

Definition limit_exceeded (name raise : string) (cap : N) : Refusal := LimitExceeded name cap raise.

(** [copy_bounded], on what is left of the entry's data; [this_entry] bytes were written. *)
Fixpoint copy_bounded (chunks : list (result bytes bytes)) (this_entry : N) (file : ino)
    (path : bytes) : M unit :=
  match chunks with
  | [] => se_ret (Ok tt)
  | Err e :: _ => se_ret (Err (Malformed path (B "truncated entry data: " ++ e)))
  | Ok [] :: _ => se_ret (Ok tt)
  | Ok buf :: rest =>
      let n64 := N.of_nat (length buf) in
      do! u := get_u in
      do! rep := get_rep in
      if (max_entry_bytes (u_limits u) <? this_entry + n64)%N then
        se_ret (Err (limit_exceeded "max_entry_bytes" "Limits::max_entry_bytes"
                       (max_entry_bytes (u_limits u))))
      else if (max_total_bytes (u_limits u) <? bytes_written (total u) + bytes_written rep + n64)%N then
        se_ret (Err (limit_exceeded "max_total_bytes" "Limits::max_total_bytes"
                       (max_total_bytes (u_limits u))))
      else
        do! _ := on_fs (se_map_err (io_err path) (sys_write file buf)) in
        do! _ := mod_rep (add_bytes_written n64) in
        copy_bounded rest (this_entry + n64) file path
  end.

(** [hardlink] *)
Definition hardlink (u : Unpacker) (parent : ino) (last target path : bytes) : SE fs Refusal unit :=
  let escape := HardlinkEscape path (from_utf8_lossy target) in
  let missing := Malformed path (B "hard link to " ++ debug_str (from_utf8_lossy target) ++
                                 B ", which no earlier entry created") in
  match plan escape_debug debug_str target (u_limits u) with
  | Ok (Write components) =>
      let '(head, tail) := split_last components in
      do! found := se_try (dir_existing (u_root u) head path) in
      match found with
      | Ok (Some target_dir) =>
          do! r := se_try (link_from debug_name parent target_dir tail last) in
          match r with
          | Ok _ => se_ret (Ok tt)
          | Err e =>
              if is_errno e EEXIST then
                do! _ := se_map_err (io_err path) (remove_child parent last (u_limits u) 0) in
                se_map_err (io_err path) (link_from debug_name parent target_dir tail last)
              else if is_errno e ENOENT then se_ret (Err missing)
              else se_ret (Err (io_err path e))
          end
      | Ok None => se_ret (Err missing)
      | Err (SymlinkEscape _ _) => se_ret (Err escape)
      | Err e => se_ret (Err e)
      end
  | _ => se_ret (Err escape)
  end.

(** [whiteout] *)
Definition whiteout (parent : list bytes) (target : bytes) : M unit :=
  do! _ := mod_rep add_whiteout in
  do! u := get_u in
  let path := join_path parent in
  do! found := on_fs (dir_existing (u_root u) parent path) in
  match found with
  | None => se_ret (Ok tt)
  | Some dir =>
      on_fs (se_map_err (io_err (if beq path [] then target else path ++ B "/" ++ target))
               (remove_child dir target (u_limits u) 0))
  end.

(** [opaque] *)
Definition opaque (parent : list bytes) : M unit :=
  do! _ := mod_rep add_opaque in
  do! u := get_u in
  do! written := get_written in
  let path := join_path parent in
  do! found := on_fs (dir_existing (u_root u) parent path) in
  match found with
  | None => se_ret (Ok tt)
  | Some dir => on_fs (se_map_err (io_err path) (prune dir parent written (u_limits u) 0))
  end.

(** [forget_subtree] *)
Definition forget_subtree (path : bytes) (m : list (bytes * N)) : list (bytes * N) :=
  List.filter (fun pm => negb (starts_with (path ++ B "/") (fst pm))) m.

(** [refresh_setuid_paths] *)
Definition refresh_setuid_paths (u : Unpacker) : Unpacker :=
  with_total (with_setuid_paths (special_modes u) (total u)) u.

(** The regular-file arm of [write_entry]: a fresh file at the name, its mode, its content. *)
Definition write_file (e : TarEntry) (parent : ino) (last path : bytes) (mode : N) : M unit :=
  do! u := get_u in
  do! r := on_fs (se_try (create_file debug_name parent last mode)) in
  do! file :=
    match r with
    | Ok f => se_ret (Ok f)
    | Err err =>
        if is_errno err EEXIST then
          do! _ := on_fs (se_map_err (io_err path) (remove_child parent last (u_limits u) 0)) in
          on_fs (se_map_err (io_err path) (create_file debug_name parent last mode))
        else se_ret (Err (io_err path err))
    end in
  do! _ := on_fs (se_map_err (io_err path) (sys_fchmod file mode)) in
  copy_bounded (data e) 0 file path.

(** The symbolic-link arm. *)
Definition write_symlink (u : Unpacker) (parent : ino) (last path target : bytes) : SE fs Refusal unit :=
  do! r := se_try (symlink debug_name parent target last) in
  match r with
  | Ok _ => se_ret (Ok tt)
  | Err e =>
      if negb (is_errno e EEXIST) then se_ret (Err (io_err path e))
      else
        do! _ := se_map_err (io_err path) (remove_child parent last (u_limits u) 0) in
        se_map_err (io_err path) (symlink debug_name parent target last)
  end.

(** The [match kind] of [write_entry], at an entry whose parent is open. *)
Definition materialise (e : TarEntry) (parent : ino) (components : list bytes) (last path : bytes)
    (raw_mode : N) : M unit :=
  let malformed detail := Malformed path (B detail) in
  do! u := get_u in
  match entry_type e with
  | Directory =>
      do! _ := on_fs (ensure_dir parent last path (u_limits u)) in
      set_dir_mode parent last components (host_mode raw_mode) path
  | Regular | Continuous => write_file e parent last path (host_mode raw_mode)
  | Symlink =>
      match link_name_bytes e with
      | None => se_ret (Err (malformed "symlink with no target"))
      | Some target =>
          if beq target [] then se_ret (Err (malformed "symlink with an empty target"))
          else on_fs (write_symlink u parent last path target)
      end
  | Link =>
      match link_name_bytes e with
      | None => se_ret (Err (malformed "hard link with no target"))
      | Some target => on_fs (hardlink u parent last target path)
      end
  | _ => se_ret (Ok tt) (* unreachable: [write_entry] filtered the type *)
  end.

(** The bookkeeping at the end of [write_entry]. *)
Definition record_special (kind : EntryType) (path : bytes) (raw_mode : N) (u : Unpacker) : Unpacker :=
  let m := if negb (N.land raw_mode 3584 =? 0)%N && negb (bool_decide (kind = Symlink))
           then bt_insert string_cmp path raw_mode (special_modes u)
           else bt_remove string_cmp path (special_modes u) in
  with_special (if bool_decide (kind = Directory) then m else forget_subtree path m) u.

(** [write_entry] *)
Definition write_entry (e : TarEntry) (components : list bytes) : M unit :=
  let path := join_path components in
  let kind := entry_type e in
  let malformed detail := Malformed path detail in
  if bool_decide (kind ∈ [Char; Block; Fifo]) then mod_rep (add_device path)
  else if bool_decide (kind = GNUSparse) then
    se_ret (Err (malformed (B "GNU sparse entries are not supported: the hole map would have to be trusted to place writes. Repack the layer without sparse encoding.")))
  else if negb (bool_decide (kind ∈ [Regular; Continuous; Directory; Symlink; Link])) then
    se_ret (Err (malformed (B "unsupported tar entry type " ++ debug_kind kind)))
  else
    do! mode := se_ret (map_err (fun e => malformed (B "unreadable mode: " ++ e)) (header_mode e)) in
    let raw_mode := N.land mode 4095 in
    do! _ := mod_rep (add_xattrs (count_xattrs e)) in
    let '(head, last) := split_last components in
    do! parent := dir_create head path in
    do! _ := materialise e parent components last path raw_mode in
    do! _ := mod_u (record_special kind path raw_mode) in
    do! _ := mod_rep add_entry_written in
    add_written path.

(** *** Layers *)

(** The body of [apply_layer]'s loop. *)
Definition apply_entry (item : result TarEntry bytes) : M unit :=
  do! e := se_ret (map_err (Malformed []) item) in
  do! _ := mod_u count_entry in
  do! u := get_u in
  if (max_entries (u_limits u) <? entries_seen u)%N then
    se_ret (Err (limit_exceeded "max_entries" "Limits::max_entries" (max_entries (u_limits u))))
  else
    do! p := se_ret (plan escape_debug debug_str (path_bytes e) (u_limits u)) in
    match p with
    | Root => se_ret (Ok tt)
    | Opaque parent => opaque parent
    | Whiteout parent target => whiteout parent target
    | Write components => write_entry e components
    end.

(** [apply_layer] on a layer whose [Archive::entries] gave [items]; the caller's state has no
    layer report or written set of its own. *)
Definition apply_layer (items : result (list (result TarEntry bytes)) bytes) : M Report :=
  do! _ := mod_rep (fun _ => Report_default) in
  do! _ := fun s => (Ok tt, MkSt (st_fs s) (st_u s) (st_rep s) ∅) in
  do! items := se_ret (map_err (Malformed []) items) in
  do! _ := se_iter apply_entry items in
  do! rep := get_rep in
  do! _ := mod_u (fun u => with_total (merge (total u) rep) u) in
  do! _ := mod_u refresh_setuid_paths in
  do! u := get_u in
  se_ret (Ok (with_setuid_paths (setuid_paths (total u)) rep)).

(** *** Promotion and teardown *)

(** One round of [finish]'s loop. *)
Definition apply_deferred (root : ino) (item : list bytes * N) : SE fs Refusal unit :=
  let '(components, mode) := item in
  do! found := se_try (dir_existing root components (B "<deferred mode>")) in
  match found with
  | Ok (Some dir) => se_map_err (io_err (join_path components)) (chmod dir mode)
  | Ok None => se_ret (Ok tt)
  | Err (SymlinkEscape _ _) => se_ret (Ok tt)
  | Err e => se_ret (Err e)
  end.

(** Whether a recorded path is still there, as [drop_vanished_special_modes] asks. *)
Definition still_present (root : ino) (path : bytes) : SE fs Refusal bool :=
  let '(head, last) := split_last (split "/" path) in
  do! found := se_try (dir_existing root head path) in
  match found with
  | Ok (Some dir) => do! st := se_try (lstat debug_name dir last) in se_ret (Ok (is_ok st))
  | Ok None => se_ret (Ok false)
  | Err (SymlinkEscape _ _) => se_ret (Ok false)
  | Err e => se_ret (Err e)
  end.

(** [drop_vanished_special_modes] *)
Definition drop_vanished_special_modes : M unit :=
  do! u := get_u in
  se_iter (fun path =>
    do! present := on_fs (still_present (u_root u) path) in
    if present then se_ret (Ok tt)
    else mod_u (fun u => with_special (bt_remove string_cmp path (special_modes u)) u))
    (map fst (special_modes u)).

(** [finish] up to the rename. *)
Definition settle : M unit :=
  do! u := get_u in
  do! _ := mod_u (with_deferred []) in
  do! _ := on_fs (se_iter (apply_deferred (u_root u)) (rev (deferred_modes u))) in
  do! _ := drop_vanished_special_modes in
  mod_u refresh_setuid_paths.

(** [fs::rename] and [fs::remove_dir], by path. *)
Variable rename : bytes -> bytes -> IO unit.
Variable remove_dir : bytes -> IO unit.

(** [finish] *)
Definition finish : M Report :=
  do! _ := settle in
  do! u := get_u in
  do! _ := on_fs (se_map_err (io_err (dest u)) (rename (staging u) (dest u))) in
  do! _ := mod_u promote in
  do! u := get_u in
  se_ret (Ok (total u)).

(** The walk of [Drop]: every child of the root, errors ignored. *)
Definition teardown (root : ino) (limits : Limits) : IO unit :=
  do! children := se_try (entries root) in
  match children with
  | Ok children =>
      se_iter (fun child => do! _ := se_try (remove_child root child limits 0) in se_ret (Ok tt)) children
  | Err _ => se_ret (Ok tt)
  end.

(** [Drop for Unpacker] *)
Definition drop_unpacker (u : Unpacker) : IO unit :=
  if promoted u then se_ret (Ok tt)
  else
    do! _ := teardown (u_root u) (u_limits u) in
    do! _ := se_try (remove_dir (staging u)) in
    se_ret (Ok tt).

(** [Path::file_name], [with_file_name], the pid, [symlink_metadata(..).is_ok()],
    [create_dir] and [open_root] (the open of the staging root by path). *)
Variables (file_name : bytes -> option bytes) (with_file_name : bytes -> bytes -> bytes) (pid : N)
  (symlink_metadata_ok : bytes -> fs -> bool) (create_dir : bytes -> IO unit)
  (open_root : bytes -> IO ino).

(** [Unpacker::create] *)
Definition create (dest : bytes) (limits : Limits) : SE fs Refusal Unpacker :=
  let io path text := Io path (B text) in
  match file_name dest with
  | None => se_ret (Err (io dest "the destination names no directory"))
  | Some name => fun w =>
      if symlink_metadata_ok dest w then
        (Err (io dest "already exists; unpack destinations are created fresh"), w)
      else
        let staging := with_file_name dest
          (B "." ++ from_utf8_lossy name ++ B ".oci-unpack." ++ show_N pid) in
        (do! _ := se_map_err (io_err staging) (create_dir staging) in
         do! opened := se_try (open_root staging) in
         match opened with
         | Err e => do! _ := se_try (remove_dir staging) in se_ret (Err (io_err staging e))
         | Ok root =>
             do! moded := se_try (chmod root DIR_MODE) in
             match moded with
             | Err e => do! _ := se_try (remove_dir staging) in se_ret (Err (io_err staging e))
             | Ok _ => se_ret (Ok (MkUnpacker dest staging root limits Report_default 0 [] [] false))
             end
         end) w
  end.
End Unpack.
