(* ===== verification/MemFs.v ===== *)
(** * MemFs: a file system in memory

    An instance of [Sys] that satisfies [SysLaws]: the calls of an unprivileged owner, which
    needs search permission on the directory of a name, write permission to change it and
    read permission on a directory to open it.  The concrete runs of the development use it.
    [DotFs] is the same with [..] resolved to the parent, as Linux does. *)
From S2P Require Import Prelude Text Effects Sys.

Definition EIO : N := 5.
Definition EACCES : N := 13.
Definition ENOTDIR : N := 20.
Definition ENOTEMPTY : N := 39.
Definition ELOOP : N := 40.

Definition oserr {A} (n : N) (text : string) : result A IoError := Err (MkIoError (Some n) (B text)).

Definition has (mode bits : N) : bool := (N.land mode bits =? bits)%N.

Definition fresh_ino (w : fs) : ino := Pos.succ (foldr (fun p acc => Pos.max p.1 acc) 1%positive (map_to_list w)).

Lemma fresh_ino_None w : w !! fresh_ino w = None.
Proof.
  destruct (w !! fresh_ino w) as [nd|] eqn:El; [|done]. exfalso.
  apply elem_of_map_to_list in El.
  assert (Hle : forall l : list (ino * node), (fresh_ino w, nd) ∈ l ->
    (fresh_ino w <= foldr (fun p acc => Pos.max p.1 acc) 1 l)%positive).
  { induction l as [|[k x] l IH]; intros Hin; [by apply elem_of_nil in Hin|].
    apply elem_of_cons in Hin as [[= <- <-]|Hin]; cbn; [lia|]. apply IH in Hin. lia. }
  apply Hle in El. unfold fresh_ino in El. lia.
Qed.

(** The directory [d] with the permission [bits], for the call [k] on its mode and entries. *)
Definition in_dir {A} (bits : N) (d : ino)
    (k : N -> gmap bytes ino -> fs -> result A IoError * fs) : IO A :=
  fun w => match w !! d with
           | Some (NDir m e) => if has m bits then k m e w else (oserr EACCES "Permission denied", w)
           | _ => (oserr ENOTDIR "Not a directory", w)
           end.

Definition add_node (i : ino) (nd : node) (d : ino) (n : bytes) (m : N) (e : gmap bytes ino) (w : fs) : fs :=
  <[i := nd]> (<[d := NDir m (<[n := i]> e)]> w).

(** A new node at a free name. *)
Definition mem_new {A} (d : ino) (n : bytes) (nd : node) (ret : ino -> A) : IO A :=
  in_dir 192 d (fun m e w =>
    match e !! n with
    | Some _ => (oserr EEXIST "File exists", w)
    | None => let i := fresh_ino w in (Ok (ret i), add_node i nd d n m e w)
    end).

Definition mem_openat (d : ino) (n : bytes) : IO ino :=
  in_dir 64 d (fun _ e w =>
    match e !! n with
    | None => (oserr ENOENT "No such file or directory", w)
    | Some i =>
        match w !! i with
        | Some (NDir m _) => if has m 256 then (Ok i, w) else (oserr EACCES "Permission denied", w)
        | Some (NLink _) => (oserr ELOOP "Too many levels of symbolic links", w)
        | _ => (oserr ENOTDIR "Not a directory", w)
        end
    end).

Definition mem_linkat (sd : ino) (s : bytes) (d : ino) (n : bytes) : IO unit :=
  in_dir 64 sd (fun _ es w =>
    match es !! s with
    | None => (oserr ENOENT "No such file or directory", w)
    | Some i =>
        match w !! i with
        | Some (NDir _ _) => (oserr EPERM "Operation not permitted", w)
        | _ => in_dir 192 d (fun m e w =>
            match e !! n with
            | Some _ => (oserr EEXIST "File exists", w)
            | None => (Ok tt, <[d := NDir m (<[n := i]> e)]> w)
            end) w
        end
    end).

Definition mem_fstatat (d : ino) (n : bytes) : IO N :=
  in_dir 64 d (fun _ e w =>
    match e !! n with
    | None => (oserr ENOENT "No such file or directory", w)
    | Some i => match w !! i with
                | Some nd => (Ok (fmt_bits nd), w)
                | None => (oserr EIO "Input/output error", w)
                end
    end).

Definition mem_unlinkat (d : ino) (n : bytes) (dir : bool) : IO unit :=
  in_dir 192 d (fun m e w =>
    match e !! n with
    | None => (oserr ENOENT "No such file or directory", w)
    | Some i =>
        match w !! i with
        | Some (NDir m' e') =>
            if negb dir then (oserr EISDIR "Is a directory", w)
            else if bool_decide (e' = ∅) then (Ok tt, <[d := NDir m (delete n e)]> w)
            else (oserr ENOTEMPTY "Directory not empty", w)
        | _ => if dir then (oserr ENOTDIR "Not a directory", w)
               else (Ok tt, <[d := NDir m (delete n e)]> w)
        end
    end).

Definition mem_fchmodat (d : ino) (n : bytes) (mode : N) : IO unit :=
  in_dir 64 d (fun _ e w =>
    match e !! n with
    | None => (oserr ENOENT "No such file or directory", w)
    | Some i => match w !! i with
                | Some (NLink _) => (oserr ENOENT "No such file or directory", w)
                | _ => (Ok tt, alter (set_mode mode) i w)
                end
    end).

Definition mem_readdir (d : ino) : IO (list bytes) := fun w =>
  match w !! d with
  | Some (NDir _ e) => (Ok (map fst (map_to_list e)), w)
  | _ => (oserr ENOTDIR "Not a directory", w)
  end.

Definition mem_write (f : ino) (buf : bytes) : IO unit := fun w =>
  match w !! f with
  | Some (NFile m c) => (Ok tt, <[f := NFile m (c ++ buf)]> w)
  | _ => (oserr EIO "Input/output error", w)
  end.

#[export] Instance MemFs : Sys := {|
  sys_openat := mem_openat;
  sys_mkdirat d n mode := mem_new d n (NDir mode ∅) (fun _ => tt);
  sys_create d n mode := mem_new d n (NFile mode []) (fun i => i);
  sys_symlinkat t d n := mem_new d n (NLink t) (fun _ => tt);
  sys_linkat := mem_linkat;
  sys_fstatat := mem_fstatat;
  sys_unlinkat := mem_unlinkat;
  sys_fchmod d mode := fun w => (Ok tt, alter (set_mode mode) d w);
  sys_fchmodat := mem_fchmodat;
  sys_readdir := mem_readdir;
  sys_write := mem_write;
  sys_dup _ := fun w => (Ok tt, w)
|}.

(** ** The laws *)

(** Walks the tests of one call on the memory. *)
Ltac mem_cases H :=
  unfold in_dir in H;
  repeat match type of H with
  | context [match ?x with _ => _ end] => destruct x eqn:?; cbn in H
  end;
  injection H as <- <-.

Lemma mem_new_law {A} d n nd (ret : ino -> A) w r w' :
  mem_new d n nd ret w = (r, w') ->
  match r with
  | Ok a => a = ret (fresh_ino w) /\
      exists w1, add_entry w d n (fresh_ino w) w1 /\ w' = <[fresh_ino w := nd]> w1
  | Err e => w' = w /\ (is_errno e EEXIST = true -> is_Some (entry w d n))
  end.
Proof.
  unfold mem_new. intros Hc. mem_cases Hc; try (split; [done|]; vm_compute; discriminate).
  - split; [done|]. intros _. unfold entry. rewrite Heqo. by eexists.
  - split; [done|]. eexists. split; [|reflexivity]. by exists mode, ents.
Qed.

(** The two ends of a case: a refusal whose error ties it to nothing, and a lookup. *)
Ltac refused := split; [done|]; vm_compute; discriminate.
Ltac at_entry := unfold entry; repeat match goal with E : _ !! _ = _ |- _ => rewrite E end.

Lemma mem_unlink_law d n dir w r w' :
  mem_unlinkat d n dir w = (r, w') ->
  match r with
  | Ok _ => (exists i, entry w d n = Some i /\
      if dir then exists m, w !! i = Some (NDir m ∅) else ~ is_NDir w i) /\ del_entry w d n w'
  | Err e => w' = w /\ (is_errno e ENOENT = true -> entry w d n = None) /\
      (is_errno e EISDIR = true -> exists i, entry w d n = Some i /\ is_NDir w i) /\
      is_errno e EPERM = false
  end.
Proof.
  unfold mem_unlinkat. intros Hc.
  mem_cases Hc; try (split; [done|]; split; [vm_compute; discriminate|]; split; [vm_compute; discriminate|done]).
  - split; [done|]. split; [vm_compute; discriminate|]. split; [|done]. intros _.
    exists p. split; [by at_entry|by eexists _, _].
  - split; [|by eexists _, _]. exists p. split; [by at_entry|]. destruct dir; [|done].
    match goal with E : bool_decide _ = true |- _ => apply bool_decide_eq_true in E; subst end.
    by eexists.
  - split; [|by eexists _, _]. exists p. split; [by at_entry|]. intros (m & e & He). congruence.
  - split; [|by eexists _, _]. exists p. split; [by at_entry|]. intros (m & e & He). congruence.
  - split; [|by eexists _, _]. exists p. split; [by at_entry|]. intros (m & e & He). congruence.
  - split; [|by eexists _, _]. exists p. split; [by at_entry|]. intros (m & e & He). congruence.
  - split; [done|]. split; [intros _; by at_entry|]. split; [vm_compute; discriminate|done].
Qed.

#[export] Instance MemFs_laws : SysLaws MemFs.
Proof.
  split; cbn [sys_openat sys_mkdirat sys_create sys_symlinkat sys_linkat sys_fstatat sys_unlinkat
              sys_fchmod sys_fchmodat sys_readdir sys_write sys_dup MemFs].
  - intros d n w r w' _ Hc. unfold mem_openat in Hc. mem_cases Hc; try refused.
    + split; [done|]. split; [by at_entry|by eexists _, _].
    + split; [done|]. intros _. by at_entry.
  - intros d n mode w r w' _ Hc%mem_new_law. destruct r as [[]|e]; [|done].
    destruct Hc as (_ & w1 & Ha & ->). exists (fresh_ino w), mode, w1.
    split; [apply fresh_ino_None|]. by split; [|split].
  - intros d n mode w r w' _ Hc%mem_new_law. destruct r as [i|e]; [|done].
    destruct Hc as (-> & w1 & Ha & ->). exists mode, w1.
    split; [apply fresh_ino_None|]. by split; [|split].
  - intros t d n w r w' _ Hc%mem_new_law. destruct r as [[]|e]; [|done].
    destruct Hc as (_ & w1 & Ha & ->). exists (fresh_ino w), w1.
    split; [apply fresh_ino_None|]. by split.
  - intros sd s d n w r w' _ _ Hc. unfold mem_linkat in Hc. mem_cases Hc; try refused.
    all: try (split; [done|]; intros _; at_entry; by eexists).
    all: exists p; split; [by at_entry|]; split; [intros (? & ? & ?); congruence|by eexists _, _].
  - intros d n w r w' _ Hc. unfold mem_fstatat in Hc. mem_cases Hc; try by split.
    split; [done|]. intros st [= <-]. exists p, n1. split; [by at_entry|]. split; [done|].
    by destruct n1.
  - intros d n w r w' _ Hc%mem_unlink_law. destruct r as [[]|e]; [done|].
    destruct Hc as (-> & He & Hi & Hp). split; [done|]. split; [done|]. split; [done|congruence].
  - intros d n w r w' _ Hc%mem_unlink_law. destruct r as [[]|e]; [|tauto].
    destruct Hc as [(i & He & m & Hm) Hd]. split; [by exists i, m|done].
  - intros d mode w r w' [= <- <-]. done.
  - intros d n mode w r w' _ Hc. unfold mem_fchmodat in Hc. mem_cases Hc; try done.
    all: exists p; split; [by at_entry|]; right; split; [intros [? ?]; congruence|done].
  - intros d w r w' Hc. unfold mem_readdir in Hc. mem_cases Hc; (split; [done|]); try done.
    intros names [= <-]. split; [by eexists _, _|]. intros x _ _. at_entry.
    rewrite list_elem_of_fmap. split.
    + intros ([k i] & -> & Hin%elem_of_map_to_list). by exists i.
    + intros [i Hi]. exists (x, i). split; [done|]. by apply elem_of_map_to_list.
  - intros f buf w r w' Hc. unfold mem_write in Hc. mem_cases Hc; try by right.
    left. exists mode, data, (length buf). rewrite firstn_all. done.
  - by intros d w r w' [= _ <-].
Qed.

(** ** The same host with [..]

    As on Linux, [..] leads to the directory that has the name, wherever that is: the laws allow it, so
    that it is the refusal of such names that confines the unpacker. *)

Definition parent_of (w : fs) (d : ino) : option ino :=
  head (omap (fun in_ => match snd in_ with
                         | NDir _ e => if existsb (fun kv => bool_decide (snd kv = d)) (map_to_list e) then Some (fst in_) else None
                         | _ => None
                         end) (map_to_list w)).

Definition dot_openat (d : ino) (n : bytes) : IO ino := fun w =>
  if beq n (B "..") then (match parent_of w d with Some p => Ok p | None => oserr ENOENT "No such file or directory" end, w)
  else mem_openat d n w.

Definition DotFs : Sys := {|
  sys_openat := dot_openat; sys_mkdirat := sys_mkdirat (Sys := MemFs); sys_create := sys_create (Sys := MemFs);
  sys_symlinkat := sys_symlinkat (Sys := MemFs); sys_linkat := sys_linkat (Sys := MemFs); sys_fstatat := sys_fstatat (Sys := MemFs);
  sys_unlinkat := sys_unlinkat (Sys := MemFs); sys_fchmod := sys_fchmod (Sys := MemFs); sys_fchmodat := sys_fchmodat (Sys := MemFs);
  sys_readdir := sys_readdir (Sys := MemFs); sys_write := sys_write (Sys := MemFs); sys_dup := sys_dup (Sys := MemFs) |}.

Lemma DotFs_laws : SysLaws DotFs.
Proof.
  pose proof MemFs_laws as [L L1 L2 L3 L4 L5 L6 L7 L8 L9 L10 L11 L12]. split; [|assumption..]. intros d n w r w' Hn. cbn [sys_openat DotFs]. unfold dot_openat.
  destruct (beq n (B "..")) eqn:E; [|by apply L]. apply beq_true in E as ->. by destruct Hn as (_ & _ & ? & _).
Qed.

(** The kernel walks out of a directory; the checked call does not. *)
Example dotdot_refused :
  let w : fs := {[ 1%positive := NDir 493 {[ B "staging" := 2%positive ]}; 2%positive := NDir 493 ∅ ]} in
  fst (sys_openat (Sys := DotFs) 2 (B "..") w) = Ok 1%positive /\
  is_ok (fst (open_dir (H := DotFs) (fun n => n) 2 (B "..") w)) = false.
Proof. vm_compute. by split. Qed.
