(* ===== verification/Confine.v ===== *)
(** * Confine: what unpacking cannot touch

    The confinement of the unpacker ([lib.rs] and [sys.rs]): whatever the layers are and
    whatever the calls answer within their laws, no inode outside the staging tree changes and
    no special mode bit reaches the tree. *)
From S2P Require Import Prelude Text EntryName Effects Sys Unpack MemFs.

Definition special_free (n : node) : Prop :=
  match n with
  | NDir m _ | NFile m _ | NOther m => special_bits m = 0%N
  | NLink _ => True
  end.

Section Confine.
Context `{SysLaws}.
Context (debug_str escape_debug debug_name : bytes -> bytes) (debug_kind : EntryType -> bytes).
(** The host before, and the inodes of it that are not the staging tree's. *)
Context (w0 : fs) (outside : gset ino).

Record Inv (w : fs) : Prop := {
  inv_out i : i ∈ outside -> w !! i = w0 !! i /\ is_Some (w0 !! i);
  inv_closed i m e n j : i ∉ outside -> w !! i = Some (NDir m e) -> e !! n = Some j -> j ∉ outside;
  inv_modes i nd : i ∉ outside -> w !! i = Some nd -> special_free nd }.

Lemma inv_fresh w i : Inv w -> w !! i = None -> i ∉ outside.
Proof. intros HI Hi Ho. destruct (inv_out w HI i Ho) as [He [nd Hnd]]. congruence. Qed.

Lemma inv_entry w d n i : Inv w -> d ∉ outside -> entry w d n = Some i -> i ∉ outside.
Proof.
  intros HI Hd He. unfold entry in He. destruct (w !! d) as [[m e| | |]|] eqn:Ed; try done.
  exact (inv_closed w HI _ _ _ _ _ Hd Ed He).
Qed.

(** Replacing an inside inode by one whose names lead inside. *)
Lemma inv_insert w i nd :
  Inv w -> i ∉ outside -> special_free nd ->
  (forall m e n j, nd = NDir m e -> e !! n = Some j -> j ∉ outside) -> Inv (<[i := nd]> w).
Proof.
  intros HI Hi Hs Hc. split.
  - intros j Hj. rewrite lookup_insert_ne by congruence. by apply inv_out.
  - intros j m e n k Hj Hl Hk. apply lookup_insert_Some in Hl as [[<- Hl]|[? Hl]].
    + by eapply Hc.
    + exact (inv_closed w HI _ _ _ _ _ Hj Hl Hk).
  - intros j nd' Hj Hl. apply lookup_insert_Some in Hl as [[<- <-]|[? Hl]]; [done|].
    by eapply inv_modes.
Qed.

Lemma inv_add_entry w d n i w' :
  Inv w -> d ∉ outside -> i ∉ outside -> add_entry w d n i w' -> Inv w'.
Proof.
  intros HI Hd Hi (m & e & Hl & Hn & ->). apply inv_insert; [done|done|exact (inv_modes w HI d _ Hd Hl)|].
  intros m' e' n' j [= <- <-] Hj. apply lookup_insert_Some in Hj as [[<- <-]|[? Hj]]; [done|].
  exact (inv_closed w HI _ _ _ _ _ Hd Hl Hj).
Qed.

Lemma inv_del_entry w d n w' : Inv w -> d ∉ outside -> del_entry w d n w' -> Inv w'.
Proof.
  intros HI Hd (m & e & Hl & ->). apply inv_insert; [done|done|exact (inv_modes w HI d _ Hd Hl)|].
  intros m' e' n' j [= <- <-] Hj. apply lookup_delete_Some in Hj as [? Hj]. exact (inv_closed w HI _ _ _ _ _ Hd Hl Hj).
Qed.

Lemma special_free_set_mode mode nd : special_bits mode = 0%N -> special_free (set_mode mode nd).
Proof. by destruct nd. Qed.

Lemma inv_set_mode w i mode :
  Inv w -> i ∉ outside -> special_bits mode = 0%N -> Inv (alter (set_mode mode) i w).
Proof.
  intros HI Hi Hm. destruct (w !! i) as [nd|] eqn:El.
  - rewrite (alter_alt_Some _ _ _ _ El). apply inv_insert; [done|done|by apply special_free_set_mode|].
    intros m e n j He Hj. destruct nd; try done. injection He as <- <-. exact (inv_closed w HI _ _ _ _ _ Hi El Hj).
  - rewrite alter_id; [done|]. intros x Hx. congruence.
Qed.

(** A computation that keeps the invariant and returns, when it does, what [Q] says. *)
Definition safe {E A} (Q : A -> Prop) (m : SE fs E A) : Prop :=
  triple Inv m (outcome (fun a w => Inv w /\ Q a) (fun _ => Inv)).

Lemma inside_ret {E A} (Q : A -> Prop) (r : result A E) :
  (forall a, r = Ok a -> Q a) -> safe Q (se_ret r).
Proof. intros Hr w Hw. destruct r as [a|e]; cbn; [split; [done|by apply Hr]|done]. Qed.

Lemma inside_bind {E A B} (R : A -> Prop) (Q : B -> Prop) (m : SE fs E A) k :
  safe R m -> (forall a, R a -> safe Q (k a)) -> safe Q (se_bind m k).
Proof.
  intros Hm Hk. eapply triple_bind; [exact Hm|]. intros a w [Hw Ha]. by apply Hk.
Qed.

Lemma safe_try {E F A} (Q : A -> Prop) (m : SE fs E A) :
  safe Q m ->
  safe (E := F) (fun r : result A E => match r with Ok a => Q a | Err _ => True end) (se_try m).
Proof. intros Hm. apply triple_try. eapply triple_post; [exact Hm|]. by intros [a|e] w; cbn. Qed.

Lemma safe_map_err {E F A} (Q : A -> Prop) (f : E -> F) (m : SE fs E A) :
  safe Q m -> safe Q (se_map_err f m).
Proof. intros Hm. apply triple_map_err. eapply triple_post; [exact Hm|]. by intros [a|e] w. Qed.

Lemma safe_weaken {E A} (Q Q' : A -> Prop) (m : SE fs E A) :
  safe Q m -> (forall a, Q a -> Q' a) -> safe Q' m.
Proof. intros Hm HQ. eapply triple_post; [exact Hm|]. intros [a|e] w; cbn; [|done]. naive_solver. Qed.

Lemma safe_iter {E A} (m : A -> SE fs E unit) l :
  (forall x, x ∈ l -> safe (fun _ => True) (m x)) -> safe (fun _ => True) (se_iter m l).
Proof.
  intros Hm. eapply triple_post.
  - apply (triple_iter Inv m l (fun _ => Inv)). intros x Hx.
    eapply triple_post; [by apply Hm|]. intros [a|e] w; cbn; tauto.
  - intros [a|e] w; cbn; tauto.
Qed.

(** *** The calls *)

Definition in_tree (i : ino) : Prop := i ∉ outside.

(** A call on a checked name is safe when the call itself is. *)
Lemma safe_cname {A} (Q : A -> Prop) name (k : bytes -> IO A) :
  (forall c, self_name c -> safe Q (k c)) -> safe Q (se_bind (se_ret (cname debug_name name)) k).
Proof.
  intros Hk. apply inside_bind with (R := self_name); [|done]. apply inside_ret. by intros a [-> ?]%cname_self.
Qed.

(** Opens a [safe] goal about one call into its law. *)
Ltac by_law L :=
  let w := fresh "w" in let HI := fresh "HI" in let r := fresh "r" in let w' := fresh "w'" in
  let Ec := fresh "Ec" in
  intros w HI;
  lazymatch goal with |- context [fst (?m w)] => destruct (m w) as [r w'] eqn:Ec end;
  cbn [fst snd]; apply L in Ec; [|done..].

Lemma safe_dup d : safe (fun _ => True) (sys_dup d).
Proof. by_law dup_law. subst. by destruct r. Qed.

Lemma safe_open_dir d n : in_tree d -> safe in_tree (open_dir debug_name d n).
Proof.
  intros Hd. apply safe_cname. intros c Hc. by_law openat_law. destruct Ec as [-> Hr].
  destruct r as [i|e]; [|done]. split; [done|]. destruct Hr as [He _]. exact (inv_entry _ _ _ _ HI Hd He).
Qed.

Lemma safe_mkdir d n mode :
  in_tree d -> special_bits mode = 0%N -> safe (fun _ => True) (mkdir debug_name d n mode).
Proof.
  intros Hd Hm. apply safe_cname. intros c Hc. by_law mkdirat_law. destruct r as [[]|e]; [|by destruct Ec as [-> _]].
  destruct Ec as (i & m' & w1 & Hf & Ha & -> & Hs). split; [|done].
  pose proof (inv_fresh _ _ HI Hf) as Hi. apply inv_insert; [exact (inv_add_entry _ _ _ _ _ HI Hd Hi Ha)|done| |].
  - destruct Ha as (m & e & Hl & _). cbn. eapply Hs; [exact Hl| |done].
    exact (inv_modes w HI d _ Hd Hl).
  - intros m e n' j [= _ <-] Hj. by rewrite lookup_empty in Hj.
Qed.

Lemma safe_create_file d n mode :
  in_tree d -> special_bits mode = 0%N -> safe in_tree (create_file debug_name d n mode).
Proof.
  intros Hd Hm. apply safe_cname. intros c Hc. by_law create_law. destruct r as [i|e]; [|by destruct Ec as [-> _]].
  destruct Ec as (m' & w1 & Hf & Ha & -> & Hs). pose proof (inv_fresh _ _ HI Hf) as Hi.
  split; [|done]. apply inv_insert; [exact (inv_add_entry _ _ _ _ _ HI Hd Hi Ha)|done|by apply Hs|done].
Qed.

Lemma safe_symlink d t n : in_tree d -> safe (fun _ => True) (symlink debug_name d t n).
Proof.
  intros Hd. apply safe_cname. intros c Hc. apply inside_bind with (R := fun _ => True); [by apply inside_ret|].
  intros t' _. by_law symlinkat_law. destruct r as [[]|e]; [|by destruct Ec as [-> _]].
  destruct Ec as (i & w1 & Hf & Ha & ->). pose proof (inv_fresh _ _ HI Hf) as Hi.
  split; [|done]. apply inv_insert; [exact (inv_add_entry _ _ _ _ _ HI Hd Hi Ha)|done..].
Qed.

Lemma safe_link_from d sd s n :
  in_tree d -> in_tree sd -> safe (fun _ => True) (link_from debug_name d sd s n).
Proof.
  intros Hd Hsd. apply safe_cname. intros c Hc. apply safe_cname. intros c' Hc'. by_law linkat_law.
  destruct r as [[]|e]; [|by destruct Ec as [-> _]]. destruct Ec as (i & He & _ & Ha).
  split; [|done]. refine (inv_add_entry _ _ _ _ _ HI Hd _ Ha). exact (inv_entry _ _ _ _ HI Hsd He).
Qed.

Lemma safe_lstat d n : safe (fun _ => True) (lstat debug_name d n).
Proof. apply safe_cname. intros c Hc. by_law fstatat_law. destruct Ec as [-> _]. by destruct r. Qed.

Lemma safe_unlink d n b : in_tree d -> safe (fun _ => True) (unlink debug_name d n b).
Proof.
  intros Hd. apply safe_cname. intros c Hc. destruct b.
  - by_law rmdir_law. destruct r as [[]|e]; [|by subst]. destruct Ec as [_ Hdel].
    split; [|done]. exact (inv_del_entry _ _ _ _ HI Hd Hdel).
  - by_law unlinkat_law. destruct r as [[]|e]; [|by destruct Ec as [-> _]].
    destruct Ec as [_ Hdel]. split; [|done]. exact (inv_del_entry _ _ _ _ HI Hd Hdel).
Qed.

Lemma safe_chmod d mode : in_tree d -> special_bits mode = 0%N -> safe (fun _ => True) (chmod d mode).
Proof.
  intros Hd Hm. unfold chmod. by_law fchmod_law. destruct r as [[]|e]; [|by subst]. subst.
  split; [|done]. by apply inv_set_mode.
Qed.

Lemma safe_write f buf : in_tree f -> safe (fun _ => True) (sys_write f buf).
Proof.
  intros Hf. by_law write_law. assert (Inv w') as HI'; [|by destruct r].
  destruct Ec as [(m & c & k & Hl & -> & _)|[-> _]]; [|done].
  apply inv_insert; [done|done|exact (inv_modes w HI f _ Hf Hl)|done].
Qed.

Lemma safe_entries d : safe (fun _ => True) (entries d).
Proof.
  apply inside_bind with (R := fun _ => True); [|intros names _; by apply inside_ret].
  by_law readdir_law. destruct Ec as [-> _]. by destruct r.
Qed.

(** [chmod_child] follows a link; after an [unlink] that answered [EISDIR] or [EPERM] there is
    none to follow, the sticky bit being nowhere in the tree. *)
Definition only_dir (d : ino) (n : bytes) (w : fs) : Prop :=
  forall c i, cname debug_name n = Ok c -> entry w d c = Some i -> is_NDir w i.

Lemma special_not_sticky m : special_bits m = 0%N -> N.land m S_ISVTX = 0%N.
Proof.
  unfold special_bits. intros Hm. replace S_ISVTX with (N.land 3584 S_ISVTX) by done.
  by rewrite N.land_assoc, Hm.
Qed.

Lemma unlink_only_dir d n :
  in_tree d ->
  triple Inv (unlink debug_name d n false) (fun r w => Inv w /\
    forall e, r = Err e -> is_errno e EISDIR || is_errno e EPERM = true -> only_dir d n w).
Proof.
  intros Hd w HI. split; [by pose proof (safe_unlink d n false Hd w HI) as Hs;
    destruct (unlink debug_name d n false w) as [[a|e] w']; cbn in *; [destruct Hs|]|].
  unfold unlink, se_bind, se_ret, only_dir. destruct (cname debug_name n) as [c|] eqn:Ec; [|done]. pose proof (cname_self _ _ _ Ec) as [-> Hc].
  destruct (sys_unlinkat d n false w) as [r w'] eqn:Eu. apply unlinkat_law in Eu; [|done]. cbn [fst snd].
  intros e -> Herr c' i [= <-] He. destruct Eu as (-> & _ & Hdir & Hperm).
  apply orb_true_iff in Herr as [Herr|Herr].
  - apply Hdir in Herr as (j & Hj & Hnd). congruence.
  - pose proof He as He'. unfold entry in He'.
    destruct (w !! d) as [[m ents| | |]|] eqn:Ed; try done.
    destruct (Hperm Herr m ents eq_refl) as (j & Hj & Hnd); [|congruence].
    apply special_not_sticky. exact (inv_modes w HI d _ Hd Ed).
Qed.

Lemma chmod_child_only_dir d n mode :
  in_tree d -> special_bits mode = 0%N ->
  triple (fun w => Inv w /\ only_dir d n w) (chmod_child debug_name d n mode)
    (outcome (fun _ => Inv) (fun _ => Inv)).
Proof.
  intros Hd Hm w [HI Ho]. unfold chmod_child, se_bind, se_ret.
  destruct (cname debug_name n) as [c|] eqn:Ec; [|done].
  destruct (sys_fchmodat d c mode w) as [r w'] eqn:Ef. apply fchmodat_law in Ef; [|by apply cname_self in Ec as [-> ?]]. cbn [fst snd].
  destruct r as [[]|e]; cbn [outcome]; [|by subst]. destruct Ef as (i & He & Hi).
  pose proof (Ho c i Ec He) as (m & ents & Hl).
  destruct Hi as [[[t Ht] _]|[_ ->]]; [congruence|]. apply inv_set_mode; [done| |done].
  exact (inv_entry _ _ _ _ HI Hd He).
Qed.

Lemma safe_remove_child_go n d name :
  in_tree d -> safe (fun _ => True) (remove_child_go debug_name n d name).
Proof.
  revert d name. induction n as [|n IH]; intros d name Hd; [by apply inside_ret|].
  cbn [remove_child_go].
  eapply triple_bind with (R := fun r w => Inv w /\
    forall e, r = Err e -> is_errno e EISDIR || is_errno e EPERM = true -> only_dir d name w).
  { apply triple_try. eapply triple_post; [by apply unlink_only_dir|]. by intros r w. }
  intros [[]|e]; [intros w [HI _]; by split|].
  destruct (is_errno e ENOENT); [intros w [HI _]; by split|].
  destruct (is_errno e EISDIR || is_errno e EPERM) eqn:Ee; [|by intros w [HI _]].
  eapply triple_bind with (R := fun _ => Inv).
  { apply triple_try. eapply triple_conseq; [by apply (chmod_child_only_dir d name 448)| |].
    - intros w [HI Ho]. split; [done|]. by apply (Ho e).
    - by intros [[]|e'] w. }
  intros _. apply inside_bind with (R := in_tree); [by apply safe_open_dir|]. intros sub Hsub.
  apply inside_bind with (R := fun _ => True); [apply safe_entries|]. intros children _.
  apply inside_bind with (R := fun _ => True); [|intros _ _; by apply safe_unlink].
  apply safe_iter. intros child _. by apply IH.
Qed.

Lemma safe_remove_child d name limits depth :
  in_tree d -> safe (fun _ => True) (remove_child debug_name d name limits depth).
Proof. apply safe_remove_child_go. Qed.

Lemma safe_prune_go n d prefix keep :
  in_tree d -> safe (fun _ => True) (prune_go debug_name n d prefix keep).
Proof.
  revert d prefix. induction n as [|n IH]; intros d prefix Hd; [by apply inside_ret|].
  cbn [prune_go]. apply inside_bind with (R := fun _ => True); [apply safe_entries|].
  intros children _. apply safe_iter. intros child _.
  destruct (negb _); [by apply (safe_remove_child_go (S n))|].
  apply inside_bind with (R := fun _ => True); [apply safe_lstat|]. intros st _.
  destruct (is_dir st); [|by apply inside_ret].
  apply inside_bind with (R := in_tree); [by apply safe_open_dir|]. intros sub Hsub. by apply IH.
Qed.

(** *** The walks *)

Lemma safe_try_clone d : in_tree d -> safe in_tree (try_clone d).
Proof.
  intros Hd. apply inside_bind with (R := fun _ => True); [apply safe_dup|].
  intros _ _. apply inside_ret. by intros a [= <-].
Qed.

Definition found_in_tree (o : option ino) : Prop := forall d, o = Some d -> in_tree d.

Lemma safe_existing_go cur seen rest e :
  in_tree cur -> safe found_in_tree (existing_go debug_name cur seen rest e).
Proof.
  revert cur seen. induction rest as [|c rest IH]; intros cur seen Hcur; cbn [existing_go].
  { apply inside_ret. intros o [= <-] d [= <-]. done. }
  eapply inside_bind; [apply safe_try; by apply safe_open_dir|].
  intros [d|err] Hd; [by apply IH|].
  destruct (is_errno err ENOENT); [apply inside_ret; by intros o [= <-]|].
  eapply inside_bind; [apply safe_map_err, safe_lstat|]. intros st _.
  destruct (is_symlink st); apply inside_ret; by intros o [= <-].
Qed.

Lemma safe_dir_existing root components e :
  in_tree root -> safe found_in_tree (dir_existing debug_name root components e).
Proof.
  intros Hr. eapply inside_bind; [apply safe_map_err; by apply safe_try_clone|].
  intros cur Hcur. by apply safe_existing_go.
Qed.

Lemma safe_opened cur comp so_far :
  in_tree cur ->
  safe in_tree (do! made := se_map_err (io_err so_far) (open_dir debug_name cur comp) in
                do! _ := se_map_err (io_err so_far) (chmod made DIR_MODE) in se_ret (Ok made)).
Proof.
  intros Hc. eapply inside_bind; [apply safe_map_err; by apply safe_open_dir|]. intros made Hm.
  eapply inside_bind; [apply safe_map_err; by apply safe_chmod|]. intros _ _.
  apply inside_ret. by intros a [= <-].
Qed.

Lemma safe_create_step cur comp so_far e limits :
  in_tree cur -> safe in_tree (create_step debug_name cur comp so_far e limits).
Proof.
  intros Hc. eapply inside_bind; [apply safe_try; by apply safe_open_dir|].
  intros [d|err] Hd; [apply inside_ret; by intros a [= <-]|].
  destruct (is_errno err ENOENT).
  { eapply inside_bind; [apply safe_try; by apply safe_mkdir|]. intros _ _. by apply safe_opened. }
  eapply inside_bind; [apply safe_map_err, safe_lstat|]. intros st _.
  destruct (is_symlink st); [by apply inside_ret|]. destruct (is_dir st); [by apply inside_ret|].
  eapply inside_bind; [apply safe_map_err; by apply safe_remove_child|]. intros _ _.
  eapply inside_bind; [apply safe_map_err; by apply safe_mkdir|]. intros _ _. by apply safe_opened.
Qed.

Lemma safe_ensure_dir parent name path limits :
  in_tree parent -> safe (fun _ => True) (ensure_dir debug_name parent name path limits).
Proof.
  intros Hp. eapply inside_bind; [apply safe_try; by apply safe_mkdir|].
  intros [[]|err] _; [by apply inside_ret|]. destruct (is_errno err EEXIST); [|by apply inside_ret].
  eapply inside_bind; [apply safe_map_err, safe_lstat|]. intros st _.
  destruct (is_dir st); [by apply inside_ret|].
  eapply inside_bind; [apply safe_map_err; by apply safe_remove_child|]. intros _ _.
  apply safe_map_err. by apply safe_mkdir.
Qed.

Lemma safe_write_symlink u parent last path target :
  in_tree parent -> safe (fun _ => True) (write_symlink debug_name u parent last path target).
Proof.
  intros Hp. eapply inside_bind; [apply safe_try; by apply safe_symlink|].
  intros [[]|err] _; [by apply inside_ret|]. destruct (negb _); [by apply inside_ret|].
  eapply inside_bind; [apply safe_map_err; by apply safe_remove_child|]. intros _ _.
  apply safe_map_err. by apply safe_symlink.
Qed.

Lemma safe_hardlink u parent last target path :
  in_tree (u_root u) -> in_tree parent ->
  safe (fun _ => True) (hardlink debug_str escape_debug debug_name u parent last target path).
Proof.
  intros Hr Hp. unfold hardlink.
  destruct (plan _ _ _ _) as [[cs| | |]|]; [|by apply inside_ret..].
  destruct (split_last cs) as [head tail].
  eapply inside_bind; [apply safe_try; by apply safe_dir_existing|].
  intros [[td|]|err] Hd; [|by apply inside_ret|by destruct err; apply inside_ret].
  pose proof (Hd td eq_refl) as Htd.
  eapply inside_bind; [apply safe_try; by apply safe_link_from|].
  intros [[]|err] _; [by apply inside_ret|].
  destruct (is_errno err EEXIST); [|destruct (is_errno err ENOENT); by apply inside_ret].
  eapply inside_bind; [apply safe_map_err; by apply safe_remove_child|]. intros _ _.
  apply safe_map_err. by apply safe_link_from.
Qed.

Lemma safe_apply_deferred root item :
  in_tree root -> special_bits item.2 = 0%N ->
  safe (fun _ => True) (apply_deferred debug_name root item).
Proof.
  intros Hr Hm. destruct item as [cs mode]. unfold apply_deferred.
  eapply inside_bind; [apply safe_try; by apply safe_dir_existing|].
  intros [[d|]|err] Hd; [|by apply inside_ret|by destruct err; apply inside_ret].
  apply safe_map_err. apply safe_chmod; [by apply Hd|done].
Qed.

Lemma safe_still_present root path :
  in_tree root -> safe (fun _ => True) (still_present debug_name root path).
Proof.
  intros Hr. unfold still_present. destruct (split_last (split "/" path)) as [head last].
  eapply inside_bind; [apply safe_try; by apply safe_dir_existing|].
  intros [[d|]|err] Hd; [|by apply inside_ret|by destruct err; apply inside_ret].
  eapply inside_bind; [apply safe_try, safe_lstat|]. intros st _. by apply inside_ret.
Qed.

Lemma safe_teardown root limits : in_tree root -> safe (fun _ => True) (teardown debug_name root limits).
Proof.
  intros Hr. eapply inside_bind; [apply safe_try, safe_entries|].
  intros [children|err] _; [|by apply inside_ret]. apply safe_iter. intros c _.
  eapply inside_bind; [apply safe_try; by apply safe_remove_child|]. intros _ _. by apply inside_ret.
Qed.

(** *** The unpacker *)

Context (root : ino) (Hroot : in_tree root).

Record MInv (s : St) : Prop := {
  minv_fs : Inv (st_fs s);
  minv_root : u_root (st_u s) = root;
  minv_deferred : Forall (fun cm => special_bits cm.2 = 0%N) (deferred_modes (st_u s)) }.

Definition safeM {A} (Q : A -> Prop) (m : M A) : Prop :=
  triple MInv m (outcome (fun a s => MInv s /\ Q a) (fun _ => MInv)).

Lemma safeM_ret {A} (Q : A -> Prop) (r : result A Refusal) :
  (forall a, r = Ok a -> Q a) -> safeM Q (se_ret r).
Proof. intros Hr s Hs. destruct r as [a|e]; cbn; [split; [done|by apply Hr]|done]. Qed.

Lemma safeM_bind {A B} (R : A -> Prop) (Q : B -> Prop) (m : M A) k :
  safeM R m -> (forall a, R a -> safeM Q (k a)) -> safeM Q (se_bind m k).
Proof. intros Hm Hk. eapply triple_bind; [exact Hm|]. intros a s [Hs Ha]. by apply Hk. Qed.

Lemma safeM_fs {A} (Q : A -> Prop) (m : SE fs Refusal A) : safe Q m -> safeM Q (on_fs m).
Proof.
  intros Hm s [Hf Hr Hd]. specialize (Hm _ Hf). unfold on_fs.
  destruct (m (st_fs s)) as [[a|e] w]; cbn in *; [destruct Hm as [Hw Ha]; split; [|done]|]; by split.
Qed.

Lemma safeM_mod_u f :
  (forall u, u_root (f u) = u_root u) ->
  (forall u, Forall (fun cm => special_bits cm.2 = 0%N) (deferred_modes u) ->
     Forall (fun cm => special_bits cm.2 = 0%N) (deferred_modes (f u))) ->
  safeM (fun _ => True) (mod_u f).
Proof.
  intros Hr Hd s [Hf Hroot' Hdef]. cbn. split; [|done]. split; cbn; [done| |by apply Hd].
  by rewrite Hr.
Qed.

Lemma safeM_mod_rep f : safeM (fun _ => True) (mod_rep f).
Proof. intros s [Hf Hr Hd]. split; [by split|done]. Qed.
Lemma safeM_add_written p : safeM (fun _ => True) (add_written p).
Proof. intros s [Hf Hr Hd]. split; [by split|done]. Qed.
Lemma safeM_get_u :
  safeM (fun u => u_root u = root /\ Forall (fun cm => special_bits cm.2 = 0%N) (deferred_modes u)) get_u.
Proof. intros s [Hf Hr Hd]. split; [by split|done]. Qed.
Lemma safeM_get_rep : safeM (fun _ => True) get_rep.
Proof. intros s Hs. by split. Qed.
Lemma safeM_get_written : safeM (fun _ => True) get_written.
Proof. intros s Hs. by split. Qed.

Lemma host_mode_free raw : special_bits (host_mode raw) = 0%N.
Proof. unfold special_bits, host_mode. rewrite <- N.land_assoc. apply N.land_0_r. Qed.

Lemma Forall_bt_insert {K V} (cmp : K -> K -> comparison) (P : K * V -> Prop) k v m :
  P (k, v) -> Forall P m -> Forall P (bt_insert cmp k v m).
Proof.
  intros Hk Hm. induction Hm as [|[k' v'] m Hkv Hm IH]; cbn; [by constructor|].
  destruct (cmp k k'); repeat constructor; done.
Qed.

Lemma Forall_bt_remove {K V} (cmp : K -> K -> comparison) (P : K * V -> Prop) k m :
  Forall P m -> Forall P (bt_remove cmp k m).
Proof.
  intros Hm. induction Hm as [|[k' v'] m Hkv Hm IH]; cbn; [by constructor|].
  destruct (cmp k k'); [done|by constructor..].
Qed.

Lemma safeM_create_go cur seen rest e limits :
  in_tree cur -> safeM in_tree (create_go debug_name cur seen rest e limits).
Proof.
  revert cur seen. induction rest as [|c rest IH]; intros cur seen Hc; cbn [create_go].
  { apply safeM_ret. by intros a [= <-]. }
  eapply safeM_bind; [apply safeM_fs; by apply safe_create_step|]. intros d Hd.
  eapply safeM_bind; [apply safeM_add_written|]. intros _ _. by apply IH.
Qed.

Lemma safeM_dir_create components e : safeM in_tree (dir_create debug_name components e).
Proof.
  eapply safeM_bind; [apply safeM_get_u|]. intros u [Hu _].
  eapply safeM_bind; [apply safeM_fs, safe_map_err; apply safe_try_clone; by rewrite Hu|].
  intros cur Hc. by apply safeM_create_go.
Qed.

Lemma safeM_set_dir_mode parent name components mode path :
  in_tree parent -> special_bits mode = 0%N ->
  safeM (fun _ => True) (set_dir_mode debug_name parent name components mode path).
Proof.
  intros Hp Hm. unfold set_dir_mode. destruct (_ =? _)%N.
  - eapply safeM_bind.
    + apply safeM_fs, safe_map_err. eapply inside_bind; [by apply safe_open_dir|].
      intros d Hd. by apply safe_chmod.
    + intros _ _. apply safeM_mod_u; [done|]. intros u. apply Forall_bt_remove.
  - apply safeM_mod_u; [done|]. intros u. by apply Forall_bt_insert.
Qed.

Lemma safeM_copy_bounded chunks n file path :
  in_tree file -> safeM (fun _ => True) (copy_bounded chunks n file path).
Proof.
  intros Hf. revert n. induction chunks as [|[[|x buf]|e] rest IH]; intros n; cbn [copy_bounded];
    [by apply safeM_ret..| |by apply safeM_ret].
  eapply safeM_bind; [apply safeM_get_u|]. intros u _.
  eapply safeM_bind; [apply safeM_get_rep|]. intros rep _.
  destruct (_ <? _)%N; [by apply safeM_ret|]. destruct (_ <? _)%N; [by apply safeM_ret|].
  eapply safeM_bind; [apply safeM_fs, safe_map_err; by apply safe_write|]. intros _ _.
  eapply safeM_bind; [apply safeM_mod_rep|]. intros _ _. apply IH.
Qed.

Lemma safeM_write_file e parent last path mode :
  in_tree parent -> special_bits mode = 0%N ->
  safeM (fun _ => True) (write_file debug_name e parent last path mode).
Proof.
  intros Hp Hm. eapply safeM_bind; [apply safeM_get_u|]. intros u _.
  eapply safeM_bind; [apply safeM_fs, safe_try; by apply safe_create_file|]. intros r Hr.
  apply safeM_bind with (R := in_tree).
  { destruct r as [f|err]; [apply safeM_ret; by intros a [= <-]|].
    destruct (is_errno err EEXIST); [|by apply safeM_ret].
    eapply safeM_bind; [apply safeM_fs, safe_map_err; by apply safe_remove_child|]. intros _ _.
    apply safeM_fs, safe_map_err. by apply safe_create_file. }
  intros file Hf. eapply safeM_bind; [apply safeM_fs, safe_map_err; by apply safe_chmod|].
  intros _ _. by apply safeM_copy_bounded.
Qed.

Lemma safeM_materialise e parent components last path raw_mode :
  in_tree parent ->
  safeM (fun _ => True)
    (materialise debug_str escape_debug debug_name e parent components last path raw_mode).
Proof.
  intros Hp. pose proof (host_mode_free raw_mode) as Hm.
  eapply safeM_bind; [apply safeM_get_u|]. intros u [Hu _].
  destruct (entry_type e); try by apply safeM_ret.
  - by apply safeM_write_file.
  - destruct (link_name_bytes e) as [t|]; [|by apply safeM_ret].
    apply safeM_fs, safe_hardlink; [by rewrite Hu|done].
  - destruct (link_name_bytes e) as [t|]; [|by apply safeM_ret].
    destruct (beq t []); [by apply safeM_ret|]. apply safeM_fs. by apply safe_write_symlink.
  - eapply safeM_bind; [apply safeM_fs; by apply safe_ensure_dir|]. intros _ _.
    by apply safeM_set_dir_mode.
  - by apply safeM_write_file.
Qed.

Lemma safeM_write_entry e components :
  safeM (fun _ => True) (write_entry debug_str escape_debug debug_name debug_kind e components).
Proof.
  unfold write_entry. destruct (bool_decide _); [apply safeM_mod_rep|].
  destruct (bool_decide _); [by apply safeM_ret|]. destruct (negb _); [by apply safeM_ret|].
  eapply safeM_bind with (R := fun _ => True); [by apply safeM_ret|]. intros mode _.
  eapply safeM_bind; [apply safeM_mod_rep|]. intros _ _.
  destruct (split_last components) as [head last].
  eapply safeM_bind; [apply safeM_dir_create|]. intros parent Hp.
  eapply safeM_bind; [by apply safeM_materialise|]. intros _ _.
  eapply safeM_bind; [by apply safeM_mod_u|]. intros _ _.
  eapply safeM_bind; [apply safeM_mod_rep|]. intros _ _. apply safeM_add_written.
Qed.

Lemma safeM_whiteout parent target : safeM (fun _ => True) (whiteout debug_name parent target).
Proof.
  eapply safeM_bind; [apply safeM_mod_rep|]. intros _ _.
  eapply safeM_bind; [apply safeM_get_u|]. intros u [Hu _].
  eapply safeM_bind; [apply safeM_fs, safe_dir_existing; by rewrite Hu|].
  intros [d|] Hd; [|by apply safeM_ret]. apply safeM_fs, safe_map_err, safe_remove_child. by apply Hd.
Qed.

Lemma safeM_opaque parent : safeM (fun _ => True) (opaque debug_name parent).
Proof.
  eapply safeM_bind; [apply safeM_mod_rep|]. intros _ _.
  eapply safeM_bind; [apply safeM_get_u|]. intros u [Hu _].
  eapply safeM_bind; [apply safeM_get_written|]. intros written _.
  eapply safeM_bind; [apply safeM_fs, safe_dir_existing; by rewrite Hu|].
  intros [d|] Hd; [|by apply safeM_ret]. apply safeM_fs, safe_map_err, safe_prune_go. by apply Hd.
Qed.

Lemma safeM_iter {A} (m : A -> M unit) l :
  (forall x, x ∈ l -> safeM (fun _ => True) (m x)) -> safeM (fun _ => True) (se_iter m l).
Proof.
  intros Hm. eapply triple_post.
  - apply (triple_iter MInv m l (fun _ => MInv)). intros x Hx.
    eapply triple_post; [by apply Hm|]. intros [a|e] w; cbn; tauto.
  - intros [a|e] w; cbn; tauto.
Qed.

Lemma safeM_apply_entry item :
  safeM (fun _ => True) (apply_entry debug_str escape_debug debug_name debug_kind item).
Proof.
  eapply safeM_bind with (R := fun _ => True); [by apply safeM_ret|]. intros e _.
  eapply safeM_bind; [by apply safeM_mod_u|]. intros _ _.
  eapply safeM_bind; [apply safeM_get_u|]. intros u _.
  destruct (_ <? _)%N; [by apply safeM_ret|].
  eapply safeM_bind with (R := fun _ => True); [by apply safeM_ret|]. intros p _.
  destruct p as [cs|parent t|parent|].
  - apply safeM_write_entry.
  - apply safeM_whiteout.
  - apply safeM_opaque.
  - by apply safeM_ret.
Qed.

Lemma safeM_apply_layer items :
  safeM (fun _ => True) (apply_layer debug_str escape_debug debug_name debug_kind items).
Proof.
  eapply safeM_bind; [apply safeM_mod_rep|]. intros _ _.
  eapply safeM_bind with (R := fun _ => True).
  { intros s [Hf Hr Hd]. split; [by split|done]. }
  intros _ _. eapply safeM_bind with (R := fun _ => True); [by apply safeM_ret|]. intros its _.
  eapply safeM_bind; [apply safeM_iter; intros x _; apply safeM_apply_entry|]. intros _ _.
  eapply safeM_bind; [apply safeM_get_rep|]. intros rep _.
  eapply safeM_bind; [by apply safeM_mod_u|]. intros _ _.
  eapply safeM_bind; [by apply safeM_mod_u|]. intros _ _.
  eapply safeM_bind; [apply safeM_get_u|]. intros u _. by apply safeM_ret.
Qed.

Lemma safeM_settle : safeM (fun _ => True) (settle debug_name).
Proof.
  eapply safeM_bind; [apply safeM_get_u|]. intros u [Hu Hd].
  eapply safeM_bind; [by apply safeM_mod_u|]. intros _ _.
  eapply safeM_bind.
  { apply safeM_fs, safe_iter. intros item Hi. apply safe_apply_deferred; [by rewrite Hu|].
    rewrite Forall_forall in Hd. apply Hd. by apply list_elem_of_In, in_rev, list_elem_of_In. }
  intros _ _. eapply safeM_bind; [|intros _ _; by apply safeM_mod_u].
  eapply safeM_bind; [apply safeM_get_u|]. intros u' [Hu' _]. apply safeM_iter. intros p _.
  eapply safeM_bind; [apply safeM_fs, safe_still_present; by rewrite Hu'|].
  intros present _. destruct present; [by apply safeM_ret|by apply safeM_mod_u].
Qed.
End Confine.

(** ** The theorem *)

(** The layers of an image, applied in order until one is refused. *)
Definition apply_layers `{Sys} debug_str escape_debug debug_name debug_kind
    (layers : list (result (list (result TarEntry bytes)) bytes)) : M unit :=
  se_iter (fun items =>
    do! _ := apply_layer debug_str escape_debug debug_name debug_kind items in se_ret (Ok tt)) layers.

(** The host as it was, but for what is beneath the root; and a tree without special bits. *)
Definition confined (w0 : fs) (root : ino) (w : fs) : Prop :=
  (forall i nd, i <> root -> w0 !! i = Some nd -> w !! i = Some nd) /\
  (forall i nd, (i = root \/ w0 !! i = None) -> w !! i = Some nd -> special_free nd).

Lemma Inv_start w0 root :
  w0 !! root = Some (NDir DIR_MODE ∅) -> Inv w0 (dom w0 ∖ {[root]}) w0.
Proof.
  intros Hr.
  assert (Hin : forall i nd, i ∉ dom w0 ∖ {[root]} -> w0 !! i = Some nd -> i = root).
  { intros i nd Hi Hl. destruct (bool_decide_reflect (i = root)) as [|Hne]; [done|].
    exfalso. apply Hi. apply elem_of_difference. split; [by eapply elem_of_dom_2|].
    by rewrite elem_of_singleton. }
  split.
  - intros i [Hi _]%elem_of_difference. split; [done|]. by apply elem_of_dom.
  - intros i m e n j Hi Hl Hj. pose proof (Hin _ _ Hi Hl) as ->. rewrite Hr in Hl.
    injection Hl as <- <-. by rewrite lookup_empty in Hj.
  - intros i nd Hi Hl. pose proof (Hin _ _ Hi Hl) as ->. rewrite Hr in Hl. by injection Hl as <-.
Qed.

Lemma Inv_confined w0 root w : Inv w0 (dom w0 ∖ {[root]}) w -> confined w0 root w.
Proof.
  intros HI. split.
  - intros i nd Hne Hl. destruct (inv_out _ _ _ HI i) as [-> _]; [|done].
    apply elem_of_difference. split; [by eapply elem_of_dom_2|]. by rewrite elem_of_singleton.
  - intros i nd Hi Hl. eapply (inv_modes _ _ _ HI); [|done]. rewrite elem_of_difference, elem_of_singleton.
    intros [Hd Hne]. destruct Hi as [|Hn]; [done|]. by apply not_elem_of_dom in Hn.
Qed.

(** C5: Unpacking is confined: over any host whose calls keep their laws, which say nothing of what a call
    does with [..], a path or any other name that is not one component (so that it rests on the refusal of
    such names before every call), starting from a fresh staging root, whatever the layers hold (links planted by one layer and written through by
    the next, markers, hard links, devices, modes) and wherever a call fails, applying them,
    then settling the modes and the recordings, then tearing the tree down after a refusal,
    leaves every inode of the host but the staging root as it was: contents, names and modes.
    And no setuid, setgid or sticky bit is ever on a node of the tree. *)
Theorem unpack_confined `{SysLaws} debug_str escape_debug debug_name debug_kind layers w0 u rep written
    (Hroot : w0 !! u_root u = Some (NDir DIR_MODE ∅)) (Hd : deferred_modes u = []) :
  let '(_, s) := apply_layers debug_str escape_debug debug_name debug_kind layers
                   (MkSt w0 u rep written) in
  let '(_, s') := settle debug_name s in
  confined w0 (u_root u) (st_fs s) /\ confined w0 (u_root u) (st_fs s') /\
  confined w0 (u_root u) (snd (teardown debug_name (u_root u) (u_limits u) (st_fs s))) /\
  confined w0 (u_root u) (snd (teardown debug_name (u_root u) (u_limits u) (st_fs s'))).
Proof.
  set (out := dom w0 ∖ {[u_root u]}).
  assert (Hin : in_tree out (u_root u)) by (intros [_ Hn]%elem_of_difference; by apply Hn, elem_of_singleton).
  assert (Hs : MInv w0 out (u_root u) (MkSt w0 u rep written)).
  { split; cbn; [by apply Inv_start|done|by rewrite Hd]. }
  assert (Hl : safeM w0 out (u_root u) (fun _ => True)
                 (apply_layers debug_str escape_debug debug_name debug_kind layers)).
  { apply safeM_iter. intros items _. eapply safeM_bind; [by apply safeM_apply_layer|].
    intros _ _. by apply safeM_ret. }
  specialize (Hl _ Hs).
  destruct (apply_layers _ _ _ _ layers _) as [r s]. cbn [fst snd] in Hl.
  assert (Hs1 : MInv w0 out (u_root u) s) by (destruct r as [a|e]; cbn in Hl; tauto). clear Hl.
  pose proof (safeM_settle debug_name w0 out (u_root u) Hin s Hs1) as Hs2.
  destruct (settle debug_name s) as [r' s']. cbn [fst snd] in Hs2.
  assert (Hs3 : MInv w0 out (u_root u) s') by (destruct r' as [a|e]; cbn in Hs2; tauto). clear Hs2.
  assert (Ht : forall w, Inv w0 out w -> Inv w0 out (snd (teardown debug_name (u_root u) (u_limits u) w))).
  { intros w Hw. pose proof (safe_teardown debug_name w0 out _ (u_limits u) Hin w Hw) as Hq.
    destruct (teardown _ _ _ w) as [[a|e] w']; cbn in Hq |- *; tauto. }
  destruct Hs1 as [H1 _ _], Hs3 as [H2 _ _].
  split; [by apply Inv_confined|]. split; [by apply Inv_confined|].
  split; by apply Inv_confined, Ht.
Qed.

(** ** The cross-layer link of [lib.rs]'s introduction, run *)

Module Escape.
Definition host : fs :=
  {[ 1%positive := NDir DIR_MODE ∅;
     2%positive := NDir 493 {[ B ".bashrc" := 3%positive ]};
     3%positive := NFile 420 (B "alias ls") ]}.
Definition unpacker : Unpacker :=
  MkUnpacker (B "/dest") (B "/.dest") 1 Limits_default Report_default 0 [] [] false.
Definition tar_entry (path : string) (kind : EntryType) (mode : N) (link : option string)
    (content : string) : result TarEntry bytes :=
  Ok (MkTarEntry (B path) kind (Ok mode) (B <$> link) (Ok None) [Ok (B content)]).
Definition layer1 := Ok (E := bytes) [tar_entry "bin/su" Regular 2541 None "su";
  tar_entry "foo" Symlink 511 (Some "/home/melissa") ""].
Definition layer2 := Ok (E := bytes) [tar_entry "foo/.bashrc" Regular 420 None "rm -rf /"].
Definition id (s : bytes) : bytes := s.
Definition run := apply_layers id id id (fun _ => []) [layer1; layer2]
  (MkSt host unpacker Report_default ∅).
End Escape.

Lemma unpack_confined_witness :
  fst Escape.run = Err (SymlinkEscape (B "foo/.bashrc") (B "foo")) /\
  confined Escape.host 1 (st_fs (snd Escape.run)).
Proof.
  split; [vm_compute; reflexivity|].
  pose proof (unpack_confined Escape.id Escape.id Escape.id (fun _ => []) [Escape.layer1; Escape.layer2]
    Escape.host Escape.unpacker Report_default ∅ eq_refl eq_refl) as Hc.
  unfold Escape.run. destruct (apply_layers _ _ _ _ _ _) as [r s].
  destruct (settle _ s) as [r' s']. exact (proj1 Hc).
Defined.
