(* ===== verification/Whiteouts.v ===== *)
(** * Whiteouts: what deletes delete, and no more

    The delete walks of [crates/oci-unpack/src/lib.rs]: [remove_child], [prune], and the
    whiteout and opaque markers that use them. *)
From S2P Require Import Prelude Text EntryName Effects Sys Unpack MemFs Confine.

(** ** Paths below a directory, no link followed *)

(** The directory a chain of names leads to. *)
Fixpoint dir_at (w : fs) (d : ino) (names : list bytes) : option ino :=
  match names with
  | [] => Some d
  | n :: rest =>
      i ← entry w d n;
      match w !! i with Some (NDir _ _) => dir_at w i rest | _ => None end
  end.

(** A name the system takes for itself. *)
Definition plain (n : bytes) : Prop := n <> B "." /\ n <> B "..".

(** The node at a nonempty path below [d]. *)
Fixpoint node_at (w : fs) (d : ino) (names : list bytes) : option ino :=
  match names with
  | [] => None
  | [n] => entry w d n
  | n :: rest =>
      i ← entry w d n;
      match w !! i with Some (NDir _ _) => node_at w i rest | _ => None end
  end.

(** ** Deleting only shrinks *)

(** Every name of [w'] was there in [w], for the same inode, and no inode became a directory. *)
Definition shrinks (w w' : fs) : Prop :=
  (forall d n i, entry w' d n = Some i -> entry w d n = Some i) /\
  (forall i, is_NDir w' i -> is_NDir w i).

#[export] Instance shrinks_preorder : PreOrder shrinks.
Proof.
  split; [by split|]. intros w1 w2 w3 [H1 H2] [H3 H4]. split; eauto.
Qed.

Lemma shrinks_del w d n w' : del_entry w d n w' -> shrinks w w'.
Proof.
  intros (m & e & Hl & ->). split.
  - intros d' n' i. unfold entry. destruct (decide_rel (=) d' d) as [->|Hne].
    + rewrite lookup_insert_eq, Hl. intros Hd. by apply lookup_delete_Some in Hd as [_ ?].
    + by rewrite lookup_insert_ne.
  - intros i (m' & e' & Hi). apply lookup_insert_Some in Hi as [[<- [= <- <-]]|[_ Hi]];
      [by exists m, e|by exists m', e'].
Qed.

Lemma shrinks_chmod w i mode : shrinks w (alter (set_mode mode) i w).
Proof.
  split.
  - intros d n j. unfold entry. rewrite lookup_alter. case_decide; subst; [|done].
    by destruct (w !! d) as [[]|].
  - intros j (m & e & Hj). rewrite lookup_alter in Hj. case_decide; subst; [|by exists m, e].
    destruct (w !! j) as [[]|] eqn:El; try done. unfold is_NDir. rewrite El. eauto.
Qed.

Section Deleting.
Context `{SysLaws}.
Context (debug_name : bytes -> bytes).

(** A computation after which there is no more than before. *)
Definition shrinking {E A} (m : SE fs E A) : Prop :=
  forall w, triple (shrinks w) m (fun _ => shrinks w).

Lemma shrinking_at {E A} (m : SE fs E A) :
  (forall w, shrinks w (snd (m w))) -> shrinking m.
Proof. intros Hm w0 w Hw. by rewrite Hw. Qed.

Lemma shrinking_elim {E A} (m : SE fs E A) w : shrinking m -> shrinks w (snd (m w)).
Proof. intros Hm. by apply Hm. Qed.

Lemma shrinking_ret {E A} (r : result A E) : shrinking (se_ret r).
Proof. by apply shrinking_at. Qed.
Lemma shrinking_bind {E A B} (m : SE fs E A) (k : A -> SE fs E B) :
  shrinking m -> (forall a, shrinking (k a)) -> shrinking (se_bind m k).
Proof.
  intros Hm Hk w. eapply triple_bind with (R := fun _ => shrinks w); [|intros a; apply Hk].
  eapply triple_post; [apply Hm|]. by intros [a|e].
Qed.
Lemma shrinking_try {E F A} (m : SE fs E A) : shrinking m -> shrinking (E := F) (se_try m).
Proof. intros Hm w. apply triple_try. by eapply triple_post. Qed.
Lemma shrinking_iter {E A} (m : A -> SE fs E unit) l :
  (forall x, shrinking (m x)) -> shrinking (se_iter m l).
Proof.
  intros Hm. induction l as [|x l IH]; [apply shrinking_ret|]. by apply shrinking_bind.
Qed.
Lemma shrinking_cname {A} name (k : bytes -> IO A) :
  (forall c, self_name c -> shrinking (k c)) -> shrinking (se_bind (se_ret (cname debug_name name)) k).
Proof.
  intros Hk. destruct (cname debug_name name) as [c|e] eqn:Ec; [|by apply shrinking_at].
  apply cname_self in Ec as [-> Hc]. exact (Hk name Hc).
Qed.

Lemma shrinking_open_dir d n : shrinking (open_dir debug_name d n).
Proof.
  apply shrinking_cname. intros c Hc. apply shrinking_at. intros w.
  destruct (sys_openat d c w) as [r w'] eqn:Ec. by apply openat_law in Ec as [-> _].
Qed.
Lemma shrinking_lstat d n : shrinking (lstat debug_name d n).
Proof.
  apply shrinking_cname. intros c Hc. apply shrinking_at. intros w.
  destruct (sys_fstatat d c w) as [r w'] eqn:Ec. by apply fstatat_law in Ec as [-> _].
Qed.
Lemma shrinking_entries d : shrinking (entries d).
Proof.
  apply shrinking_bind; [|intros names; apply shrinking_ret]. apply shrinking_at. intros w.
  destruct (sys_readdir d w) as [r w'] eqn:Ec. by apply readdir_law in Ec as [-> _].
Qed.
Lemma shrinking_chmod_child d n mode : shrinking (chmod_child debug_name d n mode).
Proof.
  apply shrinking_cname. intros c Hc. apply shrinking_at. intros w.
  destruct (sys_fchmodat d c mode w) as [r w'] eqn:Ec. apply fchmodat_law in Ec; [|done]. cbn.
  destruct r as [[]|e]; [|by subst].
  destruct Ec as (i & _ & [[_ [j ->]]|[_ ->]]); apply shrinks_chmod.
Qed.
Lemma shrinking_unlink d n b : shrinking (unlink debug_name d n b).
Proof.
  apply shrinking_cname. intros c Hc. apply shrinking_at. intros w.
  destruct (sys_unlinkat d c b w) as [r w'] eqn:Ec. cbn. destruct b.
  - apply rmdir_law in Ec; [|done]. destruct r as [[]|e]; [|by subst].
    destruct Ec as [_ Hd]. by eapply shrinks_del.
  - apply unlinkat_law in Ec; [|done]. destruct r as [[]|e]; [|by destruct Ec as [-> _]].
    destruct Ec as [_ Hd]. by eapply shrinks_del.
Qed.

Lemma shrinking_remove_child_go n d name : shrinking (remove_child_go debug_name n d name).
Proof.
  revert d name. induction n as [|n IH]; intros d name; [apply shrinking_ret|]. cbn [remove_child_go].
  apply shrinking_bind; [apply shrinking_try, shrinking_unlink|]. intros [[]|e]; [apply shrinking_ret|].
  destruct (is_errno e ENOENT); [apply shrinking_ret|].
  destruct (_ || _); [|apply shrinking_ret].
  apply shrinking_bind; [apply shrinking_try, shrinking_chmod_child|]. intros _.
  apply shrinking_bind; [apply shrinking_open_dir|]. intros sub.
  apply shrinking_bind; [apply shrinking_entries|]. intros children.
  apply shrinking_bind; [by apply shrinking_iter|]. intros _. apply shrinking_unlink.
Qed.

Lemma shrinking_prune_go n d prefix keep : shrinking (prune_go debug_name n d prefix keep).
Proof.
  revert d prefix. induction n as [|n IH]; intros d prefix; [apply shrinking_ret|]. cbn [prune_go].
  apply shrinking_bind; [apply shrinking_entries|]. intros children. apply shrinking_iter.
  intros child. destruct (negb _); [apply (shrinking_remove_child_go (S n))|].
  apply shrinking_bind; [apply shrinking_lstat|]. intros st.
  destruct (is_dir st); [|apply shrinking_ret].
  apply shrinking_bind; [apply shrinking_open_dir|]. intros sub. apply IH.
Qed.
End Deleting.

(** ** One name gone *)

Lemma on_fs_Ok {A} (m : SE fs Refusal A) s a s' :
  on_fs m s = (Ok a, s') <->
  m (st_fs s) = (Ok a, st_fs s') /\ s' = MkSt (st_fs s') (st_u s) (st_rep s) (st_written s).
Proof. unfold on_fs. destruct (m (st_fs s)) as [r w]. destruct s' as [w' u' rep' wr']. naive_solver. Qed.

Lemma cname_Ok debug_name n c : cname debug_name n = Ok c -> c = n /\ n <> [] /\ plain n /\ self_name n.
Proof. intros [-> Hn]%cname_self. pose proof Hn as (? & ? & ? & _). by split_and!. Qed.

Section Gone.
Context `{SysLaws}.
Context (debug_name : bytes -> bytes).

Lemma entry_del w d n w' : del_entry w d n w' -> entry w' d n = None.
Proof. intros (m & e & _ & ->). unfold entry. by rewrite lookup_insert_eq, lookup_delete_eq. Qed.

Lemma unlink_run d n b w r w' :
  unlink debug_name d n b w = (r, w') ->
  match r with Ok _ => entry w' d n = None /\ del_entry w d n w' | Err _ => w' = w end.
Proof.
  unfold unlink, se_bind, se_ret. destruct (cname debug_name n) as [c|] eqn:Ec; [|by intros [= <- <-]].
  apply cname_Ok in Ec as (-> & _ & _ & Hn). destruct b; intros Hu.
  - apply rmdir_law in Hu; [|done]. destruct r as [[]|e]; [|done]. destruct Hu as [_ Hd].
    split; [by eapply entry_del|done].
  - apply unlinkat_law in Hu; [|done]. destruct r as [[]|e]; [|tauto]. destruct Hu as [_ Hd].
    split; [by eapply entry_del|done].
Qed.

Lemma unlink_ENOENT d n w e w' :
  unlink debug_name d n false w = (Err e, w') -> is_errno e ENOENT = true -> entry w d n = None.
Proof.
  unfold unlink, se_bind, se_ret. destruct (cname debug_name n) as [c|e'] eqn:Ec.
  - apply cname_Ok in Ec as (-> & _ & _ & Hn). intros Hu. apply unlinkat_law in Hu; [tauto|done].
  - intros [= <- <-]. unfold cname in Ec. repeat case_match; simplify_eq; by vm_compute.
Qed.

Lemma remove_child_gone n d name w w' :
  remove_child_go debug_name n d name w = (Ok tt, w') -> entry w' d name = None.
Proof.
  destruct n as [|n]; [done|]. cbn [remove_child_go].
  intros (r & w1 & Hu & Hk)%se_bind_Ok. apply (proj1 (se_try_Ok (F := IoError) _ _ _ _)) in Hu. pose proof (unlink_run _ _ _ _ _ _ Hu) as Hr.
  destruct r as [[]|e]; [injection Hk as <-; tauto|]. subst w1.
  destruct (is_errno e ENOENT) eqn:Ee.
  { injection Hk as <-. by eapply unlink_ENOENT. }
  destruct (_ || _); [|done].
  apply se_bind_Ok in Hk as (r1 & w1 & _ & Hk). apply se_bind_Ok in Hk as (sub & w2 & _ & Hk).
  apply se_bind_Ok in Hk as (cs & w3 & _ & Hk). apply se_bind_Ok in Hk as ([] & w4 & _ & Hk).
  by apply unlink_run in Hk as [? _].
Qed.

Lemma open_dir_run d n w r w' :
  open_dir debug_name d n w = (r, w') ->
  w' = w /\ forall i, r = Ok i -> entry w d n = Some i /\ is_NDir w i.
Proof.
  unfold open_dir, se_bind, se_ret. destruct (cname debug_name n) as [c|] eqn:Ec; [|by intros [= <- <-]].
  apply cname_Ok in Ec as (-> & _ & _ & Hn). intros Ho. apply openat_law in Ho as [-> Ho]; [|done]. split; [done|]. by intros i ->.
Qed.

Lemma unlink_dir d n w e w' m ents :
  unlink debug_name d n false w = (Err e, w') -> is_errno e EISDIR || is_errno e EPERM = true ->
  w !! d = Some (NDir m ents) -> special_bits m = 0%N -> exists i, entry w d n = Some i /\ is_NDir w i.
Proof.
  unfold unlink, se_bind, se_ret. intros Hu He Hl Hm.
  destruct (cname debug_name n) as [c|e'] eqn:Ec.
  - apply cname_Ok in Ec as (-> & _ & _ & Hn). apply unlinkat_law in Hu as (_ & _ & Hi & Hp); [|done].
    apply orb_true_iff in He as [He|He]; [by apply Hi|]. eapply Hp; [done|done|].
    by apply special_not_sticky.
  - injection Hu as <- <-. unfold cname in Ec. repeat case_match; simplify_eq; by vm_compute in He.
Qed.

Lemma chmod_child_run d n mode w r w' :
  chmod_child debug_name d n mode w = (r, w') -> (forall i, entry w d n = Some i -> is_NDir w i) ->
  w' = w \/ exists i, entry w d n = Some i /\ w' = alter (set_mode mode) i w.
Proof.
  unfold chmod_child, se_bind, se_ret. intros Hc Hdir.
  destruct (cname debug_name n) as [c|] eqn:Ec; [|injection Hc as <- <-; by left].
  apply cname_Ok in Ec as (-> & _ & _ & Hn). apply fchmodat_law in Hc; [|done]. destruct r as [[]|e]; [|by left].
  destruct Hc as (i & He & Hi). right. exists i. split; [done|].
  destruct (Hdir i He) as (m & ents & Hl).
  destruct Hi as [[[t Ht] _]|[_ ->]]; [congruence|done].
Qed.

(** The directory loses the name and nothing else, and nothing changes outside what is
    beneath it: here [outside] is any set of inodes, the directory among them, that the entry
    does not lead into. *)
Lemma remove_child_frame n d name w r w' outside m e :
  Inv w outside w -> d ∈ outside -> (forall i, e !! name = Some i -> i ∉ outside) ->
  w !! d = Some (NDir m e) -> special_bits m = 0%N ->
  remove_child_go debug_name n d name w = (r, w') ->
  (forall i, i ∈ outside -> i <> d -> w' !! i = w !! i) /\
  w' !! d = Some (NDir m (if is_ok r then delete name e else e)).
Proof.
  intros HI Hd Hout Hl Hm.
  assert (Hdel : forall w1 w2, Inv w outside w1 -> del_entry w1 d name w2 ->
    (forall i, i ∈ outside -> i <> d -> w2 !! i = w !! i) /\ w2 !! d = Some (NDir m (delete name e))).
  { intros w1 w2 H1 (m1 & e1 & Hl1 & ->). destruct (inv_out _ _ _ H1 d Hd) as [Hsame _].
    rewrite Hsame, Hl in Hl1. injection Hl1 as <- <-. split; [|by rewrite lookup_insert_eq].
    intros i Hi Hne. rewrite lookup_insert_ne by done. by apply (inv_out _ _ _ H1). }
  assert (Hsame : forall w1, Inv w outside w1 ->
    (forall i, i ∈ outside -> i <> d -> w1 !! i = w !! i) /\ w1 !! d = Some (NDir m e)).
  { intros w1 H1. split; [intros i Hi _; by apply (inv_out _ _ _ H1)|].
    destruct (inv_out _ _ _ H1 d Hd) as [-> _]. done. }
  destruct n as [|n]; [intros [= <- <-]; by apply Hsame|]. cbn [remove_child_go]. intros Hrun.
  unfold se_bind at 1, se_try at 1 in Hrun.
  destruct (unlink debug_name d name false w) as [r1 w1] eqn:Eu.
  pose proof (unlink_run _ _ _ _ _ _ Eu) as Hr1.
  destruct r1 as [[]|err]; [injection Hrun as <- <-; apply (Hdel w w1 HI); tauto|]. subst w1.
  destruct (is_errno err ENOENT) eqn:Ee.
  { injection Hrun as <- <-. cbn [is_ok]. rewrite delete_id; [by apply Hsame|].
    pose proof (unlink_ENOENT _ _ _ _ _ Eu Ee) as Hn. unfold entry in Hn. by rewrite Hl in Hn. }
  destruct (is_errno err EISDIR || is_errno err EPERM) eqn:Ed; [|injection Hrun as <- <-; by apply Hsame].
  destruct (unlink_dir _ _ _ _ _ _ _ Eu Ed Hl Hm) as (child & Hc & Hcd).
  assert (Hchild : child ∉ outside) by (apply Hout; unfold entry in Hc; by rewrite Hl in Hc).
  unfold se_bind at 1, se_try at 1 in Hrun.
  destruct (chmod_child debug_name d name 448 w) as [r2 w2] eqn:Ecm.
  assert (HI2 : Inv w outside w2).
  { apply chmod_child_run in Ecm as [->|(i & Hi & ->)]; [done| |intros i Hi; congruence].
    rewrite Hc in Hi. injection Hi as <-. by apply inv_set_mode. }
  unfold se_bind at 1 in Hrun. destruct (open_dir debug_name d name w2) as [r3 w3] eqn:Eo.
  apply open_dir_run in Eo as [-> Hsub].
  destruct r3 as [sub|]; [|injection Hrun as <- <-; by apply Hsame].
  assert (Hin : in_tree outside sub).
  { apply Hout. destruct (Hsub sub eq_refl) as [He _]. unfold entry in He.
    destruct (inv_out _ _ _ HI2 d Hd) as [Hs2 _]. by rewrite Hs2, Hl in He. }
  unfold se_bind at 1 in Hrun. pose proof (safe_entries w outside sub w2 HI2) as H3.
  destruct (entries sub w2) as [[children|] w3]; cbn in H3; [|injection Hrun as <- <-; by apply Hsame].
  destruct H3 as [H3 _]. unfold se_bind at 1 in Hrun.
  pose proof (safe_iter w outside (remove_child_go debug_name n sub) children
    (fun x _ => safe_remove_child_go debug_name w outside n sub x Hin) w3 H3) as H4.
  destruct (se_iter _ children w3) as [[[]|] w4]; cbn in H4; [|injection Hrun as <- <-; by apply Hsame].
  destruct H4 as [H4 _]. apply unlink_run in Hrun.
  destruct r as [[]|]; [apply (Hdel w4 w' H4); tauto|subst; by apply Hsame].
Qed.
End Gone.

(** ** The walk to a directory *)

Section Walk.
Context `{SysLaws}.
Context (debug_name : bytes -> bytes).

(** Every directory of the tree can be opened by its name. *)
Definition opens (w : fs) : Prop :=
  forall d n i, entry w d n = Some i -> is_NDir w i -> fst (open_dir debug_name d n w) = Ok i.

Lemma existing_go_found cur seen rest e w d :
  opens w -> dir_at w cur rest = Some d ->
  existing_go debug_name cur seen rest e w = (Ok (Some d), w).
Proof.
  intros Ho. revert cur seen. induction rest as [|c rest IH]; intros cur seen Hd; cbn in Hd |- *.
  { by injection Hd as ->. }
  destruct (entry w cur c) as [i|] eqn:Ee; [|done]. cbn in Hd.
  destruct (w !! i) as [[m ents| | |]|] eqn:Ei; try done.
  assert (Hopen : open_dir debug_name cur c w = (Ok i, w)).
  { pose proof (Ho cur c i Ee (ex_intro _ m (ex_intro _ ents Ei))) as Hf.
    destruct (open_dir debug_name cur c w) as [r w'] eqn:Eo. cbn in Hf. subst r.
    by apply open_dir_run in Eo as [-> _]. }
  unfold se_bind, se_try. rewrite Hopen. by apply IH.
Qed.

Lemma dir_existing_found root components e w w' r d :
  opens w -> dir_at w root components = Some d ->
  dir_existing debug_name root components e w = (Ok r, w') -> r = Some d /\ w' = w.
Proof.
  intros Ho Hd Hr. unfold dir_existing in Hr.
  apply se_bind_Ok in Hr as (cur & w1 & Hc & Hr). apply (proj1 (se_map_err_Ok _ _ _ _ _)) in Hc.
  unfold try_clone in Hc. apply se_bind_Ok in Hc as ([] & w2 & Hdup & Hc).
  apply dup_law in Hdup as ->. injection Hc as <- <-.
  rewrite (existing_go_found _ _ _ _ _ _ Ho Hd) in Hr. by injection Hr as <- <-.
Qed.
End Walk.

(** A whiteout marker deletes what it names and nothing else.  Applied to a directory the tree
    has, it ends with the name gone from it; no name appears, none changes its inode; and what
    the entry does not lead to is left as it was, the directory itself losing that one name.
    (A marker for a directory the tree does not have changes nothing: [whiteout] returns.) *)
Theorem whiteout_spec `{SysLaws} debug_name parent target s s' d m e outside
    (Ho : opens debug_name (st_fs s)) (Hd : dir_at (st_fs s) (u_root (st_u s)) parent = Some d)
    (Hrun : whiteout debug_name parent target s = (Ok tt, s'))
    (Hl : st_fs s !! d = Some (NDir m e)) (Hm : special_bits m = 0%N)
    (HI : Inv (st_fs s) outside (st_fs s)) (Hdo : d ∈ outside)
    (Hout : forall i, e !! target = Some i -> i ∉ outside) :
  entry (st_fs s') d target = None /\ shrinks (st_fs s) (st_fs s') /\
  st_fs s' !! d = Some (NDir m (delete target e)) /\
  (forall i, i ∈ outside -> i <> d -> st_fs s' !! i = st_fs s !! i) /\
  st_rep s' = add_whiteout (st_rep s) /\ st_u s' = st_u s /\ st_written s' = st_written s.
Proof.
  unfold whiteout in Hrun. apply se_bind_Ok in Hrun as ([] & s1 & [= <-] & Hrun).
  apply se_bind_Ok in Hrun as (u & s2 & [= <- <-] & Hrun).
  apply se_bind_Ok in Hrun as (found & s3 & [Hf Hs3]%on_fs_Ok & Hrun). cbn [st_fs st_u] in Hf.
  apply (dir_existing_found _ _ _ _ _ _ _ _ Ho Hd) in Hf as [-> Hw].
  rewrite Hw in Hs3. subst s3. clear Hw.
  apply on_fs_Ok in Hrun as [Hr ->]. apply (proj1 (se_map_err_Ok _ _ _ _ _)) in Hr.
  cbn [st_fs st_u st_rep st_written] in *.
  split; [by eapply remove_child_gone|]. split.
  { pose proof (shrinking_elim (remove_child debug_name d target (u_limits (st_u s)) 0) (st_fs s)
      (shrinking_remove_child_go _ _ _ _)) as Hsh. by rewrite Hr in Hsh. }
  pose proof (remove_child_frame _ _ _ _ _ _ _ _ _ _ HI Hdo Hout Hl Hm Hr) as [Hfr Hdir].
  split; [exact Hdir|]. by split.
Qed.

(** ** Deciding the side conditions on a file system in memory *)

Definition node_ok (outside : gset ino) (nd : node) : bool :=
  match nd with
  | NDir m e => (special_bits m =? 0)%N && forallb (fun p => bool_decide (p.2 ∉ outside)) (map_to_list e)
  | NFile m _ | NOther m => (special_bits m =? 0)%N
  | NLink _ => true
  end.

Lemma Inv_self w outside :
  outside ⊆ dom w ->
  forallb (fun p => bool_decide (p.1 ∈ outside) || node_ok outside p.2) (map_to_list w) = true ->
  Inv w outside w.
Proof.
  intros Hsub Hc. apply forallb_Forall in Hc. rewrite Forall_forall in Hc.
  assert (Hok : forall i nd, i ∉ outside -> w !! i = Some nd -> node_ok outside nd = true).
  { intros i nd Hi Hl. apply elem_of_map_to_list, Hc, orb_true_iff in Hl as [Hl|Hl]; [|done].
    by apply bool_decide_eq_true in Hl. }
  split.
  - intros i Hi. split; [done|]. by apply elem_of_dom, Hsub.
  - intros i m e n j Hi Hl Hj. apply (Hok _ _ Hi) in Hl. cbn in Hl. reflect_bools.
    match goal with E : forallb _ _ = true |- _ => apply forallb_Forall in E; rewrite Forall_forall in E;
      specialize (E (n, j) (proj2 (elem_of_map_to_list _ _ _) Hj)) as E' end.
    by apply bool_decide_eq_true in E'.
  - intros i nd Hi Hl. apply (Hok _ _ Hi) in Hl. destruct nd; cbn in *; reflect_bools; done.
Qed.

Lemma mem_opens debug_name w :
  forallb (fun p => match p.2 with
                    | NDir m e => has m 64 && has m 256 &&
                        forallb (fun q => is_ok (cname debug_name q.1)) (map_to_list e)
                    | _ => true
                    end) (map_to_list w) = true ->
  opens debug_name w.
Proof.
  intros Hc d n i He (m' & e' & Hi). apply forallb_Forall in Hc. rewrite Forall_forall in Hc.
  unfold entry in He. destruct (w !! d) as [[m e| | |]|] eqn:Ed; try done.
  pose proof (Hc (d, NDir m e) (proj2 (elem_of_map_to_list _ _ _) Ed)) as Hcd.
  pose proof (Hc (i, NDir m' e') (proj2 (elem_of_map_to_list _ _ _) Hi)) as Hci.
  cbn [fst snd] in Hcd, Hci. apply andb_true_iff in Hcd as [Hcd Hn]. apply andb_true_iff in Hcd as [Hx _].
  apply andb_true_iff in Hci as [Hci _]. apply andb_true_iff in Hci as [_ Hr].
  apply forallb_Forall in Hn. rewrite Forall_forall in Hn.
  specialize (Hn (n, i) (proj2 (elem_of_map_to_list _ _ _) He)). cbn [fst] in Hn.
  unfold open_dir, se_bind, se_ret. destruct (cname debug_name n) as [c|] eqn:Ec; [|done].
  apply cname_Ok in Ec as [-> _]. cbn. unfold mem_openat, in_dir. by rewrite Ed, Hx, He, Hi, Hr.
Qed.

Module Marker.
(** [d/secret] and the directory [d/cache] with a file in it. *)
Definition host : fs :=
  {[ 1%positive := NDir DIR_MODE {[ B "d" := 2%positive ]};
     2%positive := NDir 493 {[ B "secret" := 3%positive; B "cache" := 4%positive ]};
     3%positive := NFile 384 (B "key");
     4%positive := NDir 320 {[ B "x" := 5%positive ]};
     5%positive := NFile 420 (B "data") ]}.
Definition unpacker : Unpacker :=
  MkUnpacker (B "/dest") (B "/.dest") 1 Limits_default Report_default 0 [] [] false.
Definition st (written : gset bytes) : St := MkSt host unpacker Report_default written.
Definition name (s : bytes) : bytes := s.
End Marker.

Lemma whiteout_spec_witness :
  let '(r, s') := whiteout Marker.name [B "d"] (B "cache") (Marker.st ∅) in
  r = Ok tt /\ entry (st_fs s') 2 (B "cache") = None /\ st_fs s' !! 3%positive = Some (NFile 384 (B "key")).
Proof.
  assert (Hr : fst (whiteout Marker.name [B "d"] (B "cache") (Marker.st ∅)) = Ok tt)
    by (vm_compute; reflexivity).
  destruct (whiteout Marker.name [B "d"] (B "cache") (Marker.st ∅)) as [r s'] eqn:Er.
  cbn [fst] in Hr. subst r. split; [reflexivity|].
  destruct (whiteout_spec Marker.name [B "d"] (B "cache") (Marker.st ∅) s' 2 493
    {[ B "secret" := 3%positive; B "cache" := 4%positive ]} {[1%positive; 2%positive; 3%positive]})
    as (H1 & _ & _ & H2 & _).
  - apply mem_opens. vm_compute. reflexivity.
  - vm_compute. reflexivity.
  - exact Er.
  - vm_compute. reflexivity.
  - vm_compute. reflexivity.
  - apply Inv_self; [apply (bool_decide_unpack _); vm_compute; exact I|vm_compute; reflexivity].
  - set_solver.
  - intros i Hi. vm_compute in Hi. injection Hi as <-. set_solver.
  - split; [exact H1|]. rewrite H2; [vm_compute; reflexivity|set_solver|done].
Defined.

(** ** Opaque markers *)

Lemma node_at_shrinks w w' d rel i : shrinks w w' -> node_at w' d rel = Some i -> node_at w d rel = Some i.
Proof.
  intros [He Hd]. revert d. induction rel as [|n rel IH]; intros d; [done|]. cbn [node_at].
  destruct rel as [|n' rel]; [apply He|].
  destruct (entry w' d n) as [j|] eqn:Ej; [|done]. cbn. apply He in Ej as ->. cbn.
  destruct (w' !! j) as [[m e| | |]|] eqn:El; try done. intros Hn.
  destruct (Hd j) as (m' & e' & ->); [by exists m, e|]. by apply IH.
Qed.

Section Pruning.
Context `{SysLaws}.
Context (debug_name : bytes -> bytes) (keep : gset bytes).

(** Every path under the names [child :: _] of [d] is one the layer wrote. *)
Definition kept_below (d : ino) (prefix : list bytes) (child : bytes) (w : fs) : Prop :=
  forall rel i, Forall plain (child :: rel) -> node_at w d (child :: rel) = Some i ->
  join_path (prefix ++ child :: rel) ∈ keep.

Lemma kept_below_shrinks d prefix child w w' :
  shrinks w w' -> kept_below d prefix child w -> kept_below d prefix child w'.
Proof. intros Hs Hk rel i Hp Hn. eapply Hk; [done|]. by eapply node_at_shrinks. Qed.

Lemma iter_each {A} (m : A -> IO unit) (P : A -> fs -> Prop) l w w' :
  (forall x, shrinking (m x)) ->
  (forall x w w', shrinks w w' -> P x w -> P x w') ->
  (forall x w1 w2, m x w1 = (Ok tt, w2) -> P x w2) ->
  se_iter m l w = (Ok tt, w') -> forall x, x ∈ l -> P x w'.
Proof.
  intros Hsh Hanti Hstep. revert w. induction l as [|y l IH]; intros w Hr x Hx; [by apply elem_of_nil in Hx|].
  cbn [se_iter] in Hr. apply se_bind_Ok in Hr as ([] & w1 & H1 & Hr).
  apply elem_of_cons in Hx as [->|Hx]; [|by eapply IH].
  apply (Hanti y w1); [|by eapply Hstep].
  pose proof (shrinking_elim (se_iter m l) w1 (shrinking_iter m l Hsh)) as Hs. by rewrite Hr in Hs.
Qed.

Lemma entries_complete d w cs w' n :
  entries d w = (Ok cs, w') -> plain n -> is_Some (entry w' d n) -> n ∈ cs.
Proof.
  unfold entries. intros (names & w1 & Hr & Hk)%se_bind_Ok [Hn1 Hn2] He.
  apply readdir_law in Hr as [-> Hr]. injection Hk as <- <-.
  destruct (Hr names eq_refl) as [_ Hin]. apply list_elem_of_In, filter_In.
  split; [by apply list_elem_of_In, Hin|]. apply negb_true_iff, orb_false_iff.
  by split; apply bool_decide_eq_false.
Qed.

Lemma lstat_run d n w st w' :
  lstat debug_name d n w = (Ok st, w') ->
  w' = w /\ exists i nd, entry w d n = Some i /\ w !! i = Some nd /\ N.land st S_IFMT = fmt_bits nd.
Proof.
  unfold lstat, se_bind, se_ret. destruct (cname debug_name n) as [c|] eqn:Ec; [|done].
  apply cname_Ok in Ec as (-> & _ & _ & Hn). intros Hl. apply fstatat_law in Hl as [-> Hl]; [|done]. split; [done|]. by apply Hl.
Qed.

Lemma kept_below_gone d prefix child w : entry w d child = None -> kept_below d prefix child w.
Proof. intros He rel i _ Hn. cbn [node_at] in Hn. rewrite He in Hn. by destruct rel. Qed.

(** One child of the loop of [prune]. *)
Definition prune_step (n : nat) (d : ino) (prefix : list bytes) (child : bytes) : IO unit :=
  if negb (bool_decide (join_path (prefix ++ [child]) ∈ keep))
  then remove_child_go debug_name (S n) d child
  else
    do! st := lstat debug_name d child in
    if is_dir st then
      do! sub := open_dir debug_name d child in
      prune_go debug_name n sub (prefix ++ [child]) keep
    else se_ret (Ok tt).

Lemma prune_go_S n d prefix :
  prune_go debug_name (S n) d prefix keep =
  (do! children := entries d in se_iter (prune_step n d prefix) children).
Proof. reflexivity. Qed.

Lemma shrinking_prune_step n d prefix child : shrinking (prune_step n d prefix child).
Proof.
  unfold prune_step. destruct (negb _); [apply shrinking_remove_child_go|].
  apply shrinking_bind; [apply shrinking_lstat|]. intros st. destruct (is_dir st); [|apply shrinking_ret].
  apply shrinking_bind; [apply shrinking_open_dir|]. intros sub. apply shrinking_prune_go.
Qed.

(** One step leaves the child pruned when the recursion does. *)
Lemma prune_step_kept n d prefix child w w' :
  (forall sub pre v v', prune_go debug_name n sub pre keep v = (Ok tt, v') ->
     forall c, kept_below sub pre c v') ->
  prune_step n d prefix child w = (Ok tt, w') -> kept_below d prefix child w'.
Proof.
  intros IH Hc. unfold prune_step in Hc.
  destruct (bool_decide (join_path (prefix ++ [child]) ∈ keep)) eqn:Ek; cbn [negb] in Hc.
  2:{ apply kept_below_gone. by eapply (remove_child_gone debug_name (S n)). }
  apply bool_decide_eq_true in Ek.
  apply se_bind_Ok in Hc as (st & v1 & [-> (i & nd & Hi & Hnd & Hfmt)]%lstat_run & Hc).
  intros rel j Hp Hn. destruct rel as [|n' rel]; [done|].
  apply Forall_cons in Hp as [_ Hp']. unfold is_dir in Hc. rewrite Hfmt in Hc. cbn [node_at] in Hn.
  destruct nd as [m e| | |]; cbn in Hc; try
    (injection Hc as <-; rewrite Hi in Hn; cbn in Hn; by rewrite Hnd in Hn).
  apply se_bind_Ok in Hc as (sub & v1 & [-> Hsub]%open_dir_run & Hc).
  destruct (Hsub sub eq_refl) as [Hs _]. rewrite Hi in Hs. injection Hs as <-.
  pose proof (shrinking_elim _ w (shrinking_prune_go debug_name n i (prefix ++ [child]) keep)) as Hsh.
  rewrite Hc in Hsh. cbn [snd] in Hsh.
  destruct (entry w' d child) as [i'|] eqn:Ei'; [|done]. cbn in Hn.
  apply (proj1 Hsh) in Ei'. rewrite Hi in Ei'. injection Ei' as <-.
  destruct (w' !! i) as [[]|]; try done.
  replace (prefix ++ child :: n' :: rel) with ((prefix ++ [child]) ++ n' :: rel) by (by rewrite <- app_assoc).
  eapply IH; [exact Hc|exact Hp'|exact Hn].
Qed.

Lemma prune_kept n d prefix w w' :
  prune_go debug_name n d prefix keep w = (Ok tt, w') -> forall child, kept_below d prefix child w'.
Proof.
  revert d prefix w w'. induction n as [|n IH]; intros d prefix w w' Hr; [done|].
  rewrite prune_go_S in Hr. apply se_bind_Ok in Hr as (cs & w1 & He & Hr).
  pose proof (shrinking_elim _ w1 (shrinking_iter _ cs (shrinking_prune_step n d prefix))) as Hs.
  rewrite Hr in Hs. cbn [snd] in Hs.
  assert (Hall : forall child, child ∈ cs -> kept_below d prefix child w').
  { revert Hr. apply iter_each; [apply shrinking_prune_step|intros c v v'; apply kept_below_shrinks|].
    intros c v v'. by apply prune_step_kept. }
  intros child rel i Hp Hn. pose proof Hp as [Hpc _]%Forall_cons.
  eapply Hall; [|exact Hp|exact Hn]. eapply entries_complete; [exact He|exact Hpc|].
  cbn [node_at] in Hn. destruct (entry w' d child) as [j|] eqn:Ej; [|by destruct rel].
  apply (proj1 Hs) in Ej. by rewrite Ej.
Qed.
End Pruning.

(** An opaque marker hides everything the lower layers left in its directory.  When it has been
    applied to a directory the tree has, every path that is still beneath it, at any depth, is
    one this layer wrote; nothing appeared, nothing changed its inode, and the layer's set of
    written paths is the same, so the marker's place among the layer's entries does not matter
    to what it spares. *)
Theorem opaque_spec `{SysLaws} debug_name parent s s' d rel i
    (Ho : opens debug_name (st_fs s)) (Hd : dir_at (st_fs s) (u_root (st_u s)) parent = Some d)
    (Hrun : opaque debug_name parent s = (Ok tt, s'))
    (Hp : Forall plain rel) (Hn : node_at (st_fs s') d rel = Some i) :
  join_path (parent ++ rel) ∈ st_written s /\ node_at (st_fs s) d rel = Some i /\
  shrinks (st_fs s) (st_fs s') /\
  st_rep s' = add_opaque (st_rep s) /\ st_u s' = st_u s /\ st_written s' = st_written s.
Proof.
  unfold opaque in Hrun. apply se_bind_Ok in Hrun as ([] & s1 & [= <-] & Hrun).
  apply se_bind_Ok in Hrun as (u & s2 & [= <- <-] & Hrun).
  apply se_bind_Ok in Hrun as (written & s2 & [= <- <-] & Hrun).
  apply se_bind_Ok in Hrun as (found & s3 & [Hf Hs3]%on_fs_Ok & Hrun). cbn [st_fs st_u] in Hf.
  apply (dir_existing_found _ _ _ _ _ _ _ _ Ho Hd) in Hf as [-> Hw].
  rewrite Hw in Hs3. subst s3. clear Hw.
  apply on_fs_Ok in Hrun as [Hr ->]. apply (proj1 (se_map_err_Ok _ _ _ _ _)) in Hr.
  cbn [st_fs st_u st_rep st_written] in *. unfold prune in Hr.
  pose proof (prune_kept _ _ _ _ _ _ _ Hr) as Hk.
  pose proof (shrinking_elim _ (st_fs s) (shrinking_prune_go debug_name
    (S (max_path_depth (u_limits (st_u s))) - 0) d parent (st_written s))) as Hsh.
  rewrite Hr in Hsh. cbn [snd] in Hsh. destruct rel as [|n rel]; [done|].
  split; [by eapply (Hk n rel i)|]. split; [by eapply node_at_shrinks|]. done.
Qed.

Lemma opaque_spec_witness :
  let '(r, s') := opaque Marker.name [B "d"] (Marker.st {[B "d/secret"]}) in
  r = Ok tt /\ node_at (st_fs s') 2 [B "secret"] = Some 3%positive /\
  join_path [B "d"; B "secret"] ∈ ({[B "d/secret"]} : gset bytes) /\
  node_at (st_fs s') 2 [B "cache"; B "x"] = None.
Proof.
  assert (Hr : let '(r, s') := opaque Marker.name [B "d"] (Marker.st {[B "d/secret"]}) in
    r = Ok tt /\ node_at (st_fs s') 2 [B "secret"] = Some 3%positive /\
    node_at (st_fs s') 2 [B "cache"; B "x"] = None) by (vm_compute; repeat split; reflexivity).
  destruct (opaque Marker.name [B "d"] (Marker.st {[B "d/secret"]})) as [r s'] eqn:Er.
  destruct Hr as (-> & Hs & Hc). split; [reflexivity|]. split; [exact Hs|].
  destruct (opaque_spec Marker.name [B "d"] (Marker.st {[B "d/secret"]}) s' 2 [B "secret"] 3)
    as (Hk & _).
  - apply mem_opens. vm_compute. reflexivity.
  - vm_compute. reflexivity.
  - exact Er.
  - constructor; [by split|constructor].
  - exact Hs.
  - by split.
Defined.
