(* ===== verification/Ceilings.v ===== *)
(** * Ceilings: what unpacking can cost, and what it records

    The limits and the mode recordings of [crates/oci-unpack/src/lib.rs]: bytes and entries
    stay under their ceilings whatever the archive declares, the bytes being those that are on the
    host, and the recorded special modes
    follow the tree as later entries replace earlier ones. *)
From S2P Require Import Prelude Text EntryName Effects Sys Unpack MemFs Confine Whiteouts.

(** ** One entry's content *)

(** The bytes a stream of reads gives before it ends or fails. *)
Fixpoint content (chunks : list (result bytes bytes)) : bytes :=
  match chunks with
  | Ok ((_ :: _) as buf) :: rest => buf ++ content rest
  | _ => []
  end.

(** Refusal by a ceiling of one kind. *)
Definition is_limit (e : Refusal) : Prop := exists l c r, e = LimitExceeded l c r.

(** What [copy_bounded] leaves behind: in the file a prefix of the content that crosses neither
    ceiling, the whole of it on success, and in the counter no more than was written; nothing
    else of the host or of the unpacker changes. *)
Definition copied (s s' : St) (file : ino) (m : N) (before : bytes) (this_entry : N)
    (chunks : list (result bytes bytes)) (r : result unit Refusal) : Prop :=
  exists k,
    let written := take k (content chunks) in
    st_fs s' = <[file := NFile m (before ++ written)]> (st_fs s) /\
    (k = 0 \/ (this_entry + N.of_nat k <= max_entry_bytes (u_limits (st_u s)))%N) /\
    (k = 0 \/ (bytes_written (total (st_u s)) + bytes_written (st_rep s) + N.of_nat k
       <= max_total_bytes (u_limits (st_u s)))%N) /\
    k <= length (content chunks) /\
    (exists n, (n <= N.of_nat k)%N /\ st_rep s' = add_bytes_written n (st_rep s) /\
       (r = Ok tt -> k = length (content chunks) /\ n = N.of_nat k)) /\
    st_u s' = st_u s /\ st_written s' = st_written s.

Lemma add_bytes_written_0 r : add_bytes_written 0 r = r.
Proof. destruct r. unfold add_bytes_written. cbn. by rewrite N.add_0_r. Qed.

Lemma add_bytes_written_add a b r :
  add_bytes_written b (add_bytes_written a r) = add_bytes_written (a + b) r.
Proof. unfold add_bytes_written. cbn. by rewrite N.add_assoc. Qed.

Section Copy.
Context `{SysLaws}.

Lemma copied_none s file m before n chunks r :
  st_fs s !! file = Some (NFile m before) ->
  (r = Ok tt -> content chunks = []) -> copied s s file m before n chunks r.
Proof.
  intros Hf Hr. exists 0. cbn. rewrite app_nil_r, insert_id by done.
  split; [done|]. split; [by left|]. split; [by left|]. split; [lia|].
  split; [|done]. exists 0%N. rewrite add_bytes_written_0. split; [done|]. split; [done|].
  intros Hok. by rewrite (Hr Hok).
Qed.

Lemma copy_bounded_copied chunks n file path s r s' m before :
  copy_bounded chunks n file path s = (r, s') ->
  st_fs s !! file = Some (NFile m before) -> copied s s' file m before n chunks r.
Proof.
  revert n s before. induction chunks as [|[[|x buf]|e] rest IH]; intros n s before Hr Hf.
  - injection Hr as <- <-. by apply copied_none.
  - injection Hr as <- <-. by apply copied_none.
  - cbn [copy_bounded] in Hr. unfold se_bind at 1, get_u in Hr. unfold se_bind at 1, get_rep in Hr.
    set (len := length (x :: buf)) in *.
    destruct (N.ltb_spec (max_entry_bytes (u_limits (st_u s))) (n + N.of_nat len)) as [|He].
    { injection Hr as <- <-. by apply copied_none. }
    destruct (N.ltb_spec (max_total_bytes (u_limits (st_u s)))
      (bytes_written (total (st_u s)) + bytes_written (st_rep s) + N.of_nat len)) as [|Ht].
    { injection Hr as <- <-. by apply copied_none. }
    unfold se_bind at 1, on_fs, se_map_err in Hr.
    destruct (sys_write file (x :: buf) (st_fs s)) as [rw w1] eqn:Ew. cbn [map_err] in Hr.
    apply write_law in Ew as [(m' & c' & k & Hf' & -> & Hk & Hok)|[-> Hne]].
    2:{ destruct rw as [[]|e]; [done|]. injection Hr as <- <-. destruct s. by apply copied_none. }
    rewrite Hf in Hf'. injection Hf' as <- <-. destruct rw as [[]|e]; cbn [map_err] in Hr.
    + rewrite (Hok eq_refl), firstn_all in Hr. unfold se_bind, mod_rep in Hr. cbn in Hr.
      apply (IH _ _ (before ++ x :: buf)) in Hr; [|cbn; by rewrite lookup_insert_eq].
      destruct Hr as (k' & Hfs & Hke & Hkt & Hkl & (n' & Hn' & Hrep & Hok') & Hu & Hw).
      cbn [st_fs st_u st_rep st_written] in *. exists (len + k').
      change (content (Ok (x :: buf) :: rest)) with ((x :: buf) ++ content rest).
      unfold len. rewrite (take_app_add (x :: buf)), Hfs, insert_insert_eq, <- app_assoc. fold len.
      assert (Hlen : len = S (length buf)) by done. unfold add_bytes_written in Hkt. cbn in Hkt.
      split; [done|]. split; [right; lia|]. split; [right; lia|].
      split; [rewrite length_app; fold len; lia|]. split; [|by split].
      exists (N.of_nat len + n')%N. split; [lia|]. rewrite Hrep, add_bytes_written_add, <- Hlen. split; [done|].
      intros Hr0. destruct (Hok' Hr0) as [-> ->]. rewrite length_app. fold len. split; lia.
    + injection Hr as <- <-. exists k.
      change (content (Ok (x :: buf) :: rest)) with ((x :: buf) ++ content rest).
      cbn [st_fs st_u st_rep st_written]. fold len in Hk. rewrite take_app_le by (fold len; lia).
      split; [done|]. split; [right; lia|]. split; [right; lia|].
      split; [rewrite length_app; fold len; lia|]. split; [|done].
      exists 0%N. rewrite add_bytes_written_0. split; [lia|]. by split.
  - injection Hr as <- <-. by apply copied_none.
Qed.
End Copy.

(** A bomb costs the cap and not a byte more.  Copying an entry into its new file writes a
    prefix of the content the stream gives, all of it when it succeeds; the prefix fits the
    entry ceiling and, with everything the image has written so far, the total ceiling,
    whatever size the header declared; the counter never runs ahead of what was written; and
    no other inode, and nothing else of the unpacker, changes. *)
Theorem copy_bounded_spec `{SysLaws} chunks file path s r s' m
    (Hr : copy_bounded chunks 0 file path s = (r, s'))
    (Hf : st_fs s !! file = Some (NFile m [])) :
  exists written : bytes,
    st_fs s' = <[file := NFile m written]> (st_fs s) /\
    (exists rest, content chunks = written ++ rest /\ (r = Ok tt -> rest = [])) /\
    (N.of_nat (length written) <= max_entry_bytes (u_limits (st_u s)))%N /\
    (written = [] \/ (bytes_written (total (st_u s)) + bytes_written (st_rep s)
       + N.of_nat (length written) <= max_total_bytes (u_limits (st_u s)))%N) /\
    (bytes_written (st_rep s') <= bytes_written (st_rep s) + N.of_nat (length written))%N /\
    (r = Ok tt -> bytes_written (st_rep s') = (bytes_written (st_rep s) + N.of_nat (length written))%N) /\
    st_u s' = st_u s /\ st_written s' = st_written s.
Proof.
  destruct (copy_bounded_copied _ _ _ _ _ _ _ _ _ Hr Hf)
    as (k & Hfs & He & Ht & Hk & (n & Hn & Hrep & Hok) & Hu & Hw).
  exists (take k (content chunks)). rewrite length_take_le by done.
  split; [done|]. split.
  { exists (drop k (content chunks)). split; [by rewrite take_drop|].
    intros [Hkl _]%Hok. by rewrite Hkl, drop_all. }
  split; [lia|]. split.
  { destruct Ht as [->|Ht]; [by left|by right]. }
  rewrite Hrep. cbn. split; [lia|]. split; [|by split]. intros [_ ->]%Hok. done.
Qed.

Lemma copy_bounded_spec_witness :
  let limits := MkLimits 10 4 10 10 10 in
  let u := MkUnpacker [] [] 1 limits Report_default 0 [] [] false in
  let w := {[ 7%positive := NFile 420 [] ]} : fs in
  exists s' written, copy_bounded [Ok (B "abc"); Ok (B "def")] 0 7 (B "f") (MkSt w u Report_default ∅) =
    (Err (LimitExceeded "max_entry_bytes" 4 "Limits::max_entry_bytes"), s') /\
  st_fs s' = <[7%positive := NFile 420 written]> w /\ (N.of_nat (length written) <= 4)%N.
Proof.
  intros limits u w.
  destruct (copy_bounded [Ok (B "abc"); Ok (B "def")] 0 7 (B "f") (MkSt w u Report_default ∅))
    as [r s'] eqn:Er.
  destruct (copy_bounded_spec _ _ _ _ _ _ 420 Er) as (written & Hfs & _ & Hlen & _).
  { vm_compute. reflexivity. }
  exists s', written. split; [|by split]. f_equal. vm_compute in Er. by injection Er.
Defined.

(** ** The bytes a host holds *)

Definition data_len (nd : node) : N := match nd with NFile _ c => N.of_nat (length c) | _ => 0 end.

(** The contents of all its files together. *)
Definition held (w : fs) : N := map_fold (fun _ nd n => (data_len nd + n)%N) 0%N w.

Lemma held_new w i nd : w !! i = None -> held (<[i := nd]> w) = (data_len nd + held w)%N.
Proof. intros Hi. unfold held. rewrite map_fold_insert_L; [done|intros; lia|done]. Qed.

Lemma held_insert w i nd nd0 : w !! i = Some nd0 -> (held (<[i := nd]> w) + data_len nd0 = held w + data_len nd)%N.
Proof.
  intros Hi. rewrite <- (insert_id w i nd0 Hi) at 2. rewrite <- (insert_delete_eq w i nd), <- (insert_delete_eq w i nd0).
  rewrite !held_new by apply lookup_delete_eq. lia.
Qed.

Lemma held_same w i nd nd0 : w !! i = Some nd0 -> data_len nd = data_len nd0 -> held (<[i := nd]> w) = held w.
Proof. intros Hi He. pose proof (held_insert w i nd nd0 Hi). lia. Qed.

Lemma held_set_mode w i mode : held (alter (set_mode mode) i w) = held w.
Proof.
  destruct (w !! i) as [nd|] eqn:El.
  - rewrite (alter_alt_Some _ _ _ _ El). apply (held_same _ _ _ _ El). by destruct nd.
  - rewrite alter_id; [done|]. intros x Hx. congruence.
Qed.

Lemma held_add_entry w d n i w' : add_entry w d n i w' -> held w' = held w.
Proof. intros (m & e & Hl & _ & ->). by apply (held_same _ _ _ _ Hl). Qed.

Lemma held_del_entry w d n w' : del_entry w d n w' -> held w' = held w.
Proof. intros (m & e & Hl & ->). by apply (held_same _ _ _ _ Hl). Qed.

(** A fresh inode, named in a directory, without content. *)
Lemma held_made w d n i w1 nd : w !! i = None -> add_entry w d n i w1 -> data_len nd = 0%N -> held (<[i := nd]> w1) = held w.
Proof.
  intros Hi Ha Hn. rewrite held_new; [rewrite Hn; by apply held_add_entry in Ha|].
  destruct Ha as (m & e & Hl & _ & ->). rewrite lookup_insert_ne; [done|congruence].
Qed.

(** A computation that writes no content. *)
Definition still {E A} (m : SE fs E A) : Prop := forall w, held (snd (m w)) = held w.

Lemma still_ret {E A} (r : result A E) : still (se_ret r).
Proof. done. Qed.
Lemma still_bind {E A B} (m : SE fs E A) (k : A -> SE fs E B) : still m -> (forall a, still (k a)) -> still (se_bind m k).
Proof. intros Hm Hk w. specialize (Hm w). unfold se_bind. destruct (m w) as [[a|e] w1]; cbn in *; [by rewrite Hk|done]. Qed.
Lemma still_try {E F A} (m : SE fs E A) : still m -> still (E := F) (se_try m).
Proof. intros Hm w. specialize (Hm w). unfold se_try. by destruct (m w). Qed.
Lemma still_map_err {E F A} (f : E -> F) (m : SE fs E A) : still m -> still (se_map_err f m).
Proof. intros Hm w. specialize (Hm w). unfold se_map_err. by destruct (m w) as [[a|e] w1]. Qed.
Lemma still_iter {E A} (m : A -> SE fs E unit) l : (forall x, still (m x)) -> still (se_iter m l).
Proof. intros Hm. induction l as [|x l IH]; [apply still_ret|]. by apply still_bind. Qed.

Section Still.
Context `{SysLaws}.
Context (debug_str escape_debug debug_name : bytes -> bytes).

Lemma still_cname {A} name (k : bytes -> IO A) :
  (forall c, self_name c -> still (k c)) -> still (se_bind (se_ret (cname debug_name name)) k).
Proof.
  intros Hk. destruct (cname debug_name name) as [c|e] eqn:Ec; [|done]. apply cname_self in Ec as [-> Hc]. exact (Hk name Hc).
Qed.

Ltac call L r w' Ec :=
  let w := fresh "w" in intros w;
  lazymatch goal with |- held (snd (?m w)) = _ => destruct (m w) as [r w'] eqn:Ec end; cbn [snd]; apply L in Ec; [|done..].

Lemma still_try_clone d : still (try_clone d).
Proof. apply still_bind; [|intros; apply still_ret]. call dup_law r w' Ec. by subst. Qed.
Lemma still_open_dir d n : still (open_dir debug_name d n).
Proof. apply still_cname. intros c Hc. call openat_law r w' Ec. by destruct Ec as [-> _]. Qed.
Lemma still_mkdir d n mode : still (mkdir debug_name d n mode).
Proof.
  apply still_cname. intros c Hc. call mkdirat_law r w' Ec. destruct r as [[]|e]; [|by destruct Ec as [-> _]].
  destruct Ec as (i & m' & w1 & Hf & Ha & -> & _). by eapply held_made.
Qed.
Lemma still_create_file d n mode : still (create_file debug_name d n mode).
Proof.
  apply still_cname. intros c Hc. call create_law r w' Ec. destruct r as [i|e]; [|by destruct Ec as [-> _]].
  destruct Ec as (m' & w1 & Hf & Ha & -> & _). by eapply held_made.
Qed.
Lemma still_symlink d t n : still (symlink debug_name d t n).
Proof.
  apply still_cname. intros c Hc. apply still_bind; [apply still_ret|]. intros t'. call symlinkat_law r w' Ec.
  destruct r as [[]|e]; [|by destruct Ec as [-> _]]. destruct Ec as (i & w1 & Hf & Ha & ->). by eapply held_made.
Qed.
Lemma still_link_from d sd s n : still (link_from debug_name d sd s n).
Proof.
  apply still_cname. intros c Hc. apply still_cname. intros c' Hc'. call linkat_law r w' Ec.
  destruct r as [[]|e]; [|by destruct Ec as [-> _]]. destruct Ec as (i & _ & _ & Ha). by eapply held_add_entry.
Qed.
Lemma still_lstat d n : still (lstat debug_name d n).
Proof. apply still_cname. intros c Hc. call fstatat_law r w' Ec. by destruct Ec as [-> _]. Qed.
Lemma still_unlink d n b : still (unlink debug_name d n b).
Proof.
  apply still_cname. intros c Hc. destruct b.
  - call rmdir_law r w' Ec. destruct r as [[]|e]; [|by subst]. destruct Ec as [_ Hdel]. by eapply held_del_entry.
  - call unlinkat_law r w' Ec. destruct r as [[]|e]; [|by destruct Ec as [-> _]]. destruct Ec as [_ Hdel]. by eapply held_del_entry.
Qed.
Lemma still_chmod d mode : still (chmod d mode).
Proof. unfold chmod. call fchmod_law r w' Ec. destruct r as [[]|e]; subst; [apply held_set_mode|done]. Qed.
Lemma still_chmod_child d n mode : still (chmod_child debug_name d n mode).
Proof.
  apply still_cname. intros c Hc. call fchmodat_law r w' Ec. destruct r as [[]|e]; [|by subst].
  destruct Ec as (i & _ & [[_ [j ->]]|[_ ->]]); apply held_set_mode.
Qed.
Lemma still_entries d : still (entries d).
Proof. apply still_bind; [|intros; apply still_ret]. call readdir_law r w' Ec. by destruct Ec as [-> _]. Qed.

Ltac still_step :=
  first
    [ apply still_ret | apply still_try_clone | apply still_open_dir | apply still_mkdir | apply still_create_file
    | apply still_symlink | apply still_link_from | apply still_lstat | apply still_unlink | apply still_chmod
    | apply still_chmod_child | apply still_entries | apply still_try | apply still_map_err | apply still_iter; intros ?
    | apply still_bind; [|intros ?] | case_match ].

Lemma still_remove_child_go n d name : still (remove_child_go debug_name n d name).
Proof. revert d name. induction n as [|n IH]; intros d name; cbn [remove_child_go]; repeat first [apply IH | still_step]. Qed.
Lemma still_remove_child d name l depth : still (remove_child debug_name d name l depth).
Proof. apply still_remove_child_go. Qed.
Lemma still_prune_go n d prefix keep : still (prune_go debug_name n d prefix keep).
Proof.
  revert d prefix. induction n as [|n IH]; intros d prefix; cbn [prune_go]; repeat first [apply IH | apply (still_remove_child_go (S n)) | still_step].
Qed.
Lemma still_existing_go cur seen rest e : still (existing_go debug_name cur seen rest e).
Proof. revert cur seen. induction rest as [|c rest IH]; intros cur seen; cbn [existing_go]; repeat first [apply IH | still_step]. Qed.
Lemma still_dir_existing root cs e : still (dir_existing debug_name root cs e).
Proof. unfold dir_existing. repeat first [apply still_existing_go | still_step]. Qed.
Lemma still_create_step cur comp so_far e l : still (create_step debug_name cur comp so_far e l).
Proof. unfold create_step, make_missing, replace_with_dir. repeat first [apply still_remove_child | still_step]. Qed.
Lemma still_ensure_dir parent name path l : still (Unpack.ensure_dir debug_name parent name path l).
Proof. unfold Unpack.ensure_dir. repeat first [apply still_remove_child | still_step]. Qed.
Lemma still_hardlink u parent last target path : still (hardlink debug_str escape_debug debug_name u parent last target path).
Proof. unfold hardlink. repeat first [apply still_remove_child | apply still_dir_existing | still_step]. Qed.
Lemma still_write_symlink u parent last path target : still (write_symlink debug_name u parent last path target).
Proof. unfold write_symlink. repeat first [apply still_remove_child | still_step]. Qed.
End Still.

(** ** A whole layer *)

Section Layer.
Context `{SysLaws}.
Context (debug_str escape_debug debug_name : bytes -> bytes) (debug_kind : EntryType -> bytes).

(** The running totals are [t0], the limits [l], the layer so far fits, and the host, which held [h0]
    bytes when it began, holds those it has counted on top. *)
Definition fits (l : Limits) (t0 : Report) (seen h0 : N) (s : St) : Prop :=
  u_limits (st_u s) = l /\ total (st_u s) = t0 /\ entries_seen (st_u s) = seen /\
  (bytes_written t0 + bytes_written (st_rep s) <= max_total_bytes l)%N /\
  held (st_fs s) = (h0 + bytes_written (st_rep s))%N.

(** Where a layer is refused, the last write of which may have been cut short. *)
Definition spent (l : Limits) (t0 : Report) (seen h0 : N) (s : St) : Prop :=
  u_limits (st_u s) = l /\ total (st_u s) = t0 /\ entries_seen (st_u s) = seen /\
  (h0 + bytes_written (st_rep s) <= held (st_fs s))%N /\
  (bytes_written t0 + held (st_fs s) <= h0 + max_total_bytes l)%N.

Lemma fits_spent l t0 seen h0 s : fits l t0 seen h0 s -> spent l t0 seen h0 s.
Proof. intros (H1 & H2 & H3 & H4 & H5). split_and!; try done; lia. Qed.

Definition keeps {A} (m : M A) : Prop :=
  forall l t0 seen h0, triple (fits l t0 seen h0) m (outcome (fun _ => fits l t0 seen h0) (fun _ => spent l t0 seen h0)).

(** What neither counts bytes nor writes them keeps. *)
Lemma keeps_always {A} (m : M A) : (forall l t0 seen h0, triple (fits l t0 seen h0) m (fun _ => fits l t0 seen h0)) -> keeps m.
Proof. intros Hm l t0 n h0. eapply triple_post; [apply Hm|]. intros [a|e] s; [done|apply fits_spent]. Qed.

Lemma keeps_ret {A} (r : result A Refusal) : keeps (se_ret r).
Proof. apply keeps_always. by intros l t0 n h0 s Hs. Qed.
Lemma keeps_bind {A B} (m : M A) (k : A -> M B) : keeps m -> (forall a, keeps (k a)) -> keeps (se_bind m k).
Proof. intros Hm Hk l t0 n h0. eapply triple_bind; [apply Hm|]. intros a. apply Hk. Qed.
Lemma keeps_fs {A} (m : SE fs Refusal A) : still m -> keeps (on_fs m).
Proof.
  intros Hm. apply keeps_always. intros l t0 n h0 s (H1 & H2 & H3 & H4 & H5). specialize (Hm (st_fs s)). unfold on_fs.
  destruct (m (st_fs s)) as [r w]. cbn in *. split_and!; try done. cbn. congruence.
Qed.
Lemma keeps_get_u : keeps get_u.
Proof. apply keeps_always. by intros l t0 n h0 s Hs. Qed.
Lemma keeps_get_rep : keeps get_rep.
Proof. apply keeps_always. by intros l t0 n h0 s Hs. Qed.
Lemma keeps_get_written : keeps get_written.
Proof. apply keeps_always. by intros l t0 n h0 s Hs. Qed.
Lemma keeps_add_written p : keeps (add_written p).
Proof. apply keeps_always. by intros l t0 n h0 s Hs. Qed.
Lemma keeps_mod_rep f : (forall r, bytes_written (f r) = bytes_written r) -> keeps (mod_rep f).
Proof. intros Hf. apply keeps_always. intros l t0 n h0 s (H1 & H2 & H3 & H4 & H5). repeat split; try done; cbn; by rewrite Hf. Qed.
Lemma keeps_mod_u f :
  (forall u, u_limits (f u) = u_limits u /\ total (f u) = total u /\ entries_seen (f u) = entries_seen u) ->
  keeps (mod_u f).
Proof.
  intros Hf. apply keeps_always. intros l t0 n h0 s (H1 & H2 & H3 & H4 & H5). destruct (Hf (st_u s)) as (E1 & E2 & E3).
  repeat split; cbn; congruence.
Qed.

Ltac still_steps := repeat first
    [ apply still_ret | apply still_try_clone | apply still_open_dir | apply still_create_file | apply still_chmod
    | apply still_remove_child | apply still_prune_go | apply still_dir_existing | apply still_create_step
    | apply still_ensure_dir | apply still_hardlink | apply still_write_symlink
    | apply still_try | apply still_map_err | apply still_bind; [|intros ?] | case_match ].
Ltac keeps_step :=
  first
    [ apply keeps_ret | apply keeps_fs; solve [still_steps] | apply keeps_get_u | apply keeps_get_rep
    | apply keeps_get_written | apply keeps_add_written | by apply keeps_mod_rep
    | by apply keeps_mod_u | apply keeps_bind; [|intros ?] | case_match ].
Ltac keeps_steps := repeat keeps_step.

Lemma keeps_copy_bounded chunks n file path : keeps (copy_bounded chunks n file path).
Proof.
  revert n. induction chunks as [|[[|x buf]|e] rest IH]; intros n; [apply keeps_ret..| |apply keeps_ret].
  intros l t0 k h0 s Hs. cbn [copy_bounded]. unfold se_bind, get_u, get_rep, on_fs, se_map_err.
  destruct (_ <? _)%N; [by apply fits_spent|].
  destruct (N.ltb_spec (max_total_bytes (u_limits (st_u s)))
    (bytes_written (total (st_u s)) + bytes_written (st_rep s) + N.of_nat (length (x :: buf)))) as [|Ht]; [by apply fits_spent|].
  destruct (sys_write file (x :: buf) (st_fs s)) as [rw w] eqn:Ew. apply write_law in Ew.
  destruct Hs as (<- & <- & <- & Hb & Hh).
  assert (Hw : exists j, held w = (held (st_fs s) + N.of_nat j)%N /\ j <= length (x :: buf) /\ (rw = Ok tt -> j = length (x :: buf))).
  { destruct Ew as [(m & c & j & Hf & -> & Hj & Hok)|[-> Hne]]; [|exists 0; split_and!; [lia|lia|done]].
    exists j. split_and!; [|done|done]. pose proof (held_insert _ _ (NFile m (c ++ take j (x :: buf))) _ Hf) as E. cbn [data_len] in E.
    rewrite length_app, length_take in E. lia. }
  destruct Hw as (j & Ej & Hj & Hok). destruct rw as [[]|e]; cbn [map_err].
  - unfold mod_rep. cbn [st_fs st_u st_rep st_written]. specialize (Hok eq_refl). subst j. apply IH.
    split_and!; try done; unfold add_bytes_written; cbn in *; lia.
  - split_and!; try done; cbn in *; lia.
Qed.

Lemma keeps_create_go cur seen rest e limits : keeps (create_go debug_name cur seen rest e limits).
Proof. revert cur seen. induction rest as [|c rest IH]; intros cur seen; cbn [create_go]; keeps_steps. apply IH. Qed.

Lemma keeps_dir_create components e : keeps (dir_create debug_name components e).
Proof. unfold dir_create. keeps_steps. apply keeps_create_go. Qed.

Lemma keeps_materialise e parent components last path raw_mode :
  keeps (materialise debug_str escape_debug debug_name e parent components last path raw_mode).
Proof. unfold materialise, write_file, set_dir_mode. keeps_steps; apply keeps_copy_bounded. Qed.

Lemma keeps_write_entry e components :
  keeps (write_entry debug_str escape_debug debug_name debug_kind e components).
Proof.
  unfold write_entry. repeat first [apply keeps_dir_create | apply keeps_materialise | keeps_step].
Qed.

Lemma keeps_whiteout parent target : keeps (whiteout debug_name parent target).
Proof. unfold whiteout. keeps_steps. Qed.
Lemma keeps_opaque parent : keeps (opaque debug_name parent).
Proof. unfold opaque, prune. keeps_steps. Qed.

(** At most [cap] entries were read, and the layer so far fits; or it is refused. *)
Definition under (l : Limits) (t0 : Report) (h0 cap : N) (s : St) : Prop := exists seen, (seen <= cap)%N /\ fits l t0 seen h0 s.
Definition over (l : Limits) (t0 : Report) (h0 cap : N) (s : St) : Prop := exists seen, (seen <= cap)%N /\ spent l t0 seen h0 s.

(** The rest of [apply_entry] once the entry was counted. *)
Definition apply_counted (l : Limits) (e : TarEntry) : M unit :=
  do! p := se_ret (plan escape_debug debug_str (path_bytes e) l) in
  match p with
  | Root => se_ret (Ok tt)
  | Opaque parent => opaque debug_name parent
  | Whiteout parent target => whiteout debug_name parent target
  | Write components => write_entry debug_str escape_debug debug_name debug_kind e components
  end.

Lemma apply_entry_eq e s :
  apply_entry debug_str escape_debug debug_name debug_kind (Ok e) s =
  let l := u_limits (st_u s) in
  (if (max_entries l <? entries_seen (st_u s) + 1)%N
   then se_ret (Err (limit_exceeded "max_entries" "Limits::max_entries" (max_entries l)))
   else apply_counted l e)
    (MkSt (st_fs s) (count_entry (st_u s)) (st_rep s) (st_written s)).
Proof. reflexivity. Qed.

Lemma keeps_apply_counted l e : keeps (apply_counted l e).
Proof.
  apply keeps_bind; [apply keeps_ret|]. intros [cs|parent t|parent|].
  - apply keeps_write_entry.
  - apply keeps_whiteout.
  - apply keeps_opaque.
  - apply keeps_ret.
Qed.

Lemma apply_entry_under l t0 h0 item :
  triple (under l t0 h0 (max_entries l)) (apply_entry debug_str escape_debug debug_name debug_kind item)
    (outcome (fun _ => under l t0 h0 (max_entries l)) (fun _ => over l t0 h0 (max_entries l + 1))).
Proof.
  intros s (seen & Hseen & Hs). destruct item as [e|err]; [|exists seen; split; [lia|by apply fits_spent]].
  rewrite apply_entry_eq. destruct Hs as (Hl & Ht & Hn & Hb & Hh). cbn zeta. rewrite Hl, Hn.
  assert (Hs' : fits l t0 (seen + 1) h0 (MkSt (st_fs s) (count_entry (st_u s)) (st_rep s) (st_written s))).
  { repeat split; cbn; congruence. }
  destruct (N.ltb_spec (max_entries l) (seen + 1)) as [|Hle].
  { exists (seen + 1)%N. split; [lia|by apply fits_spent]. }
  pose proof (keeps_apply_counted l e l t0 (seen + 1)%N h0 _ Hs') as Hk.
  destruct (apply_counted l e _) as [[a|err] s1]; cbn in Hk |- *; (exists (seen + 1)%N; split; [lia|done]).
Qed.

Lemma iter_under l t0 h0 items :
  triple (under l t0 h0 (max_entries l))
    (se_iter (apply_entry debug_str escape_debug debug_name debug_kind) items)
    (outcome (fun _ => under l t0 h0 (max_entries l)) (fun _ => over l t0 h0 (max_entries l + 1))).
Proof. apply triple_iter. intros x _. apply apply_entry_under. Qed.

(** What an unpacker has written and read is within its limits. *)
Definition within_ceilings (u : Unpacker) : Prop :=
  (bytes_written (total u) <= max_total_bytes (u_limits u))%N /\
  (entries_seen u <= max_entries (u_limits u))%N.

(** One layer on top of what the image has cost so far. *)
Lemma layer_ceilings items s r s'
    (Hr : apply_layer debug_str escape_debug debug_name debug_kind items s = (r, s'))
    (Hw : within_ceilings (st_u s)) :
  let limits := u_limits (st_u s) in
  u_limits (st_u s') = limits /\
  match r with
  | Ok rep =>
      bytes_written (total (st_u s')) = (bytes_written (total (st_u s)) + bytes_written rep)%N /\
      held (st_fs s') = (held (st_fs s) + bytes_written rep)%N /\
      within_ceilings (st_u s')
  | Err _ =>
      total (st_u s') = total (st_u s) /\
      (held (st_fs s) + bytes_written (st_rep s') <= held (st_fs s'))%N /\
      (bytes_written (total (st_u s)) + held (st_fs s') <= held (st_fs s) + max_total_bytes limits)%N /\
      (entries_seen (st_u s') <= max_entries limits + 1)%N
  end.
Proof.
  destruct Hw as [Hb He]. cbv zeta. unfold apply_layer in Hr. set (limits := u_limits (st_u s)) in *.
  unfold se_bind at 1, mod_rep in Hr. unfold se_bind at 1 in Hr. cbn [st_fs st_u st_rep st_written] in Hr.
  assert (Hs : under limits (total (st_u s)) (held (st_fs s)) (max_entries limits)
    (MkSt (st_fs s) (st_u s) Report_default ∅)).
  { exists (entries_seen (st_u s)). split; [done|]. split_and!; try done; cbn; lia. }
  unfold se_bind at 1, se_ret at 1 in Hr. destruct items as [items|err]; cbn [map_err] in Hr.
  2:{ injection Hr as <- <-. cbn. split_and!; try done; lia. }
  unfold se_bind at 1 in Hr.
  pose proof (iter_under _ _ _ items _ Hs) as Hi.
  destruct (se_iter _ items _) as [[[]|err] s1]; cbn [fst snd outcome] in Hi.
  2:{ injection Hr as <- <-. destruct Hi as (seen & Hseen & Hl & Ht & Hn & H1 & H2). split; [done|].
      rewrite Hn. split_and!; try done; lia. }
  destruct Hi as (seen & Hseen & Hl & Ht & Hn & Hbb & Hh).
  unfold se_bind, get_rep, mod_u, get_u, se_ret in Hr. injection Hr as <- <-. cbn.
  unfold within_ceilings. cbn. rewrite Hl, Ht, Hn. by split_and!.
Qed.

(** C40: The ceilings are the image's, not the layer's, and they are of what is on the disk: layers applied
    in order, until one is refused, add to the host as many bytes of content as the running total has
    grown by, if none is refused, and the total is then under [max_total_bytes] and the entries read
    under [max_entries]; and wherever a layer is refused, for whatever reason, mid-write included, the
    bytes added to the host and those counted before are together still within [max_total_bytes],
    the total is still within it, and at most one entry past [max_entries] was looked at, the one
    refused. *)
Theorem image_ceilings layers s r s'
    (Hr : apply_layers debug_str escape_debug debug_name debug_kind layers s = (r, s'))
    (Hw : within_ceilings (st_u s)) :
  let limits := u_limits (st_u s) in
  u_limits (st_u s') = limits /\
  (bytes_written (total (st_u s')) <= max_total_bytes limits)%N /\
  (held (st_fs s) <= held (st_fs s'))%N /\
  (bytes_written (total (st_u s)) + (held (st_fs s') - held (st_fs s)) <= max_total_bytes limits)%N /\
  match r with
  | Ok _ =>
      bytes_written (total (st_u s')) = (bytes_written (total (st_u s)) + (held (st_fs s') - held (st_fs s)))%N /\
      (entries_seen (st_u s') <= max_entries limits)%N
  | Err _ => (entries_seen (st_u s') <= max_entries limits + 1)%N
  end.
Proof.
  cbv zeta. revert s Hw Hr. induction layers as [|items layers IH]; intros s Hw Hr.
  - injection Hr as <- <-. destruct Hw as [Hb He]. split_and!; try done; lia.
  - unfold apply_layers in Hr. cbn [se_iter] in Hr. unfold se_bind at 1 2 in Hr.
    destruct (apply_layer _ _ _ _ items s) as [r1 s1] eqn:E1.
    destruct (layer_ceilings _ _ _ _ E1 Hw) as [Hl H1]. destruct r1 as [rep|e].
    + unfold se_ret in Hr. fold (apply_layers debug_str escape_debug debug_name debug_kind layers s1) in Hr.
      destruct H1 as (Ht & Hh & Hw1). destruct (IH s1 Hw1 Hr) as (Hl' & Hb' & Hm' & Hd' & Hr'). rewrite Hl in *.
      split_and!; try done; [lia..|]. destruct r; [|done]. split; [lia|tauto].
    + injection Hr as <- <-. destruct H1 as (Ht & Hh & Hd & He). destruct Hw as [Hb _]. rewrite Ht. split_and!; try done; lia.
Qed.
End Layer.

Lemma image_ceilings_witness :
  let u := MkUnpacker [] [] 1 (MkLimits 5 4 10 10 10) Report_default 0 [] [] false in
  let w := {[ 1%positive := NDir DIR_MODE ∅ ]} : fs in
  let '(r, s') := apply_layers Escape.id Escape.id Escape.id (fun _ => [])
    [Ok [Escape.tar_entry "a" Regular 420 None "abc"]; Ok [Escape.tar_entry "b" Regular 420 None "def"]]
    (MkSt w u Report_default ∅) in
  r = Err (LimitExceeded "max_total_bytes" 5 "Limits::max_total_bytes") /\ (held (st_fs s') <= 5)%N.
Proof.
  intros u w.
  assert (Hr : fst (apply_layers Escape.id Escape.id Escape.id (fun _ => [])
    [Ok [Escape.tar_entry "a" Regular 420 None "abc"]; Ok [Escape.tar_entry "b" Regular 420 None "def"]]
    (MkSt w u Report_default ∅)) = Err (LimitExceeded "max_total_bytes" 5 "Limits::max_total_bytes"))
    by (vm_compute; reflexivity).
  destruct (apply_layers _ _ _ _ _ _) as [r s'] eqn:Er. cbn [fst] in Hr. split; [exact Hr|].
  destruct (image_ceilings _ _ _ _ _ _ _ _ Er) as (_ & _ & _ & Hd & _).
  - split; vm_compute; discriminate.
  - assert (E0 : held w = 0%N) by (vm_compute; reflexivity). change (0 + (held (st_fs s') - held w) <= 5)%N in Hd. rewrite E0 in Hd. lia.
Defined.

(** ** The recorded special modes *)

Section Ordered.
Context {K V : Type} (cmp : K -> K -> comparison).

Class Ordered : Prop := {
  cmp_eq a b : cmp a b = Eq <-> a = b;
  cmp_flip a b : cmp a b = Gt -> cmp b a = Lt;
  cmp_trans a b c : cmp a b = Lt -> cmp b c = Lt -> cmp a c = Lt }.

(** [BTreeMap::get] *)
Fixpoint bt_get (k : K) (m : list (K * V)) : option V :=
  match m with
  | [] => None
  | (k', v) :: r => match cmp k k' with Eq => Some v | _ => bt_get k r end
  end.

Definition below (k : K) (m : list (K * V)) : Prop := Forall (fun kv => cmp k kv.1 = Lt) m.

(** Keys strictly increasing. *)
Inductive bt_sorted : list (K * V) -> Prop :=
  | bt_sorted_nil : bt_sorted []
  | bt_sorted_cons k v m : below k m -> bt_sorted m -> bt_sorted ((k, v) :: m).

Context `{Ordered}.

Lemma cmp_refl a : cmp a a = Eq.
Proof. by apply cmp_eq. Qed.

Lemma below_trans k k' m : cmp k k' = Lt -> below k' m -> below k m.
Proof. intros Hk Hm. eapply Forall_impl; [exact Hm|]. intros kv Hkv. by eapply cmp_trans. Qed.

Lemma bt_get_below k m : below k m -> bt_get k m = None.
Proof.
  induction m as [|[k' v] m IH]; [done|]. intros [Hk Hm]%Forall_cons. cbn in Hk |- *. rewrite Hk. by apply IH.
Qed.

Lemma below_insert k k' v m : cmp k k' = Lt -> below k m -> below k (bt_insert cmp k' v m).
Proof. intros Hk Hm. by apply Forall_bt_insert. Qed.

Lemma bt_sorted_insert k v m : bt_sorted m -> bt_sorted (bt_insert cmp k v m).
Proof.
  intros Hm. induction Hm as [|k' v' m Hk Hm IH]; cbn; [by constructor; [constructor|constructor]|].
  destruct (cmp k k') eqn:Ec.
  - apply cmp_eq in Ec as ->. by constructor.
  - constructor; [|by constructor]. apply Forall_cons. split; [done|]. by eapply below_trans.
  - constructor; [|done]. apply below_insert; [by apply cmp_flip|done].
Qed.

Lemma bt_sorted_remove k m : bt_sorted m -> bt_sorted (bt_remove cmp k m).
Proof.
  intros Hm. induction Hm as [|k' v' m Hk Hm IH]; cbn; [constructor|].
  destruct (cmp k k'); [done|..]; (constructor; [by apply Forall_bt_remove|done]).
Qed.

Lemma bt_sorted_filter p m : bt_sorted m -> bt_sorted (List.filter p m).
Proof.
  intros Hm. induction Hm as [|k v m Hk Hm IH]; cbn; [constructor|].
  destruct (p (k, v)); [|done]. constructor; [|done]. apply Forall_forall. intros x Hx.
  apply list_elem_of_In, filter_In in Hx as [Hx _]. unfold below in Hk. rewrite Forall_forall in Hk.
  by apply Hk, list_elem_of_In.
Qed.

Lemma bt_get_insert k v m k' :
  bt_get k' (bt_insert cmp k v m) = match cmp k' k with Eq => Some v | _ => bt_get k' m end.
Proof.
  induction m as [|[k1 v1] m IH]; cbn; [by destruct (cmp k' k)|].
  destruct (cmp k k1) eqn:Ec; cbn.
  - apply cmp_eq in Ec as ->. by destruct (cmp k' k1).
  - done.
  - rewrite IH. destruct (cmp k' k) eqn:E1; [|done..]. apply cmp_eq in E1 as ->. by rewrite Ec.
Qed.

Lemma bt_get_remove k m k' :
  bt_sorted m ->
  bt_get k' (bt_remove cmp k m) = match cmp k' k with Eq => None | _ => bt_get k' m end.
Proof.
  intros Hm. induction Hm as [|k1 v1 m Hk Hm IH]; cbn; [by destruct (cmp k' k)|].
  destruct (cmp k k1) eqn:Ec; cbn.
  - apply cmp_eq in Ec as ->. destruct (cmp k' k1) eqn:E1; [|done..].
    apply cmp_eq in E1 as ->. by apply bt_get_below.
  - rewrite IH. destruct (cmp k' k) eqn:E1; [|done..]. apply cmp_eq in E1 as ->. by rewrite Ec.
  - rewrite IH. destruct (cmp k' k) eqn:E1; [|done..]. apply cmp_eq in E1 as ->. by rewrite Ec.
Qed.

Lemma bt_get_filter (p : K -> bool) m k :
  bt_get k (List.filter (fun kv => p kv.1) m) = if p k then bt_get k m else None.
Proof.
  induction m as [|[k1 v1] m IH]; cbn; [by destruct (p k)|].
  destruct (p k1) eqn:Ep; cbn; rewrite IH; destruct (cmp k k1) eqn:Ec; try done.
  - apply cmp_eq in Ec as ->. by rewrite Ep.
  - apply cmp_eq in Ec as ->. by rewrite Ep.
Qed.
End Ordered.

#[export] Instance lex_ordered {A} (cmp : A -> A -> comparison) `{!Ordered cmp} : Ordered (lex_cmp cmp).
Proof.
  split.
  - induction a as [|x a IH]; intros [|y b]; cbn; try done. destruct (cmp x y) eqn:Ec.
    + apply (cmp_eq cmp) in Ec as ->. rewrite IH. split; congruence.
    + split; [done|]. intros [= -> ->]. by rewrite (cmp_refl cmp y) in Ec.
    + split; [done|]. intros [= -> ->]. by rewrite (cmp_refl cmp y) in Ec.
  - induction a as [|x a IH]; intros [|y b]; cbn; try done. destruct (cmp x y) eqn:Ec; intros Hg.
    + apply (cmp_eq cmp) in Ec as ->. rewrite (cmp_refl cmp). by apply IH.
    + done.
    + by rewrite (cmp_flip cmp x y Ec).
  - induction a as [|x a IH]; intros [|y b] [|z c]; cbn; try done.
    destruct (cmp x y) eqn:E1; [apply (cmp_eq cmp) in E1 as ->| |done].
    + destruct (cmp y z) eqn:E2; [exact (IH b c)|done..].
    + intros _. destruct (cmp y z) eqn:E2; [apply (cmp_eq cmp) in E2 as <-; by rewrite E1| |done].
      by rewrite (cmp_trans cmp _ _ _ E1 E2).
Qed.

#[export] Instance code_ordered : Ordered (fun x y => N.compare (code x) (code y)).
Proof.
  split.
  - intros a b. rewrite N.compare_eq_iff. split; [apply code_inj|by intros ->].
  - intros a b. rewrite N.compare_gt_iff, N.compare_lt_iff. done.
  - intros a b c. rewrite !N.compare_lt_iff. lia.
Qed.

#[export] Instance string_ordered : Ordered string_cmp.
Proof. apply lex_ordered, code_ordered. Qed.

(** The recordings follow the tree.  After an entry is written, its path carries the entry's
    own special bits or nothing, so a later layer that rewrites a setuid file without the bit
    takes the recording away (a symbolic link carries none whatever it states); an entry that
    is not a directory also drops every recording beneath its path; and every other recording
    is untouched.  The recordings stay sorted by path, one for each. *)
Theorem record_special_spec kind path raw_mode u p (Hs : bt_sorted string_cmp (special_modes u)) :
  let m := special_modes (record_special kind path raw_mode u) in
  bt_sorted string_cmp m /\
  (bt_get string_cmp path m =
     if negb (N.land raw_mode 3584 =? 0)%N && negb (bool_decide (kind = Symlink))
     then Some raw_mode else None) /\
  (p <> path ->
   bt_get string_cmp p m =
     if negb (bool_decide (kind = Directory)) && starts_with (path ++ B "/") p then None
     else bt_get string_cmp p (special_modes u)).
Proof.
  intros m. unfold m, record_special. cbn [special_modes with_special].
  set (m1 := if negb _ && negb _ then _ else _).
  assert (Hs1 : bt_sorted string_cmp m1).
  { unfold m1. destruct (_ && _); [eapply bt_sorted_insert; [apply string_ordered|exact Hs]|by apply bt_sorted_remove]. }
  assert (Hget : forall q, bt_get string_cmp q m1 =
    match string_cmp q path with
    | Eq => if negb (N.land raw_mode 3584 =? 0)%N && negb (bool_decide (kind = Symlink))
            then Some raw_mode else None
    | _ => bt_get string_cmp q (special_modes u) end).
  { intros q. unfold m1. destruct (_ && _); [apply bt_get_insert; apply string_ordered|apply bt_get_remove; [apply string_ordered|exact Hs]]. }
  assert (Hself : starts_with (path ++ B "/") path = false).
  { apply not_true_is_false. intros [r Hr]%starts_with_true. apply (f_equal length) in Hr.
    rewrite !length_app in Hr. change (length (B "/")) with 1 in Hr. lia. }
  clearbody m1. destruct (bool_decide (kind = Directory)) eqn:Ek; cbn [negb andb].
  - split; [done|]. rewrite !Hget, (cmp_refl string_cmp). split; [done|]. intros Hne.
    destruct (string_cmp p path) eqn:Ec; [|done..]. by apply (cmp_eq string_cmp) in Ec.
  - unfold forget_subtree. split; [by apply bt_sorted_filter|].
    rewrite !(bt_get_filter string_cmp (fun q => negb (starts_with (path ++ B "/") q))).
    rewrite Hself. cbn [negb]. rewrite !Hget, (cmp_refl string_cmp). split; [done|]. intros Hne.
    destruct (starts_with _ p); [done|]. cbn [negb].
    destruct (string_cmp p path) eqn:Ec; [|done..]. by apply (cmp_eq string_cmp) in Ec.
Qed.

Lemma record_special_spec_witness :
  let u := MkUnpacker [] [] 1 Limits_default Report_default 0 []
    [(B "bin/su", 2541%N); (B "lib/x/ping", 2541%N)] false in
  bt_get string_cmp (B "bin/su") (special_modes (record_special Regular (B "bin/su") 493 u)) = None /\
  bt_get string_cmp (B "lib/x/ping") (special_modes (record_special Symlink (B "lib") 511 u)) = None.
Proof.
  intros u. assert (Hs : bt_sorted string_cmp (special_modes u)).
  { constructor; [by repeat constructor|]. constructor; [constructor|constructor]. }
  destruct (record_special_spec Regular (B "bin/su") 493 u (B "bin/su") Hs) as (_ & H1 & _).
  destruct (record_special_spec Symlink (B "lib") 511 u (B "lib/x/ping") Hs) as (_ & _ & H2).
  split; [exact H1|]. by apply H2.
Defined.

(** ** An unreadable directory *)

Module Unreadable.
(** A directory its owner may search but not list, and a setuid program in it. *)
Definition layer (dir_mode : N) := Ok (E := bytes)
  [Escape.tar_entry "d" Directory dir_mode None ""; Escape.tar_entry "d/su" Regular 2541 None "su"].
Definition host : fs := {[ 1%positive := NDir DIR_MODE ∅ ]}.
(** The recordings after the layer and after [settle], and whether the program is still there. *)
Definition run (dir_mode : N) : list (bytes * N) * list (bytes * N) * option node :=
  let s := snd (apply_layers Escape.id Escape.id Escape.id (fun _ => []) [layer dir_mode]
                  (MkSt host Escape.unpacker Report_default ∅)) in
  let s' := snd (settle Escape.id s) in
  (special_modes (st_u s), setuid_paths (total (st_u s')),
   d ← dir_at (st_fs s') 1 [B "d"]; i ← entry (st_fs s') d (B "su"); st_fs s' !! i).
End Unreadable.

(** [finish] gives the directories their own modes before it asks the tree which recordings are
    still true.  Under an owner without read permission on a directory ([0o311] here, as an
    unprivileged operator meets it) the walk's open fails with [EACCES], [lstat] says a
    directory, and [dir_existing] answers as for a file: nothing there.  So the recording of
    [d/su] is dropped though the file is in the tree; with [0o755] it is kept. *)
Example unreadable_directory_drops_recordings :
  Unreadable.run 201 = ([(B "d/su", 2541%N)], [], Some (NFile 493 (B "su"))) /\
  Unreadable.run 493 = ([(B "d/su", 2541%N)], [(B "d/su", 2541%N)], Some (NFile 493 (B "su"))).
Proof. vm_compute. split; reflexivity. Qed.
