(* ===== verification/Slots.v ===== *)
(** * Network slots ([crates/core/src/net.rs])

    A host has a fixed set of tap slots, each with its tap name, two addresses and a MAC.  The
    manifest of [isopod setup] says how many there are and which of them are filtered.  A run
    claims a slot by an exclusive [flock] on the slot's lockfile and holds it as long as the
    descriptor is open.

    The file has the slots' parameters, the [Manifest] with its reading of old files, the checks
    a run makes before it boots, and the claim.  The kernel is a parameter: the class
    [LockCalls] has the calls the claim makes, [LockLaws] what [open(2)], [fstat(2)], [flock(2)]
    and [close(2)] document.  The claims of all processes are steps of one [World]; the abstract
    specification is a set of held indices, [pool_step]. *)
From stdpp Require Import fin_maps fin_map_dom.
From S2P Require Import Prelude Text IpAddr Digest Effects Sys.

(** ** Constants *)

Definition DEFAULT_FILTERED_SLOTS : nat := 4.
Definition BROKER_SOCKS_PORT : N := 1080.
Definition BROKER_HTTP_PORT : N := 3128.
Definition BROKER_INJECT_PORT : N := 3129.
Definition BROKER_DNS_PORT : N := 5353.
Definition BROKER_TCP_PORTS : list N :=
  [BROKER_SOCKS_PORT; BROKER_HTTP_PORT; BROKER_INJECT_PORT; BROKER_DNS_PORT].
Definition LEGACY_BROKER_TCP_PORTS : list N :=
  [BROKER_SOCKS_PORT; BROKER_HTTP_PORT; BROKER_DNS_PORT].
Definition MAX_SLOT_COUNT : nat := 250.
Definition IFNAMSIZ : nat := 16.
Definition MANIFEST_VERSION : N := 1.

(** ** Slot parameters *)

Inductive SlotError : Type :=
  | TapNameTooLong (name : bytes)
  | OctetTooBig (i : nat)
  | SetupMissing
  | NoFilteredSlots (total suggest : nat)
  | InvalidRange (lo hi : nat)
  | NoneUsable (n : nat) (filtered : bool) (why : list (nat * IoError))
  | AllInUse (n : nat) (filtered : bool) (also : list (nat * IoError))
  | NoCredentialEndpoint (opened : list N) (total filtered : nat)
  | ForwardingOn (tap path : bytes) (observed : option bytes).
#[export] Instance IoError_eq_dec : EqDecision IoError.
Proof. solve_decision. Defined.
#[export] Instance SlotError_eq_dec : EqDecision SlotError.
Proof. solve_decision. Defined.

Definition show_nat (n : nat) : bytes := show_N (N.of_nat n).

Definition tap_name (i : nat) : result bytes SlotError :=
  let name := B "isopod-tap" ++ show_nat i in
  if (IFNAMSIZ <=? length name)%nat then Err (TapNameTooLong name) else Ok name.

Definition octet (i : nat) : result N SlotError :=
  if (N.of_nat i <=? u8_max)%N then Ok (N.of_nat i) else Err (OctetTooBig i).

Definition host_ip (i : nat) : bytes := B "10.107." ++ show_nat i ++ B ".1".
Definition guest_ip (i : nat) : bytes := B "10.107." ++ show_nat i ++ B ".2".
Definition host_cidr (i : nat) : bytes := B "10.107." ++ show_nat i ++ B ".1/30".
Definition guest_cidr (i : nat) : bytes := B "10.107." ++ show_nat i ++ B ".2/30".

Definition guest_for_gateway (gw : ipv4) : ipv4 :=
  let 'Ipv4 a b c _ := gw in Ipv4 a b c (ascii_of_N 2).

(** [{i:02x}] *)
Definition hex02 (i : nat) : bytes :=
  let s := show_hex (N.of_nat i) in repeat "0"%char (2 - length s) ++ s.

Definition guest_mac (i : nat) : bytes := B "06:00:0a:6b:" ++ hex02 i ++ B ":02".

(** ** The manifest *)

Module Manifest.

Record Manifest : Type := MkManifest {
  version : N;
  slot_count : nat;
  default_iface : bytes;
  created_unix : N;
  allow_lan_egress : bool;
  filtered_from_field : option nat;
  broker_tcp_ports_field : option (list N);
  gateway_dns_port_field : option N }.

Definition new (slot_count : nat) (default_iface : bytes) (created_unix : N)
    (allow_lan_egress : bool) (filtered_from : nat) : Manifest :=
  let filtered := (filtered_from <? slot_count)%nat in
  {| version := MANIFEST_VERSION;
     slot_count := slot_count;
     default_iface := default_iface;
     created_unix := created_unix;
     allow_lan_egress := allow_lan_egress;
     filtered_from_field := if filtered then Some filtered_from else None;
     broker_tcp_ports_field := if filtered then Some BROKER_TCP_PORTS else None;
     gateway_dns_port_field := if (0 <? filtered_from)%nat then Some BROKER_DNS_PORT else None |}.

Definition gateway_dns_port (m : Manifest) : option N := gateway_dns_port_field m.

Definition broker_tcp_ports (m : Manifest) : list N :=
  default LEGACY_BROKER_TCP_PORTS (broker_tcp_ports_field m).

Definition supports_credential_endpoint (m : Manifest) : bool :=
  existsb (N.eqb BROKER_INJECT_PORT) (broker_tcp_ports m).

Definition filtered_from (m : Manifest) : nat :=
  match filtered_from_field m with
  | Some f => if (f <=? slot_count m)%nat then f else slot_count m
  | None => slot_count m
  end.

Definition filtered_count (m : Manifest) : nat := slot_count m - filtered_from m.

Definition is_filtered (m : Manifest) (i : nat) : bool :=
  (filtered_from m <=? i)%nat && (i <? slot_count m)%nat.

End Manifest.

(** ** The checks before a run *)

(** The loop [for i in 0..slot_count], from [i] with [n] rounds left. *)
Fixpoint all_taps_from (present : bytes -> bool) (i n : nat) : result bool SlotError :=
  match n with
  | 0%nat => Ok true
  | S n =>
      let? name := tap_name i in
      if negb (present name) then Ok false else all_taps_from present (S i) n
  end.

Definition all_taps_present (slot_count : nat) (present : bytes -> bool) : result bool SlotError :=
  all_taps_from present 0 slot_count.

Definition require_credential_endpoint {E} (manifest : result Manifest.Manifest E) :
    result unit SlotError :=
  let? manifest := map_err (fun _ => SetupMissing) manifest in
  if Manifest.supports_credential_endpoint manifest then Ok tt
  else if (Manifest.filtered_count manifest =? 0)%nat then Ok tt
  else
    let total := Nat.min (Manifest.slot_count manifest) MAX_SLOT_COUNT in
    let filtered := Nat.min (Manifest.filtered_count manifest) total in
    Err (NoCredentialEndpoint (Manifest.broker_tcp_ports manifest) total filtered).

Definition tap_forwarding_proc (tap : bytes) : bytes :=
  B "/proc/sys/net/ipv4/conf/" ++ tap ++ B "/forwarding".

Definition require_forwarding_off (tap : bytes) (raw : option bytes) : result unit SlotError :=
  if bool_decide (option_map trim raw = Some (B "0")) then Ok tt
  else Err (ForwardingOn tap (tap_forwarding_proc tap) (option_map trim raw)).

(** [read] is [fs::read_to_string(path).ok()]. *)
Definition require_filtered_kernel_guard (read : bytes -> option bytes) (i : nat) :
    result unit SlotError :=
  let? tap := tap_name i in
  require_forwarding_off tap (read (tap_forwarding_proc tap)).

Definition require_filtered_pool_guard {E} (read : bytes -> option bytes)
    (manifest : result Manifest.Manifest E) : result unit SlotError :=
  let? manifest := map_err (fun _ => SetupMissing) manifest in
  let lo := Manifest.filtered_from manifest in
  let hi := Nat.min (Manifest.slot_count manifest) MAX_SLOT_COUNT in
  let? _ := traverse (require_filtered_kernel_guard read) (seq lo (hi - lo)) in
  Ok tt.

(** ** The kernel's side of a lockfile *)

Inductive file_kind : Type := Regular | Directory | Symlink | Fifo | Socket | Device.
#[export] Instance file_kind_eq_dec : EqDecision file_kind.
Proof. solve_decision. Defined.

(** What the claim can see of a host: paths, the kinds of inodes, the open file descriptions of
    all processes, which description holds an inode's [flock], and what was printed. *)
Record Host : Type := MkHost {
  names : gmap bytes positive;
  kinds : gmap positive file_kind;
  opens : gmap positive positive;
  locks : gmap positive positive;
  stderr : list (nat * IoError) }.

Definition EAGAIN : N := 11.
(** [e.kind() == ErrorKind::WouldBlock] *)
Definition would_block (e : IoError) : bool := is_errno e EAGAIN.

(** The calls: [open(p, O_WRONLY|O_CREAT|O_NOFOLLOW|O_NONBLOCK|O_CLOEXEC, 0600)], [fstat],
    [flock(LOCK_EX|LOCK_NB)] and [close]. *)
Class LockCalls : Type := {
  k_open : bytes -> SE Host IoError positive;
  k_fstat : positive -> SE Host IoError file_kind;
  k_flock : positive -> SE Host IoError unit;
  k_close : positive -> Host -> Host }.

Definition with_locks (h : Host) (l : gmap positive positive) : Host :=
  MkHost (names h) (kinds h) (opens h) l (stderr h).

Definition closed (d : positive) (h : Host) : Host :=
  MkHost (names h) (kinds h) (delete d (opens h))
    (filter (fun il : positive * positive => il.2 <> d) (locks h)) (stderr h).

(** An open that made description [d] on inode [i]: the file was there and is not a symlink, or
    it is new. *)
Inductive opened (p : bytes) (d i : positive) (h : Host) : Host -> Prop :=
  | opened_old : opens h !! d = None -> names h !! p = Some i -> kinds h !! i <> Some Symlink ->
      opened p d i h (MkHost (names h) (kinds h) (<[d:=i]> (opens h)) (locks h) (stderr h))
  | opened_new : opens h !! d = None -> names h !! p = None -> kinds h !! i = None ->
      opened p d i h (MkHost (<[p:=i]> (names h)) (<[i:=Regular]> (kinds h)) (<[d:=i]> (opens h))
        (locks h) (stderr h)).

(** What the manual pages say of the calls: any of them may fail; [flock] grants a lock only
    when no other description has it, and says [EWOULDBLOCK] only when one has. *)
Class LockLaws (K : LockCalls) : Prop := {
  open_ok p h d h' : k_open p h = (Ok d, h') -> exists i, opened p d i h h';
  open_err p h e h' : k_open p h = (Err e, h') -> h' = h;
  fstat_same d h r h' : k_fstat d h = (r, h') -> h' = h;
  fstat_ok d i h k h' : opens h !! d = Some i -> k_fstat d h = (Ok k, h') -> kinds h !! i = Some k;
  flock_ok d i h u h' : opens h !! d = Some i -> k_flock d h = (Ok u, h') ->
    (locks h !! i = None \/ locks h !! i = Some d) /\ h' = with_locks h (<[i:=d]> (locks h));
  flock_err d h e h' : k_flock d h = (Err e, h') -> h' = h;
  flock_held d i h e h' : opens h !! d = Some i -> k_flock d h = (Err e, h') ->
    would_block e = true -> is_Some (locks h !! i);
  close_spec d h : k_close d h = closed d h }.

(** ** The claim *)

Record Slot : Type := MkSlot { index : nat; _lock : positive; filtered : bool }.
#[export] Instance Slot_eq_dec : EqDecision Slot.
Proof. solve_decision. Defined.

Definition lock_path_in (root : bytes) (i : nat) : bytes :=
  path_join root (B "slot-" ++ show_nat i ++ B ".lock").

Section claim.
Context `{K : LockCalls}.

(** Dropping a [File]. *)
Definition drop_file {E} (d : positive) : SE Host E unit := fun h => (Ok tt, k_close d h).

Definition not_regular (path : bytes) : IoError :=
  InvalidInput (path ++ B " is not a regular file").

Definition claim_lock (path : bytes) : SE Host IoError (option positive) :=
  do! file := k_open path in
  do! kind := se_try (k_fstat file) in
  match kind with
  | Err e => do! _ := drop_file file in se_ret (Err e)
  | Ok kind =>
      if negb (bool_decide (kind = Regular)) then
        do! _ := drop_file file in se_ret (Err (not_regular path))
      else
        do! locked := se_try (k_flock file) in
        match locked with
        | Ok _ => se_ret (Ok (Some file))
        | Err e =>
            do! _ := drop_file file in
            if would_block e then se_ret (Ok None) else se_ret (Err e)
        end
  end.

Definition try_claim_slot (root : bytes) (i : nat) (filtered : bool) :
    SE Host IoError (option Slot) :=
  do! lock := claim_lock (lock_path_in root i) in
  se_ret (Ok (option_map (fun l => MkSlot i l filtered) lock)).

(** [eprintln!] of a skipped slot *)
Definition eprint {E} (line : nat * IoError) : SE Host E unit := fun h =>
  (Ok tt, MkHost (names h) (kinds h) (opens h) (locks h) (stderr h ++ [line])).

(** The loop over [lo..hi], from slot [i] with [n] slots left; what is left of it after the last
    slot is the choice of the message. *)
Fixpoint claim_scan (root : bytes) (filtered : bool) (i n : nat) (unusable : list (nat * IoError)) :
    SE Host SlotError (Slot + list (nat * IoError)) :=
  match n with
  | 0%nat => se_ret (Ok (inr unusable))
  | S n =>
      do! _ := se_ret (tap_name i) in
      do! _ := se_ret (octet i) in
      do! r := se_try (try_claim_slot root i filtered) in
      match r with
      | Ok (Some slot) => se_ret (Ok (inl slot))
      | Ok None => claim_scan root filtered (S i) n unusable
      | Err e =>
          do! _ := eprint (i, e) in
          claim_scan root filtered (S i) n (unusable ++ [(i, e)])
      end
  end.

Definition claim_range_in (root : bytes) (lo hi : nat) (filtered : bool) : SE Host SlotError Slot :=
  if (hi =? 0)%nat || (MAX_SLOT_COUNT <? hi)%nat || (hi <? lo)%nat then
    se_ret (Err (InvalidRange lo hi))
  else
    do! r := claim_scan root filtered lo (hi - lo) [] in
    match r with
    | inl slot => se_ret (Ok slot)
    | inr unusable =>
        let n := (hi - lo)%nat in
        if negb (bool_decide (unusable = [])) && (length unusable =? n)%nat then
          se_ret (Err (NoneUsable n filtered unusable))
        else se_ret (Err (AllInUse n filtered unusable))
    end.

(** The two public claims, given what [manifest_for_claim] found. *)
Definition claim {E} (found : result (bytes * Manifest.Manifest) E) : SE Host SlotError Slot :=
  do! rm := se_ret (map_err (fun _ => SetupMissing) found) in
  claim_range_in rm.1 0 (Manifest.filtered_from rm.2) false.

Definition claim_filtered {E} (found : result (bytes * Manifest.Manifest) E) :
    SE Host SlotError Slot :=
  do! rm := se_ret (map_err (fun _ => SetupMissing) found) in
  let m := rm.2 in
  if (Manifest.filtered_count m =? 0)%nat then
    se_ret (Err (NoFilteredSlots (Manifest.slot_count m + DEFAULT_FILTERED_SLOTS)
      DEFAULT_FILTERED_SLOTS))
  else claim_range_in rm.1 (Manifest.filtered_from m) (Manifest.slot_count m) true.
End claim.

(** ** A kernel in memory

    The least-numbered free description; opening a directory, a symlink, a FIFO without a reader
    or a socket fails as Linux documents it. *)

Definition EISDIR : N := 21.
Definition ELOOP : N := 40.
Definition ENXIO : N := 6.
Definition EBADF : N := 9.
Definition errno (n : N) (text : string) : IoError := MkIoError (Some n) (B text).

Definition mem_open (p : bytes) : SE Host IoError positive := fun h =>
  let d := fresh (dom (opens h)) in
  let old i := (Ok d, MkHost (names h) (kinds h) (<[d:=i]> (opens h)) (locks h) (stderr h)) in
  match names h !! p with
  | Some i =>
      match kinds h !! i with
      | Some Regular | Some Device => old i
      | Some Directory => (Err (errno EISDIR "Is a directory"), h)
      | Some Symlink => (Err (errno ELOOP "Too many levels of symbolic links"), h)
      | _ => (Err (errno ENXIO "No such device or address"), h)
      end
  | None =>
      let i := fresh (dom (kinds h)) in
      (Ok d, MkHost (<[p:=i]> (names h)) (<[i:=Regular]> (kinds h)) (<[d:=i]> (opens h))
        (locks h) (stderr h))
  end.

Definition mem_fstat (d : positive) : SE Host IoError file_kind := fun h =>
  match opens h !! d ≫= (fun i => kinds h !! i) with
  | Some k => (Ok k, h)
  | None => (Err (errno EBADF "Bad file descriptor"), h)
  end.

Definition mem_flock (d : positive) : SE Host IoError unit := fun h =>
  match opens h !! d with
  | None => (Err (errno EBADF "Bad file descriptor"), h)
  | Some i =>
      match locks h !! i with
      | Some d' =>
          if bool_decide (d' = d) then (Ok tt, with_locks h (<[i:=d]> (locks h)))
          else (Err (errno EAGAIN "Resource temporarily unavailable"), h)
      | None => (Ok tt, with_locks h (<[i:=d]> (locks h)))
      end
  end.

Definition mem_kernel : LockCalls :=
  {| k_open := mem_open; k_fstat := mem_fstat; k_flock := mem_flock; k_close := closed |}.

Lemma mem_open_law p h d h' : mem_open p h = (Ok d, h') -> exists i, opened p d i h h'.
Proof.
  pose proof (is_fresh (dom (opens h))) as Hd%not_elem_of_dom.
  unfold mem_open. destruct (names h !! p) as [i|] eqn:Hp.
  - destruct (kinds h !! i) as [[]|] eqn:Hk; intros [= <- <-]; exists i;
      (apply opened_old; [done|done|congruence]).
  - intros [= <- <-]. eexists. apply opened_new; [done|done|].
    apply not_elem_of_dom, is_fresh.
Qed.

#[export] Instance mem_kernel_laws : LockLaws mem_kernel.
Proof.
  split; cbn.
  - apply mem_open_law.
  - intros p h e h'. unfold mem_open. repeat case_match; naive_solver.
  - intros d h r h'. unfold mem_fstat. case_match; naive_solver.
  - intros d i h k h' Hi. unfold mem_fstat. rewrite Hi. cbn. case_match; naive_solver.
  - intros d i h u h' Hi. unfold mem_flock. rewrite Hi. repeat case_match; reflect_bools; naive_solver.
  - intros d h e h'. unfold mem_flock. repeat case_match; naive_solver.
  - intros d i h e h' Hi. unfold mem_flock. rewrite Hi. repeat case_match; naive_solver.
  - done.
Qed.

(** ** Addresses *)

Lemma show_nat_inj i j : show_nat i = show_nat j -> i = j.
Proof.
  unfold show_nat. intros E%(f_equal value_of). rewrite !value_of_show_N in E. lia.
Qed.

Lemma lock_path_inj root i j : lock_path_in root i = lock_path_in root j -> i = j.
Proof.
  unfold lock_path_in, path_join.
  change (starts_with (B "/") (B "slot-" ++ show_nat i ++ B ".lock")) with false.
  change (starts_with (B "/") (B "slot-" ++ show_nat j ++ B ".lock")) with false.
  destruct (_ || _); cbn [app]; intros E; repeat apply app_inv_head in E;
    by apply app_inv_tail, show_nat_inj in E.
Qed.

(** The host's and the guest's address of slot [i]. *)
Definition gateway (i : nat) : ipv4 := ipv4_new 10 107 (N.of_nat i) 1.
Definition guest (i : nat) : ipv4 := guest_for_gateway (gateway i).

Definition slot_ok (i : nat) : bool :=
  bool_decide (tap_name i = Ok (B "isopod-tap" ++ show_nat i)) &&
  bool_decide (octet i = Ok (N.of_nat i)) &&
  bool_decide (parse_ip (host_ip i) = Some (V4 (gateway i))) &&
  bool_decide (parse_ip (guest_ip i) = Some (V4 (guest i))) &&
  bool_decide (guest_mac i = B "06:00:" ++
    join (B ":") (map (fun c => hex02 (N.to_nat (code c))) (octets4 (guest i)))).

Lemma slots_ok i : (i < MAX_SLOT_COUNT)%nat -> slot_ok i = true.
Proof.
  intros Hi. assert (Hall : forallb slot_ok (seq 0 MAX_SLOT_COUNT) = true) by (vm_compute; reflexivity).
  rewrite forallb_forall in Hall. apply Hall, in_seq. lia.
Qed.

Lemma host_ip_inj i j : host_ip i = host_ip j -> i = j.
Proof. intros E%app_inv_head%app_inv_tail. by apply show_nat_inj. Qed.

(** The guest's address comes back from the MAC's last octets, so slots have distinct MACs. *)
Lemma guest_mac_inj i j :
  (i < MAX_SLOT_COUNT)%nat -> (j < MAX_SLOT_COUNT)%nat -> guest_mac i = guest_mac j -> i = j.
Proof.
  intros Hi Hj E.
  assert (Hall : forallb (fun i => bool_decide (hex_of (hex02 i) = Some (N.of_nat i)))
    (seq 0 MAX_SLOT_COUNT) = true) by (vm_compute; reflexivity).
  rewrite forallb_forall in Hall.
  assert (Hhex : forall k, (k < MAX_SLOT_COUNT)%nat -> hex_of (hex02 k) = Some (N.of_nat k)).
  { intros k Hk. specialize (Hall k). rewrite bool_decide_eq_true in Hall. apply Hall, in_seq. lia. }
  unfold guest_mac in E. apply app_inv_head, app_inv_tail in E.
  apply (f_equal hex_of) in E. rewrite !Hhex in E by done. injection E. lia.
Qed.

(** Every slot that a manifest may have gets well-formed, distinct parameters: the tap's name
    fits [IFNAMSIZ], the two addresses parse as the two hosts of [10.107.<i>.0/30], the broker
    finds the guest's address from the gateway's, the MAC spells the guest's address, and two
    slots share none of them. *)
Theorem slot_parameters i (Hi : (i < MAX_SLOT_COUNT)%nat) :
  (exists tap, tap_name i = Ok tap /\ (length tap < IFNAMSIZ)%nat) /\
  octet i = Ok (N.of_nat i) /\
  parse_ip (host_ip i) = Some (V4 (gateway i)) /\
  parse_ip (guest_ip i) = Some (V4 (guest_for_gateway (gateway i))) /\
  guest_mac i = B "06:00:" ++
    join (B ":") (map (fun c => hex02 (N.to_nat (code c))) (octets4 (guest i))) /\
  forall j, (j < MAX_SLOT_COUNT)%nat -> j <> i ->
    tap_name j <> tap_name i /\ host_ip j <> host_ip i /\ guest_mac j <> guest_mac i.
Proof.
  pose proof (slots_ok i Hi) as Ho. unfold slot_ok in Ho. reflect_bools.
  split. { exists (B "isopod-tap" ++ show_nat i). split; [done|].
    match goal with H : tap_name i = _ |- _ => revert H end. unfold tap_name.
    destruct (IFNAMSIZ <=? _)%nat eqn:E; [done|]. reflect_bools. done. }
  do 4 (split; [done|]). intros j Hj Hne.
  pose proof (slots_ok j Hj) as Hoj. unfold slot_ok in Hoj. reflect_bools.
  split; [|split]; intros E; apply Hne.
  - assert (E' : B "isopod-tap" ++ show_nat j = B "isopod-tap" ++ show_nat i) by congruence.
    by apply app_inv_head, show_nat_inj in E'.
  - by apply host_ip_inj.
  - by apply guest_mac_inj.
Qed.

Lemma slot_parameters_witness :
  (7 < MAX_SLOT_COUNT)%nat /\ guest_mac 7 = B "06:00:0a:6b:07:02" /\
  parse_ip (guest_ip 7) = Some (V4 (ipv4_new 10 107 7 2)).
Proof.
  assert (H : (7 < MAX_SLOT_COUNT)%nat) by (unfold MAX_SLOT_COUNT; lia).
  split; [done|]. split; [reflexivity|]. apply (slot_parameters 7 H).
Defined.

(** ** The manifest *)

Lemma manifest_pools_range m i :
  Manifest.is_filtered m i = true <-> (Manifest.filtered_from m <= i < Manifest.slot_count m)%nat.
Proof. unfold Manifest.is_filtered. by rewrite andb_true_iff, Nat.leb_le, Nat.ltb_lt. Qed.

Lemma filtered_from_le m : (Manifest.filtered_from m <= Manifest.slot_count m)%nat.
Proof. unfold Manifest.filtered_from. repeat case_match; reflect_bools; lia. Qed.

(** The public slots, [0..filtered_from], and the filtered ones, [filtered_from..slot_count],
    are exactly the host's slots, in every manifest: also one that records no border (written
    before filtered slots existed) or a border beyond its own slots, which makes every slot
    public, never filtered.  A fresh manifest keeps the border it was given, and it has the
    injection port exactly if it has filtered slots, and a DNS port exactly if a public one. *)
Theorem manifest_pools (m : Manifest.Manifest) (i : nat) :
  let from := Manifest.filtered_from m in
  (from <= Manifest.slot_count m)%nat /\
  Manifest.filtered_count m = (Manifest.slot_count m - from)%nat /\
  (Manifest.is_filtered m i = true <-> (from <= i < Manifest.slot_count m)%nat) /\
  (Manifest.filtered_from_field m = None -> Manifest.is_filtered m i = false) /\
  (forall n iface t lan f, m = Manifest.new n iface t lan f ->
    from = Nat.min f n /\
    Manifest.supports_credential_endpoint m = negb (Manifest.filtered_count m =? 0)%nat /\
    (Manifest.gateway_dns_port m <> None <-> (0 < f)%nat)).
Proof.
  cbv zeta. unfold Manifest.filtered_count, Manifest.is_filtered.
  pose proof (filtered_from_le m) as Hle.
  split; [done|]. split; [done|]. split; [apply manifest_pools_range|].
  split.
  { unfold Manifest.filtered_from. intros ->. apply andb_false_iff. rewrite Nat.leb_gt, Nat.ltb_ge. lia. }
  intros n iface t lan f ->. unfold Manifest.supports_credential_endpoint, Manifest.broker_tcp_ports,
    Manifest.gateway_dns_port, Manifest.filtered_from, Manifest.new.
  destruct (f <? n)%nat eqn:E1; reflect_bools; cbn.
  - destruct (f <=? n)%nat eqn:E2; reflect_bools; [|lia].
    split; [lia|]. split; [symmetry; apply negb_true_iff, Nat.eqb_neq; lia|].
    destruct f; cbn; [split; [done|lia]|]. split; [lia|done].
  - split; [lia|]. split; [symmetry; apply negb_false_iff, Nat.eqb_eq; lia|].
    destruct f; cbn; [split; [done|lia]|]. split; [lia|done].
Qed.

(** ** The checks *)

(** A run with [--inject] boots exactly on a host whose ruleset opens the endpoint's port, or one
    with no filtered slots (where the claim itself refuses); the suggested command never asks
    for more slots than setup accepts. *)
Theorem credential_endpoint_required {E} (m : Manifest.Manifest) :
  (require_credential_endpoint (E := E) (Ok m) = Ok tt <->
    Manifest.supports_credential_endpoint m = true \/ Manifest.filtered_count m = 0%nat) /\
  (forall ports total filtered,
    require_credential_endpoint (E := E) (Ok m) = Err (NoCredentialEndpoint ports total filtered) ->
    ports = Manifest.broker_tcp_ports m /\ ~ (BROKER_INJECT_PORT ∈ ports) /\
    (filtered <= total <= MAX_SLOT_COUNT)%nat).
Proof.
  unfold require_credential_endpoint. cbn [map_err rbind].
  destruct (Manifest.supports_credential_endpoint m) eqn:Es; [naive_solver|].
  destruct (Manifest.filtered_count m =? 0)%nat eqn:Ec; reflect_bools; [naive_solver|].
  split; [naive_solver|]. intros ports total filtered [= <- <- <-]. split; [done|].
  split; [|lia]. unfold Manifest.supports_credential_endpoint in Es.
  apply existsb_false in Es. intros Hin. rewrite Forall_forall in Es.
  specialize (Es _ Hin). by rewrite N.eqb_refl in Es.
Qed.

(** The pool guard passes exactly if every filtered tap that can exist reads ["0"]: a value that
    is missing or anything else is a refusal. *)
Theorem pool_guard_spec {E} (read : bytes -> option bytes) (m : Manifest.Manifest) :
  (Manifest.slot_count m <= MAX_SLOT_COUNT)%nat ->
  require_filtered_pool_guard (E := E) read (Ok m) = Ok tt <->
  forall i, Manifest.is_filtered m i = true ->
    option_map trim (read (tap_forwarding_proc (B "isopod-tap" ++ show_nat i))) = Some (B "0").
Proof.
  intros Hmax. unfold require_filtered_pool_guard. cbn [map_err rbind].
  assert (Hone : forall i, (i < MAX_SLOT_COUNT)%nat ->
    (exists u, require_filtered_kernel_guard read i = Ok u) <->
    option_map trim (read (tap_forwarding_proc (B "isopod-tap" ++ show_nat i))) = Some (B "0")).
  { intros i Hi. pose proof (slots_ok i Hi) as Ho. unfold slot_ok in Ho. reflect_bools.
    unfold require_filtered_kernel_guard, require_forwarding_off.
    match goal with H : tap_name i = _ |- _ => rewrite H end. cbn [rbind].
    destruct (bool_decide _) eqn:Eb; reflect_bools; naive_solver. }
  pose proof (manifest_pools_range m) as Hr. split.
  - intros (us & Hus & _)%rbind_Ok i Hi. apply traverse_Ok in Hus.
    apply Hr in Hi. apply Hone; [lia|].
    assert (Hin : i ∈ seq (Manifest.filtered_from m)
      (Nat.min (Manifest.slot_count m) MAX_SLOT_COUNT - Manifest.filtered_from m)).
    { apply elem_of_seq. lia. }
    apply list_elem_of_lookup in Hin as [k Hk].
    destruct (Forall2_lookup_l _ _ _ _ _ Hus Hk) as (u & _ & Hu). by exists u.
  - intros Hall. apply rbind_Ok. exists (repeat tt (length (seq (Manifest.filtered_from m)
      (Nat.min (Manifest.slot_count m) MAX_SLOT_COUNT - Manifest.filtered_from m)))).
    split; [|done]. apply traverse_Ok, Forall2_same_length_lookup_2; [by rewrite repeat_length|].
    intros k i u Hk _. apply list_elem_of_lookup_2, elem_of_seq in Hk.
    destruct u. destruct (proj2 (Hone i ltac:(lia))) as [[] ?]; [|done].
    apply Hall, Hr. lia.
Qed.

Lemma pool_guard_spec_witness :
  let m := Manifest.new 3 (B "eth0") 0 false 2 in
  let read p := if beq p (B "/proc/sys/net/ipv4/conf/isopod-tap2/forwarding")
                then Some (B "0" ++ ["010"%char]) else None in
  (Manifest.slot_count m <= MAX_SLOT_COUNT)%nat /\
  require_filtered_pool_guard (E := unit) read (Ok m) = Ok tt /\
  Manifest.is_filtered m 2 = true.
Proof.
  cbv zeta. assert (H : (Manifest.slot_count (Manifest.new 3 (B "eth0") 0 false 2) <= MAX_SLOT_COUNT)%nat)
    by (cbn; unfold MAX_SLOT_COUNT; lia).
  split; [done|]. split; [|reflexivity]. apply (pool_guard_spec _ _ H).
  intros i Hi. apply manifest_pools_range in Hi. cbn in Hi. assert (i = 2%nat) as -> by lia.
  vm_compute. reflexivity.
Defined.

(** ** One claim *)

(** A lock belongs to an open description of its inode, and every name and description has an
    inode. *)
Record host_wf (h : Host) : Prop := {
  wf_locks i d : locks h !! i = Some d -> opens h !! d = Some i;
  wf_opens d i : opens h !! d = Some i -> is_Some (kinds h !! i);
  wf_names p i : names h !! p = Some i -> is_Some (kinds h !! i) }.

(** Files may have been created, each a new inode; no name or kind that was there changed. *)
Record grown (h h' : Host) : Prop := {
  grown_names : names h ⊆ names h';
  grown_new p i : names h' !! p = Some i -> names h !! p = Some i \/ kinds h !! i = None;
  grown_kinds : kinds h ⊆ kinds h';
  grown_stderr : exists l, stderr h' = stderr h ++ l }.

(** ... and no description or lock came or went. *)
Record quiet (h h' : Host) : Prop := {
  quiet_grown : grown h h';
  quiet_opens : opens h' = opens h;
  quiet_locks : locks h' = locks h }.

Lemma grown_refl h : grown h h.
Proof. split; [done|auto|done|]. exists []. by rewrite app_nil_r. Qed.

Lemma grown_trans h h1 h2 : grown h h1 -> grown h1 h2 -> grown h h2.
Proof.
  intros [A1 N1 B1 [l1 C1]] [A2 N2 B2 [l2 C2]]. split; [by etrans| |by etrans|].
  - intros p i [?|Hk]%N2; [auto|]. right. by eapply lookup_weaken_None.
  - exists (l1 ++ l2). by rewrite C2, C1, app_assoc.
Qed.

Lemma quiet_refl h : quiet h h.
Proof. split; [apply grown_refl|done|done]. Qed.

Lemma quiet_trans h h1 h2 : quiet h h1 -> quiet h1 h2 -> quiet h h2.
Proof.
  intros [G1 O1 L1] [G2 O2 L2]. split; [by eapply grown_trans|congruence|congruence].
Qed.

(** Somebody holds slot [i]. *)
Definition held (root : bytes) (h : Host) (i : nat) : Prop :=
  exists n, names h !! lock_path_in root i = Some n /\ is_Some (locks h !! n).

Lemma held_grown root h h' i : grown h h' -> locks h ⊆ locks h' -> held root h i -> held root h' i.
Proof.
  intros [Hn _ _ _] Hl (n & Hp & d & Hd). exists n. split; [by eapply lookup_weaken|].
  exists d. by eapply lookup_weaken.
Qed.

Section claim_lemmas.
Context `{LockLaws}.

Lemma opened_spec p d i h h' : opened p d i h h' -> host_wf h ->
  host_wf h' /\ grown h h' /\ opens h !! d = None /\ opens h' = <[d:=i]> (opens h) /\
  locks h' = locks h /\ names h' !! p = Some i /\ stderr h' = stderr h /\
  (names h !! p = Some i \/ locks h !! i = None).
Proof.
  intros Ho [W1 W2 W3].
  assert (Hfresh : forall j e, opens h !! d = None -> locks h !! j = Some e -> d <> e).
  { intros j e Hd Hl ->. by rewrite (W1 _ _ Hl) in Hd. }
  inversion Ho as [Hd Hp Hk|Hd Hp Hk]; subst; cbn in *.
  - split.
    { split; cbn; [|intros d' i'|done].
      - intros j e Hl. rewrite lookup_insert_ne; eauto.
      - destruct (decide (d = d')) as [->|]; [rewrite lookup_insert_eq; intros [= <-]; eauto|].
        rewrite lookup_insert_ne by done. eauto. }
    split; [split; cbn; [done|auto|done|exists []; by rewrite app_nil_r]|]. naive_solver.
  - assert (Hi : kinds h ⊆ <[i:=Regular]> (kinds h)) by by apply insert_subseteq.
    assert (Hk' : forall j, is_Some (kinds h !! j) -> is_Some (<[i:=Regular]> (kinds h) !! j)).
    { intros j [k Hj]. exists k. by eapply lookup_weaken. }
    split.
    { split; cbn.
      - intros j e Hl. rewrite lookup_insert_ne; eauto.
      - intros d' i'. destruct (decide (d = d')) as [->|];
          [rewrite lookup_insert_eq; intros [= <-]; rewrite lookup_insert_eq; eauto|].
        rewrite lookup_insert_ne by done. eauto.
      - intros p' i'. destruct (decide (p = p')) as [->|];
          [rewrite lookup_insert_eq; intros [= <-]; rewrite lookup_insert_eq; eauto|].
        rewrite lookup_insert_ne by done. eauto. }
    split.
    { split; cbn; [by apply insert_subseteq| |done|exists []; by rewrite app_nil_r].
      intros q j [[<- <-]|[_ Hq]]%lookup_insert_Some; auto. }
    rewrite lookup_insert_eq. do 5 (split; [done|]). right.
    destruct (locks h !! i) as [e|] eqn:Hl; [|done].
    apply W1, W2 in Hl as [k Hk2]. congruence.
Qed.

(** Closing a fresh description that got no lock undoes its opening. *)
Lemma closed_undoes d i h h1 : host_wf h -> opens h !! d = None -> opens h1 = <[d:=i]> (opens h) ->
  locks h1 = locks h -> host_wf h1 -> grown h h1 ->
  host_wf (closed d h1) /\ quiet h (closed d h1).
Proof.
  intros W Hd Ho Hl W1 G.
  assert (Hf : filter (fun il : positive * positive => il.2 <> d) (locks h1) = locks h1).
  { apply map_filter_id. cbn. intros j e Hj ->. rewrite Hl in Hj.
    apply (wf_locks _ W) in Hj. congruence. }
  assert (Hdel : opens (closed d h1) = opens h).
  { unfold closed. cbn. rewrite Ho, delete_insert_id; done. }
  assert (Hlk : locks (closed d h1) = locks h) by (unfold closed; cbn; by rewrite Hf).
  destruct G as [G1 Gn G2 G3]. split.
  - split.
    + intros j e. rewrite Hlk, Hdel. apply (wf_locks _ W).
    + intros e j. rewrite Hdel. intros Hj. apply (wf_opens _ W) in Hj as [k Hk]. exists k.
      by eapply lookup_weaken.
    + intros p j. apply (wf_names _ W1).
  - split; [by split|done|done].
Qed.

(** What one claim of the file [p] does to the host, whoever holds what. *)
Definition lock_claimed (p : bytes) (h : Host) (r : result (option positive) IoError) (h' : Host) : Prop :=
  host_wf h' /\ stderr h' = stderr h /\
  match r with
  | Ok (Some d) => exists i, opens h !! d = None /\ locks h !! i = None /\
      names h' !! p = Some i /\ kinds h' !! i = Some Regular /\ grown h h' /\
      opens h' = <[d:=i]> (opens h) /\ locks h' = <[i:=d]> (locks h)
  | Ok None => quiet h h' /\ exists i, names h !! p = Some i /\ is_Some (locks h !! i)
  | Err _ => quiet h h'
  end.

Lemma with_locks_wf d i h : host_wf h -> opens h !! d = Some i -> host_wf (with_locks h (<[i:=d]> (locks h))).
Proof.
  intros [W1 W2 W3] Hd. split; cbn; [|done|done]. intros j e.
  destruct (decide (i = j)) as [->|]; [rewrite lookup_insert_eq; by intros [= <-]|].
  rewrite lookup_insert_ne by done. apply W1.
Qed.

Lemma claim_lock_spec p h r h' : host_wf h -> claim_lock p h = (r, h') -> lock_claimed p h r h'.
Proof.
  intros W. unfold claim_lock, se_bind, se_try, se_ret, drop_file.
  destruct (k_open p h) as [[d|e] h1] eqn:Eo.
  2: { apply open_err in Eo as ->. intros [= <- <-]. split; [done|]. split; [done|apply quiet_refl]. }
  apply open_ok in Eo as (i & Ho%opened_spec); [|done].
  destruct Ho as (W1 & G & Hd & Hop & Hl & Hp & Hse & Hold).
  assert (Hdi : opens h1 !! d = Some i) by (rewrite Hop; apply lookup_insert_eq).
  destruct (closed_undoes d i h h1 W Hd Hop Hl W1 G) as [Wc Qc].
  destruct (k_fstat d h1) as [[k|e] h2] eqn:Ek; pose proof (fstat_same _ _ _ _ Ek) as ->; cbn;
    rewrite ?close_spec.
  2: { intros [= <- <-]. split; [done|]. by split. }
  case_bool_decide as Hk; cbn; rewrite ?close_spec.
  2: { intros [= <- <-]. split; [done|]. by split. }
  apply (fstat_ok _ _ _ _ _ Hdi) in Ek. subst k.
  destruct (k_flock d h1) as [[u|e] h2] eqn:Ef; cbn.
  - apply (flock_ok _ _ _ _ _ Hdi) in Ef as [Hfree ->]. intros [= <- <-].
    split; [by apply with_locks_wf|]. split; [done|]. exists i. cbn. rewrite Hl in Hfree |- *.
    split; [done|]. split.
    { destruct Hfree as [?|Hx]; [done|]. apply (wf_locks _ W) in Hx. congruence. }
    do 2 (split; [done|]). destruct G as [G1 Gn G2 G3]. split; [by split|]. done.
  - pose proof (flock_err _ _ _ _ Ef) as ->. rewrite close_spec.
    destruct (would_block e) eqn:Eb; intros [= <- <-]; (split; [done|]; split; [done|]); [|done].
    split; [done|]. apply (flock_held _ _ _ _ _ Hdi Ef) in Eb. rewrite Hl in Eb.
    exists i. destruct Hold as [?|Hn]; [done|]. rewrite Hn in Eb. by destruct Eb.
Qed.

Lemma try_claim_slot_spec root n flt h r h' : host_wf h -> try_claim_slot root n flt h = (r, h') ->
  lock_claimed (lock_path_in root n) h (rmap (option_map _lock) r) h' /\
  forall s, r = Ok (Some s) -> index s = n /\ filtered s = flt.
Proof.
  intros W. unfold try_claim_slot, se_bind.
  destruct (claim_lock _ h) as [[[d|]|e] h1] eqn:E; cbn; intros [= <- <-];
    (split; [by apply claim_lock_spec|]); naive_solver.
Qed.

(** The range [lo..hi] is searched from below; what was skipped was held or was reported. *)
Definition passed (root : bytes) (h h' : Host) (j : nat) : Prop :=
  held root h j \/ exists e l, stderr h' = stderr h ++ l /\ (j, e) ∈ l.

Lemma held_quiet root h h' j : quiet h h' -> host_wf h -> held root h' j -> held root h j.
Proof.
  intros [[_ Gn _ _] _ Hl] W (n & Hp & d & Hd). rewrite Hl in Hd. exists n.
  destruct (Gn _ _ Hp) as [?|Hk]; [split; [done|by exists d]|].
  apply (wf_locks _ W), (wf_opens _ W) in Hd as [k ?]. congruence.
Qed.

Lemma tap_octet_ok i : (i < MAX_SLOT_COUNT)%nat -> is_ok (tap_name i) = true /\ is_ok (octet i) = true.
Proof.
  intros Hi. pose proof (slots_ok i Hi) as Ho. unfold slot_ok in Ho. reflect_bools.
  split; match goal with H : ?x = Ok _ |- is_ok ?x = _ => by rewrite H end.
Qed.

(** The whole search. *)
Definition scanned (root : bytes) (flt : bool) (i n : nat) (unusable : list (nat * IoError))
    (h : Host) (r : result (Slot + list (nat * IoError)) SlotError) (h' : Host) : Prop :=
  match r with
  | Ok (inl s) => (i <= index s < i + n)%nat /\ filtered s = flt /\
      (forall j, (i <= j < index s)%nat -> passed root h h' j) /\
      exists h1, quiet h h1 /\ lock_claimed (lock_path_in root (index s)) h1 (Ok (Some (_lock s))) h'
  | Ok (inr l) => quiet h h' /\ host_wf h' /\ exists new, l = unusable ++ new /\
      stderr h' = stderr h ++ new /\ (length new <= n)%nat /\
      (forall j, (i <= j < i + n)%nat -> held root h j \/ exists e, (j, e) ∈ new) /\
      (forall j e, (j, e) ∈ new -> (i <= j < i + n)%nat) /\
      (length new = n -> forall j, (i <= j < i + n)%nat -> exists e, (j, e) ∈ new)
  | Err _ => False
  end.

Lemma eprint_quiet {E} line h r h' : eprint (E := E) line h = (r, h') -> host_wf h ->
  quiet h h' /\ host_wf h' /\ stderr h' = stderr h ++ [line].
Proof.
  intros [= <- <-] [W1 W2 W3]. split; [|split; [by split|done]].
  split; [|done|done]. split; cbn; [done|auto|done|by eexists].
Qed.

(** One more slot in front of a search. *)
Lemma scanned_cons root flt i n u add h h1 r h' :
  host_wf h -> quiet h h1 -> stderr h1 = stderr h ++ add -> (length add <= 1)%nat ->
  (forall j e, (j, e) ∈ add -> j = i) ->
  (held root h i \/ exists e, (i, e) ∈ add) -> (add <> [] -> exists e, (i, e) ∈ add) ->
  scanned root flt (S i) n (u ++ add) h1 r h' -> scanned root flt i (S n) u h r h'.
Proof.
  intros W Q Hs Hlen Hadd Hhere Hin. unfold scanned. destruct r as [[s|l]|e]; [| |done].
  - intros (Hr & Hf & Hpass & h2 & Q2 & C). split; [lia|]. split; [done|].
    assert (Hse : exists l, stderr h' = stderr h ++ add ++ l).
    { destruct Q2 as [[_ _ _ [l2 E2]] _ _]. destruct C as (_ & E3 & _). exists l2.
      by rewrite E3, E2, Hs, app_assoc. }
    split; [|exists h2; split; [by eapply quiet_trans|done]].
    intros j Hj. destruct (decide (j = i)) as [->|Hne].
    + destruct Hhere as [?|[e He]]; [by left|]. right. destruct Hse as [l Hl]. exists e, (add ++ l).
      split; [done|]. apply elem_of_app. by left.
    + destruct (Hpass j ltac:(lia)) as [Hh|(e & l & Hl & He)].
      * left. by eapply held_quiet.
      * right. exists e, (add ++ l). split; [by rewrite Hl, Hs, app_assoc|]. apply elem_of_app. by right.
  - intros (Q2 & W2 & new & -> & Hse & Hln & Hall & Hrange & Hfull).
    split; [by eapply quiet_trans|]. split; [done|]. exists (add ++ new).
    split; [by rewrite app_assoc|]. split; [by rewrite Hse, Hs, app_assoc|].
    rewrite length_app. split; [lia|]. setoid_rewrite elem_of_app. split; [|split].
    + intros j Hj. destruct (decide (j = i)) as [->|Hne]; [naive_solver|].
      destruct (Hall j ltac:(lia)) as [Hh|[e He]]; [|naive_solver]. left. by eapply held_quiet.
    + intros j e [He%Hadd|He%Hrange]; lia.
    + intros Hn j Hj. destruct (decide (j = i)) as [->|Hne].
      * destruct Hin as [e He]; [by intros ->; cbn in Hn; lia|]. naive_solver.
      * destruct (Hfull ltac:(lia) j ltac:(lia)) as [e He]. naive_solver.
Qed.

Lemma claim_scan_spec root flt i n u h r h' : (i + n <= MAX_SLOT_COUNT)%nat -> host_wf h ->
  claim_scan root flt i n u h = (r, h') -> scanned root flt i n u h r h'.
Proof.
  revert i u h. induction n as [|n IH]; intros i u h Hmax W; cbn [claim_scan].
  { intros [= <- <-]. split; [apply quiet_refl|]. split; [done|]. exists []. rewrite !app_nil_r.
    split; [done|]. split; [done|]. split; [done|]. split; [intros; lia|].
    split; [by intros ? ? ?%elem_of_nil|intros; lia]. }
  destruct (tap_octet_ok i) as [Ht Hoct]; [lia|].
  unfold se_bind, se_ret, se_try. destruct (tap_name i); [|done]. destruct (octet i); [|done].
  destruct (try_claim_slot root i flt h) as [r1 h1] eqn:Et.
  apply (try_claim_slot_spec _ _ _ _ _ _ W) in Et as [C Hs].
  destruct r1 as [[s|]|e].
  - intros [= <- <-]. destruct (Hs s eq_refl) as [<- <-]. cbn in C |- *.
    split; [lia|]. split; [done|]. split; [intros; lia|]. exists h. split; [apply quiet_refl|done].
  - destruct C as (W1 & Hse & Q & Hheld). intros Hr. apply (IH (S i) _ _ ltac:(lia) W1) in Hr.
    eapply (scanned_cons root flt i n u [] h h1); try done; rewrite ?app_nil_r; try done.
    + cbn; lia.
    + by intros ? ? ?%elem_of_nil.
    + by left.
  - destruct C as (W1 & Hse & Q). cbn [rmap] in Q.
    destruct (eprint (E := SlotError) (i, e) h1) as [r2 h2] eqn:Ee. pose proof Ee as [= <- _].
    apply eprint_quiet in Ee as (Q2 & W2 & Hs2); [|done].
    intros Hr. apply (IH (S i) _ _ ltac:(lia) W2) in Hr.
    assert (Hin : exists e', (i, e') ∈ [(i, e)]) by (exists e; apply list_elem_of_singleton; done).
    eapply (scanned_cons root flt i n u [(i, e)] h h2); try done.
    + by eapply quiet_trans.
    + by rewrite Hs2, Hse.
    + intros j e' [= -> ->]%list_elem_of_singleton. done.
    + by right.
Qed.


Lemma claim_range_run root lo hi flt h r h'
    (Hr : (lo <= hi <= MAX_SLOT_COUNT)%nat) (Hhi : (0 < hi)%nat) (W : host_wf h) :
  claim_range_in root lo hi flt h = (r, h') ->
  host_wf h' /\ locks h ⊆ locks h' /\
  match r with
  | Ok s => (lo <= index s < hi)%nat /\ filtered s = flt /\ ~ held root h (index s) /\
      held root h' (index s) /\
      (forall j, (lo <= j < index s)%nat -> passed root h h' j) /\
      exists i, opens h !! _lock s = None /\ locks h !! i = None /\
        opens h' = <[_lock s := i]> (opens h) /\ locks h' = <[i := _lock s]> (locks h)
  | Err e => opens h' = opens h /\ locks h' = locks h /\
      exists new, stderr h' = stderr h ++ new /\
      ((e = AllInUse (hi - lo) flt new /\
        forall j, (lo <= j < hi)%nat -> held root h j \/ exists x, (j, x) ∈ new) \/
       (e = NoneUsable (hi - lo) flt new /\ (lo < hi)%nat /\
        forall j, (lo <= j < hi)%nat -> exists x, (j, x) ∈ new))
  end.
Proof.
  unfold claim_range_in.
  destruct (_ || _) eqn:Eg; reflect_bools.
  { exfalso. destruct Eg as [Eg|Eg]; reflect_bools; [destruct Eg as [Eg|Eg]|]; reflect_bools; lia. }
  unfold se_bind. destruct (claim_scan root flt lo (hi - lo) [] h) as [rs h1] eqn:Es.
  apply claim_scan_spec in Es; [|lia|done]. destruct rs as [[s|l]|e]; [| |done]; cbn in Es |- *.
  - intros [= <- <-]. destruct Es as (Hi & Hf & Hp & h2 & Q & C).
    destruct C as (W1 & Hse & i & Ho & Hl & Hn & Hk & G & Ho1 & Hl1).
    rewrite (quiet_opens _ _ Q) in Ho, Ho1. rewrite (quiet_locks _ _ Q) in Hl, Hl1.
    split; [done|]. split; [rewrite Hl1; by apply insert_subseteq|].
    split; [lia|]. split; [done|]. split.
    { intros Hh. apply (held_grown _ _ h2) in Hh as (m & Hm & Hlk);
        [|apply Q|by rewrite (quiet_locks _ _ Q)].
      pose proof (lookup_weaken _ _ _ _ Hm (grown_names _ _ G)) as Hm1.
      assert (m = i) as -> by congruence. rewrite (quiet_locks _ _ Q), Hl in Hlk. by destruct Hlk. }
    split. { exists i. split; [done|]. exists (_lock s). rewrite Hl1. apply lookup_insert_eq. }
    split; [done|]. by exists i.
  - destruct Es as (Q & W1 & new & -> & Hse & Hlen & Hall & Hrng & Hfull). cbn.
    destruct (negb _ && _) eqn:En; intros [= <- <-]; reflect_bools;
      (split; [done|]; split; [by rewrite (quiet_locks _ _ Q)|];
       split; [apply Q|]; split; [apply Q|]; exists new; split; [done|]).
    + right. split; [done|]. assert (lo < hi)%nat by (destruct new; [done|cbn in *; lia]).
      split; [done|]. intros j Hj. apply Hfull; [done|lia].
    + left. split; [done|]. intros j Hj. apply Hall. lia.
Qed.

(** [claim_range_in], on a valid range: a success is the lowest slot that is neither held nor
    unusable, and it adds one description and one lock, on an inode nobody had locked; a failure
    changes no description and no lock, says "in use" only if each slot is held or reported, and
    "none usable" exactly if each was reported.  The checks of the derived names never fail, and
    whatever happens no lock of another claimant is touched and no descriptor leaks. *)
Theorem claim_range_spec root lo hi flt h r h'
    (Hr : (lo <= hi <= MAX_SLOT_COUNT)%nat) (Hhi : (0 < hi)%nat) (W : host_wf h) :
  claim_range_in root lo hi flt h = (r, h') ->
  host_wf h' /\ locks h ⊆ locks h' /\
  match r with
  | Ok s => (lo <= index s < hi)%nat /\ filtered s = flt /\ ~ held root h (index s) /\
      held root h' (index s) /\
      (forall j, (lo <= j < index s)%nat -> passed root h h' j) /\
      exists i, opens h !! _lock s = None /\ locks h !! i = None /\
        opens h' = <[_lock s := i]> (opens h) /\ locks h' = <[i := _lock s]> (locks h)
  | Err e => opens h' = opens h /\ locks h' = locks h /\
      exists new, stderr h' = stderr h ++ new /\
      ((e = AllInUse (hi - lo) flt new /\
        forall j, (lo <= j < hi)%nat -> held root h j \/ exists x, (j, x) ∈ new) \/
       (e = NoneUsable (hi - lo) flt new /\ (lo < hi)%nat /\
        forall j, (lo <= j < hi)%nat -> exists x, (j, x) ∈ new))
  end.
Proof. exact (claim_range_run root lo hi flt h r h' Hr Hhi W). Qed.

(** The two public claims search their own pool: a public slot is never filtered in the manifest,
    a filtered one always is, and each is marked so. *)
Theorem claim_pools {E} root (m : Manifest.Manifest) h s h'
    (Hmax : (Manifest.slot_count m <= MAX_SLOT_COUNT)%nat) (W : host_wf h) :
  (claim (E := E) (Ok (root, m)) h = (Ok s, h') ->
    filtered s = false /\ Manifest.is_filtered m (index s) = false /\
    (index s < Manifest.slot_count m)%nat) /\
  (claim_filtered (E := E) (Ok (root, m)) h = (Ok s, h') ->
    filtered s = true /\ Manifest.is_filtered m (index s) = true).
Proof.
  pose proof (manifest_pools_range m (index s)) as Hrg. pose proof (filtered_from_le m) as Hle.
  unfold claim, claim_filtered, se_bind, se_ret. cbn. split.
  - intros Hc. destruct (decide (Manifest.filtered_from m = 0%nat)) as [E0|E0];
      [rewrite E0 in Hc; done|].
    apply claim_range_run in Hc; [|lia|lia|done].
    destruct Hc as (_ & _ & Hi & Hf & _). split; [done|].
    split; [|lia]. apply not_true_is_false. rewrite Hrg. lia.
  - destruct (_ =? _)%nat eqn:Ec; [done|]. reflect_bools. intros Hc.
    unfold Manifest.filtered_count in Ec.
    apply claim_range_run in Hc; [|lia|lia|done].
    destruct Hc as (_ & _ & Hi & Hf & _). split; [done|]. apply Hrg. lia.
Qed.
End claim_lemmas.

(** ** All claimants of a host *)

(** The kernel's state, the lockfiles that are open with no lock yet, and the slots that runs
    hold, each by its description.  A slot's process may be any process. *)
Record World : Type := MkWorld {
  host : Host;
  pending : gmap positive (nat * bool);
  live : gmap positive Slot }.

(** What the rest of the host may do meanwhile: it does not unlink lockfiles, and it cannot close
    or unlock another process's description. *)
Record interference (w : World) (h' : Host) : Prop := {
  other_wf : host_wf h';
  other_names : names (host w) ⊆ names h';
  other_opens d : is_Some (pending w !! d) \/ is_Some (live w !! d) ->
    opens h' !! d = opens (host w) !! d;
  other_locks d i : is_Some (live w !! d) -> locks (host w) !! i = Some d -> locks h' !! i = Some d }.

(** One system call of one claimant, on the lockfiles under [root]; a run that ends, a [Slot]
    that is dropped and a process that is killed all close the description. *)
Inductive step `{LockCalls} (root : bytes) (w : World) : World -> Prop :=
  | step_open n flt d h' : k_open (lock_path_in root n) (host w) = (Ok d, h') ->
      step root w (MkWorld h' (<[d := (n, flt)]> (pending w)) (live w))
  | step_lock d n flt u h' : pending w !! d = Some (n, flt) -> k_flock d (host w) = (Ok u, h') ->
      step root w (MkWorld h' (delete d (pending w)) (<[d := MkSlot n d flt]> (live w)))
  | step_give_up d : is_Some (pending w !! d) ->
      step root w (MkWorld (k_close d (host w)) (delete d (pending w)) (live w))
  | step_release d : is_Some (live w !! d) ->
      step root w (MkWorld (k_close d (host w)) (pending w) (delete d (live w)))
  | step_other h' : interference w h' -> step root w (MkWorld h' (pending w) (live w)).

(** The abstract pool: the set of held indices. *)
Inductive pool_step (p : gset nat) : gset nat -> Prop :=
  | pool_take n : n ∉ p -> pool_step p ({[n]} ∪ p)
  | pool_give n : n ∈ p -> pool_step p (p ∖ {[n]}).

Definition pool (w : World) : gset nat :=
  list_to_set (map (fun ds => index ds.2) (map_to_list (live w))).

Record world_inv (root : bytes) (w : World) : Prop := {
  inv_wf : host_wf (host w);
  inv_pending d n flt : pending w !! d = Some (n, flt) ->
    exists i, opens (host w) !! d = Some i /\ names (host w) !! lock_path_in root n = Some i;
  inv_live d s : live w !! d = Some s -> _lock s = d /\
    exists i, opens (host w) !! d = Some i /\ names (host w) !! lock_path_in root (index s) = Some i /\
      locks (host w) !! i = Some d;
  inv_apart d : is_Some (pending w !! d) -> live w !! d = None }.

Lemma elem_of_pool w n : n ∈ pool w <-> exists d s, live w !! d = Some s /\ index s = n.
Proof.
  unfold pool. rewrite elem_of_list_to_set, list_elem_of_fmap. split.
  - intros ([d s] & -> & Hin%elem_of_map_to_list). eauto.
  - intros (d & s & Hd & <-). exists (d, s). split; [done|]. by apply elem_of_map_to_list.
Qed.

(** Two live slots of the same index are the same claim. *)
Lemma live_inj root w d1 d2 s1 s2 : world_inv root w ->
  live w !! d1 = Some s1 -> live w !! d2 = Some s2 -> index s1 = index s2 -> d1 = d2.
Proof.
  intros I H1 H2 E. apply (inv_live _ _ I) in H1 as (_ & i1 & _ & N1 & L1).
  apply (inv_live _ _ I) in H2 as (_ & i2 & _ & N2 & L2). rewrite E in N1. congruence.
Qed.

Lemma pool_insert w d s h p : live w !! d = None ->
  pool (MkWorld h p (<[d := s]> (live w))) = {[index s]} ∪ pool w.
Proof.
  intros Hd. apply set_eq. intros n. rewrite elem_of_union, elem_of_singleton, !elem_of_pool. cbn.
  split.
  - intros (d' & s' & [[<- <-]|[_ Hl]]%lookup_insert_Some & <-); [by left|]. right. eauto.
  - intros [->|(d' & s' & Hl & <-)].
    + exists d, s. by rewrite lookup_insert_eq.
    + exists d', s'. rewrite lookup_insert_ne; [done|congruence].
Qed.

Lemma pool_delete root w d s h p : world_inv root w -> live w !! d = Some s ->
  pool (MkWorld h p (delete d (live w))) = pool w ∖ {[index s]}.
Proof.
  intros I Hd. apply set_eq. intros n. rewrite elem_of_difference, elem_of_singleton, !elem_of_pool. cbn.
  split.
  - intros (d' & s' & [Hne Hl]%lookup_delete_Some & <-). split; [eauto|]. intros E.
    apply Hne. by eapply live_inj.
  - intros [(d' & s' & Hl & <-) Hne]. exists d', s'. rewrite lookup_delete_ne; [done|congruence].
Qed.

(** A live claim keeps its lock, so the pool counts the claims. *)
Lemma pool_size root w : world_inv root w -> size (pool w) = size (live w).
Proof.
  intros I. unfold pool. rewrite size_list_to_set.
  - by rewrite length_fmap, length_map_to_list.
  - apply NoDup_fmap_2_strong; [|apply NoDup_map_to_list].
    intros [d1 s1] [d2 s2] H1%elem_of_map_to_list H2%elem_of_map_to_list E. cbn in E.
    assert (d1 = d2) as <- by by eapply live_inj. congruence.
Qed.

Lemma closed_wf d h : host_wf h -> host_wf (closed d h).
Proof.
  intros [W1 W2 W3]. split; cbn.
  - intros i e [Hl Hne]%map_lookup_filter_Some. cbn in Hne. rewrite lookup_delete_ne by done. auto.
  - intros e i [_ Hl]%lookup_delete_Some. eauto.
  - done.
Qed.

(** The facts about a description survive a change of the host that keeps it. *)
Lemma world_inv_host root w h' p l :
  world_inv root w -> host_wf h' -> names (host w) ⊆ names h' ->
  (forall d, is_Some (p !! d) \/ is_Some (l !! d) -> opens h' !! d = opens (host w) !! d) ->
  (forall d i, is_Some (l !! d) -> locks (host w) !! i = Some d -> locks h' !! i = Some d) ->
  p ⊆ pending w -> l ⊆ live w -> world_inv root (MkWorld h' p l).
Proof.
  intros I W Hn Ho Hl Hp Hs. split; cbn.
  - done.
  - intros d n flt Hd. rewrite Ho by (left; by eexists). pose proof (lookup_weaken _ _ _ _ Hd Hp) as Hd'.
    apply (inv_pending _ _ I) in Hd' as (i & ? & ?). exists i. split; [done|]. by eapply lookup_weaken.
  - intros d s Hd. rewrite Ho by (right; by eexists). pose proof (lookup_weaken _ _ _ _ Hd Hs) as Hd'.
    apply (inv_live _ _ I) in Hd' as (? & i & ? & ? & ?). split; [done|]. exists i. split; [done|].
    split; [by eapply lookup_weaken|]. apply Hl; [by eexists|done].
  - intros d [x Hd]. pose proof (lookup_weaken _ _ _ _ Hd Hp) as Hd'.
    eapply lookup_weaken_None; [|done]. apply (inv_apart _ _ I). by eexists.
Qed.

Lemma closed_locks d d' i h : locks h !! i = Some d' -> d' <> d -> locks (closed d h) !! i = Some d'.
Proof. intros ??. cbn. by apply map_lookup_filter_Some_2. Qed.

Section world_lemmas.
Context `{LockLaws}.

Lemma fresh_description root w d : world_inv root w -> opens (host w) !! d = None ->
  pending w !! d = None /\ live w !! d = None.
Proof.
  intros I Hd. split.
  - destruct (pending w !! d) as [[n f]|] eqn:E; [|done].
    apply (inv_pending _ _ I) in E as (i & ? & _). congruence.
  - destruct (live w !! d) as [s|] eqn:E; [|done].
    apply (inv_live _ _ I) in E as (_ & i & ? & _). congruence.
Qed.

Lemma step_open_inv root w n flt d h' : world_inv root w ->
  k_open (lock_path_in root n) (host w) = (Ok d, h') ->
  world_inv root (MkWorld h' (<[d := (n, flt)]> (pending w)) (live w)).
Proof.
  intros I (i & Ho)%open_ok. apply opened_spec in Ho; [|apply I].
  destruct Ho as (W & G & Hd & Ho & Hl & Hn & _).
  destruct (fresh_description _ _ _ I Hd) as [Hp Hs].
  assert (I' : world_inv root (MkWorld h' (pending w) (live w))).
  { apply (world_inv_host root w); try done; [apply G| |intros; by rewrite Hl].
    intros d' Hd'. rewrite Ho. apply lookup_insert_ne. intros <-. rewrite Hp, Hs in Hd'.
    destruct Hd' as [[? ?]|[? ?]]; done. }
  split; cbn; [done| |apply I'|].
  - intros d' n' f' [[<- [= <- <-]]|[_ Hd']]%lookup_insert_Some.
    + exists i. rewrite Ho, lookup_insert_eq. done.
    + by apply (inv_pending _ _ I') in Hd'.
  - intros d'. destruct (decide (d = d')) as [->|]; [done|].
    rewrite lookup_insert_ne by done. apply (inv_apart _ _ I').
Qed.

Lemma step_lock_inv root w d n flt u h' : world_inv root w ->
  pending w !! d = Some (n, flt) -> k_flock d (host w) = (Ok u, h') ->
  world_inv root (MkWorld h' (delete d (pending w)) (<[d := MkSlot n d flt]> (live w))) /\
  n ∉ pool w.
Proof.
  intros I Hd Hf. destruct (inv_pending _ _ I _ _ _ Hd) as (i & Hi & Hn).
  assert (Hlive : live w !! d = None) by (apply (inv_apart _ _ I); by eexists).
  destruct (flock_ok _ _ _ _ _ Hi Hf) as [Hfree ->].
  assert (Hnol : forall d' s, live w !! d' = Some s -> locks (host w) !! i <> Some d').
  { intros d' s Hs E. destruct Hfree as [Hx|Hx]; congruence. }
  assert (I' : world_inv root (MkWorld (with_locks (host w) (<[i:=d]> (locks (host w))))
    (delete d (pending w)) (live w))).
  { apply (world_inv_host root w); try done; [apply with_locks_wf; [apply I|done]| |apply delete_subseteq].
    intros d' j [s Hs] Hj. cbn. rewrite lookup_insert_ne; [done|]. intros <-. by eapply Hnol. }
  split.
  - split; cbn; [apply I'|apply I'| |].
    + intros d' s' [[<- <-]|[_ Hs]]%lookup_insert_Some.
      * split; [done|]. exists i. rewrite lookup_insert_eq. done.
      * by apply (inv_live _ _ I') in Hs.
    + intros d' [x [Hne Hx]%lookup_delete_Some]. rewrite lookup_insert_ne by done.
      apply (inv_apart _ _ I). by eexists.
  - rewrite elem_of_pool. intros (d' & s & Hs & <-). pose proof Hs as Hs'.
    apply (inv_live _ _ I) in Hs as (_ & j & _ & Hj & Hlk).
    assert (j = i) as -> by congruence. by eapply Hnol.
Qed.

(** Each system call is at most one step of the pool. *)
Lemma step_sim root w w' : world_inv root w -> step root w w' ->
  world_inv root w' /\ (pool w' = pool w \/ pool_step (pool w) (pool w')).
Proof.
  intros I Hs. inversion Hs as [n flt d h' Ho|d n flt u h' Hd Hf|d Hd|d Hd|h' Hh]; subst.
  - split; [by apply step_open_inv|by left].
  - destruct (step_lock_inv _ _ _ _ _ _ _ I Hd Hf) as [I' Hn]. split; [done|]. right.
    rewrite pool_insert; [by apply pool_take|]. apply (inv_apart _ _ I). by eexists.
  - rewrite close_spec. split; [|by left].
    apply (world_inv_host root w); try done; [by apply closed_wf, I| | |apply delete_subseteq].
    + intros d' Hd'. cbn. apply lookup_delete_ne. intros <-. destruct Hd' as [Hd'|Hd'].
      * rewrite lookup_delete_eq in Hd'. by destruct Hd'.
      * rewrite (inv_apart _ _ I d Hd) in Hd'. by destruct Hd'.
    + intros d' i [s Hd'] Hl. apply closed_locks; [done|]. intros ->.
      rewrite (inv_apart _ _ I d Hd) in Hd'. done.
  - rewrite close_spec. destruct Hd as [s Hd]. split.
    + apply (world_inv_host root w); try done; [by apply closed_wf, I| | |apply delete_subseteq].
      * intros d' Hd'. cbn. apply lookup_delete_ne. intros <-. destruct Hd' as [Hd'|Hd'].
        -- rewrite (inv_apart _ _ I d Hd') in Hd. done.
        -- rewrite lookup_delete_eq in Hd'. by destruct Hd'.
      * intros d' i [s' [Hne Hd']%lookup_delete_Some] Hl. apply closed_locks; [done|congruence].
    + right. rewrite (pool_delete _ _ _ _ _ _ I Hd). apply pool_give, elem_of_pool. eauto.
  - split; [|by left]. destruct Hh. by apply (world_inv_host root w).
Qed.

Lemma path_sim root w w' : world_inv root w -> rtc (step root) w w' ->
  world_inv root w' /\ rtc pool_step (pool w) (pool w').
Proof.
  intros I Hs. revert I. induction Hs as [w|w w1 w' Hst _ IH]; intros I; [done|].
  destruct (step_sim _ _ _ I Hst) as [I1 Hp]. destruct (IH I1) as [I' Hr]. split; [done|].
  destruct Hp as [<-|Hp]; [done|]. by eapply rtc_l.
Qed.

(** The lockfile protocol refines the pool: however the system calls of the claimants of all
    processes, their ends and deaths, and the rest of the host interleave, the held indices
    change only by taking one that nobody holds and by giving back one that is held; so at every
    moment each index belongs to at most one live claim. *)
Theorem pool_refinement root w w' : world_inv root w -> rtc (step root) w w' ->
  world_inv root w' /\ rtc pool_step (pool w) (pool w') /\
  size (pool w') = size (live w') /\
  (forall d1 d2 s1 s2, live w' !! d1 = Some s1 -> live w' !! d2 = Some s2 ->
    index s1 = index s2 -> d1 = d2).
Proof.
  intros I Hs. destruct (path_sim root w w' I Hs) as [I' Hr]. split; [done|]. split; [done|].
  split; [by apply (pool_size root)|]. intros d1 d2 s1 s2. by apply (live_inj root).
Qed.

(** ** The claim as a path of system calls *)

Lemma world_eta w : MkWorld (host w) (pending w) (live w) = w.
Proof. by destruct w. Qed.

Lemma claim_lock_path root n flt w r h' : world_inv root w ->
  claim_lock (lock_path_in root n) (host w) = (r, h') ->
  rtc (step root) w (MkWorld h' (pending w)
    (match r with Ok (Some d) => <[d := MkSlot n d flt]> (live w) | _ => live w end)).
Proof.
  intros I. unfold claim_lock, se_bind, se_try, se_ret, drop_file.
  destruct (k_open _ (host w)) as [[d|e] h1] eqn:Eo.
  2: { apply open_err in Eo as ->. intros [= <- <-]. by rewrite world_eta. }
  pose proof (step_open root w n flt d h1 Eo) as Hs.
  pose proof Eo as (i & Ho)%open_ok. apply opened_spec in Ho as (_ & _ & Hd & _); [|apply I].
  destruct (fresh_description _ _ _ I Hd) as [Hp _].
  assert (Hdel : delete d (<[d := (n, flt)]> (pending w)) = pending w) by by apply delete_insert_id.
  assert (Hclose : rtc (step root) w (MkWorld (k_close d h1) (pending w) (live w))).
  { eapply rtc_l; [exact Hs|]. apply rtc_once.
    pose proof (step_give_up root (MkWorld h1 (<[d := (n, flt)]> (pending w)) (live w)) d) as Hg.
    cbn in Hg. rewrite Hdel, lookup_insert_eq in Hg. apply Hg. by eexists. }
  destruct (k_fstat d h1) as [[k|e] h2] eqn:Ek; apply fstat_same in Ek as ->; cbn.
  2: { by intros [= <- <-]. }
  case_bool_decide as Hk; cbn; [|by intros [= <- <-]].
  destruct (k_flock d h1) as [[u|e] h2] eqn:Ef; cbn.
  - intros [= <- <-]. eapply rtc_l; [exact Hs|]. apply rtc_once.
    pose proof (step_lock root (MkWorld h1 (<[d := (n, flt)]> (pending w)) (live w)) d n flt u h2) as Hg.
    cbn in Hg. rewrite Hdel, lookup_insert_eq in Hg. by apply Hg.
  - apply flock_err in Ef as ->. destruct (would_block e); by intros [= <- <-].
Qed.

Lemma path_inv root w w' : world_inv root w -> rtc (step root) w w' -> world_inv root w'.
Proof. intros I Hs. by apply (path_sim root w w'). Qed.

Lemma claim_scan_path root flt i n u w r h' : world_inv root w ->
  claim_scan root flt i n u (host w) = (r, h') ->
  rtc (step root) w (MkWorld h' (pending w)
    (match r with Ok (inl s) => <[_lock s := s]> (live w) | _ => live w end)).
Proof.
  revert i u w. induction n as [|n IH]; intros i u w I; cbn [claim_scan].
  { intros [= <- <-]. by rewrite world_eta. }
  unfold se_bind, se_ret, se_try.
  destruct (tap_name i); [|by intros [= <- <-]; rewrite world_eta].
  destruct (octet i); [|by intros [= <- <-]; rewrite world_eta].
  unfold try_claim_slot, se_bind, se_ret.
  destruct (claim_lock _ (host w)) as [r1 h1] eqn:Ec.
  apply (claim_lock_path root i flt w _ _ I) in Ec.
  destruct r1 as [[d|]|e]; cbn [option_map].
  - by intros [= <- <-].
  - intros Hr. apply (IH (S i) u _ (path_inv _ _ _ I Ec)) in Hr. by etrans.
  - intros Hr. pose proof (path_inv _ _ _ I Ec) as I1. cbn in Hr.
    set (h2 := MkHost _ _ _ _ _) in Hr.
    assert (Hs : step root (MkWorld h1 (pending w) (live w)) (MkWorld h2 (pending w) (live w))).
    { apply (step_other root (MkWorld h1 (pending w) (live w)) h2). split; cbn; [|done..].
      destruct (inv_wf _ _ I1). by split. }
    apply (IH (S i) _ (MkWorld h2 (pending w) (live w))) in Hr.
    + etrans; [exact Ec|]. by eapply rtc_l.
    + eapply path_inv; [exact I1|]. by apply rtc_once.
Qed.

(** C13: The code of the claim is such a path: it takes one index that nobody held, and a failed claim
    leaves the pool as it was.  Dropping the slot gives the index back. *)
Theorem claim_refines_pool root lo hi flt w r h' : world_inv root w ->
  claim_range_in root lo hi flt (host w) = (r, h') ->
  match r with
  | Ok s =>
      let w' := MkWorld h' (pending w) (<[_lock s := s]> (live w)) in
      rtc (step root) w w' /\ index s ∉ pool w /\ pool w' = {[index s]} ∪ pool w /\
      let w'' := MkWorld (k_close (_lock s) h') (pending w) (delete (_lock s) (live w')) in
      step root w' w'' /\ pool w'' = pool w
  | Err _ => rtc (step root) w (MkWorld h' (pending w) (live w))
  end.
Proof.
  intros I Hr. unfold claim_range_in in Hr.
  destruct (_ || _) eqn:Eg; [injection Hr as <- <-; by rewrite world_eta|]. reflect_bools.
  unfold se_bind in Hr. destruct (claim_scan root flt lo (hi - lo) [] (host w)) as [r1 h1] eqn:Es.
  pose proof (claim_scan_path root flt lo (hi - lo) [] w r1 h1 I Es) as Hpath.
  destruct r1 as [[s|l]|e]; cbn in Hr.
  - injection Hr as <- <-. cbv zeta.
    apply claim_scan_spec in Es; [|lia|apply I].
    destruct Es as (_ & _ & _ & h2 & Q & _ & _ & i & Ho & Hl & Hn & _ & G & _).
    rewrite (quiet_opens _ _ Q) in Ho. rewrite (quiet_locks _ _ Q) in Hl.
    destruct (fresh_description _ _ _ I Ho) as [_ Hfresh].
    assert (Hpool : pool (MkWorld h1 (pending w) (<[_lock s := s]> (live w))) = {[index s]} ∪ pool w)
      by by apply pool_insert.
    assert (Hnot : index s ∉ pool w).
    { rewrite elem_of_pool. intros (d & s' & Hd & E).
      pose proof (path_inv _ _ _ I Hpath) as I'. cbn in Hpath.
      assert (d = _lock s) as ->; [|congruence].
      apply (live_inj root _ d (_lock s) s' s I'); [|apply lookup_insert_eq|done].
      cbn. rewrite lookup_insert_ne; [done|congruence]. }
    split; [done|]. split; [done|]. split; [done|]. split.
    + apply (step_release root (MkWorld h1 (pending w) (<[_lock s := s]> (live w)))).
      cbn. rewrite lookup_insert_eq. by eexists.
    + cbn. rewrite delete_insert_id by done. done.
  - destruct (negb _ && _); injection Hr as <- <-; done.
  - by injection Hr as <- <-.
Qed.
End world_lemmas.

(** ** Runs on the kernel in memory *)

(** Slot 0 is held, a directory stands where slot 1's lockfile belongs. *)
Definition demo_host : Host := {|
  names := {[ lock_path_in (B "/net") 0 := 5%positive; lock_path_in (B "/net") 1 := 6%positive ]};
  kinds := {[ 5%positive := Regular; 6%positive := Directory ]};
  opens := {[ 7%positive := 5%positive ]};
  locks := {[ 5%positive := 7%positive ]};
  stderr := [] |}.
Definition demo_world : World := MkWorld demo_host ∅ {[ 7%positive := MkSlot 0 7 false ]}.

Lemma demo_wf : host_wf demo_host.
Proof.
  split; cbn [demo_host names kinds opens locks].
  - intros i d [<- <-]%lookup_singleton_Some. reflexivity.
  - intros d i [<- <-]%lookup_singleton_Some. by eexists.
  - intros p i [[_ <-]|[_ [_ <-]%lookup_singleton_Some]]%lookup_insert_Some; by eexists.
Qed.

Lemma demo_inv : world_inv (B "/net") demo_world.
Proof.
  split; cbn [demo_world host pending live].
  - apply demo_wf.
  - by intros d n flt ?%lookup_empty_Some.
  - intros d s [<- <-]%lookup_singleton_Some. split; [done|]. exists 5%positive. done.
  - intros d [x ?%lookup_empty_Some]. done.
Qed.

Definition demo_claim : result Slot SlotError * Host :=
  claim_range_in (K := mem_kernel) (B "/net") 0 4 false demo_host.

Lemma demo_claimed : exists d, fst demo_claim = Ok (MkSlot 2 d false).
Proof. by eexists. Qed.

Lemma claim_range_spec_witness :
  exists s, fst demo_claim = Ok s /\ index s = 2%nat /\ ~ held (B "/net") demo_host 2 /\
    held (B "/net") (snd demo_claim) 2 /\ passed (B "/net") demo_host (snd demo_claim) 1.
Proof.
  destruct demo_claimed as [d Hd]. exists (MkSlot 2 d false). split; [done|]. split; [done|].
  assert (Hr : (0 <= 4 <= MAX_SLOT_COUNT)%nat) by (unfold MAX_SLOT_COUNT; lia).
  destruct (claim_range_spec (K := mem_kernel) (B "/net") 0 4 false demo_host
    (Ok (MkSlot 2 d false)) (snd demo_claim) Hr ltac:(lia) demo_wf) as (_ & _ & Hs).
  - rewrite <- Hd. apply surjective_pairing.
  - cbn in Hs. destruct Hs as (_ & _ & Hn & Hh & Hp & _). split; [done|]. split; [done|].
    apply Hp. lia.
Defined.

Definition demo_manifest : Manifest.Manifest := Manifest.new 4 (B "eth0") 0 false 3.

Lemma claim_pools_witness :
  exists s h', claim_filtered (K := mem_kernel) (E := unit) (Ok (B "/net", demo_manifest)) demo_host = (Ok s, h') /\
    filtered s = true /\ Manifest.is_filtered demo_manifest (index s) = true.
Proof.
  destruct (claim_filtered (K := mem_kernel) (E := unit) (Ok (B "/net", demo_manifest)) demo_host)
    as [[s|e] h'] eqn:E; [|exfalso; apply (f_equal (fun r => is_ok (fst r))) in E; vm_compute in E; done].
  exists s, h'. split; [done|].
  assert (Hmax : (Manifest.slot_count demo_manifest <= MAX_SLOT_COUNT)%nat) by (cbn; unfold MAX_SLOT_COUNT; lia).
  by apply (claim_pools (K := mem_kernel) (E := unit) (B "/net") demo_manifest demo_host s h' Hmax demo_wf).
Defined.

Lemma claim_refines_pool_witness :
  exists s h', claim_range_in (K := mem_kernel) (B "/net") 0 4 false (host demo_world) = (Ok s, h') /\
    index s = 2%nat /\ 2%nat ∉ pool demo_world /\
    pool (MkWorld h' ∅ (<[_lock s := s]> (live demo_world))) = {[2%nat]} ∪ pool demo_world.
Proof.
  destruct demo_claimed as [d Hd]. exists (MkSlot 2 d false), (snd demo_claim).
  assert (E : claim_range_in (K := mem_kernel) (B "/net") 0 4 false (host demo_world)
    = (Ok (MkSlot 2 d false), snd demo_claim)).
  { rewrite <- Hd. apply surjective_pairing. }
  split; [done|]. split; [done|].
  pose proof (claim_refines_pool (K := mem_kernel) _ _ _ _ demo_world _ _ demo_inv E) as (_ & Hn & Hp & _).
  by split.
Defined.

Lemma pool_refinement_witness :
  exists w', step (H := mem_kernel) (B "/net") demo_world w' /\ pool demo_world = {[0%nat]} /\
    pool w' = ∅ /\ rtc pool_step (pool demo_world) (pool w').
Proof.
  exists (MkWorld (closed 7 demo_host) ∅ ∅).
  assert (Hs : step (H := mem_kernel) (B "/net") demo_world (MkWorld (closed 7 demo_host) ∅ ∅)).
  { apply (step_release (H := mem_kernel) (B "/net") demo_world 7). by eexists. }
  split; [done|]. split; [reflexivity|]. split; [reflexivity|].
  apply (pool_refinement (K := mem_kernel) _ _ _ demo_inv (rtc_once _ _ Hs)).
Defined.

(** On a host whose slots are all filtered the public claim does not say that there is no public
    slot: the empty range is refused as an invalid one. *)
Example claim_without_public_slots :
  fst (claim (K := mem_kernel) (E := unit)
    (Ok (B "/net", Manifest.new 4 (B "eth0") 0 false 0)) demo_host) = Err (InvalidRange 0 0).
Proof. reflexivity. Qed.
