(* ===== verification/Frame.v ===== *)
(** * Frames of the guest protocol ([crates/proto/src/frame.rs])

    A message is a frame: the payload's length as four little-endian bytes, then the payload,
    at most [MAX_FRAME_LEN] bytes of JSON.  The codec is [serde_json], a parameter with its
    round trip as the law.  The reader is a list of what its [read] calls return, so that every
    way a socket may cut the bytes into pieces is a case; the writer is an interface with what
    [Write::write_all] promises.  The synchronous functions of the guest and their asynchronous
    twins of the host differ in the [read_exact] they call. *)
From S2P Require Import Prelude Text Effects.

(** [MAX_FRAME_LEN] of [lib.rs] *)
Definition MAX_FRAME_LEN : N := 8 * 1024 * 1024.

Inductive ErrorKind : Type := UnexpectedEof | Interrupted | OtherKind (n : N).
#[export] Instance ErrorKind_eq_dec : EqDecision ErrorKind.
Proof. solve_decision. Defined.

Inductive FrameError (J : Type) : Type :=
  | Io (e : ErrorKind)
  | TooLarge (len : N)
  | Decode (e : J).
Arguments Io {J} e.
Arguments TooLarge {J} len.
Arguments Decode {J} e.

(** [u32::to_le_bytes], [u32::from_le_bytes] *)
Definition to_le_bytes (n : N) : bytes :=
  map ascii_of_N [n mod 256; (n / 256) mod 256; (n / 65536) mod 256; (n / 16777216) mod 256]%N.

Definition from_le_bytes (b : bytes) : N :=
  match b with
  | [b0; b1; b2; b3] => code b0 + 256 * code b1 + 65536 * code b2 + 16777216 * code b3
  | _ => 0
  end%N.

(** ** Readers *)

(** What a [read] into a buffer with room returns: bytes or an error.  After the list, and for an
    empty piece, it returns 0: the end of the stream. *)
Inductive read_event : Type :=
  | Data (piece : bytes)
  | Fail (e : ErrorKind).

(** The default [Read::read_exact] of the standard library, on a buffer of [n] bytes: it retries
    an interrupted read, and keeps the part of a piece that does not fit for the next call. *)
Fixpoint read_exact (n : nat) (r : list read_event) : result bytes ErrorKind * list read_event :=
  match n, r with
  | 0%nat, _ => (Ok [], r)
  | _, [] => (Err UnexpectedEof, [])
  | _, Fail e :: r' =>
      if bool_decide (e = Interrupted) then read_exact n r' else (Err e, r')
  | _, Data [] :: r' => (Err UnexpectedEof, r')
  | _, Data piece :: r' =>
      if (n <? length piece)%nat then (Ok (take n piece), Data (drop n piece) :: r')
      else
        let '(rest, r'') := read_exact (n - length piece) r' in
        (rmap (app piece) rest, r'')
  end.

(** ** Writers *)

Class Writer (W : Type) : Type := {
  write_all : bytes -> SE W ErrorKind unit;
  flush : SE W ErrorKind unit;
  sunk : W -> bytes }.

(** A failed [write_all] may have written a part. *)
Class WriterLaws (W : Type) {F : Writer W} : Prop := {
  write_all_ok data w u w' : write_all data w = (Ok u, w') -> sunk w' = sunk w ++ data;
  write_all_err data w e w' : write_all data w = (Err e, w') ->
    exists part rest, data = part ++ rest /\ sunk w' = sunk w ++ part;
  flush_same w r w' : flush w = (r, w') -> sunk w' = sunk w }.

(** ** The functions *)

Section frames.
Context {T J : Type}.
Context (to_vec : T -> result bytes J) (from_slice : bytes -> result T J).

Definition write_frame `{Writer W} (msg : T) : SE W (FrameError J) unit :=
  do! payload := se_ret (map_err Decode (to_vec msg)) in
  do! len := se_ret (if (N.of_nat (length payload) <=? u32_max)%N then Ok (N.of_nat (length payload))
                     else Err (TooLarge u32_max)) in
  if (MAX_FRAME_LEN <? len)%N then se_ret (Err (TooLarge len))
  else
    do! _ := se_map_err Io (write_all (to_le_bytes len)) in
    do! _ := se_map_err Io (write_all payload) in
    do! _ := se_map_err Io flush in
    se_ret (Ok tt).

(** Over any [read_exact]: the guest's is the standard library's. *)
Definition read_frame_with {R : Type} (read_exact : nat -> SE R ErrorKind bytes) :
    SE R (FrameError J) (option T) :=
  do! prefix := se_try (read_exact 4) in
  match prefix with
  | Err e => if bool_decide (e = UnexpectedEof) then se_ret (Ok None) else se_ret (Err (Io e))
  | Ok len_buf =>
      let len := from_le_bytes len_buf in
      if (MAX_FRAME_LEN <? len)%N then se_ret (Err (TooLarge len))
      else
        do! payload := se_map_err Io (read_exact (N.to_nat len)) in
        do! msg := se_ret (map_err Decode (from_slice payload)) in
        se_ret (Ok (Some msg))
  end.

Definition read_frame : SE (list read_event) (FrameError J) (option T) := read_frame_with read_exact.

(** The host's twins, over an asynchronous writer and [tokio]'s [read_exact]. *)
Definition aio_write_frame `{Writer W} : T -> SE W (FrameError J) unit := write_frame.
Definition aio_read_frame {R : Type} (tokio_read_exact : nat -> SE R ErrorKind bytes) :
    SE R (FrameError J) (option T) := read_frame_with tokio_read_exact.

(** A connection's messages, to its end. *)
Fixpoint read_frames (fuel : nat) (r : list read_event) : result (list T) (FrameError J) :=
  match fuel with
  | 0%nat => Ok []
  | S fuel =>
      match read_frame r with
      | (Ok None, _) => Ok []
      | (Ok (Some m), r') => rmap (cons m) (read_frames fuel r')
      | (Err e, _) => Err e
      end
  end.

Fixpoint write_frames `{Writer W} (msgs : list T) : SE W (FrameError J) unit :=
  match msgs with
  | [] => se_ret (Ok tt)
  | m :: r => do! _ := write_frame m in write_frames r
  end.

(** The bytes of a frame. *)
Definition frame (payload : bytes) : bytes := to_le_bytes (N.of_nat (length payload)) ++ payload.
End frames.

(** ** Lengths *)

Lemma le_bytes_roundtrip n : (n < 2 ^ 32)%N -> from_le_bytes (to_le_bytes n) = n.
Proof.
  intros Hn. unfold to_le_bytes, from_le_bytes. cbn [map].
  rewrite !code_of_N by (apply N.mod_lt; done).
  change 65536%N with (256 * 256)%N. change 16777216%N with (256 * 256 * 256)%N.
  rewrite <- !N.Div0.div_div.
  pose proof (N.div_mod n 256). pose proof (N.div_mod (n / 256) 256).
  pose proof (N.div_mod (n / 256 / 256) 256).
  rewrite (N.mod_small (n / 256 / 256 / 256) 256); [lia|].
  rewrite !N.Div0.div_div. apply N.Div0.div_lt_upper_bound. exact Hn.
Qed.

Lemma length_le_bytes n : length (to_le_bytes n) = 4%nat.
Proof. done. Qed.

(** ** Reading *)

(** The bytes a reader will return before its first failure, if every read returns some. *)
Inductive delivers : bytes -> list read_event -> Prop :=
  | delivers_end : delivers [] []
  | delivers_data p s r : p <> [] -> delivers s r -> delivers (p ++ s) (Data p :: r)
  | delivers_again s r : delivers s r -> delivers s (Fail Interrupted :: r).

(** However the bytes are cut, [read_exact] returns the first [n] and leaves the rest. *)
Lemma read_exact_delivers n s r : delivers s r ->
  if (n <=? length s)%nat
  then exists r', read_exact n r = (Ok (take n s), r') /\ delivers (drop n s) r'
  else fst (read_exact n r) = Err UnexpectedEof.
Proof.
  intros Hd. revert n. induction Hd as [|p s r Hp Hd IH|s r Hd IH]; intros n.
  - destruct n; cbn; [|done]. eexists. split; [done|constructor].
  - destruct n as [|n].
    { cbn. eexists. split; [done|]. by apply delivers_data. }
    destruct p as [|c p]; [done|]. unfold read_exact; fold read_exact.
    destruct (S n <? length (c :: p))%nat eqn:El; reflect_bools.
    + rewrite length_app. replace (S n <=? length (c :: p) + length s)%nat with true
        by (symmetry; apply Nat.leb_le; lia).
      eexists. split; [by rewrite take_app_le by lia|]. rewrite drop_app_le by lia.
      apply delivers_data; [|done]. intros E%(f_equal length). rewrite length_drop in E. cbn in *. lia.
    + specialize (IH (S n - length (c :: p))%nat).
      destruct (S n - length (c :: p) <=? length s)%nat eqn:E2; reflect_bools.
      * replace (S n <=? length ((c :: p) ++ s))%nat with true
          by (symmetry; apply Nat.leb_le; rewrite length_app; lia).
        destruct IH as (r' & -> & Hd'). exists r'. rewrite take_app_ge, drop_app_ge by lia. done.
      * replace (S n <=? length ((c :: p) ++ s))%nat with false
          by (symmetry; apply Nat.leb_gt; rewrite length_app; lia).
        destruct (read_exact _ r) as [x r']. cbn in IH. by rewrite IH.
  - destruct n; [|apply (IH (S n))].
    cbn. eexists. split; [done|]. by constructor.
Qed.

Section frame_lemmas.
Context {T J : Type}.
Context (to_vec : T -> result bytes J) (from_slice : bytes -> result T J).

Lemma from_le_bytes_app n rest : (n <= MAX_FRAME_LEN)%N ->
  from_le_bytes (take 4 (to_le_bytes n ++ rest)) = n.
Proof.
  intros Hn. rewrite take_app_length' by done. apply le_bytes_roundtrip. unfold MAX_FRAME_LEN in Hn. lia.
Qed.

(** [read_frame] on the bytes a peer sent, however they are cut into reads: the end of the stream
    at a frame's boundary is a clean end, an announced length over the ceiling is refused before
    the payload is read, a payload that is cut short is an error, and a whole frame is decoded and
    exactly its bytes are consumed.  A stream that ends inside the four length bytes is a clean
    end too. *)
Theorem read_frame_spec s r : delivers s r ->
  let len := from_le_bytes (take 4 s) in
  let payload := take (N.to_nat len) (drop 4 s) in
  if (length s <? 4)%nat then fst (read_frame (T := T) from_slice r) = Ok None
  else if (MAX_FRAME_LEN <? len)%N then
    exists r', read_frame from_slice r = (Err (TooLarge len), r') /\ delivers (drop 4 s) r'
  else if (N.of_nat (length (drop 4 s)) <? len)%N then
    fst (read_frame from_slice r) = Err (Io UnexpectedEof)
  else exists r', delivers (drop (N.to_nat len) (drop 4 s)) r' /\
    read_frame from_slice r = (rmap Some (map_err Decode (from_slice payload)), r').
Proof.
  intros Hd. cbv zeta. pose proof (read_exact_delivers 4 s r Hd) as H4.
  unfold read_frame, read_frame_with, se_bind, se_try, se_ret, se_map_err.
  destruct (length s <? 4)%nat eqn:E4; reflect_bools.
  { replace (4 <=? length s)%nat with false in H4 by (symmetry; apply Nat.leb_gt; lia).
    destruct (read_exact 4 r) as [x r1]. cbn in H4. by rewrite H4. }
  replace (4 <=? length s)%nat with true in H4 by (symmetry; apply Nat.leb_le; lia).
  destruct H4 as (r1 & -> & Hd1). cbv beta iota.
  set (len := from_le_bytes (take 4 s)).
  destruct (MAX_FRAME_LEN <? len)%N eqn:Em; reflect_bools; [by exists r1|].
  pose proof (read_exact_delivers (N.to_nat len) _ _ Hd1) as Hp.
  destruct (N.of_nat (length (drop 4 s)) <? len)%N eqn:El; reflect_bools.
  - replace (N.to_nat len <=? length (drop 4 s))%nat with false in Hp
      by (symmetry; apply Nat.leb_gt; lia).
    destruct (read_exact _ r1) as [x r2]. cbn in Hp. by rewrite Hp.
  - replace (N.to_nat len <=? length (drop 4 s))%nat with true in Hp
      by (symmetry; apply Nat.leb_le; lia).
    destruct Hp as (r2 & -> & Hd2). exists r2. split; [done|]. cbn.
    by destruct (from_slice _).
Qed.

Lemma read_frame_frame p s r : (N.of_nat (length p) <= MAX_FRAME_LEN)%N -> delivers (frame p ++ s) r ->
  exists r', delivers s r' /\ read_frame from_slice r = (rmap Some (map_err Decode (from_slice p)), r').
Proof.
  intros Hp Hd. unfold frame in Hd. rewrite <- app_assoc in Hd.
  set (pre := to_le_bytes (N.of_nat (length p))) in Hd.
  pose proof (read_exact_delivers 4 _ r Hd) as H4.
  replace (4 <=? _)%nat with true in H4 by (symmetry; apply Nat.leb_le; rewrite length_app; subst pre; rewrite length_le_bytes; lia).
  destruct H4 as (r1 & E1 & Hd1). subst pre. rewrite drop_app_length' in Hd1 by done.
  pose proof (from_le_bytes_app (N.of_nat (length p)) (p ++ s) Hp) as El.
  unfold read_frame, read_frame_with, se_bind, se_try, se_ret, se_map_err. rewrite E1.
  cbv beta iota. rewrite El, Nat2N.id.
  destruct (MAX_FRAME_LEN <? _)%N eqn:Em; reflect_bools; [lia|].
  pose proof (read_exact_delivers (length p) _ _ Hd1) as H2.
  replace (length p <=? _)%nat with true in H2 by (symmetry; apply Nat.leb_le; rewrite length_app; lia).
  destruct H2 as (r2 & -> & Hd2). rewrite drop_app_length in Hd2. rewrite take_app_length.
  exists r2. split; [done|]. cbn. by destruct (from_slice p).
Qed.

(** What [write_frame] puts on the wire. *)
Definition wrote (msg : T) (before after : bytes) (r : result unit (FrameError J)) : Prop :=
  match r with
  | Ok _ => exists payload, to_vec msg = Ok payload /\ (N.of_nat (length payload) <= MAX_FRAME_LEN)%N /\
      after = before ++ frame payload
  | Err (Io _) => exists payload part rest, to_vec msg = Ok payload /\
      frame payload = part ++ rest /\ after = before ++ part
  | Err (TooLarge n) => after = before /\ (MAX_FRAME_LEN < n)%N /\
      exists payload, to_vec msg = Ok payload /\ (MAX_FRAME_LEN < N.of_nat (length payload))%N
  | Err (Decode e) => after = before /\ to_vec msg = Err e
  end.

Lemma write_frame_wrote `{WriterLaws W} (msg : T) (w : W) r w' :
  write_frame to_vec msg w = (r, w') -> wrote msg (sunk w) (sunk w') r.
Proof.
  unfold write_frame, se_bind, se_ret, se_map_err.
  destruct (to_vec msg) as [p|e] eqn:Ev; cbn [map_err]; [|by intros [= <- <-]].
  destruct (_ <=? u32_max)%N eqn:E32; reflect_bools.
  2: { intros [= <- <-]. split; [done|]. unfold MAX_FRAME_LEN, u32_max in *. split; [lia|]. exists p. split; [done|lia]. }
  destruct (MAX_FRAME_LEN <? _)%N eqn:Em; reflect_bools; [intros [= <- <-]; cbn; eauto|].
  destruct (write_all (to_le_bytes _) w) as [[u|e] w1] eqn:E1; cbn [map_err].
  2: { intros [= <- <-]. apply write_all_err in E1 as (part & rest & Hpr & Hs).
       exists p, part, (rest ++ p). split; [done|]. unfold frame. by rewrite Hpr, app_assoc. }
  apply write_all_ok in E1. destruct (write_all p w1) as [[u2|e] w2] eqn:E2; cbn [map_err].
  2: { intros [= <- <-]. apply write_all_err in E2 as (part & rest & Hpr & Hs).
       exists p, (to_le_bytes (N.of_nat (length p)) ++ part), rest. split; [done|].
       split; [unfold frame; by rewrite Hpr, app_assoc|]. by rewrite Hs, E1, app_assoc. }
  apply write_all_ok in E2. destruct (flush w2) as [[u3|e] w3] eqn:E3; apply flush_same in E3;
    intros [= <- <-]; cbn [wrote].
  - exists p. split; [done|]. split; [done|]. unfold frame. by rewrite E3, E2, E1, app_assoc.
  - exists p, (frame p), []. rewrite app_nil_r. split; [done|]. split; [done|].
    unfold frame. by rewrite E3, E2, E1, app_assoc.
Qed.

Lemma write_frame_sunk `{WriterLaws W} (msg : T) (w : W) u w' :
  write_frame to_vec msg w = (Ok u, w') ->
  exists payload, to_vec msg = Ok payload /\ (N.of_nat (length payload) <= MAX_FRAME_LEN)%N /\
    sunk w' = sunk w ++ frame payload.
Proof. exact (write_frame_wrote msg w (Ok u) w'). Qed.

(** [write_frame] on every branch: a message is written as one whole frame within the ceiling the
    reader enforces; one over the ceiling, or that does not encode, writes nothing; only a failure
    of the writer may leave a part of the frame. *)
Theorem write_frame_spec `{WriterLaws W} (msg : T) (w : W) r w' :
  write_frame to_vec msg w = (r, w') -> wrote msg (sunk w) (sunk w') r.
Proof. exact (write_frame_wrote msg w r w'). Qed.

Section roundtrip.
(** The codec reads back what it wrote. *)
Context (codec : forall m b, to_vec m = Ok b -> from_slice b = Ok m).

Lemma write_frames_sunk `{WriterLaws W} msgs (w : W) u w' :
  write_frames to_vec msgs w = (Ok u, w') ->
  exists ps, sunk w' = sunk w ++ concat (map frame ps) /\
    Forall2 (fun m p => to_vec m = Ok p /\ (N.of_nat (length p) <= MAX_FRAME_LEN)%N) msgs ps.
Proof.
  revert w. induction msgs as [|m msgs IH]; intros w; cbn [write_frames].
  { intros [= <- <-]. exists []. rewrite app_nil_r. split; [done|constructor]. }
  intros (u1 & w1 & Hw & Hr)%se_bind_Ok. apply write_frame_sunk in Hw as (p & Ep & Hp & Hs).
  apply IH in Hr as (ps & Hs' & HF). exists (p :: ps). cbn [map concat].
  split; [by rewrite Hs', Hs, app_assoc|]. by constructor.
Qed.

Lemma read_frames_frames msgs ps r :
  Forall2 (fun m p => to_vec m = Ok p /\ (N.of_nat (length p) <= MAX_FRAME_LEN)%N) msgs ps ->
  delivers (concat (map frame ps)) r -> read_frames from_slice (S (length msgs)) r = Ok msgs.
Proof.
  intros HF. revert r. induction HF as [|m p msgs ps [Ep Hp] HF IH]; intros r Hd.
  - cbn in Hd. cbn [read_frames length]. unfold read_frame, read_frame_with, se_bind, se_try.
    pose proof (read_exact_delivers 4 _ r Hd) as H4. cbn in H4.
    destruct (read_exact 4 r) as [x r1]. cbn in H4. by rewrite H4.
  - cbn [map concat] in Hd. apply (read_frame_frame p _ _ Hp) in Hd as (r' & Hd & Er).
    rewrite (codec _ _ Ep) in Er. cbn in Er. cbn [length].
    change (read_frames from_slice (S (S (length msgs))) r) with
      (match read_frame from_slice r with
       | (Ok None, _) => Ok []
       | (Ok (Some m), r') => rmap (cons m) (read_frames from_slice (S (length msgs)) r')
       | (Err e, _) => Err e end).
    by rewrite Er, IH.
Qed.

(** C37: The whole of a connection: any messages that were written without an error, to any writer
    that keeps its promises, are read back in order, and then a clean end, however the transport
    cuts the bytes into reads and however often a read is interrupted. *)
Theorem frames_roundtrip `{WriterLaws W} msgs (w : W) w' r :
  sunk w = [] -> write_frames to_vec msgs w = (Ok tt, w') -> delivers (sunk w') r ->
  read_frames from_slice (S (length msgs)) r = Ok msgs.
Proof.
  intros Hs (ps & Hs' & HF)%write_frames_sunk Hd. rewrite Hs', Hs in Hd.
  by eapply read_frames_frames.
Qed.
End roundtrip.

(** What is left on the wire of a frame that was cut short is never taken for a message. *)
Theorem cut_frame_refused p part c rest r :
  (N.of_nat (length p) <= MAX_FRAME_LEN)%N -> frame p = part ++ c :: rest -> delivers part r ->
  fst (read_frame from_slice r) = if (length part <? 4)%nat then Ok None else Err (Io UnexpectedEof).
Proof.
  intros Hp Hf Hd. pose proof (read_frame_spec part r Hd) as H. cbv zeta in H.
  destruct (length part <? 4)%nat eqn:E4; reflect_bools; [done|].
  assert (Hpre : take 4 part = to_le_bytes (N.of_nat (length p))).
  { apply (f_equal (take 4)) in Hf. unfold frame in Hf.
    rewrite take_app_length' in Hf by done. rewrite take_app_le in Hf by lia. done. }
  rewrite Hpre, le_bytes_roundtrip in H by (unfold MAX_FRAME_LEN in Hp; lia).
  destruct (MAX_FRAME_LEN <? _)%N eqn:Em; reflect_bools; [lia|].
  assert (Hl : (length (drop 4 part) < length p)%nat).
  { apply (f_equal length) in Hf. unfold frame in Hf. rewrite !length_app, length_le_bytes in Hf.
    rewrite length_drop. cbn in Hf. lia. }
  destruct (_ <? _)%N eqn:El in H; reflect_bools; [done|lia].
Qed.
End frame_lemmas.

(** ** Writing to a [Vec<u8>], and one connection *)

#[export] Instance vec_writer : Writer bytes := {|
  write_all := fun data w => (Ok tt, w ++ data);
  flush := fun w => (Ok tt, w);
  sunk := fun w => w |}.

#[export] Instance vec_writer_laws : WriterLaws bytes.
Proof.
  split; cbn; [by intros data w u w' [= <- <-]|done|by intros w r w' [= <- <-]].
Qed.

Definition demo_messages : list bytes := [B "one"; []; B "three"].
Definition demo_wire : bytes := snd (write_frames (J := unit) Ok demo_messages ([] : bytes)).

(** The wire in pieces of two bytes, with an interruption before each. *)
Fixpoint pieces (fuel : nat) (s : bytes) : list read_event :=
  match fuel, s with
  | S fuel, _ :: _ => Fail Interrupted :: Data (take 2 s) :: pieces fuel (drop 2 s)
  | _, _ => []
  end.

Lemma pieces_deliver fuel s : (length s <= fuel)%nat -> delivers s (pieces fuel s).
Proof.
  revert s. induction fuel as [|fuel IH]; intros [|c s] Hf; cbn in Hf; [constructor|lia|constructor|].
  cbn [pieces]. apply delivers_again. rewrite <- (take_drop 2 (c :: s)) at 1.
  apply delivers_data; [done|]. apply IH. rewrite length_drop. cbn. lia.
Qed.

Lemma frames_roundtrip_witness :
  read_frames (J := unit) (Ok (A := bytes)) 4 (pieces 30 demo_wire) = Ok demo_messages.
Proof.
  assert (Hc : forall m b : bytes, Ok (E := unit) m = Ok b -> Ok (E := unit) b = Ok m) by congruence.
  assert (Hl : (length demo_wire <= 30)%nat) by (vm_compute; lia).
  refine (frames_roundtrip Ok Ok Hc demo_messages ([] : bytes) demo_wire _ eq_refl eq_refl _).
  apply (pieces_deliver 30 demo_wire Hl).
Defined.

Lemma read_frame_spec_witness :
  delivers (B "ab") [Data (B "ab")] /\
  fst (read_frame (T := bytes) (J := unit) Ok [Data (B "ab")]) = Ok None.
Proof.
  assert (H : delivers (B "ab") [Data (B "ab")]).
  { apply (delivers_data (B "ab") []); [done|constructor]. }
  split; [exact H|]. exact (read_frame_spec (T := bytes) (J := unit) Ok _ _ H).
Defined.

Lemma write_frame_spec_witness :
  write_frame (J := unit) Ok (B "hi") ([] : bytes) = (Ok tt, to_le_bytes 2 ++ B "hi") /\
  wrote (J := unit) Ok (B "hi") [] (to_le_bytes 2 ++ B "hi") (Ok tt).
Proof.
  split; [reflexivity|].
  exact (write_frame_spec (W := bytes) (J := unit) Ok (B "hi") [] (Ok tt) _ eq_refl).
Defined.

Lemma cut_frame_refused_witness :
  fst (read_frame (T := bytes) (J := unit) Ok [Data (take 5 (frame (B "hey")))])
    = Err (Io UnexpectedEof).
Proof.
  refine (cut_frame_refused (T := bytes) (J := unit) Ok (B "hey") (take 5 (frame (B "hey")))
    "e"%char (B "y") _ _ eq_refl _); [vm_compute; done|].
  rewrite <- (app_nil_r (take 5 (frame (B "hey")))) at 1. by apply delivers_data; [|constructor].
Defined.
