(* ===== verification/Reference.v ===== *)
(** * Image references ([crates/oci-registry/src/reference.rs])

    [alpine], [python:3.12], [ghcr.io/o/n@sha256:...]: the string is parsed once, and the registry
    to ask, the repository and the tag or digest come out of it.  What is parsed goes into request
    paths verbatim, so the theorems are that a parsed reference prints back to itself and that its
    request path addresses the manifest endpoint of its repository and nothing else. *)
From S2P Require Import Prelude Text Digest.

Definition DEFAULT_REGISTRY : bytes := B "docker.io".
Definition DEFAULT_REGISTRY_HOST : bytes := B "registry-1.docker.io".
Definition DEFAULT_NAMESPACE : bytes := B "library".
Definition DEFAULT_TAG : bytes := B "latest".

Inductive Want : Type :=
  | Tag (t : bytes)
  | ByDigest (d : Digest.Digest).

Definition show_want (w : Want) : bytes :=
  match w with Tag t => B ":" ++ t | ByDigest d => B "@" ++ show_digest d end.

Record Reference : Type := MkReference {
  registry : bytes;
  repository : bytes;
  want : Want }.

(** The [detail] of a [ReferenceError]. *)
Inductive ReferenceError : Type :=
  | Empty
  | BadDigest (e : DigestError.DigestError)
  | EmptyRegistry
  | NoRepository
  | RepositoryTooLong
  | EmptyComponent
  | DotComponent (component : bytes)
  | IllegalComponent (component : bytes)
  | EmptyTag
  | TagTooLong
  | TagStart (first : ascii)
  | IllegalTag (tag : bytes).

Definition legal (allowed : ascii -> bool) (b : ascii) : bool := allowed b || contains b (B "._-").

Definition check_component (component : bytes) : result unit ReferenceError :=
  if beq component [] then Err EmptyComponent
  else if beq component (B ".") || beq component (B "..") then Err (DotComponent component)
  else if negb (forallb (legal (fun b => is_ascii_lowercase b || is_ascii_digit b)) component) then
    Err (IllegalComponent component)
  else Ok tt.

Definition check_repository (path : bytes) : result unit ReferenceError :=
  if (255 <? length path)%nat then Err RepositoryTooLong
  else rmap (fun _ => tt) (traverse check_component (split "/" path)).

Definition check_tag (tag : bytes) : result unit ReferenceError :=
  match tag with
  | [] => Err EmptyTag
  | first :: _ =>
      if (128 <? length tag)%nat then Err TagTooLong
      else if negb (is_ascii_alphanumeric first || Ascii.eqb first "_") then Err (TagStart first)
      else if negb (forallb (legal is_ascii_alphanumeric) tag) then Err (IllegalTag tag)
      else Ok tt
  end.

Definition host_like (first : bytes) : bool :=
  beq first (B "localhost") || contains "." first || contains ":" first.

(** The registry off the front, by position. *)
Definition split_registry (head : bytes) : bytes * bytes :=
  match split_once "/" head with
  | Some (first, rest) => if host_like first then (first, rest) else (DEFAULT_REGISTRY, head)
  | None => (DEFAULT_REGISTRY, head)
  end.

(** [s.split(c).next().unwrap_or(s)] *)
Definition before (c : ascii) (s : bytes) : bytes := hd s (split c s).

Definition parse (input : bytes) : result Reference ReferenceError :=
  if beq input [] then Err Empty
  else
    let? hw := match split_once "@" input with
               | Some (head, digest) =>
                   let? d := map_err BadDigest (parse_digest digest) in Ok (head, ByDigest d)
               | None => Ok (input, Tag [])
               end in
    let '(head, want) := hw in
    let '(registry, rest) := split_registry head in
    if beq registry [] then Err EmptyRegistry
    else
      let '(path, want) := match want with
                           | ByDigest d => (before ":" rest, ByDigest d)
                           | Tag _ => match rsplit_once ":" rest with
                                      | Some (path, tag) => (path, Tag tag)
                                      | None => (rest, Tag DEFAULT_TAG)
                                      end
                           end in
      if beq path [] then Err NoRepository
      else
        let repository := if beq registry DEFAULT_REGISTRY && negb (contains "/" path)
                          then DEFAULT_NAMESPACE ++ B "/" ++ path else path in
        let? _ := check_repository repository in
        let? _ := match want with Tag t => check_tag t | ByDigest _ => Ok tt end in
        Ok (MkReference registry repository want).

Definition is_default_registry (r : Reference) : bool := beq (registry r) DEFAULT_REGISTRY.

Definition host (r : Reference) : bytes :=
  if beq (registry r) DEFAULT_REGISTRY then DEFAULT_REGISTRY_HOST else registry r.

Definition registry_host (registry : bytes) : bytes :=
  match strip_prefix (B "[") registry with
  | Some rest => before "]" rest
  | None => if (1 <? count ":" registry)%nat then registry else before ":" registry
  end.

Definition is_local (r : Reference) : bool :=
  existsb (beq (registry_host (registry r))) [B "localhost"; B "127.0.0.1"; B "::1"].

Definition manifest_path (r : Reference) : bytes :=
  B "/v2/" ++ repository r ++ B "/manifests/" ++
  match want r with Tag t => t | ByDigest d => show_digest d end.

Definition show_reference (r : Reference) : bytes :=
  registry r ++ B "/" ++ repository r ++ show_want (want r).

(** ** The grammar *)

Definition component_ok (c : bytes) : Prop :=
  c <> [] /\ c <> B "." /\ c <> B ".." /\
  Forall (fun b => is_ascii_lowercase b || is_ascii_digit b || contains b (B "._-") = true) c.

Definition repository_ok (p : bytes) : Prop :=
  (length p <= 255)%nat /\ Forall component_ok (split "/" p).

Definition tag_ok (t : bytes) : Prop :=
  (length t <= 128)%nat /\ Forall (fun b => is_ascii_alphanumeric b || contains b (B "._-") = true) t /\
  exists first r, t = first :: r /\ (is_ascii_alphanumeric first = true \/ first = "_"%char).

Lemma check_component_Ok c u : check_component c = Ok u <-> component_ok c.
Proof.
  unfold check_component, component_ok. destruct u. rewrite <- forallb_Forall.
  destruct (beq c []) eqn:E1; [apply beq_true in E1; naive_solver|].
  destruct (beq c (B ".") || beq c (B "..")) eqn:E2.
  { apply orb_true_iff in E2 as [E2|E2]; apply beq_true in E2; naive_solver. }
  apply orb_false_iff in E2 as [E2 E3].
  assert (N1 : c <> []) by (by intros ->). assert (N2 : c <> B ".") by (by intros ->).
  assert (N3 : c <> B "..") by (by intros ->).
  unfold legal. destruct (forallb _ c) eqn:E4; cbn; naive_solver.
Qed.

Lemma check_repository_Ok p u : check_repository p = Ok u <-> repository_ok p.
Proof.
  unfold check_repository, repository_ok. destruct u. destruct (255 <? length p)%nat eqn:El; reflect_bools.
  { split; [done|]. intros [? _]. lia. }
  split.
  - intros H. split; [lia|]. destruct (traverse check_component _) as [us|] eqn:Et; [|done].
    apply traverse_Ok in Et. apply Forall_lookup. intros i c Hc.
    destruct (Forall2_lookup_l _ _ _ _ _ Et Hc) as (u & _ & Hu). by eapply check_component_Ok.
  - intros [_ Hall]. assert (Et : traverse check_component (split "/" p) = Ok (map (fun _ => tt) (split "/" p))).
    { apply traverse_Ok, Forall2_fmap_r, Forall_Forall2_diag.
      eapply Forall_impl; [exact Hall|]. intros c. apply check_component_Ok. }
    by rewrite Et.
Qed.

Lemma check_tag_Ok t u : check_tag t = Ok u <-> tag_ok t.
Proof.
  unfold check_tag, tag_ok. destruct u. destruct t as [|c t]; [split; [done|naive_solver]|].
  rewrite <- forallb_Forall. destruct (128 <? _)%nat eqn:El; reflect_bools.
  { split; [done|]. intros [? _]. lia. }
  destruct (is_ascii_alphanumeric c || Ascii.eqb c "_") eqn:Ef; cbn [negb].
  - unfold legal. destruct (forallb _ (c :: t)) eqn:E4; cbn [negb].
    + split; [|done]. intros _. split; [done|]. split; [done|]. exists c, t. split; [done|].
      apply orb_true_iff in Ef as [?|Ef]; [by left|]. right. by apply ascii_eqb_eq.
    + naive_solver.
  - split; [done|]. intros (_ & _ & first & r & [= <- <-] & Hf). apply orb_false_iff in Ef as [E1 E2].
    destruct Hf as [Hf|Hf]; [congruence|]. subst c. done.
Qed.

(** ** What is parsed *)

(** A reference whose printed form reads back: the registry would be taken for one, and Docker
    Hub's repositories have their namespace. *)
Definition reference_ok (r : Reference) : Prop :=
  host_like (registry r) = true /\ "/"%char ∉ registry r /\ "@"%char ∉ registry r /\
  repository_ok (repository r) /\
  (registry r = DEFAULT_REGISTRY -> "/"%char ∈ repository r) /\
  match want r with Tag t => tag_ok t | ByDigest d => digest_ok d end.

Lemma split_covers c s x : x ∈ s -> x = c \/ exists p, p ∈ split c s /\ x ∈ p.
Proof.
  intros Hx. destruct (decide (x = c)) as [|Hne]; [by left|]. right.
  revert Hx. rewrite <- (join_split c s) at 1. pose proof (split_ne c s) as Hn.
  induction (split c s) as [|p ps IH]; [done|]. destruct ps as [|q ps].
  - cbn. intros Hx. exists p. split; [left|done].
  - intros Hx. change (join [c] (p :: q :: ps)) with (p ++ [c] ++ join [c] (q :: ps)) in Hx.
    rewrite !elem_of_app, list_elem_of_singleton in Hx. destruct Hx as [Hx|[Hx|Hx]]; [|done|].
    + exists p. split; [left|done].
    + destruct (IH ltac:(done) Hx) as (p' & Hp & Hx'). exists p'. split; [by right|done].
Qed.

Lemma repository_bytes p x : repository_ok p -> x ∈ p ->
  x = "/"%char \/ is_ascii_lowercase x || is_ascii_digit x || contains x (B "._-") = true.
Proof.
  intros [_ Hall] Hx. destruct (split_covers "/" p x Hx) as [->|(c & Hc & Hxc)]; [by left|]. right.
  rewrite Forall_forall in Hall. destruct (Hall c Hc) as (_ & _ & _ & Hok).
  rewrite Forall_forall in Hok. by apply Hok.
Qed.

Lemma repository_without p x : repository_ok p -> x <> "/"%char ->
  is_ascii_lowercase x || is_ascii_digit x || contains x (B "._-") = false -> x ∉ p.
Proof. intros Hp Hne Hx Hin. destruct (repository_bytes p x Hp Hin); congruence. Qed.

Lemma repository_ne p : repository_ok p -> p <> [].
Proof.
  intros [_ Hall] ->. apply Forall_inv in Hall. by destruct Hall as [? _].
Qed.

Lemma tag_without t x : tag_ok t -> is_ascii_alphanumeric x || contains x (B "._-") = false -> x ∉ t.
Proof. intros (_ & Hall & _) Hx Hin. rewrite Forall_forall in Hall. specialize (Hall x Hin). congruence. Qed.

Lemma tag_ne t : tag_ok t -> t <> [].
Proof. intros (_ & _ & first & r & -> & _). done. Qed.

Lemma lower_hex_alphanumeric x : is_lower_hex x = true -> is_ascii_alphanumeric x = true.
Proof.
  unfold is_lower_hex, is_ascii_alphanumeric, is_ascii_alphabetic, is_ascii_lowercase.
  intros [H|H]%orb_true_iff; [rewrite H; by rewrite orb_true_r|].
  apply between_range in H. assert (Hb : between 97 122 x = true) by (apply between_range; lia).
  by rewrite Hb.
Qed.

Lemma digest_without d x : digest_ok d -> x <> ":"%char -> is_ascii_alphanumeric x = false ->
  x ∉ show_digest d.
Proof.
  intros (Ha & _ & Hh) H1 H2 Hin. unfold show_digest in Hin. rewrite Ha in Hin.
  rewrite !elem_of_app in Hin. rewrite Forall_forall in Hh. destruct Hin as [Hin|[Hin|Hin]].
  - assert (Hc : forallb is_ascii_alphanumeric (B "sha256") = true) by done.
    rewrite forallb_Forall, Forall_forall in Hc. specialize (Hc x Hin). congruence.
  - change (B ":") with [":"%char] in Hin. by apply list_elem_of_singleton in Hin.
  - specialize (Hh x Hin). apply lower_hex_alphanumeric in Hh. congruence.
Qed.

Lemma before_none c s : c ∉ s -> before c s = s.
Proof. intros H. unfold before. by rewrite split_none. Qed.

Lemma check_components_parse r : reference_ok r ->
  check_repository (repository r) = Ok tt /\
  (match want r with Tag t => check_tag t | ByDigest _ => Ok tt end) = Ok tt.
Proof.
  intros (_ & _ & _ & Hr & _ & Hw). split; [by apply check_repository_Ok|].
  destruct (want r); [by apply check_tag_Ok|done].
Qed.

Lemma host_like_ne s : host_like s = true -> s <> [].
Proof. by intros H ->. Qed.

Lemma split_registry_show reg rest : host_like reg = true -> "/"%char ∉ reg ->
  split_registry (reg ++ B "/" ++ rest) = (reg, rest).
Proof.
  intros Hh Hn. unfold split_registry. change (reg ++ B "/" ++ rest) with (reg ++ "/"%char :: rest).
  by rewrite split_once_app, Hh.
Qed.

(** A well-formed reference reads back from its printed form. *)
Lemma parse_show_reference r : reference_ok r -> parse (show_reference r) = Ok r.
Proof.
  intros Hok. pose proof (check_components_parse r Hok) as [Hcr Hcw].
  destruct r as [reg repo w]. destruct Hok as (Hh & Hs & Ha & Hr & Hd & Hw).
  cbn [registry repository want] in *. unfold show_reference, parse. cbn [registry repository want].
  pose proof (host_like_ne _ Hh) as Hne. pose proof (repository_ne _ Hr) as Hrne.
  assert (Hin : forall s, beq (reg ++ s) [] = false).
  { intros s. apply bool_decide_eq_false. intros [E _]%app_eq_nil. done. }
  rewrite Hin. assert (Hb : beq reg [] = false) by by apply bool_decide_eq_false.
  assert (Hp : beq repo [] = false) by by apply bool_decide_eq_false.
  assert (Hns : beq reg DEFAULT_REGISTRY && negb (contains "/" repo) = false).
  { destruct (beq reg DEFAULT_REGISTRY) eqn:E; [|done]. apply beq_true in E.
    cbn. apply negb_false_iff, contains_true. auto. }
  assert (Hat : "@"%char ∉ repo) by by apply repository_without.
  destruct w as [t|d]; cbn [show_want].
  - rewrite (proj2 (split_once_None "@" _)).
    2: { rewrite !not_elem_of_app. split; [done|]. split; [by apply contains_false|]. split; [done|].
         split; [by apply contains_false|by apply tag_without]. }
    cbn [rbind]. rewrite split_registry_show by done. rewrite Hb.
    rewrite (proj2 (rsplit_once_Some ":" _ repo t)).
    2: { split; [done|]. by apply tag_without. }
    rewrite Hp, Hns, Hcr, Hcw. done.
  - assert (E : split_once "@" (reg ++ B "/" ++ repo ++ B "@" ++ show_digest d)
      = Some (reg ++ B "/" ++ repo, show_digest d)).
    { apply split_once_Some. split; [by rewrite <- !app_assoc|].
      rewrite !not_elem_of_app. split; [done|]. split; [by apply contains_false|done]. }
    rewrite E. rewrite (proj2 (parse_digest_Ok _ d)) by done. cbn [map_err rbind].
    rewrite split_registry_show by done. rewrite Hb, before_none by by apply repository_without.
    rewrite Hp, Hns, Hcr. done.
Qed.

Lemma split_registry_spec head reg rest : "@"%char ∉ head -> split_registry head = (reg, rest) ->
  host_like reg = true /\ "/"%char ∉ reg /\ "@"%char ∉ reg.
Proof.
  intros Ha. unfold split_registry.
  assert (Hdef : host_like DEFAULT_REGISTRY = true /\ "/"%char ∉ DEFAULT_REGISTRY /\ "@"%char ∉ DEFAULT_REGISTRY).
  { split; [done|]. by split; apply contains_false. }
  destruct (split_once "/" head) as [[first rest']|] eqn:Es; [|by intros [= <- <-]].
  destruct (host_like first) eqn:Eh; [|by intros [= <- <-]]. intros [= <- <-].
  apply split_once_Some in Es as [-> Hn]. split; [done|]. split; [done|].
  intros Hin. apply Ha, elem_of_app. by left.
Qed.

(** Whatever is parsed is well formed. *)
Lemma parse_reference_ok s r : parse s = Ok r -> reference_ok r.
Proof.
  unfold parse. destruct (beq s []); [done|]. intros ([head w] & Hhw & H)%rbind_Ok.
  assert (Hat : "@"%char ∉ head /\ match w with Tag _ => True | ByDigest d => digest_ok d end).
  { destruct (split_once "@" s) as [[h dg]|] eqn:Es.
    - apply rbind_Ok in Hhw as (d & Hd%map_err_Ok & [= <- <-]).
      apply split_once_Some in Es as [_ Hn]. split; [done|]. by apply parse_digest_Ok in Hd as [? _].
    - injection Hhw as <- <-. by apply split_once_None in Es. }
  destruct Hat as [Hat Hw]. destruct (split_registry head) as [reg rest] eqn:Er.
  apply split_registry_spec in Er as (Hh & Hs & Ha); [|done].
  destruct (beq reg []); [done|].
  destruct (match w with ByDigest d => _ | Tag _ => _ end) as [path w'] eqn:Ew.
  destruct (beq path []); [done|]. run_ok. apply check_repository_Ok in Hrun.
  split; [done|]. split; [done|]. split; [done|]. split; [done|]. cbn [registry repository want] in *. split.
  - intros E. apply beq_true in E. rewrite E. cbn [andb].
    destruct (contains "/" path) eqn:Ep; cbn [negb]; [by apply contains_true|].
    by apply contains_true.
  - destruct w' as [t|d]; [by eapply check_tag_Ok|].
    destruct w as [t|d']; [by destruct (rsplit_once ":" rest) as [[]|]|]. by injection Ew as _ <-.
Qed.

(** The accepted references are exactly those that print to themselves up to the defaults: what is
    parsed is well formed, it reads back from its printed form, and every well-formed reference is
    the result of reading its own. *)
Theorem reference_roundtrip r :
  (exists s, parse s = Ok r) <-> parse (show_reference r) = Ok r /\ reference_ok r.
Proof.
  split; [|by intros [? _]; eexists]. intros [s H]. apply parse_reference_ok in H.
  split; [by apply parse_show_reference|done].
Qed.

(** ** The request path *)

Definition want_text (w : Want) : bytes := match w with Tag t => t | ByDigest d => show_digest d end.
Definition want_ok (w : Want) : Prop := match w with Tag t => tag_ok t | ByDigest d => digest_ok d end.

Lemma manifest_path_eq r :
  manifest_path r = B "/v2/" ++ repository r ++ B "/manifests/" ++ want_text (want r).
Proof. done. Qed.

Lemma legal_byte x : x = "/"%char \/ is_ascii_lowercase x || is_ascii_digit x || contains x (B "._-") = true ->
  is_ascii_alphanumeric x || contains x (B "._-/:") = true.
Proof.
  assert (Hall : forallb (fun x => implb (Ascii.eqb x "/" || (is_ascii_lowercase x || is_ascii_digit x || contains x (B "._-")))
    (is_ascii_alphanumeric x || contains x (B "._-/:"))) every_byte = true) by (vm_compute; reflexivity).
  rewrite forallb_forall in Hall. specialize (Hall x (every_byte_complete x)). intros [->|H]; [done|].
  rewrite H, orb_true_r in Hall. exact Hall.
Qed.

Lemma want_text_ok r : reference_ok r ->
  let w := want_text (want r) in
  "/"%char ∉ w /\ w <> [] /\ w <> B "." /\ w <> B ".." /\
  Forall (fun b => is_ascii_alphanumeric b || contains b (B "._-/:") = true) w.
Proof.
  intros (_ & _ & _ & _ & _ & Hw). cbv zeta. destruct (want r) as [t|d]; cbn [want_text].
  - split; [by apply tag_without|]. split; [by apply tag_ne|].
    pose proof Hw as (_ & Hall & first & rest & Et & Hf).
    split; [intros E; rewrite E in Et; injection Et as <- _; by destruct Hf|].
    split; [intros E; rewrite E in Et; injection Et as <- _; by destruct Hf|].
    eapply Forall_impl; [exact Hall|]. intros x Hx. apply orb_true_iff in Hx as [->|Hx]; [done|].
    apply legal_byte. right. rewrite Hx. by rewrite orb_true_r.
  - split; [by apply digest_without|]. pose proof Hw as (Ha & _ & Hh). unfold show_digest. rewrite Ha.
    split; [done|]. split; [done|]. split; [done|].
    rewrite !Forall_app. split; [by apply forallb_Forall|]. split; [by apply forallb_Forall|].
    eapply Forall_impl; [exact Hh|]. intros x Hx. by rewrite lower_hex_alphanumeric.
Qed.

Lemma split_manifest_path r : reference_ok r ->
  split "/" (manifest_path r) =
    [[]; B "v2"] ++ split "/" (repository r) ++ [B "manifests"; want_text (want r)].
Proof.
  intros Hok. destruct (want_text_ok r Hok) as [Hs _]. rewrite manifest_path_eq.
  change (B "/v2/" ++ ?x) with ([] ++ "/"%char :: (B "v2" ++ "/"%char :: x)).
  change (B "/manifests/" ++ ?x) with ("/"%char :: (B "manifests" ++ "/"%char :: x)).
  rewrite !split_app_sep, (split_none "/" (want_text (want r))) by done. done.
Qed.

Lemma want_text_inj w1 w2 : want_ok w1 -> want_ok w2 -> want_text w1 = want_text w2 -> w1 = w2.
Proof.
  assert (Htd : forall t d, tag_ok t -> t <> show_digest d).
  { intros t d Ht E. apply (tag_without t ":"%char Ht); [done|]. rewrite E. unfold show_digest.
    rewrite !elem_of_app. right. left. by left. }
  destruct w1 as [t1|d1], w2 as [t2|d2]; cbn [want_ok want_text]; intros H1 H2 E.
  - congruence.
  - by apply Htd in E.
  - symmetry in E. by apply Htd in E.
  - pose proof (proj2 (parse_digest_Ok _ d1) (conj H1 eq_refl)) as P1.
    pose proof (proj2 (parse_digest_Ok _ d2) (conj H2 eq_refl)) as P2. rewrite E in P1. congruence.
Qed.

(** The request path of a parsed reference has exactly the endpoint's shape: [/v2/], the
    repository's own components, [manifests], and the tag or digest, none of them empty, [.] or
    [..]; it has no byte that begins a query or a fragment, escapes another one or ends a line;
    and it belongs to no other repository or tag. *)
Theorem manifest_path_safe s r : parse s = Ok r ->
  (exists comps w, split "/" (manifest_path r) = [[]; B "v2"] ++ comps ++ [B "manifests"; w] /\
    join (B "/") comps = repository r /\
    Forall component_ok comps /\ w <> [] /\ w <> B "." /\ w <> B "..") /\
  Forall (fun b => is_ascii_alphanumeric b || contains b (B "._-/:") = true) (manifest_path r) /\
  forall s' r', parse s' = Ok r' -> manifest_path r' = manifest_path r ->
    repository r' = repository r /\ want r' = want r.
Proof.
  intros Hp%parse_reference_ok. destruct (want_text_ok r Hp) as (Hslash & Hne & Hd1 & Hd2 & Hall).
  split; [|split].
  - exists (split "/" (repository r)), (want_text (want r)).
    split; [by apply split_manifest_path|]. split; [apply join_split|].
    split; [apply Hp|]. done.
  - rewrite manifest_path_eq, !Forall_app. split; [by apply forallb_Forall|]. split.
    + apply Forall_forall. intros x Hx. apply repository_bytes in Hx; [|apply Hp].
      by apply legal_byte.
    + split; [by apply forallb_Forall|done].
  - intros s' r' Hp'%parse_reference_ok E. apply (f_equal (split "/")) in E.
    rewrite !split_manifest_path in E by done.
    rewrite !(app_assoc _ _ [B "manifests"; _]) in E.
    change [B "manifests"; want_text (want r)] with ([B "manifests"] ++ [want_text (want r)]) in E.
    change [B "manifests"; want_text (want r')] with ([B "manifests"] ++ [want_text (want r')]) in E.
    rewrite !app_assoc in E. apply app_inj_tail in E as [E Ew]. apply app_inj_tail in E as [E _].
    apply app_inv_head, (f_equal (join ["/"%char])) in E. rewrite !join_split in E.
    split; [done|]. apply want_text_inj; [apply Hp'|apply Hp|done].
Qed.


Lemma manifest_path_safe_witness :
  exists r, parse (B "alpine") = Ok r /\ host r = B "registry-1.docker.io" /\
    manifest_path r = B "/v2/library/alpine/manifests/latest" /\
    (exists comps w, split "/" (manifest_path r) = [[]; B "v2"] ++ comps ++ [B "manifests"; w]).
Proof.
  exists (MkReference (B "docker.io") (B "library/alpine") (Tag (B "latest"))).
  assert (E : parse (B "alpine") = Ok (MkReference (B "docker.io") (B "library/alpine") (Tag (B "latest"))))
    by reflexivity.
  split; [exact E|]. split; [reflexivity|]. split; [reflexivity|].
  destruct (proj1 (manifest_path_safe _ _ E)) as (comps & w & Hs & _). by exists comps, w.
Defined.

(** A port is not a tag, a first component without a dot is a namespace, a tag beside a digest is
    dropped, an uppercase name and a second-level dot-dot are refused. *)
Example references_read :
  parse (B "localhost:5000/name") = Ok (MkReference (B "localhost:5000") (B "name") (Tag (B "latest"))) /\
  parse (B "ubuntu/nginx:1.2") = Ok (MkReference (B "docker.io") (B "ubuntu/nginx") (Tag (B "1.2"))) /\
  parse (B "ghcr.io/a/../b") = Err (DotComponent (B "..")) /\
  parse (B "Alpine") = Err (IllegalComponent (B "Alpine")) /\
  is_local (MkReference (B "[::1]:5000") (B "n") (Tag (B "t"))) = true.
Proof. vm_compute. done. Qed.

Lemma reference_roundtrip_witness :
  parse (show_reference (MkReference (B "ghcr.io") (B "o/n") (Tag (B "v1")))) =
    Ok (MkReference (B "ghcr.io") (B "o/n") (Tag (B "v1"))).
Proof.
  refine (proj1 (proj1 (reference_roundtrip _) _)). exists (B "ghcr.io/o/n:v1"). reflexivity.
Defined.
