(* ===== verification/HostIo.v ===== *)
(** * Host paths of the MCP server ([crates/mcp/src/hostio.rs])

    Two arguments of [sandbox_run] name a path on the host; the caller is a language model.
    [HostIo::check] resolves the path and refuses what is not inside the confinement root, is
    inside isopod's own state directory, or has a second hard link.

    The file has the paths of [std::path] as lists of components, the kernel's resolution of a
    path over a tree of nodes ([walk], with symbolic links, [..], unsearchable directories and
    the limit on links; [resolve_at], with the limit on the path's length), the policy and its check, and the theorems: where an accepted path leads
    when it is opened. *)
From S2P Require Import Prelude Text.

(** ** Paths *)

Inductive component : Type := RootDir | CurDir | ParentDir | Normal (name : bytes).
#[export] Instance component_eq_dec : EqDecision component.
Proof. solve_decision. Defined.

(** A [PathBuf], by its components. *)
Abbreviation path := (list component).

Definition is_absolute (p : path) : bool := match p with RootDir :: _ => true | _ => false end.

Definition part_of (s : bytes) : component :=
  if beq s (B ".") then CurDir else if beq s (B "..") then ParentDir else Normal s.

Definition not_blank (s : bytes) : bool := negb (beq s []).
Definition not_cur (c : component) : bool := negb (bool_decide (c = CurDir)).

(** [Path::components]: repeated and trailing separators go, and every [.] but a leading one. *)
Definition components (s : bytes) : path :=
  let parts := map part_of (List.filter not_blank (split "/" s)) in
  if starts_with (B "/") s then RootDir :: List.filter not_cur parts
  else match parts with
       | CurDir :: r => CurDir :: List.filter not_cur r
       | _ => List.filter not_cur parts
       end.

(** [Path::starts_with] *)
Definition path_starts_with (p base : path) : bool := bool_decide (base `prefix_of` p).

(** [Path::file_name], [Path::parent] *)
Definition file_name (p : path) : option bytes :=
  match last p with Some (Normal n) => Some n | _ => None end.
Definition parent (p : path) : option path :=
  match last p with None | Some RootDir => None | _ => Some (removelast p) end.

(** [base.join(p)], of paths without [CurDir]; [base.push(name)] is [base ++ [Normal name]]. *)
Definition join_components (base p : path) : path := if is_absolute p then p else base ++ p.

(** ** The host's file system

    Nodes by their place in the tree: the names from the root, without links. *)

Inductive node : Type :=
  | Dir (searchable : bool)
  | File (nlink : N)
  | Link (target : bytes)
  | Special.

Inductive Errno : Type := ENOENT | ENOTDIR | EACCES | ELOOP | ENAMETOOLONG.
#[export] Instance Errno_eq_dec : EqDecision Errno.
Proof. solve_decision. Defined.

Record HostFs : Type := MkHostFs {
  nodes : gmap (list bytes) node;
  (** the process's working directory, unless it was removed *)
  cwd : option (list bytes) }.

Definition node_at (nodes : gmap (list bytes) node) (at_ : list bytes) : option node :=
  match at_ with [] => Some (Dir true) | _ => nodes !! at_ end.

(** What the last component of a path means to a call: [stat] follows a link there, [lstat] does
    not, and an open with [O_CREAT] takes a missing one for the file to make. *)
Inductive last_mode : Type := Follow | NoFollow | Create.
#[export] Instance last_mode_eq_dec : EqDecision last_mode.
Proof. solve_decision. Defined.

(** The components the kernel sees: a separator at the end asks for a directory, as [.] does. *)
Definition kernel_components (s : bytes) : path :=
  (if starts_with (B "/") s then [RootDir] else []) ++
  map part_of (List.filter not_blank (split "/" s)) ++
  (if ends_with (B "/") s then [CurDir] else []).

Definition search (nodes : gmap (list bytes) node) (at_ : list bytes) : result unit Errno :=
  match node_at nodes at_ with
  | Some (Dir true) => Ok tt
  | Some (Dir false) => Err EACCES
  | Some _ => Err ENOTDIR
  | None => Err ENOENT
  end.

(** The resolution of [todo] from the directory [at_], through at most [links] symbolic links. *)
Fixpoint walk (mode : last_mode) (nodes : gmap (list bytes) node) (links : nat) :
    list bytes -> path -> result (list bytes) Errno :=
  fix go at_ todo :=
    match todo with
    | [] => Ok at_
    | RootDir :: r => go [] r
    | CurDir :: r => let? _ := search nodes at_ in go at_ r
    | ParentDir :: r => let? _ := search nodes at_ in go (removelast at_) r
    | Normal n :: r =>
        let? _ := search nodes at_ in
        match nodes !! (at_ ++ [n]) with
        | None => match mode, r with Create, [] => Ok (at_ ++ [n]) | _, _ => Err ENOENT end
        | Some (Link target) =>
            match mode, r with
            | NoFollow, [] => Ok (at_ ++ [n])
            | _, _ =>
                match links with
                | 0%nat => Err ELOOP
                | S links =>
                    match target with
                    | [] => Err ENOENT
                    | _ => walk mode nodes links at_ (kernel_components target ++ r)
                    end
                end
            end
        | Some _ => go (at_ ++ [n]) r
        end
    end.

Definition MAXSYMLINKS : nat := 40.

(** Where a path leads, however long it is. *)
Definition resolve (mode : last_mode) (fs : HostFs) (p : path) : result (list bytes) Errno :=
  match p with
  | [] => Err ENOENT
  | RootDir :: _ => walk mode (nodes fs) MAXSYMLINKS [] p
  | _ => match cwd fs with
         | Some d => walk mode (nodes fs) MAXSYMLINKS d p
         | None => Err ENOENT
         end
  end.

(** The text of a [PathBuf] that was put together of components. *)
Definition component_text (c : component) : bytes :=
  match c with RootDir => [] | CurDir => B "." | ParentDir => B ".." | Normal n => n end.
Definition path_text (p : path) : bytes :=
  match p with
  | RootDir :: r => B "/" ++ join (B "/") (map component_text r)
  | _ => join (B "/") (map component_text p)
  end.

(** What a call is given to resolve is of at most [PATH_MAX] bytes with the NUL at its end: a longer one is
    refused before it is looked at, though shorter ones may name the same place.  (How long one name
    may be is the file system's to say: of a longer one there is no node.) *)
Definition PATH_MAX : nat := 4096.
Definition too_long (text : bytes) : bool := (PATH_MAX <=? length text)%nat.

(** A call of the kernel on a path of components, and on a text as it was given. *)
Definition resolve_at (mode : last_mode) (fs : HostFs) (p : path) : result (list bytes) Errno :=
  if too_long (path_text p) then Err ENAMETOOLONG else resolve mode fs p.
Definition resolve_text (mode : last_mode) (fs : HostFs) (s : bytes) : result (list bytes) Errno :=
  if too_long s then Err ENAMETOOLONG else resolve mode fs (kernel_components s).

(** The path of a place in the tree. *)
Definition canon (at_ : list bytes) : path := RootDir :: map Normal at_.

(** [std::fs::canonicalize], [Path::exists], [std::fs::symlink_metadata] and where
    [File::create] opens. *)
Definition canonicalize (fs : HostFs) (p : path) : result path Errno :=
  let? at_ := resolve_at Follow fs p in Ok (canon at_).
Definition canonicalize_text (fs : HostFs) (s : bytes) : result path Errno :=
  let? at_ := resolve_text Follow fs s in Ok (canon at_).
Definition exists_ (fs : HostFs) (p : path) : bool := is_ok (resolve_at Follow fs p).
Definition symlink_metadata (fs : HostFs) (p : path) : option node :=
  match resolve_at NoFollow fs p with Ok at_ => node_at (nodes fs) at_ | Err _ => None end.
Definition created_at (fs : HostFs) (p : path) : result (list bytes) Errno :=
  resolve_at Create fs p.

(** ** The policy *)

Inductive Access : Type := Read | Write.

Record HostIo : Type := MkHostIo {
  root : option path;
  read_enabled : bool;
  write_enabled : bool }.

(** [std::env::var(name)] gives no value for one that is not UTF-8; [var_os] gives the bytes. *)
Definition env_var (env : bytes -> option bytes) (name : bytes) : option bytes :=
  match env name with Some v => if is_utf8 v then Some v else None | None => None end.

Definition off (env : bytes -> option bytes) (name : bytes) : bool :=
  match env_var env name with
  | None => false
  | Some v =>
      let v := to_ascii_lowercase (trim v) in
      negb (existsb (beq v) [B "on"; B "1"; B "true"; B "yes"; B "enabled"])
  end.

Definition UNMATCHABLE : path := components (B "/nonexistent/isopod-host-io-unresolved").

Definition from_cwd (fs : HostFs) : path :=
  match cwd fs with
  | Some d => match canonicalize fs (canon d) with Ok p => p | Err _ => UNMATCHABLE end
  | None => UNMATCHABLE
  end.

Definition root_from_env (fs : HostFs) (env : bytes -> option bytes) : option path :=
  let resolved :=
    match env (B "ISOPOD_MCP_HOST_IO_ROOT") with
    | Some v =>
        if beq v [] || beq (trim (from_utf8_lossy v)) [] then from_cwd fs
        else match canonicalize_text fs v with Ok p => p | Err _ => components v end
    | None => from_cwd fs
    end in
  if bool_decide (resolved = [RootDir]) then None
  else if negb (is_absolute resolved) || (length resolved <? 2)%nat then Some UNMATCHABLE
  else Some resolved.

Definition from_env (fs : HostFs) (env : bytes -> option bytes) : HostIo :=
  let all_off := off env (B "ISOPOD_MCP_HOST_IO") in
  {| root := root_from_env fs env;
     read_enabled := negb all_off && negb (off env (B "ISOPOD_MCP_STDIN_FILE"));
     write_enabled := negb all_off && negb (off env (B "ISOPOD_MCP_COPY_OUT")) |}.

(** [home] is what [isopod_home()] answers. *)
Definition state_dir (fs : HostFs) (home : option bytes) : option path :=
  match home with
  | None => None
  | Some h => Some (match canonicalize_text fs h with Ok p => p | Err _ => components h end)
  end.

Inductive PathError : Type :=
  | Disabled (access : Access)
  | EmptyPath
  | TildePath
  | CannotBeRead (e : Errno)
  | NamesNoFile
  | NotCanonical (e : Errno)
  | DanglingLink (at_ : path)
  | NoWorkingDirectory
  | NoAncestor
  | InStateDir (resolved state : path)
  | HardLinks (n : N)
  | OutsideRoot (resolved root : path).

Definition normalize_destination (p : path) : path := List.filter not_cur p.

Definition is_link (n : option node) : bool := match n with Some (Link _) => true | _ => false end.

(** One round of the walk-up loop: it ends, or goes on at the parent with one more name behind. *)
Inductive round : Type :=
  | Done (r : result path PathError)
  | Up (cursor : path) (name : bytes).

Definition resolve_round (fs : HostFs) (cursor : path) (remainder : list bytes) : round :=
  if negb (exists_ fs cursor) && is_link (symlink_metadata fs cursor) then
    Done (Err (DanglingLink cursor))
  else if exists_ fs cursor then
    Done (let? base := map_err NotCanonical (canonicalize fs cursor) in
          Ok (base ++ map Normal remainder))
  else
    match file_name cursor with
    | Some name => match parent cursor with
                   | Some up => Up up name
                   | None => Done (Err NoAncestor)
                   end
    | None => Done (Err NoAncestor)
    end.

(** The loop, for at most [fuel] rounds; [None] when they were not enough.  The names behind the
    cursor are kept in the order of the path. *)
Fixpoint resolve_loop (fuel : nat) (fs : HostFs) (cursor : path) (remainder : list bytes) :
    option (result path PathError) :=
  match fuel with
  | 0%nat => None
  | S fuel =>
      match resolve_round fs cursor remainder with
      | Done r => Some r
      | Up up name => resolve_loop fuel fs up (name :: remainder)
      end
  end.

(** [std::env::current_dir()?.join(path)] *)
Definition absolute_path (fs : HostFs) (p : path) : option path :=
  if is_absolute p then Some p else option_map (fun d => join_components (canon d) p) (cwd fs).

Definition resolve_for_write (fs : HostFs) (raw : path) : option (result path PathError) :=
  let p := normalize_destination raw in
  if bool_decide (p = []) then Some (Err NamesNoFile)
  else if exists_ fs p then Some (map_err NotCanonical (canonicalize fs p))
  else if is_link (symlink_metadata fs p) then Some (Err (DanglingLink p))
  else
    match absolute_path fs p with
    | None => Some (Err NoWorkingDirectory)
    | Some absolute => resolve_loop (S (length absolute)) fs absolute []
    end.

(** The guards on a resolved path. *)
Definition guard (io : HostIo) (fs : HostFs) (home : option bytes) (resolved : path) :
    result path PathError :=
  let? _ := match state_dir fs home with
            | Some state => if path_starts_with resolved state then Err (InStateDir resolved state) else Ok tt
            | None => Ok tt
            end in
  let? _ := match symlink_metadata fs resolved with
            | Some (File n) => if (1 <? n)%N then Err (HardLinks n) else Ok tt
            | _ => Ok tt
            end in
  match root io with
  | None => Ok resolved
  | Some r => if path_starts_with resolved r then Ok resolved else Err (OutsideRoot resolved r)
  end.

Definition check (io : HostIo) (fs : HostFs) (home : option bytes) (raw : bytes) (access : Access) :
    option (result path PathError) :=
  let enabled := match access with Read => read_enabled io | Write => write_enabled io end in
  if negb enabled then Some (Err (Disabled access))
  else if beq raw [] then Some (Err EmptyPath)
  else if starts_with (B "~") raw then Some (Err TildePath)
  else
    let resolved := match access with
                    | Read => Some (map_err CannotBeRead (canonicalize_text fs raw))
                    | Write => resolve_for_write fs (components raw)
                    end in
    option_map (fun r => let? p := r in guard io fs home p) resolved.

(** ** Resolution *)

Lemma walk_nil mode nodes k at_ : walk mode nodes k at_ [] = Ok at_.
Proof. by destruct k. Qed.
Lemma walk_root mode nodes k at_ r : walk mode nodes k at_ (RootDir :: r) = walk mode nodes k [] r.
Proof. by destruct k. Qed.
Lemma walk_cur mode nodes k at_ r :
  walk mode nodes k at_ (CurDir :: r) = let? _ := search nodes at_ in walk mode nodes k at_ r.
Proof. by destruct k. Qed.
Lemma walk_parent mode nodes k at_ r :
  walk mode nodes k at_ (ParentDir :: r) = let? _ := search nodes at_ in walk mode nodes k (removelast at_) r.
Proof. by destruct k. Qed.
Lemma walk_normal mode nodes k at_ n r :
  walk mode nodes k at_ (Normal n :: r) =
    let? _ := search nodes at_ in
    match nodes !! (at_ ++ [n]) with
    | None => match mode, r with Create, [] => Ok (at_ ++ [n]) | _, _ => Err ENOENT end
    | Some (Link target) =>
        match mode, r with
        | NoFollow, [] => Ok (at_ ++ [n])
        | _, _ =>
            match k with
            | 0%nat => Err ELOOP
            | S k => match target with
                     | [] => Err ENOENT
                     | _ => walk mode nodes k at_ (kernel_components target ++ r)
                     end
            end
        end
    | Some _ => walk mode nodes k (at_ ++ [n]) r
    end.
Proof. by destruct k. Qed.

Lemma search_ok nodes at_ u : search nodes at_ = Ok u <-> node_at nodes at_ = Some (Dir true).
Proof. unfold search. destruct u. destruct (node_at nodes at_) as [[[]| | |]|]; naive_solver. Qed.

(** Induction over a walk: over the links still allowed, then the components. *)
Lemma walk_ind (mode : last_mode) (nodes : gmap (list bytes) node)
    (P : nat -> list bytes -> path -> Prop) :
  (forall k at_, P k at_ []) ->
  (forall k at_ r, P k [] r -> P k at_ (RootDir :: r)) ->
  (forall k at_ r, P k at_ r -> P k at_ (CurDir :: r)) ->
  (forall k at_ r, P k (removelast at_) r -> P k at_ (ParentDir :: r)) ->
  (forall k at_ n r, P k (at_ ++ [n]) r ->
    (forall k' t, k = S k' -> nodes !! (at_ ++ [n]) = Some (Link t) ->
      P k' at_ (kernel_components t ++ r)) -> P k at_ (Normal n :: r)) ->
  forall k at_ todo, P k at_ todo.
Proof.
  intros H1 H2 H3 H4 H5 k. induction k as [|k IH]; intros at_ todo; revert at_;
    induction todo as [|[| | |n] r IHr]; intros at_; auto.
  - apply H5; [auto|done].
  - apply H5; [auto|]. intros k' t [= <-] _. apply IH.
Qed.

(** A tree: what has a node has a directory above it; the working directory is one. *)
Record fs_wf (fs : HostFs) : Prop := {
  wf_parent p n x : nodes fs !! (p ++ [n]) = Some x -> exists b, node_at (nodes fs) p = Some (Dir b);
  wf_cwd d : cwd fs = Some d -> exists b, node_at (nodes fs) d = Some (Dir b) }.

(** A place with a node of its own, no link. *)
Definition real (nodes : gmap (list bytes) node) (l : list bytes) : Prop :=
  exists x, node_at nodes l = Some x /\ is_link (Some x) = false.

Lemma removelast_snoc {A} (l : list A) x : removelast (l ++ [x]) = l.
Proof. apply removelast_last. Qed.

Lemma node_at_snoc nodes p n : node_at nodes (p ++ [n]) = nodes !! (p ++ [n]).
Proof. by destruct p. Qed.

Lemma above_real fs p n : fs_wf fs -> real (nodes fs) (p ++ [n]) -> real (nodes fs) p.
Proof.
  intros W (x & Hx & _). rewrite node_at_snoc in Hx. apply (wf_parent _ W) in Hx as [b Hb].
  by exists (Dir b).
Qed.

Lemma prefix_real fs p q : fs_wf fs -> real (nodes fs) (p ++ q) -> real (nodes fs) p.
Proof.
  intros W. induction q as [|n q IH] using rev_ind; [by rewrite app_nil_r|].
  rewrite app_assoc. intros H%above_real; auto.
Qed.

Lemma root_real fs : real (nodes fs) [].
Proof. by exists (Dir true). Qed.

(** [canonicalize] ends at a place that is no link, and under a directory none is either. *)
Lemma walk_real fs k at_ todo l : fs_wf fs -> real (nodes fs) at_ ->
  walk Follow (nodes fs) k at_ todo = Ok l -> real (nodes fs) l.
Proof.
  intros W. revert k at_ todo. apply (walk_ind Follow (nodes fs) (fun k at_ todo =>
    real (nodes fs) at_ -> walk Follow (nodes fs) k at_ todo = Ok l -> real (nodes fs) l)).
  - intros k at_ Hr. rewrite walk_nil. by intros [= <-].
  - intros k at_ r IH Hr. rewrite walk_root. apply IH, root_real.
  - intros k at_ r IH Hr. rewrite walk_cur. intros (u & _ & H)%rbind_Ok. by apply IH.
  - intros k at_ r IH Hr. rewrite walk_parent. intros (u & _ & H)%rbind_Ok. apply IH; [|done].
    destruct at_ as [|n p _] using rev_ind; [done|]. rewrite removelast_snoc. by eapply above_real.
  - intros k at_ n r IH1 IH2 Hr. rewrite walk_normal. intros (u & _ & H)%rbind_Ok.
    destruct (nodes fs !! (at_ ++ [n])) as [x|] eqn:Ex; [|done].
    assert (Hx : is_link (Some x) = false -> real (nodes fs) (at_ ++ [n])).
    { intros ?. exists x. by rewrite node_at_snoc. }
    destruct x as [b|c|t|]; [by apply IH1, H; apply Hx| by apply IH1, H; apply Hx| |by apply IH1, H; apply Hx].
    destruct k as [|k]; [done|]. destruct t as [|c t]; [done|]. by eapply IH2.
Qed.

Lemma resolve_at_Ok mode fs p l : resolve_at mode fs p = Ok l -> resolve mode fs p = Ok l /\ too_long (path_text p) = false.
Proof. unfold resolve_at. by destruct (too_long _). Qed.

Lemma resolve_at_short mode fs p : too_long (path_text p) = false -> resolve_at mode fs p = resolve mode fs p.
Proof. unfold resolve_at. by intros ->. Qed.

Lemma too_long_false s : too_long s = false <-> (length s < PATH_MAX)%nat.
Proof. unfold too_long. apply Nat.leb_gt. Qed.

Lemma join_app_length (sep : bytes) a b : (length (join sep a) <= length (join sep (a ++ b)))%nat.
Proof.
  induction a as [|x a IH]; [cbn; lia|]. destruct a as [|y a].
  - destruct b as [|z b]; [done|]. cbn [app join]. rewrite length_app. lia.
  - change (join sep (x :: y :: a)) with (x ++ sep ++ join sep (y :: a)).
    change (join sep ((x :: y :: a) ++ b)) with (x ++ sep ++ join sep ((y :: a) ++ b)). rewrite !length_app. lia.
Qed.

(** A path is as long as what begins it. *)
Lemma too_long_prefix p q : too_long (path_text (p ++ q)) = false -> too_long (path_text p) = false.
Proof.
  rewrite !too_long_false. intros H. enough (length (path_text p) <= length (path_text (p ++ q)))%nat by lia. clear H.
  destruct p as [|c p]; [cbn; lia|]. unfold path_text. cbn [app].
  destruct c; rewrite ?length_app, ?map_app; cbn [map]; rewrite ?map_app; try (apply (join_app_length _ (_ :: _))).
  pose proof (join_app_length (B "/") (map component_text p) (map component_text q)). lia.
Qed.

(** A relative path is shorter than the same from the working directory. *)
Lemma too_long_join d p : is_absolute p = false -> too_long (path_text (join_components (canon d) p)) = false -> too_long (path_text p) = false.
Proof.
  intros Ha. unfold join_components. rewrite Ha, !too_long_false. intros H. enough (length (path_text p) <= length (path_text (canon d ++ p)))%nat by lia.
  clear H. unfold path_text at 2. unfold canon. cbn [app]. rewrite length_app, map_app.
  assert (Hj : forall a b, (length (join (B "/") b) <= length (join (B "/") (a ++ b)))%nat).
  { clear. induction a as [|x a IH]; intros b; [cbn; lia|]. specialize (IH b). cbn [app]. destruct (a ++ b) as [|y l] eqn:E.
    - apply app_eq_nil in E as [_ ->]. cbn. lia.
    - change (join (B "/") (x :: y :: l)) with (x ++ B "/" ++ join (B "/") (y :: l)). rewrite !length_app. lia. }
  specialize (Hj (map component_text (map Normal d)) (map component_text p)).
  destruct p as [|[] p]; try done; cbn [path_text] in *; lia.
Qed.

Lemma resolve_real fs p l : fs_wf fs -> resolve Follow fs p = Ok l -> real (nodes fs) l.
Proof.
  intros W. unfold resolve.
  assert (Hc : forall d, cwd fs = Some d -> real (nodes fs) d).
  { intros d [b Hb]%(wf_cwd _ W). by exists (Dir b). }
  destruct p as [|[]]; [done|apply walk_real; [done|apply root_real]|..];
    (destruct (cwd fs) as [d|] eqn:Ed; [|done]; apply walk_real; auto).
Qed.

Lemma search_real nodes at_ u : search nodes at_ = Ok u -> real nodes at_.
Proof. intros H%search_ok. by exists (Dir true). Qed.

(** A resolved prefix: what follows it is resolved from where it leads. *)
Lemma walk_app nodes k at_ todo b : walk Follow nodes k at_ todo = Ok b ->
  exists k', forall mode rest, rest <> [] -> walk mode nodes k at_ (todo ++ rest) = walk mode nodes k' b rest.
Proof.
  revert k at_ todo. apply (walk_ind Follow nodes (fun k at_ todo =>
    walk Follow nodes k at_ todo = Ok b -> exists k', forall mode rest, rest <> [] ->
      walk mode nodes k at_ (todo ++ rest) = walk mode nodes k' b rest)).
  - intros k at_. rewrite walk_nil. intros [= ->]. by exists k.
  - intros k at_ r IH. rewrite walk_root. intros (k' & H)%IH. exists k'. intros mode rest Hr.
    cbn [app]. rewrite walk_root. auto.
  - intros k at_ r IH. rewrite walk_cur. intros (u & Hu & (k' & H)%IH)%rbind_Ok. exists k'.
    intros mode rest Hr. cbn [app]. rewrite walk_cur, Hu. cbn. auto.
  - intros k at_ r IH. rewrite walk_parent. intros (u & Hu & (k' & H)%IH)%rbind_Ok. exists k'.
    intros mode rest Hr. cbn [app]. rewrite walk_parent, Hu. cbn. auto.
  - intros k at_ n r IH1 IH2. rewrite walk_normal. intros (u & Hu & H)%rbind_Ok.
    assert (Hne : forall rest : path, rest <> [] -> r ++ rest <> []) by (intros [] ?; destruct r; done).
    destruct (nodes !! (at_ ++ [n])) as [x|] eqn:Ex; [|done].
    destruct x as [c|c|t|].
    3: { destruct k as [|k]; [done|]. destruct t as [|c t]; [done|].
         destruct (IH2 k (c :: t) eq_refl eq_refl H) as [k' Hk']. exists k'. intros mode rest Hr.
         cbn [app]. rewrite walk_normal, Hu, Ex. cbn [rbind].
         specialize (Hk' mode rest Hr). rewrite <- app_assoc in Hk'. specialize (Hne rest Hr).
         destruct (r ++ rest) eqn:Er; [done|]. by destruct mode. }
    all: destruct (IH1 H) as [k' Hk']; exists k'; intros mode rest Hr; cbn [app];
      rewrite walk_normal, Hu, Ex; cbn [rbind]; by apply Hk'.
Qed.

(** Every directory from the root down to [p] may be searched. *)
Definition searchable_to (nodes : gmap (list bytes) node) (p : list bytes) : Prop :=
  forall p1 p2, p = p1 ++ p2 -> node_at nodes p1 = Some (Dir true).

(** No link stands on the way to [l], as far as a walk can get. *)
Definition safe (nodes : gmap (list bytes) node) (l : list bytes) : Prop :=
  forall p n q, l = p ++ n :: q -> searchable_to nodes p -> is_link (nodes !! (p ++ [n])) = false.

Lemma searchable_to_snoc nodes p n : searchable_to nodes p ->
  node_at nodes (p ++ [n]) = Some (Dir true) -> searchable_to nodes (p ++ [n]).
Proof.
  intros Hp Hn p1 p2 E. destruct p2 as [|x p2 _] using rev_ind.
  - rewrite app_nil_r in E. by subst p1.
  - rewrite app_assoc in E. apply app_inj_tail in E as [-> ->]. by eapply Hp.
Qed.

Lemma searchable_nil nodes : searchable_to nodes [].
Proof. intros p1 p2 E. symmetry in E. apply app_eq_nil in E as [-> _]. done. Qed.

(** A walk along a safe path stays on it. *)
Lemma walk_safe mode nodes k at_ rest q : safe nodes (at_ ++ rest) ->
  (rest <> [] -> forall p1 p2, at_ = p1 ++ p2 -> p2 <> [] -> node_at nodes p1 = Some (Dir true)) ->
  walk mode nodes k at_ (map Normal rest) = Ok q -> q = at_ ++ rest.
Proof.
  revert at_. induction rest as [|n rest IH]; intros at_ Hs Hp; cbn [map].
  { rewrite walk_nil, app_nil_r. congruence. }
  rewrite walk_normal. intros (u & Hu & H)%rbind_Ok. apply search_ok in Hu.
  assert (Hst : searchable_to nodes at_).
  { intros p1 p2 E. destruct p2 as [|c p2]; [rewrite app_nil_r in E; by subst p1|].
    by eapply (Hp ltac:(done) p1 (c :: p2)). }
  assert (Hnl : is_link (nodes !! (at_ ++ [n])) = false) by (apply (Hs at_ n rest); done).
  assert (Hgo : walk mode nodes k (at_ ++ [n]) (map Normal rest) = Ok q -> q = at_ ++ n :: rest).
  { intros Hw. rewrite (app_assoc at_ [n] rest : at_ ++ n :: rest = _). apply IH; [by rewrite <- app_assoc| |done].
    intros _ p1 p2 E Hne. destruct p2 as [|x p2 _] using rev_ind; [done|].
    rewrite app_assoc in E. apply app_inj_tail in E as [-> ->]. by eapply Hst. }
  destruct (nodes !! (at_ ++ [n])) as [[]|]; try done; auto.
  destruct mode; try done. destruct rest; cbn in H; [|done]. congruence.
Qed.

(** ** Later states of the tree *)

(** What may be made meanwhile: files and directories, no links, and nothing is taken away. *)
Definition grown (fs fs' : HostFs) : Prop :=
  nodes fs ⊆ nodes fs' /\
  forall l, is_link (nodes fs' !! l) = true -> nodes fs !! l = nodes fs' !! l.

Lemma safe_grown fs fs' l : fs_wf fs -> grown fs fs' -> safe (nodes fs) l -> safe (nodes fs') l.
Proof.
  intros W [Hsub Hnew] Hs p n q El Hp. destruct (is_link (nodes fs' !! (p ++ [n]))) eqn:Ek; [|done].
  pose proof (Hnew _ Ek) as Eq. rewrite <- Eq in Ek. exfalso.
  enough (is_link (nodes fs !! (p ++ [n])) = false) by congruence. apply (Hs p n q El).
  assert (Hex : exists x, nodes fs !! (p ++ [n]) = Some x).
  { destruct (nodes fs !! (p ++ [n])); [eauto|done]. }
  clear Ek Eq. revert n q El Hex Hp.
  induction p as [|m p IH] using rev_ind; intros n q El [x Hx] Hp; [apply searchable_nil|].
  apply (wf_parent _ W) in Hx as [b Hb]. pose proof Hb as Hb'. rewrite node_at_snoc in Hb.
  apply searchable_to_snoc.
  - apply (IH m (n :: q)); [by rewrite <- app_assoc in El|eauto|].
    intros p1 p2 E. apply (Hp p1 (p2 ++ [m])). by rewrite E, app_assoc.
  - pose proof (Hp (p ++ [m]) [] ltac:(by rewrite app_nil_r)) as Ht.
    rewrite node_at_snoc in Ht. rewrite node_at_snoc. rewrite (lookup_weaken _ _ _ _ Hb Hsub) in Ht. congruence.
Qed.

Lemma real_safe fs l : fs_wf fs -> real (nodes fs) l -> safe (nodes fs) l.
Proof.
  intros W Hr p n q -> _. change (n :: q) with ([n] ++ q) in Hr. rewrite app_assoc in Hr.
  apply prefix_real in Hr as (x & Hx & Hl); [|done]. rewrite node_at_snoc in Hx. by rewrite Hx.
Qed.

(** A path that does not go past a missing name is safe beyond it. *)
Lemma safe_app fs b n rem : fs_wf fs -> real (nodes fs) b ->
  (node_at (nodes fs) b = Some (Dir true) -> nodes fs !! (b ++ [n]) = None) ->
  safe (nodes fs) (b ++ n :: rem).
Proof.
  intros W Hb Hnone p m q E Hp. destruct (decide (length p < length b)%nat) as [Hlt|Hge].
  - apply (real_safe fs b W Hb p m (drop (length p + 1) b)); [|done].
    rewrite <- (take_drop (length p + 1) b) at 1.
    change (p ++ m :: drop (length p + 1) b) with (p ++ [m] ++ drop (length p + 1) b).
    rewrite app_assoc. f_equal.
    apply (f_equal (take (length p + 1))) in E. rewrite take_app_le in E by lia. rewrite E.
    change (p ++ m :: q) with (p ++ [m] ++ q). rewrite app_assoc, take_app_length'; [done|].
    rewrite length_app. done.
  - assert (Ep : exists s, p = b ++ s /\ s ++ m :: q = n :: rem).
    { exists (drop (length b) p). pose proof (f_equal (drop (length b)) E) as Ed.
      rewrite drop_app_length, drop_app_le in Ed by lia. split; [|done].
      apply (f_equal (take (length b))) in E. rewrite take_app_length, take_app_le in E by lia.
      rewrite E at 1. by rewrite take_drop. }
    destruct Ep as (s & -> & Es). specialize (Hnone (Hp b s eq_refl)).
    destruct s as [|s0 s]; cbn in Es; injection Es as E1 E2.
    + rewrite app_nil_r, E1, Hnone. done.
    + subst s0. pose proof (Hp (b ++ [n]) s ltac:(by rewrite <- app_assoc)) as Hx.
      by rewrite node_at_snoc, Hnone in Hx.
Qed.

(** ** The walk-up loop *)

Lemma resolve_app fs p b : resolve Follow fs p = Ok b ->
  exists k', forall mode rest, rest <> [] ->
    resolve mode fs (p ++ rest) = walk mode (nodes fs) k' b rest.
Proof.
  unfold resolve.
  destruct p as [|[] p]; [done|apply (walk_app _ _ _ (RootDir :: p))|..]; cbn [app];
    (destruct (cwd fs) as [d|]; [|done]).
  - apply (walk_app _ _ _ (CurDir :: p)).
  - apply (walk_app _ _ _ (ParentDir :: p)).
  - apply (walk_app _ _ _ (Normal name :: p)).
Qed.

Lemma canonicalize_Ok fs p out : canonicalize fs p = Ok out <->
  exists l, resolve_at Follow fs p = Ok l /\ out = canon l.
Proof. unfold canonicalize. rewrite rbind_Ok. naive_solver. Qed.

Lemma canonicalize_text_Ok fs s out : canonicalize_text fs s = Ok out <->
  exists l, resolve_text Follow fs s = Ok l /\ out = canon l.
Proof. unfold canonicalize_text. rewrite rbind_Ok. naive_solver. Qed.

Lemma resolve_text_Ok mode fs s l : resolve_text mode fs s = Ok l -> resolve mode fs (kernel_components s) = Ok l.
Proof. unfold resolve_text. by destruct (too_long s). Qed.

Lemma file_name_snoc p n : file_name p = Some n -> p = removelast p ++ [Normal n].
Proof.
  unfold file_name. destruct (last p) as [[| | |m]|] eqn:E; try done. intros [= ->].
  apply last_snoc_inv in E as [l ->]. by rewrite removelast_snoc.
Qed.

(** The name just behind the cursor was seen to be missing, and not to be a link. *)
Definition behind (fs : HostFs) (cursor : path) (rem : list bytes) : Prop :=
  match rem with
  | [] => True
  | n :: _ => too_long (path_text (cursor ++ [Normal n])) = false /\ exists_ fs (cursor ++ [Normal n]) = false /\
      is_link (symlink_metadata fs (cursor ++ [Normal n])) = false
  end.

Lemma behind_safe fs cursor b rem : fs_wf fs -> resolve Follow fs cursor = Ok b ->
  behind fs cursor rem -> safe (nodes fs) (b ++ rem).
Proof.
  intros W Hb Hrem. pose proof (resolve_real _ _ _ W Hb) as Hr.
  destruct rem as [|n rem]; [rewrite app_nil_r; by apply real_safe|].
  apply safe_app; [done|done|]. intros Hd. destruct Hrem as (Hshort & He & Hl).
  destruct (resolve_app _ _ _ Hb) as [k Hk].
  unfold exists_ in He. unfold symlink_metadata in Hl. rewrite resolve_at_short, Hk in He, Hl by done.
  rewrite walk_normal in He, Hl. rewrite (proj2 (search_ok _ _ tt) Hd) in He, Hl. cbn [rbind] in He, Hl.
  destruct (nodes fs !! (b ++ [n])) as [[c|c|t|]|] eqn:Ex; [|..|done];
    rewrite ?walk_nil in He, Hl; try done.
  by rewrite node_at_snoc, Ex in Hl.
Qed.

Lemma round_up fs cursor rem up name : resolve_round fs cursor rem = Up up name ->
  cursor = up ++ [Normal name] /\ (too_long (path_text cursor) = false -> behind fs up (name :: rem)).
Proof.
  unfold resolve_round. destruct (exists_ fs cursor) eqn:Ee; cbn; [done|].
  destruct (is_link (symlink_metadata fs cursor)) eqn:El; [done|].
  destruct (file_name cursor) as [n|] eqn:Ef; [|done]. pose proof (file_name_snoc _ _ Ef) as Es.
  unfold parent. unfold file_name in Ef. destruct (last cursor) as [[| | |m]|] eqn:Elast; try done.
  intros [= <- <-]. split; [done|]. rewrite Es in Ee, El |- *. rewrite removelast_snoc. done.
Qed.

Lemma round_done fs cursor rem out : fs_wf fs -> behind fs cursor rem ->
  resolve_round fs cursor rem = Done (Ok out) ->
  exists l, out = canon l /\ safe (nodes fs) l.
Proof.
  intros W Hb. unfold resolve_round. destruct (_ && _); [done|].
  destruct (exists_ fs cursor); [|repeat case_match; done].
  intros [= H]. apply rbind_Ok in H as (base & Hc%map_err_Ok & [= <-]).
  apply canonicalize_Ok in Hc as (b & Hr & ->).
  exists (b ++ rem). unfold canon. rewrite map_app. split; [done|]. apply resolve_at_Ok in Hr as [Hr _]. by eapply behind_safe.
Qed.

Lemma resolve_loop_safe fs fuel cursor rem out : fs_wf fs -> too_long (path_text cursor) = false -> behind fs cursor rem ->
  resolve_loop fuel fs cursor rem = Some (Ok out) ->
  exists l, out = canon l /\ safe (nodes fs) l.
Proof.
  intros W. revert cursor rem. induction fuel as [|fuel IH]; intros cursor rem Hs Hb; cbn; [done|].
  destruct (resolve_round fs cursor rem) as [r|up name] eqn:Er.
  - intros [= ->]. by eapply round_done.
  - apply round_up in Er as [-> Hb']. apply IH; [by eapply too_long_prefix|by apply Hb'].
Qed.

(** Each round ends the loop or takes a component off the cursor. *)
Lemma resolve_loop_ends fs fuel cursor rem : (length cursor < fuel)%nat ->
  exists r, resolve_loop fuel fs cursor rem = Some r.
Proof.
  revert cursor rem. induction fuel as [|fuel IH]; intros cursor rem Hf; [lia|]. cbn.
  destruct (resolve_round fs cursor rem) as [r|up name] eqn:Er; [by exists r|].
  apply round_up in Er as [-> _]. apply IH. rewrite length_app in Hf. cbn in Hf. lia.
Qed.

Lemma resolve_for_write_ends fs raw : exists r, resolve_for_write fs raw = Some r.
Proof.
  unfold resolve_for_write. case_bool_decide; [eauto|]. destruct (exists_ _ _); [eauto|].
  destruct (is_link _); [eauto|]. destruct (absolute_path _ _) as [a|]; [|eauto].
  apply resolve_loop_ends. lia.
Qed.

(** No path the check asks about is longer than the kernel takes. *)
Definition askable (fs : HostFs) (raw : bytes) : Prop :=
  forall q, absolute_path fs (normalize_destination (components raw)) = Some q -> too_long (path_text q) = false.

Lemma resolve_for_write_safe fs raw out : fs_wf fs -> askable fs raw -> resolve_for_write fs (components raw) = Some (Ok out) ->
  exists l, out = canon l /\ safe (nodes fs) l.
Proof.
  intros W Hs. unfold resolve_for_write. case_bool_decide; [done|].
  destruct (exists_ _ _).
  - intros [= H1]. apply map_err_Ok, canonicalize_Ok in H1 as (l & [Hl _]%resolve_at_Ok & ->). exists l. split; [done|].
    by apply real_safe, (resolve_real _ _ _ W Hl).
  - destruct (is_link _); [done|]. unfold askable in Hs.
    destruct (absolute_path _ _) as [a|]; [|done]. by apply resolve_loop_safe; [|apply Hs|].
Qed.

(** C36: The check always answers: the loop takes a component off its cursor in every round, so one
    more round than the destination has components is enough, whatever the tree and its links. *)
Theorem check_terminates io fs home raw access :
  (exists r, check io fs home raw access = Some r) /\
  forall fuel cursor rem, (length cursor < fuel)%nat ->
    resolve_loop fuel fs cursor rem = resolve_loop (S (length cursor)) fs cursor rem /\
    is_Some (resolve_loop fuel fs cursor rem).
Proof.
  split.
  - unfold check. destruct (negb _); [eauto|]. destruct (beq raw []); [eauto|].
    destruct (starts_with _ raw); [eauto|]. destruct access; cbn; [eauto|].
    destruct (resolve_for_write_ends fs (components raw)) as [r ->]. eauto.
  - intros fuel. induction fuel as [|fuel IH]; intros cursor rem Hf; [lia|].
    destruct (resolve_loop_ends fs (S fuel) cursor rem Hf) as [r Hr]. split; [|by rewrite Hr; eexists].
    cbn. destruct (resolve_round fs cursor rem) as [r'|up name] eqn:Er; [done|].
    apply round_up in Er as [-> _]. rewrite length_app, Nat.add_1_r in *.
    apply IH. lia.
Qed.

(** ** What an accepted path is *)

(** Along a safe path it makes no difference whether a link at the end is followed. *)
Lemma walk_modes nodes k at_ rest : safe nodes (at_ ++ rest) ->
  (rest <> [] -> forall p1 p2, at_ = p1 ++ p2 -> p2 <> [] -> node_at nodes p1 = Some (Dir true)) ->
  walk NoFollow nodes k at_ (map Normal rest) = walk Follow nodes k at_ (map Normal rest).
Proof.
  revert at_. induction rest as [|n rest IH]; intros at_ Hs Hp; cbn [map]; [by rewrite !walk_nil|].
  rewrite !walk_normal. destruct (search nodes at_) as [u|e] eqn:Hu; [|done]. cbn [rbind].
  apply search_ok in Hu.
  assert (Hst : searchable_to nodes at_).
  { intros p1 p2 E. destruct p2 as [|c p2]; [rewrite app_nil_r in E; by subst p1|].
    by eapply (Hp ltac:(done) p1 (c :: p2)). }
  assert (Hnl : is_link (nodes !! (at_ ++ [n])) = false) by (apply (Hs at_ n rest); done).
  assert (Hgo : walk NoFollow nodes k (at_ ++ [n]) (map Normal rest)
    = walk Follow nodes k (at_ ++ [n]) (map Normal rest)).
  { apply IH; [by rewrite <- app_assoc|].
    intros _ p1 p2 E Hne. destruct p2 as [|x p2 _] using rev_ind; [done|].
    rewrite app_assoc in E. apply app_inj_tail in E as [-> ->]. by eapply Hst. }
  destruct (nodes !! (at_ ++ [n])) as [[]|]; done.
Qed.

Lemma canon_safe mode fs l q : safe (nodes fs) l -> resolve mode fs (canon l) = Ok q -> q = l.
Proof.
  intros Hs. unfold resolve, canon. rewrite walk_root. apply walk_safe; [done|].
  intros _ p1 p2 E Hne. symmetry in E. apply app_eq_nil in E as [_ ?]. done.
Qed.

Lemma resolve_canon_safe mode fs l q : safe (nodes fs) l -> resolve_at mode fs (canon l) = Ok q -> q = l.
Proof. intros Hs [Hr _]%resolve_at_Ok. by eapply canon_safe. Qed.

Lemma lstat_canon_safe fs l x : safe (nodes fs) l -> resolve_at Follow fs (canon l) = Ok l ->
  node_at (nodes fs) l = Some x -> symlink_metadata fs (canon l) = Some x.
Proof.
  intros Hs Hr Hx. unfold symlink_metadata.
  assert (E : resolve_at NoFollow fs (canon l) = resolve_at Follow fs (canon l)).
  { apply resolve_at_Ok in Hr as [_ Hr]. rewrite !resolve_at_short by done. unfold resolve, canon. rewrite !walk_root. apply walk_modes; [done|].
    intros _ p1 p2 E Hne. symmetry in E. apply app_eq_nil in E as [_ ?]. done. }
  by rewrite E, Hr.
Qed.

Lemma guard_Ok io fs home p out : guard io fs home p = Ok out ->
  out = p /\
  (forall s, state_dir fs home = Some s -> ~ s `prefix_of` p) /\
  (forall n, symlink_metadata fs p = Some (File n) -> (n <= 1)%N) /\
  (forall r, root io = Some r -> r `prefix_of` p).
Proof.
  unfold guard, path_starts_with. intros (u1 & H1 & (u2 & H2 & H3)%rbind_Ok)%rbind_Ok.
  assert (E : out = p /\ forall r, root io = Some r -> r `prefix_of` p).
  { destruct (root io) as [r|]; [|naive_solver].
    destruct (bool_decide _) eqn:Eb; [|done]. reflect_bools. naive_solver. }
  destruct E as [-> Hroot]. split; [done|]. split; [|split; [|done]].
  - intros s Es. rewrite Es in H1. destruct (bool_decide _) eqn:Eb; [done|]. by reflect_bools.
  - intros n En. rewrite En in H2. destruct (1 <? n)%N eqn:E1; [done|]. by reflect_bools.
Qed.

(** An accepted path is the path of a place no link stands before, inside the root, outside the state
    directory. *)
Lemma check_safe io fs home raw access p : fs_wf fs -> (access = Write -> askable fs raw) ->
  check io fs home raw access = Some (Ok p) ->
  (match access with Read => read_enabled io | Write => write_enabled io end) = true /\
  exists l, p = canon l /\ safe (nodes fs) l /\
    (forall r, root io = Some r -> r `prefix_of` p) /\
    (forall s, state_dir fs home = Some s -> ~ s `prefix_of` p) /\
    (forall n, symlink_metadata fs p = Some (File n) -> (n <= 1)%N) /\
    (access = Read -> resolve_text Follow fs raw = Ok l /\ real (nodes fs) l).
Proof.
  intros W Ha. unfold check. destruct (match access with Read => _ | _ => _ end) eqn:Een; [|done]. cbn [negb].
  destruct (beq raw []); [done|]. destruct (starts_with _ raw); [done|].
  set (resolved := match access with Read => _ | _ => _ end). intros H. split; [done|].
  destruct resolved as [r|] eqn:Er; cbn in H; [|done]. injection H as H.
  apply rbind_Ok in H as (out & -> & Hg). apply guard_Ok in Hg as (-> & Hst & Hlinks & Hroot).
  assert (Hl : exists l, out = canon l /\ safe (nodes fs) l /\
    (access = Read -> resolve_text Follow fs raw = Ok l /\ real (nodes fs) l)).
  { destruct access.
    - injection Er as H1. apply map_err_Ok, canonicalize_text_Ok in H1 as (l & Hl & ->).
      pose proof (resolve_real _ _ _ W (resolve_text_Ok _ _ _ _ Hl)) as Hr. exists l. split; [done|].
      split; [by apply real_safe|]. done.
    - apply resolve_for_write_safe in Er as (l & -> & Hs); [|done|by apply Ha]. by exists l. }
  destruct Hl as (l & -> & Hs & Hread). by exists l.
Qed.

(** C10: A path the server is handed back for the model's argument is the place it names: whatever
    spelling the caller chose and whatever links stand in the tree, opening the accepted path, to
    read it or to make it, now or after files and directories were added, leads to exactly that
    place; the place is under the confinement root and not under isopod's state directory, and
    the file there has no other name.  A path to read exists and is what the argument resolves
    to.  A switched-off argument is never accepted.  Of a destination this needs that it is, from the
    root, of fewer than [PATH_MAX] bytes: see [long_path_unchecked]. *)
Theorem check_confined io fs home raw access p : fs_wf fs -> (access = Write -> askable fs raw) ->
  check io fs home raw access = Some (Ok p) ->
  (match access with Read => read_enabled io | Write => write_enabled io end) = true /\
  exists l, p = canon l /\
    (forall r, root io = Some r -> r `prefix_of` p) /\
    (forall s, state_dir fs home = Some s -> ~ s `prefix_of` p) /\
    (forall fs' mode q, grown fs fs' -> resolve_at mode fs' p = Ok q -> q = l) /\
    (forall n, resolve_at Follow fs p = Ok l -> node_at (nodes fs) l = Some (File n) -> (n <= 1)%N) /\
    (access = Read -> resolve_text Follow fs raw = Ok l /\ real (nodes fs) l).
Proof.
  intros W Ha H. apply check_safe in H as (Hen & l & -> & Hs & Hroot & Hst & Hlinks & Hread); [|done..].
  split; [done|]. exists l. split; [done|]. split; [done|]. split; [done|]. split; [|split; [|done]].
  - intros fs' mode q Hgr. apply resolve_canon_safe. by apply (safe_grown fs).
  - intros n Hr Hn. apply Hlinks. by apply lstat_canon_safe.
Qed.

(** ** The policy's root *)

Lemma canonicalize_absolute fs p out : canonicalize fs p = Ok out -> is_absolute out = true.
Proof. intros (l & _ & ->)%canonicalize_Ok. done. Qed.

Lemma canonicalize_text_absolute fs s out : canonicalize_text fs s = Ok out -> is_absolute out = true.
Proof. intros (l & _ & ->)%canonicalize_text_Ok. done. Qed.

(** The environment never makes a root that admits everything or that the operator did not see:
    the policy is unconfined only if the root that was named, or the working directory, is [/]
    itself; any root it has is absolute and names at least one directory. *)
Theorem root_from_env_sound fs env :
  match root_from_env fs env with
  | Some r => is_absolute r = true /\ (2 <= length r)%nat
  | None => from_cwd fs = [RootDir] \/
      exists v, env (B "ISOPOD_MCP_HOST_IO_ROOT") = Some v /\ beq (trim (from_utf8_lossy v)) [] = false /\
        (canonicalize_text fs v = Ok [RootDir] \/ components v = [RootDir])
  end.
Proof.
  unfold root_from_env. set (resolved := match env _ with Some _ => _ | None => _ end).
  case_bool_decide as Hr.
  - subst resolved. destruct (env _) as [v|]; [|by left].
    destruct (beq v [] || _) eqn:Ev; [by left|]. reflect_bools. right. exists v.
    split; [done|]. split; [done|].
    destruct (canonicalize_text fs v) eqn:Ec; [left; congruence|by right].
  - destruct (negb _ || _) eqn:Eb; [split; [done|vm_compute; lia]|]. reflect_bools. done.
Qed.

(** The switches: unset is on, and every value that is not one of five affirmative words is off.
    A value that is not UTF-8 counts as unset. *)
Theorem off_spec env name :
  off env name = match env name with
    | Some v => is_utf8 v && negb (existsb (beq (to_ascii_lowercase (trim v)))
        [B "on"; B "1"; B "true"; B "yes"; B "enabled"])
    | None => false
    end.
Proof. unfold off, env_var. destruct (env name) as [v|]; [|done]. by destruct (is_utf8 v). Qed.

(** A switch set to bytes that are not UTF-8 is on, although it is set and not affirmative. *)
Example off_not_utf8 : off (fun _ => Some (B "off" ++ ["255"%char])) (B "ISOPOD_MCP_HOST_IO") = false.
Proof. reflexivity. Qed.

(** ** What is accepted *)

Lemma walk_searchable mode nodes k at_ p rest : searchable_to nodes (at_ ++ p) ->
  walk mode nodes k at_ (map Normal p ++ rest) = walk mode nodes k (at_ ++ p) rest.
Proof.
  revert at_. induction p as [|n p IH]; intros at_ Hs; cbn [map app]; [by rewrite app_nil_r|].
  change (n :: p) with ([n] ++ p) in Hs |- *. rewrite app_assoc in Hs |- *.
  pose proof (Hs (at_ ++ [n]) p eq_refl) as Hn. rewrite node_at_snoc in Hn.
  rewrite walk_normal, (proj2 (search_ok _ _ tt)).
  - cbn [rbind]. rewrite Hn. by apply IH.
  - apply (Hs at_ ([n] ++ p)). by rewrite app_assoc.
Qed.

Lemma filter_canon l : List.filter not_cur (canon l) = canon l.
Proof.
  unfold canon. cbn. f_equal. induction l as [|n l IH]; [done|]. cbn. by rewrite IH.
Qed.

Lemma last_canon d n : last (canon (d ++ [n])) = Some (Normal n) /\ removelast (canon (d ++ [n])) = canon d.
Proof.
  unfold canon. rewrite map_app. change (RootDir :: map Normal d ++ map Normal [n])
    with ((RootDir :: map Normal d) ++ [Normal n]). by rewrite last_snoc, removelast_snoc.
Qed.

Lemma resolve_fresh fs mode d n : too_long (path_text (canon (d ++ [n]))) = false ->
  searchable_to (nodes fs) d -> nodes fs !! (d ++ [n]) = None ->
  resolve_at mode fs (canon (d ++ [n])) = match mode with Create => Ok (d ++ [n]) | _ => Err ENOENT end.
Proof.
  intros Hs Hd Hn. rewrite resolve_at_short by done. unfold resolve, canon. rewrite walk_root, map_app, walk_searchable by done.
  cbn [map app]. rewrite walk_normal, (proj2 (search_ok _ _ tt)); [cbn [rbind]; by rewrite Hn; destruct mode|].
  apply (Hd d []). by rewrite app_nil_r.
Qed.

Lemma resolve_dir fs mode d : too_long (path_text (canon d)) = false -> searchable_to (nodes fs) d -> resolve_at mode fs (canon d) = Ok d.
Proof.
  intros Hs Hd. rewrite resolve_at_short by done. unfold resolve, canon. rewrite walk_root, <- (app_nil_r (map Normal d)).
  rewrite walk_searchable by done. by rewrite walk_nil.
Qed.

(** A new file in a directory the server can search is accepted, as it is written, if it is under
    the root and not under the state directory; [File::create] then makes it right there. *)
Theorem check_accepts_new_file io fs home raw d n :
  write_enabled io = true -> starts_with (B "~") raw = false -> components raw = canon (d ++ [n]) ->
  too_long (path_text (canon (d ++ [n]))) = false -> searchable_to (nodes fs) d -> nodes fs !! (d ++ [n]) = None ->
  (forall r, root io = Some r -> r `prefix_of` canon (d ++ [n])) ->
  (forall s, state_dir fs home = Some s -> ~ s `prefix_of` canon (d ++ [n])) ->
  check io fs home raw Write = Some (Ok (canon (d ++ [n]))) /\
  created_at fs (canon (d ++ [n])) = Ok (d ++ [n]).
Proof.
  intros Hw Ht Hc Hs Hd Hn Hroot Hst. split; [|by apply (resolve_fresh fs Create)].
  unfold check. rewrite Hw, Ht, Hc. cbn [negb].
  destruct (beq raw []) eqn:Eraw; [apply bool_decide_eq_true in Eraw as ->; done|].
  assert (Hex : exists_ fs (canon (d ++ [n])) = false)
    by (unfold exists_; by rewrite (resolve_fresh fs Follow)).
  assert (Hls : symlink_metadata fs (canon (d ++ [n])) = None)
    by (unfold symlink_metadata; by rewrite (resolve_fresh fs NoFollow)).
  assert (Hres : resolve_for_write fs (canon (d ++ [n])) = Some (Ok (canon (d ++ [n])))).
  { unfold resolve_for_write, normalize_destination. rewrite filter_canon, Hex, Hls. cbn [is_link].
    change (absolute_path fs (canon (d ++ [n]))) with (Some (canon (d ++ [n]))). cbv iota.
    rewrite bool_decide_eq_false_2 by done.
    assert (Hl : length (canon (d ++ [n])) = S (length (canon d))).
    { unfold canon. cbn. rewrite !length_map, length_app. cbn. lia. }
    rewrite Hl. cbn [resolve_loop]. unfold resolve_round at 1. rewrite Hex, Hls. cbn [negb is_link andb].
    unfold file_name, parent. destruct (last_canon d n) as [-> ->].
    unfold resolve_round, exists_, canonicalize. rewrite (resolve_dir fs Follow d); [|by apply (too_long_prefix _ [Normal n]); unfold canon in *; rewrite map_app in Hs|done]. cbn.
    unfold canon. by rewrite map_app. }
  rewrite Hres. cbn [option_map rbind]. f_equal. unfold guard, path_starts_with. rewrite Hls.
  destruct (state_dir fs home) as [s|]; [rewrite bool_decide_eq_false_2 by auto|]; cbn [rbind];
    (destruct (root io) as [r|]; [by rewrite bool_decide_eq_true_2 by auto|done]).
Qed.

(** ** A small host

    [/w] is the root with a link out of it, a dangling link and a file with two names; [/h] holds
    isopod's state. *)
Definition demo_fs : HostFs := {|
  nodes := {[ [B "w"] := Dir true; [B "w"; B "out"] := Link (B "/h"); [B "w"; B "gone"] := Link (B "/h/x");
              [B "w"; B "two"] := File 2; [B "w"; B "f"] := File 1; [B "h"] := Dir true ]};
  cwd := Some [B "w"] |}.
Definition demo_io : HostIo := MkHostIo (Some (canon [B "w"])) true true.

Lemma demo_fs_wf : fs_wf demo_fs.
Proof.
  split.
  - assert (Hall : forall l x, nodes demo_fs !! l = Some x -> l = [B "h"] \/ l = [B "w"] \/ exists m, l = [B "w"; m]).
    { intros l x Hl. unfold demo_fs in Hl. cbn [nodes] in Hl.
      repeat (apply lookup_insert_Some in Hl as [[<- _]|[_ Hl]]; [eauto|]).
      apply lookup_singleton_Some in Hl as [<- _]. eauto. }
    intros p n x [E|[E|[m E]]]%Hall.
    + change [B "h"] with ([] ++ [B "h"]) in E. apply app_inj_tail in E as [-> _]. by exists true.
    + change [B "w"] with ([] ++ [B "w"]) in E. apply app_inj_tail in E as [-> _]. by exists true.
    + change [B "w"; m] with ([B "w"] ++ [m]) in E. apply app_inj_tail in E as [-> _]. by exists true.
  - intros d [= <-]. by exists true.
Qed.

Lemma check_confined_witness :
  check demo_io demo_fs (Some (B "/h")) (B "new/./x") Write = Some (Ok (canon [B "w"; B "new"; B "x"])) /\
  check demo_io demo_fs (Some (B "/h")) (B "gone/") Write = Some (Err (DanglingLink [Normal (B "gone")])) /\
  check demo_io demo_fs (Some (B "/h")) (B "two") Read = Some (Err (HardLinks 2)) /\
  canon [B "w"] `prefix_of` canon [B "w"; B "new"; B "x"].
Proof.
  assert (E : check demo_io demo_fs (Some (B "/h")) (B "new/./x") Write
    = Some (Ok (canon [B "w"; B "new"; B "x"]))) by (vm_compute; reflexivity).
  split; [exact E|]. split; [vm_compute; reflexivity|]. split; [vm_compute; reflexivity|].
  destruct (fun Ha => check_confined demo_io demo_fs (Some (B "/h")) (B "new/./x") Write _ demo_fs_wf Ha E) as (_ & l & _ & Hr & _).
  - intros _ q Hq. vm_compute in Hq. injection Hq as <-. vm_compute. reflexivity.
  - by apply Hr.
Defined.

Lemma check_accepts_new_file_witness :
  check demo_io demo_fs (Some (B "/h")) (B "/w/a") Write = Some (Ok (canon [B "w"; B "a"])).
Proof.
  assert (Hs : searchable_to (nodes demo_fs) [B "w"]).
  { apply (searchable_to_snoc _ [] (B "w")); [apply searchable_nil|reflexivity]. }
  refine (proj1 (check_accepts_new_file demo_io demo_fs (Some (B "/h")) (B "/w/a") [B "w"] (B "a")
    eq_refl eq_refl eq_refl eq_refl Hs eq_refl _ _)).
  - intros r [= <-]. by exists [Normal (B "a")].
  - intros s Es. vm_compute in Es. injection Es as <-. intros [k Hk]. vm_compute in Hk. done.
Defined.

Lemma check_terminates_witness :
  resolve_loop 4 demo_fs (canon [B "w"; B "no"; B "x"]) [] = Some (Ok (canon [B "w"; B "no"; B "x"])) /\
  resolve_loop 9 demo_fs (canon [B "w"; B "no"; B "x"]) [] = Some (Ok (canon [B "w"; B "no"; B "x"])).
Proof.
  assert (E : resolve_loop 5 demo_fs (canon [B "w"; B "no"; B "x"]) []
    = Some (Ok (canon [B "w"; B "no"; B "x"]))) by (vm_compute; reflexivity).
  split; [vm_compute; reflexivity|]. rewrite <- E.
  refine (proj1 (proj2 (check_terminates demo_io demo_fs None [] Read) 9%nat _ [] _)).
  cbn. lia.
Defined.

(** A destination longer than the kernel takes is checked with calls that all fail.  With [/w/out] a link to
    isopod's state directory, [/w/d/../out/x] is refused; with the step through [d] taken 818 times it is
    handed back as [/w/out/x], of which nothing was asked, and a file made there is made in the state
    directory. *)
Definition steps_to (k : nat) (names : list bytes) : path :=
  RootDir :: Normal (B "w") :: concat (repeat [Normal (B "d"); ParentDir] k) ++ map Normal names.

Definition steps_fs : HostFs := MkHostFs (<[[B "w"; B "d"] := Dir true]> (nodes demo_fs)) (cwd demo_fs).

Example long_path_unchecked :
  check demo_io steps_fs (Some (B "/h")) (path_text (steps_to 1 [B "out"; B "x"])) Write =
    Some (Err (InStateDir (canon [B "h"; B "x"]) (canon [B "h"]))) /\
  check demo_io steps_fs (Some (B "/h")) (path_text (steps_to 818 [B "out"; B "x"])) Write = Some (Ok (canon [B "w"; B "out"; B "x"])) /\
  created_at steps_fs (canon [B "w"; B "out"; B "x"]) = Ok [B "h"; B "x"].
Proof. vm_compute. repeat split. Qed.
