(* ===== verification/Ids.v ===== *)
(** * Validated identifiers ([crates/fc-client/src/id.rs])

    [VmId] and [IfName] are strings with a private field and one validating constructor each.
    Rust's strings are UTF-8 and the constructors look at characters, so the inputs here are
    bytes with [is_utf8]; the types' invariants are about the bytes the kernel and Firecracker
    see. *)
From S2P Require Import Prelude Text.

Definition VM_ID_MAX_LEN : nat := 60.
Definition IF_NAME_MAX_LEN : nat := 15.

Inductive IdError : Type :=
  | Empty
  | TooLong (len : nat)
  | InvalidChar (ch : N)
  | IfNameTooLong (len : nat)
  | IfNameInvalidChar (ch : N).

Record VmId : Type := MkVmId { vm_id : bytes }.
Record IfName : Type := MkIfName { if_name : bytes }.

(** [char::is_ascii_alphanumeric], [char::is_control] *)
Definition char_alphanumeric (c : N) : bool :=
  ((48 <=? c) && (c <=? 57) || (65 <=? c) && (c <=? 90) || (97 <=? c) && (c <=? 122))%N.
Definition char_control (c : N) : bool := ((c <? 32) || (127 <=? c) && (c <=? 159))%N.

Definition vm_id_char (c : N) : bool := char_alphanumeric c || (c =? 95)%N || (c =? 45)%N.

Definition VmId_new (s : bytes) : result VmId IdError :=
  if beq s [] then Err Empty
  else if (VM_ID_MAX_LEN <? length s)%nat then Err (TooLong (length s))
  else match List.find (fun c => negb (vm_id_char c)) (chars s) with
       | Some ch => Err (InvalidChar ch)
       | None => Ok (MkVmId s)
       end.

Definition if_name_bad (c : N) : bool :=
  is_whitespace c || char_control c || (c =? 47)%N || (c =? 58)%N.

Definition IfName_new (s : bytes) : result IfName IdError :=
  if beq s [] then Err Empty
  else if (IF_NAME_MAX_LEN <? length s)%nat then Err (IfNameTooLong (length s))
  else match List.find if_name_bad (chars s) with
       | Some ch => Err (IfNameInvalidChar ch)
       | None => Ok (MkIfName s)
       end.

Definition ifname_with_prefix (v : VmId) (prefix : bytes) : result IfName IdError :=
  IfName_new (prefix ++ vm_id v).

(** [Display], then [FromStr]. *)
Definition show_vm_id (v : VmId) : bytes := vm_id v.
Definition vm_id_from_str (s : bytes) : result VmId IdError := VmId_new s.

(** ** Characters and bytes *)

(** A string whose characters are all ASCII is its characters, byte by byte. *)
Lemma ascii_chars s : is_utf8 s = true -> Forall (fun c => (c < 128)%N) (chars s) -> chars s = map code s.
Proof.
  intros Hs. rewrite <- (is_utf8_concat s Hs) at 3. unfold is_utf8 in Hs. unfold chars.
  pose proof (utf8_items_wf s) as Hwf.
  induction (utf8_items s) as [|i l IH]; [done|]. inversion Hwf as [|? ? Hi Hl]; subst.
  cbn in Hs. apply andb_true_iff in Hs as [Hc Hs]. destruct i as [c raw|]; [|done].
  cbn [omap list_omap map concat item_bytes]. intros [Hlt Hall]%Forall_cons.
  rewrite map_app, <- IH by done. cbn in Hi.
  destruct raw as [|b [|b' raw]]; [lia|by subst c|destruct Hi; lia].
Qed.

Lemma chars_ascii s : Forall (fun b => (code b < 128)%N) s -> is_utf8 s = true /\ chars s = map code s.
Proof.
  induction s as [|b s IH]; [done|]. intros [Hb Hs]%Forall_cons. destruct (IH Hs) as [H1 H2].
  unfold is_utf8, chars in *. cbn [utf8_items]. rewrite (proj2 (N.ltb_lt _ _) Hb). cbn. by rewrite H1, H2.
Qed.

Lemma find_none_Forall {A} (p : A -> bool) l : List.find p l = None <-> Forall (fun x => p x = false) l.
Proof.
  split.
  - intros H. apply Forall_forall. intros x Hx. eapply find_none; [exact H|by apply list_elem_of_In].
  - induction 1 as [|x l Hx _ IH]; [done|]. cbn. by rewrite Hx.
Qed.

(** ** The invariants of the types *)

(** [[A-Za-z0-9_-]{1,60}] *)
Definition vm_id_ok (s : bytes) : Prop :=
  (1 <= length s <= VM_ID_MAX_LEN)%nat /\
  Forall (fun b => is_ascii_alphanumeric b || Ascii.eqb b "_" || Ascii.eqb b "-" = true) s.

(** No longer than the kernel allows, and none of the characters it refuses. *)
Definition if_name_ok (s : bytes) : Prop :=
  (1 <= length s <= IF_NAME_MAX_LEN)%nat /\
  Forall (fun b => is_ascii_control b = false /\ b <> " "%char /\ b <> "/"%char /\ b <> ":"%char) s.

Lemma vm_id_char_byte b : vm_id_char (code b) = is_ascii_alphanumeric b || Ascii.eqb b "_" || Ascii.eqb b "-".
Proof.
  assert (H : forallb (fun b => Bool.eqb (vm_id_char (code b)) (is_ascii_alphanumeric b || Ascii.eqb b "_" || Ascii.eqb b "-"))
    every_byte = true) by (vm_compute; reflexivity).
  rewrite forallb_forall in H. apply eqb_prop, H, every_byte_complete.
Qed.

Lemma vm_id_char_ascii c : vm_id_char c = true -> (c < 128)%N.
Proof.
  unfold vm_id_char, char_alphanumeric. rewrite !orb_true_iff, !andb_true_iff, !N.leb_le, !N.eqb_eq. lia.
Qed.

Lemma not_blank_length (s : bytes) : beq s [] = false <-> (1 <= length s)%nat.
Proof. unfold beq. rewrite bool_decide_eq_false. destruct s; cbn; [split; [done|lia]|split; [lia|done]]. Qed.

(** C38: A [VmId] is exactly a string of Firecracker's grammar: every value the constructor makes
    matches it, byte by byte, every string that matches is accepted and kept as it is, and its
    printed form reads back as the same value. *)
Theorem vm_id_type s (Hs : is_utf8 s = true) :
  (forall v, VmId_new s = Ok v -> vm_id v = s /\ vm_id_ok (vm_id v) /\
     vm_id_from_str (show_vm_id v) = Ok v) /\
  (vm_id_ok s -> VmId_new s = Ok (MkVmId s)).
Proof.
  assert (Hiff : forall v, VmId_new s = Ok v <-> v = MkVmId s /\ vm_id_ok s).
  { intros v. unfold VmId_new, vm_id_ok.
    destruct (beq s []) eqn:E1.
    { split; [done|]. intros (_ & Hl & _). assert (beq s [] = false) by (apply not_blank_length; lia). congruence. }
    apply not_blank_length in E1.
    destruct (VM_ID_MAX_LEN <? length s)%nat eqn:E2; reflect_bools; [split; [done|intros (_ & Hl & _); lia]|].
    destruct (List.find _ (chars s)) as [ch|] eqn:Ef.
    - split; [done|]. intros (_ & _ & Hall). exfalso.
      assert (Hasc : Forall (fun b => (code b < 128)%N) s).
      { eapply Forall_impl; [exact Hall|]. intros b Hbb. apply vm_id_char_ascii. by rewrite vm_id_char_byte. }
      apply chars_ascii in Hasc as [_ Hc]. rewrite Hc in Ef. apply find_some in Ef as [Hin Hn].
      apply in_map_iff in Hin as (b & <- & Hin). rewrite Forall_forall in Hall.
      apply list_elem_of_In in Hin. rewrite vm_id_char_byte, (Hall b Hin) in Hn. done.
    - apply find_none_Forall in Ef.
      assert (Hc : chars s = map code s).
      { apply ascii_chars; [done|]. eapply Forall_impl; [exact Ef|]. intros c Hc.
        apply vm_id_char_ascii. by apply negb_false_iff. }
      rewrite Hc, Forall_map in Ef.
      assert (Hall : Forall (fun b => is_ascii_alphanumeric b || Ascii.eqb b "_" || Ascii.eqb b "-" = true) s).
      { eapply Forall_impl; [exact Ef|]. intros b Hbb. cbn in Hbb. apply negb_false_iff in Hbb.
        by rewrite vm_id_char_byte in Hbb. }
      split; [intros [= <-]; done|by intros [-> _]]. }
  split.
  - intros v Hv. pose proof Hv as [-> Hok]%Hiff. done.
  - intros Hok. by apply Hiff.
Qed.

Lemma vm_id_type_witness :
  is_utf8 (B "dev-8f3a") = true /\ VmId_new (B "dev-8f3a") = Ok (MkVmId (B "dev-8f3a")) /\
  vm_id_from_str (show_vm_id (MkVmId (B "dev-8f3a"))) = Ok (MkVmId (B "dev-8f3a")) /\
  VmId_new (B "def6.1-1") = Err (InvalidChar 46).
Proof.
  assert (H : is_utf8 (B "dev-8f3a") = true) by reflexivity.
  split; [exact H|]. split; [reflexivity|]. split; [|reflexivity].
  apply (proj1 (vm_id_type _ H)). reflexivity.
Defined.

Lemma if_name_char_byte b : (code b < 128)%N ->
  if_name_bad (code b) = is_ascii_control b || Ascii.eqb b " " || Ascii.eqb b "/" || Ascii.eqb b ":".
Proof.
  assert (H : forallb (fun b => implb (code b <? 128)%N (Bool.eqb (if_name_bad (code b))
    (is_ascii_control b || Ascii.eqb b " " || Ascii.eqb b "/" || Ascii.eqb b ":"))) every_byte = true)
    by (vm_compute; reflexivity).
  rewrite forallb_forall in H. specialize (H b (every_byte_complete b)). intros Hb.
  apply N.ltb_lt in Hb. rewrite Hb in H. by apply eqb_prop.
Qed.

Definition if_byte_ok (b : ascii) : Prop :=
  is_ascii_control b = false /\ b <> " "%char /\ b <> "/"%char /\ b <> ":"%char.

Lemma high_if_byte b : (128 <= code b)%N -> if_byte_ok b.
Proof.
  intros H. split; [by apply high_not_control|].
  split; [|split]; intros ->; vm_compute in H; by apply H.
Qed.

Lemma if_name_bytes s : is_utf8 s = true -> Forall (fun c => if_name_bad c = false) (chars s) ->
  Forall if_byte_ok s.
Proof.
  intros Hs. rewrite <- (is_utf8_concat s Hs) at 2. unfold is_utf8 in Hs. unfold chars.
  pose proof (utf8_items_wf s) as Hwf.
  induction (utf8_items s) as [|i l IH]; [constructor|]. inversion Hwf as [|? ? Hi Hl]; subst.
  cbn in Hs. apply andb_true_iff in Hs as [Hc Hs]. destruct i as [c raw|]; [|done].
  cbn [omap list_omap map concat item_bytes]. intros [Hbad Hall]%Forall_cons.
  apply Forall_app. split; [|by apply IH]. cbn in Hi.
  assert (Hhigh : Forall (fun b => (128 <= code b)%N) raw -> Forall if_byte_ok raw).
  { intros Hr. eapply Forall_impl; [exact Hr|]. apply high_if_byte. }
  destruct raw as [|b [|b' raw]]; [constructor| |apply Hhigh; apply Hi]. subst c.
  constructor; [|done]. destruct (decide (code b < 128)%N) as [Hlt|Hge]; [|apply high_if_byte; lia].
  rewrite if_name_char_byte in Hbad by done. reflect_bools.
  repeat match goal with H : Ascii.eqb b _ = false |- _ => apply Ascii.eqb_neq in H end. done.
Qed.

(** An [IfName] fits the kernel's limit and has no byte the kernel refuses, whatever made it. *)
Lemma if_name_type s n : is_utf8 s = true -> IfName_new s = Ok n -> if_name n = s /\ if_name_ok (if_name n).
Proof.
  intros Hs. unfold IfName_new, if_name_ok. destruct (beq s []) eqn:E1; [done|].
  apply not_blank_length in E1.
  destruct (IF_NAME_MAX_LEN <? length s)%nat eqn:E2; reflect_bools; [done|].
  destruct (List.find _ _) eqn:Ef; [done|]. intros [= <-]. cbn. split; [done|]. split; [lia|].
  apply find_none_Forall in Ef. by apply if_name_bytes.
Qed.

(** With a plain ASCII prefix, a VM's interface name fails only by its length. *)
Lemma ifname_with_prefix_spec v prefix : vm_id_ok (vm_id v) ->
  Forall (fun b => (code b < 128)%N /\ if_byte_ok b) prefix ->
  ifname_with_prefix v prefix =
    let len := (length prefix + length (vm_id v))%nat in
    if (IF_NAME_MAX_LEN <? len)%nat then Err (IfNameTooLong len) else Ok (MkIfName (prefix ++ vm_id v)).
Proof.
  intros [Hl Hall] Hp. cbv zeta. unfold ifname_with_prefix, IfName_new. rewrite <- length_app.
  assert (Hb : beq (prefix ++ vm_id v) [] = false) by (apply not_blank_length; rewrite length_app; lia).
  rewrite Hb. destruct (_ <? _)%nat; [done|].
  assert (Hok : Forall (fun b => (code b < 128)%N /\ if_byte_ok b) (prefix ++ vm_id v)).
  { apply Forall_app. split; [done|]. eapply Forall_impl; [exact Hall|]. intros b Hbb.
    assert (H : forallb (fun b => implb (is_ascii_alphanumeric b || Ascii.eqb b "_" || Ascii.eqb b "-")
      ((code b <? 128)%N && negb (is_ascii_control b || Ascii.eqb b " " || Ascii.eqb b "/" || Ascii.eqb b ":")))
      every_byte = true) by (vm_compute; reflexivity).
    rewrite forallb_forall in H. specialize (H b (every_byte_complete b)). rewrite Hbb in H. cbn in H.
    reflect_bools. repeat match goal with H : Ascii.eqb b _ = false |- _ => apply Ascii.eqb_neq in H end.
    done. }
  assert (Hasc : Forall (fun b => (code b < 128)%N) (prefix ++ vm_id v))
    by (eapply Forall_impl; [exact Hok|]; naive_solver).
  apply chars_ascii in Hasc as [_ Hc]. rewrite (proj2 (find_none_Forall _ _)); [done|].
  rewrite Hc. apply Forall_map. eapply Forall_impl; [exact Hok|]. intros b [Hlt (H1 & H2 & H3 & H4)].
  cbn. rewrite if_name_char_byte by done. rewrite H1. apply Ascii.eqb_neq in H2, H3, H4.
  by rewrite H2, H3, H4.
Qed.
