(* ===== verification/Names.v ===== *)
(** * Names ([crates/core/src/names.rs])

    A machine or a stage has an id and, for people, a name: two words chosen by a hash of the id,
    with a suffix if the name is taken.  The hash is FNV-1a followed by a mixing function, on
    64-bit words: here numbers below [2 ^ 64], with the wrap-around of [wrapping_mul] written
    out. *)
From S2P Require Import Prelude Text.

Definition ADJECTIVES : list bytes := map B
  [ "radiant"; "taken"; "ascendant"; "lucent"; "umbral"; "solar"; "arc"; "void"; "stasis";
    "strand"; "gilded"; "dredgen"; "vaulted"; "whispered"; "hallowed"; "forsaken"; "risen";
    "fallen"; "hive"; "vex"; "cabal"; "scorn"; "awoken"; "exo"; "cryptic"; "splintered";
    "resilient"; "intrepid"; "cursed"; "blighted"; "radiolarian"; "ionic"; "cosmic"; "lunar";
    "martian"; "europan"; "nessian"; "wayward"; "shattered"; "resonant" ]%string.

Definition NOUNS : list bytes := map B
  [ "traveler"; "ghost"; "warmind"; "sparrow"; "gjallarhorn"; "thunderlord"; "icebreaker";
    "telesto"; "thorn"; "hawkmoon"; "sunshot"; "graviton"; "riskrunner"; "wardcliff";
    "borealis"; "cloudstrike"; "lament"; "divinity"; "witherhoard"; "servitor"; "dreg";
    "vandal"; "captain"; "kell"; "archon"; "ogre"; "knight"; "acolyte"; "thrall"; "wizard";
    "shrieker"; "hydra"; "minotaur"; "goblin"; "hobgoblin"; "harpy"; "cyclops"; "colossus";
    "legionary"; "phalanx"; "psion"; "warbeast"; "screeb"; "ahamkara"; "cryptarch"; "guardian";
    "saint"; "drifter"; "rasputin"; "cayde"; "ikora"; "zavala"; "shaxx"; "osiris"; "crota";
    "oryx"; "savathun"; "riven"; "saladin"; "efrideet"; "leviathan"; "dreadnaught";
    "cosmodrome"; "glimmer"; "shard"; "relic"; "vault"; "spire"; "wellspring"; "gambit";
    "crucible"; "vanguard"; "banshee" ]%string.

Definition wrapping_mul (a b : N) : N := ((a * b) mod 2 ^ 64)%N.

Definition fnv1a (s : bytes) : N :=
  fold_left (fun hash b => wrapping_mul (N.lxor hash (code b)) 0x100000001b3) s 0xcbf29ce484222325%N.

(** [h ^= h >> 33] *)
Definition xorshift (h : N) : N := N.lxor h (N.shiftr h 33).

Definition mix (h : N) : N :=
  let h := xorshift h in
  let h := wrapping_mul h 0xff51afd7ed558ccd in
  let h := xorshift h in
  let h := wrapping_mul h 0xc4ceb9fe1a85ec53 in
  xorshift h.

(** [WORDS[i % WORDS.len()]] *)
Definition word (words : list bytes) (i : N) : bytes :=
  nth (N.to_nat (i mod N.of_nat (length words))) words [].

Definition base_name (seed : bytes) : bytes :=
  let h := mix (fnv1a seed) in
  let adj := word ADJECTIVES (N.shiftr h 32) in
  let noun := word NOUNS (N.land h 0xffffffff) in
  adj ++ B "-" ++ noun.

(** [{:06x}] *)
Definition hex06 (n : N) : bytes :=
  let s := show_hex n in repeat "0"%char (6 - length s) ++ s.

Definition numbered (base : bytes) (n : N) : bytes := base ++ B "-" ++ show_N n.

Definition hex_name (seed : bytes) : bytes :=
  base_name seed ++ B "-" ++ hex06 (N.land (fnv1a seed) 0xffffff).

Definition unique_name (seed : bytes) (taken : bytes -> bool) : bytes :=
  let base := base_name seed in
  if negb (taken base) then base
  else
    match List.find (fun c => negb (taken c)) (map (numbered base) [2; 3; 4; 5; 6; 7; 8; 9]%N) with
    | Some candidate => candidate
    | None => hex_name seed
    end.

(** ** The mixing function loses nothing *)

Definition word64 (h : N) : Prop := (h < 2 ^ 64)%N.

Lemma word64_testbit h : word64 h <-> forall i, (64 <= i)%N -> N.testbit h i = false.
Proof.
  unfold word64. split.
  - intros Hh i Hi. destruct (N.eq_dec h 0) as [->|Hz]; [apply N.bits_0|].
    apply N.bits_above_log2. apply N.log2_lt_pow2 in Hh; lia.
  - intros Hb. destruct (N.eq_dec h 0) as [->|Hz]; [done|].
    apply N.log2_lt_pow2; [lia|]. apply N.nle_gt. intros Hle.
    specialize (Hb _ Hle). by rewrite N.bit_log2 in Hb.
Qed.

Lemma xorshift_word64 h : word64 h -> word64 (xorshift h).
Proof.
  rewrite !word64_testbit. intros Hh i Hi. unfold xorshift.
  rewrite N.lxor_spec, N.shiftr_spec by apply N.le_0_l. rewrite !Hh by lia. done.
Qed.

(** Shifting by more than half of the width, the step undoes itself. *)
Lemma xorshift_involutive h : word64 h -> xorshift (xorshift h) = h.
Proof.
  rewrite word64_testbit. intros Hh. apply N.bits_inj. intros i. unfold xorshift.
  rewrite !N.lxor_spec, !N.shiftr_spec, !N.lxor_spec, !N.shiftr_spec by apply N.le_0_l.
  rewrite (Hh (i + 33 + 33)%N) by lia.
  by destruct (N.testbit h i), (N.testbit h (i + 33)).
Qed.

Lemma wrapping_mul_word64 a b : word64 (wrapping_mul a b).
Proof. apply N.mod_lt. done. Qed.

(** Multiplying by an odd constant is undone by its inverse modulo [2 ^ 64]. *)
Lemma wrapping_mul_inverse a c d : word64 a -> wrapping_mul c d = 1%N ->
  wrapping_mul (wrapping_mul a c) d = a.
Proof.
  unfold wrapping_mul, word64. intros Ha Hcd.
  rewrite N.Div0.mul_mod_idemp_l, <- N.mul_assoc, <- N.Div0.mul_mod_idemp_r, Hcd, N.mul_1_r.
  by apply N.mod_small.
Qed.

(** The inverse of [mix]. *)
Definition unmix (h : N) : N :=
  let h := xorshift h in
  let h := wrapping_mul h 11291846944257947611 in
  let h := xorshift h in
  let h := wrapping_mul h 5725274745694666757 in
  xorshift h.

(** [mix] is a permutation of the 64-bit words, with [unmix] as its inverse: two ids get the same
    name only if their hashes agree or the reduction to words makes them. *)
Theorem mix_bijective h : word64 h ->
  word64 (mix h) /\ unmix (mix h) = h /\ mix (unmix h) = h.
Proof.
  intros Hh. split; [apply xorshift_word64, wrapping_mul_word64|]. unfold mix, unmix. cbv zeta. split.
  - rewrite xorshift_involutive by apply wrapping_mul_word64.
    rewrite wrapping_mul_inverse by (done || apply xorshift_word64, wrapping_mul_word64).
    rewrite xorshift_involutive by apply wrapping_mul_word64.
    rewrite wrapping_mul_inverse by (done || by apply xorshift_word64).
    by apply xorshift_involutive.
  - rewrite xorshift_involutive by apply wrapping_mul_word64.
    rewrite wrapping_mul_inverse by (done || apply xorshift_word64, wrapping_mul_word64).
    rewrite xorshift_involutive by apply wrapping_mul_word64.
    rewrite wrapping_mul_inverse by (done || by apply xorshift_word64).
    by apply xorshift_involutive.
Qed.

Lemma mix_bijective_witness : word64 12345 /\ unmix (mix 12345) = 12345%N.
Proof.
  assert (H : word64 12345) by done. split; [done|]. apply (mix_bijective 12345 H).
Defined.

(** ** Names *)

Definition name_byte (c : ascii) : bool := is_ascii_lowercase c || is_ascii_digit c || Ascii.eqb c "-".

Lemma word_in words i : words <> [] -> word words i ∈ words.
Proof.
  intros Hw. unfold word. apply list_elem_of_In, nth_In.
  assert (Hl : N.of_nat (length words) <> 0%N) by (destruct words; [done|cbn [length]; lia]).
  pose proof (N.mod_lt i _ Hl). lia.
Qed.

Lemma word_ok words i : words <> [] -> Forall (fun w => Forall (fun c => name_byte c = true) w /\ (0 < length w <= 11)%nat) words ->
  Forall (fun c => name_byte c = true) (word words i) /\ (0 < length (word words i) <= 11)%nat.
Proof. intros Hw Hall. rewrite Forall_forall in Hall. apply Hall. by apply word_in. Qed.

Lemma words_ok : Forall (fun w => Forall (fun c => name_byte c = true) w /\ (0 < length w <= 11)%nat) (ADJECTIVES ++ NOUNS).
Proof.
  assert (H : forallb (fun w => forallb name_byte w && (0 <? length w)%nat && (length w <=? 11)%nat)
    (ADJECTIVES ++ NOUNS) = true) by (vm_compute; reflexivity).
  apply forallb_Forall in H. eapply Forall_impl; [exact H|]. intros w Hw. cbv beta in Hw. reflect_bools.
  split; [by apply forallb_Forall|lia].
Qed.

Lemma base_name_ok seed :
  Forall (fun c => name_byte c = true) (base_name seed) /\ (3 <= length (base_name seed) <= 23)%nat.
Proof.
  pose proof words_ok as H. apply Forall_app in H as [Ha Hn].
  unfold base_name. cbv zeta.
  destruct (word_ok ADJECTIVES (N.shiftr (mix (fnv1a seed)) 32) ltac:(done) Ha) as [A1 A2].
  destruct (word_ok NOUNS (N.land (mix (fnv1a seed)) 0xffffffff) ltac:(done) Hn) as [N1 N2].
  split.
  - apply Forall_app. split; [done|]. apply Forall_app. split; [by apply forallb_Forall|done].
  - rewrite !length_app. cbn [length]. change (length (B "-")) with 1%nat. lia.
Qed.

(** What [unique_name] answers: the base name, else the first free of its nine numbered forms,
    else the hexadecimal form.  The answer is free whenever one of the nine is; it always starts
    with the base name, which only the id decides, and has the characters of a name. *)
Theorem unique_name_spec seed taken :
  let base := base_name seed in
  let tried := base :: map (numbered base) [2; 3; 4; 5; 6; 7; 8; 9]%N in
  (exists pre post, tried = pre ++ unique_name seed taken :: post /\
     Forall (fun c => taken c = true) pre /\ taken (unique_name seed taken) = false) \/
  (Forall (fun c => taken c = true) tried /\ unique_name seed taken = hex_name seed).
Proof.
  cbv zeta. unfold unique_name. destruct (taken (base_name seed)) eqn:Eb; cbn [negb].
  2: { left. exists [], (map (numbered (base_name seed)) [2; 3; 4; 5; 6; 7; 8; 9]%N). done. }
  set (l := map _ _). clearbody l.
  enough ((exists pre post x, l = pre ++ x :: post /\ Forall (fun c => taken c = true) pre /\ taken x = false /\
     List.find (fun c => negb (taken c)) l = Some x) \/
    (Forall (fun c => taken c = true) l /\ List.find (fun c => negb (taken c)) l = None)) as [(pre & post & x & -> & Hp & Hx & ->)|[Hall ->]].
  - left. exists (base_name seed :: pre), post. split; [done|]. split; [by constructor|done].
  - right. split; [by constructor|done].
  - induction l as [|c l IH]; [by right|]. cbn [List.find]. destruct (taken c) eqn:Ec; cbn [negb].
    + destruct IH as [(pre & post & x & -> & Hp & Hx & Hf)|[Hall Hf]].
      * left. exists (c :: pre), post, x. split; [done|]. split; [by constructor|]. done.
      * right. split; [by constructor|done].
    + left. exists [], l, c. done.
Qed.

(** The last resort can collide: these two ids have the same words and the same 24 bits. *)
Example hex_names_collide :
  B "dev-00007195" <> B "dev-0000e2d3" /\
  hex_name (B "dev-00007195") = hex_name (B "dev-0000e2d3") /\
  hex_name (B "dev-00007195") = B "stasis-gambit-414e5d" /\
  forall taken, Forall (fun c => taken c = true)
      (B "stasis-gambit" :: map (numbered (B "stasis-gambit")) [2; 3; 4; 5; 6; 7; 8; 9]%N) ->
    unique_name (B "dev-00007195") taken = unique_name (B "dev-0000e2d3") taken.
Proof.
  split; [done|]. split; [vm_compute; reflexivity|]. split; [vm_compute; reflexivity|].
  intros taken Hall. unfold unique_name.
  assert (E1 : base_name (B "dev-00007195") = B "stasis-gambit") by (vm_compute; reflexivity).
  assert (E2 : base_name (B "dev-0000e2d3") = B "stasis-gambit") by (vm_compute; reflexivity).
  assert (E3 : hex_name (B "dev-00007195") = hex_name (B "dev-0000e2d3")) by (vm_compute; reflexivity).
  by rewrite E1, E2, E3.
Qed.
