(* ===== verification/Stage.v ===== *)
(** * The stage store ([crates/core/src/stage.rs])

    A stage is a frozen layer image under [stages/<stage_id>/], with a metadata file beside it.
    The id is a hash of the layer's bytes.  A stage forked from another one records the whole
    chain of layers it is mounted over.

    The store is the state: a map from names to directories with their four files, of which two
    are the [.partial] siblings of a crash-safe write.  The functions of the file are here with
    their root-parameterised names.  BLAKE3, the JSON codec, the clock and the number of allocated
    blocks are parameters; each call that changes the disk, and each read of the directory, may
    fail, by an oracle. *)
From stdpp Require Import fin_maps sorting.
From S2P Require Import Prelude Text Effects Digest Names.

Definition MAX_CHAIN_DEPTH : nat := 10.

Record BaseId : Type := MkBaseId { flavor : bytes; sha256 : option bytes }.

Definition unstamped (flavor : bytes) : BaseId := MkBaseId flavor None.

Record StageMeta : Type := MkStageMeta {
  stage_id : bytes;
  name : bytes;
  label : bytes;
  parent : option bytes;
  chain : list bytes;
  base : bytes;
  base_sha256 : option bytes;
  created_unix : N;
  bytes_apparent : N;
  bytes_allocated : N }.
#[export] Instance StageMeta_eq_dec : EqDecision StageMeta.
Proof. solve_decision. Defined.

Definition base_id (m : StageMeta) : BaseId := MkBaseId (base m) (base_sha256 m).

(** ** Comparing bases *)

(** The explanations, by what they name: the stage, then what was compared, then the stage whose
    chain led there. *)
Inductive Why : Type :=
  | Flavors (id label recorded resolved : bytes)
  | NoSidecar (id label : bytes) (stamped : bytes)
  | Rebuilt (id label : bytes) (stamped present : bytes)
  | MissingAncestor (id label ancestor : bytes)
  | ThroughChain (why : Why) (id label : bytes).

Inductive BaseCheck : Type :=
  | Fine
  | Unverifiable (why : Why)
  | RebuiltBase (why : Why)
  | WrongFlavor (why : Why).

Definition message (c : BaseCheck) : option Why :=
  match c with Fine => None | Unverifiable m | RebuiltBase m | WrongFlavor m => Some m end.

Definition is_fatal (c : BaseCheck) : bool := match c with WrongFlavor _ => true | _ => false end.

Definition non_empty (sha : option bytes) : option bytes :=
  match option_map trim sha with
  | Some s => if beq s [] then None else Some s
  | None => None
  end.

(** The first twelve characters. *)
Definition short_id (sha : bytes) : bytes := concat (map item_bytes (take 12 (utf8_items sha))).

Definition check_base (stage : StageMeta) (current : BaseId) : BaseCheck :=
  if negb (beq (base stage) (flavor current)) then
    WrongFlavor (Flavors (stage_id stage) (label stage) (base stage) (flavor current))
  else
    match non_empty (base_sha256 stage) with
    | None => Fine
    | Some stamped =>
        match non_empty (sha256 current) with
        | None => Unverifiable (NoSidecar (stage_id stage) (label stage) (short_id stamped))
        | Some present =>
            if beq stamped present then Fine
            else RebuiltBase (Rebuilt (stage_id stage) (label stage) (short_id stamped) (short_id present))
        end
    end.

Definition rank (c : BaseCheck) : nat :=
  match c with Fine => 0 | Unverifiable _ => 1 | RebuiltBase _ => 2 | WrongFlavor _ => 3 end.

(** ** The disk *)

Record StageDir : Type := MkStageDir {
  layer_file : option bytes;
  layer_partial : option bytes;
  meta_file : option bytes;
  meta_partial : option bytes }.

Definition empty_dir : StageDir := MkStageDir None None None None.

(** What is in the stages directory; [None] if the directory does not exist. *)
Inductive entry : Type := NotDir | IsDir (d : StageDir).
Abbreviation Store := (option (gmap bytes entry)).

Inductive Call : Type :=
  | ReadDir
  | CreateDir (id : bytes)
  | SparseCopy (id : bytes)
  | Chmod (id : bytes)
  | RenameLayer (id : bytes)
  | Stat (id : bytes)
  | WriteMeta (id : bytes)
  | RenameMeta (id : bytes)
  | RemoveDir (id : bytes).

Inductive StageError : Type :=
  | EmptyLabel
  | CannotHash
  | BadMeta (id : bytes)
  | LabelInUse (clash : StageMeta)
  | SameBytes (existing : StageMeta)
  | NoParent (id : bytes)
  | WillNotStack (id : bytes) (why : option Why)
  | TooDeep (depth : nat)
  | EmptyReference
  | Ambiguous (candidates : list StageMeta)
  | NoMatch (n : nat)
  | StillReferenced (target : StageMeta) (by_ : list StageMeta)
  | EmptyChain
  | MalformedChain (tip : option bytes)
  | MissingLayer (id : bytes)
  | IoFailed (c : Call).

Section store.
(** [serde_json::from_str], [to_string_pretty]; the hex digest of BLAKE3; [blocks() * 512]. *)
Context (from_str : bytes -> option StageMeta) (to_string : StageMeta -> bytes).
Context (blake3_hex : bytes -> bytes) (allocated : bytes -> N) (now_unix : N).
(** Whether a call fails, and what a failed [remove_dir_all] leaves. *)
Context (fails : Call -> bool) (torn : StageDir -> StageDir).

Abbreviation St := (SE Store StageError).

(** [stage_id_for], of a file's bytes. *)
Definition stage_id_for (content : bytes) : bytes := B "st-" ++ take 16 (blake3_hex content).

Definition guard_io (c : Call) : St unit := se_ret (if fails c then Err (IoFailed c) else Ok tt).

(** *** Reading *)

(** The directory under a name, and what the metadata file of one parses to. *)
Definition dir_of (s : Store) (id : bytes) : option StageDir :=
  match s ≫= lookup id with Some (IsDir d) => Some d | _ => None end.

Definition get_by_id_in (s : Store) (id : bytes) : result (option StageMeta) StageError :=
  match dir_of s id ≫= meta_file with
  | None => Ok None
  | Some raw => match from_str raw with Some m => Ok (Some m) | None => Err (BadMeta id) end
  end.

(** The metadata of an entry that has one that parses; others are skipped. *)
Definition entry_meta (e : entry) : option StageMeta :=
  match e with IsDir d => meta_file d ≫= from_str | NotDir => None end.

Definition older (a b : StageMeta) : bool :=
  (created_unix a <? created_unix b)%N ||
  ((created_unix a =? created_unix b)%N && String.leb (string_of_list_ascii (stage_id a)) (string_of_list_ascii (stage_id b))).

(** The stable sort by creation time, then id. *)
Fixpoint insert_stage (m : StageMeta) (l : list StageMeta) : list StageMeta :=
  match l with
  | [] => [m]
  | x :: r => if older m x then m :: l else x :: insert_stage m r
  end.
Definition sort_stages (l : list StageMeta) : list StageMeta := fold_right insert_stage [] l.

Definition list_in (s : Store) : result (list StageMeta) StageError :=
  match s with
  | None => Ok []
  | Some dirs =>
      if fails ReadDir then Err (IoFailed ReadDir)
      else Ok (sort_stages (omap (fun ie => entry_meta ie.2) (map_to_list dirs)))
  end.

(** *** Resolving a reference *)

(** One of the three middle steps: a single candidate decides, several are ambiguous, none goes
    on. *)
Definition only (candidates : list StageMeta) (k : result StageMeta StageError) : result StageMeta StageError :=
  match candidates with
  | [] => k
  | [m] => Ok m
  | _ => Err (Ambiguous candidates)
  end.

Definition resolve_among (stages : list StageMeta) (reference : bytes) : result StageMeta StageError :=
  match List.find (fun m => beq (stage_id m) reference) stages with
  | Some m => Ok m
  | None =>
      only (List.filter (fun m => beq (name m) reference) stages)
        (only (List.filter (fun m => beq (label m) reference) stages)
           (only (List.filter (fun m => starts_with reference (label m)) stages)
              (Err (NoMatch (length stages)))))
  end.

Definition resolve_in (s : Store) (reference : bytes) : result StageMeta StageError :=
  if beq (trim reference) [] then Err EmptyReference
  else let? stages := list_in s in resolve_among stages reference.

(** *** The chain *)

Definition worse (worst c : BaseCheck) : BaseCheck := if (rank worst <? rank c)%nat then c else worst.

Definition ancestor_check (s : Store) (stage : StageMeta) (current : BaseId) (id : bytes) :
    result BaseCheck StageError :=
  if beq id (stage_id stage) then Ok (check_base stage current)
  else
    let? found := get_by_id_in s id in
    Ok (match found with
        | Some m => check_base m current
        | None => Unverifiable (MissingAncestor (stage_id stage) (label stage) id)
        end).

Fixpoint worst_in (s : Store) (stage : StageMeta) (current : BaseId) (ids : list bytes) (worst : BaseCheck) :
    result BaseCheck StageError :=
  match ids with
  | [] => Ok worst
  | id :: r => let? c := ancestor_check s stage current id in worst_in s stage current r (worse worst c)
  end.

Definition annotate (stage : StageMeta) (c : BaseCheck) : BaseCheck :=
  let through m := ThroughChain m (stage_id stage) (label stage) in
  match c with
  | Fine => Fine
  | Unverifiable m => Unverifiable (through m)
  | RebuiltBase m => RebuiltBase (through m)
  | WrongFlavor m => WrongFlavor (through m)
  end.

Definition check_base_chain_in (s : Store) (stage : StageMeta) (current : BaseId) :
    result BaseCheck StageError :=
  let? worst := worst_in s stage current (chain stage) Fine in
  Ok (if (1 <? length (chain stage))%nat then annotate stage worst else worst).

Definition layer_path (id : bytes) : bytes := path_join id (B "layer.ext4").

Definition chain_paths_in (s : Store) (stage : StageMeta) : result (list bytes) StageError :=
  if (length (chain stage) =? 0)%nat then Err EmptyChain
  else if (MAX_CHAIN_DEPTH <? length (chain stage))%nat then Err (TooDeep (length (chain stage)))
  else if negb (bool_decide (last (chain stage) = Some (stage_id stage))) then
    Err (MalformedChain (last (chain stage)))
  else
    traverse (fun id => match dir_of s id ≫= layer_file with
                        | Some _ => Ok (layer_path id)
                        | None => Err (MissingLayer id)
                        end) (chain stage).

(** *** Writing *)

Definition update_dir (id : bytes) (f : StageDir -> StageDir) : St unit := fun s =>
  (Ok tt, match s with
          | Some dirs => Some (match dirs !! id with
                               | Some (IsDir d) => <[id := IsDir (f d)]> dirs
                               | _ => dirs
                               end)
          | None => None
          end).

(** [create_dir_all(root.join(id))]: a file in its place is an error. *)
Definition create_dir (id : bytes) : St unit := fun s =>
  let dirs := default ∅ s in
  match dirs !! id with
  | None => (Ok tt, Some (<[id := IsDir empty_dir]> dirs))
  | Some (IsDir _) => (Ok tt, s)
  | Some NotDir => (Err (IoFailed (CreateDir id)), s)
  end.

(** [write_meta]: a [.partial] sibling, then a rename. *)
Definition write_meta (id : bytes) (meta : StageMeta) : St unit :=
  do! _ := guard_io (WriteMeta id) in
  do! _ := update_dir id (fun d =>
    MkStageDir (layer_file d) (layer_partial d) (meta_file d) (Some (to_string meta))) in
  do! _ := guard_io (RenameMeta id) in
  update_dir id (fun d => MkStageDir (layer_file d) (layer_partial d) (meta_partial d) None).

(** The sparse copy, the freeze and the rename of the layer. *)
Definition write_layer (id content : bytes) : St unit :=
  do! _ := guard_io (SparseCopy id) in
  do! _ := update_dir id (fun d =>
    MkStageDir (layer_file d) (Some content) (meta_file d) (meta_partial d)) in
  do! _ := guard_io (Chmod id) in
  do! _ := guard_io (RenameLayer id) in
  update_dir id (fun d => MkStageDir (layer_partial d) None (meta_file d) (meta_partial d)).

(** The parent's id and the chain above the new layer. *)
Definition stack_on (s : Store) (parent : option bytes) (base : BaseId) (allow_base_skew : bool) :
    result (option bytes * list bytes) StageError :=
  match parent with
  | None => Ok (None, [])
  | Some pid =>
      let? found := get_by_id_in s pid in
      let? pmeta := ok_or found (NoParent pid) in
      let? verdict := check_base_chain_in s pmeta base in
      let go := Ok (Some (stage_id pmeta), chain pmeta) in
      match verdict with
      | Fine | Unverifiable _ => go
      | WrongFlavor _ => Err (WillNotStack pid (message verdict))
      | RebuiltBase _ => if allow_base_skew then go else Err (WillNotStack pid (message verdict))
      end
  end.

(** Reading the store within a computation. *)
Definition reading {A} (f : Store -> result A StageError) : St A := fun s => (f s, s).

(** The new stage, once the content is known not to be there and the label to be free. *)
Definition commit_new (content label : bytes) (id : bytes) (parent : option bytes) (base : BaseId)
    (allow_base_skew : bool) : St StageMeta :=
  do! pc := reading (fun s => stack_on s parent base allow_base_skew) in
  let chain := pc.2 ++ [id] in
  if (MAX_CHAIN_DEPTH <? length chain)%nat then se_ret (Err (TooDeep (length chain)))
  else
    do! stages := reading list_in in
    let name := unique_name id (fun n => existsb (beq n) (map name stages)) in
    do! _ := guard_io (CreateDir id) in
    do! _ := create_dir id in
    do! _ := write_layer id content in
    do! _ := guard_io (Stat id) in
    let meta := {| stage_id := id; name := name; label := label; parent := pc.1; chain := chain;
                   base := flavor base; base_sha256 := sha256 base; created_unix := now_unix;
                   bytes_apparent := N.of_nat (length content); bytes_allocated := allocated content |} in
    do! _ := write_meta id meta in
    se_ret (Ok meta).

(** [scratch] is what reading the scratch file gives. *)
Definition commit_in (scratch : option bytes) (label : bytes) (parent : option bytes)
    (base : BaseId) (allow_base_skew : bool) : St StageMeta :=
  if beq (trim label) [] then se_ret (Err EmptyLabel)
  else
    do! content := se_ret (ok_or scratch CannotHash) in
    let id := stage_id_for content in
    do! by_id := reading (fun s => get_by_id_in s id) in
    do! stages := reading list_in in
    match by_id, List.find (fun m => beq (Stage.label m) label) stages with
    | Some existing, Some same =>
        if beq (stage_id existing) (stage_id same) then se_ret (Ok existing)
        else se_ret (Err (LabelInUse same))
    | _, Some clash => se_ret (Err (LabelInUse clash))
    | Some existing, None => se_ret (Err (SameBytes existing))
    | None, None => commit_new content label id parent base allow_base_skew
    end.

Definition referencing (stages : list StageMeta) (target : StageMeta) : list StageMeta :=
  List.filter (fun m => negb (beq (stage_id m) (stage_id target)) &&
                        existsb (beq (stage_id target)) (chain m)) stages.

Definition remove_dir_all (id : bytes) : St unit := fun s =>
  match s with
  | None => (Err (IoFailed (RemoveDir id)), s)
  | Some dirs =>
      match dirs !! id with
      | Some (IsDir d) =>
          if fails (RemoveDir id) then (Err (IoFailed (RemoveDir id)), Some (<[id := IsDir (torn d)]> dirs))
          else (Ok tt, Some (delete id dirs))
      | _ => (Err (IoFailed (RemoveDir id)), s)
      end
  end.

Definition remove_in (reference : bytes) : St StageMeta :=
  do! target := reading (fun s => resolve_in s reference) in
  do! stages := reading list_in in
  let by_ := referencing stages target in
  if negb (length by_ =? 0)%nat then se_ret (Err (StillReferenced target by_))
  else
    do! _ := remove_dir_all (stage_id target) in
    se_ret (Ok target).

(** ** The invariant of the store *)

Definition meta_at (s : Store) (id : bytes) : option StageMeta := (dir_of s id ≫= meta_file) ≫= from_str.
Definition layer_at (s : Store) (id : bytes) : option bytes := dir_of s id ≫= layer_file.

(** A stage's directory is named by the id of its layer's bytes; its chain is root-first, ends in
    itself, has no layer twice and is short enough to boot; each layer of it is a stage of the
    store with the chain up to there, over the same flavor of base; labels are unique. *)
Record store_wf (s : Store) : Prop := {
  wf_id id m : meta_at s id = Some m ->
    stage_id m = id /\ exists content, layer_at s id = Some content /\ id = stage_id_for content;
  wf_tip id m : meta_at s id = Some m ->
    last (chain m) = Some id /\ NoDup (chain m) /\ (length (chain m) <= MAX_CHAIN_DEPTH)%nat;
  wf_parent id m : meta_at s id = Some m -> parent m = last (removelast (chain m));
  wf_chain id m pre a post : meta_at s id = Some m -> chain m = pre ++ a :: post ->
    exists ma, meta_at s a = Some ma /\ chain ma = pre ++ [a] /\ base ma = base m;
  wf_label i j mi mj : meta_at s i = Some mi -> meta_at s j = Some mj -> label mi = label mj -> i = j }.

(** *** Reading the store *)

Lemma get_by_id_Ok s id o : get_by_id_in s id = Ok o -> meta_at s id = o /\
  (o = None -> dir_of s id ≫= meta_file = None).
Proof.
  unfold get_by_id_in, meta_at. destruct (dir_of s id ≫= meta_file) as [raw|]; cbn; [|by intros [= <-]].
  destruct (from_str raw); [|done]. by intros [= <-].
Qed.

Lemma elem_of_insert_stage m x l : x ∈ insert_stage m l <-> x = m \/ x ∈ l.
Proof.
  induction l as [|y l IH]; cbn; [set_solver|]. destruct (older m y); set_solver.
Qed.

Lemma elem_of_sort_stages x l : x ∈ sort_stages l <-> x ∈ l.
Proof.
  induction l as [|y l IH]; cbn; [done|]. rewrite elem_of_insert_stage, IH. set_solver.
Qed.

Lemma dir_of_Some s id d : dir_of s id = Some d <-> exists dirs, s = Some dirs /\ dirs !! id = Some (IsDir d).
Proof.
  unfold dir_of. destruct s as [dirs|]; cbn; [|split; [done|by intros (dirs & ? & _)]]. split.
  - destruct (dirs !! id) as [[|d']|] eqn:E; [done| |done]. intros [= ->]. by exists dirs.
  - by intros (dirs' & [= <-] & ->).
Qed.

(** The list is exactly the stages with readable metadata. *)
Lemma list_in_spec s l m : list_in s = Ok l -> m ∈ l <-> exists id, meta_at s id = Some m.
Proof.
  unfold list_in, meta_at, dir_of. destruct s as [dirs|]; cbn.
  2: { intros [= <-]. split; [by intros ?%elem_of_nil|naive_solver]. }
  destruct (fails ReadDir); [done|]. intros [= <-]. rewrite elem_of_sort_stages, list_elem_of_omap.
  split.
  - intros ([id e] & Hin%elem_of_map_to_list & He). exists id. rewrite Hin. cbn in He.
    destruct e as [|d]; [done|]. exact He.
  - intros (id & H). destruct (dirs !! id) as [[|d]|] eqn:E; try done.
    exists (id, IsDir d). split; [by apply elem_of_map_to_list|exact H].
Qed.

Lemma find_label_None s l lb : list_in s = Ok l ->
  List.find (fun m => beq (label m) lb) l = None ->
  forall id m, meta_at s id = Some m -> label m <> lb.
Proof.
  intros Hl Hf id m Hm E. pose proof (find_none _ _ Hf m) as H. cbn in H.
  rewrite (proj2 (beq_true _ _) E) in H. discriminate H.
  apply list_elem_of_In, (list_in_spec s l m Hl). by exists id.
Qed.

(** *** The steps of a write *)

(** Only the directory of [id] differs, and it has no metadata yet. *)
Definition in_progress (id : bytes) (s s' : Store) : Prop :=
  (forall j, j <> id -> dir_of s' j = dir_of s j) /\ dir_of s' id ≫= meta_file = None.

Lemma dir_of_insert dirs id d j :
  dir_of (Some (<[id := IsDir d]> dirs)) j = if decide (id = j) then Some d else dir_of (Some dirs) j.
Proof.
  unfold dir_of. cbn. destruct (decide (id = j)) as [->|]; [by rewrite lookup_insert_eq|].
  by rewrite lookup_insert_ne.
Qed.

Lemma update_dir_spec id f s d : dir_of s id = Some d ->
  exists s', update_dir id f s = (Ok tt, s') /\ dir_of s' id = Some (f d) /\
    forall j, j <> id -> dir_of s' j = dir_of s j.
Proof.
  intros (dirs & -> & Hd)%dir_of_Some. unfold update_dir. rewrite Hd. eexists. split; [done|].
  split; [by rewrite dir_of_insert, decide_True|].
  intros j Hj. rewrite dir_of_insert, decide_False by done. done.
Qed.

Lemma create_dir_spec id s r s' : create_dir id s = (r, s') -> dir_of s id ≫= meta_file = None ->
  in_progress id s s' /\ (r = Ok tt -> exists d, dir_of s' id = Some d /\ meta_file d = None).
Proof.
  unfold create_dir. intros H Hm.
  destruct (default ∅ s !! id) as [[|d]|] eqn:E; injection H as <- <-.
  - split; [done|]. done.
  - split; [done|]. intros _. destruct s as [dirs|]; [|done]. cbn in E.
    assert (Hd : dir_of (Some dirs) id = Some d) by (unfold dir_of; cbn; by rewrite E).
    rewrite Hd in Hm |- *. by exists d.
  - split.
    + split; [|by rewrite dir_of_insert, decide_True].
      intros j Hj. rewrite dir_of_insert, decide_False by done. by destruct s.
    + intros _. rewrite dir_of_insert, decide_True by done. by exists empty_dir.
Qed.

Lemma guard_io_run c s r s' : guard_io c s = (r, s') -> s' = s /\ (r = Ok tt -> fails c = false).
Proof. unfold guard_io, se_ret. destruct (fails c); intros [= <- <-]; done. Qed.

Lemma in_progress_trans id s s1 s2 d : (forall j, j <> id -> dir_of s1 j = dir_of s j) ->
  (forall j, j <> id -> dir_of s2 j = dir_of s1 j) -> dir_of s2 id = Some d -> meta_file d = None ->
  in_progress id s s2.
Proof. intros H1 H2 Hd Hm. split; [|by rewrite Hd]. intros j Hj. by rewrite H2, H1. Qed.

Lemma write_layer_spec id content s d r s' : dir_of s id = Some d -> meta_file d = None ->
  write_layer id content s = (r, s') ->
  in_progress id s s' /\
  (r = Ok tt -> exists d', dir_of s' id = Some d' /\ meta_file d' = None /\ layer_file d' = Some content).
Proof.
  intros Hd Hm. unfold write_layer, se_bind, guard_io, se_ret.
  assert (H0 : in_progress id s s) by (split; [done|by rewrite Hd]).
  destruct (fails (SparseCopy id)); [by intros [= <- <-]|].
  destruct (update_dir_spec id (fun d => MkStageDir (layer_file d) (Some content) (meta_file d) (meta_partial d)) s d Hd)
    as (s1 & -> & Hd1 & Ho1).
  assert (H1 : in_progress id s s1) by (by eapply in_progress_trans).
  destruct (fails (Chmod id)); [by intros [= <- <-]|].
  destruct (fails (RenameLayer id)); [by intros [= <- <-]|].
  destruct (update_dir_spec id (fun d => MkStageDir (layer_partial d) None (meta_file d) (meta_partial d)) s1 _ Hd1)
    as (s2 & -> & Hd2 & Ho2). intros [= <- <-].
  split; [by eapply (in_progress_trans id s s1 s2)|]. intros _. eexists. split; [exact Hd2|]. done.
Qed.

Lemma write_meta_spec id m s d r s' : dir_of s id = Some d -> meta_file d = None ->
  write_meta id m s = (r, s') ->
  (forall j, j <> id -> dir_of s' j = dir_of s j) /\
  match r with
  | Ok _ => dir_of s' id = Some (MkStageDir (layer_file d) (layer_partial d) (Some (to_string m)) None)
  | Err _ => dir_of s' id ≫= meta_file = None
  end.
Proof.
  intros Hd Hm. unfold write_meta, se_bind, guard_io, se_ret.
  destruct (fails (WriteMeta id)); [intros [= <- <-]; split; [done|by rewrite Hd]|].
  destruct (update_dir_spec id (fun d => MkStageDir (layer_file d) (layer_partial d) (meta_file d) (Some (to_string m))) s d Hd)
    as (s1 & -> & Hd1 & Ho1).
  destruct (fails (RenameMeta id)); [intros [= <- <-]; split; [done|by rewrite Hd1]|].
  destruct (update_dir_spec id (fun d => MkStageDir (layer_file d) (layer_partial d) (meta_partial d) None) s1 _ Hd1)
    as (s2 & -> & Hd2 & Ho2). intros [= <- <-]. split; [|done]. intros j Hj. by rewrite Ho2, Ho1.
Qed.

(** What a commit of new content did, if it succeeded: exactly one stage more. *)
Definition committed (s : Store) (content lb id : bytes) (pc : option bytes * list bytes) (b : BaseId)
    (m : StageMeta) (s' : Store) : Prop :=
  (exists d, dir_of s' id = Some d /\ meta_file d = Some (to_string m) /\ layer_file d = Some content) /\
  (forall j, j <> id -> dir_of s' j = dir_of s j) /\
  stage_id m = id /\ label m = lb /\ parent m = pc.1 /\ chain m = pc.2 ++ [id] /\
  base m = flavor b /\ base_sha256 m = sha256 b /\ (length (chain m) <= MAX_CHAIN_DEPTH)%nat /\
  bytes_apparent m = N.of_nat (length content).

Lemma commit_new_spec s content lb id p b skew r s' : dir_of s id ≫= meta_file = None ->
  commit_new content lb id p b skew s = (r, s') ->
  match r with
  | Ok m => exists pc, stack_on s p b skew = Ok pc /\ committed s content lb id pc b m s'
  | Err _ => in_progress id s s'
  end.
Proof.
  intros Hm. unfold commit_new, reading, se_bind, se_ret.
  assert (H0 : in_progress id s s) by done.
  destruct (stack_on s p b skew) as [pc|e] eqn:Es; [|by intros [= <- <-]].
  destruct (MAX_CHAIN_DEPTH <? _)%nat eqn:Ed; [by intros [= <- <-]|]. reflect_bools.
  destruct (list_in s) as [stages|e]; [|by intros [= <- <-]].
  destruct (guard_io (CreateDir id) s) as [[u|e] s0] eqn:Eg; apply guard_io_run in Eg as [-> _];
    [|by intros [= <- <-]].
  destruct (create_dir id s) as [[[]|e] s1] eqn:Ec; apply create_dir_spec in Ec as [H1 Hd1]; try done;
    [|by intros [= <- <-]].
  destruct (Hd1 eq_refl) as (d1 & Hd & Hmd). clear Hd1.
  destruct (write_layer id content s1) as [[[]|e] s2] eqn:Ew;
    apply (write_layer_spec _ _ _ _ _ _ Hd Hmd) in Ew as [H2 Hd2].
  2: { intros [= <- <-]. destruct H1 as [H1 _], H2 as [H2 Hx]. split; [|done].
       intros j Hj. by rewrite H2, H1. }
  destruct (Hd2 eq_refl) as (d2 & Hd' & Hmd2 & Hl2). clear Hd2.
  assert (Ho : forall j, j <> id -> dir_of s2 j = dir_of s j).
  { intros j Hj. destruct H1 as [H1 _], H2 as [H2 _]. by rewrite H2, H1. }
  destruct (guard_io (Stat id) s2) as [[u2|e] s3] eqn:Eg2; apply guard_io_run in Eg2 as [-> _].
  2: { intros [= <- <-]. split; [done|by rewrite Hd']. }
  set (m := MkStageMeta _ _ _ _ _ _ _ _ _ _).
  destruct (write_meta id m s2) as [[u3|e] s4] eqn:Em;
    apply (write_meta_spec _ _ _ _ _ _ Hd' Hmd2) in Em as [Ho4 Hd4].
  2: { intros [= <- <-]. split; [|done]. intros j Hj. by rewrite Ho4, Ho. }
  intros [= <- <-]. exists pc. split; [done|]. split.
  { eexists. split; [exact Hd4|]. done. }
  split; [intros j Hj; by rewrite Ho4, Ho|]. do 6 (split; [done|]). split; [|done]. cbn. lia.
Qed.

(** *** The invariant is kept *)

Lemma wf_in_progress id s s' : store_wf s -> dir_of s id ≫= meta_file = None -> in_progress id s s' ->
  store_wf s'.
Proof.
  intros W Hm [Ho Hid].
  assert (Hmeta : forall j, meta_at s' j = meta_at s j).
  { intros j. unfold meta_at. destruct (decide (j = id)) as [->|Hj]; [by rewrite Hid, Hm|by rewrite Ho]. }
  assert (Hne : forall j m, meta_at s j = Some m -> layer_at s' j = layer_at s j).
  { intros j m Hj. unfold layer_at. destruct (decide (j = id)) as [->|Hne]; [|by rewrite Ho].
    unfold meta_at in Hj. by rewrite Hm in Hj. }
  split.
  - intros j m. rewrite Hmeta. intros Hj. rewrite (Hne _ _ Hj). by apply (wf_id _ W).
  - intros j m. rewrite Hmeta. apply (wf_tip _ W).
  - intros j m. rewrite Hmeta. apply (wf_parent _ W).
  - intros j m pre a post. rewrite Hmeta. intros Hj Hc.
    destruct (wf_chain _ W _ _ _ _ _ Hj Hc) as (ma & Ha & Hr). exists ma. by rewrite Hmeta.
  - intros i j mi mj. rewrite !Hmeta. apply (wf_label _ W).
Qed.

(** ** The check of a chain *)

Lemma worse_rank w c : rank (worse w c) = Nat.max (rank w) (rank c).
Proof. unfold worse. destruct (rank w <? rank c)%nat eqn:E; reflect_bools; lia. Qed.

Lemma worst_in_spec s stage current ids w c : worst_in s stage current ids w = Ok c ->
  (rank w <= rank c)%nat /\
  (forall id, id ∈ ids -> exists ci, ancestor_check s stage current id = Ok ci /\ (rank ci <= rank c)%nat) /\
  (c = w \/ exists id, id ∈ ids /\ ancestor_check s stage current id = Ok c).
Proof.
  revert w. induction ids as [|id ids IH]; intros w; cbn [worst_in].
  { intros [= <-]. split; [done|]. split; [by intros id ?%elem_of_nil|by left]. }
  intros (ci & Hci & H)%rbind_Ok. apply IH in H as (H1 & H2 & H3).
  rewrite worse_rank in H1. split; [lia|]. split.
  - intros id' [->|Hin]%elem_of_cons; [|auto]. exists ci. split; [done|lia].
  - destruct H3 as [->|(id' & Hin & Hc)]; [|right; exists id'; split; [by right|done]].
    unfold worse. destruct (rank w <? rank ci)%nat; [|by left]. right. exists id. split; [by left|done].
Qed.

Lemma annotate_rank stage c : rank (annotate stage c) = rank c.
Proof. by destruct c. Qed.

(** The verdict on a chain is the worst of the verdicts on its layers, and every layer was asked
    about: one stage with no stamp does not make up for an ancestor built over another root, and
    metadata that is missing is never read as fine. *)
Lemma check_chain_worst s stage current c : check_base_chain_in s stage current = Ok c ->
  (forall id, id ∈ chain stage -> exists ci, ancestor_check s stage current id = Ok ci /\ (rank ci <= rank c)%nat) /\
  (rank c = 0%nat \/ exists id ci, id ∈ chain stage /\ ancestor_check s stage current id = Ok ci /\ rank ci = rank c).
Proof.
  intros (w & Hw & Hc)%rbind_Ok. apply worst_in_spec in Hw as (_ & H2 & H3).
  assert (E : rank c = rank w).
  { injection Hc as <-. destruct (1 <? _)%nat; [apply annotate_rank|done]. }
  rewrite E. split; [done|]. destruct H3 as [->|(id & Hin & Ha)]; [by left|]. right. by exists id, w.
Qed.

Lemma check_base_rank m current :
  ((rank (check_base m current) < 3)%nat -> base m = flavor current) /\
  ((rank (check_base m current) < 2)%nat -> forall a b, non_empty (base_sha256 m) = Some a ->
     non_empty (sha256 current) = Some b -> a = b).
Proof.
  unfold check_base. destruct (beq (base m) (flavor current)) eqn:E; cbn [negb]; [|cbn; lia].
  apply beq_true in E. split; [done|].
  destruct (non_empty (base_sha256 m)) as [x|]; [|done].
  destruct (non_empty (sha256 current)) as [y|]; [|done].
  destruct (beq x y) eqn:Exy; cbn; [|lia]. apply beq_true in Exy. naive_solver.
Qed.

(** What a fork is stacked on. *)
Lemma stack_on_spec s p b skew pc : stack_on s p b skew = Ok pc ->
  (p = None /\ pc = (None, [])) \/
  exists pid pm c, p = Some pid /\ meta_at s pid = Some pm /\ pc = (Some (stage_id pm), chain pm) /\
    check_base_chain_in s pm b = Ok c /\ (rank c < 3)%nat /\ (skew = false -> (rank c < 2)%nat).
Proof.
  unfold stack_on. destruct p as [pid|]; [|intros [= <-]; by left]. intros H. right.
  apply rbind_Ok in H as (o & Ho & H). apply rbind_Ok in H as (pm & Hpm%ok_or_Ok & H). subst o.
  apply rbind_Ok in H as (c & Hc & H). apply get_by_id_Ok in Ho as [Hm _].
  exists pid, pm, c. split; [done|]. split; [done|].
  destruct c; cbn [rank]; try (injection H as <-; split_and!; (done || lia)).
  - destruct skew; [|done]. injection H as <-. split_and!; (done || lia).
  - done.
Qed.

(** The ancestors of a well-formed chain are read as they are. *)
Lemma ancestor_check_meta s stage current a ma : store_wf s -> meta_at s a = Some ma ->
  (stage_id stage = a -> ma = stage) ->
  ancestor_check s stage current a = Ok (check_base ma current).
Proof.
  intros W Hm Hself. unfold ancestor_check. destruct (beq a (stage_id stage)) eqn:E.
  { apply beq_true in E. by rewrite Hself. }
  unfold get_by_id_in. unfold meta_at in Hm. destruct (dir_of s a ≫= meta_file) as [raw|]; [|done].
  cbn in Hm. by rewrite Hm.
Qed.

Lemma chain_checked s pid pm b c : store_wf s -> meta_at s pid = Some pm ->
  check_base_chain_in s pm b = Ok c ->
  forall a, a ∈ chain pm -> exists ma, meta_at s a = Some ma /\ (rank (check_base ma b) <= rank c)%nat.
Proof.
  intros W Hp [Hall _]%check_chain_worst a Ha. destruct (Hall a Ha) as (ci & Hci & Hr).
  apply list_elem_of_split in Ha as (pre & post & E).
  destruct (wf_chain _ W _ _ _ _ _ Hp E) as (ma & Hma & _ & _). exists ma. split; [done|].
  rewrite (ancestor_check_meta s pm b a ma W Hma) in Hci; [by injection Hci as <-|].
  intros E2. destruct (wf_id _ W _ _ Hp) as [Hid _]. rewrite Hid in E2. subst a. congruence.
Qed.

(** ** Commits *)

Section codec.
Context (codec : forall m, from_str (to_string m) = Some m).

Lemma committed_meta s content lb id pc b m s' : committed s content lb id pc b m s' ->
  meta_at s' id = Some m /\ layer_at s' id = Some content /\
  (forall j, j <> id -> meta_at s' j = meta_at s j /\ layer_at s' j = layer_at s j).
Proof.
  intros [(d & Hd & Hm & Hl) [Ho _]]. unfold meta_at, layer_at. rewrite Hd. cbn. rewrite Hm. cbn.
  split; [apply codec|]. split; [done|]. intros j Hj. by rewrite Ho.
Qed.

Lemma wf_committed s content lb p b skew pc m s' :
  store_wf s -> meta_at s (stage_id_for content) = None ->
  (forall id x, meta_at s id = Some x -> label x <> lb) ->
  stack_on s p b skew = Ok pc -> committed s content lb (stage_id_for content) pc b m s' -> store_wf s'.
Proof.
  intros W Hnone Hlb Hst C. set (id := stage_id_for content) in *.
  destruct (committed_meta _ _ _ _ _ _ _ _ C) as (Hm & Hl & Ho).
  destruct C as (_ & _ & Eid & Elb & Epar & Ech & Eb & _ & Hlen & _).
  assert (Hold : forall a x, meta_at s a = Some x -> meta_at s' a = Some x /\ a <> id).
  { intros a x Ha. assert (a <> id) by congruence. by rewrite (proj1 (Ho a ltac:(done))). }
  assert (Hanc : forall pre a post, pc.2 = pre ++ a :: post ->
    exists ma, meta_at s a = Some ma /\ chain ma = pre ++ [a] /\ base ma = flavor b).
  { intros pre a post E. apply stack_on_spec in Hst as [[_ ->]|(pid & pm & c & _ & Hp & -> & Hc & Hr & _)].
    { by destruct pre. }
    destruct (wf_chain _ W _ _ _ _ _ Hp E) as (ma & Hma & Hch & _). exists ma. split; [done|]. split; [done|].
    destruct (chain_checked _ _ _ _ _ W Hp Hc a) as (ma' & Hma' & Hrank).
    { cbn in E. rewrite E. apply elem_of_app. right. by left. }
    assert (ma' = ma) as -> by congruence. apply (proj1 (check_base_rank ma b)). lia. }
  assert (Hcase : forall j x, meta_at s' j = Some x -> (j = id /\ x = m) \/ (j <> id /\ meta_at s j = Some x)).
  { intros j x Hj. destruct (decide (j = id)) as [->|Hne]; [left; split; [done|congruence]|].
    right. by rewrite (proj1 (Ho j Hne)) in Hj. }
  split.
  - intros j x [[-> ->]|[Hne Hj]]%Hcase; [split; [done|by exists content]|].
    rewrite (proj2 (Ho j Hne)). by apply (wf_id _ W).
  - intros j x [[-> ->]|[Hne Hj]]%Hcase; [|by apply (wf_tip _ W)]. rewrite Ech in Hlen |- *.
    split; [apply last_snoc|]. split; [|done]. apply NoDup_app. split; [|split; [|apply NoDup_singleton]].
    + apply stack_on_spec in Hst as [[_ ->]|(pid & pm & c & _ & Hp & -> & _)]; [constructor|].
      by apply (wf_tip _ W) in Hp as (_ & ? & _).
    + intros a Ha ->%list_elem_of_singleton. apply list_elem_of_split in Ha as (pre & post & E).
      destruct (Hanc _ _ _ E) as (ma & Hma & _). congruence.
  - intros j x [[-> ->]|[Hne Hj]]%Hcase; [|by apply (wf_parent _ W) in Hj].
    rewrite Ech, removelast_last, Epar.
    apply stack_on_spec in Hst as [[_ ->]|(pid & pm & c & _ & Hp & -> & _)]; [done|]. cbn.
    destruct (wf_id _ W _ _ Hp) as [-> _]. by destruct (wf_tip _ W _ _ Hp) as [-> _].
  - intros j x pre a post [[-> ->]|[Hne Hj]]%Hcase E.
    + rewrite Ech in E. destruct post as [|y post _] using rev_ind.
      * apply app_inj_tail in E as [E <-]. exists m. split; [done|]. split; [by rewrite Ech, E|done].
      * change (a :: post ++ [y]) with ((a :: post) ++ [y]) in E. rewrite app_assoc in E.
        apply app_inj_tail in E as [E _]. destruct (Hanc _ _ _ E) as (ma & Hma & Hch & Hb).
        exists ma. split; [by apply Hold|]. split; [done|congruence].
    + destruct (wf_chain _ W _ _ _ _ _ Hj E) as (ma & Hma & Hr). exists ma. split; [by apply Hold|done].
  - intros i j mi mj [[-> ->]|[Hi Hmi]]%Hcase [[-> ->]|[Hj Hmj]]%Hcase E; [done| | |].
    + exfalso. apply (Hlb j mj Hmj). congruence.
    + exfalso. apply (Hlb i mi Hmi). congruence.
    + by apply (wf_label _ W i j mi mj).
Qed.

(** The ways a commit can go: refused before anything is written, the same stage again, or new
    content under a free label. *)
Lemma commit_in_spec scratch lb p b skew s r s' : commit_in scratch lb p b skew s = (r, s') ->
  (s' = s /\ exists e, r = Err e) \/
  (exists content m, scratch = Some content /\ s' = s /\ r = Ok m /\
     meta_at s (stage_id_for content) = Some m /\
     exists id m', meta_at s id = Some m' /\ label m' = lb /\ stage_id m' = stage_id m) \/
  (exists content, scratch = Some content /\
     dir_of s (stage_id_for content) ≫= meta_file = None /\
     (forall id x, meta_at s id = Some x -> label x <> lb) /\
     commit_new content lb (stage_id_for content) p b skew s = (r, s')).
Proof.
  unfold commit_in. destruct (beq (trim lb) []); [intros [= <- <-]; left; eauto|].
  unfold se_bind, se_ret, reading. destruct scratch as [content|]; cbn [ok_or]; [|intros [= <- <-]; left; eauto].
  destruct (get_by_id_in s (stage_id_for content)) as [by_id|e] eqn:Eg; [|intros [= <- <-]; left; eauto].
  apply get_by_id_Ok in Eg as [Hm Hnone].
  destruct (list_in s) as [stages|e] eqn:El; [|intros [= <- <-]; left; eauto].
  destruct (List.find _ stages) as [same|] eqn:Ef.
  - apply find_some in Ef as [Hin Hlb]. apply beq_true in Hlb.
    apply list_elem_of_In, (list_in_spec s stages same El) in Hin as [id Hid].
    destruct by_id as [existing|]; [|intros [= <- <-]; left; eauto].
    destruct (beq (stage_id existing) (stage_id same)) eqn:Ee; intros [= <- <-]; [|left; eauto].
    apply beq_true in Ee. right. left. exists content, existing. split; [done|]. split; [done|].
    split; [done|]. split; [done|]. by exists id, same.
  - destruct by_id as [existing|]; [intros [= <- <-]; left; eauto|]. intros H. right. right.
    exists content. split; [done|]. split; [auto|]. split; [|done]. by eapply find_label_None.
Qed.

Lemma meta_at_None s id : dir_of s id ≫= meta_file = None -> meta_at s id = None.
Proof. unfold meta_at. by intros ->. Qed.

Lemma commit_wf scratch lb p b skew s r s' : store_wf s ->
  commit_in scratch lb p b skew s = (r, s') -> store_wf s'.
Proof.
  intros W [(-> & _)|[(content & m & _ & -> & _)|(content & -> & Hnone & Hlb & H)]]%commit_in_spec; [done|done|].
  pose proof (commit_new_spec _ _ _ _ _ _ _ _ _ Hnone H) as Hc. destruct r as [m|e].
  - destruct Hc as (pc & Hst & C). eapply wf_committed; [done|by apply meta_at_None|done|exact Hst|exact C].
  - exact (wf_in_progress _ s s' W Hnone Hc).
Qed.

(** ** Removals *)

Lemma resolve_in_member s reference m : resolve_in s reference = Ok m ->
  exists stages, list_in s = Ok stages /\ m ∈ stages.
Proof.
  unfold resolve_in. destruct (beq _ []); [done|]. intros (stages & Hl & H)%rbind_Ok. exists stages.
  split; [done|]. revert H. unfold resolve_among.
  assert (Hfind : forall f x, List.find f stages = Some x -> x ∈ stages)
    by (intros f x Hf; apply find_some in Hf as [Hf _]; by apply list_elem_of_In).
  assert (Honly : forall f k x, (k = Ok x -> x ∈ stages) -> only (List.filter f stages) k = Ok x -> x ∈ stages).
  { intros f k x Hk. destruct (List.filter f stages) as [|y [|? ?]] eqn:E; cbn; [done| |done].
    intros [= ->]. assert (Hin : In x (List.filter f stages)) by (rewrite E; by left).
    apply filter_In in Hin as [Hin _]. by apply list_elem_of_In. }
  destruct (List.find _ stages) eqn:Ef; [intros [= <-]; by eapply Hfind|].
  do 3 (apply Honly). done.
Qed.

Lemma meta_at_delete dirs id j : meta_at (Some (delete id dirs)) j = if decide (id = j) then None else meta_at (Some dirs) j.
Proof.
  unfold meta_at, dir_of. cbn. destruct (decide (id = j)) as [->|]; [by rewrite lookup_delete_eq|].
  by rewrite lookup_delete_ne.
Qed.

Lemma layer_at_delete dirs id j : id <> j -> layer_at (Some (delete id dirs)) j = layer_at (Some dirs) j.
Proof. intros Hne. unfold layer_at, dir_of. cbn. by rewrite lookup_delete_ne. Qed.

(** A removal takes away one stage that no chain but its own goes through, or changes nothing. *)
Lemma remove_in_spec reference s r s' : store_wf s -> remove_in reference s = (r, s') ->
  (s' = s /\ exists e, r = Err e) \/
  (exists t, meta_at s (stage_id t) = Some t /\
     (forall id x, meta_at s id = Some x -> id <> stage_id t -> stage_id t ∉ chain x) /\
     remove_dir_all (stage_id t) s = (rmap (fun _ => tt) r, s') /\ (forall m, r = Ok m -> m = t)).
Proof.
  intros W. unfold remove_in, reading, se_bind, se_ret.
  destruct (resolve_in s reference) as [t|e] eqn:Er; [|intros [= <- <-]; left; eauto].
  apply resolve_in_member in Er as (stages & Hl & Hin). rewrite Hl.
  destruct (length (referencing stages t) =? 0)%nat eqn:En; cbn [negb]; [|intros [= <- <-]; left; eauto].
  reflect_bools. apply length_zero_iff_nil in En. intros H. right. exists t.
  apply (list_in_spec s stages t Hl) in Hin as [id Hid]. destruct (wf_id _ W _ _ Hid) as [-> _].
  split; [done|]. split.
  - intros j x Hj Hne Hc. assert (Hx : x ∈ referencing stages t).
    { unfold referencing. apply list_elem_of_In, filter_In. split.
      - apply list_elem_of_In, (list_in_spec s stages x Hl). by exists j.
      - destruct (wf_id _ W _ _ Hj) as [-> _]. destruct (wf_id _ W _ _ Hid) as [-> _].
        apply andb_true_iff. split; [by apply negb_true_iff, bool_decide_eq_false|].
        apply existsb_exists. exists id. split; [by apply list_elem_of_In|by apply beq_true]. }
    rewrite En in Hx. by apply elem_of_nil in Hx.
  - destruct (wf_id _ W _ _ Hid) as [Eid _].
    rewrite Eid in H.
    destruct (remove_dir_all id s) as [[[]|e] s1]; injection H as <- <-; (split; [done|]); naive_solver.
Qed.

Lemma remove_wf reference s r s' : store_wf s -> remove_in reference s = (r, s') ->
  (forall id, r <> Err (IoFailed (RemoveDir id))) -> store_wf s'.
Proof.
  intros W H Hio. apply remove_in_spec in H as [(-> & _)|(t & Ht & Hfree & H & _)]; [done| |done].
  assert (Hfail : forall s1, (Err (IoFailed (RemoveDir (stage_id t))), s1) = (rmap (fun _ : StageMeta => tt) r, s') -> False).
  { intros s1 E. destruct r as [m|e]; cbn in E; [done|]. apply (Hio (stage_id t)). congruence. }
  unfold remove_dir_all in H. destruct s as [dirs|]; [|by apply Hfail in H].
  destruct (dirs !! stage_id t) as [[|d]|] eqn:Ed; try by apply Hfail in H.
  destruct (fails _); [by apply Hfail in H|].
  injection H as _ <-. set (id := stage_id t) in *.
  assert (Hold : forall j x, meta_at (Some (delete id dirs)) j = Some x -> id <> j /\ meta_at (Some dirs) j = Some x).
  { intros j x. rewrite meta_at_delete. destruct (decide (id = j)); [done|]. done. }
  split.
  - intros j x [Hne Hj]%Hold. rewrite layer_at_delete by done. by apply (wf_id _ W).
  - intros j x [Hne Hj]%Hold. by apply (wf_tip _ W).
  - intros j x [Hne Hj]%Hold. by apply (wf_parent _ W j).
  - intros j x pre a post [Hne Hj]%Hold E.
    destruct (wf_chain _ W _ _ _ _ _ Hj E) as (ma & Hma & Hr). exists ma. split; [|done].
    rewrite meta_at_delete, decide_False; [done|]. intros <-. apply (Hfree j x Hj); [done|].
    rewrite E. apply elem_of_app. right. by left.
  - intros i j mi mj [_ Hi]%Hold [_ Hj]%Hold. by apply (wf_label _ W).
Qed.

(** ** Mounting a chain *)

Lemma chain_paths_ok s id m : store_wf s -> meta_at s id = Some m ->
  chain_paths_in s m = Ok (map layer_path (chain m)).
Proof.
  intros W Hm. destruct (wf_tip _ W _ _ Hm) as (Hlast & _ & Hlen). destruct (wf_id _ W _ _ Hm) as [Hid _].
  unfold chain_paths_in.
  destruct (length (chain m) =? 0)%nat eqn:E0; reflect_bools.
  { apply length_zero_iff_nil in E0. by rewrite E0 in Hlast. }
  destruct (MAX_CHAIN_DEPTH <? _)%nat eqn:E1; reflect_bools; [lia|].
  rewrite bool_decide_eq_true_2 by congruence. cbn [negb]. apply traverse_Ok, Forall2_fmap_r, Forall_Forall2_diag.
  apply Forall_forall. intros a Ha. apply list_elem_of_split in Ha as (pre & post & E).
  destruct (wf_chain _ W _ _ _ _ _ Hm E) as (ma & Hma & _).
  destruct (wf_id _ W _ _ Hma) as [_ (content & Hl & _)]. unfold layer_at in Hl. by rewrite Hl.
Qed.

(** ** Finding what was committed *)

Lemma trim_ascii_ne c s : (code c < 128)%N -> is_whitespace (code c) = false -> trim (c :: s) <> [].
Proof.
  intros Hc Hw. unfold trim. cbn [utf8_items]. rewrite (proj2 (N.ltb_lt _ _) Hc). cbn [drop_white].
  rewrite Hw. cbn [rev].
  assert (H : forall l, exists l', drop_white (l ++ [Chr (code c) [c]]) = l' ++ [Chr (code c) [c]]).
  { induction l as [|i l [l' IH]]; cbn; [rewrite Hw; by exists []|].
    destruct i as [x raw|]; [|by exists (Bad :: l)]. destruct (is_whitespace x); [by exists l'|].
    by exists (Chr x raw :: l). }
  destruct (H (rev (utf8_items s))) as [l' ->]. rewrite rev_app_distr. done.
Qed.

Lemma resolve_by_id s m : store_wf s -> fails ReadDir = false -> meta_at s (stage_id m) = Some m ->
  resolve_in s (stage_id m) = Ok m.
Proof.
  intros W Hf Hm. destruct (wf_id _ W _ _ Hm) as [_ (content & _ & Eid)].
  unfold resolve_in. destruct (beq (trim (stage_id m)) []) eqn:Et.
  { apply beq_true in Et. rewrite Eid in Et. unfold stage_id_for in Et.
    apply trim_ascii_ne in Et; done. }
  assert (Hl : exists l, list_in s = Ok l) by (unfold list_in; rewrite Hf; destruct s; eauto).
  destruct Hl as [l Hl]. rewrite Hl. cbn [rbind]. unfold resolve_among.
  destruct (List.find _ l) as [x|] eqn:Ef.
  - apply find_some in Ef as [Hin Hx]. apply beq_true in Hx.
    apply list_elem_of_In, (list_in_spec s l x Hl) in Hin as [j Hj].
    destruct (wf_id _ W _ _ Hj) as [Ej _]. congruence.
  - pose proof (find_none _ _ Ef m) as H. cbn in H. rewrite (proj2 (beq_true _ _) eq_refl) in H.
    discriminate H. apply list_elem_of_In, (list_in_spec s l m Hl). by exists (stage_id m).
Qed.

Lemma commit_in_again s scratch lb p b skew content m : store_wf s -> fails ReadDir = false ->
  beq (trim lb) [] = false -> scratch = Some content ->
  meta_at s (stage_id_for content) = Some m -> label m = lb ->
  commit_in scratch lb p b skew s = (Ok m, s).
Proof.
  intros W Hf Hlb -> Hm El. unfold commit_in. rewrite Hlb. unfold se_bind, se_ret, reading. cbn [ok_or].
  assert (Hg : get_by_id_in s (stage_id_for content) = Ok (Some m)).
  { unfold get_by_id_in. unfold meta_at in Hm. destruct (dir_of s _ ≫= meta_file); [|done]. cbn in Hm. by rewrite Hm. }
  rewrite Hg.
  assert (Hl : exists l, list_in s = Ok l) by (unfold list_in; rewrite Hf; destruct s; eauto).
  destruct Hl as [l Hl]. rewrite Hl.
  destruct (List.find _ l) as [x|] eqn:Ef.
  - apply find_some in Ef as [Hin Hx]. apply beq_true in Hx.
    apply list_elem_of_In, (list_in_spec s l x Hl) in Hin as [j Hj].
    assert (j = stage_id_for content) as -> by (apply (wf_label _ W j _ x m); congruence).
    assert (x = m) as -> by congruence. by rewrite (proj2 (beq_true _ _) eq_refl).
  - exfalso. eapply (find_label_None s l lb Hl Ef); [exact Hm|done].
Qed.

Lemma commit_label_nonblank scratch lb p b skew s m s' :
  commit_in scratch lb p b skew s = (Ok m, s') -> beq (trim lb) [] = false.
Proof. unfold commit_in. by destruct (beq (trim lb) []). Qed.

(** A commit that succeeds leaves exactly the stage it reports: under the id of the bytes, with
    the label asked for, every other stage as it was; the stage is found by its id, its chain is
    the parent's with itself at the end, and committing the same bytes under the same label again
    answers the same stage and changes nothing, whatever parent and base are named then. *)
Theorem commit_reports_stage scratch lb p b skew s m s' :
  store_wf s -> fails ReadDir = false -> commit_in scratch lb p b skew s = (Ok m, s') ->
  exists content, scratch = Some content /\ stage_id m = stage_id_for content /\ label m = lb /\
    meta_at s' (stage_id m) = Some m /\
    (forall j, j <> stage_id m -> meta_at s' j = meta_at s j) /\
    (exists content', layer_at s' (stage_id m) = Some content' /\ stage_id_for content' = stage_id m) /\
    resolve_in s' (stage_id m) = Ok m /\
    (meta_at s (stage_id m) = None -> layer_at s' (stage_id m) = Some content /\
       chain m = match p with
                 | Some pid => match meta_at s pid with Some pm => chain pm | None => [] end
                 | None => []
                 end ++ [stage_id m]) /\
    forall p' b' skew', commit_in scratch lb p' b' skew' s' = (Ok m, s').
Proof.
  intros W Hf H. pose proof (commit_wf _ _ _ _ _ _ _ _ W H) as W'.
  pose proof (commit_label_nonblank _ _ _ _ _ _ _ _ H) as Hlb.
  assert (Hcase : exists content, scratch = Some content /\ stage_id m = stage_id_for content /\ label m = lb /\
    meta_at s' (stage_id m) = Some m /\ (forall j, j <> stage_id m -> meta_at s' j = meta_at s j) /\
    (meta_at s (stage_id m) = None -> layer_at s' (stage_id m) = Some content /\
       chain m = match p with
                 | Some pid => match meta_at s pid with Some pm => chain pm | None => [] end
                 | None => []
                 end ++ [stage_id m])).
  { apply commit_in_spec in H as [(_ & e & ?)|[(content & m0 & -> & -> & [= ->] & Hm & id & m' & Hm' & El & Ei)|(content & -> & Hnone & Hfree & H)]]; [done| |].
    - exists content. destruct (wf_id _ W _ _ Hm) as [E _]. destruct (wf_id _ W _ _ Hm') as [E' _].
      assert (m' = m0) as -> by congruence. rewrite E. split_and!; try done. congruence.
    - apply (commit_new_spec s content lb (stage_id_for content) p b skew (Ok m) s' Hnone) in H as (pc & Hst & C).
      destruct (committed_meta _ _ _ _ _ _ _ _ C) as (Hm & Hl & Ho).
      destruct C as (_ & _ & Eid & Elb & _ & Ech & _). exists content. rewrite Eid. split_and!; try done.
      + intros j Hj. by apply Ho.
      + intros _. split; [done|]. rewrite Ech. f_equal.
        apply stack_on_spec in Hst as [[-> ->]|(pid & pm & c & -> & Hp & -> & _)]; [done|]. by rewrite Hp. }
  destruct Hcase as (content & Hs & Eid & Elb & Hm & Ho & Hnew). exists content. split_and!; try done.
  - destruct (wf_id _ W' _ _ Hm) as [_ (c & Hl & Ec)]. exists c. by split.
  - by apply resolve_by_id.
  - intros p' b' skew'. apply (commit_in_again s' scratch lb p' b' skew' content m); [done|done|done|done| |done].
    by rewrite <- Eid.
Qed.

(** A fork is only ever recorded over layers of its own flavor of base, and, unless the operator
    allowed the skew, only over layers whose recorded build, where there is one, is the build of
    this base, wherever in the chain they are. *)
Theorem fork_compatible scratch lb pid b skew s m s' :
  store_wf s -> commit_in scratch lb (Some pid) b skew s = (Ok m, s') -> meta_at s (stage_id m) = None ->
  forall a, a ∈ chain m -> a <> stage_id m -> exists ma, meta_at s a = Some ma /\
    base ma = flavor b /\
    (skew = false -> forall x y, non_empty (base_sha256 ma) = Some x -> non_empty (sha256 b) = Some y -> x = y).
Proof.
  intros W H Hfresh a Ha Hne.
  apply commit_in_spec in H as [(_ & e & ?)|[(content & m0 & -> & -> & [= ->] & Hm & _)|(content & -> & Hnone & _ & H)]]; [done| |].
  - destruct (wf_id _ W _ _ Hm) as [E _]. congruence.
  - apply (commit_new_spec s content lb (stage_id_for content) (Some pid) b skew (Ok m) s' Hnone) in H as (pc & Hst & C).
    destruct C as (_ & _ & Eid & _ & _ & Ech & _).
    apply stack_on_spec in Hst as [[? _]|(pid' & pm & c & [= <-] & Hp & -> & Hc & Hr & Hr2)]; [done|].
    rewrite Ech in Ha. apply elem_of_app in Ha as [Ha|Ha]; [|apply list_elem_of_singleton in Ha; congruence].
    destruct (chain_checked _ _ _ _ _ W Hp Hc a Ha) as (ma & Hma & Hrank). exists ma. split; [done|].
    destruct (check_base_rank ma b) as [B1 B2]. split; [apply B1; lia|]. intros Hsk. specialize (Hr2 Hsk).
    intros x y. apply B2. lia.
Qed.
End codec.
End store.

(** ** The life of a store *)

(** One command on the store, with whatever the clock says and whichever calls fail; a removal
    that fails half-way is left out, since it may leave a stage without its layer. *)
Inductive store_step (from_str : bytes -> option StageMeta) (to_string : StageMeta -> bytes)
    (blake3_hex : bytes -> bytes) (s : Store) : Store -> Prop :=
  | step_commit allocated now fails scratch lb p b skew r s' :
      commit_in from_str to_string blake3_hex allocated now fails scratch lb p b skew s = (r, s') ->
      store_step from_str to_string blake3_hex s s'
  | step_remove fails torn reference r s' :
      remove_in from_str fails torn reference s = (r, s') ->
      (forall id, r <> Err (IoFailed (RemoveDir id))) ->
      store_step from_str to_string blake3_hex s s'.

(** C24: From an empty store, whatever is committed and removed and wherever a commit fails: every
    stage is under the id of its layer's bytes, labels are unique, every chain is root-first,
    without repetition, within the depth that boots and over one flavor of base, no stage a chain
    goes through is ever missing, and each stage's layers are there to be mounted, oldest first. *)
Theorem stage_store_invariant from_str to_string blake3_hex s :
  (forall m, from_str (to_string m) = Some m) ->
  rtc (store_step from_str to_string blake3_hex) None s ->
  store_wf from_str blake3_hex s /\
  forall id m, meta_at from_str s id = Some m ->
    chain_paths_in s m = Ok (map layer_path (chain m)).
Proof.
  intros codec Hs. assert (W : store_wf from_str blake3_hex s).
  { assert (W0 : store_wf from_str blake3_hex None) by (split; intros; done).
    revert W0. generalize (@None (gmap bytes entry)) Hs. clear Hs. intros s0 Hs W0.
    induction Hs as [|s1 s2 s3 Hstep _ IH]; [done|]. apply IH.
    destruct Hstep as [al now fails scratch lb p b skew r s' H|fails torn reference r s' H Hio].
    - eapply commit_wf; [exact codec|exact W0|exact H].
    - exact (remove_wf from_str to_string blake3_hex (fun _ => 0%N) fails torn reference _ r s' W0 H Hio). }
  split; [done|]. intros id m Hm. by eapply chain_paths_ok.
Qed.

(** ** A store on paper

    The codec prints the number of the metadata in binary. *)

#[export] Instance StageMeta_countable : Countable StageMeta.
Proof.
  refine (inj_countable'
    (fun m => (stage_id m, name m, label m, parent m, chain m, base m, base_sha256 m,
               created_unix m, bytes_apparent m, bytes_allocated m))
    (fun '(a, b, c, d, e, f, g, h, i, j) => MkStageMeta a b c d e f g h i j) _).
  by intros [].
Defined.

Fixpoint bits (p : positive) : bytes :=
  match p with xH => [] | xO p => "0"%char :: bits p | xI p => "1"%char :: bits p end.
Fixpoint unbits (s : bytes) : positive :=
  match s with [] => xH | c :: r => if Ascii.eqb c "0" then xO (unbits r) else xI (unbits r) end.

Definition demo_to_string (m : StageMeta) : bytes := bits (encode m).
Definition demo_from_str (s : bytes) : option StageMeta := decode (unbits s).

Lemma demo_codec m : demo_from_str (demo_to_string m) = Some m.
Proof.
  unfold demo_from_str, demo_to_string.
  assert (H : forall p, unbits (bits p) = p) by (induction p; cbn; congruence).
  rewrite H. apply decode_encode.
Qed.

Definition demo_commit (content label : string) (parent : option bytes) (base : BaseId) (s : Store) :=
  commit_in demo_from_str demo_to_string (fun c => c) (fun _ => 0%N) 7 (fun _ => false)
    (Some (B content)) (B label) parent base false s.

Definition alpine : BaseId := MkBaseId (B "base-alpine") (Some (B "aa")).
Definition demo_s1 : Store := snd (demo_commit "0000000000000000" "one" None alpine None).
Definition demo_s2 : Store := snd (demo_commit "1111111111111111" "two" (Some (B "st-0000000000000000")) alpine demo_s1).

Lemma demo_s1_wf : store_wf demo_from_str (fun c => c) demo_s1.
Proof.
  apply (commit_wf _ demo_to_string (fun c => c) (fun _ => 0%N) 7 (fun _ => false) demo_codec
    (Some (B "0000000000000000")) (B "one") None alpine false None
    (fst (demo_commit "0000000000000000" "one" None alpine None)) demo_s1).
  - split; intros; done.
  - apply surjective_pairing.
Qed.

Lemma demo_steps : rtc (store_step demo_from_str demo_to_string (fun c => c)) None demo_s2.
Proof.
  apply (rtc_l _ _ demo_s1).
  - eapply step_commit. apply surjective_pairing.
  - apply rtc_once. eapply step_commit. apply surjective_pairing.
Qed.

Lemma stage_store_invariant_witness :
  exists m, meta_at demo_from_str demo_s2 (B "st-1111111111111111") = Some m /\
    chain m = [B "st-0000000000000000"; B "st-1111111111111111"] /\
    chain_paths_in demo_s2 m = Ok [B "st-0000000000000000/layer.ext4"; B "st-1111111111111111/layer.ext4"].
Proof.
  destruct (meta_at demo_from_str demo_s2 (B "st-1111111111111111")) as [m|] eqn:E.
  2: { exfalso. assert (H : is_Some (meta_at demo_from_str demo_s2 (B "st-1111111111111111")))
         by (apply (bool_decide_unpack _); vm_compute; exact I). rewrite E in H. by destruct H. }
  exists m. split; [reflexivity|].
  assert (Hc : chain m = [B "st-0000000000000000"; B "st-1111111111111111"]).
  { assert (H : option_map chain (meta_at demo_from_str demo_s2 (B "st-1111111111111111"))
      = Some [B "st-0000000000000000"; B "st-1111111111111111"]) by (vm_compute; reflexivity).
    rewrite E in H. by injection H. }
  split; [done|].
  rewrite (proj2 (stage_store_invariant _ _ _ _ demo_codec demo_steps) _ _ E), Hc. reflexivity.
Defined.

Lemma commit_reports_stage_witness :
  exists m, fst (demo_commit "1111111111111111" "two" (Some (B "st-0000000000000000")) alpine demo_s1) = Ok m /\
    stage_id m = B "st-1111111111111111" /\
    resolve_in demo_from_str (fun _ => false) demo_s2 (stage_id m) = Ok m /\
    demo_commit "1111111111111111" "two" None alpine demo_s2 = (Ok m, demo_s2).
Proof.
  destruct (fst (demo_commit "1111111111111111" "two" (Some (B "st-0000000000000000")) alpine demo_s1)) as [m|e] eqn:E.
  2: { exfalso. assert (H : is_ok (fst (demo_commit "1111111111111111" "two" (Some (B "st-0000000000000000")) alpine demo_s1)) = true)
         by (vm_compute; reflexivity). rewrite E in H. done. }
  exists m. split; [reflexivity|].
  assert (Hrun : demo_commit "1111111111111111" "two" (Some (B "st-0000000000000000")) alpine demo_s1 = (Ok m, demo_s2)).
  { rewrite <- E. exact (surjective_pairing _). }
  destruct (commit_reports_stage _ _ _ _ _ _ demo_codec _ _ _ _ _ _ _ _ demo_s1_wf eq_refl Hrun)
    as (content & [= <-] & Hid & _ & _ & _ & _ & Hres & _ & Hagain).
  split; [exact Hid|]. split; [exact Hres|]. apply Hagain.
Defined.

(** ** A name that is a label

    A stage's generated name is kept apart from the other stages' names, not from their labels,
    and [resolve_in] looks at names first: after the second commit the first stage's label leads to
    the second stage. *)
Example name_shadows_label :
  let lb := base_name (B "st-2222222222222222") in
  let s1 := snd (commit_in demo_from_str demo_to_string (fun c => c) (fun _ => 0%N) 7 (fun _ => false)
    (Some (B "0000000000000000")) lb None alpine false None) in
  let s2 := snd (demo_commit "2222222222222222" "other" None alpine s1) in
  rmap stage_id (resolve_in demo_from_str (fun _ => false) s1 lb) = Ok (B "st-0000000000000000") /\
  rmap stage_id (resolve_in demo_from_str (fun _ => false) s2 lb) = Ok (B "st-2222222222222222").
Proof. vm_compute. done. Qed.

Lemma fork_compatible_witness :
  fst (demo_commit "1111111111111111" "two" (Some (B "st-0000000000000000")) (MkBaseId (B "base-alpine") (Some (B "bb"))) demo_s1)
    = Err (WillNotStack (B "st-0000000000000000")
        (Some (Rebuilt (B "st-0000000000000000") (B "one") (B "aa") (B "bb")))) /\
  exists m s', demo_commit "1111111111111111" "two" (Some (B "st-0000000000000000")) alpine demo_s1 = (Ok m, s') /\
    exists ma, meta_at demo_from_str demo_s1 (B "st-0000000000000000") = Some ma /\ base ma = flavor alpine.
Proof.
  split; [vm_compute; reflexivity|].
  destruct (demo_commit "1111111111111111" "two" (Some (B "st-0000000000000000")) alpine demo_s1) as [[m|e] s'] eqn:E.
  2: { exfalso. assert (H : is_ok (fst (demo_commit "1111111111111111" "two" (Some (B "st-0000000000000000")) alpine demo_s1)) = true)
         by (vm_compute; reflexivity). by rewrite E in H. }
  exists m, s'. split; [reflexivity|].
  assert (Hm : rmap (fun m => (stage_id m, chain m))
      (fst (demo_commit "1111111111111111" "two" (Some (B "st-0000000000000000")) alpine demo_s1))
    = Ok (B "st-1111111111111111", [B "st-0000000000000000"; B "st-1111111111111111"])).
  { vm_compute. reflexivity. }
  rewrite E in Hm. injection Hm as Hid Hch.
  destruct (fork_compatible _ _ _ _ _ _ _ _ _ _ _ _ _ _ demo_s1_wf E ltac:(rewrite Hid; vm_compute; reflexivity) (B "st-0000000000000000"))
    as (ma & Hma & Hb & _).
  - rewrite Hch. left.
  - rewrite Hid. apply (bool_decide_unpack _). vm_compute. exact I.
  - exists ma. split; [exact Hma|exact Hb].
Defined.
