(* ===== verification/Auth.v ===== *)
(** * Where a registry request may go ([crates/oci-registry/src/auth.rs])

    The token challenge, the rule that a credential stays on its origin, and the destination
    floor: which URLs and which addresses a pull may dial.  All of it judges text a registry
    chose.

    The [url] crate is an interface: [UrlLib] has its operations, [UrlLaws] what its documentation
    says of them.  [PlainUrl] is a small instance for the concrete runs.  The text of the refusals
    is left out: an error carries what it names. *)
From S2P Require Import Prelude Text IpAddr Egress.

(** ** The [url] crate *)

Inductive UrlHost : Type :=
  | Domain (d : bytes)
  | HostV4 (ip : ipv4)
  | HostV6 (ip : ipv6).

(** The [Display] of [url::Host]. *)
Definition show_host (h : UrlHost) : bytes :=
  match h with
  | Domain d => d
  | HostV4 ip => show_ipv4 ip
  | HostV6 ip => B "[" ++ show_ipv6 ip ++ B "]"
  end.

Class UrlLib (Url : Type) : Type := {
  url_parse : bytes -> result Url bytes;
  url_join : Url -> bytes -> result Url bytes;
  url_text : Url -> bytes;
  scheme : Url -> bytes;
  url_host : Url -> option UrlHost;
  host_str : Url -> option bytes;
  port_or_known_default : Url -> option N;
  (** [query_pairs_mut] and one [append_pair] for each pair. *)
  append_pairs : list (bytes * bytes) -> Url -> Url }.

Class UrlLaws (Url : Type) `{UrlLib Url} : Prop := {
  (** A path after an http URL without one does not change where it leads. *)
  url_parse_origin b path u v :
    starts_with (B "http://") b || starts_with (B "https://") b = true ->
    url_parse b = Ok u -> url_parse (b ++ "/"%char :: path) = Ok v ->
    scheme v = scheme u /\ url_host v = url_host u /\ port_or_known_default v = port_or_known_default u;
  host_str_host u : host_str u = option_map show_host (url_host u);
  append_pairs_scheme ps u : scheme (append_pairs ps u) = scheme u;
  append_pairs_host ps u : url_host (append_pairs ps u) = url_host u;
  append_pairs_port ps u : port_or_known_default (append_pairs ps u) = port_or_known_default u }.

(** ** A challenge's parameters *)

Definition quote : ascii := ascii_of_N 34.

Definition is_char (c : ascii) (i : utf8_item) : bool :=
  match i with Chr n _ => (n =? code c)%N | Bad => false end.
Definition is_white (i : utf8_item) : bool :=
  match i with Chr n _ => is_whitespace n | Bad => false end.
Definition is_separator (i : utf8_item) : bool := is_char "," i || is_white i.

(** Up to and past the next [=], dropping separators. *)
Fixpoint read_key (key : bytes) (s : list utf8_item) : bytes * list utf8_item :=
  match s with
  | [] => (key, [])
  | c :: r => if is_char "=" c then (key, r)
              else read_key (if is_separator c then key else key ++ item_bytes c) r
  end.

Fixpoint read_quoted (value : bytes) (s : list utf8_item) : bytes * list utf8_item :=
  match s with
  | [] => (value, [])
  | c :: r => if is_char quote c then (value, r) else read_quoted (value ++ item_bytes c) r
  end.

Fixpoint read_bare (value : bytes) (s : list utf8_item) : bytes * list utf8_item :=
  match s with
  | [] => (value, [])
  | c :: r => if is_char "," c then (value, s) else read_bare (value ++ item_bytes c) r
  end.

Fixpoint skip_separators (s : list utf8_item) : list utf8_item :=
  match s with
  | [] => []
  | c :: r => if is_separator c then skip_separators r else s
  end.

Definition read_value (s : list utf8_item) : bytes * list utf8_item :=
  match s with
  | c :: r => if is_char quote c then read_quoted [] r else read_bare [] s
  | [] => ([], [])
  end.

(** One turn of the loop for each unit of fuel. *)
Fixpoint params_go (fuel : nat) (s : list utf8_item) : list (bytes * bytes) :=
  match fuel with
  | O => []
  | S fuel =>
      let '(key, s) := read_key [] s in
      if beq key [] then []
      else
        let '(value, s) := read_value s in
        (to_ascii_lowercase key, value) ::
        match skip_separators s with
        | [] => []
        | s => params_go fuel s
        end
  end.

Definition params (s : bytes) : list (bytes * bytes) :=
  let items := utf8_items s in params_go (S (length items)) items.

(** ** The destination floor *)

Definition to_ipv4_low (ip : ipv6) : ipv4 :=
  let 'Ipv6 _ _ _ _ _ _ s6 s7 := ip in Ipv4 (fst s6) (snd s6) (fst s7) (snd s7).

Definition embedded_ipv4 (ip : ipv6) : option ipv4 :=
  match Ipv6Addr.to_ipv4_mapped ip with
  | Some v4 => Some v4
  | None =>
      let 'Ipv6 s0 s1 s2 s3 s4 s5 s6 s7 := ip in
      let zero s := (seg_val s =? 0)%N in
      if (seg_val s0 =? 100)%N && (seg_val s1 =? 65435)%N && forallb zero [s2; s3; s4; s5]
      then Some (to_ipv4_low ip)
      else if forallb zero [s0; s1; s2; s3; s4; s5] && negb (zero s6 && (seg_val s7 <=? 1)%N)
      then Some (to_ipv4_low ip)
      else None
  end.

Definition ipv4_is_allowed (ip : ipv4) (allow_local : bool) : bool :=
  if allow_local && Ipv4Addr.is_loopback ip then true
  else
    let 'Ipv4 a b _ _ := ip in
    let is_shared := (code a =? 100)%N && (N.land (code b) 192 =? 64)%N in
    negb (Ipv4Addr.is_loopback ip || Ipv4Addr.is_private ip || Ipv4Addr.is_link_local ip ||
          Ipv4Addr.is_broadcast ip || Ipv4Addr.is_documentation ip || Ipv4Addr.is_multicast ip ||
          Ipv4Addr.is_unspecified ip || is_shared).

Definition address_is_allowed (ip : ip_addr) (allow_local : bool) : bool :=
  match ip with
  | V4 v4 => ipv4_is_allowed v4 allow_local
  | V6 v6 =>
      match embedded_ipv4 v6 with
      | Some v4 => ipv4_is_allowed v4 allow_local
      | None =>
          if allow_local && Ipv6Addr.is_loopback v6 then true
          else
            let 'Ipv6 s0 _ _ _ _ _ _ _ := v6 in
            let seg := seg_val s0 in
            negb (Ipv6Addr.is_loopback v6 || Ipv6Addr.is_unspecified v6 || Ipv6Addr.is_multicast v6 ||
                  (N.land seg 65024 =? 64512)%N || (N.land seg 65472 =? 65152)%N ||
                  (N.land seg 65472 =? 65216)%N)
      end
  end.

(** A socket address: an address and a port. *)
Abbreviation SocketAddr := (ip_addr * N)%type.

Inductive ScreenError : Type :=
  | NoAddresses (host : bytes)
  | Floored (host : bytes) (bad : ip_addr)
  | DidNotResolve (host detail : bytes)
  | ResolveTimedOut (host : bytes).

Definition screen_resolved (host : bytes) (addrs : list SocketAddr) (allow_local : bool) :
    result (list SocketAddr) ScreenError :=
  match addrs with
  | [] => Err (NoAddresses host)
  | _ =>
      match List.find (fun a => negb (address_is_allowed (fst a) allow_local)) addrs with
      | Some bad => Err (Floored host (fst bad))
      | None => Ok addrs
      end
  end.

(** How [tokio::time::timeout] around [lookup_host] ends. *)
Inductive Lookup : Type :=
  | Found (addrs : list SocketAddr)
  | Failed (detail : bytes)
  | Elapsed.

(** [FlooredResolver::resolve], given how the lookup of the name ended. *)
Definition FlooredResolver_resolve (allow_local : bool) (host : bytes) (answer : Lookup) :
    result (list SocketAddr) ScreenError :=
  match answer with
  | Found addrs => screen_resolved host addrs allow_local
  | Failed e => Err (DidNotResolve host e)
  | Elapsed => Err (ResolveTimedOut host)
  end.

(** ** URLs and challenges *)

Section urls.
Context {Url : Type} `{UrlLib Url}.

Definition may_carry_credential (from to : Url) : bool :=
  beq (scheme from) (scheme to) && bool_decide (host_str from = host_str to) &&
  bool_decide (port_or_known_default from = port_or_known_default to).

Definition is_loopback_url (u : Url) : bool :=
  match host_str u with
  | Some h => existsb (beq h) [B "localhost"; B "127.0.0.1"; B "[::1]"; B "::1"]
  | None => false
  end.

Definition destination_is_allowed (to : Url) (allow_local : bool) : bool :=
  if negb (beq (scheme to) (B "https")) && negb (allow_local && is_loopback_url to) then false
  else
    match url_host to with
    | None => false
    | Some (Domain d) => allow_local || negb (beq d (B "localhost") || ends_with (B ".localhost") d)
    | Some (HostV4 ip) => address_is_allowed (V4 ip) allow_local
    | Some (HostV6 ip) => address_is_allowed (V6 ip) allow_local
    end.

Record Challenge : Type := MkChallenge {
  realm : Url;
  service : option bytes;
  scope : option bytes }.

Inductive ChallengeError : Type :=
  | NotBearer (header : bytes)
  | NoRealm (header : bytes)
  | RealmNotUrl (realm detail : bytes)
  | RealmFloored (realm : Url).

(** The loop over the parameters: realm, service and scope so far; the last of a name wins. *)
Definition take_param (acc : option bytes * option bytes * option bytes) (kv : bytes * bytes) :
    option bytes * option bytes * option bytes :=
  let '(realm, service, scope) := acc in
  let '(k, v) := kv in
  if beq k (B "realm") then (Some v, service, scope)
  else if beq k (B "service") then (realm, Some v, scope)
  else if beq k (B "scope") then (realm, service, Some v)
  else acc.

(** [Challenge::parse] *)
Definition parse_challenge (header : bytes) (allow_local : bool) : result Challenge ChallengeError :=
  let? rest := ok_or (match strip_prefix (B "Bearer ") header with
                      | Some r => Some r
                      | None => strip_prefix (B "bearer ") header
                      end) (NotBearer header) in
  let '(realm, service, scope) := fold_left take_param (params rest) (None, None, None) in
  let? realm := ok_or realm (NoRealm header) in
  let? realm := map_err (RealmNotUrl realm) (url_parse realm) in
  if negb (destination_is_allowed realm allow_local) then Err (RealmFloored realm)
  else Ok (MkChallenge realm service scope).

Definition pair_of (k : bytes) (v : option bytes) : list (bytes * bytes) :=
  match v with Some s => [(k, s)] | None => [] end.

Definition token_url (c : Challenge) : Url :=
  append_pairs (pair_of (B "service") (service c) ++ pair_of (B "scope") (scope c)) (realm c).
End urls.
Arguments Challenge : clear implicits.
Arguments ChallengeError : clear implicits.

(** ** The address floor is the broker's guard *)

Lemma ipv4_allowed_dialable v4 : ipv4_is_allowed v4 false = is_dialable_v4 v4 false.
Proof.
  destruct v4 as [a b c d]. unfold ipv4_is_allowed, is_dialable_v4. cbn [andb].
  replace (N.land (code b) 192 =? 64)%N with (between 64 127 b) by (symmetry; by all_bytes b).
  destruct ((code a =? 10)%N && (code b =? 107)%N) eqn:Eslot.
  { apply andb_true_iff in Eslot as [Ea _]. unfold Ipv4Addr.is_private. rewrite Ea.
    destruct (Ipv4Addr.is_loopback _); done. }
  destruct (Ipv4Addr.is_loopback _), (Ipv4Addr.is_private _), (Ipv4Addr.is_link_local _),
    (Ipv4Addr.is_broadcast _), (Ipv4Addr.is_documentation _), (Ipv4Addr.is_multicast _),
    (Ipv4Addr.is_unspecified _), ((code a =? 100)%N && between 64 127 b); done.
Qed.

Lemma ipv4_allowed_local v4 :
  ipv4_is_allowed v4 true = Ipv4Addr.is_loopback v4 || ipv4_is_allowed v4 false.
Proof. unfold ipv4_is_allowed. cbn [andb]. by destruct (Ipv4Addr.is_loopback v4). Qed.

Lemma in_blocks_app l m ip : in_blocks (l ++ m) ip <-> in_blocks l ip \/ in_blocks m ip.
Proof. apply Exists_app. Qed.

(** The three blocks of IPv6 addresses that spell an IPv4 one, and the two addresses in them that
    do not. *)
Definition embedding_v6 : list string := ["::ffff:0:0/96"; "64:ff9b::/96"; "::/96"]%string.

Lemma seg_val_test n h l : (n < 65536)%N ->
  (seg_val (h, l) =? n)%N = (code h =? n / 256)%N && (code l =? n mod 256)%N.
Proof.
  intros Hn. apply eq_true_iff_eq. rewrite andb_true_iff, !N.eqb_eq. unfold seg_val. cbn [fst snd].
  pose proof (code_lt h). pose proof (code_lt l). pose proof (N.div_mod n 256 ltac:(done)).
  pose proof (N.mod_lt n 256 ltac:(done)).
  generalize dependent (n / 256)%N. generalize dependent (n mod 256)%N. intros. lia.
Qed.

Lemma seg_val_small h l : (seg_val (h, l) <=? 1)%N = (code h =? 0)%N && (code l <=? 1)%N.
Proof.
  apply eq_true_iff_eq. rewrite andb_true_iff, N.eqb_eq, !N.leb_le. unfold seg_val. cbn [fst snd]. lia.
Qed.

Lemma v6_blocks_embedding v6 :
  existsb (fun k => Cidr.contains k (V6 v6)) (blocks embedding_v6) =
  let 'Ipv6 s0 s1 s2 s3 s4 s5 _ _ := v6 in
  forallb (fun s => seg_val s =? 0)%N [s0; s1; s2; s3; s4] && (seg_val s5 =? 65535)%N ||
  (seg_val s0 =? 100)%N && (seg_val s1 =? 65435)%N && forallb (fun s => seg_val s =? 0)%N [s2; s3; s4; s5] ||
  forallb (fun s => seg_val s =? 0)%N [s0; s1; s2; s3; s4; s5].
Proof.
  destruct v6 as [[h0 l0] [h1 l1] [h2 l2] [h3 l3] [h4 l4] [h5 l5] [h6 l6] [h7 l7]].
  let v := eval vm_compute in (blocks embedding_v6) in change (blocks embedding_v6) with v.
  cbn [existsb Cidr.contains base prefix octets6 segments map concat fst snd app]. octet_tests.
  rewrite !seg_val_test by done. autorewrite with blocks.
  repeat match goal with
  | |- context [eqc ?x ?a] =>
      let v := eval vm_compute in (code x) in change (eqc x a) with (code a =? v)%N
  end.
  rewrite ?andb_true_r, ?orb_false_r, ?andb_assoc, ?orb_assoc. reflexivity.
Qed.

Lemma seg_of_test n s : (n < 65536)%N -> s = seg_of n <-> (seg_val s =? n)%N = true.
Proof.
  intros Hn. destruct s as [h l]. rewrite seg_val_test, andb_true_iff, !N.eqb_eq by done. unfold seg_of.
  pose proof (N.mod_lt n 256 ltac:(done)). assert (n / 256 < 256)%N by (apply N.Div0.div_lt_upper_bound; lia).
  split.
  - intros [= -> ->]. by rewrite !code_of_N.
  - intros [Eh El]. f_equal; apply code_inj; by rewrite code_of_N.
Qed.

Lemma loopback_or_unspecified v6 :
  Ipv6Addr.is_loopback v6 || Ipv6Addr.is_unspecified v6 =
  let 'Ipv6 s0 s1 s2 s3 s4 s5 s6 s7 := v6 in
  forallb (fun s => seg_val s =? 0)%N [s0; s1; s2; s3; s4; s5] && ((seg_val s6 =? 0) && (seg_val s7 <=? 1))%N.
Proof.
  destruct v6 as [s0 s1 s2 s3 s4 s5 s6 s7]. apply eq_true_iff_eq.
  unfold Ipv6Addr.is_loopback, Ipv6Addr.is_unspecified, Ipv6Addr.localhost, Ipv6Addr.unspecified, Ipv6Addr.zero.
  rewrite orb_true_iff, !bool_decide_eq_true. cbn [forallb]. rewrite !andb_true_iff.
  assert (Hinj : forall t7, Ipv6 s0 s1 s2 s3 s4 s5 s6 s7 =
    Ipv6 (seg_of 0) (seg_of 0) (seg_of 0) (seg_of 0) (seg_of 0) (seg_of 0) (seg_of 0) t7 <->
    (s0 = seg_of 0 /\ s1 = seg_of 0 /\ s2 = seg_of 0 /\ s3 = seg_of 0 /\ s4 = seg_of 0 /\ s5 = seg_of 0 /\
     s6 = seg_of 0 /\ s7 = t7)).
  { intros t7. split; [by intros [=]|]. by intros (-> & -> & -> & -> & -> & -> & -> & ->). }
  rewrite !Hinj, !seg_of_test by done.
  assert (H7 : (seg_val s7 <=? 1)%N = true <-> (seg_val s7 =? 1)%N = true \/ (seg_val s7 =? 0)%N = true)
    by (rewrite N.leb_le, !N.eqb_eq; lia).
  rewrite H7. tauto.
Qed.

(** Where [embedded_ipv4] answers, and with the last four octets. *)
Lemma embedded_ipv4_test v6 :
  embedded_ipv4 v6 =
  if existsb (fun k => Cidr.contains k (V6 v6)) (blocks embedding_v6) &&
     negb (Ipv6Addr.is_loopback v6 || Ipv6Addr.is_unspecified v6)
  then Some (to_ipv4_low v6) else None.
Proof.
  rewrite v6_blocks_embedding, loopback_or_unspecified. destruct v6 as [s0 s1 s2 s3 s4 s5 s6 s7].
  unfold embedded_ipv4, Ipv6Addr.to_ipv4_mapped, Ipv6Addr.zero.
  assert (Hm : bool_decide (s0 = seg_of 0 /\ s1 = seg_of 0 /\ s2 = seg_of 0 /\ s3 = seg_of 0 /\
                            s4 = seg_of 0 /\ s5 = seg_of 65535) =
               forallb (fun s => seg_val s =? 0)%N [s0; s1; s2; s3; s4] && (seg_val s5 =? 65535)%N).
  { apply eq_true_iff_eq. rewrite bool_decide_eq_true, !seg_of_test by done. cbn [forallb].
    rewrite !andb_true_iff. tauto. }
  rewrite Hm. cbn [forallb]. rewrite ?andb_true_r.
  assert (Hx : (seg_val s5 =? 0)%N && (seg_val s5 =? 65535)%N = false)
    by (apply not_true_iff_false; rewrite andb_true_iff, !N.eqb_eq; lia).
  assert (Hy : (seg_val s0 =? 0)%N && (seg_val s0 =? 100)%N = false)
    by (apply not_true_iff_false; rewrite andb_true_iff, !N.eqb_eq; lia).
  revert Hx Hy.
  destruct (seg_val s0 =? 0)%N, (seg_val s0 =? 100)%N, (seg_val s1 =? 0)%N, (seg_val s1 =? 65435)%N,
    (seg_val s2 =? 0)%N, (seg_val s3 =? 0)%N, (seg_val s4 =? 0)%N, (seg_val s5 =? 0)%N,
    (seg_val s5 =? 65535)%N; cbn; try discriminate; intros _ _; try reflexivity;
    destruct ((seg_val s6 =? 0)%N && (seg_val s7 <=? 1)%N); reflexivity.
Qed.

Lemma embedded_ipv4_spec v6 v4 :
  embedded_ipv4 v6 = Some v4 <->
  v4 = to_ipv4_low v6 /\ in_blocks embedding_v6 (V6 v6) /\ v6 <> Ipv6Addr.localhost /\ v6 <> Ipv6Addr.unspecified.
Proof.
  rewrite embedded_ipv4_test, in_blocks_test. unfold Ipv6Addr.is_loopback, Ipv6Addr.is_unspecified.
  destruct (existsb _ _); cbn [andb]; [|naive_solver].
  do 2 case_bool_decide; cbn [orb negb]; naive_solver.
Qed.

Lemma eq_iff_eq_false (a b : bool) : a = b -> (a = false <-> b = false).
Proof. by intros ->. Qed.

Lemma v6_group_tests v6 :
  let 'Ipv6 s0 _ _ _ _ _ _ _ := v6 in
  negb (Ipv6Addr.is_loopback v6 || Ipv6Addr.is_unspecified v6 || Ipv6Addr.is_multicast v6 ||
        (N.land (seg_val s0) 65024 =? 64512)%N || (N.land (seg_val s0) 65472 =? 65152)%N ||
        (N.land (seg_val s0) 65472 =? 65216)%N) = true <->
  ~ in_blocks (never_v6 ++ private_v6) (V6 v6).
Proof.
  destruct v6 as [s0 s1 s2 s3 s4 s5 s6 s7].
  rewrite in_blocks_app, !in_blocks_test, v6_blocks_never, v6_blocks_private, negb_true_iff.
  rewrite <- orb_true_iff, not_true_iff_false. apply eq_iff_eq_false.
  destruct (Ipv6Addr.is_loopback _), (Ipv6Addr.is_unspecified _), (Ipv6Addr.is_multicast _),
    (_ =? 65152)%N, (_ =? 65216)%N, (_ =? 64512)%N; reflexivity.
Qed.

Lemma v4_floor v4 : ipv4_is_allowed v4 false = true <-> ~ in_blocks (never_v4 ++ private_v4) (V4 v4).
Proof. rewrite ipv4_allowed_dialable, dialable_v4_spec, in_blocks_app. naive_solver. Qed.

Lemma floor_spec ip :
  address_is_allowed ip false = true <->
  match ip with
  | V4 _ => ~ in_blocks (never_v4 ++ private_v4) ip
  | V6 v6 => match embedded_ipv4 v6 with
             | Some v4 => ~ in_blocks (never_v4 ++ private_v4) (V4 v4)
             | None => ~ in_blocks (never_v6 ++ private_v6) ip
             end
  end.
Proof.
  destruct ip as [v4|v6]; [apply v4_floor|]. cbn [address_is_allowed].
  destruct (embedded_ipv4 v6) as [v4|]; [apply v4_floor|]. cbn [andb].
  pose proof (v6_group_tests v6) as Hg. by destruct v6.
Qed.

(** The address a packet to [ip] reaches, however it is spelled. *)
Definition reaches (ip : ip_addr) : ip_addr :=
  match ip with
  | V4 v4 => V4 v4
  | V6 v6 => match embedded_ipv4 v6 with Some v4 => V4 v4 | None => V6 v6 end
  end.

Definition reached_loopback (ip : ip_addr) : bool :=
  match ip with V4 v4 => Ipv4Addr.is_loopback v4 | V6 v6 => Ipv6Addr.is_loopback v6 end.

Lemma floor_local ip :
  address_is_allowed ip true = reached_loopback (reaches ip) || address_is_allowed ip false.
Proof.
  destruct ip as [v4|v6]; [apply ipv4_allowed_local|]. unfold reaches. cbn [address_is_allowed].
  destruct (embedded_ipv4 v6) as [v4|]; [apply ipv4_allowed_local|]. cbn [andb reached_loopback].
  destruct (Ipv6Addr.is_loopback v6); reflexivity.
Qed.

Lemma embedded_v6_dialable v6 v4 :
  embedded_ipv4 v6 = Some v4 -> is_dialable_v4 v4 false = true -> is_dialable (V6 v6) false = true.
Proof.
  intros He Hd. pose proof He as (-> & Hb & Hn)%embedded_ipv4_spec.
  assert (Hlu : Ipv6Addr.is_loopback v6 || Ipv6Addr.is_unspecified v6 = false).
  { unfold Ipv6Addr.is_loopback, Ipv6Addr.is_unspecified. rewrite !bool_decide_eq_false_2; naive_solver. }
  apply orb_false_iff in Hlu as [Hl Hu]. unfold is_dialable. rewrite Hl, Hu.
  apply in_blocks_test in Hb. rewrite v6_blocks_embedding in Hb.
  unfold embedded_ipv4 in He. destruct (Ipv6Addr.to_ipv4_mapped v6) as [m|] eqn:Em.
  - injection He as ->. destruct v6 as [s0 s1 s2 s3 s4 s5 s6 s7].
    cbn [Ipv6Addr.to_ipv4_mapped] in Em. case_bool_decide as Hz; [|done]. destruct Hz as [-> _]. done.
  - destruct v6 as [s0 s1 s2 s3 s4 s5 s6 s7]. cbn [forallb Ipv6Addr.is_multicast] in *.
    assert (Hs : seg_val s0 = 0%N \/ seg_val s0 = 100%N).
    { repeat (apply orb_true_iff in Hb as [Hb|Hb]); rewrite ?andb_true_iff, ?N.eqb_eq in Hb; tauto. }
    destruct Hs as [->| ->]; done.
Qed.

(** C34: The registry's address floor, as address blocks, and against the broker's guard: an address
    passes exactly when the address it reaches, an IPv4 one if its spelling is IPv4-mapped,
    IPv4-compatible or NAT64, is in no refused and no private block; what passes, the broker
    would dial without its LAN flag; on IPv4 the two agree; and a registry on the operator's own
    machine adds the loopback addresses and nothing else. *)
Theorem address_floor_spec ip :
  (address_is_allowed ip false = true <->
   match reaches ip with
   | V4 _ => ~ in_blocks (never_v4 ++ private_v4) (reaches ip)
   | V6 _ => ~ in_blocks (never_v6 ++ private_v6) (reaches ip)
   end) /\
  (forall v6 v4, ip = V6 v6 ->
     (reaches ip = V4 v4 <-> v4 = to_ipv4_low v6 /\ in_blocks embedding_v6 ip /\
                             v6 <> Ipv6Addr.localhost /\ v6 <> Ipv6Addr.unspecified)) /\
  (address_is_allowed ip false = true -> is_dialable ip false = true) /\
  (is_ipv4 ip = true -> address_is_allowed ip false = is_dialable ip false) /\
  address_is_allowed ip true = reached_loopback (reaches ip) || address_is_allowed ip false.
Proof.
  split; [rewrite floor_spec; unfold reaches; destruct ip as [v4|v6]; [done|by destruct (embedded_ipv4 v6)]|].
  split.
  { intros v6 v4 ->. rewrite <- embedded_ipv4_spec. unfold reaches. destruct (embedded_ipv4 v6); naive_solver. }
  split; [|split; [|apply floor_local]].
  - intros Ha. destruct ip as [v4|v6]; cbn [address_is_allowed] in Ha.
    { by rewrite ipv4_allowed_dialable in Ha. }
    destruct (embedded_ipv4 v6) as [v4|] eqn:He.
    { rewrite ipv4_allowed_dialable in Ha. by eapply embedded_v6_dialable. }
    pose proof (proj1 (floor_spec (V6 v6))) as Hf. cbn [address_is_allowed] in Hf. rewrite He in Hf.
    specialize (Hf Ha). rewrite in_blocks_app in Hf.
    assert (Em : Ipv6Addr.to_ipv4_mapped v6 = None).
    { unfold embedded_ipv4 in He. by destruct (Ipv6Addr.to_ipv4_mapped v6). }
    apply dialable_blocks. rewrite Em. naive_solver.
  - destruct ip as [v4|v6]; [intros _; apply ipv4_allowed_dialable|done].
Qed.

Lemma address_floor_spec_witness :
  let nat64 := V6 (Ipv6 (seg_of 100) (seg_of 65435) (seg_of 0) (seg_of 0) (seg_of 0) (seg_of 0)
                     (seg_of 43518) (seg_of 43518)) in
  let public := V4 (ipv4_new 93 184 216 34) in
  reaches nat64 = V4 (ipv4_new 169 254 169 254) /\ address_is_allowed nat64 false = false /\
  is_dialable public false = true /\ ~ in_blocks (never_v4 ++ private_v4) public.
Proof.
  intros nat64 public. split; [vm_compute; reflexivity|]. split; [vm_compute; reflexivity|].
  assert (Ha : address_is_allowed public false = true) by (vm_compute; reflexivity).
  destruct (address_floor_spec public) as (Hf & _ & Hd & _).
  split; [exact (Hd Ha)|exact (proj1 Hf Ha)].
Defined.

(** The cloud's metadata address behind a NAT64 gateway: the registry's floor refuses it, the
    broker's guard does not know the spelling. *)
Example floors_differ :
  let metadata := B "64:ff9b::169.254.169.254" in
  (ip ← parse_ip metadata; Some (address_is_allowed ip false, is_dialable ip false)) = Some (false, true).
Proof. vm_compute. reflexivity. Qed.

(** ** What a name may be dialled at *)

Lemma screen_resolved_spec host addrs allow_local kept :
  screen_resolved host addrs allow_local = Ok kept <->
  kept = addrs /\ addrs <> [] /\ Forall (fun a => address_is_allowed (fst a) allow_local = true) addrs.
Proof.
  destruct addrs as [|a l]; [naive_solver|]. unfold screen_resolved.
  destruct (List.find _ (a :: l)) as [bad|] eqn:Ef.
  - apply find_some in Ef as [Hin Hbad]. apply list_elem_of_In in Hin. apply negb_true_iff in Hbad.
    split; [done|]. intros (_ & _ & Hall). rewrite Forall_forall in Hall. specialize (Hall _ Hin). congruence.
  - pose proof (find_none _ _ Ef) as Hn.
    assert (Hall : Forall (fun b => address_is_allowed (fst b) allow_local = true) (a :: l)).
    { apply Forall_forall. intros x Hx. apply list_elem_of_In in Hx. specialize (Hn _ Hx). by apply negb_false_iff in Hn. }
    split; [intros [= <-]; done|]. by intros (-> & _ & _).
Qed.

(** A name is dialled at every address it answers with, each through the floor, or not at all: one
    address that the floor refuses, no address, an error or a timeout refuses the name. *)
Theorem floored_resolve_spec allow_local host answer kept :
  FlooredResolver_resolve allow_local host answer = Ok kept <->
  answer = Found kept /\ kept <> [] /\
  Forall (fun a => address_is_allowed (fst a) allow_local = true) kept.
Proof.
  destruct answer as [addrs|e|]; cbn [FlooredResolver_resolve]; [|naive_solver..].
  rewrite screen_resolved_spec. naive_solver.
Qed.

(** ** The parameter list *)

Lemma read_key_shorter key s : s <> [] -> (length (snd (read_key key s)) < length s)%nat.
Proof.
  revert key. induction s as [|c r IH]; [done|]. intros key _. cbn [read_key].
  destruct (is_char "=" c); [cbn; lia|]. destruct r as [|d r]; [cbn; lia|].
  specialize (IH (if is_separator c then key else key ++ item_bytes c) ltac:(done)). cbn [length] in *. lia.
Qed.

Lemma read_quoted_le v s : (length (snd (read_quoted v s)) <= length s)%nat.
Proof.
  revert v. induction s as [|c r IH]; [done|]. intros v. cbn [read_quoted].
  destruct (is_char quote c); [cbn; lia|]. specialize (IH (v ++ item_bytes c)). cbn [length]. lia.
Qed.

Lemma read_bare_le v s : (length (snd (read_bare v s)) <= length s)%nat.
Proof.
  revert v. induction s as [|c r IH]; [done|]. intros v. cbn [read_bare].
  destruct (is_char "," c); [cbn; lia|]. specialize (IH (v ++ item_bytes c)). cbn [length]. lia.
Qed.

Lemma skip_separators_le s : (length (skip_separators s) <= length s)%nat.
Proof. induction s as [|c r IH]; [done|]. cbn [skip_separators]. destruct (is_separator c); cbn [length]; lia. Qed.

Lemma read_value_le s : (length (snd (read_value s)) <= length s)%nat.
Proof.
  destruct s as [|c r]; [done|]. unfold read_value. destruct (is_char quote c); [|apply read_bare_le].
  pose proof (read_quoted_le [] r). cbn [length]. lia.
Qed.

(** The loop ends: every turn consumes a character, so more fuel than characters changes
    nothing. *)
Lemma params_go_fuel f g s : (length s < f)%nat -> (length s < g)%nat -> params_go f s = params_go g s.
Proof.
  revert g s. induction f as [|f IH]; intros g s Hf Hg; [lia|]. destruct g as [|g]; [lia|].
  destruct s as [|c0 s0]; [done|]. cbn [params_go].
  pose proof (read_key_shorter [] (c0 :: s0) ltac:(done)) as Hk.
  destruct (read_key [] (c0 :: s0)) as [key s1]. cbn [snd] in Hk. destruct (beq key []); [done|].
  pose proof (read_value_le s1) as Hv. destruct (read_value s1) as [value s2]. cbn [snd] in Hv.
  pose proof (skip_separators_le s2) as Hs. destruct (skip_separators s2) as [|c3 s3]; [done|].
  f_equal. apply IH; lia.
Qed.

(** [k="v"], and several of them. *)
Definition show_param (kv : bytes * bytes) : bytes := fst kv ++ "="%char :: quote :: snd kv ++ [quote].
Definition show_params (l : list (bytes * bytes)) : bytes := join (B ",") (map show_param l).

Definition param_ok (kv : bytes * bytes) : Prop :=
  fst kv <> [] /\ to_ascii_lowercase (fst kv) = fst kv /\
  Forall (fun c => is_ascii c && negb (contains c (B "=,")) && negb (is_whitespace (code c)) = true) (fst kv) /\
  Forall (fun c => is_ascii c && negb (Ascii.eqb c quote) = true) (snd kv).

(** An ASCII string, character by character. *)
Definition one (c : ascii) : utf8_item := Chr (code c) [c].

Lemma utf8_items_ascii s : Forall (fun c => is_ascii c = true) s -> utf8_items s = map one s.
Proof.
  induction 1 as [|c s Hc Hs IH]; [done|]. cbn [utf8_items map]. unfold is_ascii in Hc. by rewrite Hc, IH.
Qed.

Lemma is_char_one c d : is_char c (one d) = Ascii.eqb d c.
Proof.
  apply eq_true_iff_eq. rewrite ascii_eqb_eq. unfold is_char, one. rewrite N.eqb_eq.
  split; [apply code_inj|by intros ->].
Qed.

Lemma read_key_param key k rest :
  Forall (fun c => is_ascii c && negb (contains c (B "=,")) && negb (is_whitespace (code c)) = true) k ->
  read_key key (map one k ++ one "="%char :: rest) = (key ++ k, rest).
Proof.
  intros Hk. revert key. induction Hk as [|c k Hc Hk IH]; intros key; cbn [map app read_key].
  { by rewrite is_char_one, app_nil_r. }
  apply andb_true_iff in Hc as [Hc Hw]. apply andb_true_iff in Hc as [Hc Hs].
  apply negb_true_iff in Hw, Hs. apply contains_false in Hs.
  unfold is_separator. rewrite !is_char_one.
  replace (Ascii.eqb c "=") with false by (symmetry; apply not_true_iff_false; intros ->%ascii_eqb_eq; set_solver).
  replace (Ascii.eqb c ",") with false by (symmetry; apply not_true_iff_false; intros ->%ascii_eqb_eq; set_solver).
  cbn [orb is_white one]. rewrite Hw, IH. cbn [item_bytes]. by rewrite <- app_assoc.
Qed.

Lemma read_quoted_param v w rest :
  Forall (fun c => is_ascii c && negb (Ascii.eqb c quote) = true) w ->
  read_quoted v (map one w ++ one quote :: rest) = (v ++ w, rest).
Proof.
  intros Hw. revert v. induction Hw as [|c w Hc Hw IH]; intros v; cbn [map app read_quoted].
  { by rewrite is_char_one, Ascii.eqb_refl, app_nil_r. }
  apply andb_true_iff in Hc as [_ Hq]. apply negb_true_iff in Hq.
  rewrite is_char_one, Hq, IH. cbn [one item_bytes]. by rewrite <- app_assoc.
Qed.

Lemma param_ascii kv : param_ok kv -> Forall (fun c => is_ascii c = true) (show_param kv).
Proof.
  intros (_ & _ & Hk & Hv). unfold show_param. rewrite Forall_app, !Forall_cons, Forall_app.
  split; [eapply Forall_impl; [exact Hk|]; intros c Hc; by apply andb_true_iff in Hc as [[Hc _]%andb_true_iff _]|].
  do 2 (split; [done|]). split; [|by repeat constructor].
  eapply Forall_impl; [exact Hv|]. intros c Hc. by apply andb_true_iff in Hc as [Hc _].
Qed.

Lemma params_ascii l : Forall param_ok l -> Forall (fun c => is_ascii c = true) (show_params l).
Proof.
  induction 1 as [|kv l Hkv Hl IH]; [constructor|]. unfold show_params in *. cbn [map].
  destruct l as [|kv' l]; [by apply param_ascii|]. cbn [map join] in *.
  apply Forall_app. split; [by apply param_ascii|]. apply Forall_app. split; [by repeat constructor|done].
Qed.

(** One turn of the loop, at a printed parameter. *)
Lemma params_go_param f kv rest : param_ok kv ->
  params_go (S f) (map one (show_param kv) ++ rest) =
  kv :: match skip_separators rest with [] => [] | s => params_go f s end.
Proof.
  intros (Hne & Hlow & Hk & Hv). destruct kv as [k v]. cbn [fst snd] in *. unfold show_param. cbn [fst snd].
  rewrite map_app. cbn [map]. rewrite map_app. rewrite <- app_assoc. cbn [app]. rewrite <- app_assoc.
  cbn [params_go]. rewrite read_key_param by done. cbn [app].
  replace (beq k []) with false by (symmetry; apply not_true_iff_false; by intros ?%beq_true).
  cbn [read_value]. rewrite is_char_one, Ascii.eqb_refl. cbn [map app].
  rewrite read_quoted_param by done. by rewrite Hlow.
Qed.

Lemma skip_comma rest : skip_separators (map one (B ",") ++ rest) = skip_separators rest.
Proof. reflexivity. Qed.

Lemma show_params_head kv l : param_ok kv ->
  exists c r, show_params (kv :: l) = c :: r /\ is_separator (one c) = false.
Proof.
  destruct kv as [[|c k] v]; [by intros [? _]|]. intros (_ & _ & Hk & _).
  assert (Hs : exists r, show_params ((c :: k, v) :: l) = c :: r) by (destruct l; by eexists).
  destruct Hs as [r Hr]. exists c, r. split; [done|]. apply Forall_cons in Hk as [Hc _].
  apply andb_true_iff in Hc as [Hc Hw]. apply andb_true_iff in Hc as [_ Hs]. apply negb_true_iff in Hw, Hs.
  apply contains_false in Hs. unfold is_separator. rewrite is_char_one. cbn [is_white one]. rewrite Hw, orb_false_r.
  apply not_true_iff_false. intros ->%ascii_eqb_eq. set_solver.
Qed.

Lemma show_params_cons kv kv' l :
  show_params (kv :: kv' :: l) = show_param kv ++ B "," ++ show_params (kv' :: l).
Proof. reflexivity. Qed.

Lemma params_go_shown l f : Forall param_ok l -> (length (show_params l) < f)%nat ->
  params_go f (map one (show_params l)) = l.
Proof.
  intros Hl. revert f. induction Hl as [|kv l Hkv Hl IH]; intros f Hf; [by destruct f|].
  destruct f as [|f]; [lia|]. destruct l as [|kv' l].
  - change (show_params [kv]) with (show_param kv). rewrite <- (app_nil_r (map one (show_param kv))).
    by rewrite (params_go_param f kv [] Hkv).
  - rewrite show_params_cons, !length_app in Hf. rewrite show_params_cons, map_app, (params_go_param f kv _ Hkv).
    f_equal. rewrite map_app, skip_comma. apply Forall_cons in Hl as [Hkv' _].
    destruct (show_params_head kv' l Hkv') as (c & r & Hj & Hsep). rewrite Hj in Hf, IH |- *.
    cbn [map skip_separators] in *. rewrite Hsep. apply IH. change (length (B ",")) with 1%nat in Hf. cbn [length] in *. lia.
Qed.

(** A printed parameter list reads back, whatever the values hold short of a quote: a scope with
    commas is not cut. *)
Lemma params_roundtrip l : Forall param_ok l -> params (show_params l) = l.
Proof.
  intros Hl. unfold params. rewrite utf8_items_ascii by by apply params_ascii.
  apply params_go_shown; [done|]. rewrite length_map. lia.
Qed.

(** ** Origins, destinations and challenges *)

Section laws.
Context {Url : Type} `{UrlLaws Url}.
Implicit Types (u v : Url).

Definition same_origin u v : Prop := may_carry_credential u v = true.

Lemma same_origin_spec u v :
  same_origin u v <->
  scheme u = scheme v /\ host_str u = host_str v /\ port_or_known_default u = port_or_known_default v.
Proof.
  unfold same_origin, may_carry_credential. rewrite !andb_true_iff, !bool_decide_eq_true, beq_true. tauto.
Qed.

#[export] Instance same_origin_equiv : Equivalence same_origin.
Proof.
  split.
  - intros u. by apply same_origin_spec.
  - intros u v. rewrite !same_origin_spec. naive_solver.
  - intros u v w. rewrite !same_origin_spec. intros (-> & -> & ->). done.
Qed.

(** What the destination floor judges: an address, or a name that is not the local host. *)
Definition host_floor (h : UrlHost) (allow_local : bool) : bool :=
  match h with
  | Domain d => allow_local || negb (beq d (B "localhost") || ends_with (B ".localhost") d)
  | HostV4 ip => address_is_allowed (V4 ip) allow_local
  | HostV6 ip => address_is_allowed (V6 ip) allow_local
  end.

(** A destination of a registry's choosing is https to a host through the floor; the operator's
    loopback registry may add plain http to the loopback host. *)
Lemma destination_spec u allow_local :
  destination_is_allowed u allow_local = true <->
  (scheme u = B "https" \/ allow_local = true /\ is_loopback_url u = true) /\
  exists h, url_host u = Some h /\ host_floor h allow_local = true.
Proof.
  unfold destination_is_allowed. destruct (beq (scheme u) (B "https")) eqn:Es; cbn [negb andb].
  - apply beq_true in Es. destruct (url_host u) as [[]|]; naive_solver.
  - assert (scheme u <> B "https") by (intros E; apply beq_true in E; congruence).
    destruct (allow_local && is_loopback_url u) eqn:El; cbn [negb].
    + apply andb_true_iff in El. destruct (url_host u) as [[]|]; naive_solver.
    + apply andb_false_iff in El. split; [done|]. intros [[?|[-> ?]] _]; naive_solver.
Qed.

Lemma append_pairs_host_str ps u : host_str (append_pairs ps u) = host_str u.
Proof. by rewrite !host_str_host, append_pairs_host. Qed.

Lemma destination_append_pairs ps u allow_local :
  destination_is_allowed (append_pairs ps u) allow_local = destination_is_allowed u allow_local.
Proof.
  unfold destination_is_allowed, is_loopback_url.
  by rewrite append_pairs_scheme, append_pairs_host, append_pairs_host_str.
Qed.

Lemma same_origin_append_pairs ps u : same_origin u (append_pairs ps u).
Proof. apply same_origin_spec. by rewrite append_pairs_scheme, append_pairs_host_str, append_pairs_port. Qed.

Lemma parse_challenge_floored header allow_local c :
  parse_challenge header allow_local = Ok c ->
  destination_is_allowed (token_url c) allow_local = true /\ same_origin (realm c) (token_url c).
Proof.
  unfold parse_challenge. intros Hp. run_ok.
  destruct (fold_left take_param (params a) (None, None, None)) as [[r s] sc]. run_ok.
  destruct (destination_is_allowed a1 allow_local) eqn:Ed; cbn [negb] in Hp; [|done]. run_ok.
  unfold token_url. cbn [realm]. rewrite destination_append_pairs. split; [done|apply same_origin_append_pairs].
Qed.

(** A challenge: a token is only ever asked for at a destination through the floor, on the origin
    of the realm; and a challenge written out in full is read in full, its scope's commas kept. *)
Theorem challenge_spec header allow_local c r s sc :
  (parse_challenge header allow_local = Ok c ->
   destination_is_allowed (token_url c) allow_local = true /\ same_origin (realm c) (token_url c)) /\
  (Forall param_ok [(B "realm", r); (B "service", s); (B "scope", sc)] ->
   parse_challenge (B "Bearer " ++ show_params [(B "realm", r); (B "service", s); (B "scope", sc)]) allow_local =
   match url_parse r with
   | Err e => Err (RealmNotUrl r e)
   | Ok u => if destination_is_allowed u allow_local then Ok (MkChallenge u (Some s) (Some sc))
             else Err (RealmFloored u)
   end).
Proof.
  split; [apply parse_challenge_floored|]. intros Hok. unfold parse_challenge.
  rewrite (proj2 (strip_prefix_Some (B "Bearer ") _ _) eq_refl). cbn [ok_or rbind].
  rewrite params_roundtrip by done.
  change (fold_left take_param [(B "realm", r); (B "service", s); (B "scope", sc)] (None, None, None))
    with (Some r, Some s, Some sc).
  cbn [ok_or rbind]. destruct (url_parse r) as [u|e]; cbn [map_err rbind]; [|reflexivity].
  by destruct (destination_is_allowed u allow_local).
Qed.
End laws.

(** ** A small instance, for the concrete runs

    [scheme://host[:port][/rest]], with http and https only. *)
Module PlainUrl.
Record t : Type := Mk { u_scheme : bytes; u_host : UrlHost; u_port : option N; u_rest : bytes }.

Definition read_host (h : bytes) : option UrlHost :=
  match strip_prefix (B "[") h with
  | Some r => a ← strip_suffix (B "]") r; ip ← parse_ipv6 a; Some (HostV6 ip)
  | None => match parse_ipv4 h with
            | Some ip => Some (HostV4 ip)
            | None => if beq h [] then None else Some (Domain h)
            end
  end.

Definition parse_authority (a : bytes) : option (UrlHost * option N) :=
  match read_host a with
  | Some h => if contains ":" (show_host h) && negb (starts_with (B "[") a) then None else Some (h, None)
  | None => None
  end.

Definition split_port (a : bytes) : option (UrlHost * option N) :=
  match rsplit_once ":" a with
  | Some (h, p) => if ends_with (B "]") a then parse_authority a
                   else port ← parse_uint u16_max p; host ← read_host h; Some (host, Some port)
  | None => parse_authority a
  end.

Definition split_scheme (s : bytes) : option (bytes * bytes) :=
  match strip_prefix (B "https://") s with
  | Some r => Some (B "https", r)
  | None => match strip_prefix (B "http://") s with Some r => Some (B "http", r) | None => None end
  end.

Definition split_path (r : bytes) : bytes * bytes :=
  match split_once "/" r with Some (a, b) => (a, "/"%char :: b) | None => (r, []) end.

Definition parse (s : bytes) : result t bytes :=
  ok_or
    ('(sch, r) ← split_scheme s;
     let '(auth, rest) := split_path r in
     '(h, p) ← split_port auth; Some (Mk sch h p rest))
    (B "not a URL").

Definition text (u : t) : bytes :=
  u_scheme u ++ B "://" ++ show_host (u_host u) ++
  match u_port u with Some p => B ":" ++ show_N p | None => [] end ++ u_rest u.

Definition join_ (u : t) (s : bytes) : result t bytes :=
  if starts_with (B "/") s then Ok (Mk (u_scheme u) (u_host u) (u_port u) s) else parse s.

#[export] Instance lib : UrlLib t := {
  url_parse := parse;
  url_join := join_;
  url_text := text;
  scheme := u_scheme;
  url_host := fun u => Some (u_host u);
  host_str := fun u => Some (show_host (u_host u));
  port_or_known_default := fun u =>
    match u_port u with
    | Some p => Some p
    | None => Some (if beq (u_scheme u) (B "https") then 443 else 80)%N
    end;
  append_pairs := fun ps u =>
    Mk (u_scheme u) (u_host u) (u_port u)
      (u_rest u ++ concat (map (fun kv => B "&" ++ fst kv ++ B "=" ++ snd kv) ps)) }.

Lemma split_scheme_app s x sch r :
  split_scheme s = Some (sch, r) -> split_scheme (s ++ x) = Some (sch, r ++ x).
Proof.
  unfold split_scheme. destruct (strip_prefix (B "https://") s) as [r'|] eqn:E.
  { intros [= <- <-]. apply strip_prefix_Some in E as ->. rewrite <- app_assoc.
    by rewrite (proj2 (strip_prefix_Some _ _ _) eq_refl). }
  destruct (strip_prefix (B "http://") s) as [r'|] eqn:E'; [|done].
  intros [= <- <-]. by apply strip_prefix_Some in E' as ->.
Qed.

Lemma split_path_app r path a b :
  split_path r = (a, b) -> exists b', split_path (r ++ "/"%char :: path) = (a, b').
Proof.
  unfold split_path. destruct (split_once "/" r) as [[a' b']|] eqn:E.
  - intros [= <- _]. apply split_once_Some in E as [-> Hn]. rewrite <- app_assoc. cbn [app].
    rewrite split_once_app by done. by eexists.
  - intros [= <- _]. apply split_once_None in E. rewrite split_once_app by done. by eexists.
Qed.

#[export] Instance laws : UrlLaws t.
Proof.
  split; [|done..]. intros b path u v _. cbn [url_parse lib]. unfold parse.
  destruct (split_scheme b) as [[sch r]|] eqn:Es; [|done].
  rewrite (split_scheme_app _ _ _ _ Es). cbn [mbind option_bind].
  destruct (split_path r) as [a rest] eqn:Ep. destruct (split_path_app _ path _ _ Ep) as [rest' Ep'].
  rewrite Ep'. cbn. destruct (split_port a) as [[h p]|]; [|done]. cbn. by intros [= <-] [= <-].
Qed.
End PlainUrl.
Export (hints) PlainUrl.

(** The floor on URLs: the metadata address in each of its spellings, a private one, a local name,
    plain http; and the operator's own loopback registry. *)
Example destinations :
  let ok s allow := match PlainUrl.parse (B s) with Ok u => destination_is_allowed u allow | Err _ => false end in
  map (fun s => ok s false)
    ["https://169.254.169.254/latest"; "https://[::ffff:169.254.169.254]/"; "https://[64:ff9b::a9fe:a9fe]/";
     "https://[::169.254.169.254]/"; "https://10.0.0.1/"; "https://[fd00::1]/"; "https://localhost/";
     "https://a.localhost/"; "http://example.com/"; "http://localhost:5000/token"]%string
  = repeat false 10 /\
  map (fun s => ok s false) ["https://auth.docker.io/token"; "https://93.184.216.34/"; "https://[2606:4700::1]/"]%string
  = repeat true 3 /\
  ok "http://localhost:5000/token"%string true = true /\ ok "http://10.0.0.1/"%string true = false /\
  ok "https://10.0.0.1/"%string true = false.
Proof. vm_compute. repeat split. Qed.

Lemma challenge_spec_witness :
  let l := [(B "realm", B "https://auth.docker.io/token"); (B "service", B "registry.docker.io");
            (B "scope", B "repository:library/alpine:pull,push")] in
  match parse_challenge (B "Bearer " ++ show_params l) false with
  | Ok c => PlainUrl.text (realm c) = B "https://auth.docker.io/token" /\
            service c = Some (B "registry.docker.io") /\
            scope c = Some (B "repository:library/alpine:pull,push") /\
            destination_is_allowed (token_url c) false = true
  | Err _ => False
  end.
Proof.
  set (u := PlainUrl.Mk (B "https") (Domain (B "auth.docker.io")) None (B "/token")).
  set (c := MkChallenge u (Some (B "registry.docker.io")) (Some (B "repository:library/alpine:pull,push"))).
  intros l. assert (Hl : Forall param_ok l).
  { repeat apply Forall_cons_2; [..|apply Forall_nil_2];
      (split; [done|split; [reflexivity|split; apply forallb_Forall; reflexivity]]). }
  assert (Hp : parse_challenge (B "Bearer " ++ show_params l) false = Ok c).
  { rewrite (proj2 (challenge_spec [] false c _ _ _) Hl). vm_compute. reflexivity. }
  rewrite Hp. split; [reflexivity|]. split; [reflexivity|]. split; [reflexivity|].
  exact (proj1 (proj1 (challenge_spec _ _ _ [] [] []) Hp)).
Defined.
