(* ===== verification/Registry.v ===== *)
(** * Pulling an image ([crates/oci-registry/src/lib.rs])

    A [Puller] fetches the manifest a reference names, then its config and layers, into an image
    layout: redirects followed by hand under the rules of [Auth], one challenge answered, each blob
    streamed to a temporary file, hashed, and renamed only when the hash is its name.

    The state is the token, the peers, the exchanges so far and the disk.  The HTTP client is a
    parameter: what a request is answered with, from any state of the peers, and the proxies that the
    operator's environment names for a URL, which it honours.  The disk is the files
    by path, and a script of failures: each call of the file system takes the next entry, and a
    failing write leaves a part of its bytes.  Reading a file to hash it is one call here.  SHA-256
    with its hex encoding, the JSON decoders and encoder, and the process id are parameters. *)
From S2P Require Import Prelude Text Effects IpAddr Digest Reference Auth.

Definition ACCEPT : bytes :=
  B "application/vnd.oci.image.index.v1+json, application/vnd.oci.image.manifest.v1+json, application/vnd.docker.distribution.manifest.list.v2+json, application/vnd.docker.distribution.manifest.v2+json".
Definition MAX_MANIFEST_BYTES : N := 4 * 1024 * 1024.
Definition MAX_BLOB_BYTES : N := N.shiftl 16 30.
Definition MAX_REDIRECTS : nat := 5.
(** The buffer of [stream_verified]. *)
Definition BUFFER : N := 256 * 1024.

(** ** Data *)

(** A reader, as what its successive [read]s return; an empty read, or none left, is the end. *)
Abbreviation Reads := (list (result bytes bytes)).

Record Request (Url : Type) : Type := MkRequest {
  rq_url : Url;
  rq_accept : option bytes;
  rq_authorization : option bytes }.
Arguments MkRequest {Url}.
Arguments rq_url {Url}.
Arguments rq_accept {Url}.
Arguments rq_authorization {Url}.

(** A header is present when it is there and is text. *)
Record HttpResponse : Type := MkResponse {
  status : N;
  www_authenticate : option bytes;
  location : option bytes;
  content_type : option bytes;
  content_length : option N;
  body : Reads;
  (** [resp.text()] *)
  text : option bytes }.

Definition is_redirection (status : N) : bool := (300 <=? status)%N && (status <? 400)%N.
Definition is_success (status : N) : bool := (200 <=? status)%N && (status <? 300)%N.

(** [serde_json::Value]; an object's entries in the order it iterates them. *)
Inductive Value : Type :=
  | VNull
  | VBool (b : bool)
  | VNumber (text : bytes)
  | VString (s : bytes)
  | VArray (l : list Value)
  | VObject (l : list (bytes * Value)).

Definition value_get (k : bytes) (v : Value) : option Value :=
  match v with
  | VObject l => option_map snd (List.find (fun kv => beq (fst kv) k) l)
  | _ => None
  end.
Definition value_as_str (v : Value) : option bytes := match v with VString s => Some s | _ => None end.
Definition as_object (v : Value) : option (list (bytes * Value)) :=
  match v with VObject l => Some l | _ => None end.

Record WirePlatform : Type := MkWirePlatform { os : option bytes; architecture : option bytes }.
(** [size] is an [i64]. *)
Record WireDescriptor : Type := MkWireDescriptor {
  d_media_type : option bytes; d_digest : option bytes; d_size : option Z; d_platform : option WirePlatform }.
Record WireDoc : Type := MkWireDoc {
  media_type : option bytes;
  manifests : option (list WireDescriptor);
  config : option WireDescriptor;
  layers : option (list WireDescriptor) }.

Inductive PullError (Url : Type) : Type :=
  | BadReference (e : ReferenceError)
  | BadChallenge (e : ChallengeError Url)
  | Transport (what detail : bytes)
  | Status (what : bytes) (status : N) (detail : bytes)
  | Destination (host detail : bytes)
  | Redirect (to detail : bytes)
  | DigestMismatch (expected actual : bytes)
  | TooLarge (what : bytes) (cap actual : N)
  | Io (path detail : bytes).
Arguments BadReference {Url}.
Arguments BadChallenge {Url}.
Arguments Transport {Url}.
Arguments Status {Url}.
Arguments Destination {Url}.
Arguments Redirect {Url}.
Arguments DigestMismatch {Url}.
Arguments TooLarge {Url}.
Arguments Io {Url}.

Record Pulled : Type := MkPulled {
  layout : bytes;
  manifest_digest : Digest;
  bytes_downloaded : N;
  blobs_reused : N }.

(** The client: it is built for a reference, with the operator's credential for it. *)
Record Puller : Type := MkPuller { reference : Reference; basic : option bytes }.

Definition local (p : Puller) : bool := is_local (reference p).

(** ** The disk *)

(** A failing call: its error, and how much a write did before. *)
Abbreviation Fault := (bytes * nat)%type.

Record Disk : Type := MkDisk { files : gmap bytes bytes; faults : list (option Fault) }.

(** A path's directory and last component, for a path that ends in one. *)
Definition path_parent (p : bytes) : bytes := match rsplit_once "/" p with Some (d, _) => d | None => [] end.
Definition path_file_name (p : bytes) : bytes := match rsplit_once "/" p with Some (_, f) => f | None => p end.

(** Successive reads of a slice through a buffer of [n] bytes. *)
Fixpoint chunks_go (fuel n : nat) (l : bytes) : Reads :=
  match fuel, l with
  | O, _ | _, [] => []
  | S fuel, _ => Ok (take n l) :: chunks_go fuel n (drop n l)
  end.
Definition slice_reads (l : bytes) : Reads := chunks_go (length l) (N.to_nat BUFFER) l.

(** [read.take(n).read_to_end]. *)
Fixpoint take_to_end (n : N) (acc : bytes) (reads : Reads) : result bytes bytes :=
  match reads with
  | [] => Ok acc
  | r :: rest =>
      if (n =? 0)%N then Ok acc
      else match r with
           | Err e => Err e
           | Ok [] => Ok acc
           | Ok b => let b := take (N.to_nat n) b in
                     take_to_end (n - N.of_nat (length b)) (acc ++ b) rest
           end
  end.

Fixpoint read_to_end (acc : bytes) (reads : Reads) : result bytes bytes :=
  match reads with
  | [] | Ok [] :: _ => Ok acc
  | Err e :: _ => Err e
  | Ok b :: rest => read_to_end (acc ++ b) rest
  end.

(** The first 400 characters. *)
Definition brief (s : bytes) : bytes := concat (map item_bytes (take 400 (utf8_items s))).

Definition is_index_type (media_type : bytes) : bool :=
  beq media_type (B "application/vnd.oci.image.index.v1+json")
  || beq media_type (B "application/vnd.docker.distribution.manifest.list.v2+json").

(** ** The operator's credential for a registry *)

Definition HUB_LEGACY_KEY : bytes := B "https://index.docker.io/v1/".

Definition config_key_host (key : bytes) : bytes :=
  let k := match strip_prefix (B "https://") key with
           | Some k => k
           | None => match strip_prefix (B "http://") key with Some k => k | None => key end
           end in
  before "/" k.

Definition key_names_registry (key : bytes) (r : Reference) : bool :=
  if is_default_registry r && beq key HUB_LEGACY_KEY then true
  else if negb (is_default_registry r) && beq key HUB_LEGACY_KEY then false
  else beq (config_key_host key) (registry r) || beq (config_key_host key) (host r).

Fixpoint find_auth (entries : list (bytes * Value)) (r : Reference) : option bytes :=
  match entries with
  | [] => None
  | (key, entry) :: rest =>
      if negb (key_names_registry key r) then find_auth rest r
      else match value_get (B "auth") entry ≫= value_as_str with
           | Some auth => if beq auth [] then find_auth rest r else Some auth
           | None => find_auth rest r
           end
  end.

Section Pull.
Context {Url W : Type} `{UrlLib Url}.
(** The HTTP client: the answer of the peers to a request, or a transport error. *)
Variable send_request : Request Url -> W -> result HttpResponse bytes * W.
(** [hex::encode(Sha256::digest(..))] *)
Variable sha256_hex : bytes -> bytes.
(** [serde_json::from_slice] at [Value] and at [WireDoc]; [to_vec_pretty] of the index of one
    manifest: its media type, digest and size, and the reference. *)
Variables (json_value : bytes -> result Value bytes) (json_doc : bytes -> result WireDoc bytes)
  (json_index : bytes -> bytes -> N -> bytes -> result bytes bytes).
(** [{:?}] of a string, and [std::process::id]. *)
Variables (debug_str : bytes -> bytes) (pid : N).

Record PullState : Type := MkSt {
  token : option bytes;
  peers : W;
  (** What was sent and what came back, in order. *)
  exchanges : list (Request Url * result HttpResponse bytes);
  disk : Disk }.

Abbreviation Error := (PullError Url).
Abbreviation P := (SE PullState Error).

Definition set_token (t : option bytes) (s : PullState) : PullState := MkSt t (peers s) (exchanges s) (disk s).
Definition set_disk (d : Disk) (s : PullState) : PullState := MkSt (token s) (peers s) (exchanges s) d.

(** [docker_config_auth_in], given what reading the file returned. *)
Definition docker_config_auth_in (file : option bytes) (r : Reference) : option bytes :=
  raw ← file;
  json ← match json_value raw with Ok v => Some v | Err _ => None end;
  auths ← value_get (B "auths") json ≫= as_object;
  find_auth auths r.

(** *** Building the client *)

Definition base (p : Puller) : bytes :=
  (if local p then B "http" else B "https") ++ B "://" ++ host (reference p).

(** [refuse_a_floored_literal_host] *)
Definition refuse_a_floored_literal_host (p : Puller) : result unit Error :=
  let? u := map_err (fun e => Destination (host (reference p)) (B "it is not a URL: " ++ e)) (url_parse (base p)) in
  let refuse ip :=
    if address_is_allowed ip (local p) then Ok tt else Err (Destination (host (reference p)) (show_ip ip)) in
  match url_host u with
  | Some (HostV4 ip) => refuse (V4 ip)
  | Some (HostV6 ip) => refuse (V6 ip)
  | _ => Ok tt
  end.

(** [Puller::new], given whether the HTTP client can be built and the operator's config file. *)
Definition Puller_new (client : result unit bytes) (config_file : option bytes) (input : bytes) : result Puller Error :=
  let? reference := map_err BadReference (parse input) in
  let? _ := map_err (Transport (B "the HTTP client")) client in
  let p := MkPuller reference (docker_config_auth_in config_file reference) in
  let? _ := refuse_a_floored_literal_host p in
  Ok p.

(** *** Requests *)

(** [req.send()] *)
Definition send (what : bytes) (rq : Request Url) : P HttpResponse := fun s =>
  let '(r, w) := send_request rq (peers s) in
  (map_err (Transport what) r, MkSt (token s) w (exchanges s ++ [(rq, r)]) (disk s)).

Definition get_token : P (option bytes) := fun s => (Ok (token s), s).
Definition put_token (t : bytes) : P unit := fun s => (Ok tt, set_token (Some t) s).

Definition status_error (what : bytes) (resp : HttpResponse) : Error :=
  Status what (status resp) (brief (default [] (text resp))).

(** [resp.json()]: the whole body, parsed. *)
Definition response_json (resp : HttpResponse) : result Value bytes :=
  let? raw := read_to_end [] (body resp) in json_value raw.

(** [Puller::fetch_token] *)
Definition fetch_token (p : Puller) (challenge : Challenge Url) : P bytes :=
  do! resp := send (B "a token")
                (MkRequest (token_url challenge) None (option_map (app (B "Basic ")) (basic p))) in
  if negb (is_success (status resp)) then se_ret (Err (status_error (B "a token") resp))
  else
    do! v := se_ret (map_err (Transport (B "a token")) (response_json resp)) in
    se_ret (ok_or (match value_get (B "token") v with
                   | Some t => value_as_str t
                   | None => value_get (B "access_token") v ≫= value_as_str
                   end)
              (Transport (B "a token") (B "the token service returned no token"))).

Definition authorization (p : Puller) (token : option bytes) : option bytes :=
  match token with
  | Some t => Some (B "Bearer " ++ t)
  | None => option_map (app (B "Basic ")) (basic p)
  end.

(** Where a redirect leads, if it may be followed. *)
Definition redirect_target (p : Puller) (current : Url) (resp : HttpResponse) : result Url Error :=
  let? location := ok_or (location resp)
    (Redirect (B "(no Location header)") (B "the registry redirected without saying where")) in
  let? next := map_err (Redirect location) (url_join current location) in
  if negb (destination_is_allowed next (local p))
  then Err (Redirect (url_text next) (B "it is not a public https address"))
  else Ok next.

(** The loop of [Puller::get], at most [hops] turns of it left. *)
Fixpoint get_loop (p : Puller) (what : bytes) (hops : nat) (current : Url) (carry challenged : bool) : P HttpResponse :=
  match hops with
  | O => se_ret (Err (Redirect (url_text current) (B "more than " ++ show_N (N.of_nat MAX_REDIRECTS) ++ B " redirects")))
  | S hops =>
      do! t := get_token in
      do! resp := send what (MkRequest current (Some ACCEPT) (if carry then authorization p t else None)) in
      if (status resp =? 401)%N && negb challenged && carry then
        do! challenge := se_ret (map_err BadChallenge
                           (parse_challenge (default [] (www_authenticate resp)) (local p))) in
        do! t := fetch_token p challenge in
        do! _ := put_token t in
        get_loop p what hops current carry true
      else if is_redirection (status resp) then
        do! next := se_ret (redirect_target p current resp) in
        get_loop p what hops next (carry && may_carry_credential current next) challenged
      else if negb (is_success (status resp)) then se_ret (Err (status_error what resp))
      else se_ret (Ok resp)
  end.

Definition get (p : Puller) (url : Url) (what : bytes) : P HttpResponse :=
  get_loop p what (S MAX_REDIRECTS) url true false.

Definition DEFAULT_MANIFEST_TYPE : bytes := B "application/vnd.oci.image.manifest.v1+json".

(** [Puller::fetch_manifest] *)
Definition fetch_manifest (p : Puller) (path : bytes) : P (bytes * bytes) :=
  do! url := se_ret (map_err (Transport path) (url_parse (base p ++ path))) in
  do! resp := get p url path in
  let media_type := trim (before ";" (default DEFAULT_MANIFEST_TYPE (content_type resp))) in
  let too_large := fun n => Err (TooLarge path MAX_MANIFEST_BYTES n) in
  if match content_length resp with Some len => (MAX_MANIFEST_BYTES <? len)%N | None => false end
  then se_ret (too_large (default 0%N (content_length resp)))
  else
    do! body := se_ret (map_err (Transport path) (take_to_end (MAX_MANIFEST_BYTES + 1) [] (body resp))) in
    if (MAX_MANIFEST_BYTES <? N.of_nat (length body))%N then se_ret (too_large (N.of_nat (length body)))
    else se_ret (Ok (body, media_type)).

(** *** Files *)

(** One call: what it does to the files, and what a failing one did. *)
Definition fs_call (path : bytes) (ok : gmap bytes bytes -> gmap bytes bytes)
    (failed : nat -> gmap bytes bytes -> gmap bytes bytes) : P unit := fun s =>
  let d := disk s in
  match faults d with
  | Some (e, n) :: script => (Err (Io path e), set_disk (MkDisk (failed n (files d)) script) s)
  | None :: script => (Ok tt, set_disk (MkDisk (ok (files d)) script) s)
  | [] => (Ok tt, set_disk (MkDisk (ok (files d)) []) s)
  end.

Definition nothing (n : nat) (fs : gmap bytes bytes) : gmap bytes bytes := fs.
Definition append (path data : bytes) (fs : gmap bytes bytes) : gmap bytes bytes :=
  <[path := default [] (fs !! path) ++ data]> fs.
Definition move (a b : bytes) (fs : gmap bytes bytes) : gmap bytes bytes :=
  match fs !! a with Some c => <[b := c]> (delete a fs) | None => fs end.

Definition fs_create_dir_all (path : bytes) : P unit := fs_call path (fun fs => fs) nothing.
Definition fs_create (path : bytes) : P unit := fs_call path (fun fs => <[path := []]> fs) nothing.
Definition fs_write_all (path data : bytes) : P unit :=
  fs_call path (append path data) (fun n => append path (take n data)).
Definition fs_remove_file (path : bytes) : P unit := fs_call path (delete path) nothing.
Definition fs_sync_all (path : bytes) : P unit := fs_call path (fun fs => fs) nothing.
Definition fs_rename (a b : bytes) : P unit := fs_call b (move a b) nothing.
(** [fs::write]: created or truncated, then written. *)
Definition fs_write (path data : bytes) : P unit :=
  fs_call path (fun fs => <[path := data]> fs)
    (fun n fs => match n with O => fs | S n => <[path := take n data]> fs end).
(** A call that reads, at a file that is there. *)
Definition fs_look (path : bytes) : P bytes :=
  do! _ := fs_call path (fun fs => fs) nothing in
  fun s => (ok_or (files (disk s) !! path) (Io path (B "No such file or directory")), s).

(** [blob_is_present] *)
Definition blob_is_present (path : bytes) (d : Digest) (size : N) : P bool :=
  do! meta := se_try (fs_look path) in
  match meta with
  | Err _ => se_ret (Ok false)
  | Ok content =>
      if negb (N.of_nat (length content) =? size)%N then se_ret (Ok false)
      else
        do! opened := se_try (fs_look path) in
        match opened with
        | Err _ => se_ret (Ok false)
        | Ok _ =>
            do! data := se_try (fs_look path) in
            match data with
            | Err _ => se_ret (Ok false)
            | Ok data => se_ret (Ok (beq (sha256_hex data) (Digest.encoded d)))
            end
        end
  end.

Definition tmp_path (dest : bytes) : bytes :=
  path_join (path_parent dest) (B "." ++ path_file_name dest ++ B ".partial." ++ show_N pid).

(** The copy loop of [stream_verified]: the total and the bytes hashed. *)
Fixpoint stream_loop (tmp what : bytes) (cap total : N) (hashed : bytes) (reads : Reads) : P (N * bytes) :=
  match reads with
  | [] | Ok [] :: _ => se_ret (Ok (total, hashed))
  | Err e :: _ => se_ret (Err (Transport what e))
  | Ok b :: rest =>
      let total := (total + N.of_nat (length b))%N in
      if (cap <? total)%N then se_ret (Err (TooLarge what cap total))
      else
        do! _ := fs_write_all tmp b in
        stream_loop tmp what cap total (hashed ++ b) rest
  end.

(** [stream_verified] *)
Definition stream_verified (reads : Reads) (dest : bytes) (expect : Digest) (cap : N) (what : bytes) : P N :=
  let tmp := tmp_path dest in
  do! _ := fs_create_dir_all (path_parent dest) in
  do! _ := fs_create tmp in
  do! copied := se_try (stream_loop tmp what cap 0 [] reads) in
  match copied with
  | Err e => do! _ := se_try (fs_remove_file tmp) in se_ret (Err e)
  | Ok (total, hashed) =>
      let actual := sha256_hex hashed in
      if negb (beq actual (Digest.encoded expect)) then
        do! _ := se_try (fs_remove_file tmp) in
        se_ret (Err (DigestMismatch (show_digest expect) actual))
      else
        do! _ := fs_sync_all tmp in
        do! _ := fs_rename tmp dest in
        se_ret (Ok total)
  end.

(** *** The pull *)

Definition blob_dest (root : bytes) (d : Digest) : bytes := path_join root (digest_blob_path d).

(** [Puller::fetch_blob] *)
Definition fetch_blob (p : Puller) (d : Digest) (dest what : bytes) : P N :=
  do! url := se_ret (map_err (Transport what)
               (url_parse (base p ++ B "/v2/" ++ repository (reference p) ++ B "/blobs/" ++ show_digest d))) in
  do! resp := get p url what in
  stream_verified (body resp) dest d MAX_BLOB_BYTES what.

(** [Puller::write_blob_bytes] *)
Definition write_blob_bytes (root : bytes) (d : Digest) (data : bytes) : P unit :=
  let dest := blob_dest root d in
  do! present := blob_is_present dest d (N.of_nat (length data)) in
  if present then se_ret (Ok tt)
  else
    do! _ := stream_verified (slice_reads data) dest d MAX_MANIFEST_BYTES (B "a manifest blob") in
    se_ret (Ok tt).

(** [WireDescriptor::parts] *)
Definition parts (desc : WireDescriptor) (what : bytes) : result (Digest * N) Error :=
  let malformed := fun detail => Status what 200 detail in
  let? text := ok_or (d_digest desc) (malformed (B "a descriptor with no digest")) in
  let? digest := map_err (fun e => malformed (DigestError.explain debug_str e)) (parse_digest text) in
  let? size := ok_or (d_size desc) (malformed (B "a descriptor with no size")) in
  if (size <? 0)%Z then Err (malformed (B "a descriptor with a negative size"))
  else Ok (digest, Z.to_N size).

(** [manifest_digest]; the digest of a tagged manifest is computed, so it parses. *)
Definition digest_of_manifest (r : Reference) (body : bytes) : Digest :=
  match want r with
  | ByDigest d => d
  | Tag _ => Digest.MkDigest (B "sha256") (sha256_hex body)
  end.

Definition is_our_platform (e : WireDescriptor) : bool :=
  match d_platform e with
  | Some p => bool_decide (os p = Some (B "linux")) && bool_decide (architecture p = Some (B "amd64"))
  | None => false
  end.

Definition parse_doc (body : bytes) : result WireDoc Error :=
  map_err (fun e => Status (B "the manifest") 200 (B "it does not parse: " ++ e)) (json_doc body).

(** A body that does not hash to the digest it was asked for by. *)
Definition verify_body (d : Digest) (body : bytes) : result unit Error :=
  let actual := sha256_hex body in
  if negb (beq actual (Digest.encoded d)) then Err (DigestMismatch (show_digest d) actual) else Ok tt.

(** The config and the layers, each present already or fetched; what was downloaded and reused. *)
Fixpoint pull_blobs (p : Puller) (root : bytes) (downloaded reused : N) (l : list (WireDescriptor * bytes)) :
    P (N * N) :=
  match l with
  | [] => se_ret (Ok (downloaded, reused))
  | (desc, what) :: rest =>
      do! ds := se_ret (parts desc what) in
      let '(d, size) := ds in
      let dest := blob_dest root d in
      do! present := blob_is_present dest d size in
      if present then pull_blobs p root downloaded (reused + 1) rest
      else
        do! n := fetch_blob p d dest what in
        pull_blobs p root (downloaded + n) reused rest
  end.

(** [write_layout_metadata] *)
Definition write_layout_metadata (root : bytes) (manifest : Digest) (media_type : bytes) (size : N)
    (r : Reference) : P unit :=
  do! _ := fs_create_dir_all root in
  do! _ := fs_write (path_join root (B "oci-layout")) (B "{" ++ [quote] ++ B "imageLayoutVersion" ++ [quote] ++ B ":" ++
             [quote] ++ B "1.0.0" ++ [quote] ++ B "}") in
  let path := path_join root (B "index.json") in
  do! data := se_ret (map_err (Io path) (json_index media_type (show_digest manifest) size (show_reference r))) in
  fs_write path data.

(** Step 1: the manifest the reference names. *)
Definition pull_top (p : Puller) : P (bytes * bytes * Digest * WireDoc) :=
  do! bm := fetch_manifest p (manifest_path (reference p)) in
  let '(body, mt) := bm in
  do! _ := se_ret (match want (reference p) with ByDigest d => verify_body d body | Tag _ => Ok tt end) in
  do! doc := se_ret (parse_doc body) in
  se_ret (Ok (body, mt, digest_of_manifest (reference p) body, doc)).

(** Step 2, for an index: this platform's manifest. *)
Definition pull_chosen (p : Puller) (root : bytes) (index_digest : Digest) (index_body : bytes)
    (entries : list WireDescriptor) : P (bytes * bytes * Digest * WireDoc) :=
  do! _ := write_blob_bytes root index_digest index_body in
  do! chosen := se_ret (ok_or (List.find is_our_platform entries)
                  (Status (show_reference (reference p)) 200
                     (B "this image publishes no linux/amd64 manifest, and isopod boots x86-64 Linux guests"))) in
  do! ds := se_ret (parts chosen (B "the index")) in
  let '(d, _) := ds in
  do! bm := fetch_manifest p (B "/v2/" ++ repository (reference p) ++ B "/manifests/" ++ show_digest d) in
  let '(body, mt) := bm in
  do! _ := se_ret (verify_body d body) in
  do! doc := se_ret (parse_doc body) in
  se_ret (Ok (body, default mt (d_media_type chosen), d, doc)).

(** Steps 3 and 4: the manifest, its blobs, and [index.json] last. *)
Definition pull_manifest (p : Puller) (root : bytes) (body mt : bytes) (digest : Digest) (doc : WireDoc) : P Pulled :=
  do! _ := write_blob_bytes root digest body in
  do! config := se_ret (ok_or (config doc) (Status (B "the manifest") 200 (B "it has no config descriptor"))) in
  let layers := default [] (layers doc) in
  if bool_decide (layers = []) then
    se_ret (Err (Status (B "the manifest") 200
      (B "it has no layers; an image with no filesystem cannot be a base")))
  else
    do! counts := pull_blobs p root 0 0
                    ((config, B "the config blob") :: map (fun l => (l, B "a layer blob")) layers) in
    do! _ := write_layout_metadata root digest mt (N.of_nat (length body)) (reference p) in
    se_ret (Ok (MkPulled root digest (fst counts) (snd counts))).

(** [Puller::pull_into] *)
Definition pull_into (p : Puller) (root : bytes) : P Pulled :=
  do! top := pull_top p in
  let '(body, mt, digest, doc) := top in
  match (if is_index_type (default mt (media_type doc)) then manifests doc else None) with
  | Some entries =>
      do! chosen := pull_chosen p root digest body entries in
      let '(body, mt, digest, doc) := chosen in
      pull_manifest p root body mt digest doc
  | None => pull_manifest p root body mt digest doc
  end.
End Pull.

(** ** Where a credential goes *)

Section credentials.
Context {Url W : Type} `{UrlLaws Url}.
Implicit Types (s : @PullState Url W) (p : Puller).

Abbreviation Exchange := (Request Url * result HttpResponse bytes)%type.

(** What [m] sends, from any state, and that it leaves the disk alone. *)
Definition sends {A} (m : SE (@PullState Url W) (PullError Url) A) (Q : list Exchange -> Prop) : Prop :=
  forall s, exists l, exchanges (snd (m s)) = exchanges s ++ l /\ disk (snd (m s)) = disk s /\ Q l.

Lemma sends_impl {A} (m : SE (@PullState Url W) (PullError Url) A) (Q R : list Exchange -> Prop) :
  sends m Q -> (forall l, Q l -> R l) -> sends m R.
Proof. intros Hm HQ s. destruct (Hm s) as (l & ? & ? & ?). eauto. Qed.

Lemma sends_ret {A} (r : result A (PullError Url)) (Q : list Exchange -> Prop) : Q [] -> sends (se_ret r) Q.
Proof. intros HQ s. exists []. cbn. by rewrite app_nil_r. Qed.

Lemma sends_bind {A B} (m : SE (@PullState Url W) (PullError Url) A) (k : A -> SE (@PullState Url W) (PullError Url) B)
    (Q R : list Exchange -> Prop) :
  sends m Q -> (forall l, Q l -> R l) ->
  (forall a s l, fst (m s) = Ok a -> exchanges (snd (m s)) = exchanges s ++ l -> Q l -> sends (k a) (fun l' => R (l ++ l'))) ->
  sends (se_bind m k) R.
Proof.
  intros Hm HQ Hk s. destruct (Hm s) as (l & He & Hd & Hl). unfold se_bind. specialize (Hk).
  destruct (m s) as [[a|e] s1] eqn:Em; cbn [fst snd] in *; [|eauto].
  assert (Hka : sends (k a) (fun l' => R (l ++ l'))) by (apply (Hk a s l); rewrite ?Em; done).
  destruct (Hka s1) as (l' & He' & Hd' & Hl'). exists (l ++ l').
  rewrite He', He, app_assoc. repeat split; [congruence|done].
Qed.

(** Asked of a token service, because a host of the origin answered with this challenge. *)
Definition challenged_by p (origin : Url) (l : list Exchange) (e : Exchange) : Prop :=
  exists rq resp c, (rq, Ok resp) ∈ l /\ same_origin origin (rq_url rq) /\ status resp = 401%N /\
    parse_challenge (default [] (www_authenticate resp)) (local p) = Ok c /\ rq_url (fst e) = token_url c.

(** At first every request goes to the origin, or to a token service the origin named; then none
    has a credential. *)
Definition stays p (origin : Url) (carry : bool) (l : list Exchange) : Prop :=
  exists pre post, l = pre ++ post /\ (carry = false -> pre = []) /\
    Forall (fun e => same_origin origin (rq_url (fst e)) \/ challenged_by p origin pre e) pre /\
    Forall (fun e => rq_authorization (fst e) = None) post.

(** A request's URL is [url], or passed the destination floor. *)
Definition aimed p (url : Url) (e : Exchange) : Prop :=
  rq_url (fst e) = url \/ destination_is_allowed (rq_url (fst e)) (local p) = true.

Lemma challenged_by_mono p origin l l' e : l ⊆ l' -> challenged_by p origin l e -> challenged_by p origin l' e.
Proof. intros Hl (rq & resp & c & Hin & ?). exists rq, resp, c. set_solver. Qed.

Lemma stays_cons p origin e l :
  same_origin origin (rq_url (fst e)) -> stays p origin true l -> stays p origin true (e :: l).
Proof.
  intros He (pre & post & -> & _ & Hpre & Hpost). exists (e :: pre), post. split; [done|]. split; [done|].
  split; [|done]. constructor; [by left|]. eapply Forall_impl; [exact Hpre|].
  intros x [Hx|Hx]; [by left|]. right. eapply challenged_by_mono; [|exact Hx]. set_solver.
Qed.

Lemma stays_weaken p origin l : stays p origin false l -> stays p origin true l.
Proof. intros (pre & post & ? & _ & ?). by exists pre, post. Qed.

Lemma stays_plain p origin e l :
  rq_authorization (fst e) = None -> stays p origin false l -> stays p origin false (e :: l).
Proof.
  intros He (pre & post & -> & Hn & _ & Hpost). rewrite (Hn eq_refl). exists [], (e :: post).
  repeat split; [constructor|]. by constructor.
Qed.

Lemma stays_one p origin carry (e : Exchange) :
  (carry = true -> same_origin origin (rq_url (fst e))) ->
  (carry = false -> rq_authorization (fst e) = None) -> stays p origin carry [e].
Proof.
  intros Ho Ha. destruct carry.
  - exists [e], []. repeat split; try done. constructor; [left; auto|constructor].
  - exists [], [e]. repeat split; try done. constructor; [auto|constructor].
Qed.

Lemma stays_nil p origin carry : stays p origin carry [].
Proof. by exists [], []. Qed.

(** *** One step of a computation *)

Variable send_request : Request Url -> W -> result HttpResponse bytes * W.
Variable json_value : bytes -> result Value bytes.

Lemma sends_send {A} what rq (k : HttpResponse -> SE (@PullState Url W) (PullError Url) A) (R : list Exchange -> Prop) :
  (forall e, R [(rq, Err e)]) -> (forall resp, sends (k resp) (fun l => R ((rq, Ok resp) :: l))) ->
  sends (se_bind (send send_request what rq) k) R.
Proof.
  intros He Hk s. unfold se_bind, send. destruct (send_request rq (peers s)) as [[resp|e] w]; cbn [map_err].
  - destruct (Hk resp (MkSt (token s) w (exchanges s ++ [(rq, Ok resp)]) (disk s))) as (l & E & Ed & Hl).
    exists ((rq, Ok resp) :: l). rewrite E, Ed. cbn. by rewrite <- app_assoc.
  - exists [(rq, Err e)]. by cbn.
Qed.

Lemma sends_bind_ret {A B} (r : result A (PullError Url)) (k : A -> SE (@PullState Url W) (PullError Url) B)
    (R : list Exchange -> Prop) :
  R [] -> (forall a, r = Ok a -> sends (k a) R) -> sends (se_bind (se_ret r) k) R.
Proof.
  intros HR Hk s. unfold se_bind, se_ret. destruct r as [a|e]; [by apply Hk|].
  exists []. cbn. by rewrite app_nil_r.
Qed.

Lemma sends_get_token {A} (k : option bytes -> SE (@PullState Url W) (PullError Url) A) (R : list Exchange -> Prop) :
  (forall t, sends (k t) R) -> sends (se_bind get_token k) R.
Proof. intros Hk s. apply (Hk (token s)). Qed.

Lemma sends_put_token {A} t (k : unit -> SE (@PullState Url W) (PullError Url) A) (R : list Exchange -> Prop) :
  sends (k tt) R -> sends (se_bind (put_token t) k) R.
Proof. intros Hk s. exact (Hk (set_token (Some t) s)). Qed.

Lemma sends_fetch_token {A} p c (k : bytes -> SE (@PullState Url W) (PullError Url) A) (R : list Exchange -> Prop) :
  (forall r, R [(MkRequest (token_url c) None (option_map (app (B "Basic ")) (basic p)), r)]) ->
  (forall t r, sends (k t) (fun l => R ((MkRequest (token_url c) None (option_map (app (B "Basic ")) (basic p)), r) :: l))) ->
  sends (se_bind (fetch_token send_request json_value p c) k) R.
Proof.
  intros HR Hk. assert (Ht : forall s, exists r l,
    exchanges (snd (fetch_token send_request json_value p c s)) = exchanges s ++ l /\
    disk (snd (fetch_token send_request json_value p c s)) = disk s /\
    l = [(MkRequest (token_url c) None (option_map (app (B "Basic ")) (basic p)), r)]).
  { intros s. unfold fetch_token. unfold se_bind, send. destruct (send_request _ (peers s)) as [[resp|e] w]; cbn [map_err].
    - destruct (negb _); [by eexists _, _|]. unfold se_ret. destruct (response_json json_value resp); by eexists _, _.
    - by eexists _, _. }
  intros s. unfold se_bind. destruct (Ht s) as (r & l & He & Hd & ->).
  destruct (fetch_token send_request json_value p c s) as [[t|e] s1]; cbn [fst snd] in *.
  - destruct (Hk t r s1) as (l & He' & Hd' & Hl). eexists. rewrite He', Hd', He, Hd, <- app_assoc. done.
  - eexists. done.
Qed.

(** The loop, from a host of the origin while the credential is carried. *)
Lemma get_loop_sends p what hops origin current carry challenged :
  (carry = true -> same_origin origin current) ->
  current = origin \/ destination_is_allowed current (local p) = true ->
  sends (get_loop send_request json_value p what hops current carry challenged)
    (fun l => stays p origin carry l /\ Forall (aimed p origin) l /\
              (length l <= hops + if challenged then 0 else 1)%nat).
Proof.
  revert current carry challenged. induction hops as [|hops IH]; intros current carry challenged Ho Hd.
  { apply sends_ret. split; [apply stays_nil|]. split; [constructor|]. cbn. lia. }
  cbn [get_loop]. apply sends_get_token. intros t. set (rq := MkRequest _ _ _).
  assert (Hone : forall r, stays p origin carry [(rq, r)]).
  { intros r. apply stays_one; [done|]. by intros ->. }
  assert (Ha : forall r, aimed p origin (rq, r)) by done.
  apply sends_send; [intros e; split; [apply Hone|split; [by apply Forall_singleton|cbn; lia]]|].
  intros resp. destruct ((status resp =? 401)%N && negb challenged && carry) eqn:E401.
  - apply andb_true_iff in E401 as [E401 ->]. apply andb_true_iff in E401 as [E401 Ech].
    apply N.eqb_eq in E401. destruct challenged; [done|].
    apply sends_bind_ret; [split; [apply Hone|split; [by apply Forall_singleton|cbn; lia]]|].
    intros c Hc. destruct (parse_challenge _ _) as [c'|] eqn:Ep; [|done]. injection Hc as <-.
    destruct (parse_challenge_floored _ _ _ Ep) as [Hf _].
    set (tq := MkRequest (token_url c') None (option_map (app (B "Basic ")) (basic p))).
    assert (Hstay : forall r l, stays p origin true l -> stays p origin true ((rq, Ok resp) :: (tq, r) :: l)).
    { intros r l (pre & post & -> & _ & Hpre & Hpost). exists ((rq, Ok resp) :: (tq, r) :: pre), post.
      split; [done|]. split; [done|]. split; [|done]. constructor; [left; by apply Ho|].
      constructor; [right; exists rq, resp, c'; repeat split; try done; [left|by apply Ho]|].
      eapply Forall_impl; [exact Hpre|]. intros x [Hx|Hx]; [by left|]. right.
      eapply challenged_by_mono; [|exact Hx]. set_solver. }
    apply sends_fetch_token; fold tq.
    + intros r. split; [apply Hstay, stays_nil|]. split; [|cbn; lia]. constructor; [done|].
      constructor; [by right|constructor].
    + intros t' r. apply sends_put_token. eapply sends_impl; [by apply IH|]. cbn beta.
      intros l (Hs & Hall & Hlen). split; [by apply Hstay|]. split; [|cbn; lia]. constructor; [done|].
      constructor; [by right|done].
  - destruct (is_redirection (status resp)).
    + apply sends_bind_ret; [split; [apply Hone|split; [by apply Forall_singleton|cbn; lia]]|].
      intros next Hn. assert (Hnext : destination_is_allowed next (local p) = true).
      { unfold redirect_target in Hn. run_ok.
        match type of Hn with context [negb ?b] => destruct b eqn:E end; cbn [negb] in Hn; [|done].
        by injection Hn as <-. }
      eapply sends_impl; [apply (IH next); [|by right]|].
      { intros Hc. apply andb_true_iff in Hc as [Hc Hm]. etransitivity; [by apply Ho|done]. }
      intros l (Hs & Hall & Hlen). split; [|split; [by constructor|cbn; lia]].
      destruct carry; cbn [andb] in Hs.
      * apply stays_cons; [by apply Ho|]. destruct (may_carry_credential current next); [done|by apply stays_weaken].
      * by apply stays_plain.
    + destruct (negb (is_success _)); apply sends_ret; (split; [apply Hone|split; [by apply Forall_singleton|cbn; lia]]).
Qed.

(** A credential stays on its origin, and once dropped it does not come back: whatever the
    peers answer, the requests of one [get] are first to the origin of the URL asked for, or to a
    token service that origin's own challenge named; after the first hop elsewhere none carries
    [Authorization].  Every request is for the URL asked for or for one through the destination
    floor, there are at most six and one for a token, and the disk is not touched. *)
Theorem get_keeps_credential p url what s :
  exists l, exchanges (snd (get send_request json_value p url what s)) = exchanges s ++ l /\
    disk (snd (get send_request json_value p url what s)) = disk s /\
    stays p url true l /\ Forall (aimed p url) l /\ (length l <= 7)%nat.
Proof.
  destruct (get_loop_sends p what (S MAX_REDIRECTS) url url true false) with (s := s)
    as (l & He & Hd & Hs & Ha & Hl); [done|by left|].
  by exists l.
Qed.

(** *** Over a whole pull *)

Definition talks {A} (m : SE (@PullState Url W) (PullError Url) A) (Q : list Exchange -> Prop) : Prop :=
  forall s, exists l, exchanges (snd (m s)) = exchanges s ++ l /\ Q l.

(** The exchanges of successive [get]s, each for a URL of the registry's API. *)
Inductive calls p : list Exchange -> Prop :=
  | calls_nil : calls p []
  | calls_get url path l l' :
      url_parse (base p ++ B "/v2/" ++ path) = Ok url ->
      stays p url true l -> Forall (aimed p url) l -> (length l <= 7)%nat ->
      calls p l' -> calls p (l ++ l').

Lemma calls_app p l l' : calls p l -> calls p l' -> calls p (l ++ l').
Proof.
  induction 1 as [|url path l l1 Hu Hs Ha Hn Hl IH]; [done|]. intros Hl'. rewrite <- app_assoc.
  econstructor; eauto.
Qed.

Lemma talks_ret {A} (r : result A (PullError Url)) p : talks (se_ret r) (calls p).
Proof. intros s. exists []. rewrite app_nil_r. split; [done|constructor]. Qed.

Lemma talks_bind {A B} (m : SE (@PullState Url W) (PullError Url) A) (k : A -> SE (@PullState Url W) (PullError Url) B) p :
  talks m (calls p) -> (forall a, talks (k a) (calls p)) -> talks (se_bind m k) (calls p).
Proof.
  intros Hm Hk s. destruct (Hm s) as (l & He & Hl). unfold se_bind.
  destruct (m s) as [[a|e] s1]; cbn [fst snd] in *; [|eauto].
  destruct (Hk a s1) as (l' & He' & Hl'). exists (l ++ l').
  rewrite He', He, app_assoc. split; [done|by apply calls_app].
Qed.

Lemma talks_try {A} (m : SE (@PullState Url W) (PullError Url) A) p :
  talks m (calls p) -> talks (A := result A (PullError Url)) (se_try m) (calls p).
Proof. intros Hm s. destruct (Hm s) as (l & He & Hl). unfold se_try. destruct (m s); eauto. Qed.

Lemma talks_get p url path what :
  url_parse (base p ++ B "/v2/" ++ path) = Ok url -> talks (get send_request json_value p url what) (calls p).
Proof.
  intros Hu s. destruct (get_loop_sends p what (S MAX_REDIRECTS) url url true false) with (s := s)
    as (l & He & Hd & Hs & Ha & Hl); [done|by left|].
  exists l. split; [done|]. rewrite <- (app_nil_r l). by eapply calls_get; [..|constructor].
Qed.

Lemma talks_fs p path ok failed : talks (fs_call (Url := Url) (W := W) path ok failed) (calls p).
Proof.
  intros s. exists []. rewrite app_nil_r. split; [|constructor]. unfold fs_call.
  by destruct (faults (disk s)) as [|[[e n]|] f].
Qed.
End credentials.

(** The steps of a computation that talks. *)
Ltac talks_step :=
  match goal with
  | |- talks (se_bind _ _) _ => apply talks_bind; [|intros ?]
  | |- talks (se_ret _) _ => apply talks_ret
  | |- talks (se_try _) _ => apply talks_try
  | |- talks (fs_call _ _ _) _ => apply talks_fs
  | |- talks (fs_create_dir_all _) _ => apply talks_fs
  | |- talks (fs_create _) _ => apply talks_fs
  | |- talks (fs_write_all _ _) _ => apply talks_fs
  | |- talks (fs_remove_file _) _ => apply talks_fs
  | |- talks (fs_sync_all _) _ => apply talks_fs
  | |- talks (fs_rename _ _) _ => apply talks_fs
  | |- talks (fs_write _ _) _ => apply talks_fs
  | |- talks (match ?x with _ => _ end) _ => destruct x
  | |- talks (let '(_, _) := ?x in _) _ => destruct x
  end.

Section pulls.
Context {Url W : Type} `{UrlLaws Url}.
Variable send_request : Request Url -> W -> result HttpResponse bytes * W.
Variable sha256_hex : bytes -> bytes.
Variables (json_value : bytes -> result Value bytes) (json_doc : bytes -> result WireDoc bytes)
  (json_index : bytes -> bytes -> N -> bytes -> result bytes bytes).
Variables (debug_str : bytes -> bytes) (pid : N).
(** The addresses of the proxy that the environment names for a URL, if it does. *)
Variable environment_proxy : Url -> option (list ip_addr).
Implicit Types (s : @PullState Url W) (p : Puller) (d : Digest).

Abbreviation Exchange := (Request Url * result HttpResponse bytes)%type.

Lemma talks_look p path : talks (Url := Url) (W := W) (fs_look path) (calls p).
Proof. unfold fs_look. repeat talks_step. intros s. exists []. rewrite app_nil_r. split; [done|constructor]. Qed.

Lemma talks_present p path d size : talks (Url := Url) (W := W) (blob_is_present sha256_hex path d size) (calls p).
Proof. unfold blob_is_present. repeat (talks_step || apply talks_look). Qed.

Lemma talks_stream_loop p tmp what cap total hashed reads :
  talks (Url := Url) (W := W) (stream_loop tmp what cap total hashed reads) (calls p).
Proof.
  revert total hashed. induction reads as [|[[|b0 b]|e] reads IH]; intros total hashed; cbn [stream_loop];
    repeat (talks_step || apply IH).
Qed.

Lemma talks_stream p reads dest expect cap what :
  talks (Url := Url) (W := W) (stream_verified sha256_hex pid reads dest expect cap what) (calls p).
Proof. unfold stream_verified. repeat (talks_step || apply talks_stream_loop). Qed.

Lemma talks_write_blob p root d data :
  talks (Url := Url) (W := W) (write_blob_bytes sha256_hex pid root d data) (calls p).
Proof. unfold write_blob_bytes. repeat (talks_step || apply talks_present || apply talks_stream). Qed.

Lemma talks_manifest p path :
  talks (fetch_manifest send_request json_value p (B "/v2/" ++ path)) (calls p).
Proof.
  unfold fetch_manifest. destruct (url_parse _) as [url|e] eqn:Eu; cbn [map_err]; [|intros s; apply talks_ret].
  change (se_bind (se_ret (Ok url)) ?k) with (k url).
  apply talks_bind; [by eapply talks_get|]. intros resp. repeat talks_step.
Qed.

Lemma talks_blobs p root n m l :
  talks (pull_blobs send_request sha256_hex json_value debug_str pid p root n m l) (calls p).
Proof.
  revert n m. induction l as [|[desc what] l IH]; intros n m; cbn [pull_blobs]; [apply talks_ret|].
  repeat (talks_step || apply talks_present || apply IH).
  unfold fetch_blob. destruct (url_parse _) as [url|e] eqn:Eu; cbn [map_err]; [|intros s; apply talks_ret].
  change (se_bind (se_ret (Ok url)) ?k) with (k url).
  apply talks_bind; [by eapply talks_get|]. intros resp. apply talks_stream.
Qed.

Lemma talks_pull_manifest p root body mt d doc :
  talks (pull_manifest send_request sha256_hex json_value json_index debug_str pid p root body mt d doc) (calls p).
Proof.
  unfold pull_manifest, write_layout_metadata.
  repeat (talks_step || apply talks_write_blob || apply talks_blobs).
Qed.

Lemma talks_pull p root :
  talks (pull_into send_request sha256_hex json_value json_doc json_index debug_str pid p root) (calls p).
Proof.
  unfold pull_into. apply talks_bind.
  - unfold pull_top, manifest_path. repeat (talks_step || apply talks_manifest).
  - intros [[[body mt] d] doc]. talks_step; [|apply talks_pull_manifest]. apply talks_bind.
    + unfold pull_chosen. repeat (talks_step || apply talks_write_blob || apply talks_manifest).
    + intros [[[? ?] ?] ?]. apply talks_pull_manifest.
Qed.

(** The addresses of the host a URL names, given how a lookup of its name ends: a literal is itself, a name
    is where [FlooredResolver] says. *)
Definition addresses p (u : Url) (answer : Lookup) : list ip_addr :=
  match url_host u with
  | Some (HostV4 ip) => [V4 ip]
  | Some (HostV6 ip) => [V6 ip]
  | Some (Domain d) =>
      match FlooredResolver_resolve (local p) d answer with Ok addrs => map fst addrs | Err _ => [] end
  | None => []
  end.

(** What the connector may dial for a request: the client honours the environment's proxy settings
    ([HTTPS_PROXY], [HTTP_PROXY], [NO_PROXY]), and where they name a proxy for a URL it is the proxy that
    is dialled, which looks the name up by itself; otherwise the host is. *)
Definition dialled p (u : Url) (answer : Lookup) : list ip_addr :=
  match environment_proxy u with Some proxy => proxy | None => addresses p u answer end.

(** A literal host is through the floor. *)
Definition literal_floored p (u : Url) : Prop :=
  match url_host u with
  | Some (HostV4 ip) => address_is_allowed (V4 ip) (local p) = true
  | Some (HostV6 ip) => address_is_allowed (V6 ip) (local p) = true
  | _ => True
  end.

Lemma addresses_floored p u answer ip :
  literal_floored p u -> ip ∈ addresses p u answer -> address_is_allowed ip (local p) = true.
Proof.
  unfold literal_floored, addresses. destruct (url_host u) as [[d|v4|v6]|]; [|set_solver..].
  intros _ Hin. destruct (FlooredResolver_resolve (local p) d answer) as [addrs|e] eqn:Er; [|set_solver].
  destruct answer as [l|?|?]; cbn [FlooredResolver_resolve] in Er; try discriminate.
  apply screen_resolved_spec in Er as (-> & _ & Hall). apply list_elem_of_fmap in Hin as (a & -> & Ha).
  rewrite Forall_forall in Hall. by apply Hall.
Qed.

Lemma destination_literal p u : destination_is_allowed u (local p) = true -> literal_floored p u.
Proof.
  intros (_ & h & Hh & Hf)%destination_spec. unfold literal_floored. rewrite Hh. by destruct h.
Qed.

Lemma base_http p : starts_with (B "http://") (base p) || starts_with (B "https://") (base p) = true.
Proof. unfold base. by destruct (local p). Qed.

(** A client that was built: its registry has a URL, and a literal host in it is floored. *)
Lemma new_floored client config_file input p :
  Puller_new (Url := Url) json_value client config_file input = Ok p ->
  reference_ok (reference p) /\ exists u, url_parse (base p) = Ok u /\ literal_floored p u.
Proof.
  unfold Puller_new. intros Hn. run_ok.
  apply parse_reference_ok in Hrun. split; [done|].
  unfold refuse_a_floored_literal_host in Hrun1. run_ok.
  eexists. split; [eassumption|]. unfold literal_floored.
  destruct (url_host _) as [[]|]; [done|..|done].
  all: by destruct (address_is_allowed _ _).
Qed.

Lemma api_url_origin p u path v :
  url_parse (base p) = Ok u -> url_parse (base p ++ B "/v2/" ++ path) = Ok v ->
  same_origin u v /\ url_host v = url_host u.
Proof.
  intros Hu Hv. destruct (url_parse_origin (base p) (B "v2/" ++ path) u v (base_http p) Hu Hv) as (Hs & Hh & Hp).
  split; [|done]. apply same_origin_spec. by rewrite !host_str_host, Hs, Hh, Hp.
Qed.

(** What one exchange of a pull may be, for a registry at [u]. *)
Definition safe_exchange p (u : Url) (l : list Exchange) (e : Exchange) : Prop :=
  (rq_authorization (fst e) <> None -> same_origin u (rq_url (fst e)) \/ challenged_by p u l e) /\
  literal_floored p (rq_url (fst e)) /\
  (forall answer ip, ip ∈ dialled p (rq_url (fst e)) answer ->
    address_is_allowed ip (local p) = true \/ exists proxy, environment_proxy (rq_url (fst e)) = Some proxy /\ ip ∈ proxy).

Lemma challenged_by_origin p u v l e : same_origin u v -> challenged_by p v l e -> challenged_by p u l e.
Proof.
  intros Huv (rq & resp & c & Hin & Ho & ?). exists rq, resp, c. split; [done|]. split; [by etransitivity|done].
Qed.

Lemma calls_safe p u l : url_parse (base p) = Ok u -> literal_floored p u -> calls p l ->
  Forall (safe_exchange p u l) l.
Proof.
  intros Hu Hf. induction 1 as [|v path l l' Hv (pre & post & -> & _ & Hpre & Hpost) Ha Hn Hl IH]; [constructor|].
  destruct (api_url_origin p u path v Hu Hv) as [Huv Hh].
  assert (Hfv : literal_floored p v) by (unfold literal_floored in *; by rewrite Hh).
  assert (Hdial : forall e, aimed p v e -> literal_floored p (rq_url (fst e)) /\ forall answer ip, ip ∈ dialled p (rq_url (fst e)) answer ->
    address_is_allowed ip (local p) = true \/ exists proxy, environment_proxy (rq_url (fst e)) = Some proxy /\ ip ∈ proxy).
  { intros e He. assert (Hf' : literal_floored p (rq_url (fst e))) by (destruct He as [->|He]; [done|by apply destination_literal]).
    split; [done|]. intros answer ip. unfold dialled. destruct (environment_proxy _) as [proxy|]; [right; by exists proxy|].
    intros Hin. left. by eapply addresses_floored. }
  rewrite Forall_forall in Ha. rewrite !Forall_app. split; [split|]; apply Forall_forall; intros e He.
  - rewrite Forall_forall in Hpre. split; [|apply Hdial, Ha; set_solver]. intros _.
    destruct (Hpre e He) as [Ho|Hc]; [left; by etransitivity|]. right.
    apply (challenged_by_mono p u pre); [set_solver|by apply (challenged_by_origin p u v)].
  - rewrite Forall_forall in Hpost. split; [|apply Hdial, Ha; set_solver]. by rewrite (Hpost e He).
  - rewrite Forall_forall in IH. destruct (IH e He) as [Hc Hd]. split; [|done]. intros Hn'.
    destruct (Hc Hn') as [?|Hc']; [by left|]. right. by apply (challenged_by_mono p u l'); [set_solver|].
Qed.

(** C8: Over a whole pull, whatever the registry and every other peer answer: a request with a
    credential goes to the origin of the registry the reference names or to a token service that
    origin challenged the client to ask; an address written in a URL that is asked for is through the
    address floor; and so is every address the client may dial for any request, literal or resolved,
    unless the operator's environment names a proxy for the URL and the address is the proxy's. *)
Theorem pull_network_safe client config_file input p root s :
  Puller_new (Url := Url) json_value client config_file input = Ok p ->
  exists u l, url_parse (base p) = Ok u /\
    exchanges (snd (pull_into send_request sha256_hex json_value json_doc json_index debug_str pid p root s)) =
      exchanges s ++ l /\
    Forall (safe_exchange p u l) l.
Proof.
  intros (_ & u & Hu & Hf)%new_floored.
  destruct (talks_pull p root s) as (l & He & Hl). exists u, l. split; [done|]. split; [done|].
  by apply calls_safe.
Qed.
End pulls.

(** ** What is on the disk *)

(** *** Paths *)

Lemma path_file_name_join a f :
  "/"%char ∉ f -> f <> [] -> path_file_name (path_join a f) = f.
Proof.
  intros Hf Hne. unfold path_join.
  replace (starts_with (B "/") f) with false
    by (symmetry; apply not_true_iff_false; intros [r ->]%starts_with_true; set_solver).
  unfold path_file_name. destruct (beq a [] || ends_with (B "/") a) eqn:Ea.
  - apply orb_true_iff in Ea as [->%beq_true|[r ->]%ends_with_true].
    + cbn [app]. by rewrite (proj2 (rsplit_once_None "/" f) Hf).
    + rewrite <- app_assoc. change (B "/" ++ f) with ("/"%char :: f). by rewrite (proj2 (rsplit_once_Some "/" _ r f) (conj eq_refl Hf)).
  - change (B "/" ++ f) with ("/"%char :: f). by rewrite (proj2 (rsplit_once_Some "/" _ a f) (conj eq_refl Hf)).
Qed.

Lemma blob_dest_file_name root d : digest_ok d -> path_file_name (blob_dest root d) = Digest.encoded d.
Proof.
  intros Hd. pose proof Hd as (_ & Hl & Hh). unfold blob_dest. rewrite digest_blob_path_ok by done.
  assert (Hs : "/"%char ∉ Digest.encoded d).
  { rewrite Forall_forall in Hh. by intros ?%Hh. }
  unfold path_join. change (starts_with (B "/") (B "blobs/sha256/" ++ Digest.encoded d)) with false. cbv iota.
  set (pre := B "blobs/sha256"). change (B "blobs/sha256/") with (pre ++ B "/").
  unfold path_file_name. destruct (beq root [] || ends_with (B "/") root).
  - rewrite (proj2 (rsplit_once_Some "/" _ (root ++ pre) (Digest.encoded d))); [done|].
    split; [by rewrite <- !app_assoc|done].
  - rewrite (proj2 (rsplit_once_Some "/" _ (root ++ B "/" ++ pre) (Digest.encoded d))); [done|].
    split; [by rewrite <- !app_assoc|done].
Qed.

(** A name with a byte that is no hex digit is not a blob's. *)
Lemma not_a_blob root a f x d :
  digest_ok d -> "/"%char ∉ f -> x ∈ f -> is_lower_hex x = false -> path_join a f <> blob_dest root d.
Proof.
  intros Hd Hf Hx Hh E. apply (f_equal path_file_name) in E.
  rewrite path_file_name_join, blob_dest_file_name in E by (try done; intros ->; set_solver).
  subst f. destruct Hd as (_ & _ & Hall). rewrite Forall_forall in Hall. specialize (Hall x Hx). congruence.
Qed.

Lemma show_N_no c n : is_ascii_digit c = false -> c ∉ show_N n.
Proof.
  intros Hc Hin. pose proof (show_N_digits n) as Hd. apply forallb_Forall in Hd.
  rewrite Forall_forall in Hd. specialize (Hd c Hin). congruence.
Qed.

Section disk.
Context {Url W : Type} `{UrlLaws Url}.
Variable send_request : Request Url -> W -> result HttpResponse bytes * W.
Variable sha256_hex : bytes -> bytes.
Variables (json_value : bytes -> result Value bytes) (json_doc : bytes -> result WireDoc bytes)
  (json_index : bytes -> bytes -> N -> bytes -> result bytes bytes).
Variables (debug_str : bytes -> bytes) (pid : N).
(** The hash has its 64 digits. *)
Hypothesis sha256_digits : forall data, digest_ok (Digest.MkDigest (B "sha256") (sha256_hex data)).
Variable root : bytes.
Implicit Types (s : @PullState Url W) (p : Puller) (d : Digest) (fs : gmap bytes bytes).

Abbreviation Q := (SE (@PullState Url W) (PullError Url)).
Definition on_disk s : gmap bytes bytes := files (disk s).

Lemma tmp_name d : digest_ok d ->
  tmp_path pid (blob_dest root d) =
  path_join (path_parent (blob_dest root d)) (B "." ++ Digest.encoded d ++ B ".partial." ++ show_N pid).
Proof. intros Hd. unfold tmp_path. by rewrite blob_dest_file_name. Qed.

Lemma tmp_no_slash d : digest_ok d -> "/"%char ∉ B "." ++ Digest.encoded d ++ B ".partial." ++ show_N pid.
Proof.
  intros (_ & _ & Hh) Hin. rewrite !elem_of_app in Hin. rewrite Forall_forall in Hh.
  destruct Hin as [Hin|[Hin|[Hin|Hin]]].
  - apply contains_true in Hin. by vm_compute in Hin.
  - by apply Hh in Hin.
  - apply contains_true in Hin. by vm_compute in Hin.
  - by apply show_N_no in Hin.
Qed.

Lemma tmp_not_blob d d' : digest_ok d -> digest_ok d' -> tmp_path pid (blob_dest root d) <> blob_dest root d'.
Proof.
  intros Hd Hd'. rewrite tmp_name by done.
  apply (not_a_blob root _ _ "."%char); [done|by apply tmp_no_slash|left|done].
Qed.

Definition index_path : bytes := path_join root (B "index.json").
Definition marker_path : bytes := path_join root (B "oci-layout").

Lemma index_not_blob d : digest_ok d -> index_path <> blob_dest root d.
Proof. intros Hd. apply (not_a_blob root _ _ "."%char); try done; apply contains_false || apply contains_true; done. Qed.

Lemma marker_not_blob d : digest_ok d -> marker_path <> blob_dest root d.
Proof. intros Hd. apply (not_a_blob root _ _ "-"%char); try done; apply contains_false || apply contains_true; done. Qed.

Lemma marker_not_index : marker_path <> index_path.
Proof.
  intros E. apply (f_equal path_file_name) in E. unfold marker_path, index_path in E.
  by rewrite !path_file_name_join in E by (done || by apply contains_false).
Qed.

Lemma index_not_tmp d : digest_ok d -> index_path <> tmp_path pid (blob_dest root d).
Proof.
  intros Hd E. apply (f_equal path_file_name) in E. rewrite tmp_name in E by done.
  unfold index_path in E. rewrite !path_file_name_join in E; try done; [by apply tmp_no_slash|by apply contains_false].
Qed.

(** *** The store *)

(** The blob of [d] is there, and is its content. *)
Definition blob_ok (d : Digest) fs : Prop :=
  exists c, fs !! blob_dest root d = Some c /\ sha256_hex c = Digest.encoded d.

(** Nothing is under a name it does not hash to. *)
Definition store_ok fs : Prop :=
  forall d c, digest_ok d -> fs !! blob_dest root d = Some c -> sha256_hex c = Digest.encoded d.

(** A change that keeps the store and the blobs in it; [evolves] leaves [index.json] too. *)
Definition keeps fs fs' : Prop :=
  (store_ok fs -> store_ok fs') /\ (forall d, digest_ok d -> blob_ok d fs -> blob_ok d fs').
Definition evolves fs fs' : Prop := keeps fs fs' /\ fs' !! index_path = fs !! index_path.

#[local] Instance keeps_preorder : PreOrder keeps.
Proof. split; [by intros fs|]. intros a b c (H1 & H2) (G1 & G2). split; auto. Qed.

#[local] Instance evolves_preorder : PreOrder evolves.
Proof.
  split; [by intros fs|]. intros a b c (H1 & H2) (G1 & G2). split; [by transitivity b|congruence].
Qed.

(** Only [path] may have changed. *)
Definition only_file (path : bytes) fs fs' : Prop := forall q, q <> path -> fs' !! q = fs !! q.

Lemma only_trans path a b c : only_file path a b -> only_file path b c -> only_file path a c.
Proof. intros H1 H2 q Hq. by rewrite H2, H1. Qed.

Lemma only_insert path c fs : only_file path fs (<[path := c]> fs).
Proof. intros q Hq. by apply lookup_insert_ne. Qed.

(** A change of a file that is no blob's. *)
Lemma only_keeps path fs fs' :
  (forall d, digest_ok d -> path <> blob_dest root d) -> only_file path fs fs' -> keeps fs fs'.
Proof.
  intros Hp Ho. assert (Hb : forall d, digest_ok d -> fs' !! blob_dest root d = fs !! blob_dest root d).
  { intros d Hd. apply Ho. intros E. by apply (Hp d). }
  split.
  - intros Hs d c Hd. rewrite Hb by done. by apply Hs.
  - intros d Hd (c & Hc & Hh). exists c. by rewrite Hb.
Qed.

Lemma only_evolves path fs fs' : (forall d, digest_ok d -> path <> blob_dest root d) -> path <> index_path ->
  only_file path fs fs' -> evolves fs fs'.
Proof. intros Hp Hi Ho. split; [by eapply only_keeps|by apply Ho]. Qed.

Lemma only_tmp_evolves d fs fs' : digest_ok d -> only_file (tmp_path pid (blob_dest root d)) fs fs' -> evolves fs fs'.
Proof.
  intros Hd. apply only_evolves; [intros d' Hd'; by apply tmp_not_blob|].
  intros E. by apply (index_not_tmp d Hd).
Qed.

(** The verified file under its name keeps everything, and adds the blob. *)
Lemma insert_blob_evolves d c fs : digest_ok d -> sha256_hex c = Digest.encoded d ->
  evolves fs (<[blob_dest root d := c]> fs) /\ blob_ok d (<[blob_dest root d := c]> fs).
Proof.
  intros Hd Hc. split; [|exists c; split; [apply lookup_insert_eq|done]].
  assert (Hinj : forall d', digest_ok d' -> blob_dest root d = blob_dest root d' -> Digest.encoded d' = Digest.encoded d).
  { intros d' Hd' E. apply (f_equal path_file_name) in E. by rewrite !blob_dest_file_name in E. }
  split; [split|].
  - intros Hs d' c' Hd'. destruct (decide (blob_dest root d = blob_dest root d')) as [E|E].
    + rewrite <- E, lookup_insert_eq. intros [= <-]. by rewrite (Hinj d' Hd' E).
    + rewrite lookup_insert_ne by done. by apply Hs.
  - intros d' Hd' (c' & Hc' & Hh). destruct (decide (blob_dest root d = blob_dest root d')) as [E|E].
    + exists c. rewrite <- E, lookup_insert_eq. split; [done|]. by rewrite (Hinj d' Hd' E).
    + exists c'. by rewrite lookup_insert_ne.
  - apply lookup_insert_ne. intros E. by apply (index_not_blob d Hd).
Qed.

(** *** The calls *)

Lemma fs_call_spec path ok failed s :
  (fst (fs_call (Url := Url) (W := W) path ok failed s) = Ok tt /\
   on_disk (snd (fs_call (Url := Url) (W := W) path ok failed s)) = ok (on_disk s)) \/
  exists e n, fst (fs_call (Url := Url) (W := W) path ok failed s) = Err (Io path e) /\
    on_disk (snd (fs_call (Url := Url) (W := W) path ok failed s)) = failed n (on_disk s).
Proof.
  unfold fs_call, on_disk. destruct (faults (disk s)) as [|[[e n]|] f]; [by left| |by left].
  right. by exists e, n.
Qed.

Lemma fs_look_spec path s :
  on_disk (snd (fs_look (Url := Url) (W := W) path s)) = on_disk s /\
  forall c, fst (fs_look (Url := Url) (W := W) path s) = Ok c -> on_disk s !! path = Some c.
Proof.
  unfold fs_look, se_bind.
  destruct (fs_call_spec path (fun fs => fs) nothing s) as [[Hr Hd]|(e & n & Hr & Hd)];
    destruct (fs_call path (fun fs => fs) nothing s) as [r s1]; cbn [fst snd] in *; subst r.
  - split; [done|]. intros c Hc%ok_or_Ok. unfold on_disk in *. congruence.
  - done.
Qed.

Lemma blob_is_present_spec path d size s :
  exists b, fst (blob_is_present (Url := Url) (W := W) sha256_hex path d size s) = Ok b /\
    on_disk (snd (blob_is_present (Url := Url) (W := W) sha256_hex path d size s)) = on_disk s /\
    (b = true -> exists c, on_disk s !! path = Some c /\ sha256_hex c = Digest.encoded d).
Proof.
  unfold blob_is_present, se_try, se_bind, se_ret.
  destruct (fs_look_spec path s) as [Hd1 _]. destruct (fs_look path s) as [[c1|e] s1]; cbn [fst snd] in *; [|by exists false].
  destruct (negb _); [by exists false|].
  destruct (fs_look_spec path s1) as [Hd2 _]. destruct (fs_look path s1) as [[c2|e] s2]; cbn [fst snd] in *; [|exists false; split; [done|]; split; [congruence|done]].
  destruct (fs_look_spec path s2) as [Hd3 Hc]. destruct (fs_look path s2) as [[c3|e] s3]; cbn [fst snd] in *.
  - eexists. split; [done|]. split; [congruence|]. intros Hb%beq_true. exists c3. split; [|done].
    rewrite <- Hd1, <- Hd2. by apply Hc.
  - eexists. split; [done|]. split; [congruence|done].
Qed.

(** *** A verified stream *)

Lemma stream_loop_spec tmp what cap total hashed reads s :
  on_disk s !! tmp = Some hashed -> total = N.of_nat (length hashed) -> (total <= cap)%N ->
  only_file tmp (on_disk s) (on_disk (snd (stream_loop (Url := Url) (W := W) tmp what cap total hashed reads s))) /\
  forall t h, fst (stream_loop (Url := Url) (W := W) tmp what cap total hashed reads s) = Ok (t, h) ->
    on_disk (snd (stream_loop (Url := Url) (W := W) tmp what cap total hashed reads s)) !! tmp = Some h /\
    read_to_end hashed reads = Ok h /\ t = N.of_nat (length h) /\ (t <= cap)%N.
Proof.
  revert total hashed s. induction reads as [|[[|b0 b]|e] reads IH]; intros total hashed s Ht Hl Hc;
    cbn [stream_loop read_to_end]; [split; [done|by intros t h [= <- <-]]..| |done].
  set (chunk := b0 :: b) in *. destruct (cap <? _)%N eqn:Ecap; [done|]. apply N.ltb_ge in Ecap.
  assert (Hf : forall data, only_file tmp (on_disk s) (append tmp data (on_disk s))) by (intros; apply only_insert).
  unfold se_bind, fs_write_all.
  destruct (fs_call_spec tmp (append tmp chunk) (fun n => append tmp (take n chunk)) s) as [[Hr Hd]|(e & n & Hr & Hd)];
    destruct (fs_call tmp _ _ s) as [r s1]; cbn [fst snd] in *; subst r; cbn [fst snd]; [|by rewrite Hd].
  destruct (IH (total + N.of_nat (length chunk))%N (hashed ++ chunk) s1) as [Ho Hk].
  - rewrite Hd. unfold append. by rewrite lookup_insert_eq, Ht.
  - rewrite length_app. lia.
  - done.
  - split; [|done]. apply (only_trans _ _ (on_disk s1)); [rewrite Hd; apply Hf|exact Ho].
Qed.

(** A temporary file, whatever happens, is dealt with alone. *)
Lemma try_remove_spec path s :
  exists s', se_try (F := PullError Url) (fs_remove_file (Url := Url) (W := W) path) s =
    (Ok (fst (fs_remove_file path s)), s') /\ only_file path (on_disk s) (on_disk s').
Proof.
  unfold se_try, fs_remove_file.
  destruct (fs_call_spec path (delete path) nothing s) as [[Hr Hd]|(e & n & Hr & Hd)];
    destruct (fs_call path (delete path) nothing s) as [r s1]; cbn [fst snd] in *; eexists; (split; [done|]);
    rewrite Hd; intros q Hq; [by apply lookup_delete_ne|done].
Qed.

(** One call and what follows it. *)
Lemma fs_bind {A} (G : result A (PullError Url) * @PullState Url W -> Prop) path ok failed (k : unit -> Q A) s :
  (forall s1, on_disk s1 = ok (on_disk s) -> G (k tt s1)) ->
  (forall s1 e n, on_disk s1 = failed n (on_disk s) -> G (Err e, s1)) ->
  G (se_bind (fs_call path ok failed) k s).
Proof.
  intros Hok Hf. unfold se_bind.
  destruct (fs_call_spec path ok failed s) as [[Hr Hd]|(e & n & Hr & Hd)];
    destruct (fs_call path ok failed s) as [r s1]; cbn [fst snd] in *; subst r; [by apply Hok|by eapply Hf].
Qed.

Lemma try_remove_bind {A} (G : result A (PullError Url) * @PullState Url W -> Prop) path (r : result A (PullError Url)) s :
  (forall s1, only_file path (on_disk s) (on_disk s1) -> G (r, s1)) ->
  G (se_bind (se_try (F := PullError Url) (fs_remove_file (Url := Url) (W := W) path)) (fun _ => se_ret r) s).
Proof.
  intros HG. unfold se_bind. destruct (try_remove_spec path s) as (s1 & -> & Ho). by apply HG.
Qed.

(** How a verified stream leaves the disk: the blob is stored, or the name is as it was. *)
Definition stored reads d cap fs (rs : result N (PullError Url) * @PullState Url W) : Prop :=
  evolves fs (on_disk (snd rs)) /\
  match fst rs with
  | Ok n => exists c, read_to_end [] reads = Ok c /\ on_disk (snd rs) !! blob_dest root d = Some c /\
              sha256_hex c = Digest.encoded d /\ n = N.of_nat (length c) /\ (n <= cap)%N
  | Err _ => on_disk (snd rs) !! blob_dest root d = fs !! blob_dest root d
  end.

Lemma stored_tmp reads d cap fs e s1 :
  digest_ok d -> only_file (tmp_path pid (blob_dest root d)) fs (on_disk s1) -> stored reads d cap fs (Err e, s1).
Proof.
  intros Hd Ho. split; [by eapply only_tmp_evolves|]. apply Ho. intros E. by apply (tmp_not_blob d d).
Qed.

Lemma stream_verified_disk reads d cap what s : digest_ok d ->
  stored reads d cap (on_disk s) (stream_verified sha256_hex pid reads (blob_dest root d) d cap what s).
Proof.
  intros Hd. unfold stream_verified. set (tmp := tmp_path pid (blob_dest root d)).
  apply (fs_bind (stored reads d cap (on_disk s))); [intros s1 Hd1|intros s1 e n Hd1; apply stored_tmp; [done|by rewrite Hd1]].
  apply (fs_bind (stored reads d cap (on_disk s))); [intros s2 Hd2|intros s2 e n Hd2; apply stored_tmp; [done|by rewrite Hd2, Hd1]].
  assert (Ho2 : only_file tmp (on_disk s) (on_disk s2)) by (rewrite Hd2, Hd1; apply only_insert).
  destruct (stream_loop_spec tmp what cap 0 [] reads s2) as [Ho3 Hk3];
    [by rewrite Hd2, lookup_insert_eq|done|lia|].
  unfold se_bind at 1, se_try at 1.
  destruct (stream_loop tmp what cap 0 [] reads s2) as [r3 s3]; cbn [fst snd] in *.
  assert (Ho : only_file tmp (on_disk s) (on_disk s3)) by by eapply only_trans.
  assert (Hremove : forall e, stored reads d cap (on_disk s)
    (se_bind (se_try (F := PullError Url) (fs_remove_file tmp)) (fun _ => se_ret (Err e)) s3)).
  { intros e. apply (try_remove_bind (stored reads d cap (on_disk s))). intros s4 Ho4. apply stored_tmp; [done|by eapply only_trans]. }
  destruct r3 as [[total hashed]|e]; [|apply Hremove].
  destruct (Hk3 total hashed eq_refl) as (Hh & Hread & -> & Hcap).
  destruct (beq (sha256_hex hashed) (Digest.encoded d)) eqn:Eq; cbn [negb]; [|apply Hremove].
  apply beq_true in Eq.
  apply (fs_bind (stored reads d cap (on_disk s))); [intros s5 Hd5|intros s5 e n Hd5; apply stored_tmp; [done|by rewrite Hd5]].
  apply (fs_bind (stored reads d cap (on_disk s))); [intros s6 Hd6|intros s6 e n Hd6; apply stored_tmp; [done|by rewrite Hd6; unfold nothing; rewrite Hd5]].
  unfold stored, se_ret. cbn [fst snd]. rewrite Hd6. unfold move. rewrite Hd5, Hh.
  split; [|exists hashed; split; [done|]; split; [apply lookup_insert_eq|done]].
  transitivity (delete tmp (on_disk s3)); [|by apply insert_blob_evolves].
  eapply only_tmp_evolves; [done|]. eapply only_trans; [exact Ho|]. intros q Hq. by apply lookup_delete_ne.
Qed.

(** *** The pull *)

Implicit Types (P : gmap bytes bytes -> Prop).

(** From a disk in [P], [m] leaves one it evolved to, in [R] if it succeeds. *)
Definition ends {A : Type} (P : gmap bytes bytes -> Prop) (m : Q A) (R : A -> gmap bytes bytes -> Prop) : Prop :=
  forall s, P (on_disk s) ->
    evolves (on_disk s) (on_disk (snd (m s))) /\ forall a, fst (m s) = Ok a -> R a (on_disk (snd (m s))).

Lemma ends_ret {A : Type} P (r : result A (PullError Url)) (R : A -> gmap bytes bytes -> Prop) :
  (forall a fs, r = Ok a -> P fs -> R a fs) -> ends P (se_ret r) R.
Proof. intros HR s HP. split; [done|]. intros a Ha. by apply HR. Qed.

Lemma ends_bind {A B : Type} P (m : Q A) (k : A -> Q B) R T :
  ends P m R -> (forall a, ends (R a) (k a) T) -> ends P (se_bind m k) T.
Proof.
  intros Hm Hk s HP. destruct (Hm s HP) as [He HR]. unfold se_bind.
  destruct (m s) as [[a|e] s1]; cbn [fst snd] in *; [|by split].
  destruct (Hk a s1 (HR a eq_refl)) as [He' HT]. split; [by transitivity (on_disk s1)|done].
Qed.

Lemma ends_bind_ret {A B : Type} P (r : result A (PullError Url)) (k : A -> Q B) T :
  (forall a, r = Ok a -> ends P (k a) T) -> ends P (se_bind (se_ret r) k) T.
Proof. intros Hk s HP. unfold se_bind, se_ret. destruct r as [a|e]; [by apply Hk|by split]. Qed.

Lemma ends_conseq {A : Type} P P' (m : Q A) (R R' : A -> gmap bytes bytes -> Prop) :
  ends P' m R' -> (forall fs, P fs -> P' fs) -> (forall a fs, R' a fs -> R a fs) -> ends P m R.
Proof. intros Hm HP HR s Hs. destruct (Hm s (HP _ Hs)) as [He H']. split; [done|]. intros a Ha. by apply HR, H'. Qed.

(** What the disk only gains stays. *)
Lemma ends_frame {A : Type} P (m : Q A) (R : A -> gmap bytes bytes -> Prop) (F : gmap bytes bytes -> Prop) :
  (forall fs fs', evolves fs fs' -> F fs -> F fs') ->
  ends P m R -> ends (fun fs => P fs /\ F fs) m (fun a fs => R a fs /\ F fs).
Proof. intros HF Hm s [HP Hs]. destruct (Hm s HP) as [He HR]. split; [done|]. eauto. Qed.

Lemma blob_ok_stable d fs fs' : digest_ok d -> evolves fs fs' -> blob_ok d fs -> blob_ok d fs'.
Proof. intros Hd [[_ Hk] _]. by apply Hk. Qed.

Lemma ends_get p url what P : ends P (get send_request json_value p url what) (fun _ => P).
Proof.
  intros s HP. destruct (get_loop_sends send_request json_value p what (S MAX_REDIRECTS) url url true false)
    with (s := s) as (l & _ & Hd & _); [done|by left|].
  unfold on_disk, get. rewrite Hd. by split.
Qed.

Lemma ends_stream reads d cap what P : digest_ok d ->
  ends P (stream_verified sha256_hex pid reads (blob_dest root d) d cap what) (fun _ => blob_ok d).
Proof.
  intros Hd s _. destruct (stream_verified_disk reads d cap what s Hd) as [He Hr]. split; [done|].
  intros n Hn. rewrite Hn in Hr. destruct Hr as (c & _ & Hc & Hh & _). by exists c.
Qed.

Lemma ends_present P d size :
  ends P (blob_is_present sha256_hex (blob_dest root d) d size) (fun b fs => b = true -> blob_ok d fs).
Proof.
  intros s _. destruct (blob_is_present_spec (blob_dest root d) d size s) as (b & Hb & Hd & Hc).
  rewrite Hd, Hb. split; [done|]. intros a [= <-]. apply Hc.
Qed.

Lemma ends_write_blob d data P : digest_ok d ->
  ends P (write_blob_bytes sha256_hex pid root d data) (fun _ => blob_ok d).
Proof.
  intros Hd. unfold write_blob_bytes. eapply ends_bind; [apply ends_present|]. cbn beta.
  intros [|]; [by apply ends_ret; intros ? ? _; auto|].
  eapply ends_bind; [by apply ends_stream|]. intros n. by apply ends_ret.
Qed.

Lemma ends_fetch_blob p d what P : digest_ok d ->
  ends P (fetch_blob send_request sha256_hex json_value pid p d (blob_dest root d) what) (fun _ => blob_ok d).
Proof.
  intros Hd. unfold fetch_blob. apply ends_bind_ret. intros url _.
  eapply ends_bind; [apply ends_get|]. intros resp. by apply ends_stream.
Qed.

Lemma parts_ok desc what d n : parts (Url := Url) debug_str desc what = Ok (d, n) ->
  digest_ok d /\ exists text, d_digest desc = Some text /\ parse_digest text = Ok d.
Proof.
  unfold parts. intros Hp. run_ok. case_test; [done|]. injection Hp as <- _.
  pose proof Hrun0 as (Hd & _)%parse_digest_Ok. eauto.
Qed.

(** The blob a descriptor names. *)
Definition named_ok (desc : WireDescriptor) fs : Prop :=
  exists text d, d_digest desc = Some text /\ parse_digest text = Ok d /\ blob_ok d fs.

Lemma named_ok_stable desc fs fs' : evolves fs fs' -> named_ok desc fs -> named_ok desc fs'.
Proof.
  intros He (text & d & Ht & Hp & Hb). exists text, d. split; [done|]. split; [done|].
  pose proof Hp as (Hd & _)%parse_digest_Ok. by eapply blob_ok_stable.
Qed.

Lemma ends_blobs p n m l P :
  ends P (pull_blobs send_request sha256_hex json_value debug_str pid p root n m l)
    (fun _ fs => Forall (fun dw => named_ok (fst dw) fs) l).
Proof.
  revert n m P. induction l as [|[desc what] l IH]; intros n m P; cbn [pull_blobs]; [by apply ends_ret|].
  apply ends_bind_ret. intros [d size] Hp. apply parts_ok in Hp as (Hd & text & Ht & Hpd).
  assert (Hrest : forall n m, ends (blob_ok d)
    (pull_blobs send_request sha256_hex json_value debug_str pid p root n m l)
    (fun _ fs => Forall (fun dw => named_ok (fst dw) fs) ((desc, what) :: l))).
  { intros n' m'. eapply ends_conseq.
    - apply ends_frame with (F := blob_ok d); [intros fs fs'; by apply blob_ok_stable|].
      apply (IH n' m' (fun _ => True)).
    - done.
    - intros a fs [Hall Hb]. constructor; [|done]. by exists text, d. }
  eapply ends_bind; [apply ends_present|]. cbn beta. intros [|].
  - eapply ends_conseq; [apply Hrest|auto|done].
  - eapply ends_bind; [by apply ends_fetch_blob|]. intros k. apply Hrest.
Qed.

(** A digest the reference leads to: that of the document fetched for it, or of this platform's
    entry in that document.  A pinned reference's document hashes to the pin. *)
Definition resolves p d : Prop :=
  exists body doc, json_doc body = Ok doc /\
    (forall w, want (reference p) = ByDigest w -> sha256_hex body = Digest.encoded w) /\
    (sha256_hex body = Digest.encoded d \/
     exists entries e text, manifests doc = Some entries /\ e ∈ entries /\ is_our_platform e = true /\
       d_digest e = Some text /\ parse_digest text = Ok d).

(** The image under [d] is all there: its manifest, and every blob the manifest names. *)
Definition complete p d fs : Prop :=
  resolves p d /\ blob_ok d fs /\
  exists body doc c ls, sha256_hex body = Digest.encoded d /\ json_doc body = Ok doc /\
    config doc = Some c /\ layers doc = Some ls /\ ls <> [] /\ Forall (fun x => named_ok x fs) (c :: ls).

Definition pulled_ok p fs (rs : result Pulled (PullError Url) * @PullState Url W) : Prop :=
  keeps fs (on_disk (snd rs)) /\
  (on_disk (snd rs) !! index_path = fs !! index_path \/ exists d, complete p d (on_disk (snd rs))) /\
  match fst rs with
  | Ok r => layout r = root /\ complete p (manifest_digest r) (on_disk (snd rs)) /\
            exists mt n data,
              json_index mt (show_digest (manifest_digest r)) n (show_reference (reference p)) = Ok data /\
              on_disk (snd rs) !! index_path = Some data
  | Err _ => True
  end.

Lemma pulled_evolves p fs fs1 rs : evolves fs fs1 -> pulled_ok p fs1 rs -> pulled_ok p fs rs.
Proof.
  intros [Hk Hi] (Hk' & Hi' & Hr). split; [by transitivity fs1|]. split; [|done].
  destruct Hi' as [Hi'|Hc]; [left; congruence|by right].
Qed.

Lemma pulled_err p fs e s1 : evolves fs (on_disk s1) -> pulled_ok p fs (Err e, s1).
Proof. intros [Hk Hi]. split; [done|]. split; [by left|done]. Qed.

Lemma pulled_bind {A : Type} p (m : Q A) (k : A -> Q Pulled) R s :
  ends (fun _ => True) m R ->
  (forall a s1, evolves (on_disk s) (on_disk s1) -> R a (on_disk s1) -> pulled_ok p (on_disk s1) (k a s1)) ->
  pulled_ok p (on_disk s) (se_bind m k s).
Proof.
  intros Hm Hk. destruct (Hm s I) as [He HR]. unfold se_bind. destruct (m s) as [[a|e] s1]; cbn [fst snd] in *.
  - eapply pulled_evolves; [exact He|]. by apply Hk, HR.
  - by apply pulled_err.
Qed.

Lemma pulled_ret {A : Type} p (r : result A (PullError Url)) (k : A -> Q Pulled) s :
  (forall a, r = Ok a -> pulled_ok p (on_disk s) (k a s)) -> pulled_ok p (on_disk s) (se_bind (se_ret r) k s).
Proof. intros Hk. destruct r as [a|e]; [by apply Hk|by apply pulled_err]. Qed.

Lemma complete_keeps p d fs fs' : digest_ok d -> keeps fs fs' -> complete p d fs -> complete p d fs'.
Proof.
  intros Hd [_ Hk] (Hr & Hb & body & doc & c & ls & Hh & Hj & Hc & Hl & Hne & Hall).
  split; [done|]. split; [by apply Hk|]. exists body, doc, c, ls. repeat (split; [done|]).
  eapply Forall_impl; [exact Hall|]. intros x (text & dx & Ht & Hp & Hx). exists text, dx.
  split; [done|]. split; [done|]. apply Hk; [|done]. by apply parse_digest_Ok in Hp as [? _].
Qed.

(** The metadata, over a complete image. *)
Lemma write_layout_pulled p d mt n r s :
  digest_ok d -> complete p d (on_disk s) -> layout r = root -> manifest_digest r = d ->
  pulled_ok p (on_disk s)
    (se_bind (write_layout_metadata json_index root d mt n (reference p)) (fun _ => se_ret (Ok r)) s).
Proof.
  intros Hd Hc Hl Hm. unfold write_layout_metadata.
  assert (Hassoc : forall A B C (m : Q A) (f : A -> Q B) (g : B -> Q C),
    se_bind (se_bind m f) g s = se_bind m (fun a => se_bind (f a) g) s).
  { intros A B C m f g. unfold se_bind. by destruct (m s) as [[a|e] s1]. }
  rewrite Hassoc. apply (fs_bind (pulled_ok p (on_disk s))); [intros s1 Hd1|intros s1 e k Hd1; apply pulled_err; by rewrite Hd1].
  set (marker := B "{" ++ _).
  assert (Hmark : forall fs', only_file marker_path (on_disk s) fs' -> evolves (on_disk s) fs').
  { intros fs'. apply only_evolves; [intros d' Hd'; by apply marker_not_blob|apply marker_not_index]. }
  unfold se_bind at 1 2.
  pose proof (fs_call_spec marker_path (fun fs => <[marker_path := marker]> fs)
    (fun k fs => match k with O => fs | S k => <[marker_path := take k marker]> fs end) s1) as Hcall.
  unfold fs_write at 1. fold marker_path. destruct (fs_call marker_path _ _ s1) as [r2 s2].
  cbn [fst snd] in Hcall. destruct Hcall as [[-> Hd2]|(e & k & -> & Hd2)].
  2: { apply pulled_err, Hmark. rewrite Hd2, Hd1. destruct k; [done|apply only_insert]. }
  assert (He2 : evolves (on_disk s) (on_disk s2)) by (apply Hmark; rewrite Hd2, Hd1; apply only_insert).
  eapply pulled_evolves; [exact He2|]. clear Hassoc Hmark.
  assert (Hc2 : complete p d (on_disk s2)) by (eapply complete_keeps; [done|apply He2|done]).
  unfold se_bind, se_ret. destruct (json_index mt (show_digest d) n (show_reference (reference p))) as [data|e] eqn:Ej;
    cbn [map_err]; [|by apply pulled_err].
  pose proof (fs_call_spec index_path (fun fs => <[index_path := data]> fs)
    (fun k fs => match k with O => fs | S k => <[index_path := take k data]> fs end) s2) as Hcall.
  unfold fs_write. fold index_path. destruct (fs_call index_path _ _ s2) as [r3 s3].
  assert (Hfin : only_file index_path (on_disk s2) (on_disk s3) ->
    keeps (on_disk s2) (on_disk s3) /\ complete p d (on_disk s3)).
  { intros Ho. assert (Hk : keeps (on_disk s2) (on_disk s3)) by (eapply only_keeps; [apply index_not_blob|exact Ho]).
    split; [done|]. by eapply complete_keeps. }
  cbn [fst snd] in Hcall. destruct Hcall as [[-> Hd3]|(e & k & -> & Hd3)].
  - destruct Hfin as [Hk Hc3]; [rewrite Hd3; apply only_insert|]. split; [done|]. cbn [fst snd].
    split; [right; by exists d|]. rewrite Hm. split; [done|]. split; [done|]. exists mt, n, data.
    split; [done|]. rewrite Hd3. apply lookup_insert_eq.
  - destruct Hfin as [Hk Hc3]; [rewrite Hd3; destruct k; [done|apply only_insert]|].
    split; [done|]. split; [right; by exists d|done].
Qed.

Lemma pull_manifest_pulled p body mt d doc s :
  digest_ok d -> sha256_hex body = Digest.encoded d -> json_doc body = Ok doc -> resolves p d ->
  pulled_ok p (on_disk s)
    (pull_manifest send_request sha256_hex json_value json_index debug_str pid p root body mt d doc s).
Proof.
  intros Hd Hh Hj Hr. unfold pull_manifest.
  eapply pulled_bind; [by apply ends_write_blob|]. intros u s1 _ Hb. cbn beta in Hb. apply pulled_ret. intros c Hc%ok_or_Ok.
  case_bool_decide as Hne; [by apply pulled_err|].
  destruct (layers doc) as [ls|] eqn:El; [|done]. cbn [default from_option id] in *.
  eapply pulled_bind; [by apply ends_blobs|]. intros counts s2 He Hall.
  apply write_layout_pulled; try done. split; [done|]. split; [by eapply blob_ok_stable|].
  exists body, doc, c, ls. repeat (split; [done|]). apply Forall_cons in Hall as [Hc' Hls].
  constructor; [done|]. apply (Forall_fmap (fun l => (l, B "a layer blob"))) in Hls. exact Hls.
Qed.

Lemma verify_body_ok d body u : verify_body (Url := Url) sha256_hex d body = Ok u -> sha256_hex body = Digest.encoded d.
Proof.
  unfold verify_body. destruct (beq _ _) eqn:E; cbn [negb]; [|done]. intros _. by apply beq_true in E.
Qed.

Lemma parse_doc_ok body doc : parse_doc (Url := Url) json_doc body = Ok doc -> json_doc body = Ok doc.
Proof. apply map_err_Ok. Qed.

Lemma ends_manifest p path P : ends P (fetch_manifest send_request json_value p path) (fun _ => P).
Proof.
  unfold fetch_manifest. apply ends_bind_ret. intros url _. eapply ends_bind; [apply ends_get|]. intros resp.
  case_test; [by apply ends_ret|]. apply ends_bind_ret. intros body _. case_test; by apply ends_ret.
Qed.

(** The top document: its digest, that it hashes to it, and the pin. *)
Lemma ends_top p P : reference_ok (reference p) ->
  ends P (pull_top send_request sha256_hex json_value json_doc p)
    (fun r _ => let '(body, _, d, doc) := r in
       digest_ok d /\ sha256_hex body = Digest.encoded d /\ json_doc body = Ok doc /\
       forall w, want (reference p) = ByDigest w -> sha256_hex body = Digest.encoded w).
Proof.
  intros (_ & _ & _ & _ & _ & Hw). unfold pull_top. eapply ends_bind; [apply ends_manifest|]. intros [body mt].
  apply ends_bind_ret. intros u Hv. apply ends_bind_ret. intros doc Hdoc%parse_doc_ok.
  apply ends_ret. intros r fs [= <-] _. unfold digest_of_manifest. destruct (want (reference p)) as [t|d].
  - by split.
  - apply verify_body_ok in Hv. split; [done|]. split; [done|]. split; [done|]. by intros w [= <-].
Qed.

Lemma ends_chosen p d body entries P : digest_ok d ->
  ends P (pull_chosen send_request sha256_hex json_value json_doc debug_str pid p root d body entries)
    (fun r _ => let '(body', _, d', doc') := r in
       digest_ok d' /\ sha256_hex body' = Digest.encoded d' /\ json_doc body' = Ok doc' /\
       exists e text, e ∈ entries /\ is_our_platform e = true /\ d_digest e = Some text /\ parse_digest text = Ok d').
Proof.
  intros Hd. unfold pull_chosen. eapply ends_bind; [by apply ends_write_blob|]. intros u.
  apply ends_bind_ret. intros e He%ok_or_Ok. apply find_some in He as [Hin Hp]. apply list_elem_of_In in Hin.
  apply ends_bind_ret. intros [d' n] (Hd' & text & Ht & Hpd)%parts_ok.
  eapply ends_bind; [apply ends_manifest|]. intros [body' mt].
  apply ends_bind_ret. intros u' Hv%verify_body_ok. apply ends_bind_ret. intros doc Hdoc%parse_doc_ok.
  apply ends_ret. intros r fs [= <-] _. repeat (split; [done|]). by exists e, text.
Qed.

(** C19: The layout on disk: however a pull ends, whatever the peers answer and wherever a call of
    the file system fails, nothing lies under a name it does not hash to if nothing did before, no
    blob that was there is lost, and [index.json] is untouched unless the whole image is in place:
    its manifest, which the reference leads to, and every blob that manifest names.  A pull that
    succeeds has written [index.json] for exactly that image. *)
Theorem pull_store_sound client config_file input p s :
  Puller_new (Url := Url) json_value client config_file input = Ok p ->
  pulled_ok p (on_disk s)
    (pull_into send_request sha256_hex json_value json_doc json_index debug_str pid p root s).
Proof.
  intros [Href _]%(new_floored json_value). unfold pull_into.
  eapply pulled_bind; [by apply ends_top|]. intros [[[body mt] d] doc] s1 _ (Hd & Hh & Hj & Hpin).
  destruct (is_index_type (default mt (media_type doc))) eqn:Ei;
    [destruct (manifests doc) as [entries|] eqn:Em|].
  - eapply pulled_bind; [by apply ends_chosen|].
    intros [[[body' mt'] d'] doc'] s2 _ (Hd' & Hh' & Hj' & e & text & Hin & Hplat & Ht & Hp).
    apply pull_manifest_pulled; try done. exists body, doc. split; [done|]. split; [done|]. right.
    by exists entries, e, text.
  - apply pull_manifest_pulled; try done. exists body, doc. split; [done|]. split; [done|]. by left.
  - apply pull_manifest_pulled; try done. exists body, doc. split; [done|]. split; [done|]. by left.
Qed.

(** *** When nothing fails *)

Definition no_faults s : Prop := Forall (fun f => f = None) (faults (disk s)).

Lemma fs_call_ok path ok failed s : no_faults s ->
  exists s1, fs_call (Url := Url) (W := W) path ok failed s = (Ok tt, s1) /\ on_disk s1 = ok (on_disk s) /\ no_faults s1.
Proof.
  unfold fs_call, no_faults, on_disk. destruct (faults (disk s)) as [|f script].
  { intros _. eexists. split; [done|]. split; [done|constructor]. }
  intros [-> Hs]%Forall_cons. eexists. split; [done|]. by split.
Qed.

Lemma read_to_end_length acc reads c : read_to_end acc reads = Ok c -> (length acc <= length c)%nat.
Proof.
  revert acc. induction reads as [|[[|b0 b]|e] reads IH]; intros acc; cbn [read_to_end]; [by intros [= <-]..| |done].
  intros Hr%IH. rewrite length_app in Hr. lia.
Qed.

Lemma stream_loop_run tmp what cap hashed reads c s :
  no_faults s -> on_disk s !! tmp = Some hashed -> read_to_end hashed reads = Ok c ->
  exists s1, no_faults s1 /\
    if (N.of_nat (length c) <=? cap)%N
    then stream_loop (Url := Url) (W := W) tmp what cap (N.of_nat (length hashed)) hashed reads s =
           (Ok (N.of_nat (length c), c), s1)
    else (N.of_nat (length hashed) <= cap)%N ->
         exists n, (cap < n)%N /\ stream_loop (Url := Url) (W := W) tmp what cap (N.of_nat (length hashed)) hashed reads s =
           (Err (TooLarge what cap n), s1).
Proof.
  revert hashed s. induction reads as [|[[|b0 b]|e] reads IH]; intros hashed s Hn Ht; cbn [read_to_end stream_loop]; [..|done].
  1,2: intros [= <-]; exists s; split; [done|]; destruct (_ <=? _)%N eqn:E; [done|]; apply N.leb_gt in E; intros; lia.
  set (chunk := b0 :: b). intros Hr. pose proof (read_to_end_length _ _ _ Hr) as Hlen. rewrite length_app in Hlen.
  replace (N.of_nat (length hashed) + N.of_nat (length chunk))%N with (N.of_nat (length (hashed ++ chunk)))
    by (rewrite length_app; lia).
  destruct (fs_call_ok tmp (append tmp chunk) (fun n => append tmp (take n chunk)) s Hn) as (s1 & Hc & Hd & Hn1).
  destruct (IH (hashed ++ chunk) s1 Hn1) as (s2 & Hn2 & Hs2); [|done|].
  { rewrite Hd. unfold append. by rewrite lookup_insert_eq, Ht. }
  destruct (cap <? _)%N eqn:Ecap.
  - exists s. split; [done|]. apply N.ltb_lt in Ecap. rewrite length_app in *.
    destruct (_ <=? cap)%N eqn:E; [apply N.leb_le in E; lia|]. intros _. eexists. split; [exact Ecap|done].
  - exists s2. split; [done|]. apply N.ltb_ge in Ecap. unfold se_bind, fs_write_all. rewrite Hc.
    destruct (_ <=? cap)%N; [done|]. intros _. by apply Hs2.
Qed.

(** A verified stream, from the end of its copy loop. *)
Lemma stream_copied (G : result N (PullError Url) * @PullState Url W -> Prop) reads d cap what s s1 s2 copied s3 :
  let tmp := tmp_path pid (blob_dest root d) in
  fs_call (path_parent (blob_dest root d)) (fun fs => fs) nothing s = (Ok tt, s1) ->
  fs_call tmp (fun fs => <[tmp := []]> fs) nothing s1 = (Ok tt, s2) ->
  stream_loop tmp what cap 0 [] reads s2 = (copied, s3) ->
  G (match copied with
     | Err e => se_bind (se_try (F := PullError Url) (fs_remove_file tmp)) (fun _ => se_ret (Err e))
     | Ok (total, hashed) =>
         if negb (beq (sha256_hex hashed) (Digest.encoded d))
         then se_bind (se_try (F := PullError Url) (fs_remove_file tmp))
                (fun _ => se_ret (Err (DigestMismatch (show_digest d) (sha256_hex hashed))))
         else se_bind (fs_sync_all tmp) (fun _ => se_bind (fs_rename tmp (blob_dest root d)) (fun _ => se_ret (Ok total)))
     end s3) ->
  G (stream_verified sha256_hex pid reads (blob_dest root d) d cap what s).
Proof.
  intros tmp H1 H2 Hc HG. unfold stream_verified. fold tmp.
  unfold se_bind at 1, fs_create_dir_all. rewrite H1. unfold se_bind at 1, fs_create. rewrite H2.
  unfold se_bind at 1, se_try at 1. rewrite Hc. by destruct copied as [[total hashed]|e].
Qed.

(** A verified stream, on every branch.  However its reads and the file system behave, a result
    [Ok n] means the name holds the [n] bytes that were read, at most the cap, and they hash to it,
    and an error leaves the name as it was.  When the disk does not fail and the body is read to its
    end, it succeeds exactly when the body is within the cap and is the blob that was asked for. *)
Theorem stream_verified_spec reads d cap what s : digest_ok d ->
  let rs := stream_verified (Url := Url) (W := W) sha256_hex pid reads (blob_dest root d) d cap what s in
  stored reads d cap (on_disk s) rs /\
  (no_faults s -> forall c, read_to_end [] reads = Ok c ->
     if (N.of_nat (length c) <=? cap)%N then
       if beq (sha256_hex c) (Digest.encoded d) then fst rs = Ok (N.of_nat (length c))
       else fst rs = Err (DigestMismatch (show_digest d) (sha256_hex c))
     else exists n, (cap < n)%N /\ fst rs = Err (TooLarge what cap n)).
Proof.
  intros Hd rs. split; [by apply stream_verified_disk|]. intros Hn c Hr. unfold rs.
  set (tmp := tmp_path pid (blob_dest root d)).
  destruct (fs_call_ok (path_parent (blob_dest root d)) (fun fs => fs) nothing s Hn) as (s1 & H1 & Hd1 & Hn1).
  destruct (fs_call_ok tmp (fun fs => <[tmp := []]> fs) nothing s1 Hn1) as (s2 & H2 & Hd2 & Hn2).
  destruct (stream_loop_run tmp what cap [] reads c s2 Hn2) as (s3 & Hn3 & H3); [by rewrite Hd2, lookup_insert_eq|done|].
  destruct (fs_call_ok tmp (delete tmp) nothing s3 Hn3) as (s4 & H4 & _).
  change (N.of_nat (length [])) with 0%N in H3.
  destruct (N.of_nat (length c) <=? cap)%N.
  - destruct (beq (sha256_hex c) (Digest.encoded d)) eqn:Eb;
      apply (stream_copied (fun rs => fst rs = _) _ _ _ _ _ _ _ _ _ H1 H2 H3); rewrite Eb; cbv beta iota zeta delta [negb]; fold tmp.
    + destruct (fs_call_ok tmp (fun fs => fs) nothing s3 Hn3) as (s5 & H5 & _ & Hn5).
      destruct (fs_call_ok (blob_dest root d) (move tmp (blob_dest root d)) nothing s5 Hn5) as (s6 & H6 & _).
      unfold se_bind, fs_sync_all. rewrite H5. unfold fs_rename. by rewrite H6.
    + unfold se_bind, se_try, fs_remove_file. by rewrite H4.
  - destruct (H3 ltac:(lia)) as (n & Hlt & Hl). exists n. split; [done|].
    apply (stream_copied (fun rs => fst rs = _) _ _ _ _ _ _ _ _ _ H1 H2 Hl). cbv beta iota zeta. fold tmp.
    unfold se_bind, se_try, fs_remove_file. by rewrite H4.
Qed.
End disk.

(** ** Concrete runs

    A registry that challenges, a token service, and object storage that redirects once more and
    then back to the registry; a hash of 64 digits that tells these bodies apart. *)
Module RegistryRun.
Definition toy_hash (data : bytes) : bytes :=
  let h := fold_left (fun h c => N.land (h * 31 + code c + 1) (2 ^ 64 - 1))%N data 7%N in
  map (fun i => hex_low (N.land (N.shiftr h (4 * N.of_nat i)) 15)) (seq 0 64).

Lemma hex_low_digit n : (n < 16)%N -> is_lower_hex (hex_low n) = true.
Proof.
  intros Hn. assert (Hin : In n (map N.of_nat (seq 0 16))).
  { apply in_map_iff. exists (N.to_nat n). split; [lia|]. apply in_seq. lia. }
  cbn in Hin. repeat (destruct Hin as [<-|Hin]; [reflexivity|]). done.
Qed.

Lemma toy_digits data : digest_ok (Digest.MkDigest (B "sha256") (toy_hash data)).
Proof.
  split; [done|]. cbn [Digest.encoded]. unfold toy_hash. split; [by rewrite length_map, length_seq|].
  apply Forall_map, Forall_forall. intros i _. apply hex_low_digit.
  change 15%N with (N.ones 4). rewrite N.land_ones. by apply N.mod_lt.
Qed.

Definition hex_of_body (b : string) : bytes := B "sha256:" ++ toy_hash (B b).

Definition descriptor_of (b : string) : WireDescriptor :=
  MkWireDescriptor None (Some (hex_of_body b)) (Some (Z.of_nat (length (B b)))) None.

Definition json_doc (b : bytes) : result WireDoc bytes :=
  if beq b (B "MANIFEST")
  then Ok (MkWireDoc None None (Some (descriptor_of "CONFIG")) (Some [descriptor_of "LAYER"]))
  else Err (B "no").
Definition json_value (b : bytes) : result Value bytes :=
  if beq b (B "TOKEN") then Ok (VObject [(B "token", VString (B "t0k3n"))])
  else if beq b (B "DOCKERCFG")
  then Ok (VObject [(B "auths", VObject
             [(HUB_LEGACY_KEY, VObject [(B "auth", VString (B "aHVi"))]);
              (B "https://registry.example/v1/", VObject [(B "auth", VString (B "c2VjcmV0"))])])])
  else Err (B "no").
Definition json_index (mt d : bytes) (n : N) (r : bytes) : result bytes bytes := Ok (B "INDEX " ++ d).

Definition answer (status : N) (www loc : option bytes) (b : string) : result HttpResponse bytes :=
  Ok (MkResponse status www loc None None [Ok (B b)] None).
Definition ok200 : string -> result HttpResponse bytes := answer 200 None None.
Definition moved (to : bytes) : result HttpResponse bytes := answer 302 None (Some to) "".

Definition challenge_header : bytes :=
  B "Bearer " ++ show_params [(B "realm", B "https://auth.example/token"); (B "scope", B "repository:app:pull,push")].

(** Who answers what. *)
Definition respond (rq : Request PlainUrl.t) (w : unit) : result HttpResponse bytes * unit :=
  let at_ u := beq (PlainUrl.text (rq_url rq)) u in
  let blob b := B "https://registry.example/v2/app/blobs/" ++ hex_of_body b in
  (if at_ (B "https://registry.example/v2/app/manifests/1") then
     match rq_authorization rq with
     | Some h => if beq h (B "Bearer t0k3n") then ok200 "MANIFEST" else answer 401 (Some challenge_header) None ""
     | None => answer 401 (Some challenge_header) None ""
     end
   else if beq (show_host (PlainUrl.u_host (rq_url rq))) (B "auth.example") then ok200 "TOKEN"
   else if at_ (blob "CONFIG"%string) then ok200 "CONFIG"
   else if at_ (blob "LAYER"%string) then moved (B "https://cdn.example/a")
   else if at_ (B "https://cdn.example/a") then moved (B "/b")
   else if at_ (B "https://cdn.example/b") then moved (B "https://registry.example/back")
   else if at_ (B "https://registry.example/back") then ok200 "LAYER"
   else answer 404 None None "not here", w).

Definition start : @PullState PlainUrl.t unit := MkSt None tt [] (MkDisk ∅ []).

Definition client : Puller := MkPuller (MkReference (B "registry.example") (B "app") (Tag (B "1"))) (Some (B "c2VjcmV0")).

Definition built : result Puller (PullError PlainUrl.t) :=
  Puller_new json_value (Ok tt) (Some (B "DOCKERCFG")) (B "registry.example/app:1").

Lemma built_ok : built = Ok client.
Proof. vm_compute. reflexivity. Qed.

Definition run (faults : list (option Fault)) : result Pulled (PullError PlainUrl.t) * @PullState PlainUrl.t unit :=
  pull_into respond toy_hash json_value json_doc json_index id 7 client (B "/img")
    (MkSt None tt [] (MkDisk ∅ faults)).

(** Where each request went, and what it carried. *)
Definition log (s : @PullState PlainUrl.t unit) : list (string * option string) :=
  map (fun e => (string_of_list_ascii (take 28 (PlainUrl.text (rq_url (fst e)))),
                 option_map string_of_list_ascii (rq_authorization (fst e)))) (exchanges s).

(** The pull succeeds; the registry's host gets the credential, its token service too, the object
    storage gets nothing, and neither does the registry once the storage has redirected back. *)
Example a_pull :
  is_ok (fst (run [])) = true /\
  log (snd (run [])) =
    [("https://registry.example/v2/", Some "Basic c2VjcmV0"); ("https://auth.example/token&s", Some "Basic c2VjcmV0");
     ("https://registry.example/v2/", Some "Bearer t0k3n"); ("https://registry.example/v2/", Some "Bearer t0k3n");
     ("https://registry.example/v2/", Some "Bearer t0k3n"); ("https://cdn.example/a", None);
     ("https://cdn.example/b", None); ("https://registry.example/bac", None)]%string /\
  files (disk (snd (run []))) !! B "/img/index.json" = Some (B "INDEX " ++ hex_of_body "MANIFEST").
Proof. vm_compute. repeat split. Qed.

(** The disk fills up in the middle of the manifest: no blob is there, and no index. *)
Example a_full_disk :
  let '(r, s) := run [None; None; None; Some (B "ENOSPC", 3)] in
  is_ok r = false /\ files (disk s) = ∅.
Proof. vm_compute. split; reflexivity. Qed.

(** A registry that redirects [n] times, then answers; with [challenged], it asks for a token
    first. *)
Definition hop (n : nat) : bytes := B "https://cdn.example/" ++ show_N (N.of_nat n).
Definition redirects (n : nat) (challenged : bool) (rq : Request PlainUrl.t) (w : unit) :
    result HttpResponse bytes * unit :=
  let at_ u := beq (PlainUrl.text (rq_url rq)) u in
  (if beq (show_host (PlainUrl.u_host (rq_url rq))) (B "auth.example") then ok200 "TOKEN"
   else if at_ (B "https://registry.example/x") then
     if challenged && negb (bool_decide (rq_authorization rq = Some (B "Bearer t0k3n")))
     then answer 401 (Some challenge_header) None "" else moved (hop 1)
   else match List.find (fun i => at_ (hop i)) (seq 1 n) with
        | Some i => if (i =? n)%nat then ok200 "HERE" else moved (hop (S i))
        | None => answer 404 None None "not here"
        end, w).

Definition follows (n : nat) (challenged : bool) : bool :=
  match PlainUrl.parse (B "https://registry.example/x") with
  | Ok u => is_ok (fst (get (redirects n challenged) json_value client u (B "a layer blob") start))
  | Err _ => false
  end.

(** [MAX_REDIRECTS] is five, and five are followed, but a challenge costs one of them: the same
    chain behind a registry that asks for a token is refused as [more than 5 redirects]. *)
Example challenge_costs_a_redirect :
  follows 5 false = true /\ follows 6 false = false /\ follows 4 true = true /\ follows 5 true = false.
Proof. vm_compute. repeat split. Qed.

(** Docker's legacy key is Docker Hub's alone. *)
Example hub_key_is_hubs :
  let names key r := match parse (B r) with Ok r => key_names_registry key r | Err _ => false end in
  names HUB_LEGACY_KEY "alpine" = true /\ names HUB_LEGACY_KEY "ghcr.io/o/n" = false /\
  names HUB_LEGACY_KEY "index.docker.io/o/n" = false /\
  names (B "https://ghcr.io/v1/") "ghcr.io/o/n" = true /\ names (B "ghcr.io.evil.com") "ghcr.io/o/n" = false.
Proof. vm_compute. repeat split. Qed.
End RegistryRun.

Lemma get_keeps_credential_witness :
  match PlainUrl.parse (B "https://registry.example/v2/app/blobs/" ++ RegistryRun.hex_of_body "LAYER") with
  | Ok u => exists l, length l = 4%nat /\ stays RegistryRun.client u true l /\
      exchanges (snd (get RegistryRun.respond RegistryRun.json_value RegistryRun.client u (B "a layer blob")
                        (MkSt (Some (B "t0k3n")) tt [] (MkDisk ∅ [])))) = l
  | Err _ => False
  end.
Proof.
  destruct (PlainUrl.parse _) as [u|e] eqn:Eu; [|vm_compute in Eu; discriminate].
  destruct (get_keeps_credential RegistryRun.respond RegistryRun.json_value RegistryRun.client u (B "a layer blob")
    (MkSt (Some (B "t0k3n")) tt [] (MkDisk ∅ []))) as (l & He & _ & Hs & _).
  exists l. split; [|split; [exact Hs|exact He]].
  change (exchanges (MkSt (Some (B "t0k3n")) tt [] (MkDisk ∅ [])) ++ l) with l in He. rewrite <- He.
  vm_compute in Eu. injection Eu as <-. vm_compute. reflexivity.
Defined.

(** A proxy on the operator's network for what is not [https]. *)
Definition demo_proxy (u : PlainUrl.t) : option (list ip_addr) :=
  if starts_with (B "https://") (PlainUrl.text u) then None else Some [V4 (ipv4_new 192 168 1 1)].

Lemma pull_network_safe_witness :
  exists u l, url_parse (base RegistryRun.client) = Ok u /\
    exchanges (snd (RegistryRun.run [])) = l /\ length l = 8%nat /\
    Forall (safe_exchange demo_proxy RegistryRun.client u l) l.
Proof.
  destruct (pull_network_safe RegistryRun.respond RegistryRun.toy_hash RegistryRun.json_value RegistryRun.json_doc
    RegistryRun.json_index id 7 demo_proxy _ _ _ RegistryRun.client (B "/img") RegistryRun.start RegistryRun.built_ok)
    as (u & l & Hu & He & Hs).
  exists u, l. split; [exact Hu|]. assert (Hl : exchanges (snd (RegistryRun.run [])) = l) by exact He.
  split; [exact Hl|]. split; [|exact Hs]. rewrite <- Hl. vm_compute. reflexivity.
Defined.

Lemma pull_store_sound_witness :
  let s := snd (RegistryRun.run []) in
  store_ok RegistryRun.toy_hash (B "/img") (files (disk s)) /\
  exists d, complete RegistryRun.toy_hash RegistryRun.json_doc (B "/img") RegistryRun.client d (files (disk s)).
Proof.
  intros s. destruct (pull_store_sound RegistryRun.respond RegistryRun.toy_hash RegistryRun.json_value
    RegistryRun.json_doc RegistryRun.json_index id 7 RegistryRun.toy_digits (B "/img") _ _ _ RegistryRun.client
    RegistryRun.start RegistryRun.built_ok) as ([Hk _] & _ & Hr).
  assert (Hok : is_ok (fst (RegistryRun.run [])) = true) by (vm_compute; reflexivity).
  change (is_ok (fst (pull_into RegistryRun.respond RegistryRun.toy_hash RegistryRun.json_value
    RegistryRun.json_doc RegistryRun.json_index id 7 RegistryRun.client (B "/img") RegistryRun.start)) = true) in Hok.
  split.
  - apply Hk. intros d c _ Hc. exfalso. assert (E : on_disk RegistryRun.start !! blob_dest (B "/img") d = None)
      by apply lookup_empty.
    rewrite E in Hc. discriminate Hc.
  - destruct (fst (pull_into _ _ _ _ _ _ _ _ _ _)) as [r|e] in Hr, Hok; [|discriminate Hok].
    exists (manifest_digest r). exact (proj1 (proj2 Hr)).
Defined.

Lemma stream_verified_spec_witness :
  let d := Digest.MkDigest (B "sha256") (RegistryRun.toy_hash (B "LAYER")) in
  let run reads cap := fst (stream_verified RegistryRun.toy_hash 7 reads (blob_dest (B "/img") d) d cap (B "a layer blob")
                              RegistryRun.start) in
  run [Ok (B "LA"); Ok (B "YER")] 5%N = Ok 5%N /\
  (exists n, (4 < n)%N /\ run [Ok (B "LA"); Ok (B "YER")] 4%N = Err (TooLarge (B "a layer blob") 4 n)) /\
  run [Ok (B "LA")] 5%N = Err (DigestMismatch (show_digest d) (RegistryRun.toy_hash (B "LA"))).
Proof.
  intros d run. pose proof (RegistryRun.toy_digits (B "LAYER")) as Hd.
  assert (Hn : no_faults RegistryRun.start) by apply Forall_nil_2.
  split; [|split].
  - exact (proj2 (stream_verified_spec RegistryRun.toy_hash 7 (B "/img") [Ok (B "LA"); Ok (B "YER")] d 5
      (B "a layer blob") RegistryRun.start Hd) Hn (B "LAYER") eq_refl).
  - exact (proj2 (stream_verified_spec RegistryRun.toy_hash 7 (B "/img") [Ok (B "LA"); Ok (B "YER")] d 4
      (B "a layer blob") RegistryRun.start Hd) Hn (B "LAYER") eq_refl).
  - exact (proj2 (stream_verified_spec RegistryRun.toy_hash 7 (B "/img") [Ok (B "LA")] d 5
      (B "a layer blob") RegistryRun.start Hd) Hn (B "LA") eq_refl).
Defined.
