(* ===== verification/Reaper.v ===== *)
(** * The guest's reaper ([crates/guest-agent/src/reaper.rs])

    PID 1 of the guest reaps every process.  Handlers register the pid of the child they spawned
    and receive its status over a channel; a status nobody waits for is stashed for a handler that
    is about to register.

    Both operations hold one mutex, so any run of the reaper thread and of the handlers is a
    sequence of [register]s and [route]s.  A channel is a number, fresh for each [register]; what
    was sent on channels is a log. *)
From S2P Require Import Prelude.

Definition MAX_PENDING : nat := 512.

(** [sys::WaitResult] and [sys::Reap]. *)
Record WaitResult : Type := MkWaitResult { pid : Z; exit_code : option Z; signal : option Z }.

Inductive Reap : Type :=
  | Child (res : WaitResult)
  | NoChildren
  | Interrupted.

#[export] Instance WaitResult_eq_dec : EqDecision WaitResult.
Proof. solve_decision. Defined.

Record Inner : Type := MkInner {
  waiters : gmap Z nat;
  pending : gmap Z WaitResult;
  order : list Z }.

Definition Inner_default : Inner := MkInner ∅ ∅ [].

(** The registry with its channels: the next fresh one, the pid each was made for, and what was
    sent, in order. *)
Record Reaper : Type := MkReaper {
  inner : Inner;
  channels : list Z;
  sent : list (nat * WaitResult) }.

Definition Reaper_new : Reaper := MkReaper Inner_default [] [].

(** [Reaper::register]; the new channel is the number of those before it. *)
Definition register (p : Z) (r : Reaper) : Reaper :=
  let g := inner r in
  let tx := length (channels r) in
  match pending g !! p with
  | Some res => MkReaper (MkInner (waiters g) (delete p (pending g)) (order g)) (channels r ++ [p])
                  (sent r ++ [(tx, res)])
  | None => MkReaper (MkInner (<[p := tx]> (waiters g)) (pending g) (order g)) (channels r ++ [p]) (sent r)
  end.

(** The eviction of the oldest entry, when the stash is full. *)
Definition evict (g : Inner) : Inner :=
  if (MAX_PENDING <=? size (pending g))%nat then
    match order g with
    | old :: rest => MkInner (waiters g) (delete old (pending g)) rest
    | [] => g
    end
  else g.

Definition stash (res : WaitResult) (g : Inner) : Inner :=
  let g := evict g in
  MkInner (waiters g) (<[pid res := res]> (pending g)) (order g ++ [pid res]).

Definition route (res : WaitResult) (r : Reaper) : Reaper :=
  let g := inner r in
  match waiters g !! pid res with
  | Some tx => MkReaper (MkInner (delete (pid res) (waiters g)) (pending g) (order g)) (channels r)
                 (sent r ++ [(tx, res)])
  | None => MkReaper (stash res g) (channels r) (sent r)
  end.

(** One turn of [reaper_loop]. *)
Definition reaper_turn (w : Reap) (r : Reaper) : Reaper :=
  match w with Child res => route res r | NoChildren | Interrupted => r end.

(** ** Runs *)

Inductive event : Type :=
  | Register (p : Z)
  | Turn (w : Reap).

Definition step (r : Reaper) (e : event) : Reaper :=
  match e with Register p => register p r | Turn w => reaper_turn w r end.
Definition run (r : Reaper) (es : list event) : Reaper := fold_left step es r.

(** The statuses a run reaped. *)
Definition reaped (es : list event) : list WaitResult :=
  omap (fun e => match e with Turn (Child res) => Some res | _ => None end) es.

Definition reaps_of (p : Z) (es : list event) : list WaitResult := filter (fun res => pid res = p) (reaped es).

(** ** The registry's invariant *)

(** The statuses in a stash. *)
Definition statuses (m : gmap Z WaitResult) : list WaitResult := map snd (map_to_list m).

Record reaper_ok (es : list event) (r : Reaper) : Prop := {
  (** A waiter is a channel made for that pid that nothing was sent on. *)
  ok_waiter p tx : waiters (inner r) !! p = Some tx -> channels r !! tx = Some p /\ tx ∉ map fst (sent r);
  (** Nobody waits for a status that is stashed. *)
  ok_disjoint p tx : waiters (inner r) !! p = Some tx -> pending (inner r) !! p = None;
  ok_keys p res : pending (inner r) !! p = Some res -> pid res = p;
  ok_order p res : pending (inner r) !! p = Some res -> p ∈ order (inner r);
  (** A channel gets a status of the pid it was made for, at most one. *)
  ok_sent tx res : (tx, res) ∈ sent r -> channels r !! tx = Some (pid res);
  ok_once : NoDup (map fst (sent r));
  (** A reaped status goes to one channel, is in the stash, or is dropped. *)
  ok_conserve : (map snd (sent r) ++ statuses (pending (inner r))) ⊆+ reaped es }.

Lemma statuses_delete p m : statuses (delete p m) ⊆+ statuses m.
Proof. apply fmap_submseteq, map_to_list_submseteq, delete_subseteq. Qed.

Lemma statuses_take p m res : m !! p = Some res -> res :: statuses (delete p m) ≡ₚ statuses m.
Proof. intros Hp. unfold statuses. by rewrite <- (map_to_list_delete m p res Hp). Qed.

Lemma statuses_insert p res m : statuses (<[p := res]> m) ⊆+ res :: statuses m.
Proof.
  unfold statuses. rewrite <- insert_delete_eq, map_to_list_insert by apply lookup_delete_eq.
  cbn. apply submseteq_skip, statuses_delete.
Qed.

Lemma reaped_snoc es e : reaped (es ++ [e]) = reaped es ++ reaped [e].
Proof. apply omap_app. Qed.

Lemma run_snoc r es e : run r (es ++ [e]) = step (run r es) e.
Proof. apply fold_left_app. Qed.

Lemma reaper_ok_new : reaper_ok [] Reaper_new.
Proof.
  split; cbn [Reaper_new Inner_default inner channels sent waiters pending order].
  1-4: intros p x Hx; by rewrite lookup_empty in Hx.
  - intros tx res Hx. by apply not_elem_of_nil in Hx.
  - constructor.
  - unfold statuses. by rewrite map_to_list_empty.
Qed.

Lemma channels_old {r : Reaper} {tx p q} : channels r !! tx = Some p -> (channels r ++ [q]) !! tx = Some p.
Proof. apply lookup_app_l_Some. Qed.

Lemma channels_fresh (r : Reaper) q : (channels r ++ [q]) !! length (channels r) = Some q.
Proof. by apply list_lookup_middle. Qed.

Lemma sent_old es r : reaper_ok es r -> length (channels r) ∉ map fst (sent r).
Proof.
  intros Hr ((tx & res) & Htx & Hin)%list_elem_of_fmap. cbn in Htx. subst tx.
  apply (ok_sent _ _ Hr), lookup_lt_Some in Hin. lia.
Qed.

Lemma register_ok es r p : reaper_ok es r -> reaper_ok (es ++ [Register p]) (register p r).
Proof.
  intros Hr. pose proof (sent_old es r Hr) as Hfresh. unfold register. destruct (pending (inner r) !! p) as [res|] eqn:Ep.
  - split; cbn [inner channels sent waiters pending order].
    + intros q tx Hq. destruct (ok_waiter _ _ Hr q tx Hq) as [Hc Hs]. split; [by apply channels_old|].
      rewrite map_app, not_elem_of_app. split; [done|]. cbn. apply lookup_lt_Some in Hc.
      rewrite list_elem_of_singleton. lia.
    + intros q tx Hq. pose proof (ok_disjoint _ _ Hr q tx Hq). by apply lookup_delete_None; right.
    + intros q x [_ Hx]%lookup_delete_Some. by apply (ok_keys _ _ Hr).
    + intros q x [_ Hx]%lookup_delete_Some. by apply (ok_order _ _ Hr q x).
    + intros tx x [Hx|Hx%list_elem_of_singleton]%elem_of_app.
      * by apply channels_old, (ok_sent _ _ Hr).
      * injection Hx as -> ->. rewrite (ok_keys _ _ Hr p res Ep). apply channels_fresh.
    + rewrite map_app. apply NoDup_app. split; [apply (ok_once _ _ Hr)|]. split; [|apply NoDup_singleton].
      intros tx Htx Heq%list_elem_of_singleton. cbn in Heq. by subst tx.
    + rewrite reaped_snoc, map_app, <- app_assoc. cbn [map snd app]. rewrite app_nil_r.
      rewrite (statuses_take p _ res Ep). apply (ok_conserve _ _ Hr).
  - split; cbn [inner channels sent waiters pending order].
    + intros q tx [[<- <-]|[Hne Hq]]%lookup_insert_Some; [split; [apply channels_fresh|done]|].
      destruct (ok_waiter _ _ Hr q tx Hq) as [Hc Hs]. split; [by apply channels_old|done].
    + intros q tx [[<- _]|[_ Hq]]%lookup_insert_Some; [done|by apply (ok_disjoint _ _ Hr q tx)].
    + apply (ok_keys _ _ Hr).
    + apply (ok_order _ _ Hr).
    + intros tx x Hx. by apply channels_old, (ok_sent _ _ Hr).
    + apply (ok_once _ _ Hr).
    + rewrite reaped_snoc. cbn. rewrite app_nil_r. apply (ok_conserve _ _ Hr).
Qed.

Lemma evict_spec g :
  evict g = g /\ (order g = [] \/ (size (pending g) < MAX_PENDING)%nat) \/
  exists old rest, order g = old :: rest /\ (MAX_PENDING <= size (pending g))%nat /\
    evict g = MkInner (waiters g) (delete old (pending g)) rest.
Proof.
  unfold evict. destruct (_ <=? _)%nat eqn:E; reflect_bools; [|left; by split; [|right]].
  destruct (order g) as [|old rest]; [left; split; [done|by left]|]. right. by exists old, rest.
Qed.

Lemma evict_sub g : waiters (evict g) = waiters g /\ pending (evict g) ⊆ pending g.
Proof.
  destruct (evict_spec g) as [[-> _]|(old & rest & _ & _ & ->)]; cbn [waiters pending]; [done|].
  split; [done|]. apply delete_subseteq.
Qed.

Lemma evict_order g p res : (forall q x, pending g !! q = Some x -> q ∈ order g) ->
  pending (evict g) !! p = Some res -> p ∈ order (evict g).
Proof.
  intros Ho. destruct (evict_spec g) as [[-> _]|(old & rest & Eo & _ & ->)]; [apply Ho|].
  cbn [pending order]. intros [Hne Hp]%lookup_delete_Some. apply Ho in Hp. rewrite Eo in Hp. set_solver.
Qed.

Lemma statuses_mono m1 m2 : m1 ⊆ m2 -> statuses m1 ⊆+ statuses m2.
Proof. intros Hm. by apply fmap_submseteq, map_to_list_submseteq. Qed.

Lemma route_ok es r res : reaper_ok es r -> reaper_ok (es ++ [Turn (Child res)]) (route res r).
Proof.
  intros Hr. unfold route. destruct (waiters (inner r) !! pid res) as [tx|] eqn:Ew.
  - destruct (ok_waiter _ _ Hr _ _ Ew) as [Hc Hs]. split; cbn [inner channels sent waiters pending order].
    + intros q ty [Hne Hq]%lookup_delete_Some. destruct (ok_waiter _ _ Hr q ty Hq) as [Hcq Hsq]. split; [done|].
      rewrite map_app, not_elem_of_app. split; [done|]. cbn. rewrite list_elem_of_singleton. congruence.
    + intros q ty [_ Hq]%lookup_delete_Some. by apply (ok_disjoint _ _ Hr q ty).
    + apply (ok_keys _ _ Hr).
    + apply (ok_order _ _ Hr).
    + intros ty x [Hx|Hx%list_elem_of_singleton]%elem_of_app; [by apply (ok_sent _ _ Hr)|]. by injection Hx as -> ->.
    + rewrite map_app. apply NoDup_app. split; [apply (ok_once _ _ Hr)|]. split; [|apply NoDup_singleton].
      intros ty Hty Heq%list_elem_of_singleton. cbn in Heq. by subst ty.
    + rewrite reaped_snoc, map_app. cbn [map snd reaped omap].
      transitivity ((map snd (sent r) ++ statuses (pending (inner r))) ++ [res]).
      * rewrite <- !app_assoc. by rewrite (Permutation_app_comm _ [res]).
      * apply submseteq_app; [apply (ok_conserve _ _ Hr)|done].
  - destruct (evict_sub (inner r)) as [Hw Hp]. split; unfold stash; cbn [inner channels sent waiters pending order].
    + rewrite Hw. apply (ok_waiter _ _ Hr).
    + rewrite Hw. intros q ty Hq. rewrite lookup_insert_ne by congruence.
      pose proof (ok_disjoint _ _ Hr q ty Hq) as Hn. destruct (pending (evict _) !! q) eqn:E; [|done].
      by rewrite (lookup_weaken _ _ _ _ E Hp) in Hn.
    + intros q x [[<- <-]|[_ Hq]]%lookup_insert_Some; [done|]. by apply (ok_keys _ _ Hr), (lookup_weaken _ _ _ _ Hq Hp).
    + intros q x [[<- _]|[_ Hq]]%lookup_insert_Some; [set_solver|]. apply elem_of_app. left.
      eapply evict_order; [apply (ok_order _ _ Hr)|exact Hq].
    + apply (ok_sent _ _ Hr).
    + apply (ok_once _ _ Hr).
    + rewrite reaped_snoc. cbn [reaped omap]. transitivity ((map snd (sent r) ++ statuses (pending (inner r))) ++ [res]).
      * rewrite <- app_assoc. apply submseteq_app; [done|]. rewrite (Permutation_app_comm _ [res]).
        etransitivity; [apply statuses_insert|]. by apply submseteq_skip, statuses_mono.
      * apply submseteq_app; [apply (ok_conserve _ _ Hr)|done].
Qed.

Lemma reaper_ok_snoc es e r : reaper_ok es r -> reaped [e] = [] -> reaper_ok (es ++ [e]) r.
Proof. intros [] He. split; try done. by rewrite reaped_snoc, He, app_nil_r. Qed.

Lemma reaper_run_ok es : reaper_ok es (run Reaper_new es).
Proof.
  induction es as [|e es IH] using rev_ind; [apply reaper_ok_new|]. rewrite run_snoc.
  destruct e as [p|[res| |]]; cbn [step reaper_turn].
  - by apply register_ok.
  - by apply route_ok.
  - by apply reaper_ok_snoc.
  - by apply reaper_ok_snoc.
Qed.

(** C28: The reaper never steals, duplicates or misroutes a status.  Over any interleaving of the
    reaper thread and the handlers: a channel gets at most one status, of the pid it was made for;
    no reaped status goes to two places; a handler waits only on a channel that is still silent,
    and never for a status that is in the stash. *)
Theorem reaper_routes_once es :
  let r := run Reaper_new es in
  NoDup (map fst (sent r)) /\
  (forall tx res, (tx, res) ∈ sent r -> channels r !! tx = Some (pid res)) /\
  (map snd (sent r) ++ statuses (pending (inner r))) ⊆+ reaped es /\
  (forall p tx, waiters (inner r) !! p = Some tx ->
     channels r !! tx = Some p /\ tx ∉ map fst (sent r) /\ pending (inner r) !! p = None).
Proof.
  intros r. pose proof (reaper_run_ok es) as Hr. fold r in Hr.
  split; [apply (ok_once _ _ Hr)|]. split; [apply (ok_sent _ _ Hr)|]. split; [apply (ok_conserve _ _ Hr)|].
  intros p tx Hp. destruct (ok_waiter _ _ Hr p tx Hp). split; [done|]. split; [done|]. by apply (ok_disjoint _ _ Hr p tx).
Qed.

(** ** Delivery *)

(** Neither a registration nor a reap of [p]. *)
Definition apart (p : Z) (e : event) : Prop :=
  match e with Register q => q <> p | Turn (Child res) => pid res <> p | Turn _ => True end.

Lemma waiter_kept p tx r es : Forall (apart p) es ->
  waiters (inner r) !! p = Some tx -> waiters (inner (run r es)) !! p = Some tx.
Proof.
  intros Hes. revert r. induction Hes as [|e es He Hes IH]; intros r Hp; [done|]. apply IH.
  destruct e as [q|[res| |]]; cbn [step reaper_turn apart] in *; try done.
  - unfold register. destruct (pending (inner r) !! q); cbn [inner waiters]; [done|]. by rewrite lookup_insert_ne.
  - unfold route. destruct (waiters (inner r) !! pid res); cbn [inner waiters].
    + by rewrite lookup_delete_ne.
    + unfold stash. cbn [waiters]. by rewrite (proj1 (evict_sub _)).
Qed.

Lemma evict_room g : (size (pending g) < MAX_PENDING)%nat -> evict g = g.
Proof. intros Hs. unfold evict. rewrite (proj2 (Nat.leb_gt _ _)) by done. done. Qed.

Lemma size_insert_le (p : Z) (x : WaitResult) (m : gmap Z WaitResult) : (size (<[p := x]> m) <= S (size m))%nat.
Proof. rewrite map_size_insert. destruct (m !! p); cbn; lia. Qed.

(** While the stash has room for every status reaped, what is in it stays. *)
Lemma stashed_kept p x r es : Forall (apart p) es ->
  waiters (inner r) !! p = None -> pending (inner r) !! p = Some x ->
  (size (pending (inner r)) + length (reaped es) <= MAX_PENDING)%nat ->
  waiters (inner (run r es)) !! p = None /\ pending (inner (run r es)) !! p = Some x.
Proof.
  intros Hes. revert r. induction Hes as [|e es He Hes IH]; intros r Hw Hp Hs; [done|].
  change (run r (e :: es)) with (run (step r e) es).
  assert (Hlen : length (reaped (e :: es)) = (length (reaped [e]) + length (reaped es))%nat)
    by (rewrite <- length_app; f_equal; apply (omap_app _ [e])).
  rewrite Hlen in Hs.
  destruct e as [q|[res| |]]; cbn [step reaper_turn apart] in *; try by apply IH.
  - apply IH; unfold register; destruct (pending (inner r) !! q) eqn:Eq; cbn [inner waiters pending]; try done.
    + by rewrite lookup_insert_ne.
    + by rewrite lookup_delete_ne.
    + rewrite map_size_delete_Some by done. lia.
  - change (length (reaped [Turn (Child res)])) with 1%nat in Hs. apply IH; unfold route; destruct (waiters (inner r) !! pid res) eqn:Eq; cbn [inner waiters pending]; try done.
    + by rewrite lookup_delete_ne.
    + unfold stash. cbn [waiters]. by rewrite (proj1 (evict_sub _)).
    + unfold stash. rewrite evict_room by lia. cbn [pending]. by rewrite lookup_insert_ne.
    + lia.
    + unfold stash. rewrite evict_room by lia. cbn [pending].
      pose proof (size_insert_le (pid res) res (pending (inner r))). lia.
Qed.

(** A handler gets its child's status, whichever of the spawn and the exit the registry hears of
    first.  Registered first, with nothing stashed under the pid, the channel gets the very next
    status of that pid; reaped first, with nobody waiting, the status is delivered at once to the
    handler that registers, as long as the stash has room for what else is reaped meanwhile. *)
Theorem reaper_delivers r p res es : pid res = p -> Forall (apart p) es ->
  (pending (inner r) !! p = None ->
   (length (channels r), res) ∈ sent (run r (Register p :: es ++ [Turn (Child res)]))) /\
  (waiters (inner r) !! p = None ->
   (size (pending (inner (route res r))) + length (reaped es) <= MAX_PENDING)%nat ->
   let r' := run r (Turn (Child res) :: es) in
   sent (register p r') = sent r' ++ [(length (channels r'), res)]).
Proof.
  intros Hp Hes. split.
  - intros Hn. change (run r (Register p :: es ++ [Turn (Child res)])) with (run (register p r) (es ++ [Turn (Child res)])).
    rewrite run_snoc. cbn [step reaper_turn]. unfold route. rewrite Hp.
    rewrite (waiter_kept p (length (channels r)) (register p r) es Hes).
    + cbn [sent]. set_solver.
    + unfold register. rewrite Hn. apply lookup_insert_eq.
  - intros Hw Hs r'. unfold r'. change (run r (Turn (Child res) :: es)) with (run (route res r) es).
    destruct (stashed_kept p res (route res r) es Hes) as [_ Hp']; [..|done|].
    + unfold route. rewrite Hp, Hw. unfold stash. cbn [inner waiters]. by rewrite (proj1 (evict_sub _)).
    + unfold route. rewrite Hp, Hw. unfold stash. cbn [inner pending]. rewrite Hp. apply lookup_insert_eq.
    + unfold register. by rewrite Hp'.
Qed.

(** ** The size of the stash *)

(** An entry of [order] goes stale when a handler takes its status, or when its pid is stashed
    again. *)
Definition goes_stale (r : Reaper) (e : event) : nat :=
  match e with
  | Register p => match pending (inner r) !! p with Some _ => 1 | None => 0 end
  | Turn (Child res) =>
      match waiters (inner r) !! pid res with
      | Some _ => 0
      | None => match pending (inner r) !! pid res with Some _ => 1 | None => 0 end
      end
  | Turn _ => 0
  end.

Fixpoint stale (r : Reaper) (es : list event) : nat :=
  match es with [] => 0 | e :: es => goes_stale r e + stale (step r e) es end.

(** The stash, above its cap, and the stale entries. *)
Definition weight (r : Reaper) : nat :=
  Nat.max (size (pending (inner r))) MAX_PENDING + (length (order (inner r)) - size (pending (inner r))).

Lemma keys_size (m : gmap Z WaitResult) (l : list Z) :
  (forall p res, m !! p = Some res -> p ∈ l) -> (size m <= length l)%nat.
Proof.
  intros Hm. rewrite <- (size_dom (D := gset Z)). transitivity (size (list_to_set (C := gset Z) l)).
  - apply subseteq_size. intros p [res Hp]%elem_of_dom. apply elem_of_list_to_set. by apply (Hm p res).
  - clear Hm. induction l as [|p l IH]; [done|]. cbn [list_to_set length]. rewrite size_union_alt, size_singleton.
    assert (size (list_to_set (C := gset Z) l ∖ {[p]}) <= size (list_to_set (C := gset Z) l))%nat
      by (apply subseteq_size; set_solver). lia.
Qed.

Lemma pending_order_size es r : reaper_ok es r -> (size (pending (inner r)) <= length (order (inner r)))%nat.
Proof. intros Hr. apply keys_size, (ok_order _ _ Hr). Qed.

Lemma weight_step es r e : reaper_ok es r -> (weight (step r e) <= weight r + goes_stale r e)%nat.
Proof.
  intros Hr. pose proof (pending_order_size es r Hr) as Hso. destruct e as [p|[res| |]]; cbn [step reaper_turn goes_stale];
    [..|lia|lia].
  - unfold weight, register. destruct (pending (inner r) !! p) as [x|] eqn:Ep; cbn [inner pending order]; [|lia].
    rewrite map_size_delete_Some by done. assert (size (pending (inner r)) <> 0)%nat.
    { intros Hz. apply map_size_empty_inv in Hz. rewrite Hz in Ep. by rewrite lookup_empty in Ep. }
    lia.
  - unfold weight, route. destruct (waiters (inner r) !! pid res) eqn:Ew; cbn [inner pending order]; [lia|].
    unfold stash. cbn [pending order]. rewrite length_app. cbn [length].
    destruct (evict_spec (inner r)) as [[-> Hroom]|(old & rest & Eo & Hfull & ->)]; cbn [pending order].
    + rewrite map_size_insert. assert (size (pending (inner r)) < MAX_PENDING)%nat.
      { destruct Hroom as [Hnil|]; [|done]. rewrite Hnil in Hso. unfold MAX_PENDING. cbn [length] in Hso. lia. }
      destruct (pending (inner r) !! pid res); unfold id; lia.
    + assert (Hrest : pending (inner r) !! old = None -> (size (pending (inner r)) <= length rest)%nat).
      { intros Hold. apply keys_size. intros p x Hp. pose proof (ok_order _ _ Hr p x Hp) as Hin.
        rewrite Eo in Hin. apply elem_of_cons in Hin as [->|]; [congruence|done]. }
      rewrite Eo in *. cbn [length] in *. rewrite map_size_insert, map_size_delete.
      destruct (decide (old = pid res)) as [->|Hne].
      * rewrite lookup_delete_eq. destruct (pending (inner r) !! pid res) eqn:Ep; unfold id; [lia|]. specialize (Hrest eq_refl). lia.
      * rewrite lookup_delete_ne by done.
        destruct (pending (inner r) !! pid res) eqn:Ep, (pending (inner r) !! old) eqn:Eold; unfold id;
          try specialize (Hrest eq_refl); lia.
Qed.

(** The stash is bounded by its cap and the entries of its queue that went stale: nothing else
    makes it grow. *)
Theorem stash_bound es :
  (size (pending (inner (run Reaper_new es))) <= MAX_PENDING + stale Reaper_new es)%nat /\
  (length (order (inner (run Reaper_new es))) <= MAX_PENDING + stale Reaper_new es)%nat.
Proof.
  assert (Hw : forall es0 es, (weight (run (run Reaper_new es0) es) <= weight (run Reaper_new es0) + stale (run Reaper_new es0) es)%nat).
  { intros es0 es1. revert es0. induction es1 as [|e es1 IH]; intros es0; [cbn; lia|].
    change (run (run Reaper_new es0) (e :: es1)) with (run (step (run Reaper_new es0) e) es1). cbn [stale].
    rewrite <- run_snoc. specialize (IH (es0 ++ [e])).
    pose proof (weight_step es0 _ e (reaper_run_ok es0)) as Hs. rewrite <- run_snoc in Hs. lia. }
  specialize (Hw [] es). cbn [run fold_left] in Hw. change (run Reaper_new es) with (fold_left step es Reaper_new).
  change (weight Reaper_new) with (0 `max` MAX_PENDING + (0 - 0))%nat in Hw.
  pose proof (pending_order_size _ _ (reaper_run_ok es)) as Hso. unfold weight, run in *. unfold MAX_PENDING in *. lia.
Qed.

(** ** What the stash does not do *)

Definition gone (p : Z) : event := Turn (Child (MkWaitResult p (Some 0%Z) None)).

(** A status of a short-lived child that was handed over leaves its entry in the queue, and the
    eviction takes that entry for the oldest status: the hard cap of 512 is passed. *)
Example stash_exceeds_cap :
  let es := gone 7 :: Register 7 :: map (fun i => gone (Z.of_nat (100 + i))) (seq 0 513) in
  size (pending (inner (run Reaper_new es))) = 513%nat.
Proof. vm_compute. reflexivity. Qed.

(** The status of an orphan stays in the stash until 512 others are stashed; a handler whose child
    is given the same pid again is handed the orphan's status, and its own child's is stashed. *)
Example orphan_status_served :
  let orphan := MkWaitResult 4242 None (Some 9%Z) in
  let child := MkWaitResult 4242 (Some 0%Z) None in
  let r := run Reaper_new [Turn (Child orphan); Register 4242; Turn (Child child)] in
  sent r = [(0%nat, orphan)] /\ pending (inner r) !! 4242%Z = Some child.
Proof. vm_compute. split; reflexivity. Qed.

Lemma reaper_delivers_witness :
  let child := MkWaitResult 11 (Some 3%Z) None in
  let meanwhile := [gone 12; Register 13; gone 13] in
  (0%nat, child) ∈ sent (run Reaper_new (Register 11 :: meanwhile ++ [Turn (Child child)])) /\
  sent (register 11 (run Reaper_new (Turn (Child child) :: meanwhile))) =
    [(0%nat, MkWaitResult 13 (Some 0%Z) None); (1%nat, child)].
Proof.
  intros child meanwhile. assert (Ha : Forall (apart 11) meanwhile) by (repeat constructor; cbn; lia).
  destruct (reaper_delivers Reaper_new 11 child meanwhile eq_refl Ha) as [H1 H2].
  split; [exact (H1 (lookup_empty _))|].
  rewrite (H2 (lookup_empty _)); [vm_compute; reflexivity|]. vm_compute. lia.
Defined.
