(* ===== verification/Console.v ===== *)
(** * The serial console ([crates/core/src/vm/console.rs])

    What a guest prints on its serial console goes to a log on the host, up to a cap, and, line by
    line, to the watcher that waits for the boot marker.  The line pump reads until the pipe ends
    whatever becomes of its writes; the verbatim one stops at the first write that fails.

    The pipe is what its successive reads return; an empty read or an error ends it.  The log is the
    bytes in it and a script of failures: a failing write leaves a part of its bytes.  The instants
    sent beside the lines are left out. *)
From S2P Require Import Prelude Text Effects.

Definition SERIAL_LOG_CAP : N := 16 * 1024 * 1024.
Definition newline : ascii := ascii_of_N 10.
Definition SERIAL_TRUNCATED_MARKER : bytes :=
  newline :: B "[isopod: serial log cap reached; further output was not persisted]" ++ [newline].
Definition MAX_LINE_LEN : N := 64 * 1024.

(** ** Lines *)

Module Marker.
Inductive Marker : Type := BootComplete | Tick | Other.
End Marker.

Definition classify_line (line : bytes) : Marker.Marker :=
  let l := trim line in
  if contains_str (B "ISOPOD-BOOT-COMPLETE") l then Marker.BootComplete
  else if starts_with (B "TICK ") l then Marker.Tick
  else Marker.Other.

(** ** The log *)

Record Log : Type := MkLog { content : bytes; faults : list (option nat) }.

(** [log.write_all(..)]: whether it succeeded. *)
Definition log_write (data : bytes) (l : Log) : bool * Log :=
  match faults l with
  | Some n :: script => (false, MkLog (content l ++ take n data) script)
  | None :: script => (true, MkLog (content l ++ data) script)
  | [] => (true, MkLog (content l ++ data) [])
  end.

(** ** The pump with lines *)

Record Serial : Type := MkSerial {
  log : Log;
  line_buf : bytes;
  written : N;
  truncated : bool;
  (** What was sent to the watcher. *)
  sent : list bytes }.

Definition persist_line (line : bytes) (s : Serial) : Serial :=
  if truncated s then s
  else if (SERIAL_LOG_CAP <=? written s)%N then
    MkSerial (snd (log_write SERIAL_TRUNCATED_MARKER (log s))) (line_buf s) (written s) true (sent s)
  else
    let l := snd (log_write [newline] (snd (log_write line (log s)))) in
    MkSerial l (line_buf s) (written s + N.of_nat (length line) + 1) false (sent s).

Definition end_line (s : Serial) : Serial :=
  let line := from_utf8_lossy (line_buf s) in
  let s := persist_line line (MkSerial (log s) [] (written s) (truncated s) (sent s)) in
  MkSerial (log s) (line_buf s) (written s) (truncated s) (sent s ++ [line]).

Definition serial_byte (s : Serial) (byte : ascii) : Serial :=
  if Ascii.eqb byte newline then end_line s
  else if (N.of_nat (length (line_buf s)) <? MAX_LINE_LEN)%N
  then MkSerial (log s) (line_buf s ++ [byte]) (written s) (truncated s) (sent s)
  else s.

(** The reads, up to the end of the pipe. *)
Fixpoint serial_reads (reads : list (result bytes bytes)) (s : Serial) : Serial :=
  match reads with
  | [] | Ok [] :: _ | Err _ :: _ => s
  | Ok chunk :: rest => serial_reads rest (fold_left serial_byte chunk s)
  end.

Definition drain_serial (reads : list (result bytes bytes)) (l : Log) : Serial :=
  let s := serial_reads reads (MkSerial l [] 0 false []) in
  if beq (line_buf s) [] then s else end_line s.

(** ** The verbatim pump *)

(** The log, what was written, whether it was cut. *)
Fixpoint log_reads (reads : list (result bytes bytes)) (l : Log) (written : N) (truncated : bool) : Log :=
  match reads with
  | [] | Ok [] :: _ | Err _ :: _ => l
  | Ok chunk :: rest =>
      if truncated then log_reads rest l written truncated
      else
        let room := (SERIAL_LOG_CAP - written)%N in
        let n := N.min (N.of_nat (length chunk)) room in
        let '(ok, l) := log_write (firstn (N.to_nat n) chunk) l in
        if negb ok then l
        else
          let written := (written + n)%N in
          if (n <? N.of_nat (length chunk))%N
          then log_reads rest (snd (log_write SERIAL_TRUNCATED_MARKER l)) written true
          else log_reads rest l written false
  end.

Definition drain_to_log (reads : list (result bytes bytes)) (l : Log) : Log := log_reads reads l 0 false.

(** ** What came through the pipe *)

Fixpoint piped (reads : list (result bytes bytes)) : bytes :=
  match reads with
  | [] | Ok [] :: _ | Err _ :: _ => []
  | Ok chunk :: rest => chunk ++ piped rest
  end.

(** The first [n] bytes of what was piped are in the log as they came. *)
Lemma take_app_N (n : N) (a b : bytes) : (N.of_nat (length a) <= n)%N ->
  take (N.to_nat n) (a ++ b) = a ++ take (N.to_nat (n - N.of_nat (length a))) b.
Proof. intros Hn. rewrite firstn_app, take_ge by lia. f_equal. f_equal. lia. Qed.

Definition sound_log (l : Log) : Prop := Forall (fun f => f = None) (faults l).

Lemma log_write_sound data l : sound_log l ->
  exists l', log_write data l = (true, l') /\ content l' = content l ++ data /\ sound_log l'.
Proof.
  unfold log_write, sound_log. destruct (faults l) as [|f script]; [intros _; by eexists|].
  intros [-> Hs]%Forall_cons. by eexists.
Qed.

Lemma log_reads_truncated reads l w : log_reads reads l w true = l.
Proof. induction reads as [|[[|c r]|e] reads IH]; cbn [log_reads]; done. Qed.

Lemma log_reads_spec reads l w : sound_log l -> (w <= SERIAL_LOG_CAP)%N ->
  content (log_reads reads l w false) =
  content l ++ take (N.to_nat (SERIAL_LOG_CAP - w)) (piped reads) ++
  (if (SERIAL_LOG_CAP - w <? N.of_nat (length (piped reads)))%N then SERIAL_TRUNCATED_MARKER else []).
Proof.
  revert l w. induction reads as [|[[|c r]|e] reads IH]; intros l w Hl Hw; cbn [log_reads piped];
    try (rewrite take_nil; cbn [length]; rewrite (proj2 (N.ltb_ge _ _)) by lia; by rewrite !app_nil_r).
  set (chunk := c :: r). set (n := N.min (N.of_nat (length chunk)) (SERIAL_LOG_CAP - w)).
  destruct (log_write_sound (take (N.to_nat n) chunk) l Hl) as (l1 & -> & Hc1 & Hl1). cbn [negb].
  rewrite length_app. destruct (n <? N.of_nat (length chunk))%N eqn:En; reflect_bools.
  - destruct (log_write_sound SERIAL_TRUNCATED_MARKER l1 Hl1) as (l2 & -> & Hc2 & _). cbn [snd].
    rewrite log_reads_truncated, Hc2, Hc1, (proj2 (N.ltb_lt _ _)) by lia.
    rewrite <- !app_assoc. do 2 f_equal. rewrite firstn_app. replace (N.to_nat n) with (N.to_nat (SERIAL_LOG_CAP - w)) by lia.
    replace (N.to_nat (SERIAL_LOG_CAP - w) - length chunk)%nat with 0%nat by lia. cbn [firstn]. by rewrite app_nil_r.
  - rewrite IH by (done || lia). rewrite Hc1, take_app_N by lia. rewrite <- !app_assoc. f_equal.
    rewrite (take_ge chunk) by lia. f_equal. replace (SERIAL_LOG_CAP - (w + n))%N with (SERIAL_LOG_CAP - w - N.of_nat (length chunk))%N by lia.
    f_equal. replace (SERIAL_LOG_CAP - w - N.of_nat (length chunk) <? N.of_nat (length (piped reads)))%N
      with (SERIAL_LOG_CAP - w <? N.of_nat (length chunk + length (piped reads)))%N; [done|].
    apply eq_true_iff_eq. rewrite !N.ltb_lt. lia.
Qed.

(** The verbatim log: while the disk takes the writes, it is what came through the pipe, byte for
    byte, up to the cap, and the marker if and only if something was cut. *)
Theorem drain_to_log_spec reads l : sound_log l ->
  content (drain_to_log reads l) =
  content l ++ take (N.to_nat SERIAL_LOG_CAP) (piped reads) ++
  (if (SERIAL_LOG_CAP <? N.of_nat (length (piped reads)))%N then SERIAL_TRUNCATED_MARKER else []).
Proof.
  intros Hl. unfold drain_to_log. rewrite log_reads_spec by (done || lia). by rewrite N.sub_0_r.
Qed.

(** One write that fails ends the verbatim pump, although later ones would succeed. *)
Example failed_write_stops_pump :
  content (drain_to_log [Ok (B "ab"); Ok (B "cd")] (MkLog [] [Some 1%nat])) = B "a".
Proof. reflexivity. Qed.

(** ** Lines and the size of their log *)

Lemma max_line_pos : (0 < MAX_LINE_LEN)%N.
Proof. reflexivity. Qed.

#[local] Opaque MAX_LINE_LEN SERIAL_LOG_CAP.

(** The lines of a text: what newlines end, and what is left if anything is. *)
Definition lines (s : bytes) : list bytes :=
  let parts := split newline s in
  removelast parts ++ match List.last parts [] with [] => [] | p => [p] end.

(** A line as the watcher sees it: its head, as text. *)
Definition shown (line : bytes) : bytes := from_utf8_lossy (take (N.to_nat MAX_LINE_LEN) line).

Lemma persist_line_keeps line s :
  line_buf (persist_line line s) = line_buf s /\ sent (persist_line line s) = sent s.
Proof. unfold persist_line. repeat case_test; done. Qed.

Lemma end_line_spec s :
  line_buf (end_line s) = [] /\ sent (end_line s) = sent s ++ [from_utf8_lossy (line_buf s)].
Proof.
  unfold end_line. cbn [line_buf sent].
  destruct (persist_line_keeps (from_utf8_lossy (line_buf s)) (MkSerial (log s) [] (written s) (truncated s) (sent s)))
    as [-> ->]. done.
Qed.

Lemma split_newline_cons pre r : newline ∉ pre ->
  split newline (pre ++ newline :: r) = pre :: split newline r.
Proof. apply split_app. Qed.

Lemma serial_bytes_spec pre input s :
  newline ∉ pre -> line_buf s = take (N.to_nat MAX_LINE_LEN) pre ->
  let s' := fold_left serial_byte input s in
  sent s' = sent s ++ map shown (removelast (split newline (pre ++ input))) /\
  line_buf s' = take (N.to_nat MAX_LINE_LEN) (List.last (split newline (pre ++ input)) []).
Proof.
  revert pre s. induction input as [|c input IH]; intros pre s Hpre Hbuf.
  { cbn [fold_left]. rewrite app_nil_r, split_none by done. cbn. by rewrite app_nil_r. }
  cbn [fold_left]. unfold serial_byte at 2 4. destruct (Ascii.eqb c newline) eqn:Ec.
  - apply ascii_eqb_eq in Ec as ->. destruct (end_line_spec s) as [Hb Hs].
    destruct (IH [] (end_line s)) as [IHs IHb]; [set_solver|by rewrite Hb, take_nil|].
    cbn [app] in IHs, IHb. rewrite IHs, IHb, Hs, Hbuf, split_newline_cons by done.
    destruct (split newline input) as [|p ps] eqn:Esp; [by apply split_ne in Esp|]. split; [|done].
    rewrite <- app_assoc. done.
  - assert (Hc : c <> newline) by (intros ->; by rewrite Ascii.eqb_refl in Ec).
    assert (Hpre' : newline ∉ pre ++ [c]) by set_solver.
    replace (pre ++ c :: input) with ((pre ++ [c]) ++ input) by by rewrite <- app_assoc.
    destruct (N.of_nat (length (line_buf s)) <? MAX_LINE_LEN)%N eqn:El; reflect_bools;
      rewrite Hbuf, length_take in El.
    + apply (IH (pre ++ [c]) (MkSerial (log s) (line_buf s ++ [c]) (written s) (truncated s) (sent s)) Hpre').
      cbn [line_buf]. rewrite Hbuf, !take_ge; rewrite ?length_app; cbn [length]; [done|lia..].
    + apply (IH (pre ++ [c]) s Hpre'). rewrite Hbuf, firstn_app.
      replace (N.to_nat MAX_LINE_LEN - length pre)%nat with 0%nat by lia. by rewrite app_nil_r.
Qed.

Lemma serial_reads_fold reads s : serial_reads reads s = fold_left serial_byte (piped reads) s.
Proof.
  revert s. induction reads as [|[[|c r]|e] reads IH]; intros s; cbn [serial_reads piped]; try done.
  by rewrite IH, fold_left_app.
Qed.

(** Decoding replaces a byte by three at most. *)
Lemma from_utf8_lossy_length s : (length (from_utf8_lossy s) <= 3 * length s)%nat.
Proof.
  unfold from_utf8_lossy. induction s as [s IH] using bytes_len_ind. destruct s as [|b0 r0]; [done|].
  cbn [utf8_items]. repeat case_match; subst; cbn [map concat length app item_bytes];
    rewrite ?length_app; cbn [length];
    match goal with
    | |- context [utf8_items ?r] => let Hr := fresh in pose proof (IH r ltac:(cbn [length]; lia)) as Hr; cbn [length] in Hr; lia
    | |- _ => lia
    end.
Qed.

Lemma log_write_length data l :
  (length (content (snd (log_write data l))) <= length (content l) + length data)%nat.
Proof.
  unfold log_write. destruct (faults l) as [|[n|] script]; cbn [snd content]; rewrite length_app; try lia.
  rewrite length_take. lia.
Qed.

(** The log, over what it started with, against the budget. *)
Definition within (base : nat) (s : Serial) : Prop :=
  (N.of_nat (length (line_buf s)) <= MAX_LINE_LEN)%N /\ (written s <= SERIAL_LOG_CAP + 3 * MAX_LINE_LEN)%N /\
  (N.of_nat (length (content (log s))) <= N.of_nat base + written s +
     if truncated s then N.of_nat (length SERIAL_TRUNCATED_MARKER) else 0)%N.

Lemma end_line_within base s : within base s -> within base (end_line s).
Proof.
  intros (Hb & Hw & Hl). unfold within, end_line, persist_line. cbn [log line_buf written truncated sent].
  pose proof (from_utf8_lossy_length (line_buf s)) as Hlossy. set (line := from_utf8_lossy (line_buf s)) in *.
  destruct (truncated s) eqn:Et; cbn [log line_buf written truncated]; [rewrite ?Et; cbn [length]; split; [lia|split; [done|exact Hl]]|].
  destruct (SERIAL_LOG_CAP <=? written s)%N eqn:Ew; reflect_bools; cbn [log line_buf written truncated length].
  - pose proof (log_write_length SERIAL_TRUNCATED_MARKER (log s)). split; [lia|]. split; [done|]. lia.
  - pose proof (log_write_length line (log s)). pose proof (log_write_length [newline] (snd (log_write line (log s)))).
    cbn [length] in *. split; [lia|]. split; lia.
Qed.

Lemma serial_bytes_within base input s : within base s -> within base (fold_left serial_byte input s).
Proof.
  revert s. induction input as [|c input IH]; intros s Hs; [done|]. cbn [fold_left]. apply IH.
  unfold serial_byte. destruct (Ascii.eqb c newline); [by apply end_line_within|].
  destruct (_ <? MAX_LINE_LEN)%N eqn:El; [|done]. reflect_bools. destruct Hs as (Hb & Hw & Hl).
  unfold within. cbn [log line_buf written truncated]. rewrite length_app. cbn [length]. split; [lia|done].
Qed.

(** The console pump.  However the guest's output is cut into reads, the watcher gets exactly
    its lines, the unfinished last one too, each as the text of its first 64 KiB; and whatever the
    guest prints and the disk does, the log grows by the 16 MiB cap, one line and the marker at
    most, and never more than one line is held in memory. *)
Theorem drain_serial_spec reads l :
  let s := drain_serial reads l in
  sent s = map shown (lines (piped reads)) /\
  (N.of_nat (length (content (log s))) <=
     N.of_nat (length (content l)) + SERIAL_LOG_CAP + 3 * MAX_LINE_LEN + N.of_nat (length SERIAL_TRUNCATED_MARKER))%N /\
  (forall k, let m := serial_reads (take k reads) (MkSerial l [] 0 false []) in
     N.of_nat (length (line_buf m)) <= MAX_LINE_LEN)%N.
Proof.
  set (s0 := MkSerial l [] 0 false []).
  assert (H0 : within (length (content l)) s0) by (repeat split; cbn [log line_buf written truncated s0 length]; lia).
  assert (Hfin : forall s, within (length (content l)) s -> (N.of_nat (length (content (log s))) <=
    N.of_nat (length (content l)) + SERIAL_LOG_CAP + 3 * MAX_LINE_LEN + N.of_nat (length SERIAL_TRUNCATED_MARKER))%N).
  { intros s (_ & Hw & Hl). destruct (truncated s); lia. }
  destruct (serial_bytes_spec [] (piped reads) s0) as [Hs Hb]; [set_solver|by rewrite take_nil|].
  cbn [app] in Hs, Hb.
  intros s. unfold s, drain_serial. fold s0. rewrite serial_reads_fold. split; [|split].
  - unfold lines. destruct (beq (line_buf _) []) eqn:Eb.
    + apply beq_true in Eb. rewrite Hs. rewrite Hb in Eb.
      destruct (List.last (split newline (piped reads)) []) as [|c r]; [by rewrite app_nil_r|].
      apply (f_equal length) in Eb. rewrite length_take in Eb. cbn [length] in Eb. pose proof max_line_pos. lia.
    + rewrite (proj2 (end_line_spec _)), Hs, Hb.
      destruct (List.last (split newline (piped reads)) []) as [|c r] eqn:El; [|by rewrite map_app].
      rewrite Hb in Eb. by rewrite ?El, take_nil in Eb.
  - apply Hfin. destruct (beq _ []); [|apply end_line_within]; by apply serial_bytes_within.
  - intros k. cbv zeta. fold s0. rewrite serial_reads_fold.
    by apply (serial_bytes_within (length (content l))).
Qed.

Example console_run :
  let out := drain_serial [Ok (B "boot..."); Ok (newline :: B "ISOPOD-BOOT-COMPL"); Ok (B "ETE uptime=1" ++ [newline]); Ok (B "TICK 2")]
               (MkLog [] []) in
  map classify_line (sent out) = [Marker.Other; Marker.BootComplete; Marker.Tick] /\
  content (log out) = B "boot..." ++ newline :: B "ISOPOD-BOOT-COMPLETE uptime=1" ++ newline :: B "TICK 2" ++ [newline].
Proof. vm_compute. split; reflexivity. Qed.

Lemma drain_to_log_spec_witness :
  content (drain_to_log [Ok (B "abc"); Ok (B "def"); Err (B "EIO"); Ok (B "g")] (MkLog [] [None])) = B "abcdef".
Proof. rewrite drain_to_log_spec by (repeat constructor). vm_compute. reflexivity. Defined.
