(* ===== verification/Resources.v ===== *)
(** * The size of a virtual machine ([crates/core/src/vm/resources.rs])

    A request for virtual CPUs and memory is checked against the host and refused when it is out of
    range; it is never changed.  The size that results is part of the key of a warm snapshot, as a
    text that tells sizes apart. *)
From S2P Require Import Prelude Text.

Definition DEFAULT_VCPUS : N := 1.
Definition DEFAULT_MEM_MIB : N := 512.
Definition MIN_MEM_MIB : N := 128.
Definition MAX_MEM_MIB : N := 4096.
Definition HOST_MEM_HEADROOM_MIB : N := 512.
Definition MAX_VCPUS : N := 32.

Record Resources : Type := MkResources { vcpus : N; mem_mib : N }.
#[export] Instance Resources_eq_dec : EqDecision Resources.
Proof. solve_decision. Defined.

Definition cache_fragment (r : Resources) : bytes :=
  show_N (vcpus r) ++ B "c-" ++ show_N (mem_mib r) ++ B "m".

(** [saturating_sub] is the subtraction of [N]. *)
Definition mem_cap (host_mem_mib : N) : N := N.min (host_mem_mib - HOST_MEM_HEADROOM_MIB) MAX_MEM_MIB.

Definition vcpu_cap (host_nproc : N) : N := N.min host_nproc MAX_VCPUS.

(** The refusals, with the numbers their messages give. *)
Inductive ResourceError : Type :=
  | NoVcpus (vcpus : N)
  | TooManyVcpus (vcpus cap host_nproc : N)
  | OddVcpus (vcpus : N)
  | BelowFloor (mem_mib : N)
  | AboveCap (mem_mib cap host_mem_mib : N)
  | NoMeminfo
  | NoMemTotal
  | BadMemTotal (line : bytes).
#[export] Instance ResourceError_eq_dec : EqDecision ResourceError.
Proof. solve_decision. Defined.

Definition resolve (vcpus mem_mib host_nproc host_mem_mib : N) : result Resources ResourceError :=
  let vcap := vcpu_cap host_nproc in
  if (vcpus <? 1)%N then Err (NoVcpus vcpus)
  else if (vcap <? vcpus)%N then Err (TooManyVcpus vcpus vcap host_nproc)
  else if (1 <? vcpus)%N && negb (vcpus mod 2 =? 0)%N then Err (OddVcpus vcpus)
  else
    let mcap := mem_cap host_mem_mib in
    if (mem_mib <? MIN_MEM_MIB)%N then Err (BelowFloor mem_mib)
    else if (mcap <? mem_mib)%N then Err (AboveCap mem_mib mcap host_mem_mib)
    else Ok (MkResources vcpus mem_mib).

(** ** What the host has *)

(** [n as u32] *)
Definition as_u32 (n : N) : N := n mod (u32_max + 1).

Lemma as_u32_small n : (n <= u32_max)%N -> as_u32 n = n.
Proof. intros H. apply N.mod_small. lia. Qed.

(** [available_parallelism], where the platform reports it. *)
Definition host_nproc (available_parallelism : option N) : N :=
  match available_parallelism with Some n => as_u32 n | None => 1 end.

Fixpoint mem_total_line (lines : list bytes) : result N ResourceError :=
  match lines with
  | [] => Err NoMemTotal
  | line :: r =>
      match strip_prefix (B "MemTotal:") line with
      | Some rest =>
          match head (split_whitespace rest) ≫= parse_uint u64_max with
          | Some kb => Ok (as_u32 (kb / 1024))
          | None => Err (BadMemTotal line)
          end
      | None => mem_total_line r
      end
  end.
Definition parse_mem_total_mib (meminfo : bytes) : result N ResourceError :=
  mem_total_line (str_lines meminfo).

(** [/proc/meminfo], where it can be read. *)
Definition host_mem_mib (meminfo : option bytes) : result N ResourceError :=
  let? text := ok_or meminfo NoMeminfo in parse_mem_total_mib text.

Definition resolve_for_host (available_parallelism : option N) (meminfo : option bytes)
    (vcpus mem_mib : N) : result Resources ResourceError :=
  let nproc := host_nproc available_parallelism in
  let? mem := host_mem_mib meminfo in
  resolve vcpus mem_mib nproc mem.

#[local] Opaque as_u32 N.div.

(** ** The decision *)

(** What a size must satisfy on a host. *)
Definition fits (nproc host_mem : N) (r : Resources) : Prop :=
  (1 <= vcpus r <= vcpu_cap nproc)%N /\ (vcpus r = 1%N \/ N.Even (vcpus r)) /\
  (MIN_MEM_MIB <= mem_mib r <= mem_cap host_mem)%N.

Lemma even_mod2 n : (n mod 2 =? 0)%N = true <-> N.Even n.
Proof.
  rewrite N.eqb_eq. split.
  - intros H. exists (n / 2)%N. pose proof (N.div_mod n 2). lia.
  - intros [k ->]. rewrite N.mul_comm. apply N.Div0.mod_mul.
Qed.

(** A request is granted exactly when it fits the host, and then as it was made; nothing is
    clamped.  A refusal names a bound that the request violates: the number of CPUs asked for
    before the memory, the floor before the ceiling. *)
Theorem resolve_spec v m nproc host_mem :
  match resolve v m nproc host_mem with
  | Ok r => r = MkResources v m /\ fits nproc host_mem r
  | Err e => ~ fits nproc host_mem (MkResources v m) /\
      match e with
      | NoVcpus n => n = v /\ v = 0%N
      | TooManyVcpus n cap p => n = v /\ p = nproc /\ cap = vcpu_cap nproc /\ (cap < v)%N
      | OddVcpus n => n = v /\ (1 < v <= vcpu_cap nproc)%N /\ ~ N.Even v
      | BelowFloor n => n = m /\ (m < MIN_MEM_MIB)%N /\ (1 <= v <= vcpu_cap nproc)%N
      | AboveCap n cap h => n = m /\ h = host_mem /\ cap = mem_cap host_mem /\ (cap < m)%N /\ (MIN_MEM_MIB <= m)%N
      | _ => False
      end
  end.
Proof.
  unfold resolve, fits. cbn [vcpus mem_mib].
  destruct (N.ltb_spec v 1); [split; [|split]; lia|].
  destruct (N.ltb_spec (vcpu_cap nproc) v); [split; [|split_and!]; (done || lia)|].
  destruct (N.ltb_spec 1 v) as [H1|H1]; cbn [andb].
  2: assert (v = 1%N) by lia.
  1: destruct (v mod 2 =? 0)%N eqn:E; cbn [negb];
       [apply even_mod2 in E|assert (~ N.Even v) by (rewrite <- even_mod2, E; done)].
  2: { split; [intros (_ & [?|?] & _); [lia|done]|]. split_and!; (done || lia). }
  all: destruct (N.ltb_spec m MIN_MEM_MIB); [split; [|split_and!]; (done || lia)|];
    destruct (N.ltb_spec (mem_cap host_mem) m); [split; [|split_and!]; (done || lia)|];
    split_and!; (done || auto || lia).
Qed.

(** The size fits Firecracker's own range whatever the host. *)
Lemma fits_bounds nproc host_mem r : fits nproc host_mem r ->
  (1 <= vcpus r <= 32)%N /\ (128 <= mem_mib r <= 4096)%N /\ (mem_mib r + 512 <= host_mem)%N.
Proof.
  unfold fits, vcpu_cap, mem_cap, MAX_VCPUS, MIN_MEM_MIB, MAX_MEM_MIB, HOST_MEM_HEADROOM_MIB.
  intros (? & _ & ?). lia.
Qed.

(** ** The key fragment *)

Lemma digit_not_in c s : forallb is_ascii_digit s = true -> is_ascii_digit c = false -> c ∉ s.
Proof. rewrite forallb_forall. intros Hs Hc Hin. apply list_elem_of_In, Hs in Hin. congruence. Qed.

(** Distinct sizes have distinct key fragments, even with any text after them that starts where
    the fragment ends. *)
Theorem cache_fragment_inj r1 r2 t1 t2 :
  cache_fragment r1 ++ t1 = cache_fragment r2 ++ t2 -> r1 = r2 /\ t1 = t2.
Proof.
  unfold cache_fragment. rewrite <- !app_assoc. intros H.
  assert (Hsplit : forall c n x m y, is_ascii_digit c = false ->
    show_N n ++ c :: x = show_N m ++ c :: y -> n = m /\ x = y).
  { intros c n x m y Hc Heq.
    pose proof (split_once_app c (show_N n) x (digit_not_in _ _ (show_N_digits n) Hc)) as H1.
    pose proof (split_once_app c (show_N m) y (digit_not_in _ _ (show_N_digits m) Hc)) as H2.
    rewrite Heq, H2 in H1. injection H1 as H1 ->. split; [|done]. by apply show_N_inj. }
  apply (Hsplit "c"%char) in H as [Hv H]; [|done]. injection H as H.
  apply (Hsplit "m"%char) in H as [Hm Ht]; [|done].
  destruct r1, r2; simpl in *. by subst.
Qed.

(** ** Reading the size of the host *)

(** The text of [/proc/meminfo] up to its [MemTotal] line, and that line as the kernel prints it. *)
Definition total_line (spaces : nat) (kb : N) : bytes :=
  B "MemTotal:" ++ repeat space spaces ++ show_N kb ++ B " kB".

Lemma graphic_digits s : forallb is_ascii_digit s = true -> forallb is_ascii_graphic s = true.
Proof.
  rewrite !forallb_forall. intros H c Hc. specialize (H c Hc). revert H. by all_bytes c.
Qed.

Lemma first_word k s t :
  forallb is_ascii_graphic s = true -> s <> [] ->
  head (split_whitespace (repeat space k ++ s ++ space :: t)) = Some s.
Proof.
  intros Hs Hne. unfold split_whitespace. induction k as [|k IH].
  - cbn [repeat app]. rewrite words_word by done. cbn [app].
    change (utf8_items (space :: t)) with (Chr 32 [space] :: utf8_items t).
    rewrite words_white by done. by destruct s.
  - cbn [repeat app]. change (utf8_items (space :: ?r)) with (Chr 32 [space] :: utf8_items r).
    by rewrite words_white.
Qed.

Lemma mem_total_line_found before n kb after :
  Forall (fun l => strip_prefix (B "MemTotal:") l = None) before -> (kb <= u64_max)%N ->
  mem_total_line (before ++ total_line n kb :: after) = Ok (as_u32 (kb / 1024)).
Proof.
  intros Hb Hkb. induction Hb as [|l before Hl Hb IH]; cbn [app mem_total_line].
  - unfold total_line at 1. rewrite (proj2 (strip_prefix_Some _ _ _) eq_refl).
    change (B " kB") with (space :: B "kB").
    rewrite first_word by (apply graphic_digits, show_N_digits || apply show_N_ne).
    cbn [mbind option_bind]. by rewrite parse_show.
  - by rewrite Hl.
Qed.

(** On a host whose [/proc/meminfo] gives its memory as the kernel does, a request is granted
    exactly when it fits the CPUs the process may use and the memory in whole MiB, as long as that
    is less than 2^32. *)
Theorem resolve_for_host_spec text before n kb after nproc v m
  (Htext : str_lines text = before ++ total_line n kb :: after)
  (Hbefore : Forall (fun l => strip_prefix (B "MemTotal:") l = None) before)
  (Hkb : (kb < 2 ^ 42)%N) (Hnproc : (nproc <= u32_max)%N) r :
  resolve_for_host (Some nproc) (Some text) v m = Ok r <->
  r = MkResources v m /\ fits nproc (kb / 1024) r.
Proof.
  assert (Hmib : (kb / 1024 <= u32_max)%N).
  { apply N.lt_succ_r, N.Div0.div_lt_upper_bound.
    replace (1024 * N.succ u32_max)%N with (2 ^ 42)%N by (vm_compute; reflexivity). exact Hkb. }
  assert (Hk64 : (kb <= u64_max)%N) by (unfold u64_max; change (2 ^ 42)%N with 4398046511104%N in Hkb; lia).
  pose proof (as_u32_small _ Hmib) as Hu. pose proof (as_u32_small _ Hnproc) as Hp.
  unfold resolve_for_host, host_nproc. rewrite Hp. cbn [host_mem_mib ok_or rbind].
  unfold parse_mem_total_mib. rewrite Htext, mem_total_line_found by done.
  rewrite Hu. cbn [rbind]. pose proof (resolve_spec v m nproc (kb / 1024)) as H.
  destruct (resolve v m nproc (kb / 1024)) as [r'|e].
  - destruct H as [-> Hf]. split; [by intros [= <-]|by intros [-> _]].
  - destruct H as [Hn _]. split; [done|]. by intros [-> Hf].
Qed.

Definition meminfo_example : bytes :=
  B "Cached:   12 kB" ++ [line_feed] ++ B "MemTotal:        6069372 kB" ++ [line_feed] ++ B "MemFree: 1 kB".

Lemma resolve_for_host_spec_witness :
  resolve_for_host (Some 4%N) (Some meminfo_example) 2 1024 = Ok (MkResources 2 1024) <->
  MkResources 2 1024 = MkResources 2 1024 /\ fits 4 (6069372 / 1024) (MkResources 2 1024).
Proof.
  apply (resolve_for_host_spec meminfo_example [B "Cached:   12 kB"] 8 6069372 [B "MemFree: 1 kB"] 4 2 1024);
    [vm_compute; reflexivity|repeat constructor|reflexivity|discriminate].
Defined.

(** A host of less than 640 MiB takes no request at all. *)
Example small_host : forall v m, is_ok (resolve v m 4 639) = false.
Proof.
  intros v m. pose proof (resolve_spec v m 4 639) as H. destruct (resolve v m 4 639) as [r|e]; [|done].
  destruct H as [_ Hf]. apply fits_bounds in Hf. lia.
Qed.
