(* ===== verification/Cmdline.v ===== *)
(** * The kernel command line as the guest reads it ([crates/guest-agent/src/cmdline.rs])

    The host passes boot-time configuration as [key=value] words. *)
From S2P Require Import Prelude Text.

(** The words, up to the first whose key is [key]. *)
Fixpoint find_value (key : bytes) (toks : list bytes) : option bytes :=
  match toks with
  | [] => None
  | tok :: r =>
      match split_once "=" tok with
      | Some (k, v) => if beq k key then Some v else find_value key r
      | None => find_value key r
      end
  end.

Definition value (cmdline key : bytes) : option bytes := find_value key (split_whitespace cmdline).

(** A word of the kernel command line: not empty, and of ASCII graphic characters. *)
Definition word (w : bytes) : Prop := w <> [] /\ forallb is_ascii_graphic w = true.

Lemma value_of_words ws key : Forall word ws -> value (join [space] ws) key = find_value key ws.
Proof. intros H. unfold value. by rewrite split_whitespace_join. Qed.

Lemma find_value_app key a b :
  find_value key (a ++ b) = match find_value key a with Some v => Some v | None => find_value key b end.
Proof.
  induction a as [|t a IH]; [done|]. cbn [app find_value].
  destruct (split_once "=" t) as [[k v]|]; [|done]. by destruct (beq k key).
Qed.

Lemma find_value_pair key k v r : "="%char ∉ k ->
  find_value key ((k ++ "="%char :: v) :: r) = if beq k key then Some v else find_value key r.
Proof. intros Hk. cbn [find_value]. by rewrite split_once_app. Qed.

(** What [value] gives is what follows the first word that spells the key and an equals sign. *)
Lemma find_value_Some key toks v :
  find_value key toks = Some v <->
  exists a b, toks = a ++ (key ++ "="%char :: v) :: b /\ "="%char ∉ key /\ find_value key a = None.
Proof.
  split.
  - induction toks as [|t toks IH]; [done|]. cbn [find_value].
    destruct (split_once "=" t) as [[k w]|] eqn:E.
    + apply split_once_Some in E as [-> Hk]. destruct (beq k key) eqn:Ek.
      * intros [= ->]. apply beq_true in Ek as ->. by exists [], toks.
      * intros (a & b & -> & Hkey & Ha)%IH. exists ((k ++ "="%char :: w) :: a), b.
        split_and!; [done|done|]. by rewrite find_value_pair, Ek.
    + intros (a & b & -> & Hkey & Ha)%IH. exists (t :: a), b. split_and!; [done|done|].
      cbn [find_value]. by rewrite E.
  - intros (a & b & -> & Hkey & Ha). rewrite find_value_app, Ha, find_value_pair by done.
    by rewrite (proj2 (beq_true _ _) eq_refl).
Qed.

(** A line without whitespace around its words: printing a pair and reading it back. *)
Lemma value_appended ws k v :
  Forall word ws -> word (k ++ "="%char :: v) -> "="%char ∉ k -> find_value k ws = None ->
  value (join [space] (ws ++ [k ++ "="%char :: v])) k = Some v.
Proof.
  intros Hws Hw Hk Hno. rewrite value_of_words by (apply Forall_app; by rewrite Forall_singleton).
  rewrite find_value_app, Hno, find_value_pair by done. by rewrite (proj2 (beq_true _ _) eq_refl).
Qed.

Example value_first : value (B "quiet k=a  k=b k") (B "k") = Some (B "a").
Proof. vm_compute. reflexivity. Qed.
Example value_absent : value (B "quiet ro isopod.net") (B "isopod.net") = None.
Proof. vm_compute. reflexivity. Qed.
