(* ===== verification/GuestSys.v ===== *)
(** * System calls of the guest agent ([crates/guest-agent/src/sys.rs])

    The wrappers PID 1 uses for mounts, its root directory, interfaces and routes.  The kernel is
    not under [src/]: its answer to a call is a parameter, of the calls made before it and of the
    call itself, and a computation of the agent is a state transformer over the log of the calls
    made with their answers.  Structures passed to the kernel are their bytes, on a little-endian
    machine, as Firecracker's are. *)
From S2P Require Import Prelude Text Effects Sys.
From S2P Require Reaper.

(** ** Constants of libc *)

Definition EBUSY : N := 16.
Definition ENODEV : N := 19.
Definition ESRCH : N := 3.
Definition MS_RDONLY : N := 1.
Definition MS_NOATIME : N := 1024.
Definition MS_REC : N := 16384.
Definition MS_PRIVATE : N := 262144.
Definition MNT_DETACH : N := 2.
Definition AF_INET : N := 2.
Definition IFF_UP : N := 1.
Definition IFF_RUNNING : N := 64.
Definition RTF_UP : N := 1.
Definition RTF_GATEWAY : N := 2.

Inductive Ioctl : Type := SIOCGIFFLAGS | SIOCSIFFLAGS | SIOCSIFADDR | SIOCSIFNETMASK | SIOCADDRT | SIOCDELRT.
#[export] Instance Ioctl_eq_dec : EqDecision Ioctl.
Proof. solve_decision. Defined.

(** The fields of [rtentry] the agent fills in; the rest is zero. *)
Record rtentry : Type := MkRt { rt_dst : bytes; rt_genmask : bytes; rt_gateway : option bytes; rt_flags : N }.
#[export] Instance rtentry_eq_dec : EqDecision rtentry.
Proof. solve_decision. Defined.

(** ** Calls *)

Inductive Call : Type :=
  | CMount (source : option bytes) (target : bytes) (fstype : option bytes) (flags : N) (data : option bytes)
  | CChdir (path : bytes)
  | CPivotRoot (new_root put_old : bytes)
  | CUmount (target : bytes) (flags : N)
  | CSocket
  | CIoctlIf (request : Ioctl) (req : bytes)
  | CIoctlRt (request : Ioctl) (rt : rtentry)
  | CKill (pid sig : Z)
  (** Operations of [std::fs], whose calls are not spelled out. *)
  | CReadDir (path : bytes)
  | CCreateDirAll (path : bytes)
  | CRead (path : bytes)
  | CWrite (path body : bytes).
#[export] Instance Call_eq_dec : EqDecision Call.
Proof. solve_decision. Defined.

Abbreviation Answer := (result bytes IoError).
Abbreviation History := (list (Call * Answer)).

(** Prints of the agent to its log, beside the calls. *)
Record Guest : Type := MkGuest { history : History; logged : list bytes }.

Definition guest0 : Guest := MkGuest [] [].

Section sys.
Context (kernel : History -> Call -> Answer).

Abbreviation G := (SE Guest IoError).

Definition call (c : Call) : G bytes := fun g =>
  let a := kernel (history g) c in (a, MkGuest (history g ++ [(c, a)]) (logged g)).

Definition call_ (c : Call) : G unit := do! _ := call c in se_ret (Ok tt).

(** [server::log] *)
Definition log {E} (msg : bytes) : SE Guest E unit := fun g =>
  (Ok tt, MkGuest (history g) (logged g ++ [msg])).

(** [io::Error::new(kind, text)]: the kind is not modelled. *)
Definition io_error (text : bytes) : IoError := MkIoError None text.

Definition NUL : ascii := ascii_of_N 0.

(** [CString::new]; the text gives the place of the NUL byte. *)
Definition cstr (s : bytes) : G bytes :=
  match split_once NUL s with
  | Some (a, _) => se_ret (Err (io_error (B "nul byte found in provided data at position: " ++ show_N (N.of_nat (length a)))))
  | None => se_ret (Ok s)
  end.

(** ** Mounts and the root *)

(** [sys::mount]: whether the mount happened, as opposed to having been there. *)
Definition mount (source target fstype : bytes) : G bool :=
  do! source := cstr source in
  do! target := cstr target in
  do! fstype := cstr fstype in
  do! r := se_try (call (CMount (Some source) target (Some fstype) 0 None)) in
  se_ret (match r with
          | Ok _ => Ok true
          | Err e => if is_errno e EBUSY then Ok false else Err e
          end).

Definition mount_with_data (source target fstype : bytes) (flags : N) (data : option bytes) : G unit :=
  do! source := cstr source in
  do! target := cstr target in
  do! fstype := cstr fstype in
  do! data := match data with
              | Some d => do! d := cstr d in se_ret (Ok (Some d))
              | None => se_ret (Ok None)
              end in
  call_ (CMount (Some source) target (Some fstype) flags data).

Definition make_root_private : G unit :=
  do! root := cstr (B "/") in call_ (CMount None root None (N.lor MS_REC MS_PRIVATE) None).

Definition chdir (path : bytes) : G unit := do! path := cstr path in call_ (CChdir path).

Definition pivot_root (new_root put_old : bytes) : G unit :=
  do! new_root := cstr new_root in
  do! put_old := cstr put_old in
  call_ (CPivotRoot new_root put_old).

Definition umount_detach (target : bytes) : G unit :=
  do! target := cstr target in call_ (CUmount target MNT_DETACH).

(** ** Processes *)

Definition SIGKILL : Z := 9.

(** A group that is gone is a success. *)
Definition kill_group (pgid : Z) : G unit :=
  do! r := se_try (call (CKill (- pgid) SIGKILL)) in
  se_ret (match r with
          | Ok _ => Ok tt
          | Err e => if is_errno e ESRCH then Ok tt else Err e
          end).

(** ** Interfaces *)

Definition IFNAMSIZ : nat := 16.
Definition zeros (n : nat) : bytes := repeat NUL n.

(** [Ifreq]: the name, padded, and the 24 bytes of the union. *)
Definition Ifreq_new (ifname : bytes) : result bytes IoError :=
  if (IFNAMSIZ <=? length ifname)%nat then Err (io_error (ifname ++ B " exceeds IFNAMSIZ-1"))
  else Ok (ifname ++ zeros (IFNAMSIZ - length ifname) ++ zeros 24).

(** [req.ifru[0..n].copy_from_slice(..)] *)
Definition set_ifru (req member : bytes) : bytes :=
  take IFNAMSIZ req ++ member ++ drop (IFNAMSIZ + length member) req.

Definition le16 (n : N) : bytes := [ascii_of_N (n mod 256); ascii_of_N (n / 256)].
Definition sockaddr_in_bytes (addr : bytes) : bytes := le16 AF_INET ++ zeros 2 ++ addr ++ zeros 8.

Definition ioctl_ifreq (request : Ioctl) (req : bytes) : G bytes :=
  do! _ := call CSocket in call (CIoctlIf request req).

Definition set_if_addr (ifname addr : bytes) : G unit :=
  do! req := se_ret (Ifreq_new ifname) in
  do! _ := ioctl_ifreq SIOCSIFADDR (set_ifru req (sockaddr_in_bytes addr)) in se_ret (Ok tt).

Definition set_if_netmask (ifname mask : bytes) : G unit :=
  do! req := se_ret (Ifreq_new ifname) in
  do! _ := ioctl_ifreq SIOCSIFNETMASK (set_ifru req (sockaddr_in_bytes mask)) in se_ret (Ok tt).

(** [ifr_flags], a [short]. *)
Definition ifr_flags (req : bytes) : N :=
  match drop IFNAMSIZ req with lo :: hi :: _ => code lo + 256 * code hi | _ => 0 end.

Definition change_flags (f : N -> N) (ifname : bytes) : G unit :=
  do! req := se_ret (Ifreq_new ifname) in
  do! req := ioctl_ifreq SIOCGIFFLAGS req in
  do! _ := ioctl_ifreq SIOCSIFFLAGS (set_ifru req (le16 (f (ifr_flags req)))) in se_ret (Ok tt).

Definition set_if_up : bytes -> G unit := change_flags (fun flags => N.lor flags (N.lor IFF_UP IFF_RUNNING)).
Definition set_if_down : bytes -> G unit := change_flags (fun flags => N.ldiff flags (N.lor IFF_UP IFF_RUNNING)).

(** ** Routes *)

Definition any_addr : bytes := zeros 4.

Definition add_default_route (gw : bytes) : G unit :=
  do! _ := call CSocket in
  call_ (CIoctlRt SIOCADDRT (MkRt (sockaddr_in_bytes any_addr) (sockaddr_in_bytes any_addr)
                               (Some (sockaddr_in_bytes gw)) (N.lor RTF_UP RTF_GATEWAY))).

Definition del_default_route : G unit :=
  do! _ := call CSocket in
  do! r := se_try (call (CIoctlRt SIOCDELRT (MkRt (sockaddr_in_bytes any_addr) (sockaddr_in_bytes any_addr)
                                               None RTF_UP))) in
  se_ret (match r with
          | Ok _ => Ok tt
          | Err e => if is_errno e ESRCH || is_errno e ENOENT then Ok tt else Err e
          end).
End sys.

(** ** Reaping *)

Definition ECHILD : N := 10.
Definition EINTR : N := 4.

(** The status word of [waitpid], by libc's macros. *)
Definition WIFEXITED (status : N) : bool := (N.land status 127 =? 0)%N.
Definition WEXITSTATUS (status : N) : N := N.land (N.shiftr status 8) 255.
Definition WTERMSIG (status : N) : N := N.land status 127.
Definition WIFSIGNALED (status : N) : bool := negb (WTERMSIG status =? 0)%N && negb (WTERMSIG status =? 127)%N.

Definition decode_status (pid : Z) (status : N) : Reaper.WaitResult :=
  if WIFEXITED status then Reaper.MkWaitResult pid (Some (Z.of_N (WEXITSTATUS status))) None
  else if WIFSIGNALED status then Reaper.MkWaitResult pid None (Some (Z.of_N (WTERMSIG status)))
  else Reaper.MkWaitResult pid None None.

(** What [waitpid(-1, ..)] gave: a pid with its status word, or an errno. *)
Definition wait_any_blocking (r : result (Z * N) N) : Reaper.Reap :=
  match r with
  | Ok (pid, status) => Reaper.Child (decode_status pid status)
  | Err e =>
      if (e =? ECHILD)%N then Reaper.NoChildren
      else if (e =? EINTR)%N then Reaper.Interrupted
      else Reaper.NoChildren
  end.

(** A process that exited with a code, or was killed by a signal with or without a core dump, is
    reported as just that. *)
Lemma decode_exited pid c : (c < 256)%N ->
  decode_status pid (256 * c) = Reaper.MkWaitResult pid (Some (Z.of_N c)) None.
Proof.
  intros Hc. unfold decode_status, WIFEXITED, WEXITSTATUS.
  replace (N.land (256 * c) 127) with 0%N.
  2: { change 127%N with (N.ones 7). rewrite N.land_ones. symmetry. apply N.Div0.mod_divides.
       exists (2 * c)%N. change (2 ^ 7)%N with 128%N. lia. }
  cbn [N.eqb]. rewrite N.shiftr_div_pow2. change (2 ^ 8)%N with 256%N.
  rewrite N.mul_comm, N.div_mul by done. change 255%N with (N.ones 8).
  rewrite N.land_ones, N.mod_small by done. done.
Qed.

Lemma decode_killed pid sig core : (0 < sig < 127)%N -> core = 0%N \/ core = 128%N ->
  decode_status pid (sig + core) = Reaper.MkWaitResult pid None (Some (Z.of_N sig)).
Proof.
  intros Hs Hc. unfold decode_status, WIFEXITED, WIFSIGNALED, WTERMSIG.
  replace (N.land (sig + core) 127) with sig.
  2: { change 127%N with (N.ones 7). rewrite N.land_ones. change (2 ^ 7)%N with 128%N.
       destruct Hc as [-> | ->].
       - rewrite N.add_0_r. symmetry. apply N.mod_small. lia.
       - replace (sig + 128)%N with (sig + 1 * 128)%N by lia. rewrite N.Div0.mod_add. symmetry. apply N.mod_small. lia. }
  destruct (N.eqb_spec sig 0); [lia|]. destruct (N.eqb_spec sig 127); [lia|]. done.
Qed.

(** ** Lemmas *)

(** The calls of a history, without their answers. *)
Definition calls (g : Guest) : list Call := map fst (history g).

Lemma cstr_ok s (g : Guest) : NUL ∉ s -> cstr s g = (Ok s, g).
Proof. intros H. unfold cstr. by rewrite (proj2 (split_once_None _ _) H). Qed.

(** ** The wire image of an interface request *)

Lemma length_zeros n : length (zeros n) = n.
Proof. apply repeat_length. Qed.

(** The request is 40 bytes, the size the kernel copies, whatever the name; a name of sixteen
    bytes or more is refused. The union starts after the name and its padding, and writing a member of
    it leaves the name and the size as they are. *)
Theorem ifreq_layout ifname req :
  Ifreq_new ifname = Ok req ->
  length req = 40%nat /\ (length ifname < IFNAMSIZ)%nat /\ req = ifname ++ zeros (40 - length ifname) /\
  forall member, (length member <= 24)%nat ->
    length (set_ifru req member) = 40%nat /\
    take IFNAMSIZ (set_ifru req member) = take IFNAMSIZ req /\
    take (length member) (drop IFNAMSIZ (set_ifru req member)) = member.
Proof.
  unfold Ifreq_new, IFNAMSIZ. destruct (Nat.leb_spec 16 (length ifname)); [done|]. intros [= <-].
  assert (Heq : ifname ++ zeros (16 - length ifname) ++ zeros 24 = ifname ++ zeros (40 - length ifname)).
  { unfold zeros. rewrite <- repeat_app. do 2 f_equal. lia. }
  assert (Hlen : length (ifname ++ zeros (16 - length ifname) ++ zeros 24) = 40%nat)
    by (rewrite !length_app, !length_zeros; lia).
  revert Heq Hlen. generalize (ifname ++ zeros (16 - length ifname) ++ zeros 24). intros req Heq Hlen.
  split_and!; [done|done|done|]. intros member Hm. unfold set_ifru, IFNAMSIZ.
  assert (H16 : length (take 16 req) = 16%nat) by (rewrite length_take; lia).
  split_and!.
  - rewrite !length_app, H16, length_drop. lia.
  - rewrite take_app_length' by done. done.
  - rewrite drop_app_length' by done. by rewrite take_app_length.
Qed.

Lemma ifreq_layout_witness :
  Ifreq_new (B "eth0") = Ok (B "eth0" ++ zeros 36) /\
  length (B "eth0" ++ zeros 36) = 40%nat.
Proof. split; [reflexivity|]. apply (ifreq_layout (B "eth0")). reflexivity. Defined.

(** The flags a request carries are those last written. *)
Lemma ifr_flags_written req n :
  length req = 40%nat -> (n < 65536)%N -> ifr_flags (set_ifru req (le16 n)) = n.
Proof.
  intros Hlen Hn. unfold ifr_flags, set_ifru, IFNAMSIZ.
  rewrite drop_app_length' by (rewrite length_take; lia).
  cbn [le16 app]. rewrite !code_of_N.
  - pose proof (N.div_mod n 256). lia.
  - apply N.Div0.div_lt_upper_bound. lia.
  - apply N.mod_lt. lia.
Qed.

(** Raising an interface sets two flags, lowering it clears them, and no other bit changes. *)
Lemma up_flags flags i : N.testbit (N.lor flags (N.lor IFF_UP IFF_RUNNING)) i =
  (N.testbit flags i || (i =? 0)%N || (i =? 6)%N).
Proof.
  rewrite N.lor_spec. rewrite <- orb_assoc. f_equal. unfold IFF_UP, IFF_RUNNING.
  change (N.lor 1 64) with (N.lor (2 ^ 0) (2 ^ 6)). rewrite N.lor_spec, !N.pow2_bits_eqb.
  by rewrite (N.eqb_sym 0), (N.eqb_sym 6).
Qed.

Lemma down_flags flags i : N.testbit (N.ldiff flags (N.lor IFF_UP IFF_RUNNING)) i =
  (N.testbit flags i && negb ((i =? 0)%N || (i =? 6)%N)).
Proof.
  rewrite N.ldiff_spec. do 2 f_equal. change (N.lor IFF_UP IFF_RUNNING) with (N.lor (2 ^ 0) (2 ^ 6)).
  rewrite N.lor_spec, !N.pow2_bits_eqb. by rewrite (N.eqb_sym 0), (N.eqb_sym 6).
Qed.

(** ** What a run of the agent did *)

Definition succeeded (h : History) : list Call :=
  omap (fun ca => if is_ok ca.2 then Some ca.1 else None) h.

(** From [g] to [g'] the history grew, and the successful calls of the new part are [cs]. *)
Definition effect (g g' : Guest) (cs : list Call) : Prop :=
  exists h, history g' = history g ++ h /\ succeeded h = cs.

Section effects.
Context (kernel : History -> Call -> Answer).

Lemma effect_refl g : effect g g [].
Proof. exists []. by rewrite app_nil_r. Qed.

Lemma effect_trans g1 g2 g3 a b : effect g1 g2 a -> effect g2 g3 b -> effect g1 g3 (a ++ b).
Proof.
  intros (h1 & E1 & <-) (h2 & E2 & <-). exists (h1 ++ h2).
  split; [by rewrite E2, E1, app_assoc|]. unfold succeeded. by rewrite omap_app.
Qed.

Lemma effect_log {E} msg g r g' : log (E := E) msg g = (r, g') -> effect g g' [].
Proof. intros [= <- <-]. exists []. by rewrite app_nil_r. Qed.

Lemma effect_logged g msg : effect g (MkGuest (history g) (logged g ++ [msg])) [].
Proof. exists []. by rewrite app_nil_r. Qed.

Lemma effect_call c g r g' : call kernel c g = (r, g') -> effect g g' (if is_ok r then [c] else []).
Proof. intros [= <- <-]. exists [(c, kernel (history g) c)]. cbn. by destruct (is_ok _). Qed.

Lemma effect_call_ c g r g' : call_ kernel c g = (r, g') -> effect g g' (if is_ok r then [c] else []).
Proof.
  unfold call_, se_bind. destruct (call kernel c g) as [[x|e] g1] eqn:E; apply effect_call in E;
    by intros [= <- <-].
Qed.

(** A string without NUL bytes is passed on; one with a NUL byte makes no call. *)
Lemma cstr_run s g : cstr s g = (Ok s, g) \/ exists e, cstr s g = (Err e, g).
Proof. unfold cstr. destruct (split_once NUL s) as [[a b]|]; eauto. Qed.

Ltac run_cstr :=
  repeat match goal with
  | |- context [cstr ?s ?g] => destruct (cstr_run s g) as [-> | [? ->]]; cbv beta iota
  end.

Lemma effect_mount_with_data s t f fl d g r g' :
  mount_with_data kernel s t f fl d g = (r, g') ->
  effect g g' (if is_ok r then [CMount (Some s) t (Some f) fl d] else []).
Proof.
  unfold mount_with_data, se_bind, se_ret. run_cstr; try (intros [= <- <-]; apply effect_refl).
  destruct d as [d|]; cbv beta iota; run_cstr; try (intros [= <- <-]; apply effect_refl); apply effect_call_.
Qed.

Lemma effect_mount s t f g r g' :
  mount kernel s t f g = (r, g') ->
  effect g g' (match r with Ok true => [CMount (Some s) t (Some f) 0 None] | _ => [] end).
Proof.
  unfold mount, se_bind, se_ret. run_cstr; try (intros [= <- <-]; apply effect_refl).
  unfold se_try. destruct (call kernel (CMount (Some s) t (Some f) 0 None) g) as [[x|e] g1] eqn:E; apply effect_call in E; cbn in E; cbv beta iota.
  - by intros [= <- <-].
  - destruct (is_errno e EBUSY); by intros [= <- <-].
Qed.

(** *** The call of a successful wrapper *)

Lemma mount_with_data_effect s t f fl d g g' :
  mount_with_data kernel s t f fl d g = (Ok tt, g') -> effect g g' [CMount (Some s) t (Some f) fl d].
Proof. apply effect_mount_with_data. Qed.

Lemma call_effect c g x g' : call_ kernel c g = (Ok x, g') -> effect g g' [c].
Proof. intros H. by apply effect_call_ in H. Qed.

Lemma cstr_Ok s g x g' : cstr s g = (Ok x, g') -> x = s /\ g' = g.
Proof. destruct (cstr_run s g) as [-> | [? ->]]; naive_solver. Qed.
End effects.

(** ** Which calls a computation makes *)

(** Whatever [m] returns, each of its successful calls satisfies [P]. *)
Definition makes {E A} (P : Call -> Prop) (m : SE Guest E A) : Prop :=
  forall g r g', m g = (r, g') -> exists cs, effect g g' cs /\ Forall P cs.

Section makes.
Context (kernel : History -> Call -> Answer) (P : Call -> Prop).

Lemma makes_ret {E A} (r : result A E) : makes P (se_ret r).
Proof. intros g r' g' [= _ <-]. exists []. split; [apply effect_refl|done]. Qed.

Lemma makes_log {E} msg : makes P (log (E := E) msg).
Proof. intros g r g' H%effect_log. by exists []. Qed.

Lemma makes_call c : P c -> makes P (call kernel c).
Proof. intros Hc g r g' H%effect_call. eexists. split; [exact H|]. destruct (is_ok r); by repeat constructor. Qed.

Lemma makes_bind {E A B} (m : SE Guest E A) (k : A -> SE Guest E B) :
  makes P m -> (forall a, makes P (k a)) -> makes P (se_bind m k).
Proof.
  intros Hm Hk g r g'. unfold se_bind. destruct (m g) as [[a|e] g1] eqn:E1; apply Hm in E1 as (cs & Hcs & HP).
  - intros (cs' & Hcs' & HP')%Hk. exists (cs ++ cs'). split; [by eapply effect_trans|by apply Forall_app].
  - intros [= _ <-]. eauto.
Qed.

Lemma makes_try {E F A} (m : SE Guest E A) : makes P m -> makes P (se_try (F := F) m).
Proof.
  intros Hm g r g'. unfold se_try. destruct (m g) as [r1 g1] eqn:E1. intros [= _ <-]. by eapply Hm.
Qed.

Lemma makes_call_ c : P c -> makes P (call_ kernel c).
Proof. intros Hc. apply makes_bind; [by apply makes_call|]. intros _. apply makes_ret. Qed.
End makes.

(** Walks through a computation down to its calls. *)
Ltac solve_makes :=
  repeat first [apply makes_ret|apply makes_log|apply makes_bind|apply makes_try|apply makes_call_|apply makes_call|intros ?].

(** *** Interface and route calls *)

Definition flag_call (c : Call) : Prop :=
  c = CSocket \/ exists req, c = CIoctlIf SIOCGIFFLAGS req \/ c = CIoctlIf SIOCSIFFLAGS req.
Definition link_call (c : Call) : Prop := c = CSocket \/ exists rq req, c = CIoctlIf rq req.
Definition route_call (c : Call) : Prop := c = CSocket \/ exists rq rt, c = CIoctlRt rq rt.

Lemma flag_is_link c : flag_call c -> link_call c.
Proof. intros [->|(req & [-> | ->])]; [by left|right; eauto..]. Qed.

Lemma change_flags_makes kernel f name : makes flag_call (change_flags kernel f name).
Proof.
  unfold change_flags, ioctl_ifreq. apply makes_bind; [apply makes_ret|]. intros req.
  solve_makes; unfold flag_call; eauto.
Qed.

Lemma set_if_addr_makes kernel name a : makes link_call (set_if_addr kernel name a).
Proof.
  unfold set_if_addr, ioctl_ifreq. apply makes_bind; [apply makes_ret|]. intros req.
  solve_makes; unfold link_call; eauto.
Qed.

Lemma set_if_netmask_makes kernel name a : makes link_call (set_if_netmask kernel name a).
Proof.
  unfold set_if_netmask, ioctl_ifreq. apply makes_bind; [apply makes_ret|]. intros req.
  solve_makes; unfold link_call; eauto.
Qed.

Lemma add_route_makes kernel gw : makes route_call (add_default_route kernel gw).
Proof. unfold add_default_route. solve_makes; unfold route_call; eauto. Qed.

Lemma del_route_makes kernel : makes route_call (del_default_route kernel).
Proof.
  unfold del_default_route.
  solve_makes; unfold route_call; eauto.
Qed.

(** *** The calls of a successful change *)

(** The request for an interface that exists under a short name. *)
Definition if_req (name : bytes) : bytes := default [] (match Ifreq_new name with Ok r => Some r | Err _ => None end).

Definition set_calls (rq : Ioctl) (name member : bytes) : list Call :=
  [CSocket; CIoctlIf rq (set_ifru (if_req name) member)].

Lemma ioctl_effect kernel rq req g a g' :
  ioctl_ifreq kernel rq req g = (Ok a, g') -> effect g g' [CSocket; CIoctlIf rq req].
Proof.
  intros H. apply se_bind_Ok in H as (x & g1 & H1%effect_call & H2%effect_call).
  exact (effect_trans _ _ _ _ _ H1 H2).
Qed.

Lemma set_if_addr_effect kernel name a g g' :
  set_if_addr kernel name a g = (Ok tt, g') -> effect g g' (set_calls SIOCSIFADDR name (sockaddr_in_bytes a)).
Proof.
  unfold set_if_addr, set_calls, if_req. intros H. apply se_bind_Ok in H as (req & g1 & [= -> ->] & H).
  apply se_bind_Ok in H as (x & g2 & H%ioctl_effect & Hr). by injection Hr as <-.
Qed.

Lemma set_if_netmask_effect kernel name a g g' :
  set_if_netmask kernel name a g = (Ok tt, g') -> effect g g' (set_calls SIOCSIFNETMASK name (sockaddr_in_bytes a)).
Proof.
  unfold set_if_netmask, set_calls, if_req. intros H. apply se_bind_Ok in H as (req & g1 & [= -> ->] & H).
  apply se_bind_Ok in H as (x & g2 & H%ioctl_effect & Hr). by injection Hr as <-.
Qed.

(** The flags written are made of the flags the kernel reported. *)
Lemma change_flags_effect kernel f name g g' :
  change_flags kernel f name g = (Ok tt, g') ->
  exists seen, effect g g' [CSocket; CIoctlIf SIOCGIFFLAGS (if_req name); CSocket;
    CIoctlIf SIOCSIFFLAGS (set_ifru seen (le16 (f (ifr_flags seen))))].
Proof.
  unfold change_flags, if_req. intros H. apply se_bind_Ok in H as (req & g1 & [= -> ->] & H).
  apply se_bind_Ok in H as (seen & g2 & H1%ioctl_effect & H).
  apply se_bind_Ok in H as (x & g3 & H2%ioctl_effect & Hr). injection Hr as <-.
  exists seen. exact (effect_trans _ _ _ _ _ H1 H2).
Qed.
