(* ===== verification/Overlay.v ===== *)
(** * The root of the guest ([crates/guest-agent/src/overlay.rs])

    A guest booted for a stage finds a read-only base at [/dev/vda], the layers of the stage and
    a writable scratch drive after it, and merges them into one overlay that becomes its root.

    The agent's mounts are calls of [GuestSys]; what a mounted overlay shows is read off its option
    string and the mounts before it, as overlayfs documents them. *)
From stdpp Require Import sorting.
From S2P Require Import Prelude Text Effects Sys GuestSys Cmdline Order.

Definition LAYERS_KEY : bytes := B "isopod.layers".
Definition UPPER_KEY : bytes := B "isopod.upper".
Definition UPPER_RAM : bytes := B "ram".
Definition STAGING : bytes := B "/mnt".
Definition LAYERS_DIR : bytes := B "/layers".
Definition SCRATCH_MNT : bytes := B "/overlay".
Definition UPPER_DIR : bytes := B "/overlay/upper".
Definition WORK_DIR : bytes := B "/overlay/work".

(** ** What the command line asks for *)

Inductive UpperMode : Type := Drive | Ram.
#[export] Instance UpperMode_eq_dec : EqDecision UpperMode.
Proof. solve_decision. Defined.

Definition show_upper (u : UpperMode) : bytes := match u with Drive => B "drive" | Ram => B "ram" end.

Definition parse_upper (cmdline : bytes) : UpperMode :=
  match value cmdline UPPER_KEY with
  | Some v => if beq v UPPER_RAM then Ram else Drive
  | None => Drive
  end.

(** A [usize], of 64 bits. *)
Definition parse_layers (cmdline : bytes) : option N :=
  match value cmdline LAYERS_KEY with
  | Some v => Some (default 0%N (parse_uint u64_max v))
  | None => None
  end.

(** ** Devices *)

Definition is_extra_virtio_disk (name : bytes) : bool :=
  match strip_prefix (B "vd") name with
  | Some suffix =>
      if negb (beq name (B "vda")) then negb (beq suffix []) && forallb is_ascii_lowercase suffix
      else false
  | None => false
  end.

(** The devices among the entries of [/dev]; [None] is an entry that cannot be read. *)
Definition extra_devices (dev : list (option bytes)) : list bytes :=
  map (app (B "/dev/")) (sort_bytes (List.filter is_extra_virtio_disk (map from_utf8_lossy (omap id dev)))).

Definition split_scratch_and_layers (extras : list bytes) (n_layers : N) : result (bytes * list bytes) IoError :=
  match List.last (map Some extras) None with
  | None => Err (io_error (B "no scratch block device past vda (need at least the scratch drive)"))
  | Some scratch =>
      let take_ := N.min n_layers (N.of_nat (length extras) - 1) in
      Ok (scratch, take (N.to_nat take_) extras)
  end.

(** ** The overlay's options *)

Definition layer_mountpoint (index : nat) : bytes := B "/layers/" ++ show_N (N.of_nat index).

(** [(1..=n).rev()] *)
Definition lowerdir_chain (n : nat) : bytes :=
  join (B ":") (map (fun i => B "/layers/" ++ show_N (N.of_nat i) ++ B "/upper") (rev (seq 1 n)) ++ [B "/"]).

Definition overlay_base (n_layers : nat) : bytes :=
  B "lowerdir=" ++ lowerdir_chain n_layers ++ B ",upperdir=" ++ UPPER_DIR ++ B ",workdir=" ++ WORK_DIR.

Definition annotate (e : IoError) (ctx : bytes) : IoError := io_error (ctx ++ B ": " ++ error_text e).

(** [{extras:?}] of device names, which hold nothing to escape. *)
Definition quote : ascii := ascii_of_N 34.
Definition show_debug (l : list bytes) : bytes :=
  B "[" ++ join (B ", ") (map (fun s => quote :: s ++ [quote]) l) ++ B "]".

Section overlay.
Context (kernel : History -> Call -> Answer).
(** The entries of [/dev]. *)
Context (dev : list (option bytes)).

Abbreviation G := (SE Guest IoError).
Abbreviation mount_with_data := (mount_with_data kernel).

(** [m.map_err(|e| annotate(e, ctx))?] *)
Definition within {A} (ctx : bytes) (m : G A) : G A := se_map_err (fun e => annotate e ctx) m.

(** [main.rs]: [mount_pseudo_filesystems]. *)
Definition PSEUDO_MOUNTS : list (bytes * bytes * bytes) :=
  [ (B "devtmpfs", B "/dev", B "devtmpfs"); (B "proc", B "/proc", B "proc"); (B "sysfs", B "/sys", B "sysfs") ].

Definition mount_pseudo (m : bytes * bytes * bytes) : G unit :=
  let '(source, target, fstype) := m in
  do! r := se_try (mount kernel source target fstype) in
  match r with
  | Ok _ => se_ret (Ok tt)
  | Err e => log (B "mount " ++ fstype ++ B " on " ++ target ++ B " failed: " ++ error_text e)
  end.
Definition mount_pseudo_filesystems : G unit := se_iter mount_pseudo PSEUDO_MOUNTS.

Definition enumerate_extra_block_devices : G (list bytes) :=
  do! _ := call kernel (CReadDir (B "/dev")) in se_ret (Ok (extra_devices dev)).

Definition mount_merged_overlay (n_layers : nat) : G unit :=
  let base := overlay_base n_layers in
  let with_redirect := base ++ B ",redirect_dir=on" in
  do! r := se_try (mount_with_data (B "overlay") STAGING (B "overlay") MS_NOATIME (Some with_redirect)) in
  match r with
  | Ok _ => se_ret (Ok tt)
  | Err e =>
      do! _ := log (B "overlay: redirect_dir=on rejected (" ++ error_text e ++ B "); retrying without it") in
      within (B "overlay mount at " ++ STAGING ++ B " (" ++ base ++ B ")")
        (mount_with_data (B "overlay") STAGING (B "overlay") MS_NOATIME (Some base))
  end.

(** A [usize] sum in a release build, which wraps. *)
Definition succ_usize (n : N) : N := (n + 1) mod (u64_max + 1).

(** The upper backing, and the devices of the layers. *)
Definition mount_upper (n_layers : N) (upper : UpperMode) (extras : list bytes) : G (list bytes) :=
  let found := N.of_nat (length extras) in
  match upper with
  | Drive =>
      do! sl := se_ret (split_scratch_and_layers extras n_layers) in
      do! _ := (if negb (found =? succ_usize n_layers)%N then
        log (B "overlay: layers=" ++ show_N n_layers ++ B " implies " ++ show_N (succ_usize n_layers) ++
             B " extra drive(s) but found " ++ show_N found ++ B " (" ++ show_debug extras ++
             B "); using the last as scratch and the first " ++ show_N (N.of_nat (length sl.2)) ++ B " as layers")
        else se_ret (Ok tt)) in
      do! _ := within (B "mount scratch " ++ sl.1 ++ B " at " ++ SCRATCH_MNT)
                 (mount_with_data sl.1 SCRATCH_MNT (B "ext4") MS_NOATIME None) in
      se_ret (Ok sl.2)
  | Ram =>
      do! _ := (if negb (found =? n_layers)%N then
        log (B "overlay: upper=ram layers=" ++ show_N n_layers ++ B " implies " ++ show_N n_layers ++
             B " layer drive(s) but found " ++ show_N found ++ B " (" ++ show_debug extras ++
             B "); using the first " ++ show_N n_layers ++ B " as layers")
        else se_ret (Ok tt)) in
      do! _ := within (B "mount tmpfs upper at " ++ SCRATCH_MNT)
                 (mount_with_data (B "tmpfs") SCRATCH_MNT (B "tmpfs") MS_NOATIME None) in
      se_ret (Ok (take (N.to_nat (N.min n_layers found)) extras))
  end.

Definition mount_layer (index : nat) (device : bytes) : G unit :=
  let mnt := layer_mountpoint index in
  do! _ := within (B "create layer mountpoint " ++ mnt) (call_ kernel (CCreateDirAll mnt)) in
  within (B "mount layer " ++ device ++ B " at " ++ mnt)
    (mount_with_data device mnt (B "ext4") (N.lor MS_RDONLY MS_NOATIME) None).

Fixpoint mount_layers (index : nat) (layers : list bytes) : G unit :=
  match layers with
  | [] => se_ret (Ok tt)
  | device :: r => do! _ := mount_layer index device in mount_layers (S index) r
  end.

Definition assemble (n_layers : N) (upper : UpperMode) : G unit :=
  do! private := se_try (make_root_private kernel) in
  do! _ := match private with
           | Err e => log (B "overlay: make_root_private failed (continuing): " ++ error_text e)
           | Ok _ => se_ret (Ok tt)
           end in
  do! extras := enumerate_extra_block_devices in
  do! layers := mount_upper n_layers upper extras in
  do! _ := call_ kernel (CCreateDirAll UPPER_DIR) in
  do! _ := call_ kernel (CCreateDirAll WORK_DIR) in
  do! _ := (if negb (length layers =? 0)%nat then
    within (B "mount tmpfs for layer mountpoints at " ++ LAYERS_DIR)
      (mount_with_data (B "tmpfs") LAYERS_DIR (B "tmpfs") MS_NOATIME None)
    else se_ret (Ok tt)) in
  do! _ := mount_layers 1 layers in
  do! _ := mount_merged_overlay (length layers) in
  do! _ := within (B "chdir to staging") (chdir kernel STAGING) in
  do! _ := within (B "pivot_root") (pivot_root kernel (B ".") (B ".")) in
  do! _ := within (B "detach old root") (umount_detach kernel (B ".")) in
  do! _ := within (B "chdir to new root") (chdir kernel (B "/")) in
  mount_pseudo_filesystems.

(** What [ASSEMBLY_ERROR] is set to. *)
Definition assemble_if_requested (g : Guest) : option bytes * Guest :=
  match call kernel (CRead (B "/proc/cmdline")) g with
  | (Err e, g) => (None, snd (log (E := IoError) (B "overlay: cannot read /proc/cmdline: " ++ error_text e) g))
  | (Ok cmdline, g) =>
      let upper := parse_upper cmdline in
      let requested := match parse_layers cmdline, upper with
                       | Some n, _ => Some n
                       | None, Ram => Some 0%N
                       | None, Drive => None
                       end in
      match requested with
      | None => (None, g)
      | Some n_layers =>
          let shape := B "layers=" ++ show_N n_layers ++ B ", upper=" ++ show_upper upper in
          match assemble n_layers upper g with
          | (Ok _, g) => (None, snd (log (E := IoError) (B "overlay: stage root assembled (" ++ shape ++ B ")") g))
          | (Err e, g) =>
              let msg := B "overlay-root assembly failed (" ++ shape ++ B "): " ++ error_text e in
              (Some msg, snd (log (E := IoError) (B "overlay: " ++ msg ++ B "; continuing on the read-only base root") g))
          end
      end
  end.
End overlay.

(** ** The calls of a successful assembly *)

Section effects.
Context (kernel : History -> Call -> Answer).

Lemma within_Ok {A} ctx (m : SE Guest IoError A) g x g' : within ctx m g = (Ok x, g') <-> m g = (Ok x, g').
Proof. apply se_map_err_Ok. Qed.

Lemma mount_pseudo_effect g r g' :
  mount_pseudo_filesystems kernel g = (r, g') ->
  exists cs, effect g g' cs /\ Forall (fun c => exists s t, c = CMount (Some s) t (Some s) 0 None) cs.
Proof.
  unfold mount_pseudo_filesystems. assert (H : Forall (fun m => m.1.1 = m.2) PSEUDO_MOUNTS) by repeat constructor.
  revert g. induction H as [|[[s t] f] l Hm Hl IH]; intros g; cbn [se_iter].
  { intros [= _ <-]. exists []. split; [apply effect_refl|done]. }
  unfold se_bind. destruct (mount_pseudo kernel (s, t, f) g) as [r1 g1] eqn:E.
  assert (Hstep : exists cs, effect g g1 cs /\ Forall (fun c => exists s t, c = CMount (Some s) t (Some s) 0 None) cs).
  { cbn in Hm. subst f. revert E. unfold mount_pseudo, se_bind, se_try.
    destruct (mount kernel s t s g) as [r2 g2] eqn:E2. apply effect_mount in E2.
    assert (Hf : Forall (fun c => exists s t, c = CMount (Some s) t (Some s) 0 None)
      (match r2 with Ok true => [CMount (Some s) t (Some s) 0 None] | _ => [] end))
      by (destruct r2 as [[]|]; repeat constructor; eauto).
    destruct r2 as [b|e]; [by intros [= _ <-]; eauto|].
    intros E. apply effect_log in E. pose proof (effect_trans _ _ _ _ _ E2 E). eauto. }
  destruct Hstep as (cs & Hcs & Hf). destruct r1 as [x|e].
  - intros Hr. destruct (IH _ Hr) as (cs' & Hcs' & Hf'). exists (cs ++ cs').
    split; [by eapply effect_trans|by apply Forall_app].
  - intros [= _ <-]. eauto.
Qed.

Definition layer_calls (i : nat) (device : bytes) : list Call :=
  [ CCreateDirAll (layer_mountpoint i);
    CMount (Some device) (layer_mountpoint i) (Some (B "ext4")) (N.lor MS_RDONLY MS_NOATIME) None ].

Fixpoint layers_calls (i : nat) (layers : list bytes) : list Call :=
  match layers with [] => [] | d :: r => layer_calls i d ++ layers_calls (S i) r end.

Lemma mount_layers_effect layers i g g' :
  mount_layers kernel i layers g = (Ok tt, g') -> effect g g' (layers_calls i layers).
Proof.
  revert i g. induction layers as [|d layers IH]; intros i g; cbn [mount_layers layers_calls].
  { intros [= <-]. apply effect_refl. }
  intros H. apply se_bind_Ok in H as ([] & g1 & H1 & H2).
  apply se_bind_Ok in H1 as ([] & g0 & Hd%within_Ok & Hm%within_Ok).
  apply (effect_trans _ g1); [|by apply IH].
  apply (effect_trans _ g0 _ [_]); [by apply call_effect in Hd|by eapply mount_with_data_effect].
Qed.

Lemma merged_effect n g g' :
  mount_merged_overlay kernel n g = (Ok tt, g') ->
  exists redirect, effect g g' [CMount (Some (B "overlay")) STAGING (Some (B "overlay")) MS_NOATIME
    (Some (overlay_base n ++ (if redirect : bool then B ",redirect_dir=on" else [])))].
Proof.
  unfold mount_merged_overlay. intros H. apply se_bind_Ok in H as (r & g1 & H1 & H). rewrite se_try_Ok in H1.
  apply effect_mount_with_data in H1. destruct r as [x|e].
  - exists true. by injection H as <-.
  - exists false. rewrite app_nil_r. apply se_bind_Ok in H as ([] & g2 & Hl%effect_log & H%within_Ok).
    apply mount_with_data_effect in H.
    exact (effect_trans _ _ _ _ _ H1 (effect_trans _ _ _ _ _ Hl H)).
Qed.

(** The upper backing of each mode, and the devices that are taken for layers. *)
Definition upper_call (upper : UpperMode) (scratch : bytes) : Call :=
  match upper with
  | Drive => CMount (Some scratch) SCRATCH_MNT (Some (B "ext4")) MS_NOATIME None
  | Ram => CMount (Some (B "tmpfs")) SCRATCH_MNT (Some (B "tmpfs")) MS_NOATIME None
  end.

Definition chosen (n : N) (upper : UpperMode) (extras layers : list bytes) (scratch : bytes) : Prop :=
  match upper with
  | Drive => exists before, extras = before ++ [scratch] /\ layers = take (N.to_nat (N.min n (N.of_nat (length before)))) before
  | Ram => layers = take (N.to_nat (N.min n (N.of_nat (length extras)))) extras
  end.

Lemma split_scratch_Ok extras n scratch layers :
  split_scratch_and_layers extras n = Ok (scratch, layers) <-> chosen n Drive extras layers scratch.
Proof.
  unfold split_scratch_and_layers, chosen. destruct extras as [|x before] using rev_ind.
  - split; [done|]. intros (before & E & _). by destruct before.
  - rewrite map_app. cbn [map]. rewrite List.last_last. rewrite length_app. cbn [length].
    assert (Hlen : (N.of_nat (length before + 1) - 1 = N.of_nat (length before))%N) by lia. rewrite Hlen.
    assert (Htake : take (N.to_nat (N.min n (N.of_nat (length before)))) (before ++ [x]) =
                    take (N.to_nat (N.min n (N.of_nat (length before)))) before) by (rewrite take_app_le; [done|lia]).
    rewrite Htake. split.
    + intros [= <- <-]. by exists before.
    + intros (before' & E & ->). apply app_inj_tail in E as [-> ->]. done.
Qed.

Lemma mount_upper_effect n upper extras g layers g' :
  mount_upper kernel n upper extras g = (Ok layers, g') ->
  exists scratch, chosen n upper extras layers scratch /\ effect g g' [upper_call upper scratch].
Proof.
  destruct upper; cbn [mount_upper]; intros H.
  - apply se_bind_Ok in H as ([scratch ls] & g1 & [= Hs ->] & H). apply split_scratch_Ok in Hs.
    apply se_bind_Ok in H as ([] & g2 & Hl & H). apply se_bind_Ok in H as ([] & g3 & Hm%within_Ok & H).
    injection H as <- <-. exists scratch. split; [done|]. apply mount_with_data_effect in Hm.
    destruct (negb _); [|by injection Hl as ->].
    apply effect_log in Hl. exact (effect_trans _ _ _ _ _ Hl Hm).
  - apply se_bind_Ok in H as ([] & g2 & Hl & H). apply se_bind_Ok in H as ([] & g3 & Hm%within_Ok & H).
    injection H as <- <-. exists []. split; [done|]. apply mount_with_data_effect in Hm.
    destruct (negb _); [|by injection Hl as ->].
    apply effect_log in Hl. exact (effect_trans _ _ _ _ _ Hl Hm).
Qed.

(** The last calls: into the merged view, which becomes the root while the old one is detached. *)
Definition pivot_calls : list Call :=
  [CChdir STAGING; CPivotRoot (B ".") (B "."); CUmount (B ".") MNT_DETACH; CChdir (B "/")].

Lemma pivot_effect g g' :
  (do! _ := within (B "chdir to staging") (chdir kernel STAGING) in
   do! _ := within (B "pivot_root") (pivot_root kernel (B ".") (B ".")) in
   do! _ := within (B "detach old root") (umount_detach kernel (B ".")) in
   do! _ := within (B "chdir to new root") (chdir kernel (B "/")) in
   mount_pseudo_filesystems kernel) g = (Ok tt, g') ->
  exists pseudo, effect g g' (pivot_calls ++ pseudo) /\
    Forall (fun c => exists s t, c = CMount (Some s) t (Some s) 0 None) pseudo.
Proof.
  assert (Hc : forall c k g1 g2, (do! x := cstr c in call_ kernel (k x)) g1 = (Ok tt, g2) -> effect g1 g2 [k c]).
  { intros c k g1 g2 H. apply se_bind_Ok in H as (x & g0 & [-> ->]%cstr_Ok & H). by apply call_effect in H. }
  intros H. apply se_bind_Ok in H as ([] & g1 & H1%within_Ok%Hc & H).
  apply se_bind_Ok in H as ([] & g2 & H2%within_Ok & H).
  apply se_bind_Ok in H2 as (? & g0 & [-> ->]%cstr_Ok & H2%Hc).
  apply se_bind_Ok in H as ([] & g3 & H3%within_Ok%(Hc _ (fun t => CUmount t MNT_DETACH)) & H).
  apply se_bind_Ok in H as ([] & g4 & H4%within_Ok%Hc & H).
  apply mount_pseudo_effect in H as (cs & H5 & Hf). exists cs. split; [|done].
  exact (effect_trans _ _ _ _ _ H1 (effect_trans _ _ _ _ _ H2 (effect_trans _ _ _ _ _ H3 (effect_trans _ _ _ _ _ H4 H5)))).
Qed.

(** The calls that prepare the mounts of an overlay over the chosen devices. *)
Definition prepare_calls (upper : UpperMode) (scratch : bytes) (layers : list bytes) : list Call :=
  [CReadDir (B "/dev"); upper_call upper scratch; CCreateDirAll UPPER_DIR; CCreateDirAll WORK_DIR] ++
  (match layers with [] => [] | _ => [CMount (Some (B "tmpfs")) LAYERS_DIR (Some (B "tmpfs")) MS_NOATIME None] end) ++
  layers_calls 1 layers.

Definition merge_call (n : nat) (redirect : bool) : Call :=
  CMount (Some (B "overlay")) STAGING (Some (B "overlay")) MS_NOATIME
    (Some (overlay_base n ++ (if redirect then B ",redirect_dir=on" else []))).

Lemma assemble_effect dev n upper g g' :
  assemble kernel dev n upper g = (Ok tt, g') ->
  exists private scratch layers redirect pseudo,
    chosen n upper (extra_devices dev) layers scratch /\
    effect g g' (private ++ prepare_calls upper scratch layers ++ merge_call (length layers) redirect :: pivot_calls ++ pseudo) /\
    Forall (fun c => c = CMount None (B "/") None (N.lor MS_REC MS_PRIVATE) None) private /\
    Forall (fun c => exists s t, c = CMount (Some s) t (Some s) 0 None) pseudo.
Proof.
  intros H. unfold assemble in H.
  apply se_bind_Ok in H as (pr & g1 & H1 & H). rewrite se_try_Ok in H1.
  assert (Hp : exists private, effect g g1 private /\
    Forall (fun c => c = CMount None (B "/") None (N.lor MS_REC MS_PRIVATE) None) private).
  { unfold make_root_private, se_bind in H1. rewrite cstr_ok in H1 by (by apply contains_false).
    apply effect_call_ in H1. destruct (is_ok pr); eexists; (split; [exact H1|]); cbn; repeat constructor. }
  destruct Hp as (private & Hp & Hpf).
  apply se_bind_Ok in H as ([] & g2 & H2 & H).
  assert (H2' : effect g1 g2 []) by (destruct pr; [injection H2 as <-; apply effect_refl|by apply effect_log in H2]).
  apply se_bind_Ok in H as (extras & g3 & H3 & H).
  apply se_bind_Ok in H3 as (x & g3' & H3%effect_call & Hx). injection Hx as <- <-. cbn [is_ok] in H3.
  apply se_bind_Ok in H as (layers & g4 & (scratch & Hch & H4)%mount_upper_effect & H).
  apply se_bind_Ok in H as ([] & g5 & H5%call_effect & H).
  apply se_bind_Ok in H as ([] & g6 & H6%call_effect & H).
  apply se_bind_Ok in H as ([] & g7 & H7 & H).
  assert (H7' : effect g6 g7 (match layers with [] => [] | _ => [CMount (Some (B "tmpfs")) LAYERS_DIR (Some (B "tmpfs")) MS_NOATIME None] end)).
  { destruct layers; cbn in H7; [injection H7 as <-; apply effect_refl|].
    rewrite within_Ok in H7. by eapply mount_with_data_effect. }
  apply se_bind_Ok in H as ([] & g8 & H8%mount_layers_effect & H).
  apply se_bind_Ok in H as ([] & g9 & (redirect & H9)%merged_effect & H).
  apply pivot_effect in H as (pseudo & H10 & Hps).
  exists private, scratch, layers, redirect, pseudo. split_and!; [done| |done|done].
  pose proof (effect_trans _ _ _ _ _ H9 H10) as T. pose proof (effect_trans _ _ _ _ _ H8 T) as T8.
  pose proof (effect_trans _ _ _ _ _ H7' T8) as T7. pose proof (effect_trans _ _ _ _ _ H6 T7) as T6.
  pose proof (effect_trans _ _ _ _ _ H5 T6) as T5. pose proof (effect_trans _ _ _ _ _ H4 T5) as T4.
  pose proof (effect_trans _ _ _ _ _ H3 T4) as T3. pose proof (effect_trans _ _ _ _ _ H2' T3) as T2.
  pose proof (effect_trans _ _ _ _ _ Hp T2) as T1. unfold prepare_calls. rewrite <- !app_assoc. exact T1.
Qed.
End effects.

(** ** What the merged root shows *)

(** A directory of a mounted device, or of the root the guest booted with, which has no device
    here. *)
Record Place : Type := MkPlace { device : option bytes; read_only : bool; inside : bytes }.

(** The mounts among the calls: target, source, and whether it was read-only. *)
Definition mount_of (c : Call) : option (bytes * bytes * bool) :=
  match c with CMount (Some s) t (Some _) fl _ => Some (t, s, N.testbit fl 0) | _ => None end.

(** The rest of a path below a mount point. *)
Definition below (target p : bytes) : option bytes :=
  if beq target p then Some (B "/")
  else option_map (cons "/"%char) (strip_prefix (target ++ B "/") p).

(** The latest mount is on top. *)
Fixpoint place_among (latest_first : list (bytes * bytes * bool)) (p : bytes) : option Place :=
  match latest_first with
  | [] => None
  | (t, s, ro) :: r =>
      match below t p with Some rest => Some (MkPlace (Some s) ro rest) | None => place_among r p end
  end.

Definition place (before : list Call) (p : bytes) : Place :=
  default (MkPlace None false p) (place_among (rev (omap mount_of before)) p).

(** The layers of an overlay, the first on top. *)
Record Stack : Type := MkStack { lower : list Place; upper : Place; work : Place }.

(** What the options of an overlay mount select, given the calls before it. *)
Definition stack_of (before : list Call) (data : bytes) : option Stack :=
  let opts := split "," data in
  match find_value (B "lowerdir") opts, find_value (B "upperdir") opts, find_value (B "workdir") opts with
  | Some l, Some u, Some w => Some (MkStack (map (place before) (split ":" l)) (place before u) (place before w))
  | _, _, _ => None
  end.

(** The overlay staged by a sequence of calls. *)
Fixpoint staged_after (before cs : list Call) : option Stack :=
  match cs with
  | [] => None
  | CMount (Some s) t (Some f) fl (Some d) as c :: r =>
      if beq t STAGING && beq f (B "overlay") then stack_of before d else staged_after (before ++ [c]) r
  | c :: r => staged_after (before ++ [c]) r
  end.
Definition staged (cs : list Call) : option Stack := staged_after [] cs.

(** The overlay the stage contract asks for: the layers from the last to the first over the base,
    each its [/upper] directory and read-only, and a writable backing. *)
Definition stage_stack (backing : bytes) (layers : list bytes) : Stack :=
  MkStack (map (fun d => MkPlace (Some d) true (B "/upper")) (rev layers) ++ [MkPlace None false (B "/")])
    (MkPlace (Some backing) false (B "/upper")) (MkPlace (Some backing) false (B "/work")).

Lemma place_among_app a b p :
  place_among (a ++ b) p = match place_among a p with Some x => Some x | None => place_among b p end.
Proof.
  induction a as [|[[t s] ro] a IH]; [done|]. cbn [app place_among]. by destruct (below t p).
Qed.

Lemma strip_prefix_app a x y : strip_prefix (a ++ x) (a ++ y) = strip_prefix x y.
Proof. induction a as [|c a IH]; [done|]. cbn. by rewrite Ascii.eqb_refl. Qed.

Lemma slash_not_digit n : "/"%char ∉ show_N n.
Proof. intros H. pose proof (show_N_digits n) as Hd. rewrite forallb_Forall, Forall_forall in Hd. by apply Hd in H. Qed.

Lemma show_N_eq a b : show_N a = show_N b -> a = b.
Proof. intros H. rewrite <- (value_of_show_N a), <- (value_of_show_N b). by rewrite H. Qed.

Definition layer_dir (k : nat) : bytes := B "/layers/" ++ show_N (N.of_nat k) ++ B "/upper".

Lemma below_layer j k :
  below (layer_mountpoint j) (layer_dir k) = if Nat.eqb j k then Some (B "/upper") else None.
Proof.
  unfold below, layer_mountpoint, layer_dir.
  assert (Hne : beq (B "/layers/" ++ show_N (N.of_nat j)) (B "/layers/" ++ show_N (N.of_nat k) ++ B "/upper") = false).
  { apply not_true_iff_false. rewrite beq_true. intros E%app_inv_head. apply (slash_not_digit (N.of_nat j)).
    rewrite E. set_solver. }
  rewrite Hne, <- app_assoc, strip_prefix_app. destruct (Nat.eqb_spec j k) as [->|Hjk].
  - rewrite strip_prefix_app. reflexivity.
  - destruct (strip_prefix _ _) as [r|] eqn:E; [|done]. apply strip_prefix_Some in E. exfalso. apply Hjk.
    pose proof (split_once_app "/" (show_N (N.of_nat k)) (B "upper") (slash_not_digit _)) as H1.
    change ("/"%char :: B "upper") with (B "/upper") in H1. rewrite E, <- app_assoc in H1.
    change (B "/" ++ r) with ("/"%char :: r) in H1. rewrite split_once_app in H1 by apply slash_not_digit.
    injection H1 as H1 _. apply show_N_eq in H1. lia.
Qed.

Fixpoint layer_mounts (i : nat) (layers : list bytes) : list (bytes * bytes * bool) :=
  match layers with [] => [] | d :: r => (layer_mountpoint i, d, true) :: layer_mounts (S i) r end.

Lemma layers_mounts i layers : omap mount_of (layers_calls i layers) = layer_mounts i layers.
Proof. revert i. induction layers as [|d layers IH]; intros i; [done|]. cbn. by rewrite IH. Qed.

Lemma place_later l m i : (i < m)%nat -> place_among (rev (layer_mounts m l)) (layer_dir i) = None.
Proof.
  revert m. induction l as [|y l IH]; intros m Hm; [done|]. cbn [layer_mounts rev].
  rewrite place_among_app, IH by lia. cbn [place_among]. rewrite below_layer.
  by destruct (Nat.eqb_spec m i); [lia|].
Qed.

(** Below the mount point of a layer is its device, whatever was mounted before and after. *)
Lemma place_layers i layers k d :
  layers !! k = Some d ->
  place_among (rev (layer_mounts i layers)) (layer_dir (i + k)) = Some (MkPlace (Some d) true (B "/upper")).
Proof.
  revert i k. induction layers as [|x layers IH]; intros i k; [done|]. cbn [layer_mounts rev].
  rewrite place_among_app. destruct k as [|k]; cbn [lookup list_lookup].
  - intros [= ->]. rewrite Nat.add_0_r, place_later by lia. cbn [place_among].
    by rewrite below_layer, Nat.eqb_refl.
  - intros Hk. rewrite <- Nat.add_succ_comm. by rewrite (IH _ _ Hk).
Qed.

Lemma place_not_layers i layers p :
  (forall j, below (layer_mountpoint j) p = None) -> place_among (rev (layer_mounts i layers)) p = None.
Proof.
  intros Hp. revert i. induction layers as [|x layers IH]; intros i; [done|]. cbn [layer_mounts rev].
  rewrite place_among_app, IH. cbn [place_among]. by rewrite Hp.
Qed.

Definition upper_source (upper : UpperMode) (scratch : bytes) : bytes :=
  match upper with Drive => scratch | Ram => B "tmpfs" end.

Section merged.
Context (private : list Call) (u : UpperMode) (scratch : bytes) (layers : list bytes).
Hypothesis Hprivate : Forall (fun c => c = CMount None (B "/") None (N.lor MS_REC MS_PRIVATE) None) private.

Abbreviation pre := (private ++ prepare_calls u scratch layers).

Lemma pre_mounts :
  omap mount_of pre = (SCRATCH_MNT, upper_source u scratch, false) ::
    match layers with [] => [] | _ => [(LAYERS_DIR, B "tmpfs", false)] end ++ layer_mounts 1 layers.
Proof.
  rewrite omap_app. assert (Hp : omap mount_of private = []).
  { induction Hprivate as [|c l -> Hl IH]; [done|]. exact (IH Hl). }
  rewrite Hp. unfold prepare_calls. rewrite !omap_app, layers_mounts. by destruct u, layers.
Qed.

Lemma place_in_pre p : place pre p =
  default (MkPlace None false p)
    (match place_among (rev (layer_mounts 1 layers)) p with
     | Some x => Some x
     | None => place_among (match layers with [] => [] | _ => [(LAYERS_DIR, B "tmpfs", false)] end ++
                            [(SCRATCH_MNT, upper_source u scratch, false)]) p
     end).
Proof.
  unfold place. rewrite pre_mounts. f_equal.
  change (?x :: ?l) with ([x] ++ l). rewrite !rev_app_distr, <- !app_assoc, place_among_app.
  by destruct layers.
Qed.

Lemma below_layer_none p j : head p = Some "/"%char -> starts_with (B "/layers/") p = false ->
  below (layer_mountpoint j) p = None.
Proof.
  intros _ Hs. unfold below, layer_mountpoint.
  assert (Hno : forall r, p <> B "/layers/" ++ r).
  { intros r ->. apply not_true_iff_false in Hs. apply Hs. apply starts_with_true. eauto. }
  destruct (beq _ p) eqn:E; [apply beq_true in E; by destruct (Hno (show_N (N.of_nat j)))|].
  destruct (strip_prefix _ p) as [r|] eqn:Er; [|done]. apply strip_prefix_Some in Er.
  rewrite <- !app_assoc in Er. by destruct (Hno (show_N (N.of_nat j) ++ B "/" ++ r)).
Qed.

(** The places the options name. *)
Lemma place_layer k d : layers !! k = Some d -> place pre (layer_dir (S k)) = MkPlace (Some d) true (B "/upper").
Proof. intros Hk. rewrite place_in_pre. pose proof (place_layers 1 _ _ _ Hk) as H. cbn [Nat.add] in H. by rewrite H. Qed.

Lemma place_rest p : starts_with (B "/layers/") p = false -> head p = Some "/"%char ->
  place pre p = default (MkPlace None false p)
    (place_among (match layers with [] => [] | _ => [(LAYERS_DIR, B "tmpfs", false)] end ++
                  [(SCRATCH_MNT, upper_source u scratch, false)]) p).
Proof.
  intros Hp Hh. rewrite place_in_pre, place_not_layers; [done|]. intros j. by apply below_layer_none.
Qed.

Lemma places_of_chain :
  map (place pre) (map layer_dir (rev (seq 1 (length layers)))) =
  map (fun d => MkPlace (Some d) true (B "/upper")) (rev layers).
Proof.
  rewrite map_map, !map_rev. f_equal.
  assert (H : forall l k, (forall j d, l !! j = Some d -> layers !! (k + j)%nat = Some d) ->
    map (fun x => place pre (layer_dir x)) (seq (S k) (length l)) =
    map (fun d => MkPlace (Some d) true (B "/upper")) l).
  { induction l as [|d l IH]; intros k Hl; [done|]. cbn [length seq map]. f_equal.
    - apply place_layer. rewrite <- (Nat.add_0_r k). by apply Hl.
    - apply (IH (S k)). intros j x Hj. rewrite Nat.add_succ_comm. by apply Hl. }
  by apply (H layers 0%nat).
Qed.

Lemma lowerdir_split n : split ":" (lowerdir_chain n) = map layer_dir (rev (seq 1 n)) ++ [B "/"].
Proof.
  unfold lowerdir_chain. apply split_join; [by destruct (map _ _)|].
  apply Forall_app. split; [|repeat constructor; by apply contains_false].
  apply Forall_forall. intros p (k & <- & _)%list_elem_of_In%in_map_iff.
  unfold layer_dir. rewrite !not_elem_of_app. split_and!; [by apply contains_false| |by apply contains_false].
  intros H. pose proof (show_N_digits (N.of_nat k)) as Hd. rewrite forallb_Forall, Forall_forall in Hd. by apply Hd in H.
Qed.

Lemma chain_no_comma n : ","%char ∉ lowerdir_chain n.
Proof.
  rewrite <- (join_split ":" (lowerdir_chain n)), lowerdir_split. intros H.
  assert (Hj : forall l, ","%char ∈ join [":"%char] l -> exists p, p ∈ l /\ ","%char ∈ p).
  { induction l as [|p l IH]; [set_solver|]. destruct l as [|q l]; [cbn; set_solver|].
    change (join [":"%char] (p :: q :: l)) with (p ++ [":"%char] ++ join [":"%char] (q :: l)).
    rewrite !elem_of_app. intros [?|[?|?]]; [set_solver|set_solver|]. destruct IH as (x & ? & ?); [done|]. set_solver. }
  apply Hj in H as (p & [Hp|Hp]%elem_of_app & Hc).
  - apply list_elem_of_In, in_map_iff in Hp as (k & <- & _). unfold layer_dir in Hc.
    rewrite !elem_of_app in Hc. destruct Hc as [Hc|[Hc|Hc]].
    1,3: by apply contains_true in Hc.
    pose proof (show_N_digits (N.of_nat k)) as Hd. rewrite forallb_Forall, Forall_forall in Hd. by apply Hd in Hc.
  - apply list_elem_of_singleton in Hp as ->. by apply contains_true in Hc.
Qed.

(** The merge reads its own option string as the contract asks. *)
Lemma merge_stack redirect :
  stack_of pre (overlay_base (length layers) ++ (if redirect : bool then B ",redirect_dir=on" else [])) =
  Some (stage_stack (upper_source u scratch) layers).
Proof.
  unfold stack_of, overlay_base.
  assert (Hopts : split "," ((B "lowerdir=" ++ lowerdir_chain (length layers) ++ B ",upperdir=" ++ UPPER_DIR ++
      B ",workdir=" ++ WORK_DIR) ++ (if redirect then B ",redirect_dir=on" else [])) =
    (B "lowerdir" ++ "="%char :: lowerdir_chain (length layers)) ::
    (B "upperdir" ++ "="%char :: UPPER_DIR) :: (B "workdir" ++ "="%char :: WORK_DIR) ::
    (if redirect then [B "redirect_dir=on"] else [])).
  { rewrite <- !app_assoc.
    change (B ",upperdir=" ++ ?r) with (","%char :: B "upperdir=" ++ r).
    rewrite app_assoc, split_app.
    - f_equal. by destruct redirect.
    - rewrite not_elem_of_app. split; [by apply contains_false|apply chain_no_comma]. }
  rewrite Hopts. rewrite !find_value_pair by (by apply contains_false).
  change (beq (B "lowerdir") (B "lowerdir")) with true. change (beq (B "lowerdir") (B "upperdir")) with false.
  change (beq (B "lowerdir") (B "workdir")) with false. change (beq (B "upperdir") (B "upperdir")) with true.
  change (beq (B "upperdir") (B "workdir")) with false. change (beq (B "workdir") (B "workdir")) with true.
  cbv iota. f_equal. rewrite lowerdir_split, map_app, places_of_chain. unfold stage_stack. f_equal.
  - f_equal. cbn [map]. rewrite place_rest by done. by destruct layers, u.
  - rewrite place_rest by done. by destruct layers, u.
  - rewrite place_rest by done. by destruct layers, u.
Qed.
End merged.

Lemma staged_skip before cs r :
  Forall (fun c => match c with CMount (Some _) _ (Some _) _ (Some _) => False | _ => True end) cs ->
  staged_after before (cs ++ r) = staged_after (before ++ cs) r.
Proof.
  intros H. revert before. induction H as [|c cs Hc Hcs IH]; intros before; [by rewrite app_nil_r|].
  cbn [app]. rewrite (app_cons_assoc before c cs) || idtac.
  assert (Hstep : staged_after before (c :: cs ++ r) = staged_after (before ++ [c]) (cs ++ r))
    by (by destruct c as [[s|] t [f|] fl [d|]| | | | | | | | | | |]).
  rewrite Hstep, IH, <- app_assoc. done.
Qed.

Lemma assembled_root_steps kernel dev n u g g'
  (H : assemble kernel dev n u g = (Ok tt, g')) :
  exists scratch layers before pseudo,
    chosen n u (extra_devices dev) layers scratch /\
    effect g g' (before ++ pivot_calls ++ pseudo) /\
    staged before = Some (stage_stack (upper_source u scratch) layers) /\
    Forall (fun c => exists s t, c = CMount (Some s) t (Some s) 0 None) pseudo.
Proof.
  destruct (assemble_effect _ _ _ _ _ _ H) as (private & scratch & layers & redirect & pseudo & Hch & He & Hp & Hps).
  exists scratch, layers, (private ++ prepare_calls u scratch layers ++ [merge_call (length layers) redirect]), pseudo.
  split_and!; [done|by rewrite <- !app_assoc| |done].
  unfold staged. rewrite (app_assoc private), staged_skip.
  - cbn [app staged_after merge_call]. change (beq STAGING STAGING && beq (B "overlay") (B "overlay")) with true.
    cbv iota. by apply merge_stack.
  - apply Forall_app. split; [eapply Forall_impl; [exact Hp|by intros c ->]|].
    unfold prepare_calls. rewrite !Forall_app. split_and!.
    + repeat constructor. by destruct u.
    + destruct layers; by repeat constructor.
    + clear. generalize 1%nat. induction layers as [|d l IH]; intros i; [constructor|]. cbn [layers_calls layer_calls app].
      apply Forall_cons; split; [done|]. apply Forall_cons; split; [done|]. apply IH.
Qed.

(** An assembly that succeeds has staged exactly the overlay of the stage contract, over the
    devices the command line's count selects (the last one is the scratch drive, or in guest memory
    there is none), and after that has only moved into it: [chdir], [pivot_root], the detachment of
    the old root, [chdir], and the pseudo-filesystems. *)
Theorem assembled_root kernel dev n u g g'
  (H : assemble kernel dev n u g = (Ok tt, g')) :
  exists scratch layers before pseudo,
    chosen n u (extra_devices dev) layers scratch /\
    effect g g' (before ++ pivot_calls ++ pseudo) /\
    staged before = Some (stage_stack (upper_source u scratch) layers) /\
    Forall (fun c => exists s t, c = CMount (Some s) t (Some s) 0 None) pseudo.
Proof. exact (assembled_root_steps _ _ _ _ _ _ H). Qed.

(** ** An assembly ends well when the kernel lets it *)

Section all_ok.
Context (kernel : History -> Call -> Answer) (dev : list (option bytes)).
Hypothesis Hok : forall h c, exists r, kernel h c = Ok r.

Lemma call_all_ok c g : exists r g', call kernel c g = (Ok r, g').
Proof. unfold call. destruct (Hok (history g) c) as [r ->]. eauto. Qed.

Lemma call__all_ok c g : exists g', call_ kernel c g = (Ok tt, g').
Proof. unfold call_, se_bind. destruct (call_all_ok c g) as (r & g' & ->). eauto. Qed.

Lemma mount_all_ok s t f fl d g : NUL ∉ s -> NUL ∉ t -> NUL ∉ f ->
  match d with Some d => NUL ∉ d | None => True end ->
  exists g', mount_with_data kernel s t f fl d g = (Ok tt, g').
Proof.
  intros Hs Ht Hf Hd. unfold mount_with_data, se_bind. rewrite !cstr_ok by done.
  destruct d as [d|]; [rewrite cstr_ok by done|]; apply call__all_ok.
Qed.

Lemma layer_mountpoint_no_NUL i : NUL ∉ layer_mountpoint i.
Proof.
  unfold layer_mountpoint. rewrite not_elem_of_app. split; [by apply contains_false|]. intros H.
  pose proof (show_N_digits (N.of_nat i)) as Hd. rewrite forallb_Forall, Forall_forall in Hd. by apply Hd in H.
Qed.

Lemma layers_all_ok i layers g : Forall (fun d => NUL ∉ d) layers ->
  exists g', mount_layers kernel i layers g = (Ok tt, g').
Proof.
  intros H. revert i g. induction H as [|d l Hd Hl IH]; intros i g; cbn [mount_layers]; [eauto|].
  unfold se_bind at 1. unfold mount_layer, se_bind, within, se_map_err.
  destruct (call__all_ok (CCreateDirAll (layer_mountpoint i)) g) as (g1 & ->). cbn [map_err].
  destruct (mount_all_ok d (layer_mountpoint i) (B "ext4") (N.lor MS_RDONLY MS_NOATIME) None g1) as (g2 & ->);
    [done|apply layer_mountpoint_no_NUL|by apply contains_false|done|]. apply IH.
Qed.

Lemma overlay_base_no_NUL n t : NUL ∉ t -> NUL ∉ overlay_base n ++ t.
Proof.
  intros Ht. unfold overlay_base. rewrite !not_elem_of_app. split_and!; try by apply contains_false.
  2: done. unfold lowerdir_chain. intros H.
  assert (Hj : forall l, Forall (fun p => NUL ∉ p) l -> NUL ∉ join (B ":") l).
  { induction 1 as [|p l Hp Hl IH]; [by apply contains_false|]. destruct l as [|q l]; [done|].
    change (join (B ":") (p :: q :: l)) with (p ++ B ":" ++ join (B ":") (q :: l)).
    rewrite !not_elem_of_app. split_and!; [done|by apply contains_false|done]. }
  revert H. apply Hj, Forall_app. split; [|repeat constructor; by apply contains_false].
  apply Forall_forall. intros p (k & <- & _)%list_elem_of_In%in_map_iff.
  rewrite app_assoc, not_elem_of_app. split; [apply layer_mountpoint_no_NUL|by apply contains_false].
Qed.

Lemma merged_all_ok n g : exists g', mount_merged_overlay kernel n g = (Ok tt, g').
Proof.
  unfold mount_merged_overlay, se_bind, se_try.
  destruct (mount_all_ok (B "overlay") STAGING (B "overlay") MS_NOATIME
    (Some (overlay_base n ++ B ",redirect_dir=on")) g) as (g1 & ->); try by apply contains_false.
  - by apply overlay_base_no_NUL, contains_false.
  - eexists. reflexivity.
Qed.

Lemma pseudo_all_ok g : exists g', mount_pseudo_filesystems kernel g = (Ok tt, g').
Proof.
  unfold mount_pseudo_filesystems. generalize PSEUDO_MOUNTS. intros l. revert g.
  induction l as [|[[s t] f] l IH]; intros g; cbn [se_iter]; [eexists; reflexivity|].
  unfold se_bind at 1. unfold mount_pseudo, se_bind, se_try. destruct (mount kernel s t f g) as [[b|e] g1]; apply IH.
Qed.

Lemma cstr_all_ok c k g : NUL ∉ c -> exists g', (do! x := cstr c in call_ kernel (k x)) g = (Ok tt, g').
Proof. intros Hc. unfold se_bind. rewrite cstr_ok by done. apply call__all_ok. Qed.

Lemma pivot_all_ok g : exists g', pivot_root kernel (B ".") (B ".") g = (Ok tt, g').
Proof. unfold pivot_root, se_bind at 1. rewrite cstr_ok by by apply contains_false. by apply cstr_all_ok, contains_false. Qed.
End all_ok.

Lemma extra_devices_wf dev d : d ∈ extra_devices dev ->
  exists s, d = B "/dev/vd" ++ s /\ s <> [] /\ forallb is_ascii_lowercase s = true.
Proof.
  unfold extra_devices. intros (n & <- & Hn)%list_elem_of_In%in_map_iff.
  apply list_elem_of_In in Hn. rewrite elem_of_sort_bytes in Hn. apply list_elem_of_In, filter_In in Hn as [_ Hn].
  unfold is_extra_virtio_disk in Hn. destruct (strip_prefix (B "vd") n) as [s|] eqn:E; [|done].
  apply strip_prefix_Some in E as ->. case_test; [|done]. reflect_bools. exists s.
  split_and!; [done| |done]. intros ->. done.
Qed.

Lemma device_no_NUL dev d : d ∈ extra_devices dev -> NUL ∉ d.
Proof.
  intros (s & -> & _ & Hs)%extra_devices_wf. rewrite not_elem_of_app. split; [by apply contains_false|].
  intros H. rewrite forallb_Forall, Forall_forall in Hs. by apply Hs in H.
Qed.

Lemma chosen_devices n u extras layers scratch : chosen n u extras layers scratch ->
  Forall (fun d => d ∈ extras) layers /\ (u = Drive -> scratch ∈ extras).
Proof.
  rewrite Forall_forall. destruct u; cbn.
  - intros (before & -> & ->). split; [intros d Hd|intros _; set_solver].
    apply elem_of_take in Hd as (i & Hi & _). apply list_elem_of_lookup_2 in Hi. set_solver.
  - intros ->. split; [|done]. intros d Hd. apply elem_of_take in Hd as (i & Hi & _).
    by apply list_elem_of_lookup_2 in Hi.
Qed.

Lemma upper_all_ok kernel dev n u g (Hok : forall h c, exists r, kernel h c = Ok r)
  (Hdev : u = Drive -> extra_devices dev <> []) :
  exists layers g', mount_upper kernel n u (extra_devices dev) g = (Ok layers, g') /\
    Forall (fun d => d ∈ extra_devices dev) layers.
Proof.
  destruct u; cbn [mount_upper]; unfold se_bind, within, se_map_err, se_ret.
  - destruct (split_scratch_and_layers (extra_devices dev) n) as [[scratch layers]|e] eqn:E.
    + apply split_scratch_Ok, chosen_devices in E as [Hl Hs]. cbn [fst snd].
      destruct (negb _); cbn [log];
        (edestruct (mount_all_ok kernel Hok scratch SCRATCH_MNT (B "ext4") MS_NOATIME None) as (g2 & ->);
           [by eapply device_no_NUL, Hs|by apply contains_false..|done|eauto]).
    + unfold split_scratch_and_layers in E. destruct (extra_devices dev) as [|x l] using rev_ind; [by destruct Hdev|].
      rewrite map_app in E. cbn [map] in E. by rewrite List.last_last in E.
  - destruct (chosen_devices n Ram (extra_devices dev) _ [] eq_refl) as [Hl _].
    destruct (negb _); cbn [log];
      (edestruct (mount_all_ok kernel Hok (B "tmpfs") SCRATCH_MNT (B "tmpfs") MS_NOATIME None) as (g2 & ->);
         [by apply contains_false..|done|eauto]).
Qed.

(** When the kernel refuses nothing, an assembly succeeds unless it needs a scratch drive and
    there is no device past the root. *)
Theorem assemble_succeeds kernel dev n u g (Hok : forall h c, exists r, kernel h c = Ok r)
  (Hdev : u = Drive -> extra_devices dev <> []) :
  exists g', assemble kernel dev n u g = (Ok tt, g').
Proof.
  unfold assemble, se_bind, se_try.
  destruct (make_root_private kernel g) as [pr g1].
  assert (Hlog : exists g2, (match pr with Err e => log (B "overlay: make_root_private failed (continuing): " ++ error_text e) | Ok _ => se_ret (Ok tt) end)
    g1 = (Ok tt : result unit IoError, g2)) by (destruct pr; eexists; reflexivity).
  destruct Hlog as (g2 & ->). unfold enumerate_extra_block_devices, se_bind.
  destruct (call_all_ok kernel Hok (CReadDir (B "/dev")) g2) as (r & g3 & ->). unfold se_ret at 1.
  destruct (upper_all_ok kernel dev n u g3 Hok Hdev) as (layers & g4 & -> & Hl).
  destruct (call__all_ok kernel Hok (CCreateDirAll UPPER_DIR) g4) as (g5 & ->).
  destruct (call__all_ok kernel Hok (CCreateDirAll WORK_DIR) g5) as (g6 & ->).
  assert (Ht : exists g7, (if negb (length layers =? 0)%nat then
      within (B "mount tmpfs for layer mountpoints at " ++ LAYERS_DIR)
        (mount_with_data kernel (B "tmpfs") LAYERS_DIR (B "tmpfs") MS_NOATIME None) else se_ret (Ok tt)) g6 = (Ok tt, g7)).
  { destruct (negb _); [|eexists; reflexivity]. unfold within, se_map_err.
    destruct (mount_all_ok kernel Hok (B "tmpfs") LAYERS_DIR (B "tmpfs") MS_NOATIME None g6) as (g7 & ->);
      [by apply contains_false..|done|eexists; reflexivity]. }
  destruct Ht as (g7 & ->).
  destruct (layers_all_ok kernel Hok 1 layers g7) as (g8 & ->).
  { eapply Forall_impl; [exact Hl|]. intros d Hd. exact (device_no_NUL dev d Hd). }
  destruct (merged_all_ok kernel Hok (length layers) g8) as (g9 & ->).
  unfold within, se_map_err.
  destruct (cstr_all_ok kernel Hok STAGING CChdir g9) as (g10 & H10); [by apply contains_false|]. unfold chdir at 1. rewrite H10.
  destruct (pivot_all_ok kernel Hok g10) as (g11 & ->).
  destruct (cstr_all_ok kernel Hok (B ".") (fun t => CUmount t MNT_DETACH) g11) as (g12 & H12); [by apply contains_false|].
  unfold umount_detach. rewrite H12.
  destruct (cstr_all_ok kernel Hok (B "/") CChdir g12) as (g13 & H13); [by apply contains_false|]. unfold chdir. rewrite H13.
  apply pseudo_all_ok.
Qed.

(** ** What is reported *)

Definition PROC_CMDLINE : bytes := B "/proc/cmdline".

(** A guest whose command line asks for no overlay is left alone; otherwise either nothing is
    reported and the root is the overlay asked for, or the assembly failed and that is what every
    later [Pong] reports, with the shape that was asked for and the error. *)
Theorem assemble_if_requested_spec kernel dev g cmdline
  (Hread : kernel (history g) (CRead PROC_CMDLINE) = Ok cmdline) :
  match assemble_if_requested kernel dev g, parse_layers cmdline, parse_upper cmdline with
  | (err, g'), None, Drive => err = None /\ effect g g' [CRead PROC_CMDLINE]
  | (None, g'), n, u =>
      exists scratch layers before pseudo,
        chosen (default 0%N n) u (extra_devices dev) layers scratch /\
        effect g g' (CRead PROC_CMDLINE :: before ++ pivot_calls ++ pseudo) /\
        staged before = Some (stage_stack (upper_source u scratch) layers)
  | (Some msg, g'), n, u =>
      exists g1 e, fst (assemble kernel dev (default 0%N n) u g1) = Err e /\
        msg = B "overlay-root assembly failed (layers=" ++ show_N (default 0%N n) ++ B ", upper=" ++
              show_upper u ++ B "): " ++ error_text e
  end.
Proof.
  unfold assemble_if_requested. change (B "/proc/cmdline") with PROC_CMDLINE.
  destruct (call kernel (CRead PROC_CMDLINE) g) as [r g1] eqn:E.
  assert (r = Ok cmdline) as -> by (unfold call in E; rewrite Hread in E; by injection E as <- <-).
  apply effect_call in E. cbn [is_ok] in E.
  assert (Hgo : forall n u, match
      (match assemble kernel dev n u g1 with
       | (Ok _, g2) => (None, snd (log (E := IoError) (B "overlay: stage root assembled (" ++ (B "layers=" ++ show_N n ++ B ", upper=" ++ show_upper u) ++ B ")") g2))
       | (Err e, g2) => (Some (B "overlay-root assembly failed (" ++ (B "layers=" ++ show_N n ++ B ", upper=" ++ show_upper u) ++ B "): " ++ error_text e),
           snd (log (E := IoError) (B "overlay: " ++ (B "overlay-root assembly failed (" ++ (B "layers=" ++ show_N n ++ B ", upper=" ++ show_upper u) ++ B "): " ++ error_text e) ++ B "; continuing on the read-only base root") g2))
       end) with
    | (None, g') => exists scratch layers before pseudo,
        chosen n u (extra_devices dev) layers scratch /\
        effect g g' (CRead PROC_CMDLINE :: before ++ pivot_calls ++ pseudo) /\
        staged before = Some (stage_stack (upper_source u scratch) layers)
    | (Some msg, g') => exists g1 e, fst (assemble kernel dev n u g1) = Err e /\
        msg = B "overlay-root assembly failed (layers=" ++ show_N n ++ B ", upper=" ++ show_upper u ++ B "): " ++ error_text e
    end).
  { intros n u. destruct (assemble kernel dev n u g1) as [[[]|e] g2] eqn:Ea.
    - destruct (assembled_root_steps _ _ _ _ _ _ Ea) as (scratch & layers & before & pseudo & Hc & He & Hs & _).
      exists scratch, layers, before, pseudo. split_and!; [done| |done].
      apply (effect_trans _ g1 _ [_]); [done|]. destruct He as (h & Hh & Hc'). by exists h.
    - exists g1, e. rewrite Ea. split; [done|]. by rewrite <- !app_assoc. }
  destruct (parse_layers cmdline) as [n|]; [|destruct (parse_upper cmdline)].
  - apply Hgo.
  - split; [done|exact E].
  - apply Hgo.
Qed.

Definition busy_dev : list (option bytes) := [Some (B "vdc"); Some (B "null"); None; Some (B "vda"); Some (B "vdb"); Some (B "vdb1")].

(** A kernel that grants everything, with a command line. *)
Definition granting (cmdline : bytes) : History -> Call -> Answer := fun _ c =>
  match c with CRead _ => Ok cmdline | _ => Ok [] end.

Lemma granting_ok cmdline h c : exists r, granting cmdline h c = Ok r.
Proof. destruct c; cbn; eauto. Qed.

Lemma assembled_root_witness :
  exists scratch layers before pseudo,
    chosen 1 Drive (extra_devices busy_dev) layers scratch /\
    effect guest0 (snd (assemble (granting []) busy_dev 1 Drive guest0)) (before ++ pivot_calls ++ pseudo) /\
    staged before = Some (stage_stack (upper_source Drive scratch) layers) /\
    Forall (fun c => exists s t, c = CMount (Some s) t (Some s) 0 None) pseudo.
Proof. apply (assembled_root (granting []) busy_dev). vm_compute. reflexivity. Defined.

Lemma assemble_succeeds_witness :
  (Drive = Drive -> extra_devices busy_dev <> []) /\
  exists g', assemble (granting []) busy_dev 1 Drive guest0 = (Ok tt, g').
Proof.
  split; [by vm_compute|]. apply (assemble_succeeds (granting []) busy_dev); [apply granting_ok|by vm_compute].
Defined.

Definition stage_cmdline : bytes := B "console=ttyS0 isopod.layers=1 quiet".

Lemma assemble_if_requested_spec_witness :
  parse_layers stage_cmdline = Some 1%N /\
  match assemble_if_requested (granting stage_cmdline) busy_dev guest0 with
  | (None, g') => exists scratch layers before pseudo,
        chosen 1 Drive (extra_devices busy_dev) layers scratch /\
        effect guest0 g' (CRead PROC_CMDLINE :: before ++ pivot_calls ++ pseudo) /\
        staged before = Some (stage_stack (upper_source Drive scratch) layers)
  | (Some _, _) => False
  end.
Proof.
  split; [vm_compute; reflexivity|].
  pose proof (assemble_if_requested_spec (granting stage_cmdline) busy_dev guest0 stage_cmdline eq_refl) as H.
  vm_compute (parse_layers _) in H. vm_compute (parse_upper _) in H.
  destruct (assemble_if_requested (granting stage_cmdline) busy_dev guest0) as [[m|] g'] eqn:E; [|exact H].
  apply (f_equal fst) in E. vm_compute in E. discriminate E.
Defined.

(** The devices found are the names Linux gives to virtio disks, in the order of those names; after
    twenty-five of them that is not the order they were attached in. *)
Example vdaa_before_vdb : extra_devices [Some (B "vdb"); Some (B "vdaa")] = [B "/dev/vdaa"; B "/dev/vdb"].
Proof. vm_compute. reflexivity. Qed.

(** A count that does not parse, or the largest one. *)
Example bad_count : parse_layers (B "isopod.layers=xyz") = Some 0%N /\ succ_usize u64_max = 0%N.
Proof. vm_compute. done. Qed.
