(* ===== verification/GuestNet.v ===== *)
(** * The network of the guest ([crates/guest-agent/src/net.rs])

    The guest addresses its interface from the kernel command line at boot, and again from a
    request of the host after a snapshot is restored; both go through the same [apply].  The
    process-wide cells ([PROXY_ENV], [RESOLV_ERROR]) are what the entry points return beside the
    state. *)
From S2P Require Import Prelude Text Effects Sys GuestSys Cmdline.

Definition RESOLV_CONF : bytes := B "/etc/resolv.conf".

(** ** The proxy environment *)

(** The host of a [HOST:PORT]. *)
Definition endpoint_host (endpoint : bytes) : option bytes :=
  match rsplit_once ":" endpoint with
  | Some (host, _) => if beq host [] then None else Some host
  | None => None
  end.

Definition build_proxy_env (socks http : bytes) (inject : option bytes) : list (bytes * bytes) :=
  let socks_url := B "socks5h://" ++ socks in
  let http_url := B "http://" ++ http in
  let no_proxy := B "localhost,127.0.0.1,::1" ++
    match endpoint_host socks with Some gateway => ","%char :: gateway | None => [] end in
  map (fun name => (name, socks_url)) [B "ALL_PROXY"; B "all_proxy"] ++
  map (fun name => (name, http_url)) [B "HTTP_PROXY"; B "http_proxy"; B "HTTPS_PROXY"; B "https_proxy"] ++
  map (fun name => (name, no_proxy)) [B "NO_PROXY"; B "no_proxy"] ++
  match inject with Some i => [(B "ISOPOD_CREDENTIAL_ENDPOINT", B "http://" ++ i)] | None => [] end.

(** One part of the token: a later one of the same key wins, an empty value does not count. *)
Definition proxy_part (acc : option bytes * option bytes * option bytes) (part : bytes) :=
  let '(socks, http, inject) := acc in
  match split_once "=" part with
  | Some (k, v) =>
      if negb (beq v []) then
        if beq k (B "socks") then (Some v, http, inject)
        else if beq k (B "http") then (socks, Some v, inject)
        else if beq k (B "inject") then (socks, http, Some v)
        else acc
      else acc
  | None => acc
  end.

Definition parse_proxy_token (raw : bytes) : option (bytes * bytes * option bytes) :=
  match fold_left proxy_part (split "," raw) (None, None, None) with
  | (Some socks, Some http, inject) => Some (socks, http, inject)
  | _ => None
  end.

(** ** The configuration *)

Inductive NetError : Type :=
  | MissingNet
  | NotCidr
  | TooFewOctets
  | BadOctet (part : bytes)
  | TooManyOctets
  | BadPrefix
  | PrefixOutOfRange (prefix : N).
#[export] Instance NetError_eq_dec : EqDecision NetError.
Proof. solve_decision. Defined.

(** The next [n] parts, each a [u8], and no more. *)
Fixpoint take_octets (n : nat) (parts : list bytes) : result bytes NetError :=
  match n, parts with
  | O, [] => Ok []
  | O, _ :: _ => Err TooManyOctets
  | S _, [] => Err TooFewOctets
  | S n, part :: r =>
      match parse_uint u8_max part with
      | Some v => let? rest := take_octets n r in Ok (ascii_of_N v :: rest)
      | None => Err (BadOctet part)
      end
  end.

Definition parse_ipv4 (s : bytes) : result bytes NetError := take_octets 4 (split "." s).

Record NetConfig : Type := MkNetConfig {
  ip : bytes; prefix : N; gw : option bytes; dns : list bytes }.
#[export] Instance NetConfig_eq_dec : EqDecision NetConfig.
Proof. solve_decision. Defined.

Definition build_config (cidr : bytes) (gw : option bytes) (dns : list bytes) : result NetConfig NetError :=
  let? (ip_s, prefix_s) := ok_or (split_once "/" cidr) NotCidr in
  let? ip := parse_ipv4 ip_s in
  let? prefix := ok_or (parse_uint u8_max prefix_s) BadPrefix in
  if (32 <? prefix)%N then Err (PrefixOutOfRange prefix)
  else
    let? gw := match gw with Some g => rmap Some (parse_ipv4 g) | None => Ok None end in
    let dns := List.filter (fun s => is_ok (parse_ipv4 s)) (List.filter (fun s => negb (beq s [])) dns) in
    Ok (MkNetConfig ip prefix gw dns).

Definition parse_config (cmdline : bytes) : result NetConfig NetError :=
  let? net := ok_or (value cmdline (B "isopod.net")) MissingNet in
  let gw := value cmdline (B "isopod.gw") in
  let dns := default [] (value cmdline (B "isopod.dns")) in
  build_config net gw (List.filter (fun s => negb (beq s [])) (split "," dns)).

Definition be32 (n : N) : bytes :=
  [ascii_of_N (n / 16777216 mod 256); ascii_of_N (n / 65536 mod 256); ascii_of_N (n / 256 mod 256); ascii_of_N (n mod 256)].

(** [u32::MAX << (32 - bits)], in 32 bits. *)
Definition netmask (prefix : N) : N :=
  let bits := N.min prefix 32 in
  if (bits =? 0)%N then 0 else N.land (N.shiftl u32_max (32 - bits)) u32_max.
Definition netmask_octets (prefix : N) : bytes := be32 (netmask prefix).

Definition fmt_ip (a : bytes) : bytes := join (B ".") (map (fun c => show_N (code c)) a).

(** ** The resolver file *)

Definition nameserver_line (ns : bytes) : bytes := B "nameserver " ++ ns ++ [line_feed].
Definition resolv_body (dns : list bytes) : bytes := concat (map nameserver_line dns).

(** Whether a file names exactly these resolvers, in order. *)
Definition names_resolvers (text : bytes) (want : list bytes) : bool :=
  bool_decide (map trim (omap (strip_prefix (B "nameserver ")) (str_lines text)) = want).

Section net.
Context (kernel : History -> Call -> Answer).
Abbreviation G := (SE Guest IoError).
Abbreviation log := (log (E := IoError)).

(** A step whose failure is logged and survived. *)
Definition best_effort (m : G unit) (complaint : IoError -> G unit) : G unit :=
  do! r := se_try m in match r with Ok _ => se_ret (Ok tt) | Err e => complaint e end.

Definition ensure_loopback_up : G unit :=
  best_effort (set_if_up kernel (B "lo"))
    (fun e => log (B "net: bringing up lo failed (continuing): " ++ error_text e)).

Definition configure_eth0 (ip mask : bytes) : G unit :=
  do! _ := set_if_addr kernel (B "eth0") ip in
  do! _ := set_if_netmask kernel (B "eth0") mask in
  set_if_up kernel (B "eth0").

Definition write_resolv_conf (dns : list bytes) : G unit :=
  do! _ := call_ kernel (CCreateDirAll (B "/etc")) in
  call_ kernel (CWrite RESOLV_CONF (resolv_body dns)).

(** A step whose failure is logged and returned. *)
Definition logged_error (m : G unit) (complaint : IoError -> bytes) : G unit :=
  do! r := se_try m in
  match r with
  | Ok _ => se_ret (Ok tt)
  | Err e => do! _ := log (complaint e) in se_ret (Err e)
  end.

Definition eth0_complaint (e : IoError) : bytes :=
  if is_errno e ENODEV then B "net: eth0 missing (no NIC attached); continuing without network"
  else B "net: FAILED to configure eth0: " ++ error_text e ++ B "; continuing without network".

Definition apply_routes (cfg : NetConfig) : G unit :=
  do! _ := best_effort (del_default_route kernel)
    (fun e => log (B "net: clearing the old default route failed (continuing): " ++ error_text e)) in
  match gw cfg with
  | Some g => best_effort (add_default_route kernel g)
      (fun e => log (B "net: default route via " ++ fmt_ip g ++ B " failed: " ++ error_text e))
  | None => se_ret (Ok tt)
  end.

Definition apply (cfg : NetConfig) : G unit :=
  do! _ := ensure_loopback_up in
  do! _ := best_effort (set_if_down kernel (B "eth0"))
    (fun e => if negb (is_errno e ENODEV) then
                log (B "net: bringing eth0 down before (re)configure failed (continuing): " ++ error_text e)
              else se_ret (Ok tt)) in
  do! _ := logged_error (configure_eth0 (ip cfg) (netmask_octets (prefix cfg))) eth0_complaint in
  do! _ := apply_routes cfg in
  do! _ := (if negb (length (dns cfg) =? 0)%nat then
              logged_error (write_resolv_conf (dns cfg))
                (fun e => B "net: writing " ++ RESOLV_CONF ++ B " failed: " ++ error_text e)
            else se_ret (Ok tt)) in
  log (B "net: eth0 up " ++ fmt_ip (ip cfg) ++ B "/" ++ show_N (prefix cfg) ++ B " gw " ++
       match gw cfg with Some g => fmt_ip g | None => B "none" end ++ B " dns [" ++ join (B ",") (dns cfg) ++ B "]").

(** [resolv_conf_matches] *)
Definition resolv_conf_matches (want : list bytes) : SE Guest IoError bool :=
  do! r := se_try (call kernel (CRead RESOLV_CONF)) in
  se_ret (Ok (match r with Ok text => names_resolvers text want | Err _ => false end)).

Definition proxy_log (socks http : bytes) (inject : option bytes) : bytes :=
  B "net: filtered egress via broker socks=" ++ socks ++ B " http=" ++ http ++ B " credentials=" ++
  default (B "none") inject.

(** The text [RESOLV_ERROR] is set to. *)
Definition resolv_message (dns : list bytes) : bytes :=
  RESOLV_CONF ++ B " was not written; the guest is resolving through " ++
  B "whatever its image or stage layer carried, not through the " ++
  B "resolver this run was given (" ++ join (B ",") dns ++ B ")".

(** What is set of [PROXY_ENV] and of [RESOLV_ERROR]. *)
Abbreviation Cells := (option (list (bytes * bytes)) * option bytes)%type.

Definition proxy_at_boot (cmdline : bytes) : SE Guest IoError (option (list (bytes * bytes))) :=
  match value cmdline (B "isopod.proxy") with
  | Some raw =>
      match parse_proxy_token raw with
      | Some (socks, http, inject) =>
          do! _ := log (proxy_log socks http inject) in se_ret (Ok (Some (build_proxy_env socks http inject)))
      | None => do! _ := log (B "net: malformed isopod.proxy token; no proxy env exported") in se_ret (Ok None)
      end
  | None => se_ret (Ok None)
  end.

Definition resolver_at_boot (cmdline : bytes) : SE Guest IoError (option bytes) :=
  match parse_config cmdline with
  | Err _ => do! _ := log (B "net: invalid network config on the kernel command line; skipping") in se_ret (Ok None)
  | Ok cfg =>
      let wanted_dns := negb (length (dns cfg) =? 0)%nat in
      do! r := se_try (apply cfg) in
      if negb (is_ok r) && wanted_dns then
        do! matches := resolv_conf_matches (dns cfg) in
        se_ret (Ok (if negb matches then Some (resolv_message (dns cfg)) else None))
      else se_ret (Ok None)
  end.

Definition configure_if_requested : SE Guest IoError Cells :=
  do! r := se_try (call kernel (CRead (B "/proc/cmdline"))) in
  match r with
  | Err e => do! _ := log (B "net: cannot read /proc/cmdline: " ++ error_text e) in se_ret (Ok (None, None))
  | Ok cmdline =>
      match value cmdline (B "isopod.net") with
      | None => se_ret (Ok (None, None))
      | Some _ =>
          do! env := proxy_at_boot cmdline in
          do! resolv := resolver_at_boot cmdline in
          se_ret (Ok (env, resolv))
      end
  end.

(** The request of the host after a restore. *)
Record BrokerConfig : Type := MkBrokerConfig { socks : bytes; http : bytes; inject : option bytes }.

Inductive ConfigureError : Type := Invalid (e : NetError) | Os (e : IoError).

(** What is set of [PROXY_ENV], whatever the outcome, and the outcome. *)
Definition configure (ip gw : bytes) (dns : list bytes) (broker : option BrokerConfig) (g : Guest) :
    option (list (bytes * bytes)) * result unit ConfigureError * Guest :=
  let '(env, g) := match broker with
    | Some b => (Some (build_proxy_env (socks b) (http b) (inject b)), snd (log (proxy_log (socks b) (http b) (inject b)) g))
    | None => (None, g)
    end in
  let gw := if beq gw [] then None else Some gw in
  match build_config ip gw dns with
  | Err e => (env, Err (Invalid e), g)
  | Ok cfg => let '(r, g) := apply cfg g in (env, map_err Os r, g)
  end.
End net.

(** ** Addresses *)

Lemma code_show c : parse_uint u8_max (show_N (code c)) = Some (code c).
Proof. apply parse_show. pose proof (code_lt c). unfold u8_max. lia. Qed.

Lemma ascii_of_code c : ascii_of_N (code c) = c.
Proof. unfold code. apply ascii_N_embedding. Qed.

(** Printing four bytes as a dotted quad and reading them back. *)
Lemma parse_fmt_ip a : length a = 4%nat -> parse_ipv4 (fmt_ip a) = Ok a.
Proof.
  intros H. destruct a as [|a [|b [|c [|d [|]]]]]; try discriminate H. clear H.
  unfold parse_ipv4, fmt_ip. cbn [map].
  assert (Hs : split "." (join (B ".") [show_N (code a); show_N (code b); show_N (code c); show_N (code d)]) =
    [show_N (code a); show_N (code b); show_N (code c); show_N (code d)]).
  { apply split_join; [done|]. repeat constructor; (intros H; pose proof (show_N_digits (code a)) as Ha;
      pose proof (show_N_digits (code b)) as Hb; pose proof (show_N_digits (code c)) as Hc;
      pose proof (show_N_digits (code d)) as Hd; rewrite forallb_Forall, Forall_forall in Ha, Hb, Hc, Hd;
      first [by apply Ha in H|by apply Hb in H|by apply Hc in H|by apply Hd in H]). }
  rewrite Hs. cbn [take_octets]. rewrite !code_show. cbn [rbind]. by rewrite !ascii_of_code.
Qed.

(** The octets of the mask of a prefix spell, bit by bit from the top, [prefix] ones and then
    zeros. *)
Theorem netmask_spec prefix i :
  (i < 32)%N -> N.testbit (netmask prefix) i = (32 - N.min prefix 32 <=? i)%N.
Proof.
  intros Hi. unfold netmask. set (bits := N.min prefix 32). assert (Hb : (bits <= 32)%N) by lia.
  destruct (N.eqb_spec bits 0) as [E|E].
  - rewrite E, N.bits_0. symmetry. apply N.leb_gt. lia.
  - change u32_max with (N.ones 32). rewrite N.land_spec, N.ones_spec_low by done. rewrite andb_true_r.
    destruct (N.leb_spec (32 - bits) i).
    + rewrite N.shiftl_spec_high' by done. apply N.ones_spec_low. lia.
    + by apply N.shiftl_spec_low.
Qed.

Lemma netmask_spec_witness : (5 < 32)%N /\ N.testbit (netmask 30) 5 = (32 - N.min 30 32 <=? 5)%N.
Proof. split; [lia|]. by apply netmask_spec. Defined.

Lemma be32_bytes n : (n < 2 ^ 32)%N ->
  match map code (be32 n) with
  | [a; b; c; d] => (a * 16777216 + b * 65536 + c * 256 + d)%N = n
  | _ => False
  end.
Proof.
  intros Hn. unfold be32. cbn [map]. rewrite !code_of_N by (apply N.mod_lt; lia).
  pose proof (N.div_mod n 256 ltac:(lia)). pose proof (N.div_mod (n / 256) 256 ltac:(lia)).
  pose proof (N.div_mod (n / 65536) 256 ltac:(lia)).
  assert (E1 : (n / 256 / 256 = n / 65536)%N) by (rewrite N.Div0.div_div; f_equal).
  assert (E2 : (n / 65536 / 256 = n / 16777216)%N) by (rewrite N.Div0.div_div; f_equal).
  assert ((n / 16777216 < 256)%N) by (apply N.Div0.div_lt_upper_bound; change (16777216 * 256)%N with (2 ^ 32)%N; done).
  rewrite (N.mod_small (n / 16777216)) by done. rewrite E1, E2 in *. lia.
Qed.

(** ** Proxies *)

Lemma proxy_token_readback socks http inject
  (Hs : socks <> [] /\ ","%char ∉ socks) (Hh : http <> [] /\ ","%char ∉ http)
  (Hi : forall i, inject = Some i -> i <> [] /\ ","%char ∉ i) :
  parse_proxy_token (B "socks=" ++ socks ++ B ",http=" ++ http ++
    match inject with Some i => B ",inject=" ++ i | None => [] end) = Some (socks, http, inject).
Proof.
  destruct Hs as [Hs0 Hs], Hh as [Hh0 Hh].
  assert (Hsplit : split "," (B "socks=" ++ socks ++ B ",http=" ++ http ++
      match inject with Some i => B ",inject=" ++ i | None => [] end) =
    (B "socks" ++ "="%char :: socks) :: (B "http" ++ "="%char :: http) ::
      match inject with Some i => [B "inject" ++ "="%char :: i] | None => [] end).
  { change (B ",http=" ++ ?r) with (","%char :: B "http=" ++ r). rewrite app_assoc.
    rewrite split_app by (rewrite not_elem_of_app; split; [by apply contains_false|done]). f_equal.
    destruct inject as [i|].
    - destruct (Hi i eq_refl) as [_ Hic]. change (B ",inject=" ++ i) with (","%char :: B "inject=" ++ i).
      rewrite app_assoc, split_app by (rewrite not_elem_of_app; split; [by apply contains_false|done]). f_equal.
      change (B "inject" ++ "="%char :: i) with (B "inject=" ++ i).
      apply split_none. rewrite not_elem_of_app. split; [by apply contains_false|done].
    - rewrite app_nil_r. change (B "http" ++ "="%char :: http) with (B "http=" ++ http).
      apply split_none. rewrite not_elem_of_app. split; [by apply contains_false|done]. }
  unfold parse_proxy_token. rewrite Hsplit.
  assert (Hne : forall x, x <> [] -> beq x [] = false)
    by (intros x Hx; apply not_true_iff_false; by rewrite beq_true).
  assert (Hpart : forall acc k v, "="%char ∉ k -> v <> [] -> proxy_part acc (k ++ "="%char :: v) =
    let '(s, h, i) := acc in if beq k (B "socks") then (Some v, h, i) else if beq k (B "http") then (s, Some v, i)
      else if beq k (B "inject") then (s, h, Some v) else acc).
  { intros [[s h] i] k v Hk Hv. unfold proxy_part. rewrite split_once_app by done. by rewrite Hne. }
  cbn [fold_left]. rewrite !Hpart by (done || by apply contains_false).
  destruct inject as [i|]; [|reflexivity]. destruct (Hi i eq_refl) as [Hi0 _].
  cbn [fold_left]. by rewrite Hpart by (done || by apply contains_false).
Qed.

(** A proxy token in the form the host writes is read back, with and without a credential
    endpoint; endpoints hold no comma and are not empty. *)
Theorem proxy_token_roundtrip socks http inject
  (Hs : socks <> [] /\ ","%char ∉ socks) (Hh : http <> [] /\ ","%char ∉ http)
  (Hi : forall i, inject = Some i -> i <> [] /\ ","%char ∉ i) :
  parse_proxy_token (B "socks=" ++ socks ++ B ",http=" ++ http ++
    match inject with Some i => B ",inject=" ++ i | None => [] end) = Some (socks, http, inject).
Proof. exact (proxy_token_readback socks http inject Hs Hh Hi). Qed.

Lemma proxy_token_roundtrip_witness :
  parse_proxy_token (B "socks=10.107.3.1:1080" ++ B ",http=" ++ B "10.107.3.1:3128" ++ []) =
    Some (B "10.107.3.1:1080", B "10.107.3.1:3128", None).
Proof.
  apply (proxy_token_roundtrip (B "10.107.3.1:1080") (B "10.107.3.1:3128") None);
    [split; [done|by apply contains_false]..|done].
Defined.

(** The gateway is never proxied, and the credential endpoint is announced exactly when there is
    one. *)
Lemma proxy_env_spec socks http inject :
  (forall host port, socks = host ++ B ":" ++ port -> host <> [] -> ":"%char ∉ port ->
    forall name, name = B "NO_PROXY" \/ name = B "no_proxy" ->
      (name, B "localhost,127.0.0.1,::1," ++ host) ∈ build_proxy_env socks http inject) /\
  (forall url, (B "ISOPOD_CREDENTIAL_ENDPOINT", url) ∈ build_proxy_env socks http inject <->
    exists i, inject = Some i /\ url = B "http://" ++ i).
Proof.
  split.
  - intros host port -> Hh Hp name Hname. unfold build_proxy_env, endpoint_host.
    change (B ":" ++ port) with (":"%char :: port).
    rewrite (proj2 (rsplit_once_Some _ _ host port)) by done.
    assert (beq host [] = false) as -> by (apply not_true_iff_false; by rewrite beq_true).
    rewrite !elem_of_app. right. right. left. cbn [map]. destruct Hname as [-> | ->]; set_solver.
  - intros url. unfold build_proxy_env. cbn [map]. rewrite !elem_of_app. split.
    + intros [H|[H|[H|H]]].
      1-3: repeat (apply elem_of_cons in H as [H|H]; [discriminate H|]); by apply not_elem_of_nil in H.
      destruct inject as [i|]; [|by apply not_elem_of_nil in H].
      apply list_elem_of_singleton in H. injection H as ->. eauto.
    + intros (i & -> & ->). right. right. right. by apply list_elem_of_singleton.
Qed.

(** ** The resolver file *)

Lemma graphic_items s : forallb is_ascii_graphic s = true -> utf8_items s = map (fun c => Chr (code c) [c]) s.
Proof.
  induction s as [|c s IH]; [done|]. cbn [forallb]. intros [Hc Hs]%andb_true_iff. cbn [utf8_items map].
  assert (Hlow : (code c <? 128)%N = true) by (revert Hc; by all_bytes c).
  by rewrite Hlow, IH.
Qed.

Lemma graphic_not_white c : is_ascii_graphic c = true -> is_whitespace (code c) = false.
Proof. by all_bytes c. Qed.

Lemma drop_white_graphic s : forallb is_ascii_graphic s = true ->
  drop_white (map (fun c => Chr (code c) [c]) s) = map (fun c => Chr (code c) [c]) s.
Proof.
  destruct s as [|c s]; [done|]. cbn [forallb map drop_white]. intros [Hc _]%andb_true_iff.
  by rewrite graphic_not_white.
Qed.

Lemma forallb_rev {A} (p : A -> bool) l : forallb p (rev l) = forallb p l.
Proof.
  induction l as [|x l IH]; [done|]. cbn [rev forallb]. rewrite forallb_app, IH. cbn. rewrite andb_true_r.
  apply andb_comm.
Qed.

Lemma trim_graphic s : forallb is_ascii_graphic s = true -> trim s = s.
Proof.
  intros Hs. unfold trim. rewrite graphic_items by done. rewrite drop_white_graphic by done.
  rewrite <- map_rev, drop_white_graphic by (by rewrite forallb_rev). rewrite <- map_rev, rev_involutive.
  rewrite map_map. cbn [item_bytes]. clear. induction s as [|c s IH]; [done|]. cbn. by rewrite IH.
Qed.

Lemma uint_graphic max s n : parse_uint max s = Some n -> forallb is_ascii_graphic s = true.
Proof.
  unfold parse_uint. assert (Hd : forall t, forallb is_ascii_digit t = true -> forallb is_ascii_graphic t = true).
  { intros t. rewrite !forallb_forall. intros H c Hc. specialize (H c Hc). revert H. by all_bytes c. }
  destruct s as [|c s]; [done|]. destruct (Ascii.eqb_spec c "+") as [->|Hc].
  - destruct s as [|d s]; [done|]. destruct (forallb is_ascii_digit (d :: s)) eqn:E; [|done].
    intros _. change (is_ascii_graphic "+" && forallb is_ascii_graphic (d :: s) = true). by rewrite (Hd _ E).
  - destruct (forallb is_ascii_digit (c :: s)) eqn:E; [|done]. intros _. by apply Hd.
Qed.

Lemma take_octets_graphic n parts o : take_octets n parts = Ok o ->
  forallb is_ascii_graphic (join (B ".") parts) = true /\ length o = n.
Proof.
  revert parts o. induction n as [|n IH]; intros [|p parts] o; cbn [take_octets]; [by intros [= <-]|done|done|].
  destruct (parse_uint u8_max p) as [v|] eqn:E; [|done]. apply uint_graphic in E.
  destruct (take_octets n parts) as [rest|] eqn:Er; [|done]. intros [= <-]. apply IH in Er as [Hg <-].
  split; [|done]. destruct parts as [|q parts]; [done|].
  change (join (B ".") (p :: q :: parts)) with (p ++ B "." ++ join (B ".") (q :: parts)).
  by rewrite !forallb_app, E, Hg.
Qed.

Lemma ipv4_graphic s o : parse_ipv4 s = Ok o -> forallb is_ascii_graphic s = true /\ length o = 4%nat.
Proof.
  unfold parse_ipv4. intros H. apply take_octets_graphic in H. change (B ".") with ["."%char] in H. by rewrite join_split in H.
Qed.

(** What a configuration holds: everything in it parses. *)
Lemma build_config_wf cidr g d cfg : build_config cidr g d = Ok cfg ->
  length (ip cfg) = 4%nat /\ (prefix cfg <= 32)%N /\
  match gw cfg with Some a => length a = 4%nat | None => g = None end /\
  Forall (fun s => is_ok (parse_ipv4 s) = true) (dns cfg).
Proof.
  unfold build_config. intros H. run_ok. destruct a as [ip_s prefix_s]. run_ok.
  case_test; [done|]. run_ok. apply N.ltb_ge in Heqb. cbn [ip prefix gw dns]. split_and!.
  - by apply ipv4_graphic in Hrun0 as [_ ?].
  - done.
  - destruct g as [g|]; [|by injection Hrun2 as <-]. destruct (parse_ipv4 g) as [o|] eqn:E; [|done].
    injection Hrun2 as <-. by apply ipv4_graphic in E as [_ ?].
  - apply Forall_forall. intros s Hs. by apply list_elem_of_In, filter_In in Hs as [_ Hs].
Qed.

Lemma body_lines dns : Forall (fun s => is_ok (parse_ipv4 s) = true) dns ->
  str_lines (resolv_body dns) = map (app (B "nameserver ")) dns.
Proof.
  intros H. unfold str_lines.
  assert (Hs : split line_feed (resolv_body dns) = map (app (B "nameserver ")) dns ++ [[]]).
  { induction H as [|s l Hs Hl IH]; [done|]. unfold resolv_body. cbn [map concat].
    unfold nameserver_line at 1. rewrite <- !app_assoc. cbn [app]. rewrite app_assoc.
    destruct (parse_ipv4 s) as [o|] eqn:E; [|done]. apply ipv4_graphic in E as [Hg _].
    rewrite split_app; [f_equal; exact IH|]. rewrite not_elem_of_app. split; [by apply contains_false|].
    intros Hin. rewrite forallb_Forall, Forall_forall in Hg. by apply Hg in Hin. }
  rewrite Hs, removelast_last, List.last_last, app_nil_r. clear Hs.
  induction H as [|s l Hs Hl IH]; [done|]. cbn [map]. rewrite IH. f_equal.
  destruct (parse_ipv4 s) as [o|] eqn:E; [|done]. apply ipv4_graphic in E as [Hg Hlen].
  unfold strip_cr. destruct (strip_suffix [ascii_of_N 13] (B "nameserver " ++ s)) as [r|] eqn:Er; [|done].
  apply strip_suffix_Some in Er. exfalso. destruct s as [|c s] using rev_ind.
  - rewrite app_nil_r in Er. apply (f_equal (fun l => List.last l NUL)) in Er. rewrite List.last_last in Er. by vm_compute in Er.
  - rewrite app_assoc in Er. apply app_inj_tail in Er as [_ ->]. rewrite forallb_app in Hg.
    apply andb_true_iff in Hg as [_ Hg]. by vm_compute in Hg.
Qed.

(** The resolver file the guest writes for a configuration names exactly its resolvers, in
    order, when it is read back; nothing else is on its lines. *)
Theorem resolv_roundtrip cidr g d cfg (H : build_config cidr g d = Ok cfg) :
  str_lines (resolv_body (dns cfg)) = map (app (B "nameserver ")) (dns cfg) /\
  names_resolvers (resolv_body (dns cfg)) (dns cfg) = true.
Proof.
  destruct (build_config_wf _ _ _ _ H) as (_ & _ & _ & Hd). pose proof (body_lines _ Hd) as Hl.
  split; [done|]. unfold names_resolvers. rewrite Hl. apply bool_decide_eq_true.
  revert Hd. generalize (dns cfg). clear. intros l Hd. induction Hd as [|s l Hs Hd IH]; [done|].
  cbn [map omap list_omap]. rewrite (proj2 (strip_prefix_Some _ _ _) eq_refl). cbn [map]. f_equal; [|exact IH].
  destruct (parse_ipv4 s) as [o|] eqn:E; [|done]. apply trim_graphic. by apply ipv4_graphic in E as [Hg _].
Qed.

Lemma resolv_roundtrip_witness :
  build_config (B "10.107.3.2/30") (Some (B "10.107.3.1")) [B "1.1.1.1"; B "nonsense"; []; B "8.8.8.8"] =
    Ok (MkNetConfig (map ascii_of_N [10; 107; 3; 2])%N 30 (Some (map ascii_of_N [10; 107; 3; 1])%N) [B "1.1.1.1"; B "8.8.8.8"]) /\
  names_resolvers (resolv_body [B "1.1.1.1"; B "8.8.8.8"]) [B "1.1.1.1"; B "8.8.8.8"] = true.
Proof.
  split; [vm_compute; reflexivity|].
  apply (resolv_roundtrip (B "10.107.3.2/30") (Some (B "10.107.3.1")) [B "1.1.1.1"; B "nonsense"; []; B "8.8.8.8"]
    (MkNetConfig (map ascii_of_N [10; 107; 3; 2])%N 30 (Some (map ascii_of_N [10; 107; 3; 1])%N) [B "1.1.1.1"; B "8.8.8.8"])).
  vm_compute. reflexivity.
Defined.

(** ** Applying a configuration *)

Section apply.
Context (kernel : History -> Call -> Answer).

Lemma best_effort_makes P m complaint :
  makes P m -> (forall e, makes P (complaint e)) -> makes P (best_effort m complaint).
Proof. intros Hm Hc. apply makes_bind; [by apply makes_try|]. intros [?|e]; [apply makes_ret|apply Hc]. Qed.

Lemma best_effort_Ok m complaint g r g' :
  (forall e g r g', complaint e g = (r, g') -> r = Ok tt) -> best_effort m complaint g = (r, g') -> r = Ok tt.
Proof.
  intros Hc. unfold best_effort, se_bind, se_try. destruct (m g) as [[?|e] g1]; [by intros [= <- _]|apply Hc].
Qed.

Lemma logged_error_run (m : SE Guest IoError unit) complaint g r g' :
  logged_error m complaint g = (r, g') ->
  exists g1, m g = (r, g1) /\ effect g1 g' [].
Proof.
  unfold logged_error, se_bind, se_try. destruct (m g) as [[[]|e] g1].
  - intros [= <- <-]. exists g1. split; [done|apply effect_refl].
  - cbn. intros [= <- <-]. exists g1. split; [done|apply effect_logged].
Qed.

(** The calls that give the interface its address and mask and raise it, and those that write the
    resolver file. *)
Definition eth0_calls (ip mask seen : bytes) : list Call :=
  set_calls SIOCSIFADDR (B "eth0") (sockaddr_in_bytes ip) ++
  set_calls SIOCSIFNETMASK (B "eth0") (sockaddr_in_bytes mask) ++
  [CSocket; CIoctlIf SIOCGIFFLAGS (if_req (B "eth0")); CSocket;
   CIoctlIf SIOCSIFFLAGS (set_ifru seen (le16 (N.lor (ifr_flags seen) (N.lor IFF_UP IFF_RUNNING))))].

Definition resolver_calls (dns : list bytes) : list Call :=
  match dns with [] => [] | _ => [CCreateDirAll (B "/etc"); CWrite RESOLV_CONF (resolv_body dns)] end.

Lemma configure_eth0_makes ip mask : makes link_call (configure_eth0 kernel ip mask).
Proof.
  unfold configure_eth0. apply makes_bind; [apply set_if_addr_makes|intros _].
  apply makes_bind; [apply set_if_netmask_makes|intros _]. intros g r g' (cs & He & Hf)%change_flags_makes.
  exists cs. split; [done|]. eapply Forall_impl; [exact Hf|apply flag_is_link].
Qed.

Lemma configure_eth0_effect ip mask g g' :
  configure_eth0 kernel ip mask g = (Ok tt, g') -> exists seen, effect g g' (eth0_calls ip mask seen).
Proof.
  intros H. apply se_bind_Ok in H as ([] & g1 & H1%set_if_addr_effect & H).
  apply se_bind_Ok in H as ([] & g2 & H2%set_if_netmask_effect & H).
  apply change_flags_effect in H as (seen & H3). exists seen.
  exact (effect_trans _ _ _ _ _ H1 (effect_trans _ _ _ _ _ H2 H3)).
Qed.

Lemma apply_routes_run cfg g r g' : apply_routes kernel cfg g = (r, g') ->
  r = Ok tt /\ exists cs, effect g g' cs /\ Forall route_call cs.
Proof.
  intros H. split.
  - revert H. unfold apply_routes, se_bind. destruct (best_effort (del_default_route kernel) _ g) as [r1 g1] eqn:E.
    apply best_effort_Ok in E as ->; [|by intros ? ? ? ? [= <- _]].
    destruct (gw cfg); [|by intros [= <- _]]. apply best_effort_Ok. by intros ? ? ? ? [= <- _].
  - revert g r g' H. apply makes_bind; [apply best_effort_makes; [apply del_route_makes|intros; apply makes_log]|].
    intros _. destruct (gw cfg); [|apply makes_ret].
    apply best_effort_makes; [apply add_route_makes|intros; apply makes_log].
Qed.

Lemma write_resolv_run dns g r g' : dns <> [] -> write_resolv_conf kernel dns g = (r, g') ->
  match r with
  | Ok _ => effect g g' (resolver_calls dns)
  | Err _ => exists cs, effect g g' cs /\ (cs = [] \/ cs = [CCreateDirAll (B "/etc")])
  end.
Proof.
  intros Hd. unfold write_resolv_conf, se_bind.
  destruct (call_ kernel _ g) as [[[]|e] g1] eqn:E1; apply effect_call_ in E1; cbn [is_ok] in E1.
  - intros E2. apply effect_call_ in E2. pose proof (effect_trans _ _ _ _ _ E1 E2) as E.
    destruct r; cbn [is_ok] in E; [by destruct dns|]. eauto.
  - intros [= <- <-]. eauto.
Qed.

Lemma prologue_run g r g' :
  (do! _ := ensure_loopback_up kernel in
   best_effort (set_if_down kernel (B "eth0"))
    (fun e => if negb (is_errno e ENODEV) then
                log (B "net: bringing eth0 down before (re)configure failed (continuing): " ++ error_text e)
              else se_ret (Ok tt))) g = (r, g') ->
  r = Ok tt /\ exists cs, effect g g' cs /\ Forall flag_call cs.
Proof.
  intros H. split.
  - revert H. unfold se_bind. destruct (ensure_loopback_up kernel g) as [r1 g1] eqn:E.
    apply best_effort_Ok in E as ->; [|by intros ? ? ? ? [= <- _]].
    apply best_effort_Ok. intros e ? ? ?. destruct (negb _); by intros [= <- _].
  - revert g r g' H. apply makes_bind; [apply best_effort_makes; [apply change_flags_makes|intros; apply makes_log]|].
    intros _. apply best_effort_makes; [apply change_flags_makes|]. intros e. destruct (negb _); [apply makes_log|apply makes_ret].
Qed.

(** The run of [apply], with its calls. *)
Lemma apply_run cfg g r g' (H : apply kernel cfg g = (r, g')) :
  (exists e cs, r = Err e /\ effect g g' cs /\ Forall link_call cs) \/
  (exists before seen routes written,
    effect g g' (before ++ eth0_calls (ip cfg) (netmask_octets (prefix cfg)) seen ++ routes ++ written) /\
    Forall flag_call before /\ Forall route_call routes /\
    match r with
    | Ok _ => written = resolver_calls (dns cfg)
    | Err _ => dns cfg <> [] /\ (written = [] \/ written = [CCreateDirAll (B "/etc")])
    end).
Proof.
  assert (Hassoc : apply kernel cfg g = (do! _ := (do! _ := ensure_loopback_up kernel in
     best_effort (set_if_down kernel (B "eth0"))
      (fun e => if negb (is_errno e ENODEV) then
                log (B "net: bringing eth0 down before (re)configure failed (continuing): " ++ error_text e)
              else se_ret (Ok tt))) in
     do! _ := logged_error (configure_eth0 kernel (ip cfg) (netmask_octets (prefix cfg))) eth0_complaint in
     do! _ := apply_routes kernel cfg in
     do! _ := (if negb (length (dns cfg) =? 0)%nat then
              logged_error (write_resolv_conf kernel (dns cfg))
                (fun e => B "net: writing " ++ RESOLV_CONF ++ B " failed: " ++ error_text e)
            else se_ret (Ok tt)) in
     log (B "net: eth0 up " ++ fmt_ip (ip cfg) ++ B "/" ++ show_N (prefix cfg) ++ B " gw " ++
       match gw cfg with Some g => fmt_ip g | None => B "none" end ++ B " dns [" ++ join (B ",") (dns cfg) ++ B "]")) g).
  { unfold apply, se_bind. by destruct (ensure_loopback_up kernel g) as [[?|?] ?]. }
  rewrite Hassoc in H. clear Hassoc. unfold se_bind at 1 in H.
  match type of H with context [match ?m g with _ => _ end] => destruct (m g) as [r1 g1] eqn:E1 end.
  apply prologue_run in E1 as (-> & before & Hb & Hbf). unfold se_bind at 1 in H.
  destruct (logged_error _ eth0_complaint g1) as [r2 g2] eqn:E2.
  apply logged_error_run in E2 as (g2' & E2 & Hl2). destruct r2 as [[]|e].
  2: { left. injection H as <- <-. apply configure_eth0_makes in E2 as (cs & Hcs & Hf). exists e, (before ++ cs ++ []).
       split_and!; [done| |].
       - exact (effect_trans _ _ _ _ _ Hb (effect_trans _ _ _ _ _ Hcs Hl2)).
       - rewrite app_nil_r. apply Forall_app. split; [|done]. eapply Forall_impl; [exact Hbf|apply flag_is_link]. }
  right. apply configure_eth0_effect in E2 as (seen & E2). unfold se_bind at 1 in H.
  destruct (apply_routes kernel cfg g2) as [r3 g3] eqn:E3. apply apply_routes_run in E3 as (-> & routes & Hr & Hrf).
  exists before, seen, routes.
  assert (Hpre : effect g g3 (before ++ eth0_calls (ip cfg) (netmask_octets (prefix cfg)) seen ++ routes)).
  { pose proof (effect_trans _ _ _ _ _ E2 Hl2) as T. rewrite app_nil_r in T.
    exact (effect_trans _ _ _ _ _ Hb (effect_trans _ _ _ _ _ T Hr)). }
  assert (Hend : forall w, effect g3 g' w ->
    effect g g' (before ++ eth0_calls (ip cfg) (netmask_octets (prefix cfg)) seen ++ routes ++ w)).
  { intros w Hw. pose proof (effect_trans _ _ _ _ _ Hpre Hw) as T. by rewrite <- !app_assoc in T. }
  unfold se_bind in H. destruct (dns cfg) as [|d ds] eqn:Ed; cbn [length Nat.eqb negb] in H.
  - cbn [se_ret] in H. exists []. cbn in H. injection H as <- <-. split_and!; [apply Hend, effect_logged|done..].
  - destruct (logged_error _ _ g3) as [r4 g4] eqn:E4. apply logged_error_run in E4 as (g4' & E4 & Hl4).
    apply write_resolv_run in E4; [|done]. destruct r4 as [[]|e].
    + exists (resolver_calls (d :: ds)). cbn in H. injection H as <- <-. split_and!; [apply Hend|done..].
      pose proof (effect_trans _ _ _ _ _ E4 Hl4) as T. rewrite app_nil_r in T. exact T.
    + injection H as <- <-. destruct E4 as (w & Hw & Hc). exists w. split_and!; [apply Hend|done..].
      pose proof (effect_trans _ _ _ _ _ Hw Hl4) as T. by rewrite app_nil_r in T.
Qed.

(** Applying a configuration changes link flags first, whatever comes of that; then it either
    fails on the interface, having touched neither a route nor the resolver file, or gives the
    interface exactly the address and mask asked for, raises it with no other flag changed, goes on
    to the default route, whatever comes of that, and ends with the resolver file: it succeeds
    exactly when the file is written with the resolvers asked for, if there are any. *)
Theorem apply_spec cfg g r g' (H : apply kernel cfg g = (r, g')) :
  (exists e cs, r = Err e /\ effect g g' cs /\ Forall link_call cs) \/
  (exists before seen routes written,
    effect g g' (before ++ eth0_calls (ip cfg) (netmask_octets (prefix cfg)) seen ++ routes ++ written) /\
    Forall flag_call before /\ Forall route_call routes /\
    match r with
    | Ok _ => written = resolver_calls (dns cfg)
    | Err _ => dns cfg <> [] /\ (written = [] \/ written = [CCreateDirAll (B "/etc")])
    end).
Proof. exact (apply_run cfg g r g' H). Qed.
End apply.

Definition example_cfg : NetConfig :=
  MkNetConfig (map ascii_of_N [10; 107; 3; 2])%N 30 (Some (map ascii_of_N [10; 107; 3; 1])%N) [B "1.1.1.1"].

(** A kernel that reports no flags and lets everything happen, or everything but writing a file. *)
Definition obliging : History -> Call -> Answer := fun _ _ => Ok (zeros 40).
Definition read_only_root : History -> Call -> Answer := fun _ c =>
  match c with CWrite _ _ => Err (MkIoError (Some 30%N) (B "Read-only file system")) | _ => Ok (zeros 40) end.

Lemma apply_spec_witness :
  exists before seen routes written,
    effect guest0 (snd (apply obliging example_cfg guest0))
      (before ++ eth0_calls (ip example_cfg) (netmask_octets 30) seen ++ routes ++ written) /\
    Forall flag_call before /\ Forall route_call routes /\ written = resolver_calls [B "1.1.1.1"].
Proof.
  assert (E : apply obliging example_cfg guest0 = (Ok tt, snd (apply obliging example_cfg guest0)))
    by (vm_compute; reflexivity).
  destruct (apply_spec obliging example_cfg guest0 _ _ E) as [(e & _ & H & _)|H]; [discriminate H|exact H].
Defined.

(** A resolver file that cannot be written fails the call, although the interface is up. *)
Example resolver_failure_fails :
  fst (apply read_only_root example_cfg guest0) = Err (MkIoError (Some 30%N) (B "Read-only file system")).
Proof. vm_compute. reflexivity. Qed.

(** ** What is reported of the resolver *)

Lemma best_effort_total m complaint g : (forall e g, exists g', complaint e g = (Ok tt, g')) ->
  exists g', best_effort m complaint g = (Ok tt, g').
Proof. intros Hc. unfold best_effort, se_bind, se_try. destruct (m g) as [[?|e] g1]; [by eexists|apply Hc]. Qed.

(** The resolver is what the guest uses after a boot that reports nothing: the file was written with
    it, or was read back afterwards and named it. *)
Definition resolver_in_force (g g' : Guest) (dns : list bytes) : Prop :=
  (exists cs, effect g g' cs /\ CWrite RESOLV_CONF (resolv_body dns) ∈ cs) \/
  (exists h text, history g' = h ++ [(CRead RESOLV_CONF, Ok text)] /\ names_resolvers text dns = true).

Lemma resolver_at_boot_run kernel cmdline cfg g :
  parse_config cmdline = Ok cfg -> dns cfg <> [] ->
  exists resolv g', resolver_at_boot kernel cmdline g = (Ok resolv, g') /\
    match resolv with Some m => m = resolv_message (dns cfg) | None => resolver_in_force g g' (dns cfg) end.
Proof.
  intros Hc Hd. unfold resolver_at_boot. rewrite Hc. unfold se_bind, se_try at 1.
  destruct (apply kernel cfg g) as [r g1] eqn:E. cbn [negb].
  assert (Hw : negb (length (dns cfg) =? 0)%nat = true) by (by destruct (dns cfg)). rewrite Hw.
  destruct r as [[]|e]; cbn [is_ok negb andb].
  - exists None, g1. split; [done|]. left.
    apply apply_run in E as [(e & _ & [=] & _)|(before & seen & routes & written & He & _ & _ & ->)].
    eexists. split; [exact He|]. rewrite !elem_of_app. right. right. right. destruct (dns cfg); [done|].
    cbn. set_solver.
  - unfold resolv_conf_matches, se_bind, se_try, se_ret. destruct (call kernel (CRead RESOLV_CONF) g1) as [a g2] eqn:Ea.
    assert (Hh : history g2 = history g1 ++ [(CRead RESOLV_CONF, a)]) by (by injection Ea as <- <-).
    destruct a as [text|e']; [destruct (names_resolvers text (dns cfg)) eqn:En|]; cbn [negb].
    + exists None, g2. split; [done|]. right. eauto.
    + by eexists _, g2.
    + by eexists _, g2.
Qed.

(** C39: At boot, when the command line's configuration names resolvers, either they are in force or
    the failure is recorded, with the resolvers that were asked for; the boot itself never fails. *)
Theorem resolver_reported kernel g cmdline cfg
  (Hread : kernel (history g) (CRead (B "/proc/cmdline")) = Ok cmdline)
  (Hcfg : parse_config cmdline = Ok cfg) (Hdns : dns cfg <> []) :
  exists env resolv g', configure_if_requested kernel g = (Ok (env, resolv), g') /\
    match resolv with
    | Some m => m = resolv_message (dns cfg)
    | None => exists g1, effect g g1 [CRead (B "/proc/cmdline")] /\ resolver_in_force g1 g' (dns cfg)
    end.
Proof.
  assert (Hnet : exists v, value cmdline (B "isopod.net") = Some v).
  { unfold parse_config in Hcfg. destruct (value cmdline (B "isopod.net")); [eauto|done]. }
  destruct Hnet as [v Hv]. unfold configure_if_requested, se_bind at 1, se_try.
  destruct (call kernel _ g) as [a g1] eqn:Ea.
  assert (a = Ok cmdline) as -> by (unfold call in Ea; rewrite Hread in Ea; by injection Ea as <- <-).
  apply effect_call in Ea. cbn [is_ok] in Ea. rewrite Hv.
  assert (Hp : exists env g2, proxy_at_boot cmdline g1 = (Ok env, g2) /\ effect g1 g2 []).
  { unfold proxy_at_boot. destruct (value cmdline (B "isopod.proxy")) as [raw|].
    - destruct (parse_proxy_token raw) as [[[s h] i]|]; eexists _, _; (split; [reflexivity|apply effect_logged]).
    - eexists _, _. split; [reflexivity|apply effect_refl]. }
  destruct Hp as (env & g2 & Hp & He2). unfold se_bind. rewrite Hp.
  destruct (resolver_at_boot_run kernel cmdline cfg g2 Hcfg Hdns) as (resolv & g3 & Hr & Hm). rewrite Hr.
  exists env, resolv, g3. split; [done|]. destruct resolv; [done|]. exists g2. split; [|done].
  exact (effect_trans _ _ _ _ _ Ea He2).
Qed.

Definition net_cmdline : bytes := B "quiet isopod.net=10.107.3.2/30 isopod.gw=10.107.3.1 isopod.dns=1.1.1.1,8.8.8.8".

Lemma resolver_reported_witness :
  parse_config net_cmdline = Ok (MkNetConfig (map ascii_of_N [10; 107; 3; 2])%N 30
      (Some (map ascii_of_N [10; 107; 3; 1])%N) [B "1.1.1.1"; B "8.8.8.8"]) /\
  exists env resolv g', configure_if_requested (fun _ c => match c with CRead _ => Ok net_cmdline | _ => Ok (zeros 40) end) guest0
    = (Ok (env, resolv), g') /\
    match resolv with
    | Some m => m = resolv_message [B "1.1.1.1"; B "8.8.8.8"]
    | None => exists g1, effect guest0 g1 [CRead (B "/proc/cmdline")] /\ resolver_in_force g1 g' [B "1.1.1.1"; B "8.8.8.8"]
    end.
Proof.
  split; [vm_compute; reflexivity|].
  apply (resolver_reported _ guest0 net_cmdline (MkNetConfig (map ascii_of_N [10; 107; 3; 2])%N 30
      (Some (map ascii_of_N [10; 107; 3; 1])%N) [B "1.1.1.1"; B "8.8.8.8"])); [reflexivity|vm_compute; reflexivity|done].
Defined.
