(* ===== verification/BootArgs.v ===== *)
(** * Booting a run ([crates/core/src/vm/mod.rs], with [broker.rs]'s endpoints)

    What the host tells Firecracker before a guest starts: the machine, the kernel command line,
    the drives and the interface.  The guest agent reads the command line back ([Cmdline],
    [GuestNet]) and finds the drives by the order they were attached in ([Overlay]); the theorems
    compose the two sides.

    Firecracker's API socket is a parameter: it accepts or refuses a request, given those it
    accepted before. *)
From stdpp Require Import sorting.
From S2P Require Import Prelude Text Effects.
From S2P Require Slots Stage Resources.
From S2P Require Import Sys GuestSys Cmdline Order Overlay GuestNet.

(** A Rust string literal with a line continuation is one line. *)
Definition BOOT_ARGS : bytes :=
  B "console=ttyS0 reboot=k panic=1 pci=off root=/dev/vda " ++
  B "init=/init quiet i8042.noaux i8042.nomux i8042.nopnp i8042.dumbkbd 8250.nr_uarts=1".

Definition DEFAULT_DNS : bytes := B "1.1.1.1,8.8.8.8".

(** [BrokerEndpoints] *)
Record BrokerEndpoints : Type := MkEndpoints {
  ep_socks : bytes; ep_http : bytes; ep_inject : option bytes; ep_dns : bytes }.

(** [SocketAddr::to_string] of an IPv4 gateway, and what [Broker::start] announces of it. *)
Definition show_addr (gw : bytes) (port : N) : bytes := gw ++ B ":" ++ show_N port.
Definition endpoints (gw : bytes) (socks http inject : N) (has_credentials : bool) : BrokerEndpoints :=
  MkEndpoints (show_addr gw socks) (show_addr gw http)
    (if has_credentials then Some (show_addr gw inject) else None) gw.

Inductive DiskConfig : Type :=
  | Flavor (rootfs_copy : bytes)
  | StageDisk (base_sqfs : bytes) (base : Stage.BaseId) (layer_paths : list bytes) (scratch : bytes)
      (parent : option bytes) (allow_base_skew : bool).

Definition build_boot_args (disk : DiskConfig) (net : option Slots.Slot) (broker : option BrokerEndpoints) : bytes :=
  let args := BOOT_ARGS in
  let args := match disk with
    | StageDisk _ _ layer_paths _ _ _ => args ++ B " isopod.layers=" ++ show_N (N.of_nat (length layer_paths))
    | Flavor _ => args
    end in
  match net with
  | Some slot =>
      let dns := match broker with Some b => ep_dns b | None => DEFAULT_DNS end in
      let args := args ++ B " isopod.net=" ++ Slots.guest_cidr (Slots.index slot) ++
        B " isopod.gw=" ++ Slots.host_ip (Slots.index slot) ++ B " isopod.dns=" ++ dns in
      match broker with
      | Some b =>
          let args := args ++ B " isopod.proxy=socks=" ++ ep_socks b ++ B ",http=" ++ ep_http b in
          match ep_inject b with Some i => args ++ B ",inject=" ++ i | None => args end
      | None => args
      end
  | None => args
  end.

(** ** Requests to Firecracker *)

Record DriveSpec : Type := MkDrive {
  drive_id : bytes; path_on_host : bytes; is_root_device : bool; is_read_only : bool }.

Inductive Put : Type :=
  | MachineConfig (vcpu_count mem_size_mib : N)
  | BootSource (kernel_path boot_args : bytes)
  | PutDrive (d : DriveSpec)
  | PutInterface (iface_id host_dev_name guest_mac : bytes).

(** The step a refusal names, with the answer. *)
Record BootError : Type := MkBootError { context : bytes; refusal : bytes }.

Section boot.
Context (api : list Put -> Put -> result unit bytes).
Abbreviation C := (SE (list Put) BootError).

Definition put (ctx : bytes) (p : Put) : C unit := fun s =>
  match api s p with Ok _ => (Ok tt, s ++ [p]) | Err e => (Err (MkBootError ctx e), s) end.

(** The throwaway boots: one CPU, 256 MiB, the root device. *)
Definition configure_boot (kernel rootfs : bytes) : C unit :=
  do! _ := put (B "PUT /machine-config") (MachineConfig 1 256) in
  do! _ := put (B "PUT /boot-source") (BootSource kernel BOOT_ARGS) in
  put (B "PUT /drives/rootfs") (PutDrive (MkDrive (B "rootfs") rootfs true true)).

Fixpoint put_layers (i : nat) (layers : list bytes) : C unit :=
  match layers with
  | [] => se_ret (Ok tt)
  | layer :: r =>
      let id := B "layer" ++ show_N (N.of_nat i) in
      do! _ := put (B "PUT /drives/" ++ id) (PutDrive (MkDrive id layer false true)) in
      put_layers (S i) r
  end.

Definition put_drives (disk : DiskConfig) : C unit :=
  match disk with
  | Flavor rootfs_copy => put (B "PUT /drives/rootfs") (PutDrive (MkDrive (B "rootfs") rootfs_copy true true))
  | StageDisk base_sqfs _ layer_paths scratch _ _ =>
      do! _ := put (B "PUT /drives/base") (PutDrive (MkDrive (B "base") base_sqfs true true)) in
      do! _ := put_layers 0 layer_paths in
      put (B "PUT /drives/scratch") (PutDrive (MkDrive (B "scratch") scratch false false))
  end.

Definition slot_tap (slot : Slots.Slot) : bytes := B "isopod-tap" ++ show_N (N.of_nat (Slots.index slot)).

Definition configure_run_boot (kernel : bytes) (disk : DiskConfig) (resources : Resources.Resources)
    (net : option Slots.Slot) (broker : option BrokerEndpoints) : C unit :=
  do! _ := put (B "PUT /machine-config") (MachineConfig (Resources.vcpus resources) (Resources.mem_mib resources)) in
  do! _ := put (B "PUT /boot-source") (BootSource kernel (build_boot_args disk net broker)) in
  do! _ := put_drives disk in
  match net with
  | Some slot =>
      put (B "PUT /network-interfaces/eth0 (slot " ++ show_N (N.of_nat (Slots.index slot)) ++ B ", tap " ++ slot_tap slot ++ B ")")
        (PutInterface (B "eth0") (slot_tap slot) (Slots.guest_mac (Slots.index slot)))
  | None => se_ret (Ok tt)
  end.
End boot.

(** ** The requests of a boot *)

Definition drives_of (disk : DiskConfig) : list DriveSpec :=
  match disk with
  | Flavor rootfs_copy => [MkDrive (B "rootfs") rootfs_copy true true]
  | StageDisk base_sqfs _ layer_paths scratch _ _ =>
      MkDrive (B "base") base_sqfs true true ::
      imap (fun i l => MkDrive (B "layer" ++ show_N (N.of_nat i)) l false true) layer_paths ++
      [MkDrive (B "scratch") scratch false false]
  end.

Definition boot_puts (kernel : bytes) (disk : DiskConfig) (res : Resources.Resources) (net : option Slots.Slot)
    (broker : option BrokerEndpoints) : list Put :=
  [MachineConfig (Resources.vcpus res) (Resources.mem_mib res); BootSource kernel (build_boot_args disk net broker)] ++
  map PutDrive (drives_of disk) ++
  match net with Some slot => [PutInterface (B "eth0") (slot_tap slot) (Slots.guest_mac (Slots.index slot))] | None => [] end.

(** [m] makes the requests [ps] in order and stops at the first that is refused. *)
Definition sends (api : list Put -> Put -> result unit bytes) (m : SE (list Put) BootError unit) (ps : list Put) : Prop :=
  forall s, match m s with
  | (Ok _, s') => s' = s ++ ps
  | (Err e, s') => exists done p rest, ps = done ++ p :: rest /\ s' = s ++ done /\ api s' p = Err (refusal e)
  end.

Section sends.
Context (api : list Put -> Put -> result unit bytes).

Lemma sends_nil : sends api (se_ret (Ok tt)) [].
Proof. intros s. cbn. by rewrite app_nil_r. Qed.

Lemma sends_put ctx p : sends api (put api ctx p) [p].
Proof.
  intros s. unfold put. destruct (api s p) as [u|e] eqn:E; [done|].
  exists [], p, []. by rewrite app_nil_r.
Qed.

Lemma boot_sends_bind (m k : SE (list Put) BootError unit) a b :
  sends api m a -> sends api k b -> sends api (do! _ := m in k) (a ++ b).
Proof.
  intros Hm Hk s. specialize (Hm s). unfold se_bind. destruct (m s) as [[u|e] s1].
  - subst s1. specialize (Hk (s ++ a)). destruct (k (s ++ a)) as [[u'|e] s2].
    + by rewrite Hk, app_assoc.
    + destruct Hk as (d & p & r & -> & -> & He). exists (a ++ d), p, r. by rewrite !app_assoc.
  - destruct Hm as (d & p & r & -> & -> & He). exists d, p, (r ++ b). by rewrite <- app_assoc.
Qed.

Lemma sends_layers i layers :
  sends api (put_layers api i layers)
    (map PutDrive (imap (fun j l => MkDrive (B "layer" ++ show_N (N.of_nat (i + j))) l false true) layers)).
Proof.
  revert i. induction layers as [|l layers IH]; intros i; [apply sends_nil|]. cbn [put_layers imap map].
  rewrite Nat.add_0_r. apply (boot_sends_bind _ _ [_]); [apply sends_put|].
  erewrite imap_ext; [apply (IH (S i))|]. intros j x _. cbn. by rewrite Nat.add_succ_r.
Qed.

Lemma sends_run_boot kernel disk res net broker :
  sends api (configure_run_boot api kernel disk res net broker) (boot_puts kernel disk res net broker).
Proof.
  unfold configure_run_boot, boot_puts. apply (boot_sends_bind _ _ [_]); [apply sends_put|].
  apply (boot_sends_bind _ _ [_]); [apply sends_put|]. apply boot_sends_bind.
  - destruct disk as [rootfs|base bid layers scratch parent skew]; [apply sends_put|]. cbn [put_drives drives_of map].
    apply (boot_sends_bind _ _ [_]); [apply sends_put|]. rewrite map_app. apply boot_sends_bind; [apply (sends_layers 0)|apply sends_put].
  - destruct net; [apply sends_put|apply sends_nil].
Qed.

(** The configuration of a run makes exactly its requests, in order: the machine as it was resolved,
    the command line, the root device first and the scratch drive last, the interface; the first
    refusal ends it and is reported. *)
Theorem configure_run_boot_sends kernel disk res net broker :
  sends api (configure_run_boot api kernel disk res net broker) (boot_puts kernel disk res net broker).
Proof. apply sends_run_boot. Qed.
End sends.

(** ** The command line as words *)

Definition boot_words : list bytes := split space BOOT_ARGS.

Definition pair_word (k v : bytes) : bytes := k ++ "="%char :: v.

Definition proxy_token (b : BrokerEndpoints) : bytes :=
  B "socks=" ++ ep_socks b ++ B ",http=" ++ ep_http b ++
  match ep_inject b with Some i => B ",inject=" ++ i | None => [] end.

Definition arg_words (disk : DiskConfig) (net : option Slots.Slot) (broker : option BrokerEndpoints) : list bytes :=
  boot_words ++
  match disk with
  | StageDisk _ _ layers _ _ _ => [pair_word LAYERS_KEY (show_N (N.of_nat (length layers)))]
  | Flavor _ => []
  end ++
  match net with
  | Some slot =>
      [pair_word (B "isopod.net") (Slots.guest_cidr (Slots.index slot));
       pair_word (B "isopod.gw") (Slots.host_ip (Slots.index slot));
       pair_word (B "isopod.dns") (match broker with Some b => ep_dns b | None => DEFAULT_DNS end)] ++
      match broker with Some b => [pair_word (B "isopod.proxy") (proxy_token b)] | None => [] end
  | None => []
  end.

Lemma join_last_word a w : a <> [] -> join [space] (a ++ [w]) = join [space] a ++ space :: w.
Proof.
  induction a as [|x a IH]; [done|]. intros _. destruct a as [|y a]; [done|].
  change (join [space] ((x :: y :: a) ++ [w])) with (x ++ space :: join [space] ((y :: a) ++ [w])).
  rewrite IH by done. change (join [space] (x :: y :: a)) with (x ++ space :: join [space] (y :: a)).
  by rewrite <- app_assoc.
Qed.

Lemma boot_words_join : join [space] boot_words = BOOT_ARGS.
Proof. apply join_split. Qed.

Lemma join_words a ws : a <> [] -> join [space] (a ++ ws) = join [space] a ++ concat (map (cons space) ws).
Proof.
  revert a. induction ws as [|w ws IH]; intros a Ha; [by rewrite !app_nil_r|].
  rewrite (cons_middle w), app_assoc, IH by (by destruct a). rewrite join_last_word by done. cbn [map concat].
  by rewrite <- app_assoc.
Qed.

(** The command line is its words with a space between them. *)
Lemma boot_args_words disk net broker : build_boot_args disk net broker = join [space] (arg_words disk net broker).
Proof.
  unfold arg_words. rewrite join_words by done. rewrite boot_words_join. unfold build_boot_args, pair_word, proxy_token.
  destruct disk as [rootfs|base bid layers scratch parent skew], net as [slot|]; try destruct broker as [b|];
    try destruct (ep_inject b) as [i|]; cbn [app map concat]; rewrite <- ?app_assoc, ?app_nil_r; try reflexivity;
    cbn [app map concat]; rewrite <- ?app_assoc, ?app_nil_r; reflexivity.
Qed.

Lemma word_app k v : word k -> forallb is_ascii_graphic v = true -> word (pair_word k v).
Proof.
  intros [Hk Hg] Hv. split; [by destruct k|]. unfold pair_word. rewrite forallb_app, Hg. cbn. by rewrite Hv.
Qed.

(** The texts a broker announces: of graphic characters, not empty, without a comma. *)
Definition endpoint_ok (e : bytes) : Prop := e <> [] /\ forallb is_ascii_graphic e = true /\ ","%char ∉ e.
Definition endpoints_ok (b : BrokerEndpoints) : Prop :=
  endpoint_ok (ep_socks b) /\ endpoint_ok (ep_http b) /\ (forall i, ep_inject b = Some i -> endpoint_ok i) /\
  is_ok (parse_ipv4 (ep_dns b)) = true /\ ep_dns b <> [] /\ ","%char ∉ ep_dns b.

Lemma digits_graphic n : forallb is_ascii_graphic (show_N n) = true.
Proof.
  pose proof (show_N_digits n) as H. rewrite forallb_forall in H |- *. intros c Hc. specialize (H c Hc).
  revert H. by all_bytes c.
Qed.

Lemma slot_graphic i : forallb is_ascii_graphic (Slots.guest_cidr i) = true /\ forallb is_ascii_graphic (Slots.host_ip i) = true.
Proof. unfold Slots.guest_cidr, Slots.host_ip, Slots.show_nat. rewrite !forallb_app, !digits_graphic. done. Qed.

Lemma arg_words_wf disk net broker : (forall b, broker = Some b -> endpoints_ok b) -> Forall word (arg_words disk net broker).
Proof.
  intros Hb. unfold arg_words. rewrite !Forall_app. split_and!.
  - apply Forall_forall. assert (H : forallb (fun w => negb (beq w []) && forallb is_ascii_graphic w) boot_words = true)
      by (vm_compute; reflexivity). rewrite forallb_forall in H.
    intros w Hw. apply list_elem_of_In, H in Hw. reflect_bools. split; [|done]. intros ->. done.
  - destruct disk; [constructor|]. apply Forall_singleton. apply word_app; [done|apply digits_graphic].
  - destruct net as [slot|]; [|constructor]. destruct (slot_graphic (Slots.index slot)) as [Hc Hh].
    rewrite Forall_app. split; [repeat (apply Forall_cons; split); [by apply word_app..|apply word_app; [done|]|constructor]|].
    + destruct broker as [b|]; [|done]. destruct (Hb b eq_refl) as (_ & _ & _ & Hd & _).
      destruct (parse_ipv4 (ep_dns b)) as [o|] eqn:E; [|done]. by apply ipv4_graphic in E as [? _].
    + destruct broker as [b|]; [|constructor]. apply Forall_singleton, word_app; [done|].
      destruct (Hb b eq_refl) as ((_ & Hs & _) & (_ & Hh' & _) & Hi & _). unfold proxy_token. rewrite !forallb_app, Hs, Hh'.
      destruct (ep_inject b) as [i|]; [|done]. destruct (Hi i eq_refl) as (_ & Hg & _). by rewrite forallb_app, Hg.
Qed.

(** What the guest's kernel command line holds: the host's words first, then whatever Firecracker
    and the kernel add. *)
Definition cmdline_of (args cmdline : bytes) (extra : list bytes) : Prop :=
  split_whitespace cmdline = split_whitespace args ++ extra.

Section readback.
Context (disk : DiskConfig) (net : option Slots.Slot) (broker : option BrokerEndpoints) (cmdline : bytes) (extra : list bytes).
Hypothesis Hbroker : forall b, broker = Some b -> endpoints_ok b.
Hypothesis Hcmd : cmdline_of (build_boot_args disk net broker) cmdline extra.

Lemma value_of_key key : value cmdline key = find_value key (arg_words disk net broker ++ extra).
Proof.
  unfold value. rewrite Hcmd, boot_args_words, split_whitespace_join; [done|]. by apply arg_words_wf.
Qed.

Lemma find_boot key : starts_with (B "isopod.") key = true -> find_value key boot_words = None.
Proof.
  intros Hk. assert (Hw : forall toks, forallb (fun t => match split_once "=" t with
      | Some (k, _) => negb (starts_with (B "isopod.") k) | None => true end) toks = true -> find_value key toks = None).
  { induction toks as [|t toks IH]; [done|]. cbn [forallb find_value]. intros [Ht Hr]%andb_true_iff.
    destruct (split_once "=" t) as [[k v]|]; [|by apply IH]. destruct (beq k key) eqn:E; [|by apply IH].
    apply beq_true in E as ->. by rewrite Hk in Ht. }
  apply Hw. vm_compute. reflexivity.
Qed.

(** The value of a key of the host's, once the words before it are known not to have it. *)
Lemma value_layers base bid layers scratch parent skew : disk = StageDisk base bid layers scratch parent skew ->
  value cmdline LAYERS_KEY = Some (show_N (N.of_nat (length layers))).
Proof.
  intros Hd. rewrite value_of_key. unfold arg_words. rewrite Hd, <- !app_assoc, find_value_app, find_boot by done.
  cbn [app]. unfold pair_word at 1. by rewrite find_value_pair by by apply contains_false.
Qed.

Lemma value_net slot key w : net = Some slot -> (key, w) ∈ [(B "isopod.net", Slots.guest_cidr (Slots.index slot)); (B "isopod.gw", Slots.host_ip (Slots.index slot));
    (B "isopod.dns", match broker with Some b => ep_dns b | None => DEFAULT_DNS end)] -> value cmdline key = Some w.
Proof.
  intros Hnet Hin. rewrite value_of_key. unfold arg_words. rewrite Hnet, <- !app_assoc, find_value_app.
  assert (Hd : forall rest, find_value key (match disk with
      | StageDisk _ _ layers _ _ _ => [pair_word LAYERS_KEY (show_N (N.of_nat (length layers)))] | Flavor _ => [] end ++ rest) =
      find_value key rest).
  { intros rest. destruct disk as [|? ? layers ? ? ?]; [done|]. cbn [app]. unfold pair_word.
    rewrite find_value_pair by by apply contains_false.
    apply elem_of_cons in Hin as [[= -> _]|Hin]; [done|]. apply elem_of_cons in Hin as [[= -> _]|Hin]; [done|].
    by apply list_elem_of_singleton in Hin as [= -> _]. }
  rewrite Hd. cbn [app]. unfold pair_word.
  apply elem_of_cons in Hin as [[= -> ->]|Hin]; [|apply elem_of_cons in Hin as [[= -> ->]|Hin]];
    [..|apply list_elem_of_singleton in Hin as [= -> ->]];
    (rewrite find_boot by done); rewrite !find_value_pair by (by apply contains_false); reflexivity.
Qed.

Lemma value_proxy slot b : net = Some slot -> broker = Some b -> value cmdline (B "isopod.proxy") = Some (proxy_token b).
Proof.
  intros Hn Hb. rewrite value_of_key. unfold arg_words. rewrite Hn, Hb, <- !app_assoc, find_value_app, find_boot by done.
  destruct disk; cbn [app]; unfold pair_word; rewrite !find_value_pair by (by apply contains_false); reflexivity.
Qed.

Lemma parse_layers_back base bid layers scratch parent skew :
  disk = StageDisk base bid layers scratch parent skew -> (N.of_nat (length layers) <= u64_max)%N ->
  parse_layers cmdline = Some (N.of_nat (length layers)).
Proof.
  intros Hd Hn. unfold parse_layers. rewrite (value_layers _ _ _ _ _ _ Hd). by rewrite parse_show.
Qed.

(** Only what is appended after the host's words can ask for the upper in memory. *)
Lemma parse_upper_back : find_value UPPER_KEY extra = None -> parse_upper cmdline = Drive.
Proof.
  intros He. unfold parse_upper. rewrite value_of_key. unfold arg_words.
  rewrite <- !app_assoc, find_value_app, find_boot by done.
  assert (Hn : find_value UPPER_KEY (match disk with
      | StageDisk _ _ layers _ _ _ => [pair_word LAYERS_KEY (show_N (N.of_nat (length layers)))] | Flavor _ => [] end ++
      match net with
      | Some slot => [pair_word (B "isopod.net") (Slots.guest_cidr (Slots.index slot));
          pair_word (B "isopod.gw") (Slots.host_ip (Slots.index slot));
          pair_word (B "isopod.dns") (match broker with Some b => ep_dns b | None => DEFAULT_DNS end)] ++
          match broker with Some b => [pair_word (B "isopod.proxy") (proxy_token b)] | None => [] end
      | None => [] end ++ extra) = None).
  { destruct disk, net as [slot|]; try destruct broker as [b|]; cbn [app]; unfold pair_word;
      rewrite ?find_value_pair by (by apply contains_false); exact He. }
  by rewrite Hn.
Qed.
End readback.

Lemma slot_quad i k : (i < 256)%nat -> (k < 256)%N ->
  B "10.107." ++ Slots.show_nat i ++ "."%char :: show_N k =
  fmt_ip [ascii_of_N 10; ascii_of_N 107; ascii_of_N (N.of_nat i); ascii_of_N k].
Proof.
  intros Hi Hk. unfold fmt_ip. cbn [map]. rewrite !code_of_N by lia. reflexivity.
Qed.

Lemma build_config_slot i dns : (i < 256)%nat ->
  build_config (Slots.guest_cidr i) (Some (Slots.host_ip i)) dns = Ok {|
    ip := [ascii_of_N 10; ascii_of_N 107; ascii_of_N (N.of_nat i); ascii_of_N 2]; prefix := 30;
    gw := Some [ascii_of_N 10; ascii_of_N 107; ascii_of_N (N.of_nat i); ascii_of_N 1];
    dns := List.filter (fun s => is_ok (parse_ipv4 s)) (List.filter (fun s => negb (beq s [])) dns) |}.
Proof.
  intros Hi. unfold build_config.
  assert (Hc : Slots.guest_cidr i = (B "10.107." ++ Slots.show_nat i ++ "."%char :: show_N 2) ++ "/"%char :: B "30").
  { unfold Slots.guest_cidr. rewrite <- !app_assoc. reflexivity. }
  rewrite Hc, split_once_app.
  - cbn [ok_or rbind]. rewrite slot_quad by (done || lia). rewrite parse_fmt_ip by done. cbn [rbind].
    change (parse_uint u8_max (B "30")) with (Some 30%N). cbn [ok_or rbind]. change (32 <? 30)%N with false. cbv iota.
    change (Slots.host_ip i) with (B "10.107." ++ Slots.show_nat i ++ "."%char :: show_N 1).
    rewrite slot_quad by (done || lia). by rewrite parse_fmt_ip.
  - rewrite !not_elem_of_app. split_and!; [by apply contains_false|apply slash_not_digit|by apply contains_false].
Qed.

(** Whatever is appended after it, the command line the host writes for a slot is read by the
    guest as that slot's own address, prefix, gateway and resolvers, as the broker's endpoints if the
    run is filtered (the credential endpoint exactly if there is one), and as the number of layers of
    the stage. *)
Theorem boot_args_roundtrip disk slot broker cmdline extra
  (Hslot : (Slots.index slot < 256)%nat)
  (Hbroker : forall b, broker = Some b -> endpoints_ok b)
  (Hcmd : cmdline_of (build_boot_args disk (Some slot) broker) cmdline extra) :
  let i := ascii_of_N (N.of_nat (Slots.index slot)) in
  parse_config cmdline = Ok {|
    ip := [ascii_of_N 10; ascii_of_N 107; i; ascii_of_N 2]; prefix := 30;
    gw := Some [ascii_of_N 10; ascii_of_N 107; i; ascii_of_N 1];
    dns := match broker with Some b => [ep_dns b] | None => [B "1.1.1.1"; B "8.8.8.8"] end |} /\
  (forall b, broker = Some b ->
    value cmdline (B "isopod.proxy") = Some (proxy_token b) /\
    parse_proxy_token (proxy_token b) = Some (ep_socks b, ep_http b, ep_inject b)) /\
  (forall base bid layers scratch parent skew, disk = StageDisk base bid layers scratch parent skew ->
    (N.of_nat (length layers) <= u64_max)%N -> parse_layers cmdline = Some (N.of_nat (length layers))).
Proof.
  intros i. split_and!.
  - unfold parse_config.
    rewrite (value_net disk (Some slot) broker cmdline extra Hbroker Hcmd slot (B "isopod.net") _ eq_refl ltac:(by left)).
    rewrite (value_net disk (Some slot) broker cmdline extra Hbroker Hcmd slot (B "isopod.gw") _ eq_refl ltac:(by right; left)).
    rewrite (value_net disk (Some slot) broker cmdline extra Hbroker Hcmd slot (B "isopod.dns") _ eq_refl ltac:(by right; right; left)).
    cbn [ok_or rbind default]. rewrite build_config_slot by done. do 2 f_equal.
    destruct broker as [b|]; [|vm_compute; reflexivity].
    destruct (Hbroker b eq_refl) as (_ & _ & _ & Hd & Hne & Hc). cbn [option_map]. rewrite split_none by done.
    assert (Hb : beq (ep_dns b) [] = false) by (apply not_true_iff_false; by rewrite beq_true).
    unfold id. cbn [List.filter]. rewrite Hb. cbn [negb List.filter]. rewrite Hb. cbn [negb List.filter]. by rewrite Hd.
  - intros b Hb. split; [by eapply value_proxy|]. destruct (Hbroker b Hb) as ((? & _ & ?) & (? & _ & ?) & Hi & _).
    apply proxy_token_readback; [done..|]. intros e He. by destruct (Hi e He) as (? & _ & ?).
  - intros. by eapply parse_layers_back.
Qed.

Definition example_slot : Slots.Slot := Slots.MkSlot 3 1 true.
Definition example_disk : DiskConfig :=
  StageDisk (B "/img/base.sqfs") (Stage.unstamped (B "base")) [B "/s/a"; B "/s/b"] (B "/vm/scratch.ext4") None false.
Definition example_broker : BrokerEndpoints := endpoints (B "10.107.3.1") 1080 3128 3129 true.

Lemma example_broker_ok : forall b, Some example_broker = Some b -> endpoints_ok b.
Proof.
  intros b [= <-]. unfold endpoints_ok, endpoint_ok. split_and!; try done; try by apply contains_false.
  intros i [= <-]. split_and!; [done..|]. by apply contains_false.
Qed.

Definition example_cmdline : bytes := build_boot_args example_disk (Some example_slot) (Some example_broker) ++ B " root=/dev/vda ro".

Lemma boot_args_roundtrip_witness :
  parse_config example_cmdline = Ok {|
    ip := map ascii_of_N [10; 107; 3; 2]%N; prefix := 30; gw := Some (map ascii_of_N [10; 107; 3; 1]%N);
    dns := [B "10.107.3.1"] |} /\
  value example_cmdline (B "isopod.proxy") = Some (proxy_token example_broker).
Proof.
  destruct (boot_args_roundtrip example_disk example_slot (Some example_broker) example_cmdline [B "root=/dev/vda"; B "ro"])
    as (H1 & H2 & _); [cbn; lia|exact example_broker_ok|vm_compute; reflexivity|].
  split; [exact H1|]. by apply H2.
Defined.

(** ** The root of a stage, from the host's files to the guest's overlay *)

Definition drives (puts : list Put) : list DriveSpec :=
  omap (fun p => match p with PutDrive d => Some d | _ => None end) puts.

(** Linux names virtio disks [vda], [vdb], ... in the order they are attached; the first 26. *)
Definition virtio_name (i : nat) : bytes := B "vd" ++ [ascii_of_N (97 + N.of_nat i)].
Definition virtio_dev (i : nat) : bytes := B "/dev/" ++ virtio_name i.

Fixpoint attached (i : nat) (ds : list DriveSpec) (dev : bytes) : option DriveSpec :=
  match ds with
  | [] => None
  | d :: r => if beq (virtio_dev i) dev then Some d else attached (S i) r dev
  end.

(** The host file behind a place of the guest, whether it can be written through that place, and the
    directory in it.  A place without a device is the root device's. *)
Definition file_of (ds : list DriveSpec) (p : Place) : option (bytes * bool * bytes) :=
  let drive := match device p with
    | Some dev => attached 0 ds dev
    | None => List.find is_root_device ds
    end in
  option_map (fun d => (path_on_host d, is_read_only d || read_only p, inside p)) drive.

Lemma virtio_inj i j : (i < 26)%nat -> (j < 26)%nat -> virtio_dev i = virtio_dev j -> i = j.
Proof.
  intros Hi Hj [= E]. apply (f_equal code) in E. rewrite !code_of_N in E by lia. lia.
Qed.

Lemma attached_at ds i k d : ds !! k = Some d -> (i + length ds <= 26)%nat -> attached i ds (virtio_dev (i + k)) = Some d.
Proof.
  revert i k. induction ds as [|x ds IH]; intros i k; [done|]. cbn [attached length]. destruct k as [|k]; cbn [lookup list_lookup].
  - intros [= ->] _. rewrite Nat.add_0_r. by rewrite (proj2 (beq_true _ _) eq_refl).
  - intros Hk Hl. assert (Hlt : (k < length ds)%nat) by (by eapply lookup_lt_Some).
    assert (beq (virtio_dev i) (virtio_dev (i + S k)) = false) as ->.
    { apply not_true_iff_false. rewrite beq_true. intros E%virtio_inj; lia. }
    rewrite <- Nat.add_succ_comm. apply IH; [done|lia].
Qed.

Lemma virtio_sorted k n : (k + n <= 26)%nat -> Sorted bytes_le (map virtio_name (seq k n)).
Proof.
  revert k. induction n as [|n IH]; intros k Hk; [constructor|]. cbn [seq map]. constructor; [apply IH; lia|].
  destruct n as [|n]; [constructor|]. cbn [seq map]. constructor. unfold bytes_le, virtio_name.
  change (B "vd" ++ ?l) with ("v"%char :: "d"%char :: l). rewrite !bytes_leb_cons.
  right. split; [done|]. right. split; [done|]. left. rewrite !code_of_N by lia. lia.
Qed.

(** The entries of [/dev] of a guest with [n] drives: the drives past the root, and any other names
    that are not those of whole virtio disks. *)
Definition dev_with (n : nat) (dev : list (option bytes)) : Prop :=
  List.filter is_extra_virtio_disk (map from_utf8_lossy (omap id dev)) ≡ₚ map virtio_name (seq 1 (n - 1)).

(** Whatever order the directory is read in, the drives are found in the order they were attached. *)
Lemma devices_in_order n dev : (1 <= n <= 26)%nat -> dev_with n dev -> extra_devices dev = map virtio_dev (seq 1 (n - 1)).
Proof.
  intros Hn Hd. unfold extra_devices. rewrite (sort_bytes_unique _ (map virtio_name (seq 1 (n - 1)))).
  - by rewrite map_map.
  - apply virtio_sorted. lia.
  - by symmetry.
Qed.

Lemma puts_drives kernel disk res net broker : drives (boot_puts kernel disk res net broker) = drives_of disk.
Proof.
  unfold drives, boot_puts. cbn [app omap list_omap]. rewrite omap_app.
  assert (H : forall l, omap (fun p => match p with PutDrive d => Some d | _ => None end) (map PutDrive l) = l).
  { induction l as [|d l IH]; [done|]. cbn. by rewrite IH. }
  rewrite H. destruct net; cbn; by rewrite app_nil_r.
Qed.

Lemma stage_drives base bid layers scratch parent skew k l : layers !! k = Some l ->
  drives_of (StageDisk base bid layers scratch parent skew) !! S k = Some (MkDrive (B "layer" ++ show_N (N.of_nat k)) l false true).
Proof.
  intros Hk. cbn [drives_of lookup list_lookup]. apply lookup_app_l_Some. by rewrite list_lookup_imap, Hk.
Qed.

Lemma length_stage_drives base bid layers scratch parent skew :
  length (drives_of (StageDisk base bid layers scratch parent skew)) = S (S (length layers)).
Proof. cbn [drives_of length]. rewrite length_app, length_imap. cbn. lia. Qed.

(** The files behind the stack of a stage's overlay. *)
Lemma stage_stack_files base bid layers scratch parent skew :
  (length layers <= 24)%nat ->
  let ds := drives_of (StageDisk base bid layers scratch parent skew) in
  let st := stage_stack (virtio_dev (S (length layers))) (map virtio_dev (seq 1 (length layers))) in
  map (file_of ds) (lower st) = map (fun l => Some (l, true, B "/upper")) (rev layers) ++ [Some (base, true, B "/")] /\
  file_of ds (upper st) = Some (scratch, false, B "/upper") /\
  file_of ds (work st) = Some (scratch, false, B "/work").
Proof.
  intros Hlen ds st. assert (Hds : length ds = S (S (length layers))) by apply length_stage_drives.
  assert (Hscratch : attached 0 ds (virtio_dev (S (length layers))) = Some (MkDrive (B "scratch") scratch false false)).
  { apply (attached_at ds 0); [|lia]. 
    trans ((imap (fun i l => MkDrive (B "layer" ++ show_N (N.of_nat i)) l false true) layers ++
            [MkDrive (B "scratch") scratch false false]) !! length layers); [reflexivity|].
    rewrite lookup_app_r by (rewrite length_imap; lia). rewrite length_imap, Nat.sub_diag. done. }
  split_and!; cycle 1; [unfold file_of; cbn [st stage_stack upper device]; by rewrite Hscratch|
    unfold file_of; cbn [st stage_stack work device]; by rewrite Hscratch|].
  unfold st, stage_stack. cbn [lower]. rewrite map_app. f_equal.
  rewrite <- map_rev, !map_map, !map_rev. f_equal.
  assert (H : forall l k, (forall j x, l !! j = Some x -> layers !! (k + j)%nat = Some x) ->
    map (fun x => file_of ds (MkPlace (Some (virtio_dev x)) true (B "/upper"))) (seq (S k) (length l)) =
    map (fun l => Some (l, true, B "/upper")) l).
  { induction l as [|x l IH]; intros k Hl; [done|]. cbn [length seq map]. f_equal.
    - unfold file_of. cbn [device]. assert (Hx : layers !! k = Some x) by (rewrite <- (Nat.add_0_r k); by apply Hl).
      pose proof (attached_at ds 0 (S k) (MkDrive (B "layer" ++ show_N (N.of_nat k)) x false true)) as Ha.
      cbn [Nat.add] in Ha. rewrite Ha; [done|by apply stage_drives|lia].
    - apply (IH (S k)). intros j y Hj. rewrite Nat.add_succ_comm. by apply Hl. }
  by apply (H layers 0%nat).
Qed.

(** C14: from the host's files to the guest's root. When the requests of a stage run were accepted, and
    the guest reads that command line (whatever was appended) and finds those drives (in whatever
    order, among whatever other devices), then an assembly that reports nothing has staged one overlay:
    the committed layers from the newest to the oldest over the base image, each its [/upper]
    directory and not writable, with the run's own scratch file, and nothing else, to write to. *)
Theorem stage_boot api kernel_path base bid layers scratch parent skew res net broker puts
    gkernel dev g g' args cmdline extra
  (Hput : configure_run_boot api kernel_path (StageDisk base bid layers scratch parent skew) res net broker [] = (Ok tt, puts))
  (Hdepth : (length layers <= 24)%nat) (Hbroker : forall b, broker = Some b -> endpoints_ok b)
  (Hargs : BootSource kernel_path args ∈ puts) (Hcmd : cmdline_of args cmdline extra)
  (Hextra : find_value UPPER_KEY extra = None) (Hdev : dev_with (length (drives puts)) dev)
  (Hread : gkernel (history g) (CRead PROC_CMDLINE) = Ok cmdline)
  (Hrun : assemble_if_requested gkernel dev g = (None, g')) :
  exists before pseudo st,
    effect g g' (CRead PROC_CMDLINE :: before ++ pivot_calls ++ pseudo) /\ staged before = Some st /\
    map (file_of (drives puts)) (lower st) =
      map (fun l => Some (l, true, B "/upper")) (rev layers) ++ [Some (base, true, B "/")] /\
    file_of (drives puts) (upper st) = Some (scratch, false, B "/upper") /\
    file_of (drives puts) (work st) = Some (scratch, false, B "/work").
Proof.
  set (disk := StageDisk base bid layers scratch parent skew) in *.
  pose proof (sends_run_boot api kernel_path disk res net broker []) as Hs. rewrite Hput in Hs. cbn [app] in Hs. subst puts.
  rewrite puts_drives in *. unfold disk in Hdev. rewrite length_stage_drives in Hdev.
  assert (args = build_boot_args disk net broker) as ->.
  { unfold boot_puts in Hargs. rewrite !elem_of_app in Hargs. destruct Hargs as [H|[H|H]].
    - apply elem_of_cons in H as [[=]|H]. by apply list_elem_of_singleton in H as [= ->].
    - by apply list_elem_of_In, in_map_iff in H as (d & [=] & _).
    - destruct net; [|by apply not_elem_of_nil in H]. by apply list_elem_of_singleton in H. }
  pose proof (assemble_if_requested_spec gkernel dev g cmdline Hread) as H. rewrite Hrun in H.
  rewrite (parse_layers_back disk net broker cmdline extra Hbroker Hcmd _ _ _ _ _ _ eq_refl) in H by (unfold u64_max; lia).
  rewrite (parse_upper_back disk net broker cmdline extra Hbroker Hcmd Hextra) in H.
  destruct H as (sd & ls & before & pseudo & (bs & Hex & Hls) & He & Hst).
  rewrite (devices_in_order (S (S (length layers)))) in Hex by (done || lia).
  cbn [Nat.sub] in Hex. rewrite seq_S, map_app in Hex. cbn [map Nat.add] in Hex.
  apply app_inj_tail in Hex as [<- <-]. cbn [default] in Hls.
  rewrite length_map, length_seq, N.min_id, Nat2N.id, take_ge in Hls by (rewrite length_map, length_seq; lia). subst ls.
  exists before, pseudo, (stage_stack (virtio_dev (S (length layers))) (map virtio_dev (seq 1 (length layers)))).
  split; [exact He|]. split; [exact Hst|]. by apply stage_stack_files.
Qed.

(** A chain is at most [Stage.MAX_CHAIN_DEPTH] deep, well below what the letters can name. *)
Example depth_below_names : (Stage.MAX_CHAIN_DEPTH <= 24)%nat.
Proof. unfold Stage.MAX_CHAIN_DEPTH. lia. Qed.

Definition accepting : list Put -> Put -> result unit bytes := fun _ _ => Ok tt.
Definition example_res : Resources.Resources := Resources.MkResources 2 1024.
Definition example_puts : list Put :=
  boot_puts (B "/vmlinux") example_disk example_res (Some example_slot) (Some example_broker).
Definition example_dev : list (option bytes) :=
  [Some (B "vdd"); Some (B "null"); Some (B "vdb"); None; Some (B "vda"); Some (B "vdb1"); Some (B "vdc")].

Lemma stage_boot_witness :
  exists before pseudo st,
    effect guest0 (snd (assemble_if_requested (granting example_cmdline) example_dev guest0))
      (CRead PROC_CMDLINE :: before ++ pivot_calls ++ pseudo) /\ staged before = Some st /\
    map (file_of (drives example_puts)) (lower st) =
      [Some (B "/s/b", true, B "/upper"); Some (B "/s/a", true, B "/upper"); Some (B "/img/base.sqfs", true, B "/")] /\
    file_of (drives example_puts) (upper st) = Some (B "/vm/scratch.ext4", false, B "/upper") /\
    file_of (drives example_puts) (work st) = Some (B "/vm/scratch.ext4", false, B "/work").
Proof.
  apply (stage_boot accepting (B "/vmlinux") (B "/img/base.sqfs") (Stage.unstamped (B "base")) [B "/s/a"; B "/s/b"]
    (B "/vm/scratch.ext4") None false example_res (Some example_slot) (Some example_broker) example_puts
    (granting example_cmdline) example_dev guest0 _
    (build_boot_args example_disk (Some example_slot) (Some example_broker)) example_cmdline [B "root=/dev/vda"; B "ro"]).
  - reflexivity.
  - cbn. lia.
  - exact example_broker_ok.
  - right. left.
  - vm_compute. reflexivity.
  - reflexivity.
  - unfold dev_with.
    change (map virtio_name (seq 1 (length (drives example_puts) - 1))) with [B "vdb"; B "vdc"; B "vdd"].
    change (List.filter is_extra_virtio_disk (map from_utf8_lossy (omap id example_dev))) with [B "vdd"; B "vdb"; B "vdc"].
    apply (Permutation_app_comm [B "vdd"] [B "vdb"; B "vdc"]).
  - reflexivity.
  - vm_compute. reflexivity.
Defined.
