(* ===== verification/Nft.v ===== *)
(** * The packet filter of [isopod setup] ([crates/core/src/net/setup.rs])

    [build_nft_ruleset] prints one nftables table as text.  The file has the printer as the code has
    it, the table as data with its own printing ([print_table]), and what nftables documents of how
    a packet goes through such a table.  [build_is_table] says the text is the table; the theorems on
    what passes are about the table.

    The kernel's routing and its own addresses are parameters. *)
From S2P Require Import Prelude Text IpAddr.
From S2P Require Egress.
From S2P Require Import Slots.

(** ** The text *)

Definition NFT_TABLE : bytes := B "inet isopod".
Definition SLOT_SUPERNET : bytes := B "10.107.0.0/16".
Definition PRIVATE_V4_DESTS : bytes :=
  B "10.0.0.0/8, 172.16.0.0/12, 192.168.0.0/16, 169.254.0.0/16, 100.64.0.0/10".

Definition tab : ascii := ascii_of_N 9.
Definition dquote : ascii := ascii_of_N 34.
Definition quoted (s : bytes) : bytes := dquote :: s ++ [dquote].
(** A rule's line, and a line of a chain. *)
Definition rule_line (s : bytes) : bytes := [tab; tab] ++ s ++ [line_feed].
Definition chain_line (s : bytes) : bytes := [tab] ++ s ++ [line_feed].
Definition top_line (s : bytes) : bytes := s ++ [line_feed].

Definition tap_text (i : nat) : bytes := quoted (B "isopod-tap" ++ show_nat i).
Definition any_tap : bytes := quoted (B "isopod-tap*").
Definition dns_text : bytes := show_N BROKER_DNS_PORT.

(** The text pushed for one slot in each of the loops. *)
Definition antispoof_text (i : nat) : bytes :=
  rule_line (B "iifname " ++ tap_text i ++ B " ip saddr != " ++ guest_ip i ++ B " drop").
Definition dst_guard_text (allow_lan_egress : bool) : bytes :=
  if allow_lan_egress then []
  else rule_line (B "iifname " ++ any_tap ++ B " ip daddr { " ++ PRIVATE_V4_DESTS ++ B " } drop").
Definition public_prerouting_text (i : nat) : bytes :=
  let gip := host_ip i in
  rule_line (B "iifname " ++ tap_text i ++ B " ip daddr " ++ gip ++ B " udp dport 53 redirect to :" ++ dns_text) ++
  rule_line (B "iifname " ++ tap_text i ++ B " ip daddr " ++ gip ++ B " tcp dport 53 redirect to :" ++ dns_text).
Definition public_input_text (i : nat) : bytes :=
  let gip := host_ip i in
  rule_line (B "iifname " ++ tap_text i ++ B " ip daddr " ++ gip ++ B " udp dport " ++ dns_text ++ B " accept") ++
  rule_line (B "iifname " ++ tap_text i ++ B " ip daddr " ++ gip ++ B " tcp dport " ++ dns_text ++ B " accept").
Definition tcp_ports : bytes := join (B ", ") (map show_N BROKER_TCP_PORTS).
Definition filtered_forward_text (i : nat) : bytes := rule_line (B "iifname " ++ tap_text i ++ B " drop").
Definition filtered_prerouting_text (i : nat) : bytes :=
  rule_line (B "iifname " ++ tap_text i ++ B " udp dport 53 redirect to :" ++ dns_text) ++
  rule_line (B "iifname " ++ tap_text i ++ B " tcp dport 53 redirect to :" ++ dns_text).
Definition filtered_input_text (i : nat) : bytes :=
  rule_line (B "iifname " ++ tap_text i ++ B " ip daddr " ++ host_ip i ++ B " tcp dport { " ++ tcp_ports ++ B " } accept") ++
  rule_line (B "iifname " ++ tap_text i ++ B " ip daddr " ++ host_ip i ++ B " udp dport " ++ dns_text ++ B " accept").

(** [for i in lo..hi { s.push_str(..) }] *)
Definition push_each (text : nat -> bytes) (lo hi : nat) : bytes := concat (map text (seq lo (hi - lo))).

Definition build_nft_ruleset (wan : bytes) (slots : nat) (allow_lan_egress : bool) (filtered_from : nat) : bytes :=
  let antispoof := push_each antispoof_text 0 slots in
  let dst_guard := dst_guard_text allow_lan_egress in
  let public_prerouting := push_each public_prerouting_text 0 (Nat.min filtered_from slots) in
  let public_input := push_each public_input_text 0 (Nat.min filtered_from slots) in
  let filtered_forward := push_each filtered_forward_text filtered_from slots in
  let filtered_prerouting := push_each filtered_prerouting_text filtered_from slots in
  let filtered_input := push_each filtered_input_text filtered_from slots in
  let prerouting_rules := public_prerouting ++ filtered_prerouting in
  let prerouting_chain :=
    match prerouting_rules with
    | [] => []
    | _ => chain_line (B "chain prerouting {") ++
        rule_line (B "type nat hook prerouting priority dstnat; policy accept;") ++
        prerouting_rules ++ chain_line (B "}")
    end in
  let input_rules := public_input ++ filtered_input in
  top_line (B "add table inet isopod") ++
  top_line (B "delete table inet isopod") ++
  top_line (B "table inet isopod {") ++
  chain_line (B "chain postrouting {") ++
  rule_line (B "type nat hook postrouting priority srcnat; policy accept;") ++
  rule_line (B "ip saddr " ++ SLOT_SUPERNET ++ B " oifname " ++ quoted wan ++ B " masquerade") ++
  chain_line (B "}") ++
  prerouting_chain ++
  chain_line (B "chain forward {") ++
  rule_line (B "type filter hook forward priority filter; policy accept;") ++
  rule_line (B "iifname " ++ any_tap ++ B " oifname " ++ any_tap ++ B " drop") ++
  antispoof ++
  rule_line (B "iifname " ++ any_tap ++ B " meta nfproto ipv6 drop") ++
  dst_guard ++
  filtered_forward ++
  rule_line (B "iifname " ++ quoted wan ++ B " oifname " ++ any_tap ++ B " ct state established,related accept") ++
  rule_line (B "iifname " ++ any_tap ++ B " oifname " ++ quoted wan ++ B " accept") ++
  rule_line (B "iifname " ++ any_tap ++ B " drop") ++
  chain_line (B "}") ++
  chain_line (B "chain input {") ++
  rule_line (B "type filter hook input priority filter; policy accept;") ++
  input_rules ++
  rule_line (B "iifname " ++ any_tap ++ B " ct state new drop") ++
  chain_line (B "}") ++
  top_line (B "}").

(** The checked-in fixture of the repository, [nft-ruleset-0.15-12slots.txt], for fewer slots. *)
Definition small_fixture : bytes := concat (map top_line [
  B "add table inet isopod";
  B "delete table inet isopod";
  B "table inet isopod {";
  tab :: B "chain postrouting {";
  [tab; tab] ++ B "type nat hook postrouting priority srcnat; policy accept;";
  [tab; tab] ++ B "ip saddr 10.107.0.0/16 oifname " ++ quoted (B "eth0") ++ B " masquerade";
  tab :: B "}";
  tab :: B "chain prerouting {";
  [tab; tab] ++ B "type nat hook prerouting priority dstnat; policy accept;";
  [tab; tab] ++ B "iifname " ++ quoted (B "isopod-tap0") ++ B " ip daddr 10.107.0.1 udp dport 53 redirect to :5353";
  [tab; tab] ++ B "iifname " ++ quoted (B "isopod-tap0") ++ B " ip daddr 10.107.0.1 tcp dport 53 redirect to :5353";
  [tab; tab] ++ B "iifname " ++ quoted (B "isopod-tap1") ++ B " udp dport 53 redirect to :5353";
  [tab; tab] ++ B "iifname " ++ quoted (B "isopod-tap1") ++ B " tcp dport 53 redirect to :5353";
  tab :: B "}";
  tab :: B "chain forward {";
  [tab; tab] ++ B "type filter hook forward priority filter; policy accept;";
  [tab; tab] ++ B "iifname " ++ quoted (B "isopod-tap*") ++ B " oifname " ++ quoted (B "isopod-tap*") ++ B " drop";
  [tab; tab] ++ B "iifname " ++ quoted (B "isopod-tap0") ++ B " ip saddr != 10.107.0.2 drop";
  [tab; tab] ++ B "iifname " ++ quoted (B "isopod-tap1") ++ B " ip saddr != 10.107.1.2 drop";
  [tab; tab] ++ B "iifname " ++ quoted (B "isopod-tap*") ++ B " meta nfproto ipv6 drop";
  [tab; tab] ++ B "iifname " ++ quoted (B "isopod-tap*") ++ B " ip daddr { 10.0.0.0/8, 172.16.0.0/12, 192.168.0.0/16, 169.254.0.0/16, 100.64.0.0/10 } drop";
  [tab; tab] ++ B "iifname " ++ quoted (B "isopod-tap1") ++ B " drop";
  [tab; tab] ++ B "iifname " ++ quoted (B "eth0") ++ B " oifname " ++ quoted (B "isopod-tap*") ++ B " ct state established,related accept";
  [tab; tab] ++ B "iifname " ++ quoted (B "isopod-tap*") ++ B " oifname " ++ quoted (B "eth0") ++ B " accept";
  [tab; tab] ++ B "iifname " ++ quoted (B "isopod-tap*") ++ B " drop";
  tab :: B "}";
  tab :: B "chain input {";
  [tab; tab] ++ B "type filter hook input priority filter; policy accept;";
  [tab; tab] ++ B "iifname " ++ quoted (B "isopod-tap0") ++ B " ip daddr 10.107.0.1 udp dport 5353 accept";
  [tab; tab] ++ B "iifname " ++ quoted (B "isopod-tap0") ++ B " ip daddr 10.107.0.1 tcp dport 5353 accept";
  [tab; tab] ++ B "iifname " ++ quoted (B "isopod-tap1") ++ B " ip daddr 10.107.1.1 tcp dport { 1080, 3128, 3129, 5353 } accept";
  [tab; tab] ++ B "iifname " ++ quoted (B "isopod-tap1") ++ B " ip daddr 10.107.1.1 udp dport 5353 accept";
  [tab; tab] ++ B "iifname " ++ quoted (B "isopod-tap*") ++ B " ct state new drop";
  tab :: B "}";
  B "}"]).

Example two_slots : build_nft_ruleset (B "eth0") 2 false 1 = small_fixture.
Proof. vm_compute. reflexivity. Qed.

(** ** The table as data *)

Inductive Pattern : Type := Exactly (name : bytes) | Prefixed (p : bytes).
Inductive Proto : Type := Udp | Tcp.
Inductive CtState : Type := CtNew | CtEstablished | CtRelated | CtInvalid.
#[export] Instance Proto_eq_dec : EqDecision Proto.
Proof. solve_decision. Defined.
#[export] Instance CtState_eq_dec : EqDecision CtState.
Proof. solve_decision. Defined.

Inductive Match : Type :=
  | Iif (p : Pattern)
  | Oif (p : Pattern)
  | SaddrIn (c : Egress.Cidr)
  | SaddrNot (a : ipv4)
  | DaddrIs (a : ipv4)
  | DaddrIn (cs : list Egress.Cidr)
  | NfprotoIpv6
  | DportIs (l4 : Proto) (port : N)
  | DportIn (l4 : Proto) (ports : list N)
  | CtIn (states : list CtState).

Inductive Verdict : Type := Accept | Drop | Redirect (port : N) | Masquerade.
Definition Rule : Type := list Match * Verdict.
Record Chain : Type := MkChain { chain_name : bytes; chain_type : bytes; hook : bytes; priority : bytes; rules : list Rule }.

Definition print_pattern (p : Pattern) : bytes :=
  match p with Exactly n => quoted n | Prefixed n => quoted (n ++ B "*") end.
Definition print_proto (p : Proto) : bytes := match p with Udp => B "udp" | Tcp => B "tcp" end.
Definition print_ct (s : CtState) : bytes :=
  match s with CtNew => B "new" | CtEstablished => B "established" | CtRelated => B "related" | CtInvalid => B "invalid" end.
Definition print_set (l : list bytes) : bytes := B "{ " ++ join (B ", ") l ++ B " }".

Definition print_match (m : Match) : bytes :=
  match m with
  | Iif p => B "iifname " ++ print_pattern p
  | Oif p => B "oifname " ++ print_pattern p
  | SaddrIn c => B "ip saddr " ++ Egress.Cidr.display c
  | SaddrNot a => B "ip saddr != " ++ show_ipv4 a
  | DaddrIs a => B "ip daddr " ++ show_ipv4 a
  | DaddrIn cs => B "ip daddr " ++ print_set (map Egress.Cidr.display cs)
  | NfprotoIpv6 => B "meta nfproto ipv6"
  | DportIs p n => print_proto p ++ B " dport " ++ show_N n
  | DportIn p ns => print_proto p ++ B " dport " ++ print_set (map show_N ns)
  | CtIn l => B "ct state " ++ join (B ",") (map print_ct l)
  end.

Definition print_verdict (v : Verdict) : bytes :=
  match v with
  | Accept => B "accept" | Drop => B "drop" | Masquerade => B "masquerade"
  | Redirect n => B "redirect to :" ++ show_N n
  end.

Definition print_rule (r : Rule) : bytes :=
  rule_line (join [space] (map print_match (fst r) ++ [print_verdict (snd r)])).

Definition print_chain (c : Chain) : bytes :=
  chain_line (B "chain " ++ chain_name c ++ B " {") ++
  rule_line (B "type " ++ chain_type c ++ B " hook " ++ hook c ++ B " priority " ++ priority c ++ B "; policy accept;") ++
  concat (map print_rule (rules c)) ++ chain_line (B "}").

Definition print_table (cs : list Chain) : bytes :=
  top_line (B "add table " ++ NFT_TABLE) ++ top_line (B "delete table " ++ NFT_TABLE) ++
  top_line (B "table " ++ NFT_TABLE ++ B " {") ++ concat (map print_chain cs) ++ top_line (B "}").

(** ** isopod's table *)

Definition tap (i : nat) : bytes := B "isopod-tap" ++ show_nat i.
Definition taps : Pattern := Prefixed (B "isopod-tap").
Definition from_tap (i : nat) : Match := Iif (Exactly (tap i)).

Definition v4_block (a b c d p : N) : Egress.Cidr := Egress.MkCidr (V4 (ipv4_new a b c d)) p.
Definition supernet : Egress.Cidr := v4_block 10 107 0 0 16.
Definition private_dests : list Egress.Cidr :=
  [v4_block 10 0 0 0 8; v4_block 172 16 0 0 12; v4_block 192 168 0 0 16; v4_block 169 254 0 0 16; v4_block 100 64 0 0 10].

Definition both (f : Proto -> Rule) : list Rule := [f Udp; f Tcp].

Definition public_slots (slots filtered_from : nat) : list nat := seq 0 (Nat.min filtered_from slots).
Definition filtered_slots (slots filtered_from : nat) : list nat := seq filtered_from (slots - filtered_from).

(** The rules of one slot. *)
Definition public_prerouting (i : nat) : list Rule :=
  both (fun p => ([from_tap i; DaddrIs (gateway i); DportIs p 53], Redirect BROKER_DNS_PORT)).
Definition filtered_prerouting (i : nat) : list Rule :=
  both (fun p => ([from_tap i; DportIs p 53], Redirect BROKER_DNS_PORT)).
Definition public_input (i : nat) : list Rule :=
  both (fun p => ([from_tap i; DaddrIs (gateway i); DportIs p BROKER_DNS_PORT], Accept)).
Definition filtered_input (i : nat) : list Rule :=
  [([from_tap i; DaddrIs (gateway i); DportIn Tcp BROKER_TCP_PORTS], Accept);
   ([from_tap i; DaddrIs (gateway i); DportIs Udp BROKER_DNS_PORT], Accept)].
Definition antispoof (i : nat) : list Rule := [([from_tap i; SaddrNot (guest i)], Drop)].
Definition filtered_forward (i : nat) : list Rule := [([from_tap i], Drop)].

Definition prerouting_rules (slots filtered_from : nat) : list Rule :=
  flat_map public_prerouting (public_slots slots filtered_from) ++
  flat_map filtered_prerouting (filtered_slots slots filtered_from).

Definition forward_rules (wan : bytes) (slots : nat) (lan : bool) (filtered_from : nat) : list Rule :=
  [([Iif taps; Oif taps], Drop)] ++
  flat_map antispoof (seq 0 slots) ++
  [([Iif taps; NfprotoIpv6], Drop)] ++
  (if lan then [] else [([Iif taps; DaddrIn private_dests], Drop)]) ++
  flat_map filtered_forward (filtered_slots slots filtered_from) ++
  [([Iif (Exactly wan); Oif taps; CtIn [CtEstablished; CtRelated]], Accept);
   ([Iif taps; Oif (Exactly wan)], Accept);
   ([Iif taps], Drop)].

Definition input_rules (slots filtered_from : nat) : list Rule :=
  flat_map public_input (public_slots slots filtered_from) ++
  flat_map filtered_input (filtered_slots slots filtered_from) ++
  [([Iif taps; CtIn [CtNew]], Drop)].

Definition postrouting_rules (wan : bytes) : list Rule := [([SaddrIn supernet; Oif (Exactly wan)], Masquerade)].

Definition isopod_table (wan : bytes) (slots : nat) (lan : bool) (filtered_from : nat) : list Chain :=
  [MkChain (B "postrouting") (B "nat") (B "postrouting") (B "srcnat") (postrouting_rules wan)] ++
  (if decide (slots = 0) then []
   else [MkChain (B "prerouting") (B "nat") (B "prerouting") (B "dstnat") (prerouting_rules slots filtered_from)]) ++
  [MkChain (B "forward") (B "filter") (B "forward") (B "filter") (forward_rules wan slots lan filtered_from);
   MkChain (B "input") (B "filter") (B "input") (B "filter") (input_rules slots filtered_from)].

Example two_slots_table : print_table (isopod_table (B "eth0") 2 false 1) = small_fixture.
Proof. vm_compute. reflexivity. Qed.

(** ** The text is the table *)

(** Two texts made of the same pieces. *)
Ltac flat_text :=
  unfold print_chain, print_rule, rule_line, chain_line, top_line, any_tap;
  cbn [map fst snd concat join app print_match print_verdict print_pattern print_proto
    chain_name chain_type hook priority rules postrouting_rules];
  unfold quoted, print_set;
  repeat (progress (rewrite <- ?app_assoc, ?app_nil_r; cbn [app])); reflexivity.

Lemma gateway_text i : (i < MAX_SLOT_COUNT)%nat -> show_ipv4 (gateway i) = host_ip i /\ show_ipv4 (guest i) = guest_ip i.
Proof.
  intros Hi. assert (H : forallb (fun i => beq (show_ipv4 (gateway i)) (host_ip i) && beq (show_ipv4 (guest i)) (guest_ip i))
    (seq 0 MAX_SLOT_COUNT) = true) by (vm_compute; reflexivity).
  rewrite forallb_forall in H. specialize (H i). rewrite in_seq in H. specialize (H ltac:(lia)).
  rewrite andb_true_iff, !beq_true in H. exact H.
Qed.

Lemma concat_flat_map {A} (f : A -> list Rule) (l : list A) :
  concat (map print_rule (flat_map f l)) = concat (map (fun i => concat (map print_rule (f i))) l).
Proof. induction l as [|x l IH]; [done|]. cbn [flat_map map concat]. by rewrite map_app, concat_app, IH. Qed.

Lemma concat_map_ext {A} (f g : A -> bytes) l : (forall x, x ∈ l -> f x = g x) -> concat (map f l) = concat (map g l).
Proof.
  induction l as [|x l IH]; intros H; [done|]. cbn [map concat]. rewrite H by by left. f_equal.
  apply IH. intros y Hy. apply H. by right.
Qed.

(** The rules of one slot print as what the loop pushes for it. *)
Lemma slot_rules_text i : (i < MAX_SLOT_COUNT)%nat ->
  concat (map print_rule (antispoof i)) = antispoof_text i /\
  concat (map print_rule (public_prerouting i)) = public_prerouting_text i /\
  concat (map print_rule (public_input i)) = public_input_text i /\
  concat (map print_rule (filtered_forward i)) = filtered_forward_text i /\
  concat (map print_rule (filtered_prerouting i)) = filtered_prerouting_text i /\
  concat (map print_rule (filtered_input i)) = filtered_input_text i.
Proof.
  intros Hi. destruct (gateway_text i Hi) as [Hg Hh].
  unfold antispoof_text, public_prerouting_text, public_input_text, filtered_forward_text, filtered_prerouting_text,
    filtered_input_text, antispoof, public_prerouting, public_input, filtered_forward, filtered_prerouting, filtered_input,
    both, print_rule, from_tap, tap, tap_text.
  cbn [map fst snd print_match]. rewrite Hg, Hh. split_and!; flat_text.
Qed.

Lemma in_public slots ff i : i ∈ public_slots slots ff <-> (i < ff /\ i < slots)%nat.
Proof. unfold public_slots. rewrite list_elem_of_In, in_seq. lia. Qed.
Lemma in_filtered slots ff i : i ∈ filtered_slots slots ff <-> (ff <= i < slots)%nat.
Proof. unfold filtered_slots. rewrite list_elem_of_In, in_seq. lia. Qed.

Lemma antispoof_lines n : (n <= MAX_SLOT_COUNT)%nat ->
  concat (map print_rule (flat_map antispoof (seq 0 n))) = push_each antispoof_text 0 n.
Proof.
  intros Hn. unfold push_each. rewrite concat_flat_map, Nat.sub_0_r. apply concat_map_ext. intros i Hi.
  apply list_elem_of_In, in_seq in Hi. destruct (slot_rules_text i ltac:(lia)) as (H & _). exact H.
Qed.

Section text.
Context (slots filtered_from : nat).
Hypothesis Hslots : (slots <= MAX_SLOT_COUNT)%nat.

Lemma public_lines (f : nat -> list Rule) text :
  (forall i, (i < MAX_SLOT_COUNT)%nat -> concat (map print_rule (f i)) = text i) ->
  concat (map print_rule (flat_map f (public_slots slots filtered_from))) = push_each text 0 (Nat.min filtered_from slots).
Proof.
  intros H. unfold push_each. rewrite concat_flat_map, Nat.sub_0_r. apply concat_map_ext.
  intros i Hi. apply H. apply in_public in Hi. lia.
Qed.

Lemma filtered_lines (f : nat -> list Rule) text :
  (forall i, (i < MAX_SLOT_COUNT)%nat -> concat (map print_rule (f i)) = text i) ->
  concat (map print_rule (flat_map f (filtered_slots slots filtered_from))) = push_each text filtered_from slots.
Proof.
  intros H. unfold push_each. rewrite concat_flat_map. apply concat_map_ext.
  intros i Hi. apply H. apply in_filtered in Hi. lia.
Qed.

Lemma prerouting_text :
  concat (map print_rule (prerouting_rules slots filtered_from)) =
  push_each public_prerouting_text 0 (Nat.min filtered_from slots) ++ push_each filtered_prerouting_text filtered_from slots.
Proof.
  unfold prerouting_rules. rewrite map_app, concat_app. f_equal.
  - apply public_lines. intros i Hi. destruct (slot_rules_text i Hi) as (_ & H & _). exact H.
  - apply filtered_lines. intros i Hi. destruct (slot_rules_text i Hi) as (_ & _ & _ & _ & H & _). exact H.
Qed.

Lemma input_text :
  concat (map print_rule (input_rules slots filtered_from)) =
  (push_each public_input_text 0 (Nat.min filtered_from slots) ++ push_each filtered_input_text filtered_from slots) ++
  rule_line (B "iifname " ++ any_tap ++ B " ct state new drop").
Proof.
  unfold input_rules. rewrite !map_app, !concat_app, app_assoc. f_equal. f_equal.
  - apply public_lines. intros i Hi. destruct (slot_rules_text i Hi) as (_ & _ & H & _). exact H.
  - apply filtered_lines. intros i Hi. destruct (slot_rules_text i Hi) as (_ & _ & _ & _ & _ & H). exact H.
Qed.

Lemma forward_text wan lan :
  concat (map print_rule (forward_rules wan slots lan filtered_from)) =
  rule_line (B "iifname " ++ any_tap ++ B " oifname " ++ any_tap ++ B " drop") ++
  push_each antispoof_text 0 slots ++
  rule_line (B "iifname " ++ any_tap ++ B " meta nfproto ipv6 drop") ++
  dst_guard_text lan ++
  push_each filtered_forward_text filtered_from slots ++
  rule_line (B "iifname " ++ quoted wan ++ B " oifname " ++ any_tap ++ B " ct state established,related accept") ++
  rule_line (B "iifname " ++ any_tap ++ B " oifname " ++ quoted wan ++ B " accept") ++
  rule_line (B "iifname " ++ any_tap ++ B " drop").
Proof.
  unfold forward_rules. rewrite !map_app, !concat_app, antispoof_lines by done.
  f_equal. f_equal. f_equal. f_equal; [by destruct lan|]. f_equal.
  apply filtered_lines. intros i Hi. destruct (slot_rules_text i Hi) as (_ & _ & _ & H & _). exact H.
Qed.

Lemma prerouting_nil : prerouting_rules slots filtered_from = [] <-> slots = 0%nat.
Proof.
  unfold prerouting_rules, public_slots, filtered_slots. split; [|intros ->; by rewrite Nat.min_0_r].
  intros H. destruct slots as [|n]; [done|]. destruct filtered_from as [|f]; done.
Qed.

(** The text [isopod setup] gives to [nft -f -] is isopod's table, whatever the interface, the number
    of slots and the split between public and filtered. *)
Lemma build_is_table wan lan :
  build_nft_ruleset wan slots lan filtered_from = print_table (isopod_table wan slots lan filtered_from).
Proof.
  unfold build_nft_ruleset, print_table, isopod_table. rewrite !map_app, !concat_app. cbn [map concat].
  unfold print_chain at 3 4. cbn [chain_name chain_type hook priority rules]. rewrite forward_text, input_text, <- prerouting_text.
  destruct (decide (slots = 0)) as [Hz|Hz].
  - rewrite (proj2 prerouting_nil Hz). cbn [map concat app].
    flat_text.
  - destruct (concat (map print_rule (prerouting_rules slots filtered_from))) as [|c r] eqn:E.
    { exfalso. destruct (prerouting_rules slots filtered_from) as [|p ps] eqn:Ep; [by apply Hz, prerouting_nil|]. done. }
    rewrite <- E. cbn [map concat]. unfold print_chain. cbn [chain_name chain_type hook priority rules].
    flat_text.
Qed.
End text.

(** ** What nftables does with a packet *)

Inductive Addrs : Type := Ip4 (src dst : ipv4) | Ip6 (src dst : ipv6).
Record Packet : Type := MkPacket {
  iif : bytes; oif : bytes; addrs : Addrs; l4 : option (Proto * N); ct : CtState }.

Definition src (p : Packet) : ip_addr := match addrs p with Ip4 s _ => V4 s | Ip6 s _ => V6 s end.
Definition dst (p : Packet) : ip_addr := match addrs p with Ip4 _ d => V4 d | Ip6 _ d => V6 d end.

Definition pattern_matches (pat : Pattern) (name : bytes) : bool :=
  match pat with Exactly n => beq n name | Prefixed p => starts_with p name end.

(** A match on an IPv4 field does not hold of an IPv6 packet, negated or not; a match on a port does
    not hold of a packet of another protocol. *)
Definition matches (p : Packet) (m : Match) : bool :=
  match m with
  | Iif pat => pattern_matches pat (iif p)
  | Oif pat => pattern_matches pat (oif p)
  | SaddrIn c => Egress.Cidr.contains c (src p)
  | SaddrNot a => match addrs p with Ip4 s _ => bool_decide (s <> a) | Ip6 _ _ => false end
  | DaddrIs a => bool_decide (dst p = V4 a)
  | DaddrIn cs => existsb (fun c => Egress.Cidr.contains c (dst p)) cs
  | NfprotoIpv6 => match addrs p with Ip4 _ _ => false | Ip6 _ _ => true end
  | DportIs pr n => bool_decide (l4 p = Some (pr, n))
  | DportIn pr ns => match l4 p with Some (pr', n) => bool_decide (pr = pr') && existsb (N.eqb n) ns | None => false end
  | CtIn l => bool_decide (ct p ∈ l)
  end.

Definition fires (p : Packet) (r : Rule) : bool := forallb (matches p) (fst r).

(** The first rule that fires decides; the policy of every chain is to accept. *)
Definition verdict (rs : list Rule) (p : Packet) : Verdict :=
  match List.find (fires p) rs with Some r => snd r | None => Accept end.

Inductive Fate : Type := Delivered (p : Packet) | Forwarded (p : Packet) | Dropped.

Section kernel.
(** The addresses the host answers to, the interface a packet to an address leaves through, and the
    primary addresses of an interface. *)
Context (local : ip_addr -> bool) (route : ip_addr -> bytes) (ifaddr4 : bytes -> ipv4) (ifaddr6 : bytes -> ipv6).

(** [redirect] sends a packet to the primary address of the interface it came in on. *)
Definition redirected (port : N) (p : Packet) : Packet :=
  MkPacket (iif p) (oif p)
    (match addrs p with Ip4 s _ => Ip4 s (ifaddr4 (iif p)) | Ip6 s _ => Ip6 s (ifaddr6 (iif p)) end)
    (option_map (fun x => (fst x, port)) (l4 p)) (ct p).

(** A chain of type [nat] sees the packets that begin a connection; [p] of another state is the
    packet as the connection's translation left it. *)
Definition prerouted (rs : list Rule) (p : Packet) : Packet :=
  if bool_decide (ct p = CtNew) then match verdict rs p with Redirect port => redirected port p | _ => p end else p.

Definition hooked (h : bytes) (table : list Chain) : list Rule :=
  match List.find (fun c => beq (hook c) h) table with Some c => rules c | None => [] end.

Definition fate (table : list Chain) (p : Packet) : Fate :=
  let p := prerouted (hooked (B "prerouting") table) p in
  if local (dst p) then
    match verdict (hooked (B "input") table) p with Accept => Delivered p | _ => Dropped end
  else
    let p := MkPacket (iif p) (route (dst p)) (addrs p) (l4 p) (ct p) in
    match verdict (hooked (B "forward") table) p with Accept => Forwarded p | _ => Dropped end.
End kernel.

(** ** Which rule decides *)

Lemma verdict_cons r rs p : verdict (r :: rs) p = if fires p r then snd r else verdict rs p.
Proof. unfold verdict. cbn [List.find]. by destruct (fires p r). Qed.

Lemma verdict_skip l rs p : (forall r, r ∈ l -> fires p r = false) -> verdict (l ++ rs) p = verdict rs p.
Proof.
  induction l as [|r l IH]; intros H; [done|]. cbn [app]. rewrite verdict_cons, H by by left.
  apply IH. intros x Hx. apply H. by right.
Qed.

(** Of the rules of many slots only those of the packet's own slot matter. *)
Lemma verdict_slot (f : nat -> list Rule) l rs p i : NoDup l ->
  (forall j r, j <> i -> r ∈ f j -> fires p r = false) ->
  verdict (flat_map f l ++ rs) p = verdict ((if decide (i ∈ l) then f i else []) ++ rs) p.
Proof.
  intros Hl H. induction Hl as [|j l Hj Hl IH]; [done|]. cbn [flat_map]. rewrite <- app_assoc.
  destruct (decide (j = i)) as [->|Hne].
  - rewrite decide_True by by left. assert (Hskip : forall k, verdict (flat_map f l ++ k) p = verdict k p).
    { intros k. apply verdict_skip. intros r (j & Hjl & Hr)%list_elem_of_In%in_flat_map. rewrite <- !list_elem_of_In in *. apply (H j); [intros ->; done|exact Hr]. }
    clear IH H. induction (f i) as [|r k IHk]; [apply Hskip|]. cbn [app]. rewrite !verdict_cons. by destruct (fires p r).
  - rewrite verdict_skip by (intros r Hr; by eapply H). rewrite IH.
    destruct (decide (i ∈ l)), (decide (i ∈ j :: l)); try done; exfalso; set_solver.
Qed.

(** ** The verdicts on what a slot sends *)

Lemma tap_inj i j : tap i = tap j -> i = j.
Proof. intros E%app_inv_head. by apply show_nat_inj. Qed.

Lemma tap_is_tap i : starts_with (B "isopod-tap") (tap i) = true.
Proof. apply starts_with_true. by eexists. Qed.

Lemma from_tap_matches p i j : iif p = tap i -> matches p (from_tap j) = bool_decide (i = j).
Proof.
  intros Hp. unfold from_tap. cbn [matches pattern_matches]. unfold beq. rewrite Hp.
  apply bool_decide_ext. split; [by intros ?%tap_inj|by intros ->].
Qed.

Lemma from_other p i j ms v : iif p = tap i -> j <> i -> fires p (from_tap j :: ms, v) = false.
Proof.
  intros Hp Hj. unfold fires. cbn [fst forallb]. rewrite (from_tap_matches p i j Hp), bool_decide_eq_false_2 by done. done.
Qed.

Lemma from_own p i ms v : iif p = tap i -> fires p (from_tap i :: ms, v) = forallb (matches p) ms.
Proof.
  intros Hp. unfold fires. cbn [fst forallb]. rewrite (from_tap_matches p i i Hp), bool_decide_eq_true_2 by done. done.
Qed.

Lemma from_taps p i ms v : iif p = tap i -> fires p (Iif taps :: ms, v) = forallb (matches p) ms.
Proof. intros Hp. unfold fires, taps. cbn [fst forallb matches pattern_matches]. by rewrite Hp, tap_is_tap. Qed.

Section slot.
Context (wan : bytes) (slots ff : nat) (lan : bool) (i : nat) (p : Packet).
Hypothesis Hi : (i < slots)%nat.
Hypothesis Hp : iif p = tap i.

Definition to_private : bool := existsb (fun c => Egress.Cidr.contains c (dst p)) private_dests.

(** What a public slot may send beyond its host: from its own address, out of the egress interface,
    and to no private address unless the operator allowed it. *)
Definition public_egress : bool :=
  match addrs p with Ip4 s _ => bool_decide (s = guest i) | Ip6 _ _ => false end &&
  negb (starts_with (B "isopod-tap") (oif p)) && beq wan (oif p) && (lan || negb to_private).

#[local] Ltac own := rewrite ?(from_own p i _ _ Hp), ?(from_taps p i _ _ Hp).

Lemma verdict_own f l rs : (forall j, Forall (fun r => exists ms, fst r = from_tap j :: ms) (f j)) -> NoDup l ->
  verdict (flat_map f l ++ rs) p = verdict ((if decide (i ∈ l) then f i else []) ++ rs) p.
Proof.
  intros Hf Hl. apply verdict_slot; [done|]. intros j [e v] Hj Hr. specialize (Hf j). rewrite Forall_forall in Hf.
  destruct (Hf _ Hr) as [ms Hms]. cbn in Hms. subst e. by eapply from_other.
Qed.
#[local] Ltac ports :=
  repeat match goal with
  | |- context [existsb (N.eqb ?n) BROKER_TCP_PORTS] => generalize (existsb (N.eqb n) BROKER_TCP_PORTS); intros []
  | |- context [(?n =? ?m)%N] => generalize (n =? m)%N; intros []
  end; try reflexivity; by case_bool_decide.
#[local] Ltac headed := intros j; repeat (apply Forall_cons; split; [by eexists|]); by apply Forall_nil.

Lemma filtered_nodup : NoDup (filtered_slots slots ff).
Proof. apply NoDup_ListNoDup, seq_NoDup. Qed.
Lemma public_nodup : NoDup (public_slots slots ff).
Proof. apply NoDup_ListNoDup, seq_NoDup. Qed.

Lemma forward_verdict : verdict (forward_rules wan slots lan ff) p = if (i <? ff)%nat && public_egress then Accept else Drop.
Proof.
  unfold forward_rules, public_egress, to_private. cbn [app]. rewrite verdict_cons. own. cbn [forallb matches pattern_matches taps].
  destruct (starts_with (B "isopod-tap") (oif p)) eqn:Hoif; [by rewrite !andb_false_r|]. cbn [andb].
  rewrite verdict_own by (headed || apply NoDup_ListNoDup, seq_NoDup).
  rewrite decide_True by (apply list_elem_of_In, in_seq; lia). unfold antispoof. cbn [app]. rewrite verdict_cons. own. cbn [forallb matches fst snd].
  rewrite verdict_cons. own. cbn [forallb matches]. destruct (addrs p) as [s d|s d]; cbn [andb]; [|by rewrite andb_false_r].
  destruct (bool_decide (s = guest i)) eqn:Hs; reflect_bools; [|by rewrite bool_decide_eq_true_2, andb_false_r by done].
  rewrite bool_decide_eq_false_2 by (by intros []). cbn [andb negb].
  set (tail := flat_map _ _ ++ _). assert (Ht : verdict tail p = if (i <? ff)%nat && beq wan (oif p) then Accept else Drop).
  { unfold tail. rewrite verdict_own by (headed || apply filtered_nodup).
    destruct (Nat.ltb_spec i ff).
    - rewrite decide_False by (rewrite in_filtered; lia). cbn [app]. rewrite !verdict_cons. own. unfold fires.
      cbn [fst snd forallb matches pattern_matches taps]. rewrite Hoif, !andb_false_r. cbn [andb].
      by destruct (beq wan (oif p)), (beq wan (iif p)).
    - rewrite decide_True by (rewrite in_filtered; lia). unfold filtered_forward. cbn [app]. rewrite verdict_cons. by own. }
  destruct lan; cbn [app orb]; [by rewrite Ht, andb_true_r|]. rewrite verdict_cons. own. cbn [forallb matches fst]. rewrite Ht.
  by destruct (existsb _ private_dests), (i <? ff)%nat, (beq wan (oif p)).
Qed.

(** The ports a slot's gateway is open on. *)
Definition open_port (l : option (Proto * N)) : bool :=
  match l with
  | Some (Udp, n) => (n =? BROKER_DNS_PORT)%N
  | Some (Tcp, n) => if (ff <=? i)%nat then existsb (N.eqb n) BROKER_TCP_PORTS else (n =? BROKER_DNS_PORT)%N
  | None => false
  end.

(** A packet of a slot gets to the host when it continues a connection or goes to an open port of the
    slot's own gateway. *)
Lemma input_verdict : verdict (input_rules slots ff) p =
  if bool_decide (dst p = V4 (gateway i)) && open_port (l4 p) || negb (bool_decide (ct p = CtNew)) then Accept else Drop.
Proof.
  assert (Ht : verdict [([Iif taps; CtIn [CtNew]], Drop)] p = if bool_decide (ct p = CtNew) then Drop else Accept).
  { rewrite verdict_cons. own. cbn [forallb matches]. rewrite andb_true_r.
    rewrite (bool_decide_ext _ (ct p = CtNew)) by apply list_elem_of_singleton. done. }
  assert (Hd : forall a b n m, bool_decide (Some (a : Proto, n) = Some (b, m)) = bool_decide (a = b) && (n =? m)%N).
  { intros a b n m. destruct (N.eqb_spec n m) as [->|]; repeat case_bool_decide; naive_solver. }
  unfold input_rules, open_port. rewrite verdict_own by (headed || apply public_nodup).
  destruct (Nat.leb_spec ff i) as [Hle|Hlt].
  - rewrite decide_False by (rewrite in_public; lia). cbn [app]. rewrite verdict_own by (headed || apply filtered_nodup).
    rewrite decide_True by (rewrite in_filtered; lia). unfold filtered_input. cbn [app]. rewrite 2!verdict_cons, Ht. own.
    cbn [forallb matches fst snd]. rewrite !andb_true_r. destruct (bool_decide (dst p = _)); cbn [andb orb]; [|by case_bool_decide].
    destruct (l4 p) as [[[] n]|]; rewrite ?Hd; ports.
  - rewrite decide_True by (rewrite in_public; lia). unfold public_input, both. cbn [app]. rewrite 2!verdict_cons.
    rewrite verdict_own by (headed || apply filtered_nodup). rewrite decide_False by (rewrite in_filtered; lia).
    cbn [app]. rewrite Ht. own.
    cbn [forallb matches fst snd]. rewrite !andb_true_r. destruct (bool_decide (dst p = _)); cbn [andb orb]; [|by case_bool_decide].
    destruct (l4 p) as [[[] n]|]; rewrite ?Hd; ports.
Qed.

(** DNS from a slot is sent to the broker's port: whatever server a filtered slot asks, and what a
    public slot asks its own gateway. *)
Definition dns_redirected : bool :=
  match l4 p with Some (_, n) => (n =? 53)%N | None => false end &&
  ((ff <=? i)%nat || bool_decide (dst p = V4 (gateway i))).

Lemma prerouting_verdict : verdict (prerouting_rules slots ff) p = if dns_redirected then Redirect BROKER_DNS_PORT else Accept.
Proof.
  assert (Hd : forall a b n m, bool_decide (Some (a : Proto, n) = Some (b, m)) = bool_decide (a = b) && (n =? m)%N).
  { intros a b n m. destruct (N.eqb_spec n m) as [->|]; repeat case_bool_decide; naive_solver. }
  unfold prerouting_rules, dns_redirected. rewrite <- (app_nil_r (flat_map filtered_prerouting _)).
  rewrite verdict_own by (headed || apply public_nodup). destruct (Nat.leb_spec ff i) as [Hle|Hlt].
  - rewrite decide_False by (rewrite in_public; lia). cbn [app]. rewrite verdict_own by (headed || apply filtered_nodup).
    rewrite decide_True by (rewrite in_filtered; lia). unfold filtered_prerouting, both. cbn [app]. rewrite 2!verdict_cons. own.
    cbn [forallb matches fst snd]. rewrite !andb_true_r. destruct (l4 p) as [[[] n]|]; rewrite ?Hd; ports.
  - rewrite decide_True by (rewrite in_public; lia). unfold public_prerouting, both. cbn [app]. rewrite 2!verdict_cons.
    rewrite verdict_own by (headed || apply filtered_nodup). rewrite decide_False by (rewrite in_filtered; lia). own.
    cbn [forallb matches fst snd app orb]. rewrite !andb_true_r.
    destruct (bool_decide (dst p = _)), (l4 p) as [[[] n]|]; rewrite ?Hd; ports.
Qed.
End slot.

(** ** What a slot reaches *)

Lemma hooked_table wan slots lan ff : (0 < slots)%nat ->
  hooked (B "prerouting") (isopod_table wan slots lan ff) = prerouting_rules slots ff /\
  hooked (B "input") (isopod_table wan slots lan ff) = input_rules slots ff /\
  hooked (B "forward") (isopod_table wan slots lan ff) = forward_rules wan slots lan ff /\
  hooked (B "postrouting") (isopod_table wan slots lan ff) = postrouting_rules wan.
Proof. intros H. unfold isopod_table. by rewrite decide_False by lia. Qed.

Lemma open_port_true ff i l : open_port ff i l = true <-> exists pr n, l = Some (pr, n) /\
  (n = BROKER_DNS_PORT \/ (ff <= i)%nat /\ pr = Tcp /\ n ∈ BROKER_TCP_PORTS).
Proof.
  unfold open_port. destruct l as [[[] n]|].
  - rewrite N.eqb_eq. naive_solver.
  - destruct (Nat.leb_spec ff i).
    + rewrite existsb_exists. split.
      * intros (x & Hx & ->%N.eqb_eq). apply list_elem_of_In in Hx. eauto 10.
      * intros (pr & m & [= <- <-] & [->|(_ & _ & Hn)]); [exists BROKER_DNS_PORT|exists n]; rewrite N.eqb_eq; split; try done.
        -- cbn. tauto.
        -- by apply list_elem_of_In.
    + rewrite N.eqb_eq. split; [intros ->; eauto|]. intros (pr & m & [= <- <-] & [?|[? _]]); [done|lia].
  - split; [done|]. intros (? & ? & ? & _). done.
Qed.
Section reach.
Context (local : ip_addr -> bool) (route : ip_addr -> bytes) (ifaddr4 : bytes -> ipv4) (ifaddr6 : bytes -> ipv6).
Context (wan : bytes) (slots : nat) (lan : bool) (ff : nat) (i : nat) (p : Packet).
Hypothesis Hi : (i < slots)%nat.
Hypothesis Hp : iif p = tap i.

(** The packet as the routing decision sees it, and as it leaves. *)
Definition arrived : Packet :=
  if bool_decide (ct p = CtNew) && dns_redirected ff i p then redirected ifaddr4 ifaddr6 BROKER_DNS_PORT p else p.
Definition leaving : Packet := MkPacket (iif p) (route (dst arrived)) (addrs arrived) (l4 arrived) (ct p).

Lemma arrived_keeps : iif arrived = tap i /\ ct arrived = ct p.
Proof. unfold arrived. by case_match. Qed.

Lemma fate_of_slot : fate local route ifaddr4 ifaddr6 (isopod_table wan slots lan ff) p =
  if local (dst arrived) then
    if bool_decide (dst arrived = V4 (gateway i)) && open_port ff i (l4 arrived) || negb (bool_decide (ct p = CtNew))
    then Delivered arrived else Dropped
  else if (i <? ff)%nat && public_egress wan lan i leaving then Forwarded leaving else Dropped.
Proof.
  unfold fate. destruct (hooked_table wan slots lan ff ltac:(lia)) as (-> & -> & -> & _).
  destruct arrived_keeps as [Hiif Hct].
  assert (prerouted ifaddr4 ifaddr6 (prerouting_rules slots ff) p = arrived) as ->.
  { unfold prerouted, arrived. rewrite (prerouting_verdict slots ff i p Hi Hp).
    destruct (bool_decide (ct p = CtNew)), (dns_redirected ff i p); done. }
  destruct (local (dst arrived)).
  - rewrite (input_verdict slots ff i arrived Hi Hiif), Hct. by destruct (_ || _).
  - rewrite Hiif, Hct, <- Hp. fold leaving. rewrite (forward_verdict wan slots ff lan i leaving Hi Hp). by destruct (_ && _).
Qed.

Lemma public_egress_true : public_egress wan lan i leaving = true <->
  (exists d, addrs arrived = Ip4 (guest i) d) /\ route (dst arrived) = wan /\
  starts_with (B "isopod-tap") wan = false /\
  (lan = false -> Forall (fun c => Egress.Cidr.contains c (dst arrived) = false) private_dests).
Proof.
  unfold public_egress, to_private. rewrite !andb_true_iff, negb_true_iff, orb_true_iff, negb_true_iff, beq_true.
  rewrite existsb_false. cbn [leaving addrs oif]. split.
  - intros (((Ha & Ht) & Hw) & Hl). destruct (addrs arrived) as [s d|s d]; [|done]. reflect_bools. subst s. split; [by eexists|].
    split; [done|]. split; [by rewrite Hw|]. intros Hlan. destruct Hl as [?|?]; [congruence|done].
  - intros ((d & ->) & Hr & Ht & Hl). rewrite bool_decide_eq_true_2 by done. split_and!; [done|by rewrite Hr|done|].
    destruct lan; [by left|right; by apply Hl].
Qed.

End reach.

Lemma in_supernet i : (i < MAX_SLOT_COUNT)%nat -> Egress.Cidr.contains supernet (V4 (guest i)) = true.
Proof.
  intros Hi. assert (H : forallb (fun i => Egress.Cidr.contains supernet (V4 (guest i))) (seq 0 MAX_SLOT_COUNT) = true)
    by (vm_compute; reflexivity). rewrite forallb_forall in H. apply H, in_seq. lia.
Qed.

Section slots.
Context (local : ip_addr -> bool) (route : ip_addr -> bytes) (ifaddr4 : bytes -> ipv4) (ifaddr6 : bytes -> ipv6).

(** C3: a filtered slot is confined to its broker. Under the table [isopod setup] loads, nothing that
    arrives from the slot's tap is forwarded anywhere, whatever its addresses, protocol and state and
    however the host routes; and of what begins a connection only packets to the slot's own gateway
    are let through to the host, on the broker's ports. *)
Theorem filtered_slot_confined wan slots lan ff i p
  (Hslots : (slots <= MAX_SLOT_COUNT)%nat) (Hi : (ff <= i < slots)%nat) (Hp : iif p = tap i) :
  let table := isopod_table wan slots lan ff in
  build_nft_ruleset wan slots lan ff = print_table table /\
  match fate local route ifaddr4 ifaddr6 table p with
  | Forwarded _ => False
  | Delivered q => ct p = CtNew -> dst q = V4 (gateway i) /\ exists pr n, l4 q = Some (pr, n) /\
      (n = BROKER_DNS_PORT \/ pr = Tcp /\ n ∈ BROKER_TCP_PORTS)
  | Dropped => True
  end.
Proof.
  intros table. split; [by apply build_is_table|]. unfold table. rewrite (fate_of_slot local route ifaddr4 ifaddr6 wan slots lan ff i p ltac:(lia) Hp).
  set (q := arrived ifaddr4 ifaddr6 ff i p). destruct (Nat.ltb_spec i ff); [lia|]. cbn [andb].
  destruct (local (dst q)); [|done]. destruct (_ || _) eqn:E; [|done]. intros Hct.
  rewrite (bool_decide_eq_true_2 _ Hct), orb_false_r, andb_true_iff, open_port_true in E.
  destruct E as [Hd (pr & n & Hl & Hn)]. reflect_bools. naive_solver.
Qed.

(** A public slot reaches the public internet and its own resolver. Of what arrives from its tap
    only IPv4 packets with the slot's own source address are forwarded, only out of the egress
    interface, and to no private address unless the operator allowed it; of what begins a connection
    only DNS to the slot's gateway is let through to the host. *)
Theorem public_slot_egress wan slots lan ff i p
  (Hslots : (slots <= MAX_SLOT_COUNT)%nat) (Hi : (i < ff)%nat /\ (i < slots)%nat) (Hp : iif p = tap i) :
  let table := isopod_table wan slots lan ff in
  build_nft_ruleset wan slots lan ff = print_table table /\
  match fate local route ifaddr4 ifaddr6 table p with
  | Forwarded q => (exists d, addrs q = Ip4 (guest i) d) /\ oif q = wan /\ starts_with (B "isopod-tap") (oif q) = false /\
      (lan = false -> Forall (fun c => Egress.Cidr.contains c (dst q) = false) private_dests) /\
      verdict (hooked (B "postrouting") table) q = Masquerade
  | Delivered q => ct p = CtNew -> dst q = V4 (gateway i) /\ exists pr, l4 q = Some (pr, BROKER_DNS_PORT)
  | Dropped => True
  end.
Proof.
  intros table. split; [by apply build_is_table|]. unfold table.
  destruct (hooked_table wan slots lan ff ltac:(lia)) as (_ & _ & _ & ->).
  rewrite (fate_of_slot local route ifaddr4 ifaddr6 wan slots lan ff i p ltac:(lia) Hp).
  pose proof (public_egress_true route ifaddr4 ifaddr6 wan lan ff i p) as Hpub.
  set (q := arrived ifaddr4 ifaddr6 ff i p) in *. set (o := leaving route ifaddr4 ifaddr6 ff i p) in *.
  destruct (local (dst q)).
  - destruct (_ || _) eqn:E; [|done]. intros Hct.
    rewrite (bool_decide_eq_true_2 _ Hct), orb_false_r, andb_true_iff, open_port_true in E.
    destruct E as [Hd (pr & n & Hl & [->|[? _]])]; [|lia]. reflect_bools. eauto.
  - destruct (_ && _) eqn:E; [|done]. apply andb_true_iff in E as [_ (Ha & Hr & Ht & Hl)%Hpub].
    change (addrs o) with (addrs q). change (oif o) with (route (dst q)). change (dst o) with (dst q).
    split; [done|]. split; [done|]. split; [by rewrite Hr|]. split; [done|].
    unfold postrouting_rules. rewrite verdict_cons. unfold fires. cbn [fst forallb matches pattern_matches snd].
    change (oif o) with (route (dst q)). change (src o) with (src q). rewrite Hr, (proj2 (beq_true _ _) eq_refl).
    destruct Ha as [d Hd]. unfold src. rewrite Hd, in_supernet by lia. done.
Qed.
(** C35: what a slot is meant to reach, it reaches. On a host that has the slot's gateway address, a new
    connection of a filtered slot to a TCP port of the broker is delivered; DNS, to any server from a
    filtered slot and to its gateway from a public one, is delivered on the port the broker can bind;
    and a public slot's own connections to public addresses are forwarded. *)
Theorem slot_reaches_services wan slots lan ff i p d
  (Hslots : (slots <= MAX_SLOT_COUNT)%nat) (Hi : (i < slots)%nat)
  (Hp : iif p = tap i) (Hsrc : addrs p = Ip4 (guest i) d) (Hct : ct p = CtNew)
  (Hlocal : local (V4 (gateway i)) = true) (Haddr : ifaddr4 (tap i) = gateway i) :
  let table := isopod_table wan slots lan ff in
  build_nft_ruleset wan slots lan ff = print_table table /\
  (forall n, (ff <= i)%nat -> d = gateway i -> l4 p = Some (Tcp, n) -> n ∈ BROKER_TCP_PORTS ->
    fate local route ifaddr4 ifaddr6 table p = Delivered p) /\
  (forall pr, (ff <= i)%nat \/ d = gateway i -> l4 p = Some (pr, 53%N) ->
    fate local route ifaddr4 ifaddr6 table p =
      Delivered (MkPacket (iif p) (oif p) (Ip4 (guest i) (gateway i)) (Some (pr, BROKER_DNS_PORT)) CtNew)) /\
  ((i < ff)%nat -> local (V4 d) = false -> route (V4 d) = wan -> starts_with (B "isopod-tap") wan = false ->
    (lan = false -> Forall (fun c => Egress.Cidr.contains c (V4 d) = false) private_dests) ->
    fate local route ifaddr4 ifaddr6 table p = Forwarded (MkPacket (iif p) wan (addrs p) (l4 p) CtNew)).
Proof.
  intros table. split; [by apply build_is_table|]. unfold table.
  rewrite (fate_of_slot local route ifaddr4 ifaddr6 wan slots lan ff i p Hi Hp).
  assert (Hdst : dst p = V4 d) by (unfold dst; by rewrite Hsrc).
  assert (Harr : dns_redirected ff i p = false -> arrived ifaddr4 ifaddr6 ff i p = p).
  { unfold arrived. intros ->. by rewrite andb_false_r. }
  rewrite (bool_decide_eq_true_2 _ Hct), orb_false_r. split_and!.
  - intros n Hf -> Hl Hn. assert (Hne : n <> 53%N) by (intros ->; set_solver).
    rewrite Harr by (unfold dns_redirected; rewrite Hl; by destruct (N.eqb_spec n 53)).
    rewrite Hdst, Hlocal, bool_decide_eq_true_2 by done. cbn [andb].
    by rewrite (proj2 (open_port_true ff i (l4 p))) by (rewrite Hl; eauto 10).
  - intros pr Hd Hl. assert (Ha : arrived ifaddr4 ifaddr6 ff i p =
      MkPacket (iif p) (oif p) (Ip4 (guest i) (gateway i)) (Some (pr, BROKER_DNS_PORT)) CtNew).
    { unfold arrived, dns_redirected. rewrite (bool_decide_eq_true_2 _ Hct), Hl, Hdst. cbn [andb].
      assert ((53 =? 53)%N && ((ff <=? i)%nat || bool_decide (V4 d = V4 (gateway i))) = true) as ->.
      { apply andb_true_iff. split; [done|]. apply orb_true_iff. destruct Hd as [Hd| ->]; [left; by apply Nat.leb_le|right].
        by apply bool_decide_eq_true_2. }
      unfold redirected. by rewrite Hsrc, Hl, Hp, Haddr, Hct. }
    rewrite Ha. cbn [dst addrs l4]. rewrite Hlocal, bool_decide_eq_true_2 by done. cbn [andb].
    by rewrite (proj2 (open_port_true ff i _)) by eauto 10.
  - intros Hf Hloc Hr Ht Hl. assert (Hd : d <> gateway i) by (intros ->; congruence).
    assert (Ha : arrived ifaddr4 ifaddr6 ff i p = p).
    { apply Harr. unfold dns_redirected. rewrite Hdst, (bool_decide_eq_false_2 (V4 d = _)) by congruence.
      destruct (Nat.leb_spec ff i); [lia|]. by rewrite andb_false_r. }
    rewrite (proj2 (public_egress_true route ifaddr4 ifaddr6 wan lan ff i p)) by (rewrite Ha, Hdst; eauto).
    rewrite Ha, Hdst, Hloc. destruct (Nat.ltb_spec i ff); [|lia]. cbn [andb]. unfold leaving.
    by rewrite Ha, Hdst, Hr, Hct.
Qed.
End slots.

(** The ports a host opens are those its manifest records, so a run that asks the manifest whether a
    listener can be reached is answered right. *)
Theorem opened_as_recorded wan slots lan ff now i n (Hi : (i < slots)%nat) :
  let m := Manifest.new slots wan now lan ff in
  open_port ff i (Some (Tcp, n)) = true <->
  if Manifest.is_filtered m i then n ∈ Manifest.broker_tcp_ports m else Manifest.gateway_dns_port m = Some n.
Proof.
  intros m. unfold open_port, m, Manifest.is_filtered, Manifest.filtered_from, Manifest.new.
  cbn [Manifest.filtered_from_field Manifest.slot_count Manifest.broker_tcp_ports Manifest.gateway_dns_port].
  destruct (Nat.ltb_spec ff slots); cbn [Manifest.slot_count].
  - destruct (Nat.leb_spec ff slots); [|lia]. destruct (Nat.ltb_spec i slots); [|lia]. rewrite andb_true_r.
    destruct (Nat.leb_spec ff i).
    + unfold Manifest.broker_tcp_ports. cbn [Manifest.broker_tcp_ports_field default id]. rewrite existsb_exists.
      setoid_rewrite <- list_elem_of_In. setoid_rewrite N.eqb_eq. naive_solver.
    + unfold Manifest.gateway_dns_port. cbn [Manifest.gateway_dns_port_field].
      destruct (Nat.ltb_spec 0 ff); [|lia]. rewrite N.eqb_eq. naive_solver.
  - destruct (Nat.leb_spec slots i); [lia|]. destruct (Nat.leb_spec ff i); [lia|]. cbn [andb].
    unfold Manifest.gateway_dns_port. cbn [Manifest.gateway_dns_port_field].
    destruct (Nat.ltb_spec 0 ff); [|lia]. rewrite N.eqb_eq. naive_solver.
Qed.

(** ** Concrete hosts *)

(** A host of twelve slots, four of them filtered, with one address on each tap. *)
Definition host_local (a : ip_addr) : bool := existsb (fun i => bool_decide (a = V4 (gateway i))) (seq 0 12).
Definition host_route (a : ip_addr) : bytes := B "eth0".
Definition host_addr (name : bytes) : ipv4 :=
  match List.find (fun i => beq (tap i) name) (seq 0 12) with Some i => gateway i | None => ipv4_new 192 0 2 1 end.
Definition host_addr6 (name : bytes) : ipv6 := Ipv6Addr.localhost.
Definition host_fate (p : Packet) : Fate :=
  fate host_local host_route host_addr host_addr6 (isopod_table (B "eth0") 12 false 8) p.

Definition query (i : nat) (to : ipv4) : Packet := MkPacket (tap i) [] (Ip4 (guest i) to) (Some (Udp, 53%N)) CtNew.
Definition resolver : ipv4 := ipv4_new 1 1 1 1.

Lemma filtered_slot_confined_witness :
  host_fate (query 9 resolver) = Delivered (MkPacket (tap 9) [] (Ip4 (guest 9) (gateway 9)) (Some (Udp, 5353%N)) CtNew) /\
  dst (MkPacket (tap 9) [] (Ip4 (guest 9) (gateway 9)) (Some (Udp, 5353%N)) CtNew) = V4 (gateway 9).
Proof.
  split; [vm_compute; reflexivity|].
  destruct (filtered_slot_confined host_local host_route host_addr host_addr6 (B "eth0") 12 false 8 9 (query 9 resolver))
    as [_ H]; [unfold MAX_SLOT_COUNT; lia|lia|reflexivity|].
  assert (E : host_fate (query 9 resolver) = Delivered (MkPacket (tap 9) [] (Ip4 (guest 9) (gateway 9)) (Some (Udp, 5353%N)) CtNew))
    by (vm_compute; reflexivity).
  unfold host_fate in E. rewrite E in H. apply H. reflexivity.
Defined.

Lemma public_slot_egress_witness :
  host_fate (query 2 resolver) = Forwarded (MkPacket (tap 2) (B "eth0") (Ip4 (guest 2) resolver) (Some (Udp, 53%N)) CtNew) /\
  Forall (fun c => Egress.Cidr.contains c (V4 resolver) = false) private_dests.
Proof.
  assert (E : host_fate (query 2 resolver) = Forwarded (MkPacket (tap 2) (B "eth0") (Ip4 (guest 2) resolver) (Some (Udp, 53%N)) CtNew))
    by (vm_compute; reflexivity).
  split; [exact E|].
  destruct (public_slot_egress host_local host_route host_addr host_addr6 (B "eth0") 12 false 8 2 (query 2 resolver))
    as [_ H]; [unfold MAX_SLOT_COUNT; lia|lia|reflexivity|].
  unfold host_fate in E. rewrite E in H. destruct H as (_ & _ & _ & H & _). by apply H.
Defined.

Lemma slot_reaches_services_witness :
  host_fate (query 9 resolver) = Delivered (MkPacket (tap 9) [] (Ip4 (guest 9) (gateway 9)) (Some (Udp, 5353%N)) CtNew).
Proof.
  refine (proj1 (proj2 (proj2 (slot_reaches_services host_local host_route host_addr host_addr6 (B "eth0") 12 false 8 9
    (query 9 resolver) resolver _ _ eq_refl eq_refl eq_refl _ _))) Udp _ eq_refl); [unfold MAX_SLOT_COUNT; lia|lia|vm_compute; reflexivity..|lia].
Defined.

Lemma opened_as_recorded_witness : open_port 8 9 (Some (Tcp, 3129%N)) = true.
Proof. apply (opened_as_recorded (B "eth0") 12 false 8 0 9 3129); [lia|]. vm_compute. set_solver. Defined.

(** What reaches a guest from outside is not the table's to stop: a packet that begins a connection
    and arrives on the egress interface passes the policy of the chain, to a filtered slot too.  The
    answer of a filtered slot is dropped. *)
Example unsolicited_inbound :
  let p := MkPacket (B "eth0") (tap 9) (Ip4 resolver (guest 9)) (Some (Tcp, 22%N)) CtNew in
  verdict (forward_rules (B "eth0") 12 false 8) p = Accept /\
  verdict (forward_rules (B "eth0") 12 false 8) (MkPacket (tap 9) (B "eth0") (Ip4 (guest 9) resolver) (Some (Tcp, 40000%N)) CtEstablished) = Drop.
Proof. vm_compute. done. Qed.

(** A tap that an earlier set-up made and this one does not count has no rule of its own: a run that
    still holds filtered slot 9 is forwarded, with a forged source too, once the host is set up again
    for eight slots. *)
Example leftover_tap :
  verdict (forward_rules (B "eth0") 8 false 8)
    (MkPacket (tap 9) (B "eth0") (Ip4 (ipv4_new 203 0 113 7) resolver) (Some (Tcp, 443%N)) CtNew) = Accept.
Proof. vm_compute. done. Qed.
