(* ===== verification/Setup.v ===== *)
(** * [isopod setup] ([crates/core/src/net/setup.rs])

    The one command that runs as root: taps, the packet filter of [Nft], Docker's chain, the
    forwarding switches and the manifest.  What it runs and which files it touches is a log of
    commands with their answers; the host that answers is a parameter.  The texts of errors and the
    lines on standard error are left out.

    [serde_json] is a parameter, as are the environment, the clock and the home directory of the
    [dirs] crate. *)
From stdpp Require Import base.
From S2P Require Import Prelude Text Digest Effects Sys.
From S2P Require Slots.
From S2P Require Import Nft.

(** ** Commands *)

Inductive Cmd : Type :=
  | Exec (bin : bytes) (args : list bytes) (stdin : bytes)
  | ReadToString (path : bytes)
  | WriteFile (path contents : bytes)
  | RenameFile (from to : bytes)
  | RemoveFile (path : bytes)
  | CreateDirAll (path : bytes)
  | ModeOf (path : bytes)
  | SetMode (path : bytes) (mode : N).
#[export] Instance Cmd_eq_dec : EqDecision Cmd.
Proof. solve_decision. Defined.

(** What a command leaves: its exit status and two streams, or the contents of a file. *)
Record Output : Type := MkOutput { success : bool; stdout : bytes; stderr : bytes }.

Abbreviation Answer := (result Output IoError).
Abbreviation History := (list (Cmd * Answer)).

Inductive SetupError : Type :=
  | NotRoot (uid : option N)
  | SlotsOutOfRange (slots : nat)
  | TooManyFiltered (filtered slots : nat)
  | NoSudoUser
  | NoPasswdEntry (user : bytes)
  | NoHome
  | NoDefaultRoute
  | BadIface (iface : bytes)
  | BadTap (i : nat)
  | NotUtf8 (path : bytes)
  | CommandFailed (bin : bytes) (args : list bytes) (stderr : bytes)
  | NotInserted (stderr : bytes)
  | BadManifest
  | IoFailed (c : Cmd) (e : IoError).

Definition SYSCTL_CONF : bytes := B "/etc/sysctl.d/90-isopod.conf".
Definition IP_FORWARD_PROC : bytes := B "/proc/sys/net/ipv4/ip_forward".
Definition sysctl_conf_body : bytes :=
  top_line (B "# Managed by `isopod setup`; removed by `isopod setup --remove`.") ++ top_line (B "net.ipv4.ip_forward = 1").

Record SetupOptions : Type := MkOptions {
  opt_slots : nat; remove : bool; opt_iface : option bytes; allow_lan_egress : bool;
  filtered_slots : nat; manage_docker_user : bool }.

Inductive DockerUserStatus : Type :=
  | Installed | AlreadyPresent | ChainAbsent | IptablesMissing | LockBusy | Skipped | Removed.

Record SetupReport : Type := MkReport {
  removed : bool; rep_slots : nat; rep_filtered : nat; taps_created : list bytes; taps_removed : list bytes;
  ip_forward : N; rep_iface : bytes; docker_user : DockerUserStatus }.

(** ** Reading what other programs print *)

Fixpoint uid_line (lines : list bytes) : option N :=
  match lines with
  | [] => None
  | line :: r =>
      match strip_prefix (B "Uid:") line with
      | Some rest => match split_whitespace rest !! 1%nat with Some s => parse_uint u32_max s | None => None end
      | None => uid_line r
      end
  end.

Definition validate_iface (iface : bytes) : result unit SetupError :=
  if beq iface [] || (16 <=? length iface)%nat then Err (BadIface iface)
  else if negb (forallb (fun b => is_ascii_alphanumeric b || contains b (B "._-@")) iface) then Err (BadIface iface)
  else Ok tt.

(** [s.trim_end()] *)
Definition trim_end (s : bytes) : bytes := concat (map item_bytes (rev (drop_white (rev (utf8_items s))))).

(** The token after the first [dev]. *)
Fixpoint after_dev (toks : list bytes) : option bytes :=
  match toks with
  | [] => None
  | t :: r => if beq t (B "dev") then head r else after_dev r
  end.

Definition default_iface_of (text : bytes) : option bytes :=
  match str_lines text with line :: _ => after_dev (split_whitespace line) | [] => None end.

Definition tap_of_line (line : bytes) : option bytes :=
  match split_whitespace line !! 1%nat with
  | Some name =>
      let name := trim_end_matches (Ascii.eqb ":") name in
      let name := match split_once "@" name with Some (a, _) => a | None => name end in
      if starts_with (B "isopod-tap") name then Some name else None
  | None => None
  end.

Definition matches_any (stderr : bytes) (fragments : list bytes) : bool :=
  existsb (fun f => contains_str f stderr) fragments.

Definition ADDR_EXISTS : list bytes := [B "File exists"; B "Address already assigned"].
Definition ALREADY_GONE : list bytes := [B "No such file"; B "Cannot find"; B "does not exist"].
Definition NO_CHAIN : bytes := B "No chain/target/match by that name".
Definition NO_COMMENT_MATCH : list bytes :=
  [B "Extension comment revision 0 not supported"; NO_CHAIN; B "Couldn't load match `comment'"].
Definition IPT_LOCKED : list bytes := [B "xtables lock"; B "Another app is currently holding"].

Definition DOCKER_USER_CHAIN : bytes := B "DOCKER-USER".
Definition DOCKER_USER_COMMENT : bytes := B "managed-by-isopod-setup".
Definition IPT_WAIT : bytes := B "10".
Definition TAP_WILDCARD : bytes := B "isopod-tap+".

Definition finish (with_comment : bool) (v : list bytes) : list bytes :=
  (if with_comment then v ++ [B "-m"; B "comment"; B "--comment"; DOCKER_USER_COMMENT] else v) ++ [B "-j"; B "ACCEPT"].

(** [docker_user_rule_specs(with_comment)[idx]] *)
Definition docker_user_rule_specs (with_comment : bool) : list (list bytes) :=
  [finish with_comment [B "-i"; TAP_WILDCARD; B "-s"; SLOT_SUPERNET];
   finish with_comment [B "-o"; TAP_WILDCARD; B "-d"; SLOT_SUPERNET; B "-m"; B "conntrack"; B "--ctstate"; B "RELATED,ESTABLISHED"]].
Definition spec (with_comment : bool) (idx : nat) : list bytes := nth idx (docker_user_rule_specs with_comment) [].

Definition ipt_args (rest : list bytes) : list bytes := [B "-w"; IPT_WAIT] ++ rest.

(** ** Commands of the set-up *)

Section host.
Context (host : History -> Cmd -> Answer).
Context (env : bytes -> option bytes) (home_dir : option bytes) (now_unix : N).
Context (manifest_json : Slots.Manifest.Manifest -> result bytes IoError)
        (parse_manifest : bytes -> option Slots.Manifest.Manifest).
Abbreviation C := (SE History SetupError).

Definition answer (c : Cmd) : C Answer := fun h => let a := host h c in (Ok a, h ++ [(c, a)]).

(** [cmd?]: an operation that fails with its command. *)
Definition io (c : Cmd) : C Output := do! a := answer c in se_ret (map_err (IoFailed c) a).
Definition io_ (c : Cmd) : C unit := do! _ := io c in se_ret (Ok tt).

Definition run_cmd (bin : bytes) (args : list bytes) : C unit :=
  do! out := io (Exec bin args []) in
  se_ret (if success out then Ok tt else Err (CommandFailed bin args (stderr out))).

Definition run_tolerating (bin : bytes) (args : list bytes) (tolerate : list bytes) : C unit :=
  do! out := io (Exec bin args []) in
  se_ret (if success out then Ok tt
          else if matches_any (from_utf8_lossy (stderr out)) tolerate then Ok tt
          else Err (CommandFailed bin args (stderr out))).

Definition apply_nft (ruleset : bytes) : C unit :=
  do! out := io (Exec (B "nft") [B "-f"; B "-"] ruleset) in
  se_ret (if success out then Ok tt else Err (CommandFailed (B "nft") [B "-f"; B "-"] (stderr out))).

Definition effective_uid : C (option N) :=
  do! a := answer (ReadToString (B "/proc/self/status")) in
  se_ret (Ok (match a with Ok out => uid_line (str_lines (stdout out)) | Err _ => None end)).

Definition require_root : C unit :=
  do! uid := effective_uid in
  se_ret (match uid with Some 0%N => Ok tt | u => Err (NotRoot u) end).

Definition sudo_user : C bytes :=
  se_ret (match env (B "SUDO_USER") with
          | Some u => if is_utf8 u && negb (beq u []) && negb (beq u (B "root")) then Ok u else Err NoSudoUser
          | None => Err NoSudoUser
          end).

Definition user_home (user : bytes) : C bytes :=
  let args := [B "passwd"; user] in
  do! out := io (Exec (B "getent") args []) in
  if negb (success out) then se_ret (Err (NoPasswdEntry user))
  else
    let fields := split ":" (trim_end (from_utf8_lossy (stdout out))) in
    se_ret (match fields !! 5%nat with
            | Some h => if beq h [] then Err (NoPasswdEntry user) else Ok h
            | None => Err (NoPasswdEntry user)
            end).

Definition non_empty_env (name : bytes) : option bytes :=
  match env name with Some v => if beq v [] then None else Some v | None => None end.

Definition invoking_user_net_dir (user : bytes) : C bytes :=
  match non_empty_env (B "ISOPOD_HOME") with
  | Some v =>
      let dir := path_join v (B "net") in
      do! _ := io_ (CreateDirAll dir) in se_ret (Ok dir)
  | None =>
      do! home := user_home user in
      let dir := path_join (path_join home (B ".isopod")) (B "net") in
      do! _ := io_ (CreateDirAll dir) in se_ret (Ok dir)
  end.

(** [paths::isopod_home] *)
Definition isopod_home : C bytes :=
  se_ret (match non_empty_env (B "ISOPOD_HOME") with
          | Some v => Ok v
          | None => match home_dir with Some h => Ok (path_join h (B ".isopod")) | None => Err NoHome end
          end).

(** [net::net_dir]: the mode is tightened when it can be read and is too loose. *)
Definition net_dir : C bytes :=
  do! home := isopod_home in
  let dir := path_join home (B "net") in
  do! _ := io_ (CreateDirAll dir) in
  do! mode := answer (ModeOf dir) in
  do! _ := (match mode with
    | Ok out => if (N.ldiff (N.land (value_of (stdout out)) 4095) 448 =? 0)%N then se_ret (Ok tt)
                else do! _ := answer (SetMode dir 448) in se_ret (Ok tt)
    | Err _ => se_ret (Ok tt)
    end) in
  se_ret (Ok dir).

Definition detect_default_iface : C bytes :=
  let args := [B "route"; B "show"; B "default"] in
  do! out := io (Exec (B "ip") args []) in
  if negb (success out) then se_ret (Err (CommandFailed (B "ip") args (stderr out)))
  else
    match default_iface_of (from_utf8_lossy (stdout out)) with
    | None => se_ret (Err NoDefaultRoute)
    | Some iface => do! _ := se_ret (validate_iface iface) in se_ret (Ok iface)
    end.

Definition link_exists (name : bytes) : C bool :=
  do! out := io (Exec (B "ip") [B "link"; B "show"; B "dev"; name] []) in se_ret (Ok (success out)).

Definition list_isopod_taps : C (list bytes) :=
  let args := [B "-o"; B "link"; B "show"] in
  do! out := io (Exec (B "ip") args []) in
  se_ret (if success out then Ok (omap tap_of_line (str_lines (from_utf8_lossy (stdout out))))
          else Err (CommandFailed (B "ip") args (stderr out))).

Definition flag (on : bool) : bytes := top_line (if on then B "1" else B "0").
Definition set_ip_forward (on : bool) : C unit := io_ (WriteFile IP_FORWARD_PROC (flag on)).
Definition set_tap_forwarding (tap : bytes) (on : bool) : C unit :=
  io_ (WriteFile (Slots.tap_forwarding_proc tap) (flag on)).
Definition read_ip_forward : C N :=
  do! a := answer (ReadToString IP_FORWARD_PROC) in
  se_ret (Ok (match a with
    | Ok out => default 0%N (parse_uint u8_max (trim (stdout out)))
    | Err _ => 0%N
    end)).

Definition chown_recursive (user path : bytes) : C unit :=
  let owner := user ++ B ":" in
  if negb (is_utf8 path) then se_ret (Err (NotUtf8 path))
  else run_cmd (B "chown") [B "-R"; owner; path].

Definition remove_if_present (path : bytes) : C unit :=
  do! a := answer (RemoveFile path) in
  se_ret (match a with
    | Ok _ => Ok tt
    | Err e => if is_errno e ENOENT then Ok tt else Err (IoFailed (RemoveFile path) e)
    end).

Definition manifest_path_in (root : bytes) : bytes := path_join root (B "slots.json").

(** [net::write_manifest_in] *)
Definition write_manifest_in (root : bytes) (m : Slots.Manifest.Manifest) : C unit :=
  do! json := se_ret (map_err (fun _ => BadManifest) (manifest_json m)) in
  let path := manifest_path_in root in
  let tmp := path_join root (B "slots.json.partial") in
  do! _ := io_ (WriteFile tmp (top_line json)) in
  io_ (RenameFile tmp path).

(** [net::read_manifest_in] *)
Definition read_manifest_in (root : bytes) : C Slots.Manifest.Manifest :=
  do! out := io (ReadToString (manifest_path_in root)) in
  se_ret (match parse_manifest (stdout out) with Some m => Ok m | None => Err BadManifest end).

(** ** Docker's chain *)

(** [None] is success, [Some] the standard error of a refusal. *)
Definition iptables (args : list bytes) : C (result (option bytes) IoError) :=
  do! a := answer (Exec (B "iptables") args []) in
  se_ret (Ok (match a with
    | Ok out => Ok (if success out then None else Some (from_utf8_lossy (stderr out)))
    | Err e => Err e
    end)).

Definition probe_docker_user : C DockerUserStatus :=
  do! r := iptables (ipt_args [B "-S"; DOCKER_USER_CHAIN]) in
  se_ret (Ok (match r with
    | Ok None => AlreadyPresent
    | Ok (Some stderr) => if matches_any stderr IPT_LOCKED then LockBusy else ChainAbsent
    | Err e => if is_errno e ENOENT then IptablesMissing else ChainAbsent
    end)).

(** The loop over the spellings that looks for a rule. *)
Fixpoint rule_present (spellings : list bool) (idx : nat) : C bool :=
  match spellings with
  | [] => se_ret (Ok false)
  | with_comment :: r =>
      do! a := iptables (ipt_args [B "-C"; DOCKER_USER_CHAIN] ++ spec with_comment idx) in
      match a with Ok None => se_ret (Ok true) | _ => rule_present r idx end
  end.

Inductive Inserted : Type := Done | Stop (s : DockerUserStatus) | NotDone (last_err : bytes).

(** The loop over the spellings that inserts a rule. *)
Fixpoint insert_rule (spellings : list bool) (pos idx : nat) (last_err : bytes) : C Inserted :=
  match spellings with
  | [] => se_ret (Ok (NotDone last_err))
  | with_comment :: r =>
      let args := ipt_args [B "-I"; DOCKER_USER_CHAIN; Slots.show_nat pos] ++ spec with_comment idx in
      do! a := iptables args in
      match a with
      | Ok None => se_ret (Ok Done)
      | Ok (Some stderr) =>
          if with_comment && matches_any stderr NO_COMMENT_MATCH then insert_rule r pos idx stderr
          else if contains_str NO_CHAIN stderr then se_ret (Ok (Stop ChainAbsent))
          else if matches_any stderr IPT_LOCKED then se_ret (Ok (Stop LockBusy))
          else insert_rule r pos idx stderr
      | Err e => se_ret (Err (IoFailed (Exec (B "iptables") args []) e))
      end
  end.

Fixpoint ensure_rules (rules : list (nat * nat)) (installed : bool) : C DockerUserStatus :=
  match rules with
  | [] => se_ret (Ok (if installed then Installed else AlreadyPresent))
  | (pos, idx) :: r =>
      do! present := rule_present [true; false] idx in
      if (present : bool) then ensure_rules r installed
      else
        do! i := insert_rule [true; false] pos idx [] in
        match i with
        | Done => ensure_rules r true
        | Stop s => se_ret (Ok s)
        | NotDone last_err => se_ret (Err (NotInserted last_err))
        end
  end.

Definition ensure_docker_user_accepts : C DockerUserStatus :=
  do! s := probe_docker_user in
  match s with
  | AlreadyPresent => ensure_rules [(1, 0); (2, 1)]%nat false
  | other => se_ret (Ok other)
  end.

(** [for _ in 0..n { match iptables(&args) { Ok(None) => continue, _ => break } }] *)
Fixpoint delete_copies (n : nat) (args : list bytes) : C unit :=
  match n with
  | 0%nat => se_ret (Ok tt)
  | S n =>
      do! a := iptables args in
      match a with Ok None => delete_copies n args | _ => se_ret (Ok tt) end
  end.

Definition remove_docker_user_accepts : C DockerUserStatus :=
  do! s := probe_docker_user in
  match s with
  | AlreadyPresent =>
      do! _ := se_iter (fun idx => se_iter (fun with_comment =>
          delete_copies 16 (ipt_args [B "-D"; DOCKER_USER_CHAIN] ++ spec with_comment idx)) [true; false]) [0; 1]%nat in
      se_ret (Ok Removed)
  | other => se_ret (Ok other)
  end.

(** ** Provision and teardown *)

Fixpoint make_taps (user : bytes) (i n : nat) (created : list bytes) : C (list bytes) :=
  match n with
  | 0%nat => se_ret (Ok created)
  | S n =>
      do! tap := se_ret (map_err (fun _ => BadTap i) (Slots.tap_name i)) in
      do! there := link_exists tap in
      do! created := (if (there : bool) then se_ret (Ok created)
        else do! _ := run_cmd (B "ip") [B "tuntap"; B "add"; tap; B "mode"; B "tap"; B "user"; user] in
             se_ret (Ok (created ++ [tap]))) in
      do! _ := run_tolerating (B "ip") [B "addr"; B "add"; Slots.host_cidr i; B "dev"; tap] ADDR_EXISTS in
      do! _ := run_cmd (B "ip") [B "link"; B "set"; tap; B "up"] in
      make_taps user (S i) n created
  end.

Definition set_taps_forwarding (filtered_from slot_count : nat) : C unit :=
  se_iter (fun i =>
    do! tap := se_ret (map_err (fun _ => BadTap i) (Slots.tap_name i)) in
    set_tap_forwarding tap (i <? filtered_from)%nat) (seq 0 slot_count).

Definition provision (opts : SetupOptions) : C SetupReport :=
  let slot_count := opt_slots opts in
  if (slot_count =? 0)%nat || (Slots.MAX_SLOT_COUNT <? slot_count)%nat then se_ret (Err (SlotsOutOfRange slot_count))
  else if (slot_count <? filtered_slots opts)%nat then se_ret (Err (TooManyFiltered (filtered_slots opts) slot_count))
  else
    let filtered_from := (slot_count - filtered_slots opts)%nat in
    do! user := sudo_user in
    do! iface := (match opt_iface opts with
      | Some i => do! _ := se_ret (validate_iface i) in se_ret (Ok i)
      | None => detect_default_iface
      end) in
    do! taps_created := make_taps user 0 slot_count [] in
    do! _ := apply_nft (build_nft_ruleset iface slot_count (allow_lan_egress opts) filtered_from) in
    do! docker_user := (if manage_docker_user opts then ensure_docker_user_accepts else se_ret (Ok Skipped)) in
    do! _ := set_ip_forward true in
    do! _ := io_ (WriteFile SYSCTL_CONF sysctl_conf_body) in
    do! _ := set_taps_forwarding filtered_from slot_count in
    do! root := invoking_user_net_dir user in
    let manifest := Slots.Manifest.new slot_count iface now_unix (allow_lan_egress opts) filtered_from in
    do! _ := write_manifest_in root manifest in
    do! _ := chown_recursive user root in
    do! live := read_ip_forward in
    se_ret (Ok (MkReport false slot_count (filtered_slots opts) taps_created [] live iface docker_user)).

Definition delete_tap (tap : bytes) : C unit := run_tolerating (B "ip") [B "link"; B "del"; tap] ALREADY_GONE.

Definition teardown : C SetupReport :=
  do! own := se_try (F := SetupError) (do! u := sudo_user in invoking_user_net_dir u) in
  do! root := (match own with Ok root => se_ret (Ok root) | Err _ => net_dir end) in
  do! m := se_try (read_manifest_in root) in
  let default_iface := match m with Ok m => Slots.Manifest.default_iface m | Err _ => [] end in
  do! docker_user := remove_docker_user_accepts in
  do! _ := run_tolerating (B "nft") [B "delete"; B "table"; B "inet"; B "isopod"] ALREADY_GONE in
  do! taps := list_isopod_taps in
  do! _ := se_iter delete_tap taps in
  do! _ := remove_if_present SYSCTL_CONF in
  do! _ := remove_if_present (path_join root (B "slots.json")) in
  do! live := read_ip_forward in
  se_ret (Ok (MkReport true 0 0 [] taps live default_iface docker_user)).

Definition run (opts : SetupOptions) : C SetupReport :=
  do! _ := require_root in
  if remove opts then teardown else provision opts.
End host.

(** ** Which commands a step runs *)

(** [m] appends to the log, and only commands in [K]. *)
Definition uses {E A} (K : Cmd -> Prop) (m : SE History E A) : Prop :=
  forall h, exists l, snd (m h) = h ++ l /\ Forall (fun x => K (fst x)) l.

Create HintDb uses.

Section uses.
Context (K : Cmd -> Prop).

Lemma uses_ret {E A} (r : result A E) : uses K (se_ret r).
Proof. intros h. exists []. by rewrite app_nil_r. Qed.

Lemma uses_bind {E A X} (m : SE History E A) (k : A -> SE History E X) :
  uses K m -> (forall a, uses K (k a)) -> uses K (do! a := m in k a).
Proof.
  intros Hm Hk h. unfold se_bind. destruct (Hm h) as (l & Hl & HK). destruct (m h) as [[a|e] h1]; cbn in *; subst h1; [|by exists l].
  destruct (Hk a (h ++ l)) as (l2 & -> & HK2). exists (l ++ l2). rewrite app_assoc. split; [done|by apply Forall_app].
Qed.

Lemma uses_try {E F A} (m : SE History E A) : uses K m -> uses K (se_try (F := F) m).
Proof. intros Hm h. destruct (Hm h) as (l & Hl & HK). unfold se_try. destruct (m h). by exists l. Qed.

Lemma uses_iter {E A} (m : A -> SE History E unit) l : (forall x, uses K (m x)) -> uses K (se_iter m l).
Proof. intros Hm. induction l as [|x l IH]; [apply uses_ret|]. by apply uses_bind. Qed.

Lemma uses_answer host c : K c -> uses K (answer host c).
Proof. intros Hc h. exists [(c, host h c)]. split; [done|by repeat constructor]. Qed.
End uses.
#[export] Hint Resolve uses_ret uses_bind uses_try uses_iter uses_answer : uses.

Lemma uses_weaken {E A} (K K' : Cmd -> Prop) (m : SE History E A) : uses K m -> (forall c, K c -> K' c) -> uses K' m.
Proof. intros Hm HK h. destruct (Hm h) as (l & Hl & H). exists l. split; [done|]. by eapply Forall_impl; [exact H|]; intros [c a] ?; apply HK. Qed.

(** The shape of a step: binds, matches and calls. *)
Ltac uses_steps :=
  repeat first
    [ match goal with |- forall _, _ => intro end
    | apply uses_bind | apply uses_ret | apply uses_iter | apply uses_try
    | apply uses_answer
    | match goal with
      | |- uses _ (match ?x with _ => _ end) => destruct x
      | |- uses _ (if ?x then _ else _) => destruct x
      | |- uses _ ?m => unfold io_, io, run_cmd, run_tolerating, apply_nft, iptables, delete_tap
      end ].

(** What opens the host: Docker's chain, forwarding, and the manifest that lets runs claim slots. *)
Definition opens (c : Cmd) : Prop :=
  match c with
  | Exec bin args _ => bin = B "iptables" /\ B "-I" ∈ args
  | WriteFile _ _ => True
  | RenameFile _ _ => True
  | _ => False
  end.

Section provision.
Context (host : History -> Cmd -> Answer).
Context (env : bytes -> option bytes) (home_dir : option bytes) (now_unix : N).
Context (manifest_json : Slots.Manifest.Manifest -> result bytes IoError).
Abbreviation C := (SE History SetupError).

Lemma make_taps_closed user i n created : uses (fun c => ~ opens c) (make_taps host user i n created).
Proof.
  revert i created. induction n as [|n IH]; intros i created; cbn [make_taps]; unfold link_exists; uses_steps;
    try (apply IH); cbn; try (intros [[=] _]).
Qed.

Lemma detect_closed : uses (fun c => ~ opens c) (detect_default_iface host).
Proof. unfold detect_default_iface. uses_steps; cbn; intros [[=] _]. Qed.

(** The ruleset [opts] asks for, over some well-formed interface, was accepted. *)
Definition is_load (opts : SetupOptions) (x : Cmd * Answer) : Prop :=
  exists iface out, validate_iface iface = Ok tt /\ success out = true /\
    x = (Exec (B "nft") [B "-f"; B "-"] (build_nft_ruleset iface (opt_slots opts) (allow_lan_egress opts)
           (opt_slots opts - filtered_slots opts)), Ok out).

(** In what [m] appends to the log, whatever opens the host comes after a [G]. *)
Definition guarded {A} (G : Cmd * Answer -> Prop) (m : C A) : Prop :=
  forall h, exists l, snd (m h) = h ++ l /\
    forall pre c a post, l = pre ++ (c, a) :: post -> opens c -> Exists G pre.

Lemma guarded_closed {A} G (m : C A) : uses (fun c => ~ opens c) m -> guarded G m.
Proof.
  intros Hm h. destruct (Hm h) as (l & Hl & HK). exists l. split; [done|]. intros pre c a post -> Ho.
  apply Forall_app in HK as [_ HK]. by apply Forall_cons in HK as [? _].
Qed.

Lemma guarded_bind {A X} G (m : C A) (k : A -> C X) : uses (fun c => ~ opens c) m ->
  (forall h a h', m h = (Ok a, h') -> guarded G (k a)) -> guarded G (do! a := m in k a).
Proof.
  intros Hm Hk h. destruct (Hm h) as (l & Hl & HK). unfold se_bind. destruct (m h) as [[a|e] h1] eqn:E; cbn in Hl; subst h1.
  - destruct (Hk _ _ _ E (h ++ l)) as (l2 & -> & Hg). exists (l ++ l2). rewrite app_assoc. split; [done|].
    intros pre c x post Heq Ho. apply app_eq_app in Heq as (k' & [[-> Hp]|[-> Hp]]).
    + destruct k' as [|y k']; cbn in Hp.
      * exfalso. eapply Exists_nil, (Hg [] c x post); [done|exact Ho].
      * injection Hp as <- ->. rewrite !Forall_app, Forall_cons in HK. naive_solver.
    + apply Exists_app. right. by eapply Hg.
  - exists l. split; [done|]. destruct (guarded_closed G m Hm h) as (l' & Hl' & Hg). rewrite E in Hl'. cbn in Hl'.
    by apply app_inv_head in Hl' as ->.
Qed.

Lemma guarded_load {A} opts iface (k : unit -> C A) : validate_iface iface = Ok tt -> uses (fun _ => True) (k tt) ->
  guarded (is_load opts) (do! u := apply_nft host (build_nft_ruleset iface (opt_slots opts) (allow_lan_egress opts)
    (opt_slots opts - filtered_slots opts)) in k u).
Proof.
  intros Hv Hk h. unfold apply_nft, io, answer, se_bind, se_ret, map_err. set (c := Exec _ _ _).
  destruct (host h c) as [out|e] eqn:E.
  - destruct (success out) eqn:Eo.
    + destruct (Hk (h ++ [(c, Ok out)])) as (l & -> & _). exists ((c, Ok out) :: l). rewrite <- app_assoc. split; [done|].
      intros [|x pre] c' a post [= <- ?] Ho; [by destruct Ho as [[=] _]|]. left. by exists iface, out.
    + exists [(c, Ok out)]. split; [done|]. intros [|x [|]] c' a post [= <- ?] Ho. by destruct Ho as [[=] _].
  - exists [(c, Err e)]. split; [done|]. intros [|x [|]] c' a post [= <- ?] Ho. by destruct Ho as [[=] _].
Qed.

Lemma uses_ensure (K : Cmd -> Prop) : (forall args, K (Exec (B "iptables") args [])) -> uses K (ensure_docker_user_accepts host).
Proof. intros HK. unfold ensure_docker_user_accepts, probe_docker_user. uses_steps; apply HK. Qed.

Lemma uses_net_dir user : uses (fun c => match c with Exec _ _ _ | CreateDirAll _ => True | _ => False end)
  (invoking_user_net_dir host env user).
Proof. unfold invoking_user_net_dir, user_home. by uses_steps. Qed.

Lemma provision_guarded opts : guarded (is_load opts) (provision host env now_unix manifest_json opts).
Proof.
  unfold provision. destruct (_ || _); [apply guarded_closed; uses_steps|]. destruct (_ <? _)%nat; [apply guarded_closed; uses_steps|].
  apply guarded_bind; [unfold sudo_user; uses_steps|]. intros h user h1 _.
  apply guarded_bind; [uses_steps; by intros [[=] _]|]. intros h2 iface h3 Hi.
  apply guarded_bind; [apply make_taps_closed|]. intros h4 created h5 _.
  apply (guarded_load opts iface).
  - destruct (opt_iface opts) as [i|].
    + apply se_bind_Ok in Hi as ([] & s1 & Hv & [= <- <-]). by injection Hv.
    + unfold detect_default_iface in Hi. apply se_bind_Ok in Hi as (out & s1 & _ & Hi).
      destruct (success out); [|done]. cbn [negb] in Hi. destruct (default_iface_of _) as [x|]; [|done].
      apply se_bind_Ok in Hi as ([] & s2 & Hv & [= <- <-]). by injection Hv.
  - unfold set_taps_forwarding, set_tap_forwarding, set_ip_forward, write_manifest_in, chown_recursive, read_ip_forward.
    uses_steps; try done. by eapply uses_weaken; [apply uses_net_dir|].
Qed.

(** ** What a successful set-up leaves *)

(** The kernel's file: what was last written to it.  Writing the global switch sets the switch of
    every interface. *)
Definition is_switch (path : bytes) : bool :=
  starts_with (B "/proc/sys/net/ipv4/conf/") path && ends_with (B "/forwarding") path.
Definition proc_step (path : bytes) (v : option bytes) (x : Cmd * Answer) : option bytes :=
  match x with
  | (WriteFile p b, Ok _) => if beq p path || beq p IP_FORWARD_PROC && is_switch path then Some b else v
  | _ => v
  end.
Definition proc_file (h : History) (path : bytes) : option bytes := fold_left (proc_step path) h None.

Lemma proc_file_app h l path : proc_file (h ++ l) path = fold_left (proc_step path) l (proc_file h path).
Proof. apply fold_left_app. Qed.

(** Commands that leave the kernel's switches alone. *)
Definition no_switch (c : Cmd) : Prop :=
  match c with WriteFile p _ => is_switch p = false /\ p <> IP_FORWARD_PROC | _ => True end.

Lemma proc_file_kept h l path : (is_switch path = true \/ path = IP_FORWARD_PROC) ->
  Forall (fun x => no_switch (fst x)) l -> proc_file (h ++ l) path = proc_file h path.
Proof.
  intros Hp Hl. rewrite proc_file_app. generalize (proc_file h path). induction Hl as [|[c a] l Hc Hl IH]; intros v; [done|].
  cbn [fold_left]. assert (proc_step path v (c, a) = v) as ->; [|apply IH].
  unfold proc_step. destruct c; try done. destruct a; [|done]. cbn in Hc. destruct Hc as [Hs Hne].
  assert (beq path0 path = false) as ->. { apply not_true_iff_false. rewrite beq_true. intros ->. destruct Hp; congruence. }
  assert (beq path0 IP_FORWARD_PROC = false) as ->; [|done]. apply not_true_iff_false. by rewrite beq_true.
Qed.

Lemma tap_switch i : is_switch (Slots.tap_forwarding_proc (tap i)) = true.
Proof.
  unfold is_switch. apply andb_true_iff. split; [apply starts_with_true|apply ends_with_true]; unfold Slots.tap_forwarding_proc.
  - by eexists.
  - rewrite app_assoc. by eexists.
Qed.

Lemma switch_inj i j : Slots.tap_forwarding_proc (tap i) = Slots.tap_forwarding_proc (tap j) -> i = j.
Proof. intros E%app_inv_head%app_inv_tail. by apply tap_inj. Qed.

Lemma tap_not_global i : Slots.tap_forwarding_proc (tap i) <> IP_FORWARD_PROC.
Proof. intros E. pose proof (tap_switch i) as H. rewrite E in H. by vm_compute in H. Qed.

Lemma io_ok c h out h' : io host c h = (Ok out, h') -> h' = h ++ [(c, Ok out)].
Proof. unfold io, answer, se_bind, se_ret, map_err. by destruct (host h c); intros [= -> <-]. Qed.

Lemma io__ok c h u h' : io_ host c h = (Ok u, h') -> exists out, h' = h ++ [(c, Ok out)].
Proof. unfold io_. intros (out & h1 & H & [= _ <-])%se_bind_Ok. apply io_ok in H. by exists out. Qed.

Lemma set_taps_ok ff k n h u h' : (k + n <= Slots.MAX_SLOT_COUNT)%nat ->
  se_iter (fun i => do! tap := se_ret (map_err (fun _ => BadTap i) (Slots.tap_name i)) in
                    set_tap_forwarding host tap (i <? ff)%nat) (seq k n) h = (Ok u, h') ->
  (forall i, (k <= i < k + n)%nat -> proc_file h' (Slots.tap_forwarding_proc (tap i)) = Some (flag (i <? ff)%nat)) /\
  (forall path, (forall i, (k <= i < k + n)%nat -> path <> Slots.tap_forwarding_proc (tap i)) -> proc_file h' path = proc_file h path) /\
  exists l, h' = h ++ l.
Proof.
  revert k h. induction n as [|n IH]; intros k h Hk; cbn [seq se_iter].
  { intros [= _ <-]. split; [intros i; lia|]. split; [done|]. exists []. by rewrite app_nil_r. }
  intros ([] & h2 & (t & h1 & Ht & Hw)%se_bind_Ok & Hr)%se_bind_Ok. injection Ht as Ht <-.
  assert (t = tap k) as ->.
  { destruct (Slots.slot_parameters k ltac:(lia)) as ((t' & Ht' & _) & _). rewrite Ht' in Ht. injection Ht as <-.
    unfold Slots.tap_name in Ht'. case_match; [done|]. by injection Ht'. }
  apply io__ok in Hw as (out & ->). destruct (IH (S k) _ ltac:(lia) Hr) as (Ht1 & Hother & l & ->).
  split_and!.
  - intros i Hi. destruct (decide (i = k)) as [->|Hne]; [|apply Ht1; lia].
    rewrite Hother by (intros j Hj E%switch_inj; lia). rewrite proc_file_app. cbn.
    by rewrite (proj2 (beq_true _ _) eq_refl).
  - intros path Hp. rewrite Hother by (intros j Hj; apply Hp; lia). rewrite proc_file_app. cbn.
    assert (beq (Slots.tap_forwarding_proc (tap k)) path = false) as ->.
    { apply not_true_iff_false. rewrite beq_true. intros <-. by apply (Hp k); [lia|]. }
    assert (beq (Slots.tap_forwarding_proc (tap k)) IP_FORWARD_PROC = false) as ->; [|done].
    apply not_true_iff_false. rewrite beq_true. apply tap_not_global.
  - eexists. by rewrite <- app_assoc.
Qed.

Lemma uses_suffix {E A} (K : Cmd -> Prop) (m : SE History E A) h r h' : uses K m -> m h = (r, h') ->
  exists l, h' = h ++ l /\ Forall (fun x => K (fst x)) l.
Proof. intros Hm E'. destruct (Hm h) as (l & Hl & HK). rewrite E' in Hl. by exists l. Qed.

Lemma tap_name_ok i : (i < Slots.MAX_SLOT_COUNT)%nat -> Slots.tap_name i = Ok (tap i).
Proof.
  intros Hi. destruct (Slots.slot_parameters i Hi) as ((t & Ht & _) & _). rewrite Ht.
  unfold Slots.tap_name in Ht. case_match; [done|]. by injection Ht as <-.
Qed.

Lemma partial_no_switch root : no_switch (WriteFile (path_join root (B "slots.json.partial")) []).
Proof.
  assert (H : exists p, path_join root (B "slots.json.partial") = p ++ B "l").
  { unfold path_join. change (starts_with (B "/") (B "slots.json.partial")) with false. cbn [orb].
    destruct (beq root [] || ends_with (B "/") root); [exists (root ++ B "slots.json.partia")|exists (root ++ B "/" ++ B "slots.json.partia")];
      by rewrite <- !app_assoc. }
  destruct H as [p ->]. cbn. split.
  - unfold is_switch. apply andb_false_iff. right. apply not_true_iff_false. rewrite ends_with_true.
    intros (r & E). change (B "/forwarding") with (B "/forwardin" ++ B "g") in E. rewrite app_assoc in E.
    by apply app_inj_tail in E as [_ ?].
  - intros E. change IP_FORWARD_PROC with (B "/proc/sys/net/ipv4/ip_forwar" ++ B "d") in E.
    by apply app_inj_tail in E as [_ ?].
Qed.

Lemma guard_passes read slots iface now lan ff : (slots <= Slots.MAX_SLOT_COUNT)%nat ->
  (forall i, (ff <= i < slots)%nat -> read (Slots.tap_forwarding_proc (tap i)) = Some (flag false)) ->
  Slots.require_filtered_pool_guard (E := SetupError) read (Ok (Slots.Manifest.new slots iface now lan ff)) = Ok tt.
Proof.
  intros Hs Hr. apply Slots.pool_guard_spec; [done|]. intros i Hi. fold (tap i). rewrite Hr; [vm_compute; reflexivity|].
  unfold Slots.Manifest.is_filtered, Slots.Manifest.new, Slots.Manifest.filtered_from in Hi.
  cbn [Slots.Manifest.filtered_from_field Slots.Manifest.slot_count] in Hi. reflect_bools.
  destruct (Nat.ltb_spec ff slots); [destruct (Nat.leb_spec ff slots)|]; lia.
Qed.

(** The last steps of a set-up: the manifest. *)
Definition publish (user : bytes) (slots : nat) (iface : bytes) (created : list bytes) (du : DockerUserStatus) (ff : nat)
    (opts : SetupOptions) : C SetupReport :=
  do! root := invoking_user_net_dir host env user in
  do! _ := write_manifest_in host manifest_json root (Slots.Manifest.new slots iface now_unix (allow_lan_egress opts) ff) in
  do! _ := chown_recursive host user root in
  do! live := read_ip_forward host in
  se_ret (Ok (MkReport false slots (filtered_slots opts) created [] live iface du)).

Lemma publish_uses user slots iface created du ff opts : uses no_switch (publish user slots iface created du ff opts).
Proof.
  unfold publish. apply uses_bind; [eapply uses_weaken; [apply uses_net_dir|by intros []]|].
  intros root. unfold write_manifest_in, chown_recursive, read_ip_forward. uses_steps; try done. apply (partial_no_switch root).
Qed.

Lemma publish_ok user slots iface created du ff opts h rep h' : publish user slots iface created du ff opts h = (Ok rep, h') ->
  rep_iface rep = iface /\ exists root json o1 o2,
    manifest_json (Slots.Manifest.new slots iface now_unix (allow_lan_egress opts) ff) = Ok json /\
    (WriteFile (path_join root (B "slots.json.partial")) (top_line json), Ok o1) ∈ h' /\
    (RenameFile (path_join root (B "slots.json.partial")) (manifest_path_in root), Ok o2) ∈ h'.
Proof.
  unfold publish. intros (root & h9 & _ & (u10 & h10 & Hman & (u11 & h11 & Hown & (live & h12 & Hlive & [= <- <-])%se_bind_Ok)%se_bind_Ok)%se_bind_Ok)%se_bind_Ok.
  split; [done|]. apply (uses_suffix (fun _ => True)) in Hown as (l11 & -> & _); [|unfold chown_recursive; by uses_steps].
  apply (uses_suffix (fun _ => True)) in Hlive as (l12 & -> & _); [|unfold read_ip_forward; by uses_steps].
  unfold write_manifest_in in Hman. apply se_bind_Ok in Hman as (json & hj & Hj & Hman). injection Hj as Hj <-.
  apply map_err_Ok in Hj. apply se_bind_Ok in Hman as (uw & hw & Hw & Hr). apply io__ok in Hw as (ow & ->). apply io__ok in Hr as (orn & ->).
  exists root, json, ow, orn. split; [done|]. set_solver.
Qed.

Lemma provision_ok opts h rep h' : provision host env now_unix manifest_json opts h = (Ok rep, h') ->
  let slots := opt_slots opts in
  let ff := (slots - filtered_slots opts)%nat in
  let m := Slots.Manifest.new slots (rep_iface rep) now_unix (allow_lan_egress opts) ff in
  (1 <= slots <= Slots.MAX_SLOT_COUNT)%nat /\ (filtered_slots opts <= slots)%nat /\
  (forall i, (i < slots)%nat -> proc_file h' (Slots.tap_forwarding_proc (tap i)) = Some (flag (i <? ff)%nat)) /\
  proc_file h' IP_FORWARD_PROC = Some (flag true) /\
  exists root json o1 o2, manifest_json m = Ok json /\
    (WriteFile (path_join root (B "slots.json.partial")) (top_line json), Ok o1) ∈ h' /\
    (RenameFile (path_join root (B "slots.json.partial")) (manifest_path_in root), Ok o2) ∈ h'.
Proof.
  intros Hrun slots ff m. unfold provision in Hrun. fold slots in Hrun.
  destruct (_ || _) eqn:Hc in Hrun; [done|]. apply orb_false_iff in Hc as [Hz Hm]. reflect_bools.
  destruct (Nat.ltb_spec slots (filtered_slots opts)); [done|]. fold ff in Hrun.
  apply se_bind_Ok in Hrun as (user & h1 & _ & Hrun). apply se_bind_Ok in Hrun as (iface & h2 & _ & Hrun).
  apply se_bind_Ok in Hrun as (created & h3 & _ & Hrun). apply se_bind_Ok in Hrun as (u4 & h4 & _ & Hrun).
  apply se_bind_Ok in Hrun as (du & h5 & _ & Hrun). apply se_bind_Ok in Hrun as (u6 & h6 & Hip & Hrun).
  apply se_bind_Ok in Hrun as (u7 & h7 & Hconf & Hrun). apply se_bind_Ok in Hrun as (u8 & h8 & Htaps & Hrun).
  unfold set_ip_forward in Hip. apply io__ok in Hip as (o6 & ->). apply io__ok in Hconf as (o7 & ->).
  unfold set_taps_forwarding in Htaps. destruct (set_taps_ok ff 0 slots _ _ _ ltac:(lia) Htaps) as (Hsw & Hrest & _). clear Htaps.
  destruct (uses_suffix no_switch _ _ _ _ (publish_uses user slots iface created du ff opts) Hrun) as (l & -> & Hl).
  split; [lia|]. split; [lia|]. split; [|split].
  - intros i Hi. rewrite (proc_file_kept _ _ _ (or_introl (tap_switch i)) Hl). apply Hsw. lia.
  - rewrite (proc_file_kept _ _ _ (or_intror eq_refl) Hl), Hrest by (intros i _ E; by apply (tap_not_global i)).
    rewrite !proc_file_app. cbn. by rewrite andb_false_r.
  - apply publish_ok in Hrun as (Hi & root & json & o1 & o2 & Hpub). unfold m. rewrite Hi. by exists root, json, o1, o2.
Qed.
End provision.

(** ** Docker's chain, as [iptables] keeps it *)

Definition insert_at (k : nat) (r : list bytes) (l : list (list bytes)) : list (list bytes) := take k l ++ r :: drop k l.
Fixpoint remove_first (r : list bytes) (l : list (list bytes)) : list (list bytes) :=
  match l with [] => [] | x :: l => if decide (x = r) then l else x :: remove_first r l end.

(** The rules of the chain after a command: [-I chain n rule] inserts, [-D chain rule] deletes the
    first copy. *)
Definition chain_step (l : list (list bytes)) (x : Cmd * Answer) : list (list bytes) :=
  match x with
  | (Exec bin (_ :: _ :: op :: _ :: rest) _, Ok out) =>
      if beq bin (B "iptables") && success out then
        if beq op (B "-I") then match rest with pos :: r => insert_at (N.to_nat (value_of pos) - 1) r l | [] => l end
        else if beq op (B "-D") then remove_first rest l
        else l
      else l
  | _ => l
  end.
Definition chain_after (start : list (list bytes)) (h : History) : list (list bytes) := fold_left chain_step h start.

Definition ipt (op : bytes) (rest : list bytes) : Cmd := Exec (B "iptables") (ipt_args (op :: DOCKER_USER_CHAIN :: rest)) [].

(** A host with Docker's chain, on which [iptables] does what its manual says and the lock is free. *)
Record docker_host (host : History -> Cmd -> Answer) (start : list (list bytes)) : Prop := {
  law_list h : exists out, host h (ipt (B "-S") []) = Ok out /\ success out = true;
  law_check h r : exists out, host h (ipt (B "-C") r) = Ok out /\ success out = bool_decide (r ∈ chain_after start h);
  law_insert h k r : (k <= length (chain_after start h))%nat ->
    exists out, host h (ipt (B "-I") (Slots.show_nat (S k) :: r)) = Ok out /\ success out = true;
  law_delete h r : exists out, host h (ipt (B "-D") r) = Ok out /\ success out = bool_decide (r ∈ chain_after start h) }.

(** The rules isopod may have put there, in either spelling. *)
Definition our_rules : list (list bytes) := flat_map (fun idx => [spec true idx; spec false idx]) [0; 1]%nat.
Definition others (l : list (list bytes)) : list (list bytes) := List.filter (fun r => bool_decide (r ∉ our_rules)) l.
Definition has_rule (idx : nat) (l : list (list bytes)) : bool := bool_decide (spec true idx ∈ l) || bool_decide (spec false idx ∈ l).

(** One rule: left where it is, or inserted. *)
Definition with_rule (k idx : nat) (l : list (list bytes)) : list (list bytes) :=
  if has_rule idx l then l else insert_at k (spec true idx) l.

Lemma others_insert k r l : r ∈ our_rules -> others (insert_at k r l) = others l.
Proof.
  intros Hr. unfold others, insert_at. rewrite List.filter_app. cbn [List.filter]. rewrite bool_decide_eq_false_2 by (by intros []).
  by rewrite <- List.filter_app, take_drop.
Qed.

Lemma spec_ours b idx : (idx < 2)%nat -> spec b idx ∈ our_rules.
Proof. intros Hi. destruct idx as [|[|?]]; [| |lia]; destruct b; vm_compute; set_solver. Qed.

Lemma others_with k idx l : (idx < 2)%nat -> others (with_rule k idx l) = others l.
Proof. intros Hi. unfold with_rule. destruct (has_rule idx l); [done|]. by apply others_insert, spec_ours. Qed.

Lemma has_with k idx l : has_rule idx (with_rule k idx l) = true.
Proof.
  unfold with_rule. destruct (has_rule idx l) eqn:E; [done|]. unfold has_rule, insert_at. apply orb_true_iff. left.
  apply bool_decide_eq_true_2. set_solver.
Qed.

Lemma has_insert j idx k l : has_rule idx l = true -> has_rule idx (with_rule k j l) = true.
Proof.
  intros H. unfold with_rule. destruct (has_rule j l); [done|]. unfold has_rule, insert_at in *.
  rewrite !orb_true_iff, !bool_decide_eq_true in *. rewrite <- (take_drop k l) in H. set_solver.
Qed.

Lemma with_present k idx l : has_rule idx l = true -> with_rule k idx l = l.
Proof. unfold with_rule. by intros ->. Qed.

Definition copies (r : list bytes) (l : list (list bytes)) : nat := length (List.filter (fun x => bool_decide (x = r)) l).
Definition without (r : list bytes) (l : list (list bytes)) : list (list bytes) := List.filter (fun x => bool_decide (x <> r)) l.

Lemma remove_first_spec r l : r ∈ l -> S (copies r (remove_first r l)) = copies r l /\ without r (remove_first r l) = without r l.
Proof.
  unfold copies, without. induction l as [|x l IH]; intros Hr; [by apply not_elem_of_nil in Hr|]. cbn [remove_first List.filter].
  destruct (decide (x = r)) as [->|Hx].
  - rewrite bool_decide_eq_true_2, bool_decide_eq_false_2 by (done || by intros []). done.
  - cbn [List.filter]. rewrite bool_decide_eq_false_2, bool_decide_eq_true_2 by done.
    apply elem_of_cons in Hr as [->|Hr]; [done|]. destruct (IH Hr) as [-> ->]. done.
Qed.

Lemma without_absent r l : r ∉ l -> without r l = l /\ copies r l = 0%nat.
Proof.
  unfold without, copies. induction l as [|x l IH]; intros Hr; [done|]. apply not_elem_of_cons in Hr as [Hx Hr]. cbn [List.filter].
  rewrite bool_decide_eq_true_2, bool_decide_eq_false_2 by done. destruct (IH Hr) as [-> ->]. done.
Qed.

Lemma copies_without r r' l : (copies r (without r' l) <= copies r l)%nat.
Proof.
  unfold copies, without. induction l as [|x l IH]; [done|]. cbn [List.filter].
  destruct (bool_decide (x <> r')); cbn [List.filter]; destruct (bool_decide (x = r)); cbn [length]; lia.
Qed.

Lemma copies_with r k idx l : (copies r (with_rule k idx l) <= Nat.max 1 (copies r l))%nat.
Proof.
  unfold with_rule. destruct (has_rule idx l) eqn:E; [lia|]. unfold has_rule in E. reflect_bools.
  assert (Hi : copies r (insert_at k (spec true idx) l) = (copies r l + copies r [spec true idx])%nat).
  { unfold copies, insert_at. rewrite <- (take_drop k l) at 3. rewrite !List.filter_app, !length_app. cbn [List.filter].
    destruct (bool_decide _); cbn [length]; lia. }
  rewrite Hi. unfold copies at 2. cbn [List.filter]. case_bool_decide as Hr; cbn [length]; [|lia].
  subst r. destruct (without_absent (spec true idx) l) as [_ ->]; [done|lia].
Qed.

Lemma filter_both {A} (p q : A -> bool) l : List.filter p (List.filter q l) = List.filter (fun x => q x && p x) l.
Proof. induction l as [|x l IH]; [done|]. cbn [List.filter]. destruct (q x); cbn [List.filter andb]; by rewrite IH. Qed.

Lemma others_without l : without (spec false 1) (without (spec true 1) (without (spec false 0) (without (spec true 0) l))) = others l.
Proof.
  unfold without, others. rewrite !filter_both. apply List.filter_ext. intros x. rewrite <- !bool_decide_and.
  apply bool_decide_ext. unfold our_rules. cbn [flat_map app]. set_solver.
Qed.

Section docker.
Context (host : History -> Cmd -> Answer) (start : list (list bytes)).
Hypothesis Hd : docker_host host start.
Abbreviation chain h := (chain_after start h).

(** The outcome of one [iptables], and the chain after it. *)
Lemma iptables_run op rest h out : host h (ipt op rest) = Ok out ->
  exists h', iptables host (ipt_args (op :: DOCKER_USER_CHAIN :: rest)) h =
    (Ok (Ok (if success out then None else Some (from_utf8_lossy (stderr out)))), h') /\
    chain h' = chain_step (chain h) (ipt op rest, Ok out).
Proof.
  intros E. unfold iptables, answer, se_bind, se_ret. fold (ipt op rest). rewrite E. eexists. split; [done|].
  unfold chain_after. by rewrite fold_left_app.
Qed.

Lemma check_run r h : exists h', chain h' = chain h /\ exists e,
  iptables host (ipt_args (B "-C" :: DOCKER_USER_CHAIN :: r)) h = (Ok (Ok (if bool_decide (r ∈ chain h) then None else Some e)), h').
Proof.
  destruct (law_check _ _ Hd h r) as (out & E & Hs). destruct (iptables_run _ _ _ _ E) as (h' & Hr & Hc).
  exists h'. split; [rewrite Hc; cbn; by destruct (success out)|]. exists (from_utf8_lossy (stderr out)). by rewrite Hr, Hs.
Qed.

Lemma insert_run k r h : (k <= length (chain h))%nat -> exists h', chain h' = insert_at k r (chain h) /\
  iptables host (ipt_args (B "-I" :: DOCKER_USER_CHAIN :: Slots.show_nat (S k) :: r)) h = (Ok (Ok None), h').
Proof.
  intros Hk. destruct (law_insert _ _ Hd h k r Hk) as (out & E & Hs). destruct (iptables_run _ _ _ _ E) as (h' & Hr & Hc).
  exists h'. rewrite Hr, Hs. split; [|done]. rewrite Hc.
  unfold chain_step, ipt, ipt_args. cbn [app]. rewrite Hs. change (beq (B "-I") (B "-I")) with true.
  change (beq (B "iptables") (B "iptables")) with true. cbn [andb]. f_equal. unfold Slots.show_nat. rewrite value_of_show_N. lia.
Qed.

Lemma delete_run r h : exists h', chain h' = (if bool_decide (r ∈ chain h) then remove_first r (chain h) else chain h) /\ exists e,
  iptables host (ipt_args (B "-D" :: DOCKER_USER_CHAIN :: r)) h = (Ok (Ok (if bool_decide (r ∈ chain h) then None else Some e)), h').
Proof.
  destruct (law_delete _ _ Hd h r) as (out & E & Hs). destruct (iptables_run _ _ _ _ E) as (h' & Hr & Hc).
  exists h'. split; [rewrite Hc; cbn; rewrite Hs; by case_bool_decide|]. exists (from_utf8_lossy (stderr out)). by rewrite Hr, Hs.
Qed.

Lemma probe_run h : exists h', chain h' = chain h /\ probe_docker_user host h = (Ok AlreadyPresent, h').
Proof.
  destruct (law_list _ _ Hd h) as (out & E & Hs). destruct (iptables_run _ _ _ _ E) as (h' & Hr & Hc).
  exists h'. split; [rewrite Hc; cbn; by rewrite Hs|]. unfold probe_docker_user, se_bind. by rewrite Hr, Hs.
Qed.

Lemma present_run idx h : exists h', chain h' = chain h /\ rule_present host [true; false] idx h = (Ok (has_rule idx (chain h)), h').
Proof.
  destruct (check_run (spec true idx) h) as (h1 & Hc1 & e1 & H1). destruct (check_run (spec false idx) h1) as (h2 & Hc2 & e2 & H2).
  unfold has_rule. rewrite Hc1 in Hc2, H2. cbn [rule_present]. unfold se_bind. change (ipt_args [B "-C"; DOCKER_USER_CHAIN] ++ spec true idx) with (ipt_args (B "-C" :: DOCKER_USER_CHAIN :: spec true idx)).
  change (ipt_args [B "-C"; DOCKER_USER_CHAIN] ++ spec false idx) with (ipt_args (B "-C" :: DOCKER_USER_CHAIN :: spec false idx)). rewrite H1.
  destruct (bool_decide (spec true idx ∈ chain h)); [by exists h1|]. cbn [orb]. rewrite H2. exists h2. rewrite Hc2.
  split; [done|]. by destruct (bool_decide (spec false idx ∈ chain h)).
Qed.

Lemma insert_rule_run k idx e h : (k <= length (chain h))%nat -> exists h', chain h' = insert_at k (spec true idx) (chain h) /\
  insert_rule host [true; false] (S k) idx e h = (Ok Done, h').
Proof.
  intros Hk. destruct (insert_run k (spec true idx) h Hk) as (h' & Hc & Hr). exists h'. split; [done|].
  cbn [insert_rule]. unfold se_bind. change (ipt_args [B "-I"; DOCKER_USER_CHAIN; Slots.show_nat (S k)] ++ spec true idx) with (ipt_args (B "-I" :: DOCKER_USER_CHAIN :: Slots.show_nat (S k) :: spec true idx)).
  by rewrite Hr.
Qed.

Lemma ensure_rule_run k idx r b h : (k <= length (chain h))%nat -> exists h', chain h' = with_rule k idx (chain h) /\
  ensure_rules host ((S k, idx) :: r) b h = ensure_rules host r (b || negb (has_rule idx (chain h))) h'.
Proof.
  intros Hk. destruct (present_run idx h) as (h1 & Hc1 & H1). unfold with_rule. cbn [ensure_rules]. unfold se_bind at 1. rewrite H1.
  destruct (has_rule idx (chain h)); [exists h1; by rewrite orb_false_r|]. rewrite <- Hc1 in Hk.
  destruct (insert_rule_run k idx [] h1 Hk) as (h2 & Hc2 & H2). exists h2. rewrite Hc2, Hc1, orb_true_r. split; [done|].
  unfold se_bind. by rewrite H2.
Qed.

Lemma ensure_run h : exists h', chain h' = with_rule 1 1 (with_rule 0 0 (chain h)) /\
  ensure_docker_user_accepts host h =
    (Ok (if has_rule 0 (chain h) && has_rule 1 (with_rule 0 0 (chain h)) then AlreadyPresent else Installed), h').
Proof.
  destruct (probe_run h) as (h1 & Hc1 & H1). destruct (ensure_rule_run 0 0 [(2, 1)]%nat false h1 ltac:(lia)) as (h2 & Hc2 & H2).
  assert (Hlen : (1 <= length (chain h2))%nat).
  { rewrite Hc2. unfold with_rule. destruct (has_rule 0 (chain h1)) eqn:E; [|unfold insert_at; rewrite length_app; cbn; lia].
    destruct (chain h1); [|cbn; lia]. by vm_compute in E. }
  destruct (ensure_rule_run 1 1 [] (false || negb (has_rule 0 (chain h1))) h2 Hlen) as (h3 & Hc3 & H3).
  exists h3. rewrite Hc3, Hc2, Hc1. split; [done|]. unfold ensure_docker_user_accepts, se_bind. rewrite H1, H2, H3, Hc2, Hc1.
  cbn [ensure_rules].
  unfold se_ret. destruct (has_rule 0 (chain h)), (has_rule 1 (with_rule 0 0 (chain h))); reflexivity.
Qed.

(** Deleting the copies of a rule. *)
Lemma delete_copies_run n r h : (copies r (chain h) <= n)%nat ->
  exists h', chain h' = without r (chain h) /\
  delete_copies host n (ipt_args [B "-D"; DOCKER_USER_CHAIN] ++ r) h = (Ok tt, h').
Proof.
  change (ipt_args [B "-D"; DOCKER_USER_CHAIN] ++ r) with (ipt_args (B "-D" :: DOCKER_USER_CHAIN :: r)).
  revert h. induction n as [|n IH]; intros h Hn; cbn [delete_copies].
  { exists h. split; [|done]. symmetry. destruct (decide (r ∈ chain h)) as [Hr|Hr]; [|by apply without_absent].
    destruct (remove_first_spec _ _ Hr). lia. }
  destruct (delete_run r h) as (h1 & Hc1 & e & H1). unfold se_bind. rewrite H1. destruct (decide (r ∈ chain h)) as [Hr|Hr].
  - rewrite (bool_decide_eq_true_2 _ Hr) in *. destruct (remove_first_spec _ _ Hr) as [Hk Hw].
    destruct (IH h1) as (h' & Hc' & H'); [rewrite Hc1; lia|]. exists h'. by rewrite Hc', Hc1, Hw.
  - rewrite (bool_decide_eq_false_2 _ Hr) in *. exists h1. split; [|done]. rewrite Hc1. symmetry. by apply without_absent.
Qed.

(** The 16 deletions of each spelling reach every copy. *)
Lemma remove_run h : (forall r, r ∈ our_rules -> (copies r (chain h) <= 16)%nat) ->
  exists h', chain h' = others (chain h) /\ remove_docker_user_accepts host h = (Ok Removed, h').
Proof.
  intros Hn. destruct (probe_run h) as (h0 & Hc0 & H0). rewrite <- Hc0 in *.
  assert (Hb : forall r l, r ∈ our_rules -> (copies r l <= copies r (chain h0))%nat -> (copies r l <= 16)%nat).
  { intros r l Hr Hl. specialize (Hn r Hr). lia. }
  destruct (delete_copies_run 16 (spec true 0) h0) as (h1 & Hc1 & H1); [apply Hn, spec_ours; lia|].
  destruct (delete_copies_run 16 (spec false 0) h1) as (h2 & Hc2 & H2).
  { apply Hb; [apply spec_ours; lia|]. rewrite Hc1. apply copies_without. }
  destruct (delete_copies_run 16 (spec true 1) h2) as (h3 & Hc3 & H3).
  { apply Hb; [apply spec_ours; lia|]. rewrite Hc2, Hc1. etrans; apply copies_without. }
  destruct (delete_copies_run 16 (spec false 1) h3) as (h4 & Hc4 & H4).
  { apply Hb; [apply spec_ours; lia|]. rewrite Hc3, Hc2, Hc1. etrans; [apply copies_without|]. etrans; apply copies_without. }
  exists h4. rewrite Hc4, Hc3, Hc2, Hc1, others_without. split; [done|].
  unfold remove_docker_user_accepts. unfold se_bind at 1. rewrite H0. cbn [se_iter]. unfold se_bind. rewrite H1, H2.
  unfold se_ret. rewrite H3, H4. done.
Qed.
End docker.

(** Isopod's rules in Docker's chain. Setting up puts both rules in, in front, unless they are
    there in either spelling, touches no other rule, and changes nothing the second time; removing
    them leaves exactly the rules that are not isopod's, in their order. *)
Theorem docker_rules_roundtrip host start (Hd : docker_host host start) h
  (Hcopies : forall r, r ∈ our_rules -> (copies r (chain_after start h) <= 16)%nat) :
  exists st h1 h2 h3,
    ensure_docker_user_accepts host h = (Ok st, h1) /\ (st = Installed \/ st = AlreadyPresent) /\
    has_rule 0 (chain_after start h1) = true /\ has_rule 1 (chain_after start h1) = true /\
    ensure_docker_user_accepts host h1 = (Ok AlreadyPresent, h2) /\ chain_after start h2 = chain_after start h1 /\
    remove_docker_user_accepts host h2 = (Ok Removed, h3) /\ chain_after start h3 = others (chain_after start h).
Proof.
  destruct (ensure_run host start Hd h) as (h1 & Hc1 & H1). destruct (ensure_run host start Hd h1) as (h2 & Hc2 & H2).
  set (l := chain_after start h) in *.
  assert (Hh0 : has_rule 0 (chain_after start h1) = true) by (rewrite Hc1; apply has_insert, has_with).
  assert (Hh1 : has_rule 1 (chain_after start h1) = true) by (rewrite Hc1; apply has_with).
  rewrite !(with_present 0 0 _ Hh0), Hh0, Hh1 in H2. rewrite (with_present 0 0 _ Hh0), (with_present 1 1 _ Hh1) in Hc2. cbn [andb] in H2.
  destruct (remove_run host start Hd h2) as (h3 & Hc3 & H3).
  { intros r Hr. rewrite Hc2, Hc1. specialize (Hcopies r Hr).
    pose proof (copies_with r 1 1 (with_rule 0 0 l)). pose proof (copies_with r 0 0 l). lia. }
  eexists _, h1, h2, h3. split; [exact H1|]. split; [by case_match; auto|]. split_and!; try done.
  by rewrite Hc3, Hc2, Hc1, !others_with by lia.
Qed.

(** ** The theorems on setting up *)

Section theorems.
Context (host : History -> Cmd -> Answer).
Context (env : bytes -> option bytes) (home_dir : option bytes) (now_unix : N).
Context (manifest_json : Slots.Manifest.Manifest -> result bytes IoError)
        (parse_manifest : bytes -> option Slots.Manifest.Manifest).

(** C23: the set-up never opens the host before the filter is in force. Wherever it fails, no rule was
    put into Docker's chain, no switch, configuration or manifest was written, unless [nft] had
    accepted the whole table for a well-formed interface and the options asked for. *)
Theorem provision_fails_closed opts h r h'
  (Hrun : provision host env now_unix manifest_json opts h = (r, h')) :
  exists log, h' = h ++ log /\
    forall pre c a post, log = pre ++ (c, a) :: post -> opens c -> Exists (is_load opts) pre.
Proof.
  destruct (provision_guarded host env now_unix manifest_json opts h) as (l & Hl & Hg). rewrite Hrun in Hl. by exists l.
Qed.

(** What a successful set-up leaves. Forwarding is on, but off on exactly the taps of the filtered
    slots, although the global switch had set every one; the manifest written records this split;
    and so the check an unprivileged run makes before it boots a filtered guest passes. *)
Theorem provision_enforces opts h rep h'
  (Hrun : provision host env now_unix manifest_json opts h = (Ok rep, h')) :
  let slots := opt_slots opts in
  let ff := (slots - filtered_slots opts)%nat in
  let m := Slots.Manifest.new slots (rep_iface rep) now_unix (allow_lan_egress opts) ff in
  (1 <= slots <= Slots.MAX_SLOT_COUNT)%nat /\ (filtered_slots opts <= slots)%nat /\
  (forall i, (i < slots)%nat -> proc_file h' (Slots.tap_forwarding_proc (tap i)) = Some (flag (i <? ff)%nat)) /\
  proc_file h' IP_FORWARD_PROC = Some (flag true) /\
  Slots.require_filtered_pool_guard (E := SetupError) (proc_file h') (Ok m) = Ok tt /\
  exists root json o1 o2, manifest_json m = Ok json /\
    (WriteFile (path_join root (B "slots.json.partial")) (top_line json), Ok o1) ∈ h' /\
    (RenameFile (path_join root (B "slots.json.partial")) (manifest_path_in root), Ok o2) ∈ h'.
Proof.
  intros slots ff m. destruct (provision_ok host env now_unix manifest_json opts h rep h' Hrun) as (Hs & Hf & Ht & Hip & Hm).
  fold slots ff in Ht, Hs, Hf, Hm. split_and!; try done; try lia. apply guard_passes; [lia|].
  intros i Hi. rewrite Ht by lia. by destruct (Nat.ltb_spec i ff); [lia|].
Qed.

(** Options that cannot be served are refused before anything is run. *)
Theorem provision_refuses opts h :
  ((opt_slots opts = 0)%nat \/ (Slots.MAX_SLOT_COUNT < opt_slots opts)%nat \/ (opt_slots opts < filtered_slots opts)%nat) ->
  exists e, provision host env now_unix manifest_json opts h = (Err e, h).
Proof.
  intros H. unfold provision. destruct (Nat.eqb_spec (opt_slots opts) 0); [by eexists|].
  destruct (Nat.ltb_spec Slots.MAX_SLOT_COUNT (opt_slots opts)); [by eexists|]. cbn [orb].
  destruct (Nat.ltb_spec (opt_slots opts) (filtered_slots opts)); [by eexists|lia].
Qed.

End theorems.

(** An accepted interface name is what it says inside the quotes of the table: it ends no string, is
    no pattern and no second word. *)
Theorem validate_iface_spec iface : validate_iface iface = Ok tt <->
  (1 <= length iface < 16)%nat /\ Forall (fun b => is_ascii_alphanumeric b = true \/ b ∈ B "._-@") iface.
Proof.
  unfold validate_iface. destruct (beq iface [] || (16 <=? length iface)%nat) eqn:E.
  - split; [done|]. intros [Hl _]. apply orb_true_iff in E as [E|E]; [apply beq_true in E as ->; cbn in Hl; lia|reflect_bools; lia].
  - apply orb_false_iff in E as [E1 E2]. reflect_bools. assert (Hne : iface <> []) by (intros ->; by vm_compute in E1).
    destruct (forallb _ iface) eqn:Ef; cbn [negb]; (split; [|intros [_ H]; try done]).
    + intros _. split; [destruct iface; [done|cbn in *; lia]|]. apply forallb_Forall in Ef. eapply Forall_impl; [exact Ef|].
      intros b [?|Hb]%orb_true_iff; [by left|right; by apply contains_true].
    + done.
    + exfalso. apply not_true_iff_false in Ef. apply Ef, forallb_Forall. eapply Forall_impl; [exact H|].
      intros b [?|?]; apply orb_true_iff; [by left|right; by apply contains_true].
Qed.

(** ** A concrete host *)

(** Everything succeeds, no tap is there yet. *)
Definition ready (h : History) (c : Cmd) : Answer :=
  match c with
  | Exec bin args _ =>
      if beq bin (B "getent") then Ok (MkOutput true (B "u:x:1000:1000::/home/u:/bin/sh") [])
      else if bool_decide (args !! 0%nat = Some (B "link") /\ args !! 1%nat = Some (B "show")) then Ok (MkOutput false [] [])
      else Ok (MkOutput true [] [])
  | ReadToString _ => Ok (MkOutput true (B "1") [])
  | _ => Ok (MkOutput true [] [])
  end.
Definition ready_env (name : bytes) : option bytes := if beq name (B "SUDO_USER") then Some (B "u") else None.
Definition two_opts : SetupOptions := MkOptions 2 false (Some (B "eth0")) false 1 true.
Definition ready_run : result SetupReport SetupError * History :=
  provision ready ready_env 0 (fun _ => Ok (B "{}")) two_opts [].

Lemma provision_enforces_witness :
  proc_file (snd ready_run) (B "/proc/sys/net/ipv4/conf/isopod-tap1/forwarding") = Some (top_line (B "0")) /\
  Slots.require_filtered_pool_guard (E := SetupError) (proc_file (snd ready_run))
    (Ok (Slots.Manifest.new 2 (B "eth0") 0 false 1)) = Ok tt.
Proof.
  set (rep := MkReport false 2 1 [B "isopod-tap0"; B "isopod-tap1"] [] 1 (B "eth0") AlreadyPresent).
  destruct (provision_enforces ready ready_env 0 (fun _ => Ok (B "{}")) two_opts [] rep (snd ready_run))
    as (_ & _ & H & _ & Hg & _); [vm_compute; reflexivity|].
  split; [apply (H 1%nat); cbn; lia|exact Hg].
Defined.

(** The host stops right after the table was loaded: the write of the global switch is refused. *)
Definition refusing (h : History) (c : Cmd) : Answer :=
  match c with WriteFile _ _ => Err (MkIoError (Some EPERM) []) | _ => ready h c end.
Lemma provision_fails_closed_witness :
  let run := provision refusing ready_env 0 (fun _ => Ok (B "{}")) two_opts [] in
  is_ok (fst run) = false /\
  exists log, snd run = [] ++ log /\
    forall pre c a post, log = pre ++ (c, a) :: post -> opens c -> Exists (is_load two_opts) pre.
Proof.
  intros run. split; [vm_compute; reflexivity|].
  apply (provision_fails_closed refusing ready_env 0 (fun _ => Ok (B "{}")) two_opts [] (fst run) (snd run)).
  unfold run. by destruct (provision _ _ _ _ _ _).
Defined.

(** [iptables] over a chain of rules. *)
Definition chain_host (start : list (list bytes)) (h : History) (c : Cmd) : Answer :=
  match c with
  | Exec _ (_ :: _ :: op :: _ :: rest) _ =>
      Ok (MkOutput (if beq op (B "-C") || beq op (B "-D") then bool_decide (rest ∈ chain_after start h) else true) [] [])
  | _ => Ok (MkOutput true [] [])
  end.

Lemma chain_host_ok start : docker_host (chain_host start) start.
Proof. split; intros; eexists; (split; [reflexivity|]); reflexivity. Qed.

Definition return_rule : list bytes := [B "-j"; B "RETURN"].

Lemma docker_rules_roundtrip_witness :
  exists st h1 h2 h3,
    ensure_docker_user_accepts (chain_host [return_rule]) [] = (Ok st, h1) /\
    ensure_docker_user_accepts (chain_host [return_rule]) h1 = (Ok AlreadyPresent, h2) /\
    remove_docker_user_accepts (chain_host [return_rule]) h2 = (Ok Removed, h3) /\ chain_after [return_rule] h3 = [return_rule].
Proof.
  destruct (docker_rules_roundtrip (chain_host [return_rule]) [return_rule] (chain_host_ok _) [])
    as (st & h1 & h2 & h3 & H1 & _ & _ & _ & H2 & _ & H3 & H4).
  - intros r Hr. unfold copies. cbn. case_bool_decide; cbn; lia.
  - exists st, h1, h2, h3. split_and!; [exact H1|exact H2|exact H3|]. rewrite H4. vm_compute. reflexivity.
Defined.

(** Setting up for fewer slots after more: the taps above the new count keep their address and link,
    and the write of the global switch turns their forwarding on. *)
Example leftover_forwards :
  let h1 := snd (provision ready ready_env 0 (fun _ => Ok (B "{}")) two_opts []) in
  let h2 := snd (provision ready ready_env 0 (fun _ => Ok (B "{}")) (MkOptions 1 false (Some (B "eth0")) false 0 true) h1) in
  proc_file h1 (B "/proc/sys/net/ipv4/conf/isopod-tap1/forwarding") = Some (top_line (B "0")) /\
  proc_file h2 (B "/proc/sys/net/ipv4/conf/isopod-tap1/forwarding") = Some (top_line (B "1")) /\
  forallb (fun x => match fst x with Exec _ args _ => negb (bool_decide (B "del" ∈ args)) | _ => true end) h2 = true.
Proof. vm_compute. done. Qed.

Example parses :
  default_iface_of (B "default via 192.0.2.1 dev eth0 proto dhcp") = Some (B "eth0") /\
  omap tap_of_line [B "3: isopod-tap0: <UP>"; B "4: isopod-tap11@if2: <UP>"; B "5: eth0: <UP>"] = [B "isopod-tap0"; B "isopod-tap11"] /\
  uid_line (str_lines (top_line (B "Name: isopod") ++ top_line (B "Uid: 1000 0 0 0"))) = Some 0%N.
Proof. vm_compute. done. Qed.
