(* ===== verification/Rpc.v ===== *)
(** * Messages between host and guest ([crates/proto/src/msg.rs], [lib.rs])

    The requests and responses as data.  Their JSON is serde's, their frames are in [Frame]; binary
    contents travel as base64, whose codec is the class [Base64]; how long a response's JSON is, is the
    class [JsonLen].  A floating-point number is kept as
    its text. *)
From S2P Require Import Prelude Text.

Definition VSOCK_PORT : N := 52.
Definition PROTO_VERSION : N := 3.
Definition EXEC_CHUNK_LEN : N := 32 * 1024.

Record BrokerConfig : Type := MkBrokerConfig { bc_socks : bytes; bc_http : bytes; bc_inject : option bytes }.

Record ExecRequest : Type := MkExec {
  argv : list bytes; exec_env : list (bytes * bytes); cwd : option bytes; timeout_ms : option N; stdin_b64 : option bytes }.

Inductive RequestOp : Type :=
  | Ping
  | Exec (req : ExecRequest)
  | SyncClock (unix_secs nanos : N)
  | ConfigureNet (ip gw : bytes) (dns : list bytes) (broker : option BrokerConfig)
  | PutFile (path : bytes) (mode : N) (data_b64 : bytes)
  | GetFile (path : bytes) (max_bytes : N)
  | CopyOut (path : bytes) (max_bytes : N)
  | SetHostname (name : bytes)
  | Halt (sync : bool).

Record Request : Type := MkRequest { req_id : N; op : RequestOp }.

Inductive ExecStreamKind : Type := Stdout | Stderr.
#[export] Instance ExecStreamKind_eq_dec : EqDecision ExecStreamKind.
Proof. solve_decision. Defined.

Inductive ResponseBody : Type :=
  | PongBody (agent_version : bytes) (proto_version : N) (uptime_s : bytes) (overlay_error resolv_error : option bytes)
  | ExecStream (stream : ExecStreamKind) (data_b64 : bytes)
  | ExecDone (exit_code signal : option Z) (duration_ms : N) (timed_out : bool)
  | OkBody
  | FileBody (data_b64 : bytes) (mode : N)
  | FileChunk (data_b64 : bytes)
  | FileDone (total_bytes mode : N)
  | ErrorBody (message : bytes).

Record Response : Type := MkResponse { resp_id : N; body : ResponseBody }.

(** The [base64] crate's standard alphabet: [decode] undoes [encode]. *)
Class Base64 : Type := {
  b64_encode : bytes -> bytes;
  b64_decode : bytes -> option bytes;
  b64_roundtrip data : b64_decode (b64_encode data) = Some data }.

(** The length of the JSON text that [serde_json] makes of a response.  Its fields are [serde]'s; their
    numbers have 64 bits at most, as their types have, so that what is not a string is short; base64
    needs no escape and has four characters for every three bytes begun; and a character of a string
    takes up to six bytes for each of its own. *)
Class JsonLen `{Base64} : Type := {
  json_len : Response -> N;
  json_plain r : match body r with ExecDone _ _ _ _ | OkBody | FileDone _ _ => True | _ => False end -> (json_len r <= 512)%N;
  json_stream id k x : (json_len (MkResponse id (ExecStream k (b64_encode x))) <= 512 + 4 * ((N.of_nat (length x) + 2) / 3))%N;
  json_chunk id x : (json_len (MkResponse id (FileChunk (b64_encode x))) <= 512 + 4 * ((N.of_nat (length x) + 2) / 3))%N;
  json_error id m : (json_len (MkResponse id (ErrorBody m)) <= 512 + 6 * N.of_nat (length m))%N }.

(** [u64::saturating_add] *)
Definition sat_add (a b : N) : N := N.min u64_max (a + b).
