(* ===== verification/Agent.v ===== *)
(** * The agent client ([crates/core/src/agent.rs])

    The host's side of the guest protocol: one connection per request, bounded waits, and the streamed
    [exec] whose output is teed to two logs.  [copy_out] has a file of its own.

    The peer is whatever a guest may be: it decides whether the connection and the write go through
    and what frames come back, garbage and silence included.  A log is [Console.Log], which may fail
    at any write.  Texts of errors and the budgets of the timeouts are left out. *)
From S2P Require Import Prelude Text Effects.
From S2P Require Frame Console.
From S2P Require Import Rpc.

Inductive AgentError : Type :=
  | Connect (e : bytes)
  | FrameErr (e : Frame.FrameError bytes)
  | ProtoMismatch (expected got : N)
  | OverlayDegraded (message : bytes)
  | ResolverNotApplied (message : bytes)
  | Unexpected
  | Guest (message : bytes)
  | NotReady
  | ExecIncomplete (stdout_bytes stderr_bytes : N)
  | BadChunk
  | OversizeChunk (len : N)
  | Timeout
  | Io.

(** ** One output stream *)

Definition EXEC_LOG_CAP : N := 64 * 1024 * 1024.
Definition LOG_TRUNCATED_MARKER : bytes :=
  line_feed :: B "[isopod: log cap reached; output beyond this point was not persisted]" ++ [line_feed].

Record StreamCapture : Type := MkCapture { inline : bytes; cap_truncated : bool; total_bytes : N }.

Definition from_bytes (data : bytes) (cap : N) : StreamCapture :=
  MkCapture (take (N.to_nat (N.min (N.of_nat (length data)) cap)) data) (cap <? N.of_nat (length data))%N (N.of_nat (length data)).

Record StreamSink : Type := MkSink {
  log : Console.Log; inline_buf : bytes; cap : N; disk_cap : N; disk_written : N; disk_truncated : bool;
  total : N; truncated : bool }.

(** The log was just created: it is empty, and may fail at any later write. *)
Definition sink_create (log : Console.Log) (cap disk_cap : N) : StreamSink := MkSink log [] cap disk_cap 0 false 0 false.

Definition with_log (s : StreamSink) (l : Console.Log) (written : N) (cut : bool) : StreamSink :=
  MkSink l (inline_buf s) (cap s) (disk_cap s) written cut (total s) (truncated s).

(** What [write] puts on disk; a failure ends the call. *)
Definition sink_tee (data : bytes) (s : StreamSink) : bool * StreamSink :=
  if disk_truncated s then (true, s)
  else
    let room := (disk_cap s - disk_written s)%N in
    if (N.of_nat (length data) <=? room)%N then
      match Console.log_write data (log s) with
      | (true, l) => (true, with_log s l (sat_add (disk_written s) (N.of_nat (length data))) false)
      | (false, l) => (false, with_log s l (disk_written s) false)
      end
    else
      match Console.log_write (take (N.to_nat room) data) (log s) with
      | (false, l) => (false, with_log s l (disk_written s) false)
      | (true, l) =>
          match Console.log_write LOG_TRUNCATED_MARKER l with
          | (true, l) => (true, with_log s l (disk_cap s) true)
          | (false, l) => (false, with_log s l (disk_written s) false)
          end
      end.

(** What [write] keeps in memory. *)
Definition sink_keep (data : bytes) (s : StreamSink) : StreamSink :=
  let n := N.of_nat (length (inline_buf s)) in
  let '(buf, cut) :=
    if (n <? cap s)%N then
      let room := (cap s - n)%N in
      if (N.of_nat (length data) <=? room)%N then (inline_buf s ++ data, truncated s)
      else (inline_buf s ++ take (N.to_nat room) data, true)
    else (inline_buf s, truncated s || negb (beq data [])) in
  MkSink (log s) buf (cap s) (disk_cap s) (disk_written s) (disk_truncated s)
    (sat_add (total s) (N.of_nat (length data))) cut.

Definition sink_write (data : bytes) (s : StreamSink) : bool * StreamSink :=
  match sink_tee data s with
  | (true, s) => (true, sink_keep data s)
  | (false, s) => (false, s)
  end.

Definition sink_flush (s : StreamSink) : bool * StreamSink :=
  let '(ok, l) := Console.log_write [] (log s) in (ok, with_log s l (disk_written s) (disk_truncated s)).

Definition finish (s : StreamSink) : StreamCapture := MkCapture (inline_buf s) (truncated s) (total s).

(** ** The peer *)

(** The reads of frames on a connection; after the last the peer closes it. *)
Inductive Event : Type := Got (r : Response) | BadFrame (e : Frame.FrameError bytes) | Stall.

Inductive Dial : Type := Connected | Refused (e : bytes) | DialStalls.
Inductive Wrote : Type := Written | WriteFailed (e : Frame.FrameError bytes) | WriteStalls.

Record ExecSpec : Type := MkSpec {
  sp_argv : list bytes; sp_env : list (bytes * bytes); sp_cwd : option bytes; sp_timeout_ms : option N;
  sp_stdin : option bytes; sp_inline_cap : N; sp_log_cap : N }.

Record ExecOutcome : Type := MkOutcome {
  exit_code : option Z; signal : option Z; duration_ms : N; timed_out : bool; stdout : StreamCapture; stderr : StreamCapture }.

Record Pong : Type := MkPong { agent_version : bytes; proto_version : N; uptime_s : bytes }.

(** [AgentClient]: the counter, beside it the requests made so far. *)
Record Client : Type := MkClient { next_id : N; made : list Request }.
Definition client_new : Client := MkClient 1 [].

Section client.
Context `{Base64}.
Context (dial : list Request -> Dial) (peer : list Request -> Request -> Wrote * list Event).
Abbreviation A := (SE Client AgentError).

Definition connect : A unit := fun c =>
  (match dial (made c) with Connected => Ok tt | Refused e => Err (Connect e) | DialStalls => Err Timeout end, c).

(** [write_request]: what comes back with it are the reads that follow. *)
Definition submit (op : RequestOp) : SE Client AgentError (Wrote * list Event) := fun c =>
  let req := MkRequest (next_id c) op in
  (Ok (peer (made c) req), MkClient ((next_id c + 1) mod (u64_max + 1)) (made c ++ [req])).

Definition write_request (op : RequestOp) : A (list Event) :=
  do! (w, es) := submit op in
  se_ret (match w with Written => Ok es | WriteFailed e => Err (FrameErr e) | WriteStalls => Err Timeout end).

Definition request_one (op : RequestOp) : A ResponseBody :=
  do! _ := connect in
  do! es := write_request op in
  se_ret (match es with
    | Got resp :: _ => Ok (body resp)
    | BadFrame e :: _ => Err (FrameErr e)
    | Stall :: _ => Err Timeout
    | [] => Err Unexpected
    end).

Definition expect_ok (op : RequestOp) : A unit :=
  do! b := request_one op in
  se_ret (match b with OkBody => Ok tt | ErrorBody m => Err (Guest m) | _ => Err Unexpected end).

Definition ping : A Pong :=
  do! b := request_one Ping in
  se_ret (match b with
    | PongBody agent_version proto_version uptime_s overlay_error resolv_error =>
        if negb (proto_version =? PROTO_VERSION)%N then Err (ProtoMismatch PROTO_VERSION proto_version)
        else match overlay_error with
          | Some m => Err (OverlayDegraded m)
          | None =>
              match resolv_error with
              | Some m => Err (ResolverNotApplied m)
              | None => Ok (MkPong agent_version proto_version uptime_s)
              end
          end
    | ErrorBody m => Err (Guest m)
    | _ => Err Unexpected
    end).

(** The loop of [wait_ready]; [late] are its successive looks at the clock, in order: whether the
    deadline has passed.  The last one of a script is followed by others that say it has. *)
Fixpoint wait_ready (late : list bool) : A Pong :=
  do! r := se_try ping in
  match r with
  | Ok pong => se_ret (Ok pong)
  | Err (ProtoMismatch _ _ as e) | Err (OverlayDegraded _ as e) => se_ret (Err e)
  | Err _ =>
      match late with
      | [] | true :: _ => se_ret (Err NotReady)
      | false :: late => wait_ready late
      end
  end.

Definition sync_clock_now (now_secs now_nanos : N) : A unit := expect_ok (SyncClock now_secs now_nanos).
Definition configure_net (ip gw : bytes) (dns : list bytes) (broker : option BrokerConfig) : A unit :=
  expect_ok (ConfigureNet ip gw dns broker).
Definition put_file (path : bytes) (mode : N) (data : bytes) : A unit := expect_ok (PutFile path mode (b64_encode data)).
Definition set_hostname (name : bytes) : A unit := expect_ok (SetHostname name).

Definition get_file (path : bytes) (max_bytes : N) : A (bytes * N) :=
  do! b := request_one (GetFile path max_bytes) in
  se_ret (match b with
    | FileBody data mode => match b64_decode data with Some d => Ok (d, mode) | None => Err BadChunk end
    | ErrorBody m => Err (Guest m)
    | _ => Err Unexpected
    end).

Definition halt (sync : bool) : A unit :=
  do! _ := connect in
  do! (w, es) := submit (Halt sync) in
  se_ret (match w with
    | WriteStalls => Err Timeout
    | WriteFailed (Frame.Io _) => Ok tt
    | WriteFailed e => Err (FrameErr e)
    | Written =>
        match es with
        | Got resp :: _ =>
            match body resp with OkBody => Ok tt | ErrorBody m => Err (Guest m) | _ => Err Unexpected end
        | [] => Ok tt
        | BadFrame (Frame.Io _) :: _ => Ok tt
        | BadFrame e :: _ => Err (FrameErr e)
        | Stall :: _ => Err Timeout
        end
    end).

(** ** Exec *)

(** The two sinks, and a result that flushes them both first. *)
Definition Sinks : Type := (StreamSink * StreamSink)%type.

Definition flushed {R} (k : Sinks -> result R AgentError) (s : Sinks) : option (result R AgentError) * Sinks :=
  match sink_flush (fst s) with
  | (false, o) => (Some (Err Io), (o, snd s))
  | (true, o) =>
      match sink_flush (snd s) with
      | (false, e) => (Some (Err Io), (o, e))
      | (true, e) => (Some (k (o, e)), (o, e))
      end
  end.

Definition sink_of (kind : ExecStreamKind) (s : Sinks) : StreamSink := match kind with Stdout => fst s | Stderr => snd s end.
Definition set_sink (kind : ExecStreamKind) (k : StreamSink) (s : Sinks) : Sinks :=
  match kind with Stdout => (k, snd s) | Stderr => (fst s, k) end.

(** The loop over the frames.  These reads have no deadline of their own: a read that does not return
    ([Stall]) is [None], for the caller's deadline to end. *)
Fixpoint exec_loop (es : list Event) (s : Sinks) : option (result ExecOutcome AgentError) * Sinks :=
  match es with
  | [] => flushed (fun s => Err (ExecIncomplete (total (fst s)) (total (snd s)))) s
  | BadFrame e :: _ => (Some (Err (FrameErr e)), s)
  | Stall :: _ => (None, s)
  | Got resp :: es =>
      match body resp with
      | ExecStream kind data =>
          match b64_decode data with
          | None => (Some (Err BadChunk), s)
          | Some bytes =>
              if (EXEC_CHUNK_LEN <? N.of_nat (length bytes))%N then (Some (Err (OversizeChunk (N.of_nat (length bytes)))), s)
              else
                match sink_write bytes (sink_of kind s) with
                | (true, k) => exec_loop es (set_sink kind k s)
                | (false, k) => (Some (Err Io), set_sink kind k s)
                end
          end
      | ExecDone exit_code signal duration_ms timed_out =>
          flushed (fun s => Ok (MkOutcome exit_code signal duration_ms timed_out (finish (fst s)) (finish (snd s)))) s
      | ErrorBody m => flushed (fun _ => Err (Guest m)) s
      | _ => (Some (Err Unexpected), s)
      end
  end.

Definition exec_request (spec : ExecSpec) : ExecRequest :=
  MkExec (sp_argv spec) (sp_env spec) (sp_cwd spec) (sp_timeout_ms spec) (option_map b64_encode (sp_stdin spec)).

Definition new_sink (spec : ExecSpec) (l : Console.Log) : StreamSink := sink_create l (sp_inline_cap spec) (sp_log_cap spec).

(** The two logs are what creating their files gave; with the result, the sinks as they are left. *)
Definition exec (spec : ExecSpec) (out_log err_log : option Console.Log) :
    A (option (result ExecOutcome AgentError) * Sinks) :=
  do! _ := connect in
  do! es := write_request (Exec (exec_request spec)) in
  se_ret (match out_log, err_log with
    | Some o, Some e => Ok (exec_loop es (new_sink spec o, new_sink spec e))
    | _, _ => Err Io
    end).
End client.

(** ** What a sink holds *)

(** After [data] went into a fresh sink and no write failed. *)
Record sink_holds (s : StreamSink) (data : bytes) : Prop := {
  holds_inline : inline_buf s = take (N.to_nat (cap s)) data;
  holds_cut : truncated s = (cap s <? N.of_nat (length data))%N;
  holds_total : total s = N.min u64_max (N.of_nat (length data));
  holds_log : Console.content (log s) =
    if (N.of_nat (length data) <=? disk_cap s)%N then data else take (N.to_nat (disk_cap s)) data ++ LOG_TRUNCATED_MARKER;
  holds_mark : disk_truncated s = (disk_cap s <? N.of_nat (length data))%N;
  holds_room : disk_truncated s = false -> disk_written s = N.of_nat (length data) }.

Definition same_caps (s s' : StreamSink) : Prop := cap s' = cap s /\ disk_cap s' = disk_cap s.

Definition log_bounded (s : StreamSink) : Prop :=
  (N.of_nat (length (Console.content (log s))) <= disk_cap s + N.of_nat (length LOG_TRUNCATED_MARKER))%N.

Lemma sink_create_holds l c d : Console.content l = [] -> sink_holds (sink_create l c d) [].
Proof.
  intros Hl. split; cbn; [by rewrite take_nil|by destruct c|done|rewrite Hl; by destruct d|by destruct d|done].
Qed.

Lemma keep_holds s data x : inline_buf s = take (N.to_nat (cap s)) data -> truncated s = (cap s <? N.of_nat (length data))%N ->
  total s = N.min u64_max (N.of_nat (length data)) ->
  let s' := sink_keep x s in
  inline_buf s' = take (N.to_nat (cap s)) (data ++ x) /\ truncated s' = (cap s <? N.of_nat (length (data ++ x)))%N /\
  total s' = N.min u64_max (N.of_nat (length (data ++ x))) /\ log s' = log s /\ same_caps s s' /\
  disk_written s' = disk_written s /\ disk_truncated s' = disk_truncated s.
Proof.
  intros Hi Ht Htot s'. unfold s', sink_keep. rewrite Hi, length_take. rewrite length_app, take_app.
  assert (Hsum : sat_add (total s) (N.of_nat (length x)) = N.min u64_max (N.of_nat (length data + length x))).
  { unfold sat_add. rewrite Htot. lia. }
  destruct (N.ltb_spec (N.of_nat (Nat.min (N.to_nat (cap s)) (length data))) (cap s)) as [Hlt|Hge].
  - rewrite Ht. destruct (N.ltb_spec (cap s) (N.of_nat (length data))); [lia|].
    rewrite (take_ge data) by lia.
    destruct (N.leb_spec (N.of_nat (length x)) (cap s - N.of_nat (Nat.min (N.to_nat (cap s)) (length data)))); cbn.
    + split_and!; try done. { rewrite (take_ge x) by lia. done. } symmetry. apply N.ltb_ge. lia.
    + split_and!; try done. { do 2 f_equal. lia. } symmetry. apply N.ltb_lt. lia.
  - cbn. split_and!; try done.
    + replace (N.to_nat (cap s) - length data)%nat with 0%nat by lia. by rewrite take_0, app_nil_r.
    + rewrite Ht. destruct x as [|c x]; cbn [beq length].
      * rewrite (proj2 (beq_true [] []) eq_refl). by rewrite orb_false_r, Nat.add_0_r.
      * assert (beq (c :: x) [] = false) as -> by (apply not_true_iff_false; by rewrite beq_true).
        rewrite orb_true_r. symmetry. apply N.ltb_lt. lia.
Qed.

Lemma log_write_true data l l' : Console.log_write data l = (true, l') -> Console.content l' = Console.content l ++ data.
Proof. unfold Console.log_write. destruct (Console.faults l) as [|[n|] fs]; by intros [= <-]. Qed.

Lemma log_write_grows data l b l' : Console.log_write data l = (b, l') ->
  (length (Console.content l') <= length (Console.content l) + length data)%nat.
Proof.
  unfold Console.log_write. destruct (Console.faults l) as [|[n|] fs]; intros [= <- <-]; cbn; rewrite length_app, ?length_take; lia.
Qed.

Lemma holds_bounded s data : sink_holds s data -> log_bounded s.
Proof.
  intros [_ _ _ Hl _ _]. unfold log_bounded. rewrite Hl. destruct (N.leb_spec (N.of_nat (length data)) (disk_cap s)).
  - lia.
  - rewrite length_app, length_take. lia.
Qed.

(** The teeing alone. *)
Lemma sink_tee_spec s data x b s' : (disk_cap s <= u64_max)%N -> sink_holds s data -> sink_tee x s = (b, s') ->
  same_caps s s' /\ inline_buf s' = inline_buf s /\ truncated s' = truncated s /\ total s' = total s /\ log_bounded s' /\
  (b = true ->
    Console.content (log s') = (if (N.of_nat (length (data ++ x)) <=? disk_cap s)%N then data ++ x
      else take (N.to_nat (disk_cap s)) (data ++ x) ++ LOG_TRUNCATED_MARKER) /\
    disk_truncated s' = (disk_cap s <? N.of_nat (length (data ++ x)))%N /\
    (disk_truncated s' = false -> disk_written s' = N.of_nat (length (data ++ x)))).
Proof.
  intros Hcap Hs Hw. pose proof (holds_bounded _ _ Hs) as Hbound. destruct Hs as [_ _ _ Hlog Hm Hr]. unfold sink_tee in Hw.
  rewrite Hm in Hw. destruct (N.ltb_spec (disk_cap s) (N.of_nat (length data))) as [Hlt|Hge].
  { injection Hw as <- <-. rewrite Hm, Hlog, length_app. destruct (N.leb_spec (N.of_nat (length data)) (disk_cap s)); [lia|].
    split_and!; try done. intros _. destruct (N.leb_spec (N.of_nat (length data + length x)) (disk_cap s)); [lia|].
    rewrite take_app_le by lia. destruct (N.ltb_spec (disk_cap s) (N.of_nat (length data + length x))); [|lia]. split_and!; done. }
  specialize (Hr Hm). rewrite Hr in Hw. destruct (N.leb_spec (N.of_nat (length data)) (disk_cap s)); [|lia].
  destruct (N.leb_spec (N.of_nat (length x)) (disk_cap s - N.of_nat (length data))) as [Hfit|Hover].
  - destruct (Console.log_write x (log s)) as [w l] eqn:E. pose proof (log_write_grows _ _ _ _ E) as Hg. rewrite Hlog in Hg.
    destruct w; injection Hw as <- <-; (split; [done|]); cbn [inline_buf truncated total with_log log disk_truncated disk_written];
      unfold log_bounded; cbn [log disk_cap with_log]; split_and!; try done; try lia.
    intros _. apply log_write_true in E. rewrite E, Hlog, length_app.
    destruct (N.leb_spec (N.of_nat (length data + length x)) (disk_cap s)); [|lia].
    split_and!; [done|symmetry; apply N.ltb_ge; lia|]. intros _. unfold sat_add. lia.
  - destruct (Console.log_write _ (log s)) as [w l] eqn:E. pose proof (log_write_grows _ _ _ _ E) as Hg. rewrite Hlog, length_take in Hg.
    destruct w.
    + apply log_write_true in E. destruct (Console.log_write LOG_TRUNCATED_MARKER l) as [w2 l2] eqn:E2.
      pose proof (log_write_grows _ _ _ _ E2) as Hg2.
      destruct w2; injection Hw as <- <-; (split; [done|]); cbn [inline_buf truncated total with_log log disk_truncated disk_written];
        unfold log_bounded; cbn [log disk_cap with_log]; split_and!; try done; try lia.
      intros _. apply log_write_true in E2. rewrite E2, E, Hlog, length_app.
      destruct (N.leb_spec (N.of_nat (length data + length x)) (disk_cap s)); [lia|].
      split_and!; [|symmetry; apply N.ltb_lt; lia|done]. rewrite take_app, (take_ge data) by lia.
      by replace (N.to_nat (disk_cap s - N.of_nat (length data))) with (N.to_nat (disk_cap s) - length data)%nat by lia.
    + injection Hw as <- <-. split; [done|]. cbn [inline_buf truncated total with_log log]. unfold log_bounded. cbn [log disk_cap with_log].
      split_and!; try done. lia.
Qed.

(** A write that succeeds adds its bytes; a write that fails leaves the log within its bound. *)
Lemma sink_write_holds s data x b s' : (disk_cap s <= u64_max)%N -> sink_holds s data -> sink_write x s = (b, s') ->
  same_caps s s' /\ log_bounded s' /\ (b = true -> sink_holds s' (data ++ x)).
Proof.
  intros Hcap Hs Hw. unfold sink_write in Hw. destruct (sink_tee x s) as [w s1] eqn:E.
  destruct (sink_tee_spec _ _ _ _ _ Hcap Hs E) as ([Hc Hd] & Hi & Ht & Htot & Hb & Hok). destruct Hs as [Hi0 Ht0 Htot0 _ _ _].
  destruct w; injection Hw as <- <-; [|done]. destruct (Hok eq_refl) as (Hlog & Hm & Hr).
  destruct (keep_holds s1 data x) as (Hi2 & Ht2 & Htot2 & Hl2 & [Hc2 Hd2] & Hw2 & Hm2); [by rewrite Hi, Hc|by rewrite Ht, Hc|by rewrite Htot|].
  split; [split; congruence|]. unfold log_bounded. rewrite Hl2, Hd2. split; [done|]. intros _.
  split; rewrite ?Hl2, ?Hd2, ?Hc2, ?Hd, ?Hm2, ?Hw2; try done; by rewrite ?Hd in *.
Qed.

Lemma sink_flush_holds s data b s' : sink_holds s data -> sink_flush s = (b, s') -> same_caps s s' /\ sink_holds s' data.
Proof.
  intros [H1 H2 H3 H4 H5 H6]. unfold sink_flush. destruct (Console.log_write [] (log s)) as [w l] eqn:E. intros [= <- <-].
  split; [done|]. assert (Hl : Console.content l = Console.content (log s)).
  { unfold Console.log_write in E. destruct (Console.faults (log s)) as [|[n|] fs]; injection E as _ <-; cbn; by rewrite ?take_nil, app_nil_r. }
  split; cbn; try done. by rewrite Hl.
Qed.

(** ** What an exec gives *)

Section exec_results.
Context `{Base64}.

(** The chunks a script of reads starts with that are accepted, and what stands behind them. *)
Fixpoint accepted (es : list Event) : list (ExecStreamKind * bytes) * list Event :=
  match es with
  | Got (MkResponse _ (ExecStream kind data)) :: es' =>
      match b64_decode data with
      | Some x => if (N.of_nat (length x) <=? EXEC_CHUNK_LEN)%N then let '(cs, rest) := accepted es' in ((kind, x) :: cs, rest) else ([], es)
      | None => ([], es)
      end
  | _ => ([], es)
  end.

(** One stream's bytes among the chunks. *)
Definition stream_of (kind : ExecStreamKind) (cs : list (ExecStreamKind * bytes)) : bytes :=
  concat (map snd (List.filter (fun c => bool_decide (fst c = kind)) cs)).

Definition capture_of (cap : N) (data : bytes) : StreamCapture :=
  MkCapture (take (N.to_nat cap) data) (cap <? N.of_nat (length data))%N (N.min u64_max (N.of_nat (length data))).

(** The result as a function of the two streams and of what stands behind the last accepted chunk. *)
Definition verdict (cap_out cap_err : N) (out err : bytes) (rest : list Event) : option (result ExecOutcome AgentError) :=
  match rest with
  | [] => Some (Err (ExecIncomplete (N.min u64_max (N.of_nat (length out))) (N.min u64_max (N.of_nat (length err)))))
  | BadFrame e :: _ => Some (Err (FrameErr e))
  | Stall :: _ => None
  | Got resp :: _ =>
      match body resp with
      | ExecDone code signal ms timed_out => Some (Ok (MkOutcome code signal ms timed_out (capture_of cap_out out) (capture_of cap_err err)))
      | ErrorBody m => Some (Err (Guest m))
      | ExecStream _ data =>
          match b64_decode data with Some x => Some (Err (OversizeChunk (N.of_nat (length x)))) | None => Some (Err BadChunk) end
      | _ => Some (Err Unexpected)
      end
  end.

Definition bounded_caps (s : StreamSink) : Prop := (disk_cap s <= u64_max)%N.

Lemma finish_capture s data : sink_holds s data -> finish s = capture_of (cap s) data.
Proof. intros [Hi Ht Htot _ _ _]. unfold finish, capture_of. by rewrite Hi, Ht, Htot. Qed.

(** What the loop leaves in the sinks, however it ends. *)
Definition loop_ends (s0 : Sinks) (out err : bytes) (rest : list Event) (r : option (result ExecOutcome AgentError)) (s : Sinks) : Prop :=
  log_bounded (fst s) /\ log_bounded (snd s) /\
  (r = Some (Err Io) \/
   r = verdict (cap (fst s0)) (cap (snd s0)) out err rest /\ sink_holds (fst s) out /\ sink_holds (snd s) err).

Lemma flushed_ends s0 s k out err rest : sink_holds (fst s) out -> sink_holds (snd s) err ->
  (forall s', same_caps (fst s) (fst s') -> same_caps (snd s) (snd s') -> sink_holds (fst s') out -> sink_holds (snd s') err ->
    Some (k s') = verdict (cap (fst s0)) (cap (snd s0)) out err rest) ->
  let '(r, s') := flushed k s in loop_ends s0 out err rest r s'.
Proof.
  intros Ho He Hk. unfold flushed.
  destruct (sink_flush (fst s)) as [b1 o] eqn:E1. destruct (sink_flush_holds _ _ _ _ Ho E1) as [Hc1 Ho'].
  destruct b1; [|split; [by eapply holds_bounded|]; split; [by eapply holds_bounded|by left]].
  destruct (sink_flush (snd s)) as [b2 e] eqn:E2. destruct (sink_flush_holds _ _ _ _ He E2) as [Hc2 He'].
  destruct b2; (split; [by eapply holds_bounded|]; split; [by eapply holds_bounded|]); [right|by left].
  split; [|done]. by apply Hk.
Qed.

Lemma sink_set kind k s : sink_of kind (set_sink kind k s) = k.
Proof. by destruct kind. Qed.

Lemma accepted_rest es : match snd (accepted es) with
  | Got resp :: _ => match body resp with
      | ExecStream _ data => match b64_decode data with Some x => (EXEC_CHUNK_LEN < N.of_nat (length x))%N | None => True end
      | _ => True end
  | _ => True end.
Proof.
  induction es as [|ev es IH]; [done|]. cbn. destruct ev as [[n []]| |]; try done.
  destruct (b64_decode data_b64) as [x|] eqn:E; cbn; [|by rewrite E].
  destruct (N.leb_spec (N.of_nat (length x)) EXEC_CHUNK_LEN); [by destruct (accepted es)|]. cbn. by rewrite E.
Qed.

Lemma stream_of_cons kind c cs : stream_of kind (c :: cs) = (if bool_decide (fst c = kind) then snd c else []) ++ stream_of kind cs.
Proof. unfold stream_of. cbn. by destruct (bool_decide (fst c = kind)). Qed.

Lemma loop_ends_caps s0 s1 out err rest r s : cap (fst s0) = cap (fst s1) -> cap (snd s0) = cap (snd s1) ->
  loop_ends s1 out err rest r s -> loop_ends s0 out err rest r s.
Proof. unfold loop_ends. by intros -> ->. Qed.

Lemma exec_loop_ends es : forall s out err, bounded_caps (fst s) -> bounded_caps (snd s) ->
  sink_holds (fst s) out -> sink_holds (snd s) err ->
  let '(cs, rest) := accepted es in
  let '(r, s') := exec_loop es s in
  loop_ends s (out ++ stream_of Stdout cs) (err ++ stream_of Stderr cs) rest r s'.
Proof.
  induction es as [|ev es IH]; intros s out err Hbo Hbe Ho He.
  { cbn [accepted exec_loop]. rewrite !app_nil_r. apply flushed_ends; [done..|]. intros s' _ _ [] []. cbn. congruence. }
  assert (Hstop : forall r, r = verdict (cap (fst s)) (cap (snd s)) out err (ev :: es) ->
    loop_ends s (out ++ stream_of Stdout []) (err ++ stream_of Stderr []) (ev :: es) r s).
  { intros r ->. rewrite !app_nil_r. split; [by eapply holds_bounded|]. split; [by eapply holds_bounded|]. by right. }
  destruct ev as [[n b]|e|]; [|by apply Hstop..]. destruct b; try by apply Hstop.
  - cbn [accepted exec_loop body]. destruct (b64_decode data_b64) as [x|] eqn:Ex; [|apply Hstop; cbn; by rewrite Ex].
    rewrite N.ltb_antisym. destruct (N.of_nat (length x) <=? EXEC_CHUNK_LEN)%N; cbn [negb]; [|apply Hstop; cbn; by rewrite Ex].
    destruct (accepted es) as [cs rest]. rewrite !stream_of_cons. cbn [fst snd].
    destruct stream; cbn [sink_of set_sink].
    + destruct (sink_write x (fst s)) as [b k] eqn:Ew. destruct (sink_write_holds _ _ _ _ _ Hbo Ho Ew) as ([Hc Hd] & Hb & Hok).
      destruct b; [|split; [done|]; split; [by eapply holds_bounded|by left]].
      rewrite bool_decide_eq_true_2, bool_decide_eq_false_2, app_assoc by done. cbn [app].
      specialize (IH (k, snd s) (out ++ x) err). destruct (exec_loop es (k, snd s)) as [r s'].
      apply (loop_ends_caps _ (k, snd s)); [done..|]. apply IH; [|done|by apply Hok|done]. unfold bounded_caps in *. cbn. congruence.
    + destruct (sink_write x (snd s)) as [b k] eqn:Ew. destruct (sink_write_holds _ _ _ _ _ Hbe He Ew) as ([Hc Hd] & Hb & Hok).
      destruct b; [|split; [by eapply holds_bounded|]; split; [done|by left]].
      rewrite bool_decide_eq_false_2, bool_decide_eq_true_2 by done. cbn [app]. rewrite (app_assoc err).
      specialize (IH (fst s, k) out (err ++ x)). destruct (exec_loop es (fst s, k)) as [r s'].
      apply (loop_ends_caps _ (fst s, k)); [done..|]. apply IH; [done| |done|by apply Hok]. unfold bounded_caps in *. cbn. congruence.
  - cbn [accepted exec_loop body]. rewrite !app_nil_r. apply flushed_ends; [done..|].
    intros s' [Ho1 _] [He1 _] Ho2 He2. cbn. by rewrite (finish_capture _ _ Ho2), (finish_capture _ _ He2), Ho1, He1.
  - cbn [accepted exec_loop body]. rewrite !app_nil_r. by apply flushed_ends.
Qed.

(** Without faults in the logs no write fails. *)
Definition clean (s : Sinks) : Prop := Console.faults (log (fst s)) = [] /\ Console.faults (log (snd s)) = [].

Definition faultless (s : StreamSink) : Prop := Console.faults (log s) = [].

Lemma log_write_faultless data l : Console.faults l = [] -> exists l', Console.log_write data l = (true, l') /\ Console.faults l' = [].
Proof. intros E. unfold Console.log_write. rewrite E. eauto. Qed.

Lemma sink_write_faultless x s : faultless s -> exists s', sink_write x s = (true, s') /\ faultless s'.
Proof.
  intros Hf. unfold sink_write, sink_tee, sink_keep, faultless.
  assert (Hk : forall s1, faultless s1 -> exists s', (true, sink_keep x s1) = (true, s') /\ faultless s').
  { intros s1 H1. eexists. split; [done|]. unfold faultless, sink_keep. repeat case_match; by simplify_eq. }
  destruct (disk_truncated s); [by apply Hk|]. destruct (_ <=? _)%N.
  - destruct (log_write_faultless x (log s) Hf) as (l & -> & Hl). by apply Hk.
  - destruct (log_write_faultless (take (N.to_nat (disk_cap s - disk_written s)) x) (log s) Hf) as (l & -> & Hl).
    destruct (log_write_faultless LOG_TRUNCATED_MARKER l Hl) as (l2 & -> & Hl2). by apply Hk.
Qed.

Lemma flushed_faultless k s : faultless (fst s) -> faultless (snd s) -> (forall s', k s' <> Err Io) ->
  fst (flushed k s) <> Some (@Err ExecOutcome _ Io).
Proof.
  intros Ho He Hk. unfold flushed, sink_flush.
  destruct (log_write_faultless [] (log (fst s)) Ho) as (l & -> & _). destruct (log_write_faultless [] (log (snd s)) He) as (l2 & -> & _).
  cbn. intros [= E]. by eapply Hk.
Qed.

Lemma exec_loop_faultless es : forall s, clean s -> fst (exec_loop es s) <> Some (Err Io).
Proof.
  induction es as [|ev es IH]; intros s [Ho He]; cbn [exec_loop]; [by apply flushed_faultless|].
  destruct ev as [[n b]|e|]; [|done..]. cbn [body]. destruct b; try done; try by apply flushed_faultless.
  destruct (b64_decode data_b64) as [x|]; [|done]. destruct (_ <? _)%N; [done|].
  destruct stream; cbn [sink_of set_sink].
  - destruct (sink_write_faultless x (fst s) Ho) as (k & -> & Hk). by apply IH.
  - destruct (sink_write_faultless x (snd s) He) as (k & -> & Hk). by apply IH.
Qed.

(** The client after a request. *)
Definition asked (c : Client) (op : RequestOp) : Client :=
  MkClient ((next_id c + 1) mod (u64_max + 1)) (made c ++ [MkRequest (next_id c) op]).

Lemma exec_runs dial peer spec o e c es :
  dial (made c) = Connected ->
  peer (made c) (MkRequest (next_id c) (Exec (exec_request spec))) = (Written, es) ->
  (sp_log_cap spec <= u64_max)%N -> Console.content o = [] -> Console.content e = [] ->
  let out := stream_of Stdout (fst (accepted es)) in
  let err := stream_of Stderr (fst (accepted es)) in
  exists r s, exec dial peer spec (Some o) (Some e) c = (Ok (r, s), asked c (Exec (exec_request spec))) /\
    log_bounded (fst s) /\ log_bounded (snd s) /\
    (r = Some (Err Io) \/
     r = verdict (sp_inline_cap spec) (sp_inline_cap spec) out err (snd (accepted es)) /\
     sink_holds (fst s) out /\ sink_holds (snd s) err) /\
    (Console.faults o = [] -> Console.faults e = [] -> r <> Some (Err Io)).
Proof.
  intros Hd Hp Hcap Ho He out err. destruct (exec_loop es (new_sink spec o, new_sink spec e)) as [r s] eqn:El. exists r, s.
  split. { unfold exec, connect, write_request, submit, se_bind, se_ret. rewrite Hd, Hp. by rewrite El. }
  pose proof (exec_loop_ends es (new_sink spec o, new_sink spec e) [] []) as Hends. subst out err.
  destruct (accepted es) as [cs rest]. rewrite El in Hends. cbn [fst snd app] in *.
  destruct Hends as (Hb1 & Hb2 & Hr); [done..|by apply sink_create_holds|by apply sink_create_holds|].
  split_and!; try done. intros Hfo Hfe. replace r with (fst (r, s)) by done. rewrite <- El. by apply exec_loop_faultless.
Qed.
(** C27: the host's side of a streamed exec.  For every script of the guest — chunks of either stream in
    any order, then silence, garbage, a refusal, a wrong answer, the end of the connection or
    [ExecDone] — the request that is sent is the spec's; the result is a function of the bytes of each
    stream among the accepted chunks and of what stands behind them (so [Ok] is returned for
    [ExecDone] only, and its captures are each stream's first [inline_cap] bytes, whether more came
    and how many); each log holds its stream's bytes up to the cap, then the marker if there were
    more, and never grows past the cap and the marker, whatever the guest sends.  Only a log that
    fails to write changes the result. *)
Theorem exec_spec dial peer spec o e c es :
  dial (made c) = Connected ->
  peer (made c) (MkRequest (next_id c) (Exec (exec_request spec))) = (Written, es) ->
  (sp_log_cap spec <= u64_max)%N -> Console.content o = [] -> Console.content e = [] ->
  let out := stream_of Stdout (fst (accepted es)) in
  let err := stream_of Stderr (fst (accepted es)) in
  exists r s, exec dial peer spec (Some o) (Some e) c = (Ok (r, s), asked c (Exec (exec_request spec))) /\
    log_bounded (fst s) /\ log_bounded (snd s) /\
    (r = Some (Err Io) \/
     r = verdict (sp_inline_cap spec) (sp_inline_cap spec) out err (snd (accepted es)) /\
     sink_holds (fst s) out /\ sink_holds (snd s) err) /\
    (Console.faults o = [] -> Console.faults e = [] -> r <> Some (Err Io)).
Proof. exact (exec_runs dial peer spec o e c es). Qed.
End exec_results.

(** ** Readiness *)

Section ready.
Context `{Base64} (dial : list Request -> Dial) (peer : list Request -> Request -> Wrote * list Event).

(** The answer that makes a VM ready. *)
Definition healthy (b : ResponseBody) (p : Pong) : Prop :=
  b = PongBody (agent_version p) PROTO_VERSION (uptime_s p) None None /\ proto_version p = PROTO_VERSION.

(** A ping went through at this point of the conversation and was answered with [b]. *)
Definition answered (c : Client) (b : ResponseBody) : Prop :=
  dial (made c) = Connected /\ exists n es, peer (made c) (MkRequest (next_id c) Ping) = (Written, Got (MkResponse n b) :: es).

Lemma ping_answered c b c' : request_one dial peer Ping c = (Ok b, c') -> answered c b /\ c' = asked c Ping.
Proof.
  unfold request_one, connect, write_request, submit, se_bind, se_ret, answered.
  destruct (dial (made c)); try done. destruct (peer (made c) _) as [w es] eqn:E. destruct w; try done.
  destruct es as [|[[n b']|e|] es]; try done. cbn. intros [= <- <-]. split; [split; [done|]; by eauto|done].
Qed.

Lemma ping_ok c p c' : ping dial peer c = (Ok p, c') -> exists b, answered c b /\ healthy b p /\ c' = asked c Ping.
Proof.
  unfold ping, se_bind. destruct (request_one dial peer Ping c) as [[b|e] c1] eqn:E; [|done]. apply ping_answered in E as [Ha ->].
  unfold se_ret. destruct b; try done. destruct (N.eqb_spec proto_version0 PROTO_VERSION) as [->|]; [|done].
  cbn [negb]. destruct overlay_error; [done|]. destruct resolv_error; [done|]. intros [= <- <-]. eexists. split_and!; [done|split; done|done].
Qed.

Lemma ping_made c : length (made (snd (ping dial peer c))) <= S (length (made c)).
Proof.
  unfold ping, request_one, connect, write_request, submit, se_bind, se_ret.
  destruct (dial (made c)); cbn; try lia. destruct (peer _ _) as [w es].
  destruct w; cbn; [|rewrite length_app; cbn; lia..]. destruct es as [|[r|e|] es]; cbn; rewrite length_app; cbn; lia.
Qed.

Lemma ping_mismatch c expected got c' : ping dial peer c = (Err (ProtoMismatch expected got), c') -> expected = PROTO_VERSION.
Proof.
  unfold ping, request_one, connect, write_request, submit, se_bind, se_ret.
  destruct (dial (made c)); try done. destruct (peer _ _) as [w es].
  destruct w; try done. destruct es as [|[r|e|] es]; try done. destruct (body r); try done.
  destruct (proto_version0 =? PROTO_VERSION)%N; cbn; [|congruence]. destruct overlay_error; [done|]. by destruct resolv_error.
Qed.

(** Readiness.  [wait_ready] returns a pong only when the guest's last answer was a pong of this
    protocol version with neither the overlay nor the resolver in error; its errors are a protocol
    mismatch, a degraded overlay and the deadline, no other; and it asks at most once more than the
    clock left it time for. *)
Theorem wait_ready_spec late c :
  match wait_ready dial peer late c with
  | (Ok p, c') => exists c1 b, answered c1 b /\ healthy b p /\ c' = asked c1 Ping
  | (Err e, _) => (exists got, e = ProtoMismatch PROTO_VERSION got) \/ (exists m, e = OverlayDegraded m) \/ e = NotReady
  end /\
  length (made (snd (wait_ready dial peer late c))) <= length (made c) + S (length late).
Proof.
  revert c. induction late as [|l late IH]; intros c; cbn [wait_ready]; unfold se_bind, se_try;
    pose proof (ping_made c) as Hm; destruct (ping dial peer c) as [[p|e] c1] eqn:E; cbn in Hm; unfold se_ret;
    try (split; [apply ping_ok in E as (b & Ha & Hh & ->); by exists c, b|cbn; lia]).
  - destruct e; cbn; (split; [|lia]); try by eauto. apply ping_mismatch in E as ->. by eauto.
  - assert (Hnext : forall w, w = (if l then (Err NotReady, c1) else wait_ready dial peer late c1) ->
      match w with
      | (Ok p, c') => exists c1 b, answered c1 b /\ healthy b p /\ c' = asked c1 Ping
      | (Err e, _) => (exists got, e = ProtoMismatch PROTO_VERSION got) \/ (exists m, e = OverlayDegraded m) \/ e = NotReady
      end /\ length (made (snd w)) <= length (made c) + S (S (length late))).
    { intros w ->. destruct l; [split; [by eauto|cbn; lia]|]. destruct (IH c1) as [H1 H2]. split; [done|]. lia. }
    destruct e; destruct l; try (apply Hnext; done); (split; [|cbn; lia]); try by eauto;
      apply ping_mismatch in E as ->; by eauto.
Qed.
End ready.

(** ** Concrete runs *)

(** A codec for the examples: the text is the data. *)
Definition verbatim : Base64 := {| b64_encode d := d; b64_decode d := Some d; b64_roundtrip d := eq_refl |}.

Definition probe : ExecSpec := MkSpec [B "make"] [] None None None 4 6.

(** Nine bytes on stdout against a cap of four inline and six on disk, a word on stderr, then the end. *)
Definition chatty (asked : list Request) (r : Request) : Wrote * list Event :=
  (Written, map (fun b => Got (MkResponse (req_id r) b))
    [ExecStream Stdout (B "abcde"); ExecStream Stderr (B "oh"); ExecStream Stdout (B "fghi"); ExecDone (Some 0%Z) None 12 false]).

Lemma exec_spec_witness : exists r s,
  @exec verbatim (fun _ => Connected) chatty probe (Some (Console.MkLog [] [])) (Some (Console.MkLog [] [])) client_new =
    (Ok (r, s), asked client_new (Exec (@exec_request verbatim probe))) /\
  r = Some (Ok (MkOutcome (Some 0%Z) None 12 false (MkCapture (B "abcd") true 9) (MkCapture (B "oh") false 2))) /\
  Console.content (log (fst s)) = B "abcdef" ++ LOG_TRUNCATED_MARKER /\ Console.content (log (snd s)) = B "oh".
Proof.
  destruct (@exec_spec verbatim (fun _ => Connected) chatty probe (Console.MkLog [] []) (Console.MkLog [] []) client_new _ eq_refl eq_refl)
    as (r & s & He & _ & _ & Hr & Hclean); [by vm_compute|done|done|].
  exists r, s. split; [exact He|]. destruct Hr as [Hr|(-> & [_ _ _ Ho _ _] & [_ _ _ He2 _ _])]; [by destruct Hclean|].
  revert He Ho He2. destruct s as [s1 s2]. intros He. vm_compute in He. injection He as <- <-. intros _ _. by vm_compute.
Defined.

(** A guest whose resolver was not applied says so in every answer, and [wait_ready] keeps asking. *)
Definition unresolved (asked : list Request) (r : Request) : Wrote * list Event :=
  (Written, [Got (MkResponse (req_id r) (PongBody (B "0.1") PROTO_VERSION (B "1.0") None (Some (B "read-only file system"))))]).

Example resolver_error_retried :
  fst (ping (fun _ => Connected) unresolved client_new) = Err (ResolverNotApplied (B "read-only file system")) /\
  let r := wait_ready (fun _ => Connected) unresolved [false; false; false] client_new in
  fst r = Err NotReady /\ length (made (snd r)) = 4%nat.
Proof. by vm_compute. Qed.
