(* ===== verification/CopyOut.v ===== *)
(** * Copying a file out of the guest ([crates/core/src/agent.rs], [copy_out])

    The host's end of the artifact channel.  The bytes the guest sends go to a file staged beside the
    destination and are moved onto it once the guest has said that the file is complete; a device or a
    FIFO is written through.

    The host is the tree of [HostIo] with what its files hold; every call on it may fail, by a script.
    A path is the list of components the kernel sees. *)
From S2P Require Import Prelude Text Effects.
From S2P Require Frame.
From S2P Require Import Rpc Agent HostIo.

(** ** The host *)

Abbreviation loc := (list bytes).

Record Host : Type := MkHost {
  tree : HostFs;
  files : gmap loc (bytes * N);  (** what the regular files hold, and their modes *)
  delivered : gmap loc bytes;    (** what devices and FIFOs were sent *)
  stage_seq : N;
  script : list bool;            (** whether the next calls succeed; all do when it ends *)
  removable : bool               (** whether [unlink] succeeds *) }.

Definition set_nodes (m : gmap loc node) (h : Host) : Host :=
  MkHost (MkHostFs m (cwd (tree h))) (files h) (delivered h) (stage_seq h) (script h) (removable h).
Definition set_files (f : gmap loc (bytes * N)) (h : Host) : Host :=
  MkHost (tree h) f (delivered h) (stage_seq h) (script h) (removable h).
Definition set_delivered (d : gmap loc bytes) (h : Host) : Host :=
  MkHost (tree h) (files h) d (stage_seq h) (script h) (removable h).

Abbreviation H := (SE Host AgentError).

(** A call that may fail. *)
Definition attempt : SE Host AgentError unit := fun h =>
  match script h with
  | [] => (Ok tt, h)
  | b :: s => (if b then Ok tt else Err Io, MkHost (tree h) (files h) (delivered h) (stage_seq h) s (removable h))
  end.

(** The directory entry a path names: what [rename], [unlink] and an exclusive creation act on. *)
Definition entry_at (fs : HostFs) (p : path) : result loc Errno :=
  if too_long (path_text p) then Err ENAMETOOLONG
  else
  match last p with
  | Some (Normal n) =>
      let? d := match removelast p with
                | [] => match cwd fs with Some d => Ok d | None => Err ENOENT end
                | up => resolve Follow fs up
                end in
      let? _ := search (nodes fs) d in
      Ok (d ++ [n])
  | _ => Err ENOTDIR
  end.

(** [Path::parent] and [Path::file_name] of the text the components were read from. *)
Definition std_path (p : path) : path :=
  match p with CurDir :: r => CurDir :: List.filter not_cur r | _ => List.filter not_cur p end.

(** ** The destination *)

Definition NAME_MAX : nat := 255.

(** [str::is_char_boundary] *)
Definition is_char_boundary (s : bytes) (k : nat) : bool :=
  match s !! k with
  | None => (k =? length s)%nat
  | Some c => (k =? 0)%nat || negb ((128 <=? code c)%N && (code c <? 192)%N)
  end.

Fixpoint walk_back (base : bytes) (keep : nat) : nat :=
  match keep with
  | 0%nat => 0%nat
  | S k => if is_char_boundary base keep then keep else walk_back base k
  end.

Definition clamp_stage_base (base : bytes) (suffix_len : nat) : bytes :=
  take (walk_back base (Nat.min (NAME_MAX - (suffix_len + 1)) (length base))) base.

Inductive CopyOutDest : Type :=
  | Staged (temp : loc) (dest : path)
  | Direct (at_ : loc).

Definition stage_suffix (pid n : N) : bytes := B ".isopod-" ++ show_N pid ++ B "-" ++ show_N n ++ B ".part".
Definition stage_name (base : bytes) (pid n : N) : bytes :=
  let suffix := stage_suffix pid n in B "." ++ clamp_stage_base base (length suffix) ++ suffix.

Section copy_out.
Context `{Base64}.
(** The process's id and umask. *)
Context (pid umask : N).

(** [OpenOptions::create_new(true).mode(0o600)] *)
Definition create_new (temp : path) : H loc := fun h =>
  match entry_at (tree h) temp with
  | Err _ => (Err Io, h)
  | Ok l =>
      match nodes (tree h) !! l with
      | Some _ => (Err Io, h)
      | None => (do! _ := attempt in fun h =>
          (Ok l, set_files (<[l := ([], N.ldiff 384 umask)]> (files h)) (set_nodes (<[l := File 1]> (nodes (tree h))) h))) h
      end
  end.

Definition stage_copy_out (dest : path) : H CopyOutDest := fun h =>
  let up := match parent (std_path dest) with Some (_ :: _ as p) => p | _ => [CurDir] end in
  match file_name (std_path dest) with
  | None => (Err Unexpected, h)
  | Some name =>
      let base := from_utf8_lossy name in
      let n := stage_seq h in
      let h := MkHost (tree h) (files h) (delivered h) ((n + 1) mod (u64_max + 1)) (script h) (removable h) in
      (do! l := create_new (up ++ [Normal (stage_name base pid n)]) in se_ret (Ok (Staged l dest))) h
  end.

Definition open_copy_out_dest (dest : path) : H CopyOutDest := fun h =>
  match resolve_at NoFollow (tree h) dest with
  | Err ENOENT => stage_copy_out dest h
  | Err _ => (Err Io, h)
  | Ok l =>
      match node_at (nodes (tree h)) l with
      | None | Some (Dir _) | Some (Link _) => (Err Io, h)
      | Some (File _) =>
          (* the open, then the look at what was opened *)
          (do! _ := attempt in do! _ := attempt in stage_copy_out dest) h
      | Some Special => (do! _ := attempt in do! _ := attempt in se_ret (Ok (Direct l))) h
      end
  end.

(** [write_all]: a write that fails may have written some of it. *)
Definition dest_write (data : bytes) (d : CopyOutDest) : H unit := fun h =>
  let '(r, h) := attempt h in
  let data := if is_ok r then data else take (length data / 2) data in
  (r, match d with
      | Staged l _ => set_files (alter (fun f => (fst f ++ data, snd f)) l (files h)) h
      | Direct l => set_delivered (<[l := default [] (delivered h !! l) ++ data]> (delivered h)) h
      end).

(** The staging file is unlinked when its guard is dropped. *)
Definition abandon (d : CopyOutDest) : Host -> Host := fun h =>
  match d with
  | Staged l _ => if removable h then set_files (delete l (files h)) (set_nodes (delete l (nodes (tree h))) h) else h
  | Direct _ => h
  end.

Definition rename (from : loc) (dest : path) : H unit := fun h =>
  match entry_at (tree h) dest with
  | Err _ => (Err Io, h)
  | Ok l =>
      match nodes (tree h) !! l with
      | Some (Dir _) => (Err Io, h)
      | _ =>
          (do! _ := attempt in fun h =>
            (Ok tt, if decide (l = from) then h else
              set_files (<[l := default ([], 0%N) (files h !! from)]> (delete from (files h)))
                (set_nodes (<[l := File 1]> (delete from (nodes (tree h)))) h))) h
      end
  end.

Definition host_mode_for (guest_mode : N) : N := N.lor (N.ldiff (N.land guest_mode 511) 18) 384.

Definition commit (d : CopyOutDest) (mode : N) : H unit := fun h =>
  match d with
  | Direct _ => (Ok tt, h)
  | Staged l dest =>
      let '(ok, h) := attempt h in
      let h := if is_ok ok then set_files (alter (fun f => (fst f, mode)) l (files h)) h else h in
      match rename l dest h with
      | (Ok _, h) => (Ok tt, h)
      | (Err e, h) => (Err e, abandon d h)
      end
  end.

(** ** The stream *)

Fixpoint copy_loop (max_bytes : N) (d : CopyOutDest) (es : list Event) (written : N) : H (N * N) :=
  match es with
  | [] => se_ret (Err Unexpected)
  | Stall :: _ => se_ret (Err Timeout)
  | BadFrame e :: _ => se_ret (Err (FrameErr e))
  | Got resp :: es =>
      match body resp with
      | FileChunk data =>
          match b64_decode data with
          | None => se_ret (Err BadChunk)
          | Some x =>
              let n := N.of_nat (length x) in
              if (EXEC_CHUNK_LEN <? n)%N then se_ret (Err (OversizeChunk n))
              else if (max_bytes <? sat_add written n)%N then se_ret (Err Unexpected)
              else do! _ := dest_write x d in copy_loop max_bytes d es (sat_add written n)
          end
      | FileDone total_bytes mode =>
          if negb (written =? total_bytes)%N then se_ret (Err Unexpected)
          else do! _ := attempt in se_ret (Ok (total_bytes, mode))
      | ErrorBody m => se_ret (Err (Guest m))
      | _ => se_ret (Err Unexpected)
      end
  end.

(** [copy_out] once the request went out. *)
Definition receive (dest : path) (max_bytes : N) (es : list Event) : H (N * N) := fun h =>
  match open_copy_out_dest dest h with
  | (Err e, h) => (Err e, h)
  | (Ok d, h) =>
      match copy_loop max_bytes d es 0 h with
      | (Ok (total, mode), h) => (do! _ := commit d (host_mode_for mode) in se_ret (Ok (total, mode))) h
      | (Err e, h) => (Err e, abandon d h)
      end
  end.

Definition copy_out (dial : list Request -> Dial) (peer : list Request -> Request -> Wrote * list Event)
    (guest_path : bytes) (dest : path) (max_bytes : N) : SE (Client * Host) AgentError (N * N) := fun '(c, h) =>
  match (do! _ := connect dial in write_request peer (CopyOut guest_path max_bytes)) c with
  | (Err e, c) => (Err e, (c, h))
  | (Ok es, c) => let '(r, h) := receive dest max_bytes es h in (r, (c, h))
  end.
End copy_out.

(** ** Directory entries *)

(** A root is named at the front of a path only. *)
Definition path_wf (p : path) : Prop := Forall (fun c => c <> RootDir) (tail p).

Lemma kernel_components_wf s : path_wf (kernel_components s).
Proof.
  unfold path_wf, kernel_components.
  assert (Hp : Forall (fun c => c <> RootDir) (map part_of (List.filter not_blank (split "/" s)) ++ (if ends_with (B "/") s then [CurDir] else []))).
  { apply Forall_app. split; [|by destruct (ends_with _ s); repeat constructor].
    apply Forall_map, Forall_forall. intros x _. unfold compose, part_of. by destruct (beq x (B ".")), (beq x (B "..")). }
  destruct (starts_with _ s); cbn; [done|]. by destruct Hp; [|done].
Qed.

Lemma rootless_tail (r : path) : Forall (fun c => c <> RootDir) r -> Forall (fun c => c <> RootDir) (tail r).
Proof. by destruct 1. Qed.

Section new_file.
Context (nodes : gmap loc node) (lt : loc).
Hypothesis (fresh : nodes !! lt = None) (below : lt <> []).
Abbreviation nodes' := (<[lt := File 1]> nodes).

(** A new file changes no search that succeeds, and lets no other succeed. *)
Lemma search_file at_ u : search nodes' at_ = Ok u <-> search nodes at_ = Ok u.
Proof.
  unfold search, node_at. destruct at_ as [|n at_]; [done|]. destruct (decide (lt = n :: at_)) as [<-|Hne].
  - by rewrite lookup_insert_eq, fresh.
  - by rewrite lookup_insert_ne.
Qed.

Lemma search_not_new at_ u : search nodes at_ = Ok u -> at_ <> lt.
Proof. intros Hs%search_ok ->. unfold node_at in Hs. destruct lt; [done|]. by rewrite fresh in Hs. Qed.

Lemma walk_file k at_ todo d : walk Follow nodes k at_ todo = Ok d -> walk Follow nodes' k at_ todo = Ok d.
Proof.
  revert k at_ todo.
  apply (walk_ind Follow nodes (fun k at_ todo => walk Follow nodes k at_ todo = Ok d -> walk Follow nodes' k at_ todo = Ok d)).
  - intros k at_. by rewrite !walk_nil.
  - intros k at_ r IH. by rewrite !walk_root.
  - intros k at_ r IH. rewrite !walk_cur. intros (u & Hu & Hw)%rbind_Ok. rewrite (proj2 (search_file at_ u) Hu). by apply IH.
  - intros k at_ r IH. rewrite !walk_parent. intros (u & Hu & Hw)%rbind_Ok. rewrite (proj2 (search_file at_ u) Hu). by apply IH.
  - intros k at_ n r IH1 IH2. rewrite !walk_normal. intros (u & Hu & Hw)%rbind_Ok. rewrite (proj2 (search_file at_ u) Hu). cbn [rbind].
    destruct (nodes !! (at_ ++ [n])) as [x|] eqn:Ex; [|done].
    rewrite lookup_insert_ne by (intros ->; congruence). rewrite Ex.
    destruct x; [by apply IH1..| |by apply IH1]. destruct k as [|k]; [done|]. destruct target; [done|]. by eapply IH2.
Qed.

Lemma walk_without k at_ todo d u : Forall (fun c => c <> RootDir) (tail todo) -> search nodes' d = Ok u ->
  walk Follow nodes' k at_ todo = Ok d -> walk Follow nodes k at_ todo = Ok d.
Proof.
  intros Hwf Hd. revert k at_ todo Hwf.
  apply (walk_ind Follow nodes' (fun k at_ todo => Forall (fun c => c <> RootDir) (tail todo) ->
    walk Follow nodes' k at_ todo = Ok d -> walk Follow nodes k at_ todo = Ok d)).
  - intros k at_ _. by rewrite !walk_nil.
  - intros k at_ r IH Hr. rewrite !walk_root. apply IH. by apply rootless_tail.
  - intros k at_ r IH Hr. rewrite !walk_cur. intros (u1 & Hu & Hw)%rbind_Ok. rewrite (proj1 (search_file at_ u1) Hu). apply IH; [|done]. by apply rootless_tail.
  - intros k at_ r IH Hr. rewrite !walk_parent. intros (u1 & Hu & Hw)%rbind_Ok. rewrite (proj1 (search_file at_ u1) Hu). apply IH; [|done]. by apply rootless_tail.
  - intros k at_ n r IH1 IH2 Hr. cbn [tail] in Hr. rewrite !walk_normal. intros (u1 & Hu & Hw)%rbind_Ok.
    rewrite (proj1 (search_file at_ u1) Hu). cbn [rbind].
    assert (Hr' : Forall (fun c => c <> RootDir) (tail r)) by (by apply rootless_tail).
    destruct (decide (at_ ++ [n] = lt)) as [E|Hne].
    + rewrite E, lookup_insert_eq in Hw. destruct r as [|c r].
      { rewrite walk_nil in Hw. injection Hw as <-. apply search_file in Hd. by apply search_not_new in Hd. }
      assert (Hno : forall (f : unit -> result loc Errno), rbind (search nodes' lt) f <> Ok d).
      { intros f (u2 & Hu2 & _)%rbind_Ok. apply search_file in Hu2. by apply search_not_new in Hu2. }
      apply Forall_cons in Hr as [Hc _]. destruct c; [done|rewrite walk_cur in Hw|rewrite walk_parent in Hw|rewrite walk_normal in Hw]; by apply Hno in Hw.
    + rewrite lookup_insert_ne in Hw by done. destruct (nodes !! (at_ ++ [n])) as [x|] eqn:Ex; [|done].
      destruct x; [by apply IH1..| |by apply IH1]. destruct k as [|k]; [done|]. destruct target as [|a t]; [done|].
      eapply IH2; [done|by rewrite lookup_insert_ne| |done].
      pose proof (kernel_components_wf (a :: t)) as Hk. unfold path_wf in Hk.
      destruct (kernel_components (a :: t)); cbn [app tail] in *; [done|]. by apply Forall_app.
Qed.
End new_file.

(** The new file beside the tree's others. *)
Definition with_file (fs : HostFs) (lt : loc) : HostFs := MkHostFs (<[lt := File 1]> (nodes fs)) (cwd fs).

Lemma entry_without fs lt p l : path_wf p -> nodes fs !! lt = None -> lt <> [] -> entry_at (with_file fs lt) p = Ok l -> entry_at fs p = Ok l.
Proof.
  unfold entry_at, path_wf. intros Hwf Hf Hne. destruct (too_long _); [done|]. destruct (last p) as [[| | |n]|]; try done.
  intros (d & Hd & (u & Hu & Hl)%rbind_Ok)%rbind_Ok.
  assert (Hup : match removelast p with [] => match cwd fs with Some d => Ok d | None => Err ENOENT end | up => resolve Follow fs up end = Ok d).
  { revert Hd. assert (Hr : Forall (fun c => c <> RootDir) (tail (removelast p))).
    { destruct p as [|c [|c2 p]]; [done..|]. cbn [tail] in *. change (removelast (c :: c2 :: p)) with (c :: removelast (c2 :: p)). cbn [tail].
      clear -Hwf. revert c2 Hwf. induction p as [|c3 p IH]; intros c2 Hwf; [constructor|]. apply Forall_cons in Hwf as [H1 H2].
      change (removelast (c2 :: c3 :: p)) with (c2 :: removelast (c3 :: p)). constructor; [done|]. by apply IH. }
    cbn [with_file cwd nodes]. destruct (removelast p) as [|c up]; [done|]. unfold resolve. cbn [with_file cwd nodes].
    destruct c; [|destruct (cwd fs); [|done]..]; by eapply walk_without. }
  rewrite Hup. cbn [rbind]. cbn [with_file nodes] in Hu. by rewrite (proj1 (search_file _ _ Hf d u) Hu).
Qed.

(** Opened without following a link at its end, a path leads to its entry. *)
Lemma nofollow_entry fs p l : entry_at fs p = Ok l ->
  resolve_at NoFollow fs p = match nodes fs !! l with None => Err ENOENT | Some _ => Ok l end.
Proof.
  unfold entry_at. destruct (too_long (path_text p)) eqn:Es; [done|]. destruct (last p) as [[| | |n]|] eqn:El; try done.
  intros (d & Hd & (u & Hu & [= <-])%rbind_Ok)%rbind_Ok. rewrite resolve_at_short by done. apply last_Some in El as [q ->]. rewrite removelast_snoc in Hd. clear Es.
  assert (Hw : exists k, resolve NoFollow fs (q ++ [Normal n]) = walk NoFollow (nodes fs) k d [Normal n]).
  { destruct q as [|c q].
    - cbn [app]. unfold resolve. destruct (cwd fs); [|done]. injection Hd as ->. by eexists.
    - destruct (resolve_app fs (c :: q) d Hd) as [k Hk]. exists k. by apply Hk. }
  destruct Hw as [k ->]. rewrite walk_normal, Hu. cbn [rbind]. destruct (nodes fs !! (d ++ [n])) as [x|]; [|done].
  destruct x; by rewrite ?walk_nil.
Qed.

(** ** What the calls do *)

(** Every file that holds something is a file of the tree. *)
Definition host_wf (h : Host) : Prop := forall l, is_Some (files h !! l) -> exists n, nodes (tree h) !! l = Some (File n).

(** [h'] differs from [h] at most in what is not on the disk. *)
Record same (h h' : Host) : Prop := {
  same_tree : tree h' = tree h;
  same_files : files h' = files h;
  same_delivered : delivered h' = delivered h;
  same_removable : removable h' = removable h }.

(** [h'] is [h] with one new file. *)
Record staging (h : Host) (lt : loc) (data : bytes) (mode : N) (h' : Host) : Prop := {
  st_fresh : nodes (tree h) !! lt = None;
  st_below : lt <> [];
  st_tree : tree h' = with_file (tree h) lt;
  st_files : files h' = <[lt := (data, mode)]> (files h);
  st_delivered : delivered h' = delivered h;
  st_removable : removable h' = removable h }.

(** What a path opens as, when it is no file and not missing. *)
Definition special_at (h : Host) (dest : path) : option loc :=
  match resolve_at NoFollow (tree h) dest with
  | Ok l => match node_at (nodes (tree h)) l with Some Special => Some l | _ => None end
  | Err _ => None
  end.

(** A regular file or nothing. *)
Definition replaceable (h : Host) (dest : path) : Prop :=
  match resolve_at NoFollow (tree h) dest with
  | Ok l => exists n, node_at (nodes (tree h)) l = Some (File n)
  | Err e => e = ENOENT
  end.

Lemma same_refl h : same h h.
Proof. done. Qed.
Lemma same_trans h1 h2 h3 : same h1 h2 -> same h2 h3 -> same h1 h3.
Proof. intros [] []. split; congruence. Qed.
#[local] Hint Resolve same_refl : core.

Lemma staging_from h1 h2 lt data mode h3 : same h1 h2 -> staging h2 lt data mode h3 -> staging h1 lt data mode h3.
Proof. intros [E1 E2 E3 E4] [F B T Fi D R]. split; [by rewrite <- E1|done|by rewrite T, E1|by rewrite Fi, E2|congruence|congruence]. Qed.
Lemma staging_to h1 lt data mode h2 h3 : staging h1 lt data mode h2 -> same h2 h3 -> staging h1 lt data mode h3.
Proof. intros [] []. split; try done; congruence. Qed.

Lemma attempt_same h r h' : attempt h = (r, h') -> same h h' /\ (r = Ok tt \/ r = Err Io).
Proof. unfold attempt. destruct (script h) as [|[] s]; intros [= <- <-]; (split; [split; done|]); auto. Qed.

Lemma entry_below fs p l : entry_at fs p = Ok l -> l <> [].
Proof. unfold entry_at. destruct (too_long _); [done|]. destruct (last p) as [[| | |n]|]; try done. intros (d & _ & (u & _ & [= <-])%rbind_Ok)%rbind_Ok. by destruct d. Qed.

Section calls.
Context (pid umask : N).

Lemma create_new_spec temp h r h' : create_new umask temp h = (r, h') ->
  match r with Ok lt => entry_at (tree h) temp = Ok lt /\ staging h lt [] (N.ldiff 384 umask) h' | Err _ => same h h' end.
Proof.
  unfold create_new. destruct (entry_at (tree h) temp) as [l|e] eqn:El; [|by intros [= <- <-]].
  destruct (nodes (tree h) !! l) eqn:En; [by intros [= <- <-]|]. unfold se_bind.
  destruct (attempt h) as [[[]|e] h1] eqn:Ea; destruct (attempt_same _ _ _ Ea) as [Hs _]; intros [= <- <-]; [|done].
  split; [done|]. apply (staging_from h h1); [done|]. destruct Hs as [Ht _ _ _].
  split; try done; [by rewrite Ht|by eapply entry_below].
Qed.

Lemma stage_spec dest h r h' : stage_copy_out pid umask dest h = (r, h') ->
  match r with
  | Ok d => exists lt name, d = Staged lt dest /\ file_name (std_path dest) = Some name /\
      entry_at (tree h) (match parent (std_path dest) with Some (_ :: _ as p) => p | _ => [CurDir] end ++
        [Normal (stage_name (from_utf8_lossy name) pid (stage_seq h))]) = Ok lt /\
      staging h lt [] (N.ldiff 384 umask) h'
  | Err _ => same h h'
  end.
Proof.
  unfold stage_copy_out. destruct (file_name (std_path dest)) as [name|] eqn:En; [|by intros [= <- <-]].
  unfold se_bind, se_ret. set (h0 := MkHost _ _ _ _ _ _). assert (Hs0 : same h h0) by done.
  destruct (create_new umask _ h0) as [[lt|e] h1] eqn:Ec; apply create_new_spec in Ec; intros [= <- <-].
  - destruct Ec as [Hen Hst]. exists lt, name. split_and!; [done..|]. by apply (staging_from h h0).
  - by apply (same_trans h h0).
Qed.

Lemma open_spec dest h r h' : open_copy_out_dest pid umask dest h = (r, h') ->
  match r with
  | Ok (Staged lt dest') => dest' = dest /\ replaceable h dest /\ special_at h dest = None /\ staging h lt [] (N.ldiff 384 umask) h'
  | Ok (Direct l) => special_at h dest = Some l /\ same h h'
  | Err _ => same h h'
  end.
Proof.
  unfold open_copy_out_dest, special_at, replaceable.
  assert (Hstage : forall h0, same h h0 -> (match resolve_at NoFollow (tree h) dest with
      | Ok l => exists n, node_at (nodes (tree h)) l = Some (File n) | Err e => e = ENOENT end) ->
    stage_copy_out pid umask dest h0 = (r, h') ->
    match r with
    | Ok (Staged lt dest') => dest' = dest /\
        match resolve_at NoFollow (tree h) dest with Ok l => exists n, node_at (nodes (tree h)) l = Some (File n) | Err e => e = ENOENT end /\
        match resolve_at NoFollow (tree h) dest with
        | Ok l => match node_at (nodes (tree h)) l with Some Special => Some l | _ => None end | Err _ => None end = None /\
        staging h lt [] (N.ldiff 384 umask) h'
    | Ok (Direct l) => match resolve_at NoFollow (tree h) dest with
        | Ok l => match node_at (nodes (tree h)) l with Some Special => Some l | _ => None end | Err _ => None end = Some l /\ same h h'
    | Err _ => same h h'
    end).
  { intros h0 Hs Hrep Hst. apply stage_spec in Hst. destruct r as [d|e]; [|by apply (same_trans h h0)].
    destruct Hst as (lt & name & -> & _ & _ & Hst). split; [done|]. split; [done|]. split; [|by apply (staging_from h h0)].
    destruct (resolve_at NoFollow (tree h) dest); [|done]. destruct Hrep as [n ->]. done. }
  destruct (resolve_at NoFollow (tree h) dest) as [l|e] eqn:Er.
  - destruct (node_at (nodes (tree h)) l) as [[]|] eqn:En; try by intros [= <- <-].
    + unfold se_bind. destruct (attempt h) as [[[]|e] h1] eqn:E1; destruct (attempt_same _ _ _ E1) as [Hs1 _]; [|by intros [= <- <-]].
      destruct (attempt h1) as [[[]|e] h2] eqn:E2; destruct (attempt_same _ _ _ E2) as [Hs2 _];
        [|intros [= <- <-]; by apply (same_trans h h1)].
      apply Hstage; [by apply (same_trans h h1)|]. by eexists.
    + unfold se_bind, se_ret. destruct (attempt h) as [[[]|e] h1] eqn:E1; destruct (attempt_same _ _ _ E1) as [Hs1 _]; [|by intros [= <- <-]].
      destruct (attempt h1) as [[[]|e] h2] eqn:E2; destruct (attempt_same _ _ _ E2) as [Hs2 _];
        intros [= <- <-]; [split; [done|]|]; by apply (same_trans h h1).
  - destruct e; try by intros [= <- <-]. by apply Hstage.
Qed.
End calls.

(** ** The stream *)

(** A script that starts with a whole file: chunks within the protocol's cap, then [FileDone]. *)
Inductive delivers `{Base64} : list Event -> bytes -> N -> N -> Prop :=
  | delivers_done id total mode es : delivers (Got (MkResponse id (FileDone total mode)) :: es) [] total mode
  | delivers_chunk id text x es data total mode :
      b64_decode text = Some x -> (N.of_nat (length x) <= EXEC_CHUNK_LEN)%N -> delivers es data total mode ->
      delivers (Got (MkResponse id (FileChunk text)) :: es) (x ++ data) total mode.

Section stream.
Context `{Base64}.

(** A script starts with one whole file at most. *)
Lemma delivers_fun es data total mode data' total' mode' : delivers es data total mode -> delivers es data' total' mode' -> data = data'.
Proof.
  intros Hd. revert data' total' mode'. induction Hd as [|id text x es data total mode Hx Hl Hd IH]; intros data' total' mode' Hd'; inversion Hd'; subst; [done|].
  f_equal; [congruence|by eapply IH].
Qed.

Definition total_ok (max_bytes : N) (data : bytes) (total : N) : Prop :=
  total = N.of_nat (length data) /\ (N.of_nat (length data) <= max_bytes)%N.

Lemma dest_write_staged h0 lt dest done_ m x h r h' : staging h0 lt done_ m h -> dest_write x (Staged lt dest) h = (r, h') ->
  exists x', staging h0 lt (done_ ++ x') m h' /\ (r = Ok tt -> x' = x).
Proof.
  intros Hst. unfold dest_write. destruct (attempt h) as [r1 h1] eqn:Ea. destruct (attempt_same _ _ _ Ea) as [Hs Hr].
  intros [= <- <-]. exists (if is_ok r1 then x else take (length x / 2) x). split; [|by intros ->]. destruct (staging_to _ _ _ _ _ _ Hst Hs) as [F Hb T Fi D R].
  split; try done. cbn [set_files files]. by rewrite Fi, alter_insert_eq.
Qed.

Lemma copy_loop_staged max_bytes lt dest es : forall h0 written done_ m h r h', staging h0 lt done_ m h ->
  copy_loop max_bytes (Staged lt dest) es written h = (r, h') ->
  exists data, staging h0 lt (done_ ++ data) m h' /\
    (forall total mode, r = Ok (total, mode) -> (max_bytes < u64_max)%N -> written = N.of_nat (length done_) -> (written <= max_bytes)%N ->
      delivers es data total mode /\ total_ok max_bytes (done_ ++ data) total).
Proof.
  induction es as [|ev es IH]; intros h0 written done_ m h r h' Hst; cbn [copy_loop].
  { intros [= <- <-]. exists []. by rewrite app_nil_r. }
  assert (Hend : forall e, se_ret (Err e) h = (r, h') -> exists data, staging h0 lt (done_ ++ data) m h' /\
    (forall total mode, r = Ok (total, mode) -> (max_bytes < u64_max)%N -> written = N.of_nat (length done_) -> (written <= max_bytes)%N ->
      delivers (ev :: es) data total mode /\ total_ok max_bytes (done_ ++ data) total)).
  { intros e [= <- <-]. exists []. by rewrite app_nil_r. }
  destruct ev as [[id b]|e|]; [|by apply Hend..]. cbn [body]. destruct b; try by apply Hend.
  - destruct (b64_decode data_b64) as [x|] eqn:Ex; [|by apply Hend].
    destruct (N.ltb_spec EXEC_CHUNK_LEN (N.of_nat (length x))) as [|Hlen]; [by apply Hend|].
    destruct (N.ltb_spec max_bytes (sat_add written (N.of_nat (length x)))) as [|Hmax]; [by apply Hend|].
    unfold se_bind. destruct (dest_write x (Staged lt dest) h) as [r1 h1] eqn:Ew.
    destruct (dest_write_staged _ _ _ _ _ _ _ _ _ Hst Ew) as (x' & Hst1 & Hx). destruct r1 as [[]|e].
    + rewrite (Hx eq_refl) in Hst1. intros Hl. destruct (IH _ _ _ _ _ _ _ Hst1 Hl) as (data & Hst2 & Hok).
      exists (x ++ data). rewrite app_assoc. split; [done|]. intros total mode Er Hu Hw Hle.
      assert (Hsum : sat_add written (N.of_nat (length x)) = N.of_nat (length (done_ ++ x))).
      { rewrite length_app. unfold sat_add in *. lia. }
      destruct (Hok total mode Er Hu Hsum Hmax) as [Hd Ht]. split; [|done]. by eapply delivers_chunk.
    + intros [= <- <-]. exists x'. done.
  - destruct (N.eqb_spec written total_bytes) as [<-|]; cbn [negb]; [|by apply Hend]. unfold se_bind, se_ret.
    destruct (attempt h) as [r1 h1] eqn:Ea. destruct (attempt_same _ _ _ Ea) as [Hs _].
    destruct r1 as [[]|e]; intros [= <- <-]; exists []; rewrite app_nil_r; (split; [by apply (staging_to _ _ _ _ h)|]); [|done].
    intros total m' [= <- <-] _ Hw Hle. split; [constructor|]. unfold total_ok. split; [done|lia].
Qed.

(** A device or a FIFO: what it is sent, and nothing else changes. *)
Record passed (h : Host) (l : loc) (data : bytes) (h' : Host) : Prop := {
  pa_tree : tree h' = tree h;
  pa_files : files h' = files h;
  pa_delivered : default [] (delivered h' !! l) = default [] (delivered h !! l) ++ data;
  pa_others l' : l' <> l -> delivered h' !! l' = delivered h !! l' }.

Lemma passed_nil h l h' : same h h' -> passed h l [] h'.
Proof. intros [T F D _]. split; try done; rewrite D; [by rewrite app_nil_r|done]. Qed.

Lemma passed_trans h1 l d1 h2 d2 h3 : passed h1 l d1 h2 -> passed h2 l d2 h3 -> passed h1 l (d1 ++ d2) h3.
Proof.
  intros [T F D O] [T2 F2 D2 O2]. split; [congruence..| |]; [by rewrite D2, D, app_assoc|]. intros l' Hl. by rewrite O2, O.
Qed.

Lemma dest_write_direct l x h r h' : dest_write x (Direct l) h = (r, h') ->
  exists x', passed h l x' h' /\ (r = Ok tt -> x' = x).
Proof.
  unfold dest_write. destruct (attempt h) as [r1 h1] eqn:Ea. destruct (attempt_same _ _ _ Ea) as [[T F D _] _].
  intros [= <- <-]. exists (if is_ok r1 then x else take (length x / 2) x). split; [|by intros ->]. split; try done; cbn [set_delivered delivered]; rewrite D.
  - by rewrite lookup_insert_eq.
  - intros l' Hne. by rewrite lookup_insert_ne.
Qed.

Lemma copy_loop_direct max_bytes l es : forall written h r h',
  copy_loop max_bytes (Direct l) es written h = (r, h') -> exists data, passed h l data h' /\
    (forall total mode, r = Ok (total, mode) -> (max_bytes < u64_max)%N -> (written <= max_bytes)%N ->
      delivers es data total mode /\ total = (written + N.of_nat (length data))%N /\ (total <= max_bytes)%N).
Proof.
  induction es as [|ev es IH]; intros written h r h'; cbn [copy_loop].
  { intros [= <- <-]. exists []. split; [by apply passed_nil|done]. }
  assert (Hend : forall e, se_ret (Err e) h = (r, h') -> exists data, passed h l data h' /\
    (forall total mode, r = Ok (total, mode) -> (max_bytes < u64_max)%N -> (written <= max_bytes)%N ->
      delivers (ev :: es) data total mode /\ total = (written + N.of_nat (length data))%N /\ (total <= max_bytes)%N)).
  { intros e [= <- <-]. exists []. split; [by apply passed_nil|done]. }
  destruct ev as [[id b]|e|]; [|by apply Hend..]. cbn [body]. destruct b; try by apply Hend.
  - destruct (b64_decode data_b64) as [x|] eqn:Ex; [|by apply Hend].
    destruct (N.ltb_spec EXEC_CHUNK_LEN (N.of_nat (length x))) as [|Hlen]; [by apply Hend|].
    destruct (N.ltb_spec max_bytes (sat_add written (N.of_nat (length x)))) as [|Hmax]; [by apply Hend|].
    unfold se_bind. destruct (dest_write x (Direct l) h) as [r1 h1] eqn:Ew.
    destruct (dest_write_direct _ _ _ _ _ Ew) as (x' & Hp & Hx). destruct r1 as [[]|e].
    + rewrite (Hx eq_refl) in Hp. intros Hl. destruct (IH _ _ _ _ Hl) as (data & Hp2 & Hok).
      exists (x ++ data). split; [by eapply passed_trans|]. intros total mode Er Hu Hle.
      destruct (Hok total mode Er Hu Hmax) as (Hd & -> & Ht). split; [by eapply delivers_chunk|].
      rewrite length_app. unfold sat_add in *. lia.
    + intros [= <- <-]. exists x'. done.
  - destruct (N.eqb_spec written total_bytes) as [<-|]; cbn [negb]; [|by apply Hend]. unfold se_bind, se_ret.
    destruct (attempt h) as [r1 h1] eqn:Ea. destruct (attempt_same _ _ _ Ea) as [Hs _].
    destruct r1 as [[]|e]; intros [= <- <-]; exists []; (split; [by apply passed_nil|]); [|done].
    intros total m' [= <- <-] _ Hle. split; [constructor|]. cbn. lia.
Qed.

End stream.

(** ** All or nothing *)

(** One file in [h'] is new or replaced. *)
Record landed (h : Host) (l : loc) (data : bytes) (mode : N) (h' : Host) : Prop := {
  la_tree : tree h' = with_file (tree h) l;
  la_files : files h' = <[l := (data, mode)]> (files h);
  la_delivered : delivered h' = delivered h }.

(** The staging file is all that is left of the copy. *)
Definition left_over (h h' : Host) : Prop :=
  removable h = false /\ exists lt data mode, staging h lt data mode h'.

Lemma files_fresh h lt : host_wf h -> nodes (tree h) !! lt = None -> files h !! lt = None.
Proof. intros W Hn. destruct (files h !! lt) eqn:E; [|done]. destruct (W lt) as [n Hn']; [by eexists|congruence]. Qed.

Lemma staging_landed h lt data mode h' : staging h lt data mode h' -> landed h lt data mode h'.
Proof. intros []. by split. Qed.

Lemma rename_spec h0 lt data m dest h r h' : host_wf h0 -> path_wf dest -> staging h0 lt data m h -> rename lt dest h = (r, h') ->
  match r with
  | Ok _ => exists l, entry_at (tree h0) dest = Ok l /\ landed h0 l data m h'
  | Err _ => staging h0 lt data m h'
  end.
Proof.
  intros W Hp Hst. unfold rename. destruct (entry_at (tree h) dest) as [l|e] eqn:El; [|by intros [= <- <-]].
  pose proof Hst as [F Hb T Fi D R].
  assert (El0 : entry_at (tree h0) dest = Ok l) by (rewrite T in El; by eapply entry_without).
  assert (Hgo : (do! _ := attempt in fun h => (Ok tt, if decide (l = lt) then h else
      set_files (<[l := default ([], 0%N) (files h !! lt)]> (delete lt (files h)))
        (set_nodes (<[l := File 1]> (delete lt (nodes (tree h)))) h))) h = (r, h') ->
    match r with Ok _ => exists l, entry_at (tree h0) dest = Ok l /\ landed h0 l data m h' | Err _ => staging h0 lt data m h' end).
  { unfold se_bind. destruct (attempt h) as [r1 h1] eqn:Ea. destruct (attempt_same _ _ _ Ea) as [Hs _].
    pose proof (staging_to _ _ _ _ _ _ Hst Hs) as Hst1. destruct r1 as [[]|e]; intros [= <- <-]; [|done]. exists l. split; [done|].
    destruct (decide (l = lt)) as [->|Hne]; [by apply staging_landed|]. destruct Hst1 as [F1 _ T1 Fi1 D1 _].
    split; cbn [set_files set_nodes tree files delivered nodes cwd]; rewrite ?T1, ?Fi1; cbn [with_file nodes cwd].
    - unfold with_file. by rewrite delete_insert_id.
    - by rewrite lookup_insert_eq, delete_insert_id by by apply files_fresh.
    - done. }
  destruct (nodes (tree h) !! l) as [[]|]; try exact Hgo. by intros [= <- <-].
Qed.

Lemma abandon_spec h0 lt data m dest h : host_wf h0 -> staging h0 lt data m h ->
  same h0 (abandon (Staged lt dest) h) \/ left_over h0 (abandon (Staged lt dest) h).
Proof.
  intros W Hst. pose proof Hst as [F _ T Fi D R]. unfold abandon. destruct (removable h) eqn:Er; [left|right; split; [congruence|by eauto]].
  split; cbn [set_files set_nodes tree files delivered nodes cwd removable]; rewrite ?T, ?Fi; cbn [with_file nodes cwd]; [| |done|congruence].
  - rewrite delete_insert_id by done. by destruct (tree h0).
  - by rewrite delete_insert_id by by apply files_fresh.
Qed.

Lemma commit_spec h0 lt data m mode dest h r h' : host_wf h0 -> path_wf dest -> staging h0 lt data m h ->
  commit (Staged lt dest) mode h = (r, h') ->
  match r with
  | Ok _ => exists l m', entry_at (tree h0) dest = Ok l /\ landed h0 l data m' h' /\ (m' = mode \/ m' = m)
  | Err _ => same h0 h' \/ left_over h0 h'
  end.
Proof.
  intros W Hp Hst. unfold commit. destruct (attempt h) as [r1 h1] eqn:Ea. destruct (attempt_same _ _ _ Ea) as [Hs _].
  pose proof (staging_to _ _ _ _ _ _ Hst Hs) as Hst1.
  assert (Hmode : exists m', (m' = mode \/ m' = m) /\
    staging h0 lt data m' (if is_ok r1 then set_files (alter (fun f => (fst f, mode)) lt (files h1)) h1 else h1)).
  { destruct (is_ok r1); [|exists m; split; [by right|done]]. exists mode. split; [by left|]. destruct Hst1 as [F Hb T Fi D R]. split; try done.
    cbn [set_files files]. by rewrite Fi, alter_insert_eq. }
  destruct Hmode as (m' & Hm & Hst2). set (h2 := if is_ok r1 then _ else h1) in *.
  destruct (rename lt dest h2) as [r2 h3] eqn:Er. pose proof (rename_spec _ _ _ _ _ _ _ _ W Hp Hst2 Er) as Hr.
  destruct r2 as [u|e]; intros [= <- <-].
  - destruct Hr as (l & El & Hl). by exists l, m'.
  - by apply (abandon_spec h0 lt data m' dest).
Qed.

Section atomic.
Context `{Base64} (pid umask : N).

Lemma receive_staged dest max_bytes es h r h' : host_wf h -> path_wf dest -> special_at h dest = None ->
  receive pid umask dest max_bytes es h = (r, h') ->
  match r with
  | Err _ => same h h' \/ left_over h h'
  | Ok (total, mode) => replaceable h dest /\
      exists l data m, entry_at (tree h) dest = Ok l /\ landed h l data m h' /\
        (m = host_mode_for mode \/ m = N.ldiff 384 umask) /\
        ((max_bytes < u64_max)%N -> delivers es data total mode /\ total_ok max_bytes data total)
  end.
Proof.
  intros W Hp Hnone. unfold receive. destruct (open_copy_out_dest pid umask dest h) as [r1 h1] eqn:Eo.
  pose proof (open_spec _ _ _ _ _ _ Eo) as Ho. destruct r1 as [d|e]; [|intros [= <- <-]; by left].
  destruct d as [lt dest'|l]; [|destruct Ho; congruence]. destruct Ho as (-> & Hrep & _ & Hst).
  destruct (copy_loop max_bytes (Staged lt dest) es 0 h1) as [r2 h2] eqn:El.
  destruct (copy_loop_staged _ _ _ _ _ _ _ _ _ _ _ Hst El) as (data & Hst2 & Hok). cbn [app] in *.
  destruct r2 as [[total mode]|e]; [|intros [= <- <-]; by apply (abandon_spec h lt data (N.ldiff 384 umask) dest)].
  unfold se_bind, se_ret. destruct (commit (Staged lt dest) (host_mode_for mode) h2) as [r3 h3] eqn:Ec.
  pose proof (commit_spec _ _ _ _ _ _ _ _ _ W Hp Hst2 Ec) as Hc. destruct r3 as [u|e]; intros [= <- <-]; [|done].
  split; [done|]. destruct Hc as (l & m' & Hen & Hl & Hm). exists l, data, m'. split_and!; try done.
  intros Hu. apply (Hok total mode); [done..|lia].
Qed.

Lemma copy_out_staged dial peer guest_path dest max_bytes c h :
  host_wf h -> path_wf dest -> special_at h dest = None -> (max_bytes < u64_max)%N ->
  match copy_out pid umask dial peer guest_path dest max_bytes (c, h) with
  | (Err _, (_, h')) => same h h' \/ left_over h h'
  | (Ok (total, mode), (_, h')) => replaceable h dest /\
      exists es l data m, peer (made c) (MkRequest (next_id c) (CopyOut guest_path max_bytes)) = (Written, es) /\
        delivers es data total mode /\ total_ok max_bytes data total /\
        entry_at (tree h) dest = Ok l /\ landed h l data m h' /\
        (m = host_mode_for mode \/ m = N.ldiff 384 umask)
  end.
Proof.
  intros W Hp Hnone Hu. unfold copy_out, connect, write_request, submit, se_bind, se_ret.
  destruct (dial (made c)); [|by left..]. destruct (peer (made c) _) as [w es] eqn:Epeer. destruct w; [|by left..].
  destruct (receive pid umask dest max_bytes es h) as [r h'] eqn:Er.
  pose proof (receive_staged dest max_bytes es h r h' W Hp Hnone Er) as Hr. destruct r as [[total mode]|e]; [|done].
  destruct Hr as (Hrep & l & data & m & Hen & Hl & Hm & Hd). split; [done|]. exists es, l, data, m.
  destruct (Hd Hu). split_and!; done.
Qed.

Lemma copy_out_passed dial peer guest_path dest max_bytes c h l :
  special_at h dest = Some l -> (max_bytes < u64_max)%N ->
  match copy_out pid umask dial peer guest_path dest max_bytes (c, h) with
  | (Err _, (_, h')) => exists data, passed h l data h'
  | (Ok (total, mode), (_, h')) => exists es data,
      peer (made c) (MkRequest (next_id c) (CopyOut guest_path max_bytes)) = (Written, es) /\
      delivers es data total mode /\ total_ok max_bytes data total /\ passed h l data h'
  end.
Proof.
  intros Hsp Hu. unfold copy_out, connect, write_request, submit, se_bind, se_ret.
  destruct (dial (made c)); [|by exists []; apply passed_nil..]. destruct (peer (made c) _) as [w es] eqn:Epeer.
  destruct w; [|by exists []; apply passed_nil..]. unfold receive.
  destruct (open_copy_out_dest pid umask dest h) as [r1 h1] eqn:Eo.
  pose proof (open_spec _ _ _ _ _ _ Eo) as Ho. destruct r1 as [d|e]; [|exists []; by apply passed_nil].
  destruct d as [lt dest'|l']; [by destruct Ho as (_ & _ & ? & _); congruence|]. destruct Ho as [El Hs].
  rewrite Hsp in El. injection El as <-.
  destruct (copy_loop max_bytes (Direct l) es 0 h1) as [r2 h2] eqn:El.
  destruct (copy_loop_direct _ _ _ _ _ _ _ El) as (data & Hpa & Hok).
  pose proof (passed_trans _ _ _ _ _ _ (passed_nil _ l _ Hs) Hpa) as Hall. cbn [app] in Hall.
  destruct r2 as [[total mode]|e]; [|by exists data]. unfold commit, se_bind, se_ret. exists es, data.
  destruct (Hok total mode) as (Hd & Ht & Hle); [done|done|lia|]. split; [done|]. split; [done|]. split; [|done].
  unfold total_ok. lia.
Qed.
(** C7: a copy is all or nothing.  Whatever the guest sends, wherever the stream stops, and whichever of
    the host's calls fails: when the destination is a regular file or does not exist, an error leaves
    every file of the host, and the tree, as they were — except for the staging file if it cannot be
    unlinked — and success means that the guest sent a whole file of at most [max_bytes], in chunks
    within the protocol's cap, that the destination's entry now is a file of exactly those bytes, with
    the mode the host allows (or the staging file's own), and that nothing else changed. *)
Theorem copy_out_atomic dial peer guest_path dest max_bytes c h :
  host_wf h -> path_wf dest -> special_at h dest = None -> (max_bytes < u64_max)%N ->
  match copy_out pid umask dial peer guest_path dest max_bytes (c, h) with
  | (Err _, (_, h')) => same h h' \/ left_over h h'
  | (Ok (total, mode), (_, h')) => replaceable h dest /\
      exists es l data m, peer (made c) (MkRequest (next_id c) (CopyOut guest_path max_bytes)) = (Written, es) /\
        delivers es data total mode /\ total_ok max_bytes data total /\
        entry_at (tree h) dest = Ok l /\ landed h l data m h' /\
        (m = host_mode_for mode \/ m = N.ldiff 384 umask)
  end.
Proof. exact (copy_out_staged dial peer guest_path dest max_bytes c h). Qed.

(** A device or a FIFO is written through: it gets the bytes of the accepted chunks as they come, an
    error notwithstanding, and neither it, its mode nor anything else of the host is replaced. *)
Theorem copy_out_through dial peer guest_path dest max_bytes c h l :
  special_at h dest = Some l -> (max_bytes < u64_max)%N ->
  match copy_out pid umask dial peer guest_path dest max_bytes (c, h) with
  | (Err _, (_, h')) => exists data, passed h l data h'
  | (Ok (total, mode), (_, h')) => exists es data,
      peer (made c) (MkRequest (next_id c) (CopyOut guest_path max_bytes)) = (Written, es) /\
      delivers es data total mode /\ total_ok max_bytes data total /\ passed h l data h'
  end.
Proof. exact (copy_out_passed dial peer guest_path dest max_bytes c h l). Qed.

End atomic.

(** ** Modes and names *)

(** The mode of a copied file: the guest's permission bits without the write bits of the group and
    of others, with the owner's read and write; no setuid, setgid, sticky or other bit ever. *)
Theorem host_mode_for_spec guest_mode i :
  N.testbit (host_mode_for guest_mode) i =
  ((i =? 7)%N || (i =? 8)%N || ((i <? 9)%N && negb (i =? 1)%N && negb (i =? 4)%N && N.testbit guest_mode i)).
Proof.
  unfold host_mode_for. rewrite N.lor_spec, N.ldiff_spec, N.land_spec.
  destruct (N.ltb_spec i 9) as [Hi|Hi].
  - assert (Hc : (i = 0 \/ i = 1 \/ i = 2 \/ i = 3 \/ i = 4 \/ i = 5 \/ i = 6 \/ i = 7 \/ i = 8)%N) by lia.
    repeat (destruct Hc as [->|Hc]); try subst i; cbn; by destruct (N.testbit guest_mode _).
  - rewrite (N.bits_above_log2 511 i), (N.bits_above_log2 384 i) by (cbn; lia). rewrite andb_false_r.
    destruct (N.eqb_spec i 7); [lia|]. destruct (N.eqb_spec i 8); [lia|]. done.
Qed.

Lemma show_go_length f n acc k : (n < 10 ^ N.of_nat k)%N -> (0 < k)%nat -> (length (show_go f n acc) <= k + length acc)%nat.
Proof.
  revert n acc k. induction f as [|f IH]; intros n acc k Hn Hk; cbn [show_go]; [lia|].
  destruct (N.eqb_spec (n / 10) 0) as [|Hd]; [cbn; lia|]. destruct k as [|[|k]]; [lia| |].
  - exfalso. apply Hd, N.div_small. cbn in Hn. lia.
  - specialize (IH (n / 10)%N (digit (n mod 10) :: acc) (S k)). cbn [length] in IH. rewrite Nat2N.inj_succ, N.pow_succ_r' in Hn.
    assert (n / 10 < 10 ^ N.of_nat (S k))%N by (apply N.Div0.div_lt_upper_bound; lia). specialize (IH ltac:(done) ltac:(lia)). lia.
Qed.

Lemma walk_back_le base k : (walk_back base k <= k)%nat.
Proof. induction k as [|k IH]; cbn [walk_back]; [lia|]. destruct (is_char_boundary base (S k)); lia. Qed.

Lemma walk_back_boundary base k : is_char_boundary base (walk_back base k) = true.
Proof.
  induction k as [|k IH]; cbn [walk_back]; [unfold is_char_boundary; by destruct base|].
  by destruct (is_char_boundary base (S k)) eqn:E.
Qed.

Lemma split_last {c : ascii} {a b a' b'} : a ++ c :: b = a' ++ c :: b' -> c ∉ b -> c ∉ b' -> a = a' /\ b = b'.
Proof.
  intros E Hb Hb'. assert (H1 : rsplit_once c (a ++ c :: b) = Some (a, b)) by by apply rsplit_once_Some.
  assert (H2 : rsplit_once c (a ++ c :: b) = Some (a', b')) by (rewrite E; by apply rsplit_once_Some). split; congruence.
Qed.

Lemma digits_no c n : is_ascii_digit c = false -> c ∉ show_N n.
Proof.
  intros Hc Hin. pose proof (show_N_digits n) as Hd. rewrite forallb_forall in Hd. apply list_elem_of_In in Hin.
  apply Hd in Hin. congruence.
Qed.

(** The staging file's name: hidden, as long as the kernel allows at most, the destination's name cut
    at a character, and never the name another copy of the host's processes uses — it tells the
    process and the sequence number. *)
Theorem stage_name_spec base pid n :
  (pid <= u32_max)%N -> (n <= u64_max)%N ->
  let k := length (clamp_stage_base base (length (stage_suffix pid n))) in
  stage_name base pid n = B "." ++ take k base ++ stage_suffix pid n /\
  (length (stage_name base pid n) <= NAME_MAX)%nat /\
  is_char_boundary base k = true /\
  (length base + length (stage_suffix pid n) < NAME_MAX -> k = length base)%nat /\
  (forall base' pid' n', stage_name base' pid' n' = stage_name base pid n -> pid' = pid /\ n' = n).
Proof.
  intros Hp Hn. cbn zeta. set (suffix := stage_suffix pid n).
  assert (Hs : (length suffix <= 48)%nat).
  { unfold suffix, stage_suffix. rewrite !length_app. cbn [length].
    pose proof (show_go_length (S (N.size_nat pid)) pid [] 10) as H1. pose proof (show_go_length (S (N.size_nat n)) n [] 20) as H2.
    unfold show_N. cbn [length] in *. specialize (H1 ltac:(unfold u32_max in Hp; cbn; lia) ltac:(lia)).
    specialize (H2 ltac:(unfold u64_max in Hn; cbn; lia) ltac:(lia)). change (length (B ".isopod-")) with 8%nat. change (length (B "-")) with 1%nat.
    change (length (B ".part")) with 5%nat. lia. }
  set (m := Nat.min (NAME_MAX - (length suffix + 1)) (length base)).
  assert (Hk : length (clamp_stage_base base (length suffix)) = walk_back base m).
  { unfold clamp_stage_base. rewrite length_take. pose proof (walk_back_le base m). fold m. unfold m in *. lia. }
  split; [unfold stage_name; fold suffix; rewrite Hk; done|]. pose proof (walk_back_le base m) as Hle. rewrite Hk.
  split; [|split; [apply walk_back_boundary|split]].
  - unfold stage_name. fold suffix. rewrite !length_app, Hk. change (length (B ".")) with 1%nat. unfold m, NAME_MAX in *. lia.
  - intros Hfit. assert (m = length base) as -> by (unfold m; lia). destruct base as [|a base]; [done|]. cbn [length walk_back].
    assert (is_char_boundary (a :: base) (S (length base)) = true) as ->; [|done].
    unfold is_char_boundary. rewrite (proj2 (lookup_ge_None (a :: base) (S (length base)))) by done. apply Nat.eqb_refl.
  - intros base' pid' n'. unfold stage_name, stage_suffix. intros E.
    assert (Hd : forall b (p q : N), B "." ++ b ++ B ".isopod-" ++ show_N p ++ B "-" ++ show_N q ++ B ".part"
      = ((B "." ++ b ++ B ".isopod-" ++ show_N p ++ B "-" ++ show_N q) ++ "."%char :: B "part")) by (intros; by rewrite <- !app_assoc).
    rewrite !Hd in E. apply split_last in E as [E _]; [|by apply (bool_decide_eq_true_1 ("."%char ∉ B "part")); vm_compute..]. rewrite !app_assoc in E.
    assert (Hd2 : forall u (p q : N), ((u ++ show_N p) ++ B "-") ++ show_N q = (u ++ show_N p) ++ "-"%char :: show_N q) by (intros; by rewrite <- !app_assoc).
    rewrite !Hd2 in E. apply split_last in E as [E En]; [|by apply digits_no..]. apply show_N_inj in En.
    assert (Hd3 : forall u (p : N), (u ++ B ".isopod-") ++ show_N p = (u ++ B ".isopod") ++ "-"%char :: show_N p) by (intros; by rewrite <- !app_assoc).
    rewrite !Hd3 in E. apply split_last in E as [_ E]; [|by apply digits_no..]. by apply show_N_inj in E.
Qed.

(** ** A copy that succeeds *)

Lemma entry_file fs lt p l : nodes fs !! lt = None -> lt <> [] -> entry_at fs p = Ok l -> entry_at (with_file fs lt) p = Ok l.
Proof.
  unfold entry_at. intros Hf Hne. destruct (too_long _); [done|]. destruct (last p) as [[| | |n]|]; try done.
  intros (d & Hd & (u & Hu & Hl)%rbind_Ok)%rbind_Ok. cbn [with_file cwd nodes].
  assert (Hup : match removelast p with [] => match cwd fs with Some d => Ok d | None => Err ENOENT end
    | up => resolve Follow (with_file fs lt) up end = Ok d).
  { destruct (removelast p) as [|c up]; [done|]. revert Hd. unfold resolve. cbn [with_file cwd nodes].
    destruct c; [|destruct (cwd fs); [|done]..]; by apply walk_file. }
  rewrite Hup. cbn [rbind]. by rewrite (proj2 (search_file _ _ Hf d u) Hu).
Qed.

Section completes.
Context `{Base64} (pid umask : N).

(** No call on the host fails. *)
Definition reliable (h : Host) : Prop := script h = [].

Lemma attempt_reliable h : reliable h -> attempt h = (Ok tt, h).
Proof. unfold reliable, attempt. by intros ->. Qed.

Lemma copy_loop_delivers max_bytes lt dest es data total mode : delivers es data total mode -> forall written h,
  reliable h -> total = (written + N.of_nat (length data))%N -> (total <= max_bytes)%N -> (max_bytes < u64_max)%N ->
  exists h', copy_loop max_bytes (Staged lt dest) es written h = (Ok (total, mode), h') /\ reliable h'.
Proof.
  induction 1 as [id total mode es|id text x es data total mode Ex Hlen Hd IH]; intros written h Hr Ht Hm Hu; cbn [copy_loop body].
  - cbn in Ht. assert (written = total) as -> by lia. rewrite N.eqb_refl. cbn [negb]. unfold se_bind, se_ret. rewrite attempt_reliable by done.
    by exists h.
  - rewrite length_app in Ht. rewrite Ex. destruct (N.ltb_spec EXEC_CHUNK_LEN (N.of_nat (length x))); [lia|].
    assert (Hs : sat_add written (N.of_nat (length x)) = (written + N.of_nat (length x))%N) by (unfold sat_add; lia). rewrite Hs.
    destruct (N.ltb_spec max_bytes (written + N.of_nat (length x))); [lia|]. unfold se_bind, dest_write. rewrite attempt_reliable by done.
    apply IH; [done|lia|lia|done].
Qed.

Lemma receive_completes dest max_bytes es data total mode h l lt name :
  reliable h -> host_wf h -> replaceable h dest -> entry_at (tree h) dest = Ok l ->
  file_name (std_path dest) = Some name ->
  entry_at (tree h) (match parent (std_path dest) with Some (_ :: _ as p) => p | _ => [CurDir] end ++
    [Normal (stage_name (from_utf8_lossy name) pid (stage_seq h))]) = Ok lt ->
  nodes (tree h) !! lt = None ->
  delivers es data total mode -> total_ok max_bytes data total -> (max_bytes < u64_max)%N ->
  exists h', receive pid umask dest max_bytes es h = (Ok (total, mode), h').
Proof.
  intros Hr W Hrep Hen Hname Hlt Hfree Hd [Ht Hm] Hu.
  assert (Hopen : exists h1, open_copy_out_dest pid umask dest h = (Ok (Staged lt dest), h1) /\ reliable h1 /\
    staging h lt [] (N.ldiff 384 umask) h1).
  { assert (Hstage : exists h1, stage_copy_out pid umask dest h = (Ok (Staged lt dest), h1) /\ reliable h1 /\ staging h lt [] (N.ldiff 384 umask) h1).
    { assert (exists h1, stage_copy_out pid umask dest h = (Ok (Staged lt dest), h1) /\ reliable h1) as (h1 & E & Hr1).
      { unfold stage_copy_out. rewrite Hname. unfold se_bind, se_ret, create_new. cbn [tree]. rewrite Hlt, Hfree.
        unfold se_bind. rewrite attempt_reliable by done. by eexists. }
      exists h1. split; [done|]. split; [done|]. apply stage_spec in E as (lt' & name' & [= <-] & _ & _ & Hst). done. }
    unfold open_copy_out_dest. unfold replaceable in Hrep. destruct (resolve_at NoFollow (tree h) dest) as [l'|e]; [|by subst e].
    destruct Hrep as [n ->]. unfold se_bind. by rewrite !attempt_reliable by done. }
  destruct Hopen as (h1 & Eo & Hr1 & Hst). unfold receive. rewrite Eo.
  destruct (copy_loop_delivers max_bytes lt dest es data total mode Hd 0 h1) as (h2 & El & Hr2); [done|lia|lia|done|].
  rewrite El. destruct (copy_loop_staged _ _ _ _ _ _ _ _ _ _ _ Hst El) as (data' & Hst2 & _). unfold se_bind, se_ret, commit.
  rewrite attempt_reliable by done. cbn [is_ok]. set (h3 := set_files _ h2).
  assert (Hren : exists h4, rename lt dest h3 = (Ok tt, h4)).
  { unfold rename. change (tree h3) with (tree h2). destruct Hst2 as [_ Hb Ht2 _ _ _]. rewrite Ht2.
    rewrite (entry_file _ _ _ _ Hfree Hb Hen). cbn [with_file nodes].
    assert (Hnd : forall b, <[lt := File 1]> (nodes (tree h)) !! l <> Some (Dir b)).
    { intros b E. destruct (decide (lt = l)) as [->|Hne]; [by rewrite lookup_insert_eq in E|]. rewrite lookup_insert_ne in E by done.
      unfold replaceable in Hrep. rewrite (nofollow_entry _ _ _ Hen), E in Hrep. destruct Hrep as [n Hn].
      pose proof (entry_below _ _ _ Hen). unfold node_at in Hn. destruct l; congruence. }
    unfold se_bind. rewrite attempt_reliable by done.
    destruct (_ !! l) as [[]|] eqn:E; try by eexists. exfalso. by eapply Hnd. }
  destruct Hren as [h4 ->]. by exists h4.
Qed.

(** An honest copy succeeds.  When nothing on the host fails, the destination is a regular file or
    missing, its directory can be searched and the staging name is free there, then a guest that
    sends a whole file of at most [max_bytes] has it copied. *)
Theorem copy_out_completes dest max_bytes es data total mode h l lt name :
  reliable h -> host_wf h -> replaceable h dest -> entry_at (tree h) dest = Ok l ->
  file_name (std_path dest) = Some name ->
  entry_at (tree h) (match parent (std_path dest) with Some (_ :: _ as p) => p | _ => [CurDir] end ++
    [Normal (stage_name (from_utf8_lossy name) pid (stage_seq h))]) = Ok lt ->
  nodes (tree h) !! lt = None ->
  delivers es data total mode -> total_ok max_bytes data total -> (max_bytes < u64_max)%N ->
  exists h', receive pid umask dest max_bytes es h = (Ok (total, mode), h').
Proof. exact (receive_completes dest max_bytes es data total mode h l lt name). Qed.
End completes.

(** ** Behind the policy of the MCP server *)

Lemma safe_above nodes d n : safe nodes (d ++ [n]) -> safe nodes d.
Proof. intros Hs p m q E Hp. apply (Hs p m (q ++ [n])); [|done]. by rewrite E, <- app_assoc. Qed.

Lemma entry_canon_safe fs l q : safe (nodes fs) l -> entry_at fs (canon l) = Ok q -> q = l.
Proof.
  intros Hs. destruct l as [|n d _] using rev_ind; [done|]. unfold entry_at. destruct (too_long _); [done|]. destruct (last_canon d n) as [-> ->].
  intros (d' & Hd & (u & _ & [= <-])%rbind_Ok)%rbind_Ok. apply safe_above in Hs.
  change (canon d) with (RootDir :: map Normal d) in Hd. apply (canon_safe Follow) in Hd; [by subst|done].
Qed.

Lemma canon_wf l : path_wf (canon l).
Proof. unfold path_wf, canon. cbn. apply Forall_map, Forall_forall. done. Qed.

(** C11: the artifact channel stays inside the policy.  A copy to a destination the server's check
    accepted — of fewer than [PATH_MAX] bytes, the tree having since grown by files and directories but
    by no link, on a host where a staging file can be unlinked again — touches, on every outcome and
    for every guest, no place of the host but the one the check resolved the destination to, and that
    place is under the confinement root and not in isopod's state directory. *)
Theorem checked_copy_out_confined `{Base64} pid umask io fs home raw p dial peer guest_path max_bytes c h :
  fs_wf fs -> askable fs raw -> check io fs home raw Write = Some (Ok p) -> grown fs (tree h) -> host_wf h -> removable h = true ->
  (max_bytes < u64_max)%N ->
  exists l, p = canon l /\ (forall r, root io = Some r -> r `prefix_of` p) /\ (forall s, state_dir fs home = Some s -> ~ s `prefix_of` p) /\
    let h' := snd (snd (copy_out pid umask dial peer guest_path p max_bytes (c, h))) in
    forall l', l' <> l -> nodes (tree h') !! l' = nodes (tree h) !! l' /\ files h' !! l' = files h !! l' /\ delivered h' !! l' = delivered h !! l'.
Proof.
  intros W Ha Hc Hg Hh Hrm Hu. apply check_safe in Hc as (_ & l & -> & Hs & Hroot & Hst & _); [|done|done]. exists l.
  split_and!; [done..|]. intros h' l' Hne. pose proof (safe_grown _ _ _ W Hg Hs) as Hs'. subst h'.
  destruct (special_at h (canon l)) as [ls|] eqn:Esp.
  - assert (ls = l) as ->.
    { unfold special_at in Esp. destruct (resolve_at NoFollow (tree h) (canon l)) as [q|] eqn:Eq; [|done].
      apply resolve_canon_safe in Eq; [|done]. subst q. destruct (node_at _ l) as [[]|]; congruence. }
    assert (Hp : exists data, passed h l data (snd (snd (copy_out pid umask dial peer guest_path (canon l) max_bytes (c, h))))).
    { pose proof (copy_out_passed pid umask dial peer guest_path (canon l) max_bytes c h l Esp Hu) as Hp.
      destruct (copy_out _ _ _ _ _ _ _ _) as [[[]|] [? ?]]; [destruct Hp as (? & data & _ & _ & _ & Hp)|destruct Hp as (data & Hp)]; by exists data. }
    destruct Hp as [data [Ht Hf _ Ho]]. rewrite Ht, Hf, Ho by done. done.
  - pose proof (copy_out_staged pid umask dial peer guest_path (canon l) max_bytes c h Hh (canon_wf l) Esp Hu) as Hp.
    destruct (copy_out _ _ _ _ _ _ _ _) as [[[total mode]|e] [c' h']]; cbn [snd].
    + destruct Hp as (_ & es & q & data & m & _ & _ & _ & Hen & [Ht Hf Hd] & _). apply entry_canon_safe in Hen; [|done]. subst q.
      rewrite Ht, Hf, Hd. cbn [with_file nodes]. by rewrite !lookup_insert_ne.
    + destruct Hp as [[Ht Hf Hd _]|[Hno _]]; [by rewrite Ht, Hf, Hd|congruence].
Qed.

(** ** Concrete copies *)

Definition demo_host : Host := MkHost demo_fs {[ [B "w"; B "f"] := (B "old", 420%N) ]} ∅ 0 [] true.

Lemma demo_host_wf : host_wf demo_host.
Proof.
  intros l [x Hl]. cbn [demo_host files] in Hl. apply lookup_singleton_Some in Hl as [<- _]. by exists 1%N.
Qed.

(** Two chunks, then what is given. *)
Definition sender (last : ResponseBody) (asked : list Request) (r : Request) : Wrote * list Event :=
  (Written, map (fun b => Got (MkResponse (req_id r) b)) [FileChunk (B "ne"); FileChunk (B "w"); last]).

Definition demo_copy (h : Host) (dest : bytes) (last : ResponseBody) : result (N * N) AgentError * (Client * Host) :=
  @copy_out verbatim 7 18 (fun _ => Connected) (sender last) (B "/root/out") (kernel_components dest) 10 (client_new, h).

(** A setuid file lands without the bit; a byte count that is off, a chunk over the ceiling and a failed
    [rename] leave what was there; a link is not written through. *)
Example copies :
  fst (demo_copy demo_host (B "f") (FileDone 3 2541)) = Ok (3%N, 2541%N) /\
  files (snd (snd (demo_copy demo_host (B "f") (FileDone 3 2541)))) !! [B "w"; B "f"] = Some (B "new", 493%N) /\
  fst (demo_copy demo_host (B "f") (FileDone 2 2541)) = Err Unexpected /\
  files (snd (snd (demo_copy demo_host (B "f") (FileDone 2 2541)))) = files demo_host /\
  fst (demo_copy demo_host (B "f") (FileChunk (B "too much"))) = Err Unexpected /\
  fst (demo_copy (MkHost demo_fs (files demo_host) ∅ 0 [true; true; true; true; true; true; true; false] true) (B "f") (FileDone 3 2541)) = Err Io /\
  fst (demo_copy demo_host (B "out") (FileDone 3 2541)) = Err Io.
Proof. by vm_compute. Qed.

Lemma demo_replaced : resolve_at NoFollow demo_fs (kernel_components (B "f")) = Ok [B "w"; B "f"].
Proof. by vm_compute. Qed.

Lemma copy_out_atomic_witness :
  let h' := snd (snd (demo_copy demo_host (B "f") (FileDone 3 2541))) in
  fst (demo_copy demo_host (B "f") (FileDone 3 2541)) = Ok (3%N, 2541%N) /\
  exists m, landed demo_host [B "w"; B "f"] (B "new") m h' /\ (m = host_mode_for 2541 \/ m = N.ldiff 384 18).
Proof.
  intros h'.
  pose proof (@copy_out_atomic verbatim 7 18 (fun _ => Connected) (sender (FileDone 3 2541)) (B "/root/out") (kernel_components (B "f")) 10
    client_new demo_host demo_host_wf (kernel_components_wf _) eq_refl eq_refl) as Hc.
  assert (Er : fst (demo_copy demo_host (B "f") (FileDone 3 2541)) = Ok (3%N, 2541%N)) by (vm_compute; reflexivity).
  unfold demo_copy in *. subst h'. destruct (@copy_out _ _ _ _ _ _ _ _ _) as [r [c' h']]. cbn [fst snd] in *. subst r. split; [done|].
  destruct Hc as (_ & es & l & data & m & He & Hd & Ht & Hl & Hla & Hm).
  assert (El : entry_at (tree demo_host) (kernel_components (B "f")) = Ok [B "w"; B "f"]) by (vm_compute; reflexivity).
  rewrite El in Hl. injection Hl as <-. exists m. split; [|done].
  injection He as <-. cbn [sender map] in Hd.
  inversion Hd as [|? ? x1 ? d1 ? ? E1 _ Hd1]; subst. inversion Hd1 as [|? ? x2 ? d2 ? ? E2 _ Hd2]; subst.
  inversion Hd2; subst. cbn in E1, E2. injection E1 as <-. injection E2 as <-. exact Hla.
Defined.

(** [/w/null] is a device. *)
Definition device_host : Host :=
  MkHost (MkHostFs (<[ [B "w"; B "null"] := Special ]> (nodes demo_fs)) (cwd demo_fs)) ∅ ∅ 0 [] true.

Lemma copy_out_through_witness :
  special_at device_host (kernel_components (B "null")) = Some [B "w"; B "null"] /\
  exists data, passed device_host [B "w"; B "null"] data (snd (snd (demo_copy device_host (B "null") (FileDone 9 420)))).
Proof.
  assert (Hs : special_at device_host (kernel_components (B "null")) = Some [B "w"; B "null"]) by (vm_compute; reflexivity).
  split; [exact Hs|].
  pose proof (@copy_out_through verbatim 7 18 (fun _ => Connected) (sender (FileDone 9 420)) (B "/root/out") (kernel_components (B "null")) 10
    client_new device_host [B "w"; B "null"] Hs eq_refl) as Hc.
  unfold demo_copy. destruct (@copy_out _ _ _ _ _ _ _ _ _) as [[[t m]|e] [c' h']]; cbn [snd].
  - destruct Hc as (es & data & _ & _ & _ & Hp). by exists data.
  - exact Hc.
Defined.

Lemma copy_out_completes_witness :
  exists h', @receive verbatim 7 18 (kernel_components (B "f")) 10 (snd (sender (FileDone 3 420) [] (MkRequest 1 Ping))) demo_host = (Ok (3%N, 420%N), h').
Proof.
  refine (@copy_out_completes verbatim 7 18 (kernel_components (B "f")) 10 _ (B "new") 3 420 demo_host [B "w"; B "f"]
    [B "w"; B ".f.isopod-7-0.part"] (B "f") eq_refl demo_host_wf _ _ eq_refl _ eq_refl _ _ eq_refl).
  - unfold replaceable. cbn [tree demo_host]. rewrite demo_replaced. by exists 1%N.
  - by vm_compute.
  - by vm_compute.
  - apply (@delivers_chunk verbatim 1 (B "ne") (B "ne") _ (B "w")); [done|by vm_compute|].
    apply (@delivers_chunk verbatim 1 (B "w") (B "w") _ []); [done|by vm_compute|]. constructor.
  - split; by vm_compute.
Defined.

Lemma stage_name_spec_witness :
  stage_name (B "out") 7 0 = B ".out.isopod-7-0.part" /\ (length (stage_name (B "out") 7 0) <= NAME_MAX)%nat.
Proof.
  split; [vm_compute; reflexivity|].
  exact (proj1 (proj2 (stage_name_spec (B "out") 7 0 ltac:(by vm_compute) ltac:(by vm_compute)))).
Defined.

Lemma demo_askable : askable demo_fs (B "f").
Proof. intros q Hq. vm_compute in Hq. injection Hq as <-. by vm_compute. Qed.

Lemma checked_copy_out_confined_witness :
  check demo_io demo_fs (Some (B "/h")) (B "f") Write = Some (Ok (canon [B "w"; B "f"])) /\
  exists l, canon [B "w"; B "f"] = canon l /\ canon [B "w"] `prefix_of` canon l.
Proof.
  assert (E : check demo_io demo_fs (Some (B "/h")) (B "f") Write = Some (Ok (canon [B "w"; B "f"]))) by (vm_compute; reflexivity).
  split; [exact E|].
  destruct (@checked_copy_out_confined verbatim 7 18 demo_io demo_fs (Some (B "/h")) (B "f") _ (fun _ => Connected) (sender OkBody) (B "/root/out") 10
    client_new demo_host demo_fs_wf demo_askable E) as (l & El & Hr & _); [by split|exact demo_host_wf|reflexivity|reflexivity|].
  exists l. split; [exact El|]. rewrite <- El. by apply Hr.
Defined.
