(* ===== verification/Server.v ===== *)
(** * The guest's server ([crates/guest-agent/src/server.rs], [exec.rs], [conn.rs])

    What the agent in the guest does with each request, and what it puts on the connection: a command
    with its two output pumps, the file transfers, the clock, the network and the halt.

    The guest's kernel is a parameter: [FsOps] for files, [ExecWorld] for one command — its reads in the
    order they return and the order in which the two pump threads get to run.  Texts of the operating
    system's errors are what the parameter says, and the length of a response's JSON what [JsonLen] says:
    a frame over the cap is refused ([write_frame] of [proto/src/frame.rs]), and not sent. *)
From S2P Require Import Prelude Text Effects.
From S2P Require GuestSys GuestNet Reaper Frame.
From S2P Require Import Rpc.
From S2P Require Agent CopyOut.

(** ** The connection *)

(** What the host receives, and whether the next sends succeed: all do when the script ends. *)
Record Conn : Type := MkConn { wire : list Response; sends : list bool }.

Section send.
Context `{JsonLen}.

(** [write_frame] refuses a message longer than the cap before it writes any of it. *)
Definition send (r : Response) (c : Conn) : bool * Conn :=
  if (Frame.MAX_FRAME_LEN <? json_len r)%N then (false, c)
  else
    match sends c with
    | [] => (true, MkConn (wire c ++ [r]) [])
    | true :: s => (true, MkConn (wire c ++ [r]) s)
    | false :: s => (false, MkConn (wire c) s)
    end.

(** [let _ = conn.send(..)]: a refusal is passed over. *)
Definition send_ (r : Response) (c : Conn) : Conn := snd (send r c).

(** [server::reply] *)
Definition reply (id : N) (res : result ResponseBody bytes) (c : Conn) : Conn :=
  send_ (MkResponse id (match res with Ok b => b | Err e => ErrorBody e end)) c.
End send.

(** What a read of a pipe or a file returns. *)
Inductive Read : Type := Data (chunk : bytes) | ReadEof | ReadInterrupted | ReadFails (e : bytes).

(** ** Exec *)

Definition BASE_ENV : list (bytes * bytes) :=
  [(B "PATH", B "/usr/sbin:/usr/bin:/sbin:/bin"); (B "HOME", B "/root"); (B "TERM", B "linux")].
Definition DEFAULT_CWD : bytes := B "/root".

Definition NUL : ascii := ascii_of_N 0.
Definition has (c : ascii) (s : bytes) : bool := existsb (Ascii.eqb c) s.

Definition validate_env_pair (debug_str : bytes -> bytes) (k v : bytes) : result unit bytes :=
  if beq k [] then Err (B "environment variable name must not be empty")
  else if has "=" k || has NUL k then
    Err (B "invalid environment variable name " ++ debug_str k ++ B ": must not contain '=' or NUL")
  else if has NUL v then Err (B "invalid value for environment variable " ++ k ++ B ": must not contain NUL")
  else Ok tt.

(** What is started: [Command]'s environment is a map. *)
Record Cmd : Type := MkCmd {
  program : bytes; args : list bytes; environ : gmap bytes bytes; current_dir : bytes; stdin_piped : bool }.

(** A receive on the channel from the reaper. *)
Inductive Recv : Type := Received (r : Reaper.WaitResult) | TimedOut | Disconnected.

Record ExecWorld : Type := MkWorld {
  cwd_meta : bytes -> result bool bytes;      (** whether it is a directory *)
  spawn : Cmd -> result Z bytes;              (** the process's id *)
  first_recv : Recv;
  second_recv : option Reaper.WaitResult;     (** after the group was killed *)
  out_reads : list Read; err_reads : list Read;  (** a read after the last one does not return *)
  turns : list ExecStreamKind;                (** whose turn it is, each time a pump runs *)
  elapsed_ms : N }.

Section exec.
Context `{JsonLen} (debug_str : bytes -> bytes).

Definition set_env (e : gmap bytes bytes) (kv : bytes * bytes) : gmap bytes bytes := <[fst kv := snd kv]> e.

Fixpoint set_request_env (pairs : list (bytes * bytes)) (e : gmap bytes bytes) : result (gmap bytes bytes) bytes :=
  match pairs with
  | [] => Ok e
  | (k, v) :: pairs => let? _ := validate_env_pair debug_str k v in set_request_env pairs (<[k := v]> e)
  end.

(** Everything up to the spawn. *)
Definition command (proxy : list (bytes * bytes)) (w : ExecWorld) (req : ExecRequest) : result Cmd bytes :=
  match argv req with
  | [] => Err (B "empty argv")
  | program :: args =>
      let? env := set_request_env (exec_env req) (fold_left set_env proxy (fold_left set_env BASE_ENV ∅)) in
      let dir := default DEFAULT_CWD (cwd req) in
      let? _ := match cwd_meta w dir with
                | Ok true => Ok tt
                | Ok false => Err (B "cwd '" ++ dir ++ B "': not a directory")
                | Err e => Err (B "cwd '" ++ dir ++ B "': " ++ e)
                end in
      Ok (MkCmd program args env dir (match stdin_b64 req with Some _ => true | None => false end))
  end.

(** One turn of [stream_reader]: [None] when it has ended. *)
Definition pump_turn (id : N) (kind : ExecStreamKind) (p : option (list Read)) (c : Conn) : option (list Read) * Conn :=
  match p with
  | None => (None, c)
  | Some [] => (Some [], c)
  | Some (ReadEof :: _) | Some (ReadFails _ :: _) => (None, c)
  | Some (ReadInterrupted :: rs) => (Some rs, c)
  | Some (Data x :: rs) =>
      let '(ok, c) := send (MkResponse id (ExecStream kind (b64_encode x))) c in
      (if ok then Some rs else None, c)
  end.

Abbreviation Pumps := (option (list Read) * option (list Read))%type.

Fixpoint run_pumps (id : N) (turns : list ExecStreamKind) (p : Pumps) (c : Conn) : Pumps * Conn :=
  match turns with
  | [] => (p, c)
  | Stdout :: ts => let '(o, c) := pump_turn id Stdout (fst p) c in run_pumps id ts (o, snd p) c
  | Stderr :: ts => let '(e, c) := pump_turn id Stderr (snd p) c in run_pumps id ts (fst p, e) c
  end.

(** The wait: the status, whether the time-out fired, and whether the group was killed. *)
Definition await_exit (timeout_ms : option N) (pid : Z) (w : ExecWorld) : Reaper.WaitResult * bool :=
  match timeout_ms, first_recv w with
  | _, Received r => (r, false)
  | Some _, TimedOut => (default (Reaper.MkWaitResult pid None (Some GuestSys.SIGKILL)) (second_recv w), true)
  | _, _ => (Reaper.MkWaitResult pid None None, false)
  end.

(** [None]: it has not returned yet, a pump being still at work. *)
Definition run_exec (proxy : list (bytes * bytes)) (w : ExecWorld) (id : N) (req : ExecRequest) (c : Conn) :
    option (result unit bytes) * Conn :=
  match command proxy w req with
  | Err e => (Some (Err e), c)
  | Ok cmd =>
      match spawn w cmd with
      | Err e => (Some (Err (program cmd ++ B ": " ++ e)), c)
      | Ok pid =>
          let '(exit, timed_out) := await_exit (timeout_ms req) pid w in
          match run_pumps id (turns w) (Some (out_reads w), Some (err_reads w)) c with
          | ((None, None), c) =>
              let '(ok, c) := send (MkResponse id (ExecDone (Reaper.exit_code exit) (Reaper.signal exit) (elapsed_ms w) timed_out)) c in
              (Some (if ok then Ok tt else Err (B "send")), c)
          | (_, c) => (None, c)
          end
      end
  end.

Definition handle_exec (proxy : list (bytes * bytes)) (w : ExecWorld) (id : N) (req : ExecRequest) (c : Conn) : bool * Conn :=
  match run_exec proxy w id req c with
  | (None, c) => (false, c)
  | (Some (Ok _), c) => (true, c)
  | (Some (Err e), c) =>
      (true,
       match argv req with
       | [] => send_ (MkResponse id (ErrorBody (B "exec: " ++ e))) c
       | _ =>
           send_ (MkResponse id (ExecDone (Some 127%Z) None 0 false))
             (send_ (MkResponse id (ExecStream Stderr (b64_encode (B "isopod-exec: " ++ e ++ [line_feed])))) c)
       end)
  end.
End exec.

(** ** Files *)

Record Meta : Type := MkMeta { is_file : bool; len : N; st_mode : N }.

(** The operations of [std::fs] over the guest's files; errors by their text. *)
Class FsOps (S : Type) : Type := {
  fs_metadata : bytes -> S -> result Meta bytes;
  fs_create_dir_all : bytes -> S -> result unit bytes * S;
  fs_write : bytes -> bytes -> S -> result unit bytes * S;
  fs_set_permissions : bytes -> N -> S -> result unit bytes * S;
  fs_read : bytes -> S -> result bytes bytes;
  fs_open : bytes -> S -> result (list Read) bytes }.

Section files.
Context `{JsonLen} {S : Type} `{FsOps S}.
(** [Path::parent] as text, and the text of a decoding error. *)
Context (parent : bytes -> option bytes) (bad_base64 : bytes -> bytes).

Definition put_file (path : bytes) (mode : N) (data_b64 : bytes) : SE S bytes unit := fun s =>
  match b64_decode data_b64 with
  | None => (Err (bad_base64 data_b64), s)
  | Some data =>
      (do! _ := match parent path with
                | Some (_ :: _ as p) => fs_create_dir_all p
                | _ => se_ret (Ok tt)
                end in
       do! _ := fs_write path data in
       fs_set_permissions path mode) s
  end.

Definition too_large (path : bytes) (len max_bytes : N) : bytes :=
  B "file " ++ path ++ B " is " ++ show_N len ++ B " bytes, exceeds max_bytes " ++ show_N max_bytes.

Definition get_file (path : bytes) (max_bytes : N) (s : S) : result ResponseBody bytes :=
  let? meta := fs_metadata path s in
  if (max_bytes <? len meta)%N then Err (too_large path (len meta) max_bytes)
  else
    let? data := fs_read path s in
    Ok (FileBody (b64_encode data) (st_mode meta)).

Definition open_for_copy_out (path : bytes) (max_bytes : N) (s : S) : result (list Read * N * N) bytes :=
  let? meta := fs_metadata path s in
  if negb (is_file meta) then Err (path ++ B " is not a regular file")
  else if (max_bytes <? len meta)%N then Err (too_large path (len meta) max_bytes)
  else let? reads := fs_open path s in Ok (reads, len meta, st_mode meta).

(** The loop over the reads; a read that does not return leaves it where it is. *)
Fixpoint copy_out_loop (id : N) (path : bytes) (total_bytes mode : N) (reads : list Read) (c : Conn) : Conn :=
  match reads with
  | [] => c
  | ReadEof :: _ => send_ (MkResponse id (FileDone total_bytes mode)) c
  | ReadInterrupted :: rs => copy_out_loop id path total_bytes mode rs c
  | ReadFails e :: _ => reply id (Err (path ++ B ": " ++ e)) c
  | Data x :: rs =>
      let '(ok, c) := send (MkResponse id (FileChunk (b64_encode x))) c in
      if ok then copy_out_loop id path total_bytes mode rs c else c
  end.

Definition copy_out (id : N) (path : bytes) (max_bytes : N) (s : S) (c : Conn) : Conn :=
  match open_for_copy_out path max_bytes s with
  | Err e => reply id (Err e) c
  | Ok (reads, total_bytes, mode) => copy_out_loop id path total_bytes mode reads c
  end.
End files.

(** ** Dispatch *)

(** The calls that have one effect each. *)
Inductive SysCall : Type := SetRealtime (secs nanos : Z) | SetHostnameTo (name : bytes) | SyncDisks | StopVm.

(** [as i64] *)
Definition as_i64 (n : N) : Z := if (n <? 2 ^ 63)%N then Z.of_N n else (Z.of_N n - 2 ^ 64)%Z.

Record Server (S : Type) : Type := MkServer {
  files : S;
  guest : GuestSys.Guest;                       (** calls of the network code *)
  proxy_env : list (bytes * bytes);             (** [PROXY_ENV] *)
  syscalls : list SysCall }.
Arguments MkServer {S}.
Arguments files {S}.
Arguments guest {S}.
Arguments proxy_env {S}.
Arguments syscalls {S}.

Section dispatch.
Context `{JsonLen} {S : Type} `{FsOps S}.
Context (debug_str : bytes -> bytes) (parent : bytes -> option bytes) (bad_base64 : bytes -> bytes).
(** The kernel: the network calls, the single calls, the commands; what a request's failure says. *)
Context (kernel : GuestSys.History -> GuestSys.Call -> GuestSys.Answer) (sys : list SysCall -> SysCall -> result unit bytes)
  (world : Request -> ExecWorld) (net_error : GuestNet.ConfigureError -> bytes).
(** What is fixed at boot. *)
Context (agent_version : bytes) (uptime : list SysCall -> bytes) (assembly_error resolv_error : option bytes).

Definition syscall (k : SysCall) (s : Server S) : result unit bytes * Server S :=
  (sys (syscalls s) k, MkServer (files s) (guest s) (proxy_env s) (syscalls s ++ [k])).

Definition ok_body (r : result unit bytes) : result ResponseBody bytes := let? _ := r in Ok OkBody.

(** [net::configure] on [PROXY_ENV]. *)
Definition configure_net (ip gw : bytes) (dns : list bytes) (broker : option BrokerConfig) (s : Server S) : result unit bytes * Server S :=
  let broker := option_map (fun b => GuestNet.MkBrokerConfig (bc_socks b) (bc_http b) (bc_inject b)) broker in
  let '(env, r, g) := GuestNet.configure kernel ip gw dns broker (guest s) in
  (map_err net_error r, MkServer (files s) g (default (proxy_env s) env) (syscalls s)).

Definition halt (id : N) (sync : bool) (s : Server S) (c : Conn) : Server S * Conn :=
  let c := send_ (MkResponse id OkBody) c in
  let s := if sync then snd (syscall SyncDisks s) else s in
  (snd (syscall StopVm s), c).

(** Whether the request has been dealt with, beside what it did. *)
Definition dispatch (req : Request) (s : Server S) (c : Conn) : bool * Server S * Conn :=
  let id := req_id req in
  match op req with
  | Ping =>
      (true, s, send_ (MkResponse id (PongBody agent_version PROTO_VERSION (uptime (syscalls s)) assembly_error resolv_error)) c)
  | Exec exec_req =>
      let '(ended, c) := handle_exec debug_str (proxy_env s) (world req) id exec_req c in (ended, s, c)
  | SyncClock unix_secs nanos =>
      let '(r, s) := syscall (SetRealtime (as_i64 unix_secs) (as_i64 nanos)) s in (true, s, reply id (ok_body r) c)
  | ConfigureNet ip gw dns broker =>
      let '(r, s) := configure_net ip gw dns broker s in (true, s, reply id (ok_body r) c)
  | PutFile path mode data_b64 =>
      let '(r, fs) := put_file parent bad_base64 path mode data_b64 (files s) in
      (true, MkServer fs (guest s) (proxy_env s) (syscalls s), reply id (ok_body r) c)
  | GetFile path max_bytes => (true, s, reply id (get_file path max_bytes (files s)) c)
  | CopyOut path max_bytes => (true, s, copy_out id path max_bytes (files s) c)
  | SetHostname name => let '(r, s) := syscall (SetHostnameTo name) s in (true, s, reply id (ok_body r) c)
  | Halt sync => let '(s, c) := halt id sync s c in (true, s, c)
  end.

(** [serve_connection]: the requests that come, until one does not end or the connection does. *)
Fixpoint serve_connection (reqs : list Request) (s : Server S) (c : Conn) : Server S * Conn :=
  match reqs with
  | [] => (s, c)
  | req :: reqs =>
      match dispatch req s c with
      | (true, s, c) => serve_connection reqs s c
      | (false, s, c) => (s, c)
      end
  end.
End dispatch.

(** ** What goes on the wire *)

(** A connection that carries everything. *)
Definition open_conn (c : Conn) : Prop := sends c = [].

(** What the reads give before the end. *)
Fixpoint produced (rs : list Read) : bytes :=
  match rs with Data x :: rs => x ++ produced rs | ReadInterrupted :: rs => produced rs | _ => [] end.

(** The buffer has room for [EXEC_CHUNK_LEN] bytes, and a read of none is the end. *)
Definition fits (x : bytes) : Prop := (N.of_nat (length x) <= EXEC_CHUNK_LEN)%N.
Definition buffered (rs : list Read) : Prop := Forall (fun r => match r with Data x => fits x | _ => True end) rs.

Section pumps.
Context `{JsonLen}.

(** Short enough for a frame. *)
Definition sendable (r : Response) : Prop := (json_len r <= Frame.MAX_FRAME_LEN)%N.

Lemma send_open r c : open_conn c -> sendable r -> send r c = (true, MkConn (wire c ++ [r]) []).
Proof. unfold open_conn, send. intros -> Hr. by rewrite (proj2 (N.ltb_ge _ _) Hr). Qed.

Lemma send__open r c : open_conn c -> sendable r -> send_ r c = MkConn (wire c ++ [r]) [].
Proof. intros Ho Hr. unfold send_. by rewrite send_open. Qed.

Lemma send_long r c : ~ sendable r -> send r c = (false, c).
Proof. unfold sendable, send. intros Hr. by rewrite (proj2 (N.ltb_lt _ _)) by lia. Qed.

Lemma plain_sendable r : match body r with ExecDone _ _ _ _ | OkBody | FileDone _ _ => True | _ => False end -> sendable r.
Proof. intros Hr%json_plain. unfold sendable, Frame.MAX_FRAME_LEN. lia. Qed.

Lemma stream_sendable id k x : fits x -> sendable (MkResponse id (ExecStream k (b64_encode x))).
Proof.
  unfold fits, sendable, Frame.MAX_FRAME_LEN, EXEC_CHUNK_LEN. intros Hx. pose proof (json_stream id k x) as Hj.
  assert ((N.of_nat (length x) + 2) / 3 <= 10924)%N by (apply N.Div0.div_le_upper_bound; lia). lia.
Qed.

Lemma chunk_sendable id x : fits x -> sendable (MkResponse id (FileChunk (b64_encode x))).
Proof.
  unfold fits, sendable, Frame.MAX_FRAME_LEN, EXEC_CHUNK_LEN. intros Hx. pose proof (json_chunk id x) as Hj.
  assert ((N.of_nat (length x) + 2) / 3 <= 10924)%N by (apply N.Div0.div_le_upper_bound; lia). lia.
Qed.

Lemma error_sendable id m : (length m <= 1000)%nat -> sendable (MkResponse id (ErrorBody m)).
Proof. intros Hm. pose proof (json_error id m) as Hj. unfold sendable, Frame.MAX_FRAME_LEN. lia. Qed.

Definition exec_frame (id : N) (c : ExecStreamKind * bytes) : Response := MkResponse id (ExecStream (fst c) (b64_encode (snd c))).

(** What a pump has left to forward. *)
Definition left (p : option (list Read)) : bytes := match p with Some rs => produced rs | None => [] end.
Definition pump_ok (p : option (list Read)) : Prop := match p with Some rs => buffered rs | None => True end.

Lemma pump_turn_spec id k p c p' c' : open_conn c -> pump_ok p -> pump_turn id k p c = (p', c') ->
  exists xs, wire c' = wire c ++ map (fun x => exec_frame id (k, x)) xs /\ open_conn c' /\ pump_ok p' /\ Forall fits xs /\
    left p = concat xs ++ left p'.
Proof.
  intros Ho Hp. destruct p as [[|r rs]|]; cbn.
  - intros [= <- <-]. exists []. by rewrite app_nil_r.
  - apply Forall_cons in Hp as [Hr Hrs]. destruct r as [x| | |e].
    + rewrite send_open by (try done; by apply stream_sendable). intros [= <- <-]. exists [x]. cbn. rewrite app_nil_r. split_and!; try done. by constructor.
    + intros [= <- <-]. exists []. by rewrite app_nil_r.
    + intros [= <- <-]. exists []. by rewrite app_nil_r.
    + intros [= <- <-]. exists []. by rewrite app_nil_r.
  - intros [= <- <-]. exists []. by rewrite app_nil_r.
Qed.

Lemma stream_of_app kind cs cs' : Agent.stream_of kind (cs ++ cs') = Agent.stream_of kind cs ++ Agent.stream_of kind cs'.
Proof. unfold Agent.stream_of. by rewrite List.filter_app, map_app, concat_app. Qed.

Lemma stream_of_own kind xs : Agent.stream_of kind (map (pair kind) xs) = concat xs.
Proof.
  unfold Agent.stream_of. induction xs as [|x xs IH]; [done|]. cbn. rewrite bool_decide_eq_true_2 by done. cbn. by rewrite IH.
Qed.

Lemma stream_of_other kind kind' xs : kind <> kind' -> Agent.stream_of kind (map (pair kind') xs) = [].
Proof.
  intros Hne. unfold Agent.stream_of. induction xs as [|x xs IH]; [done|]. cbn. rewrite bool_decide_eq_false_2 by congruence. exact IH.
Qed.

Lemma run_pumps_spec id ts : forall po pe c p' c', open_conn c -> pump_ok po -> pump_ok pe ->
  run_pumps id ts (po, pe) c = (p', c') ->
  exists cs, wire c' = wire c ++ map (exec_frame id) cs /\ open_conn c' /\ Forall (fun x => fits (snd x)) cs /\
    left po = Agent.stream_of Stdout cs ++ left (fst p') /\ left pe = Agent.stream_of Stderr cs ++ left (snd p').
Proof.
  induction ts as [|t ts IH]; intros po pe c p' c' Ho Hpo Hpe; cbn [run_pumps].
  { intros [= <- <-]. exists []. by rewrite app_nil_r. }
  destruct t; cbn [fst snd].
  - destruct (pump_turn id Stdout po c) as [o c1] eqn:Et. destruct (pump_turn_spec _ _ _ _ _ _ Ho Hpo Et) as (xs & Hw & Ho1 & Hp1 & Hx & Hl).
    intros Hr. destruct (IH _ _ _ _ _ Ho1 Hp1 Hpe Hr) as (cs & Hw2 & Ho2 & Hc & Hlo & Hle). exists (map (pair Stdout) xs ++ cs).
    rewrite !stream_of_app, stream_of_own, stream_of_other, map_app, map_map by done. split_and!; [by rewrite Hw2, Hw, <- app_assoc|done| |by rewrite Hl, Hlo, app_assoc|done].
    apply Forall_app. split; [by apply Forall_map|done].
  - destruct (pump_turn id Stderr pe c) as [e c1] eqn:Et. destruct (pump_turn_spec _ _ _ _ _ _ Ho Hpe Et) as (xs & Hw & Ho1 & Hp1 & Hx & Hl).
    intros Hr. destruct (IH _ _ _ _ _ Ho1 Hpo Hp1 Hr) as (cs & Hw2 & Ho2 & Hc & Hlo & Hle). exists (map (pair Stderr) xs ++ cs).
    rewrite !stream_of_app, stream_of_own, stream_of_other, map_app, map_map by done. split_and!; [by rewrite Hw2, Hw, <- app_assoc|done| |done|by rewrite Hl, Hle, app_assoc].
    apply Forall_app. split; [by apply Forall_map|done].
Qed.

(** The host accepts the frames as they are. *)
Lemma accepted_frames id cs rest : Forall (fun x => fits (snd x)) cs ->
  Agent.accepted (map Agent.Got (map (exec_frame id) cs) ++ rest) = (cs ++ fst (Agent.accepted rest), snd (Agent.accepted rest)).
Proof.
  induction 1 as [|[k x] cs Hx Hcs IH]; [cbn [map app]; by destruct (Agent.accepted rest)|]. cbn. rewrite b64_roundtrip.
  rewrite (proj2 (N.leb_le (N.of_nat (length x)) _) Hx). by rewrite IH.
Qed.
End pumps.

(** ** Exec, end to end *)

Section exec_session.
Context `{JsonLen} (debug_str : bytes -> bytes) (proxy : list (bytes * bytes)).

(** What a request comes to, short of its output. *)
Inductive Report : Type := RefusedRequest (message : bytes) | NotStarted (reason : bytes) | Ran (exit : Reaper.WaitResult) (timed_out : bool).

Definition report (w : ExecWorld) (req : ExecRequest) : Report :=
  match argv req with
  | [] => RefusedRequest (B "exec: empty argv")
  | _ =>
      match (let? cmd := command debug_str proxy w req in map_err (fun e => program cmd ++ B ": " ++ e) (spawn w cmd)) with
      | Err e => NotStarted (B "isopod-exec: " ++ e ++ [line_feed])
      | Ok pid => let '(exit, timed_out) := await_exit (timeout_ms req) pid w in Ran exit timed_out
      end
  end.

(** Whether the frame of a reason is short enough to leave the guest. *)
Definition reason_sent (id : N) (reason : bytes) : bool :=
  (json_len (MkResponse id (ExecStream Stderr (b64_encode reason))) <=? Frame.MAX_FRAME_LEN)%N.

(** What the host is to make of request [id]. *)
Definition expected (id : N) (spec : Agent.ExecSpec) (w : ExecWorld) : result Agent.ExecOutcome Agent.AgentError :=
  let capture := Agent.capture_of (Agent.sp_inline_cap spec) in
  match report w (Agent.exec_request spec) with
  | RefusedRequest m => Err (Agent.Guest m)
  | NotStarted reason =>
      if (N.of_nat (length reason) <=? EXEC_CHUNK_LEN)%N then
        Ok (Agent.MkOutcome (Some 127%Z) None 0 false (capture []) (capture reason))
      else if reason_sent id reason then Err (Agent.OversizeChunk (N.of_nat (length reason)))
      else Ok (Agent.MkOutcome (Some 127%Z) None 0 false (capture []) (capture []))
  | Ran exit timed_out =>
      Ok (Agent.MkOutcome (Reaper.exit_code exit) (Reaper.signal exit) (elapsed_ms w) timed_out
        (capture (produced (out_reads w))) (capture (produced (err_reads w))))
  end.

(** The two streams of a request. *)
Definition streams (spec : Agent.ExecSpec) (w : ExecWorld) : bytes * bytes :=
  match report w (Agent.exec_request spec) with
  | RefusedRequest _ => ([], [])
  | NotStarted reason => ([], if (N.of_nat (length reason) <=? EXEC_CHUNK_LEN)%N then reason else [])
  | Ran _ _ => (produced (out_reads w), produced (err_reads w))
  end.

Lemma reason_fits id reason : fits reason -> reason_sent id reason = true.
Proof. intros Hr. apply N.leb_le. by apply stream_sendable. Qed.

(** The frames of a request: chunks the host accepts, each stream whole and in order, then one that
    says how it ended. *)
Lemma handle_exec_frames w id req c c' : open_conn c -> buffered (out_reads w) -> buffered (err_reads w) ->
  handle_exec debug_str proxy w id req c = (true, c') ->
  exists cs b, wire c' = wire c ++ map (exec_frame id) cs ++ [MkResponse id b] /\ open_conn c' /\
    Forall sendable (map (exec_frame id) cs ++ [MkResponse id b]) /\
    match report w req with
    | RefusedRequest m => cs = [] /\ b = ErrorBody m
    | NotStarted reason => cs = (if reason_sent id reason then [(Stderr, reason)] else []) /\ b = ExecDone (Some 127%Z) None 0 false
    | Ran exit timed_out => Forall (fun x => fits (snd x)) cs /\
        Agent.stream_of Stdout cs = produced (out_reads w) /\ Agent.stream_of Stderr cs = produced (err_reads w) /\
        b = ExecDone (Reaper.exit_code exit) (Reaper.signal exit) (elapsed_ms w) timed_out
    end.
Proof.
  intros Ho Hbo Hbe. unfold handle_exec, run_exec, report. destruct (argv req) as [|a l] eqn:Ea.
  { unfold command. rewrite Ea. cbn [snd]. assert (Hs : sendable (MkResponse id (ErrorBody (B "exec: " ++ B "empty argv")))) by (apply error_sendable, Nat.leb_le; by vm_compute).
    rewrite send__open by done. intros [= <-]. exists [], (ErrorBody (B "exec: empty argv")). split_and!; try done. by constructor. }
  assert (Hfail : forall e, (true, send_ (MkResponse id (ExecDone (Some 127%Z) None 0 false))
      (send_ (MkResponse id (ExecStream Stderr (b64_encode (B "isopod-exec: " ++ e ++ [line_feed])))) c)) = (true, c') ->
    exists cs b, wire c' = wire c ++ map (exec_frame id) cs ++ [MkResponse id b] /\ open_conn c' /\
      Forall sendable (map (exec_frame id) cs ++ [MkResponse id b]) /\ cs = (if reason_sent id (B "isopod-exec: " ++ e ++ [line_feed]) then [(Stderr, B "isopod-exec: " ++ e ++ [line_feed])] else []) /\
      b = ExecDone (Some 127%Z) None 0 false).
  { intros e E. unfold reason_sent. destruct (N.leb_spec (json_len (MkResponse id (ExecStream Stderr (b64_encode (B "isopod-exec: " ++ e ++ [line_feed]))))) Frame.MAX_FRAME_LEN) as [Hle|Hgt].
    - rewrite (send__open _ c), send__open in E by (try done; by apply plain_sendable). injection E as <-. eexists _, _. cbn [wire].
      split_and!; [|done| |reflexivity|reflexivity]; [by rewrite <- app_assoc|]. repeat constructor; [exact Hle|by apply plain_sendable].
    - unfold send_ in E at 2. rewrite send_long in E by (unfold sendable; lia). cbn [snd] in E.
      rewrite send__open in E by (try done; by apply plain_sendable). injection E as <-. exists [], (ExecDone (Some 127%Z) None 0 false). split_and!; try done. constructor; [by apply plain_sendable|done]. }
  destruct (command debug_str proxy w req) as [cmd|e]; cbn [rbind]; [|by apply Hfail].
  destruct (spawn w cmd) as [pid|e]; cbn [map_err]; [|by apply Hfail].
  destruct (await_exit (timeout_ms req) pid w) as [exit timed_out].
  destruct (run_pumps id (turns w) (Some (out_reads w), Some (err_reads w)) c) as [[po pe] c1] eqn:Er.
  destruct (run_pumps_spec id (turns w) (Some (out_reads w)) (Some (err_reads w)) _ _ _ Ho Hbo Hbe Er) as (cs & Hw & Ho1 & Hc & Hlo & Hle). cbn [left fst snd] in Hlo, Hle.
  destruct po; [done|]. destruct pe; [done|]. rewrite send_open by (try done; by apply plain_sendable). intros [= <-].
  exists cs. eexists. cbn [left] in *. rewrite app_nil_r in Hlo, Hle. cbn [wire]. split_and!; [by rewrite Hw, <- app_assoc|done| |done|done|done|reflexivity].
  apply Forall_app. split; [|constructor; [by apply plain_sendable|done]]. apply Forall_map. eapply Forall_impl; [exact Hc|]. intros [k x]. apply stream_sendable.
Qed.

(** C4: a command, end to end.  For every request, command and output, whichever pump the guest's threads
    run at each moment: if the guest has dealt with the request, the host's [exec] returns exactly what
    happened — the exit status the reaper gave, whether the time-out fired, and of each of the
    command's streams its first [inline_cap] bytes, its length and, in the log, all of it up to the
    cap — or, when the command could not be started, status 127 with the reason on stderr (a reason
    longer than a chunk makes the host refuse the frame, and one longer than a frame never leaves the
    guest, so that the host has the status alone), or the guest's refusal of an empty command. *)
Theorem exec_end_to_end dial peer spec w o e c c' :
  dial (Agent.made c) = Agent.Connected ->
  buffered (out_reads w) -> buffered (err_reads w) ->
  handle_exec debug_str proxy w (Agent.next_id c) (Agent.exec_request spec) (MkConn [] []) = (true, c') ->
  peer (Agent.made c) (MkRequest (Agent.next_id c) (Exec (Agent.exec_request spec))) = (Agent.Written, map Agent.Got (wire c')) ->
  (Agent.sp_log_cap spec <= u64_max)%N -> o = Console.MkLog [] [] -> e = Console.MkLog [] [] ->
  exists s, Agent.exec dial peer spec (Some o) (Some e) c =
      (Ok (Some (expected (Agent.next_id c) spec w), s), Agent.asked c (Exec (Agent.exec_request spec))) /\
    Agent.sink_holds (fst s) (fst (streams spec w)) /\ Agent.sink_holds (snd s) (snd (streams spec w)).
Proof.
  intros Hdial Hbo Hbe Hh Hpeer Hcap -> ->.
  destruct (handle_exec_frames _ _ _ _ _ (eq_refl : open_conn (MkConn [] [])) Hbo Hbe Hh) as (cs & b & Hw & _ & _ & Hrep). cbn [wire app] in Hw.
  destruct (Agent.exec_runs dial peer spec (Console.MkLog [] []) (Console.MkLog [] []) c _ Hdial Hpeer Hcap eq_refl eq_refl)
    as (r & s & Hex & _ & _ & Hr & Hclean). exists s. destruct Hr as [->|(-> & Hso & Hse)]; [by destruct Hclean|].
  rewrite Hw, map_app in Hso, Hse, Hex. cbn [map] in *. unfold streams, expected.
  destruct (report w (Agent.exec_request spec)) as [m|reason|exit timed_out].
  - destruct Hrep as [-> ->]. split_and!; done.
  - destruct Hrep as [-> ->]. destruct (N.leb_spec (N.of_nat (length reason)) EXEC_CHUNK_LEN) as [Hle|Hgt]; [|destruct (reason_sent (Agent.next_id c) reason)].
    + rewrite reason_fits in * by done. rewrite accepted_frames in Hso, Hse, Hex by by repeat constructor. cbn [fst snd app Agent.accepted] in Hso, Hse, Hex.
      change (Agent.stream_of Stdout [(Stderr, reason)]) with (@nil ascii) in *.
      change (Agent.stream_of Stderr [(Stderr, reason)]) with (reason ++ []) in *. rewrite app_nil_r in *. split_and!; done.
    + assert (Hacc : forall rest, Agent.accepted (map Agent.Got [exec_frame (Agent.next_id c) (Stderr, reason)] ++ rest) =
        ([], map Agent.Got [exec_frame (Agent.next_id c) (Stderr, reason)] ++ rest)).
      { intros rest. cbn. by rewrite b64_roundtrip, (proj2 (N.leb_gt (N.of_nat (length reason)) _) Hgt). }
      cbn [map] in Hacc. rewrite Hacc in Hso, Hse, Hex. cbn [fst snd app Agent.verdict exec_frame body] in Hso, Hse, Hex.
      rewrite b64_roundtrip in Hex. split_and!; done.
    + split_and!; done.
  - destruct Hrep as (Hc & Ho & He & ->). rewrite accepted_frames in Hso, Hse, Hex by done.
    cbn [fst snd app Agent.accepted] in Hso, Hse, Hex. rewrite app_nil_r in *. rewrite Ho, ?He in *. split_and!; done.
Qed.
End exec_session.

(** ** Copying out, end to end *)

(** The reads come to an end of the file, no failure on the way. *)
Fixpoint to_end (rs : list Read) : bool :=
  match rs with Data _ :: rs | ReadInterrupted :: rs => to_end rs | ReadEof :: _ => true | _ => false end.

Section copy_session.
Context `{JsonLen} {S : Type} `{FsOps S}.

Definition chunk_frame (id : N) (x : bytes) : Response := MkResponse id (FileChunk (b64_encode x)).

Lemma copy_out_loop_frames id path total mode rs c : open_conn c -> to_end rs = true -> buffered rs ->
  exists xs, wire (copy_out_loop id path total mode rs c) = wire c ++ map (chunk_frame id) xs ++ [MkResponse id (FileDone total mode)] /\
    open_conn (copy_out_loop id path total mode rs c) /\ concat xs = produced rs /\ Forall fits xs.
Proof.
  revert c. induction rs as [|r rs IH]; intros c Ho He Hb; [done|]. apply Forall_cons in Hb as [Hr Hb].
  cbn [copy_out_loop produced]. destruct r as [x| | |e]; [| | |done].
  - rewrite send_open by (try done; by apply chunk_sendable).
    destruct (IH (MkConn (wire c ++ [MkResponse id (FileChunk (b64_encode x))]) []) eq_refl He Hb) as (xs & Hw & Ho2 & Hc & Hf).
    exists (x :: xs). rewrite Hw. cbn [wire map app concat]. rewrite <- app_assoc, Hc. split_and!; [done..|]. by constructor.
  - rewrite send__open by (try done; by apply plain_sendable). exists []. split_and!; done.
  - by apply IH.
Qed.

(** The host takes the frames for the whole file they are. *)
Lemma delivers_frames id xs total mode : Forall fits xs ->
  CopyOut.delivers (map Agent.Got (map (chunk_frame id) xs ++ [MkResponse id (FileDone total mode)])) (concat xs) total mode.
Proof.
  induction 1 as [|x xs Hx Hxs IH]; cbn; [constructor|]. econstructor; [apply b64_roundtrip|done|done].
Qed.

(** C20: the artifact channel, end to end.  When the guest has a regular file of at most [max_bytes] at
    the path, reads it to its end without an error and its length has not changed since it was
    looked at, the frames it sends are a whole file to the host; and a host on which nothing fails,
    whose destination is a regular file or missing with the staging name free beside it, ends with
    exactly the guest's bytes there and nothing else changed. *)
Theorem copy_end_to_end pid umask id path max_bytes s reads total mode dest h l lt name :
  open_for_copy_out path max_bytes s = Ok (reads, total, mode) ->
  to_end reads = true -> buffered reads -> total = N.of_nat (length (produced reads)) -> (max_bytes < u64_max)%N ->
  CopyOut.reliable h -> CopyOut.host_wf h -> CopyOut.path_wf dest -> CopyOut.special_at h dest = None -> CopyOut.replaceable h dest ->
  CopyOut.entry_at (CopyOut.tree h) dest = Ok l -> HostIo.file_name (CopyOut.std_path dest) = Some name ->
  CopyOut.entry_at (CopyOut.tree h) (match HostIo.parent (CopyOut.std_path dest) with Some (_ :: _ as p) => p | _ => [HostIo.CurDir] end ++
    [HostIo.Normal (CopyOut.stage_name (from_utf8_lossy name) pid (CopyOut.stage_seq h))]) = Ok lt ->
  HostIo.nodes (CopyOut.tree h) !! lt = None ->
  exists h' m,
    CopyOut.receive pid umask dest max_bytes (map Agent.Got (wire (copy_out id path max_bytes s (MkConn [] [])))) h = (Ok (total, mode), h') /\
    CopyOut.landed h l (produced reads) m h' /\ (m = CopyOut.host_mode_for mode \/ m = N.ldiff 384 umask).
Proof.
  intros Hopen Hend Hb Ht Hmax Hr W Hp Hsp Hrep Hen Hname Hlt Hfree.
  unfold copy_out. rewrite Hopen.
  destruct (copy_out_loop_frames id path total mode reads (MkConn [] []) eq_refl Hend Hb) as (xs & Hw & _ & Hc & Hf).
  rewrite Hw. cbn [wire app]. pose proof (delivers_frames id xs total mode Hf) as Hd. rewrite Hc in Hd.
  assert (Htot : CopyOut.total_ok max_bytes (produced reads) total).
  { split; [done|]. unfold open_for_copy_out in Hopen. apply rbind_Ok in Hopen as (meta & _ & Hopen).
    destruct (negb (is_file meta)); [done|]. destruct (N.ltb_spec max_bytes (len meta)); [done|].
    apply rbind_Ok in Hopen as (rs & _ & [= <- <- <-]). lia. }
  destruct (CopyOut.receive_completes pid umask dest max_bytes _ _ total mode h l lt name Hr W Hrep Hen Hname Hlt Hfree Hd Htot Hmax) as [h' Hrec].
  pose proof (CopyOut.receive_staged pid umask dest max_bytes _ h _ h' W Hp Hsp Hrec) as (_ & l' & data & m & Hen' & Hl & Hm & Hd').
  exists h', m. split; [done|]. split; [|done]. assert (l' = l) as -> by congruence.
  destruct (Hd' Hmax) as [Hd2 _]. by rewrite (CopyOut.delivers_fun _ _ _ _ _ _ _ Hd Hd2).
Qed.
End copy_session.

(** ** One answer to each request *)

Definition terminal (b : ResponseBody) : bool := match b with ExecStream _ _ | FileChunk _ => false | _ => true end.

(** The frames that answer a request: all carry its id, and the last one alone ends it. *)
Definition answer (id : N) (fs : list Response) : Prop :=
  exists bs b, fs = map (MkResponse id) (bs ++ [b]) /\ Forall (fun b => terminal b = false) bs /\ terminal b = true.

Lemma answer_one id b : terminal b = true -> answer id [MkResponse id b].
Proof. intros Hb. by exists [], b. Qed.

(** The message that would have ended it is too long for a frame, and there is none in its place. *)
Definition withheld `{JsonLen} (id : N) (fs : list Response) : Prop :=
  exists bs b, fs = map (MkResponse id) bs /\ Forall (fun b => terminal b = false) bs /\ terminal b = true /\ ~ sendable (MkResponse id b).

Section dispatch_spec.
Context `{JsonLen} {S : Type} `{FsOps S}.
Context (debug_str : bytes -> bytes) (parent : bytes -> option bytes) (bad_base64 : bytes -> bytes).
Context (kernel : GuestSys.History -> GuestSys.Call -> GuestSys.Answer) (sys : list SysCall -> SysCall -> result unit bytes)
  (world : Request -> ExecWorld) (net_error : GuestNet.ConfigureError -> bytes).
Context (agent_version : bytes) (uptime : list SysCall -> bytes) (assembly_error resolv_error : option bytes).
(** A read of a file returns, with no more than the buffer takes, and in the end with nothing or an error. *)
Hypothesis (files_end : forall path s reads, fs_open path s = Ok reads ->
  buffered reads /\ exists r, r ∈ reads /\ match r with ReadEof | ReadFails _ => True | _ => False end).

Abbreviation handle := (dispatch debug_str parent bad_base64 kernel sys world net_error agent_version uptime assembly_error resolv_error).
Abbreviation serve := (serve_connection debug_str parent bad_base64 kernel sys world net_error agent_version uptime assembly_error resolv_error).

(** A command is answered; another request is, or what would end its answer is withheld. *)
Definition shape (req : Request) (fs : list Response) : Prop :=
  match op req with Exec _ => answer (req_id req) fs | _ => answer (req_id req) fs \/ withheld (req_id req) fs end.

Definition answered_by (id : N) (c c' : Conn) : Prop :=
  exists fs, wire c' = wire c ++ fs /\ (answer id fs \/ withheld id fs) /\ Forall sendable fs /\ open_conn c'.

Lemma sendable_or_not r : sendable r \/ ~ sendable r.
Proof. unfold sendable. destruct (N.leb_spec (json_len r) Frame.MAX_FRAME_LEN); [left|right]; lia. Qed.

Lemma send_answers id b c : open_conn c -> terminal b = true -> answered_by id c (send_ (MkResponse id b) c).
Proof.
  intros Ho Hb. destruct (sendable_or_not (MkResponse id b)) as [Hs|Hs].
  - rewrite send__open by done. eexists. split; [done|]. split; [left; by apply answer_one|]. split; [by repeat constructor|done].
  - unfold send_. rewrite send_long by done. exists []. cbn [snd]. rewrite app_nil_r. split; [done|]. split; [|by split]. right. by exists [], b.
Qed.

Lemma reply_answers id r c : open_conn c -> (forall b, r = Ok b -> terminal b = true) -> answered_by id c (reply id r c).
Proof. intros Ho Hr. apply send_answers; [done|]. destruct r; auto. Qed.

Lemma copy_out_loop_answers id path total mode rs c : open_conn c -> buffered rs ->
  (exists r, r ∈ rs /\ match r with ReadEof | ReadFails _ => True | _ => False end) ->
  answered_by id c (copy_out_loop id path total mode rs c).
Proof.
  revert c. induction rs as [|r rs IH]; intros c Ho Hbuf (r0 & Hin & Hr0); [by apply elem_of_nil in Hin|].
  apply Forall_cons in Hbuf as [Hx Hbuf].
  assert (Hrest : match r with Data _ | ReadInterrupted => exists r, r ∈ rs /\ match r with ReadEof | ReadFails _ => True | _ => False end | _ => True end).
  { destruct r; try done; (apply elem_of_cons in Hin as [->|Hin]; [done|]; by exists r0). }
  cbn [copy_out_loop]. destruct r as [x| | |e]; [|by apply send_answers|by apply IH|by apply reply_answers].
  pose proof (chunk_sendable id x Hx) as Hs. rewrite send_open by done.
  destruct (IH (MkConn (wire c ++ [MkResponse id (FileChunk (b64_encode x))]) []) eq_refl Hbuf Hrest) as (fs & Hw & Ha & Hf & Ho2).
  exists (MkResponse id (FileChunk (b64_encode x)) :: fs). split; [by rewrite Hw; cbn [wire]; rewrite <- app_assoc|]. split; [|split; [by constructor|done]].
  destruct Ha as [(bs & b & -> & Hbs & Hb)|(bs & b & -> & Hbs & Hb & Hl)]; [left|right]; exists (FileChunk (b64_encode x) :: bs), b;
    (split; [done|]); (split; [by constructor|done]).
Qed.

Lemma dispatch_answers req s c s' c' : open_conn c ->
  buffered (out_reads (world req)) -> buffered (err_reads (world req)) ->
  handle req s c = (true, s', c') -> exists fs, wire c' = wire c ++ fs /\ shape req fs /\ Forall sendable fs /\ open_conn c'.
Proof.
  intros Ho Hbo Hbe. unfold dispatch, shape. destruct (op req) as [|er|u n|ip gw dns br|p m d|p m|p m|n|sy].
  all: lazymatch goal with |- context [handle_exec] => idtac | |- _ => fold (answered_by (req_id req) c c') end.
  - intros [= _ <-]. by apply send_answers.
  - destruct (handle_exec _ _ _ _ _ _) as [ended c1] eqn:Eh. intros [= -> _ <-].
    destruct (handle_exec_frames _ _ _ _ _ _ _ Ho Hbo Hbe Eh) as (cs & b & Hw & Ho2 & Hs & Hrep). eexists. split; [exact Hw|]. split; [|done].
    exists (map (fun x => ExecStream (fst x) (b64_encode (snd x))) cs), b. split; [by rewrite map_app, map_map|]. split; [by apply Forall_map, Forall_forall|].
    destruct (report _ _ _ _); destruct_and!; by subst b.
  - unfold syscall. intros [= _ <-]. apply reply_answers; [done|]. intros b. unfold ok_body. destruct (sys _ _); by intros [= <-].
  - destruct (configure_net _ _ _ _ _ _ _) as [r s1]. intros [= _ <-]. apply reply_answers; [done|]. intros b. unfold ok_body. destruct r; by intros [= <-].
  - destruct (put_file _ _ _ _ _ _) as [r s1]. intros [= _ <-]. apply reply_answers; [done|]. intros b. unfold ok_body. destruct r; by intros [= <-].
  - intros [= _ <-]. apply reply_answers; [done|]. intros b. unfold get_file. intros (meta & _ & E)%rbind_Ok. destruct (_ <? _)%N; [done|].
    apply rbind_Ok in E as (data & _ & [= <-]). done.
  - intros [= _ <-]. unfold copy_out. destruct (open_for_copy_out p m (files s)) as [[[rs t] md]|e] eqn:Eo; [|by apply reply_answers].
    enough (buffered rs /\ exists r, r ∈ rs /\ match r with ReadEof | ReadFails _ => True | _ => False end) as [? ?] by by apply copy_out_loop_answers.
    unfold open_for_copy_out in Eo. apply rbind_Ok in Eo as (meta & _ & Eo).
    destruct (negb _); [done|]. destruct (_ <? _)%N; [done|]. apply rbind_Ok in Eo as (rs2 & Eo & [= <- <- <-]). by destruct (files_end _ _ _ Eo).
  - unfold syscall. intros [= _ <-]. apply reply_answers; [done|]. intros b. unfold ok_body. destruct (sys _ _); by intros [= <-].
  - unfold halt, syscall. intros [= _ <-]. by apply send_answers.
Qed.

(** A request that is still being dealt with is a command, some of whose output has been sent. *)
Lemma dispatch_unfinished req s c s' c' : open_conn c ->
  buffered (out_reads (world req)) -> buffered (err_reads (world req)) ->
  handle req s c = (false, s', c') ->
  exists fs, wire c' = wire c ++ fs /\ (exists er, op req = Exec er) /\ Forall (fun f => resp_id f = req_id req /\ terminal (body f) = false) fs /\ Forall sendable fs.
Proof.
  intros Ho Hbo Hbe. unfold dispatch. destruct (op req) as [|er|u n|ip gw dns br|p m d|p m|p m|n|sy] eqn:Eop; try by repeat case_match.
  destruct (handle_exec _ _ _ _ _ _) as [ended c1] eqn:Eh. intros [= -> _ <-]. revert Eh. unfold handle_exec, run_exec.
  destruct (command _ _ _ _) as [cmd|e]; [|by case_match]. destruct (spawn _ cmd) as [pid|e]; [|by case_match].
  destruct (await_exit _ _ _) as [exit to]. destruct (run_pumps _ _ _ _) as [[po pe] c2] eqn:Er.
  destruct (run_pumps_spec _ _ (Some _) (Some _) _ _ _ Ho Hbo Hbe Er) as (cs & Hw & _ & Hc & _).
  intros Eh. assert (c1 = c2) as ->.
  { destruct po; [congruence|]. destruct pe; [congruence|]. destruct (send _ c2) as [[] c3]; [congruence|]. by case_match. }
  eexists. split; [exact Hw|]. split; [by eexists|]. split; [by apply Forall_map, Forall_forall|].
  apply Forall_map. eapply Forall_impl; [exact Hc|]. intros [k x]. apply stream_sendable.
Qed.

(** A file that may be fetched but does not fit a frame is not answered at all. *)
Lemma long_file_unanswered id path max_bytes s c b : get_file path max_bytes (files s) = Ok b -> ~ sendable (MkResponse id b) ->
  handle (MkRequest id (GetFile path max_bytes)) s c = (true, s, c).
Proof. intros Hg Hl. unfold dispatch. cbn [op req_id]. rewrite Hg. unfold reply, send_. by rewrite send_long. Qed.

End dispatch_spec.

(** ** Files, end to end *)

(** What [std::fs] promises of a regular file: a write that succeeded is what is read back, and changing the
    permissions changes nothing else. *)
Class FsLaws (S : Type) `{FsOps S} : Prop := {
  write_read path data s s' meta : fs_write path data s = (Ok tt, s') -> fs_metadata path s' = Ok meta -> is_file meta = true ->
    fs_read path s' = Ok data /\ len meta = N.of_nat (length data);
  permissions_only path mode s s' meta : fs_set_permissions path mode s = (Ok tt, s') -> fs_metadata path s' = Ok meta ->
    fs_read path s' = fs_read path s /\ N.land (st_mode meta) 4095 = N.land mode 4095 /\
    exists meta0, fs_metadata path s = Ok meta0 /\ is_file meta0 = is_file meta /\ len meta0 = len meta }.

Section file_session.
Context `{JsonLen} {S : Type} `{FsLaws S}.
Context (debug_str : bytes -> bytes) (parent : bytes -> option bytes) (bad_base64 : bytes -> bytes).
Context (kernel : GuestSys.History -> GuestSys.Call -> GuestSys.Answer) (sys : list SysCall -> SysCall -> result unit bytes)
  (world : Request -> ExecWorld) (net_error : GuestNet.ConfigureError -> bytes).
Context (agent_version : bytes) (uptime : list SysCall -> bytes) (assembly_error resolv_error : option bytes).

Abbreviation handle := (dispatch debug_str parent bad_base64 kernel sys world net_error agent_version uptime assembly_error resolv_error).

(** The server after the requests so far, each on a connection of its own, and its answer to the next. *)
Definition after (s0 : Server S) (asked : list Request) : Server S :=
  fold_left (fun s req => snd (fst (handle req s (MkConn [] [])))) asked s0.
Definition served (s0 : Server S) (asked : list Request) (req : Request) : Agent.Wrote * list Agent.Event :=
  (Agent.Written, map Agent.Got (wire (snd (handle req (after s0 asked) (MkConn [] []))))).

Abbreviation always := (fun _ : list Request => Agent.Connected).

Ltac refused := unfold reply, send_, send; cbn [fst snd wire ok_body rbind]; destruct (_ <? _)%N; done.

(** A file put into the guest is the file got back, if what carries it fits a frame: when the host's [put_file] succeeds and left a
    regular file, the host's [get_file] of the path next, for a ceiling that admits it, gives the same
    bytes and the permission bits that were asked for. *)
Theorem put_then_get s0 c path mode data max_bytes c1 meta :
  Agent.put_file always (served s0) path mode data c = (Ok tt, c1) ->
  fs_metadata path (files (after s0 (Agent.made c1))) = Ok meta -> is_file meta = true ->
  (N.of_nat (length data) <= max_bytes)%N -> (forall id m, sendable (MkResponse id (FileBody (b64_encode data) m))) ->
  exists got c2, Agent.get_file always (served s0) path max_bytes c1 = (Ok (data, got), c2) /\ N.land got 4095 = N.land mode 4095.
Proof.
  unfold Agent.put_file, Agent.expect_ok, Agent.request_one, Agent.connect, Agent.write_request, Agent.submit, se_bind, se_ret.
  cbn [Agent.made]. unfold served. set (r1 := MkRequest (Agent.next_id c) (PutFile path mode (b64_encode data))).
  set (s := after s0 (Agent.made c)).
  assert (Hafter : after s0 (Agent.made c ++ [r1]) = snd (fst (handle r1 s (MkConn [] [])))) by (unfold after; by rewrite fold_left_app).
  revert Hafter. unfold dispatch at 1 2. cbn [op r1 req_id]. unfold put_file at 1 2. rewrite b64_roundtrip.
  unfold se_bind. destruct (match parent path with Some (_ :: _ as p) => fs_create_dir_all p | _ => se_ret (Ok tt) end (files s)) as [[[]|e] f1]; [|refused].
  destruct (fs_write path data f1) as [[[]|e] f2] eqn:Ew; [|refused].
  destruct (fs_set_permissions path mode f2) as [[[]|e] f3] eqn:Ep; [|refused].
  cbn [fst snd]. unfold reply at 1. rewrite send__open by (try done; by apply plain_sendable). intros Hafter [= <-] Hmeta Hfile Hmax Hfits. cbn [Agent.made] in *. rewrite Hafter in Hmeta. cbn [files] in Hmeta.
  destruct (permissions_only _ _ _ _ _ Ep Hmeta) as (Hread & Hmode & meta0 & Hm0 & Hf0 & Hl0).
  destruct (write_read _ _ _ _ _ Ew Hm0) as [Hread0 Hlen]; [congruence|].
  unfold Agent.get_file, Agent.request_one, Agent.connect, Agent.write_request, Agent.submit, se_bind, se_ret. cbn [Agent.made Agent.next_id].
  rewrite Hafter. unfold dispatch. cbn [op req_id files]. unfold get_file. rewrite Hmeta. cbn [rbind].
  destruct (N.ltb_spec max_bytes (len meta)); [lia|]. rewrite Hread, Hread0. cbn [rbind reply].
  cbn [snd]. unfold reply. rewrite send__open by (try done; apply Hfits). cbn [wire app map body]. rewrite b64_roundtrip. by eexists _, _.
Qed.
End file_session.

(** ** What a command is started with *)

Section environment.
Context `{JsonLen} (debug_str : bytes -> bytes).

Definition no_nul (s : bytes) : Prop := NUL ∉ s.

Lemma has_false c s : has c s = false <-> c ∉ s.
Proof.
  unfold has. rewrite <- not_true_iff_false, existsb_exists. split.
  - intros Hn Hin. apply Hn. exists c. split; [by apply list_elem_of_In|apply Ascii.eqb_refl].
  - intros Hn (x & Hx & E). apply Ascii.eqb_eq in E as <-. by apply list_elem_of_In in Hx.
Qed.

Lemma validate_env_pair_ok k v u : validate_env_pair debug_str k v = Ok u -> k <> [] /\ ("="%char ∉ k) /\ no_nul k /\ no_nul v.
Proof.
  unfold validate_env_pair. destruct (beq k []) eqn:Ek; [done|]. destruct (has "=" k) eqn:E1; [done|]. destruct (has NUL k) eqn:E2; [done|].
  cbn [orb]. destruct (has NUL v) eqn:E3; [done|]. intros _. apply has_false in E1, E2, E3. split_and!; try done.
  intros ->. apply not_true_iff_false in Ek. apply Ek. by apply beq_true.
Qed.

Lemma set_request_env_ok pairs e e' : set_request_env debug_str pairs e = Ok e' ->
  e' = fold_left set_env pairs e /\ Forall (fun kv => fst kv <> [] /\ ("="%char ∉ fst kv) /\ no_nul (fst kv) /\ no_nul (snd kv)) pairs.
Proof.
  revert e. induction pairs as [|[k v] pairs IH]; intros e; cbn [set_request_env fold_left]; [by intros [= ->]|].
  intros (u & Hu & E)%rbind_Ok. apply IH in E as [-> Hall]. split; [done|]. constructor; [|done]. by apply validate_env_pair_ok in Hu.
Qed.

(** The last pair of a name. *)
Definition assoc_last (pairs : list (bytes * bytes)) (k : bytes) : option bytes :=
  fold_left (fun acc kv => if bool_decide (fst kv = k) then Some (snd kv) else acc) pairs None.

Lemma fold_set_env pairs k : forall e, fold_left set_env pairs e !! k =
  fold_left (fun acc kv => if bool_decide (fst kv = k) then Some (snd kv) else acc) pairs (e !! k).
Proof.
  induction pairs as [|[k1 v] pairs IH]; intros e; cbn [fold_left]; [done|]. rewrite IH. f_equal. unfold set_env. cbn [fst snd].
  case_bool_decide as E; [by rewrite E, lookup_insert_eq|by rewrite lookup_insert_ne].
Qed.

(** A command's environment.  A command that is started sees, for each name, the request's last value,
    or else the proxy's, or else the base's, and nothing else; and each pair of the request is one the
    kernel passes on as it is: its text [name=value] has no NUL and splits at its first [=] into the
    two again. *)
Theorem command_environment proxy w req cmd : command debug_str proxy w req = Ok cmd ->
  (forall k, environ cmd !! k = assoc_last (BASE_ENV ++ proxy ++ exec_env req) k) /\
  Forall (fun kv => no_nul (fst kv ++ "="%char :: snd kv) /\ split_once "=" (fst kv ++ "="%char :: snd kv) = Some kv) (exec_env req) /\
  program cmd :: args cmd = argv req /\ cwd_meta w (current_dir cmd) = Ok true.
Proof.
  unfold command. destruct (argv req) as [|p l]; [done|]. intros (env & He & (u & Hu & [= <-])%rbind_Ok)%rbind_Ok.
  apply set_request_env_ok in He as [-> Hall]. cbn [environ program args current_dir]. split_and!.
  - intros k. unfold assoc_last. by rewrite !fold_left_app, !fold_set_env, lookup_empty.
  - eapply Forall_impl; [exact Hall|]. intros [k v] (_ & Heq & Hk & Hv). cbn [fst snd] in *. split.
    + unfold no_nul. rewrite elem_of_app, elem_of_cons. intros [?|[?|?]]; done.
    + by apply split_once_Some.
  - done.
  - by destruct (cwd_meta w _) as [[]|].
Qed.

(** The time-out is not the end.  A command whose output pipe somebody keeps open — a process it left
    behind in the background, a process that left its group — is not answered, whatever the time-out
    of the request says, whether the command's own process has exited and whenever the pumps run. *)
Theorem exec_waits_for_pipes proxy w id req cmd pid c :
  command debug_str proxy w req = Ok cmd -> spawn w cmd = Ok pid -> open_conn c ->
  Forall (fun r => match r with Data x => fits x | ReadInterrupted => True | _ => False end) (out_reads w) ->
  fst (handle_exec debug_str proxy w id req c) = false.
Proof.
  intros Hc Hs Ho Hopen. unfold handle_exec, run_exec. rewrite Hc, Hs. destruct (await_exit _ _ _) as [exit to].
  assert (Hp : forall ts rs pe c, open_conn c -> Forall (fun r => match r with Data x => fits x | ReadInterrupted => True | _ => False end) rs ->
    exists rs', fst (fst (run_pumps id ts (Some rs, pe) c)) = Some rs').
  { clear. induction ts as [|[] ts IH]; intros rs pe c Ho Hrs; cbn [run_pumps fst snd]; [by eexists| |].
    - destruct rs as [|r rs]; cbn [pump_turn]; [by apply IH|]. apply Forall_cons in Hrs as [Hr Hrs].
      destruct r; [rewrite send_open by (try done; by apply stream_sendable); by apply IH|done|by apply IH|done].
    - assert (Ho2 : open_conn (snd (pump_turn id Stderr pe c))).
      { destruct pe as [[|[] ?]|]; cbn [pump_turn]; try done.
        unfold send, open_conn in *. destruct (_ <? _)%N; [done|]. by rewrite Ho. }
      destruct (pump_turn id Stderr pe c) as [e c2]. by apply IH. }
  destruct (Hp (turns w) (out_reads w) (Some (err_reads w)) c Ho Hopen) as [rs Hrs].
  destruct (run_pumps _ _ _ _) as [[po pe] c2]. cbn [fst] in Hrs. by rewrite Hrs.
Qed.
End environment.

(** ** Concrete sessions *)

(** The text of a response: its string and what is around it. *)
Definition short_len (r : Response) : N :=
  64 + N.of_nat (length (match body r with ExecStream _ s | FileBody s _ | FileChunk s | ErrorBody s => s | PongBody v _ _ _ _ => v | _ => [] end)).

Definition short_json : @JsonLen Agent.verbatim.
Proof.
  refine (@Build_JsonLen Agent.verbatim short_len _ _ _ _).
  - intros [id []]; cbn; try done; unfold short_len; cbn; lia.
  - intros id k x. unfold short_len. cbn. pose proof (N.div_mod' (N.of_nat (length x) + 2) 3).
    pose proof (N.mod_lt (N.of_nat (length x) + 2) 3). lia.
  - intros id x. unfold short_len. cbn. pose proof (N.div_mod' (N.of_nat (length x) + 2) 3).
    pose proof (N.mod_lt (N.of_nat (length x) + 2) 3). lia.
  - intros id m. unfold short_len. cbn. lia.
Defined.

Definition no_debug (s : bytes) : bytes := s.
Definition probe : Agent.ExecSpec := Agent.MkSpec [B "make"; B "all"] [(B "CC", B "gcc=1")] None (Some 1000%N) None 4 6.

(** A command whose output comes in pieces, the pumps taking turns as they like. *)
Definition busy : ExecWorld := MkWorld (fun _ => Ok true) (fun _ => Ok 42%Z) (Received (Reaper.MkWaitResult 42 (Some 3%Z) None)) None
  [Data (B "one "); ReadInterrupted; Data (B "two"); ReadEof] [Data (B "err"); ReadEof]
  [Stdout; Stderr; Stdout; Stderr; Stdout; Stdout; Stdout] 12.

(** The same, but a process in the background keeps the pipe. *)
Definition leaky : ExecWorld := MkWorld (fun _ => Ok true) (fun _ => Ok 42%Z) (Received (Reaper.MkWaitResult 42 (Some 0%Z) None)) None
  [Data (B "started")] [ReadEof] [Stdout; Stderr; Stdout] 12.

Definition run_probe (w : ExecWorld) : bool * Conn := @handle_exec Agent.verbatim short_json no_debug [] w 1 (@Agent.exec_request Agent.verbatim probe) (MkConn [] []).

Lemma busy_buffered : buffered (out_reads busy) /\ buffered (err_reads busy).
Proof. split; repeat constructor; by vm_compute. Qed.

Lemma exec_end_to_end_witness : exists s,
  @Agent.exec Agent.verbatim (fun _ => Agent.Connected) (fun _ _ => (Agent.Written, map Agent.Got (wire (snd (run_probe busy)))))
    probe (Some (Console.MkLog [] [])) (Some (Console.MkLog [] [])) Agent.client_new =
    (Ok (Some (Ok (Agent.MkOutcome (Some 3%Z) None 12 false (Agent.MkCapture (B "one ") true 7) (Agent.MkCapture (B "err") false 3))), s),
     Agent.asked Agent.client_new (Exec (@Agent.exec_request Agent.verbatim probe))) /\
  Agent.sink_holds (fst s) (B "one two").
Proof.
  destruct busy_buffered as [Ho He].
  destruct (@exec_end_to_end Agent.verbatim short_json no_debug [] (fun _ => Agent.Connected) (fun _ _ => (Agent.Written, map Agent.Got (wire (snd (run_probe busy)))))
    probe busy (Console.MkLog [] []) (Console.MkLog [] []) Agent.client_new (snd (run_probe busy)) eq_refl Ho He) as (s & Hex & Hso & _);
    [by vm_compute|done|by vm_compute|done|done|].
  exists s. split; [exact Hex|exact Hso].
Defined.

Lemma exec_waits_for_pipes_witness :
  command no_debug [] leaky (@Agent.exec_request Agent.verbatim probe) = Ok (MkCmd (B "make") [B "all"]
    (fold_left set_env [(B "CC", B "gcc=1")] (fold_left set_env BASE_ENV ∅)) DEFAULT_CWD false) /\
  fst (run_probe leaky) = false.
Proof.
  assert (E : command no_debug [] leaky (@Agent.exec_request Agent.verbatim probe) = Ok (MkCmd (B "make") [B "all"]
    (fold_left set_env [(B "CC", B "gcc=1")] (fold_left set_env BASE_ENV ∅)) DEFAULT_CWD false)) by reflexivity.
  split; [exact E|].
  apply (@exec_waits_for_pipes Agent.verbatim short_json no_debug [] leaky 1 (@Agent.exec_request Agent.verbatim probe) _ 42 (MkConn [] []) E eq_refl eq_refl).
  repeat constructor. by vm_compute.
Defined.

Lemma command_environment_witness :
  match command no_debug [] busy (@Agent.exec_request Agent.verbatim probe) with
  | Ok cmd => environ cmd !! B "CC" = Some (B "gcc=1") /\ environ cmd !! B "HOME" = Some (B "/root")
  | Err _ => False
  end.
Proof.
  destruct (command no_debug [] busy (@Agent.exec_request Agent.verbatim probe)) as [cmd|e] eqn:E; [|by vm_compute in E].
  destruct (command_environment no_debug [] busy _ cmd E) as (Hk & _). by rewrite !Hk.
Defined.

(** A malformed name is reported as status 127, like a command that is not there; a reason longer than a
    chunk is refused by the host. *)
Definition bad_env : Agent.ExecSpec := Agent.MkSpec [B "make"] [(B "A=B", B "c")] None None None 4 6.
Definition bad_cwd (n : N) : Agent.ExecSpec := Agent.MkSpec [B "make"] [] (Some (repeat "d"%char (N.to_nat n))) None None 4 6.
Definition no_dir : ExecWorld := MkWorld (fun _ => Err (B "File name too long")) (fun _ => Ok 42%Z) Disconnected None [] [] [] 0.

Example not_started :
  (exists e, @expected Agent.verbatim short_json no_debug [] 1 bad_env busy = Ok (Agent.MkOutcome (Some 127%Z) None 0 false (Agent.capture_of 4 []) e)) /\
  @expected Agent.verbatim short_json no_debug [] 1 (bad_cwd 40000) no_dir = Err (Agent.OversizeChunk 40040).
Proof. split; [eexists; vm_compute; reflexivity|vm_compute; reflexivity]. Qed.

(** Files by the path they are asked for. *)
Abbreviation Disk := (gmap bytes (bytes * N)).

(** A file read a buffer at a time. *)
Fixpoint pieces (fuel : nat) (d : bytes) : list Read :=
  match d, fuel with
  | [], _ => [ReadEof]
  | _, 0%nat => [ReadFails (B "too many pieces")]
  | _, S fuel => Data (take (N.to_nat EXEC_CHUNK_LEN) d) :: pieces fuel (drop (N.to_nat EXEC_CHUNK_LEN) d)
  end.

Lemma pieces_end fuel d : buffered (pieces fuel d) /\ exists r, r ∈ pieces fuel d /\ match r with ReadEof | ReadFails _ => True | _ => False end.
Proof.
  revert d. induction fuel as [|fuel IH]; intros [|c d]; cbn [pieces].
  1-3: split; [by repeat constructor|eexists; split; [by left|done]].
  destruct (IH (drop (N.to_nat EXEC_CHUNK_LEN) (c :: d))) as (Hb & r & Hr & Hend). split; [|exists r; split; [by right|done]].
  constructor; [|done]. unfold fits. rewrite length_take. lia.
Qed.

#[local] Instance disk_ops : FsOps Disk := {|
  fs_metadata path s := match s !! path with Some (d, m) => Ok (MkMeta true (N.of_nat (length d)) m) | None => Err (B "no such file") end;
  fs_create_dir_all _ s := (Ok tt, s);
  fs_write path data s := (Ok tt, <[path := (data, 33188%N)]> s);
  fs_set_permissions path mode s := match s !! path with
    | Some (d, m) => (Ok tt, <[path := (d, N.lor 32768 (N.land mode 4095))]> s)
    | None => (Err (B "no such file"), s) end;
  fs_read path s := match s !! path with Some (d, _) => Ok d | None => Err (B "no such file") end;
  fs_open path s := match s !! path with Some (d, _) => Ok (pieces (length d) d) | None => Err (B "no such file") end |}.

#[local] Instance disk_laws : FsLaws Disk.
Proof.
  split; cbn.
  - intros path data s s' meta [= <-]. rewrite lookup_insert_eq. by intros [= <-] _.
  - intros path mode s s' meta. destruct (s !! path) as [[d m]|] eqn:E; [|done]. intros [= <-]. rewrite lookup_insert_eq. intros [= <-].
    split; [done|]. cbn [st_mode]. split; [|by eexists]. rewrite N.land_lor_distr_l, <- N.land_assoc. change (N.land 32768 4095) with 0%N.
    by rewrite N.lor_0_l.
Qed.

(** No [ConfigureNet] here: every call on the network answers with nothing. *)
Definition demo_server : Server Disk := MkServer ∅ GuestSys.guest0 [] [].

Definition demo_served := @served Agent.verbatim short_json Disk disk_ops no_debug (fun _ => None) (fun _ => B "base64") (fun _ _ => Ok []) (fun _ _ => Ok tt)
    (fun _ => busy) (fun _ => B "net") (B "0.1") (fun _ => B "1.0") None None demo_server.

Lemma put_then_get_witness : exists got c2,
  @Agent.get_file Agent.verbatim (fun _ => Agent.Connected) demo_served (B "/root/x") 64
    (Agent.asked Agent.client_new (PutFile (B "/root/x") 493 (B "data"))) = (Ok (B "data", got), c2) /\ N.land got 4095 = 493%N.
Proof.
  refine (@put_then_get Agent.verbatim short_json Disk disk_ops disk_laws no_debug (fun _ => None) (fun _ => B "base64") (fun _ _ => Ok []) (fun _ _ => Ok tt)
    (fun _ => busy) (fun _ => B "net") (B "0.1") (fun _ => B "1.0") None None demo_server Agent.client_new (B "/root/x") 493 (B "data") 64
    (Agent.asked Agent.client_new (PutFile (B "/root/x") 493 (B "data"))) (MkMeta true 4 33261) _ _ eq_refl _ _).
  - vm_compute. reflexivity.
  - vm_compute. reflexivity.
  - by vm_compute.
  - intros id m. by vm_compute.
Defined.


Lemma copy_end_to_end_witness :
  let s := {[B "/root/out" := (B "new", 33261%N)]} : Disk in
  exists h' m, @CopyOut.receive Agent.verbatim 7 18 (HostIo.kernel_components (B "f")) 10
      (map Agent.Got (wire (@copy_out Agent.verbatim short_json Disk disk_ops 5 (B "/root/out") 10 s (MkConn [] [])))) CopyOut.demo_host = (Ok (3%N, 33261%N), h') /\
    CopyOut.landed CopyOut.demo_host [B "w"; B "f"] (B "new") m h'.
Proof.
  intros s.
  destruct (@copy_end_to_end Agent.verbatim short_json Disk disk_ops 7 18 5 (B "/root/out") 10 s [Data (B "new"); ReadEof] 3 33261
    (HostIo.kernel_components (B "f")) CopyOut.demo_host [B "w"; B "f"] [B "w"; B ".f.isopod-7-0.part"] (B "f")) as (h' & m & Hr & Hl & _);
    [vm_compute; reflexivity|done| |by vm_compute|by vm_compute|done|exact CopyOut.demo_host_wf|exact (CopyOut.kernel_components_wf _)|by vm_compute| |by vm_compute|done|by vm_compute|by vm_compute|].
  - repeat constructor; by vm_compute.
  - unfold CopyOut.replaceable. cbn [CopyOut.tree CopyOut.demo_host]. rewrite CopyOut.demo_replaced. by exists 1%N.
  - exists h', m. split; [exact Hr|exact Hl].
Defined.
