(* ===== verification/Base.v ===== *)
(** * Names of images ([crates/core/src/image/base.rs], and the names of [import/mod.rs] and
    [rootfs.rs])

    Which image a run boots is a string that a caller types and a stage records: the slug of a flavor,
    or [oci:] and the name of an import.  This file has the flavors, the rules for names, the
    reference [BaseRef] with its two spellings, the name derived from a source, the key of the blob
    cache, and the defaults that an image's configuration contributes to a run. *)
From S2P Require Import Prelude Text Digest Server.

(** ** Flavors *)

Inductive RootfsFlavor : Type := DevBusybox | DevAgent | BaseSqfs | BaseAlpine.
#[export] Instance RootfsFlavor_eq_dec : EqDecision RootfsFlavor.
Proof. solve_decision. Defined.

Definition ALL : list RootfsFlavor := [DevBusybox; DevAgent; BaseSqfs; BaseAlpine].

Definition has_agent (f : RootfsFlavor) : bool := negb (bool_decide (f = DevBusybox)).

Definition flavor_slug (f : RootfsFlavor) : bytes :=
  match f with
  | DevBusybox => B "dev-busybox"
  | DevAgent => B "dev-agent"
  | BaseSqfs => B "base-sqfs"
  | BaseAlpine => B "base-alpine"
  end.

(** Why a name is refused. *)
Inductive NameError : Type :=
  | UnknownFlavor (slug : bytes)
  | NoName
  | LongName (slug : bytes)
  | BadStart (slug : bytes)
  | BadChar (slug : bytes) (bad : N)
  | NotAnImport (spelling : bytes) (why : NameError)
  | NotABase (spelling : bytes) (why : NameError)
  | BuiltinName (spelling : bytes).

Definition from_slug (slug : bytes) : result RootfsFlavor NameError :=
  if beq slug (B "dev-busybox") then Ok DevBusybox
  else if beq slug (B "dev-agent") then Ok DevAgent
  else if beq slug (B "base-sqfs") then Ok BaseSqfs
  else if beq slug (B "base-alpine") then Ok BaseAlpine
  else Err (UnknownFlavor slug).

Definition is_squashfs_flavor (f : RootfsFlavor) : bool :=
  match f with BaseSqfs | BaseAlpine => true | _ => false end.

Definition image_dest (images : bytes) (f : RootfsFlavor) : bytes :=
  match f with
  | BaseSqfs => path_join images (B "base.sqfs")
  | BaseAlpine => path_join images (B "base-alpine.sqfs")
  | _ => path_join images (B "rootfs-" ++ flavor_slug f ++ B ".ext4")
  end.

(** ** Names of imports *)

(** [char::is_ascii_alphanumeric] *)
Definition char_alphanumeric (c : N) : bool := (c <? 128)%N && is_ascii_alphanumeric (ascii_of_N c).

Definition name_char (c : N) : bool :=
  char_alphanumeric c || existsb (N.eqb c) [code "."; code "_"; code "-"].

Definition validate_slug (slug : bytes) : result unit NameError :=
  if beq slug [] then Err NoName
  else if (128 <? Text.len slug)%Z then Err (LongName slug)
  else if starts_with (B ".") slug || starts_with (B "-") slug then Err (BadStart slug)
  else match List.find (fun c => negb (name_char c)) (chars slug) with
       | Some bad => Err (BadChar slug bad)
       | None => Ok tt
       end.

Definition imported_image_path (images slug : bytes) : result bytes NameError :=
  let? _ := validate_slug slug in
  Ok (path_join (path_join images (B "oci")) (slug ++ B ".sqfs")).

(** A character as the bytes that spell it: the ones [slug_for] keeps are ASCII. *)
Definition push_slug (out : bytes) (c : N) : bytes :=
  if char_alphanumeric c || existsb (N.eqb c) [code "."; code "_"] then out ++ [ascii_of_N c]
  else if ends_with (B "-") out then out
  else out ++ B "-".

Definition dash_or_dot (c : ascii) : bool := Ascii.eqb c "-" || Ascii.eqb c ".".

Definition slug_for (source : bytes) : bytes :=
  let out := fold_left push_slug (chars source) [] in
  let trimmed := trim_matches dash_or_dot out in
  if beq trimmed [] then B "image" else trimmed.

Definition CACHE_NAME_MAX : nat := 48.

Section cache.
(** [hex::encode(Sha256::digest(..))] *)
Context (sha256_hex : bytes -> bytes).

(** The slug is ASCII, so its characters are its bytes. *)
Definition blob_cache_key (reference : bytes) : bytes :=
  let digest := sha256_hex reference in
  let readable := trim_end_matches dash_or_dot (take CACHE_NAME_MAX (slug_for reference)) in
  readable ++ B "-" ++ take 16 digest.

Definition blob_cache_dir (images reference : bytes) : bytes :=
  path_join (path_join images (B "oci-blobs")) (blob_cache_key reference).
End cache.

(** ** References to a base *)

Definition IMPORTED_PREFIX : bytes := B "oci:".

Inductive BaseRef : Type :=
  | Builtin (f : RootfsFlavor)
  | Imported (name : bytes).
#[export] Instance BaseRef_eq_dec : EqDecision BaseRef.
Proof. solve_decision. Defined.

Definition parse (s : bytes) : result BaseRef NameError :=
  match strip_prefix IMPORTED_PREFIX s with
  | Some name =>
      let? _ := map_err (NotAnImport s) (imported_image_path (B "/") name) in
      Ok (Imported name)
  | None => map_err (NotABase s) (rmap Builtin (from_slug s))
  end.

Definition slug (b : BaseRef) : bytes :=
  match b with Builtin f => flavor_slug f | Imported name => IMPORTED_PREFIX ++ name end.

Definition is_squashfs_base (b : BaseRef) : bool :=
  match b with Builtin f => is_squashfs_flavor f | Imported _ => true end.

(** The argument of [image rm]. *)
Definition imported_name (spelling : bytes) : result bytes NameError :=
  match strip_prefix IMPORTED_PREFIX spelling with
  | Some name => Ok name
  | None => if is_ok (from_slug spelling) then Err (BuiltinName spelling) else Ok spelling
  end.

(** ** An image's configuration *)

Record OciProvenance : Type := MkProvenance {
  source_ref : bytes;
  platform : bytes;
  manifest_digest : bytes;
  config_digest : bytes;
  layer_digests : list bytes;
  env : list bytes;
  working_dir : option bytes;
  entrypoint : list bytes;
  cmd : list bytes;
  user : option bytes;
  replaced_init : bool;
  setuid_paths : list bytes }.
#[export] Instance OciProvenance_eq_dec : EqDecision OciProvenance.
Proof. solve_decision. Defined.

Record RunDefaults : Type := MkDefaults { default_env : list (bytes * bytes); default_cwd : option bytes }.

Definition from_provenance (p : OciProvenance) : RunDefaults :=
  MkDefaults
    (List.filter (fun kv => negb (beq (fst kv) [])) (omap (split_once "=") (env p)))
    (match working_dir p with
     | Some d => if negb (beq d []) && negb (beq d (B "/")) then Some d else None
     | None => None
     end).

(** What [apply] leaves in the run's variables and directory. *)
Definition apply (d : RunDefaults) (env : list (bytes * bytes)) (cwd : option bytes) :
    list (bytes * bytes) * option bytes :=
  let cwd := match cwd with None => default_cwd d | _ => cwd end in
  match default_env d with
  | [] => (env, cwd)
  | _ => (List.filter (fun kv => negb (existsb (beq (fst kv)) (map fst env))) (default_env d) ++ env, cwd)
  end.

Definition nul : ascii := ascii_of_N 0.

Inductive EnvError : Type :=
  | EmptyName
  | BadName (k : bytes)
  | NulValue (k : bytes)
  | EmptyKey (item : bytes)
  | NoEquals (item : bytes).

(** [vm::validate_env], the check that both ways to a run share. *)
Fixpoint validate_env (env : list (bytes * bytes)) : result unit EnvError :=
  match env with
  | [] => Ok tt
  | (k, v) :: r =>
      if beq k [] then Err EmptyName
      else if contains "=" k || contains nul k then Err (BadName k)
      else if contains nul v then Err (NulValue k)
      else validate_env r
  end.

Definition parse_env_kv (items : list bytes) : result (list (bytes * bytes)) EnvError :=
  traverse (fun item =>
    match split_once "=" item with
    | Some ([], _) => Err (EmptyKey item)
    | Some kv => Ok kv
    | None => Err (NoEquals item)
    end) items.

(** ** Names: the theorems *)

Definition name_byte (c : ascii) : bool := name_char (code c).

(** The grammar: one path component that is neither hidden nor an option. *)
Definition valid_name (s : bytes) : Prop :=
  s <> [] /\ (length s <= 128)%nat /\ Forall (fun c => name_byte c = true) s /\
  head s <> Some "."%char /\ head s <> Some "-"%char.

Definition valid_ref (b : BaseRef) : Prop :=
  match b with Builtin _ => True | Imported name => valid_name name end.

Lemma utf8_items_spelt s : Forall (fun i => match i with Chr _ [] => False | _ => True end) (utf8_items s).
Proof.
  induction s as [s IH] using bytes_len_ind. destruct s as [|b0 r0]; [constructor|]. cbn [utf8_items].
  repeat (case_match; subst; try (by repeat constructor)); constructor; try done; apply IH; simpl; lia.
Qed.

(** A test that only ASCII passes may be made on the bytes. *)
Lemma chars_all_ascii (P : N -> bool) s : (forall c, P c = true -> (c < 128)%N) -> is_utf8 s = true ->
  forallb P (chars s) = forallb (fun c => P (code c)) s.
Proof.
  intros HP Hs. rewrite <- (is_utf8_concat s Hs) at 2. unfold is_utf8 in Hs. unfold chars.
  pose proof (utf8_items_wf s) as Hwf. pose proof (utf8_items_spelt s) as Hne.
  induction (utf8_items s) as [|i l IH]; [done|].
  inversion Hwf as [|? ? Hi Hl]; inversion Hne as [|? ? Hj Hl']; subst. cbn [forallb] in Hs.
  apply andb_true_iff in Hs as [Hc Hs]. cbn [map concat]. rewrite forallb_app, <- IH by done.
  destruct i as [c raw|]; [|done].
  change (omap _ (Chr c raw :: l)) with (c :: omap (fun i => match i with Chr c _ => Some c | Bad => None end) l).
  cbn [forallb item_bytes]. f_equal. destruct raw as [|b [|b' raw]]; [done| |].
  - cbn in *. subst. by rewrite andb_true_r.
  - destruct Hi as [Hc' Hr]. assert (P c = false) as -> by (destruct (P c) eqn:E; [apply HP in E; lia|done]).
    inversion Hr as [|? ? Hb _]; subst. cbn [forallb]. 
    assert (P (code b) = false) as -> by (destruct (P (code b)) eqn:E; [apply HP in E; lia|done]). done.
Qed.

Lemma name_char_ascii c : name_char c = true -> (c < 128)%N.
Proof.
  unfold name_char, char_alphanumeric. rewrite orb_true_iff, andb_true_iff, N.ltb_lt. intros [[? _]|H]; [done|].
  apply existsb_exists in H as (x & Hx & ->%N.eqb_eq). cbn in Hx. destruct Hx as [<-|[<-|[<-|[]]]]; vm_compute; done.
Qed.

Lemma starts_with_head c s : starts_with [c] s = true <-> head s = Some c.
Proof. rewrite starts_with_true. destruct s as [|x s]; cbn; [naive_solver|]. split; [by intros [r [= -> _]]|intros [= ->]; by exists s]. Qed.

Lemma find_none {A} (P : A -> bool) l : List.find (fun c => negb (P c)) l = None <-> forallb P l = true.
Proof. induction l as [|x l IH]; cbn; [done|]. destruct (P x); cbn; [done|]. done. Qed.

Lemma forallb_Forall_true {A} (P : A -> bool) l : forallb P l = true <-> Forall (fun c => P c = true) l.
Proof. rewrite forallb_forall, Forall_forall. split; intros H x Hx; apply H; by apply list_elem_of_In. Qed.

Lemma validate_slug_iff s : is_utf8 s = true -> validate_slug s = Ok tt <-> valid_name s.
Proof.
  intros Hs. unfold validate_slug, valid_name, Text.len.
  pose proof (chars_all_ascii name_char s name_char_ascii Hs) as Hc.
  destruct (beq s []) eqn:E0; [apply beq_true in E0; naive_solver|].
  assert (s <> []) by (intros ->; done).
  destruct (Z.ltb_spec 128 (Z.of_nat (length s))); [split; [done|lia]|].
  change (B ".") with ["."%char]. change (B "-") with ["-"%char].
  destruct (starts_with ["."%char] s) eqn:E1; [apply starts_with_head in E1; naive_solver|].
  destruct (starts_with ["-"%char] s) eqn:E2; [apply starts_with_head in E2; naive_solver|]. cbn [orb].
  assert (head s <> Some "."%char) by (intros Hh; apply starts_with_head in Hh; congruence).
  assert (head s <> Some "-"%char) by (intros Hh; apply starts_with_head in Hh; congruence).
  rewrite <- (forallb_Forall_true name_byte).
  change (forallb (fun c => name_char (code c)) s) with (forallb name_byte s) in Hc.
  destruct (List.find _ _) eqn:Ef.
  - split; [done|]. intros (_ & _ & Hf & _). rewrite Hf in Hc. apply find_none in Hc. congruence.
  - apply find_none in Ef. rewrite Ef in Hc. split; [|done]. intros _. repeat split; try done; lia.
Qed.

Lemma name_byte_not c x : name_byte x = true -> name_byte c = false -> x <> c.
Proof. intros H1 H2 ->. congruence. Qed.

Lemma valid_name_slash s : valid_name s -> "/"%char ∉ s /\ nul ∉ s.
Proof.
  intros (_ & _ & Hf & _). rewrite Forall_forall in Hf.
  split; intros Hin; apply list_elem_of_In in Hin; [|]; apply list_elem_of_In, Hf in Hin; by vm_compute in Hin.
Qed.

(** Where an import lies: a file of its own in one directory, whatever the name. *)
Lemma imported_path_iff images s p : is_utf8 s = true ->
  imported_image_path images s = Ok p <->
  valid_name s /\ p = path_join (path_join images (B "oci")) (s ++ B ".sqfs").
Proof.
  intros Hs. unfold imported_image_path. rewrite <- (validate_slug_iff s Hs). rewrite rbind_Ok. split.
  - by intros (u & Hu & [= <-]); destruct u.
  - intros [Hv ->]. by exists tt.
Qed.

(** What stands before a relative path that is joined to [a]. *)
Definition as_prefix (a : bytes) : bytes := if beq a [] || ends_with (B "/") a then a else a ++ B "/".

Lemma path_join_relative a b : starts_with (B "/") b = false -> path_join a b = as_prefix a ++ b.
Proof. intros Hb. unfold path_join, as_prefix. rewrite Hb. destruct (_ || _); [done|]. by rewrite <- app_assoc. Qed.

Lemma relative_app c a b : head a = Some c -> c <> "/"%char -> starts_with (B "/") (a ++ b) = false.
Proof.
  intros Ha Hc. destruct (starts_with (B "/") (a ++ b)) eqn:E; [|done]. exfalso.
  change (B "/") with ["/"%char] in E. apply starts_with_head in E. destruct a; [done|]. cbn in *. congruence.
Qed.

Lemma valid_name_relative s suffix : valid_name s -> starts_with (B "/") (s ++ suffix) = false.
Proof.
  intros Hv. destruct (valid_name_slash s Hv) as [Hs _]. destruct Hv as (Hne & _). destruct s as [|c s]; [done|].
  apply (relative_app c); [done|]. set_solver.
Qed.

Definition oci_prefix (images : bytes) : bytes := as_prefix (path_join images (B "oci")).

Lemma import_file images s : valid_name s ->
  path_join (path_join images (B "oci")) (s ++ B ".sqfs") = oci_prefix images ++ s ++ B ".sqfs".
Proof. intros Hv. apply path_join_relative. by apply valid_name_relative. Qed.

Lemma from_slug_Ok s f : from_slug s = Ok f <-> s = flavor_slug f.
Proof.
  unfold from_slug. split.
  - repeat match goal with |- context [beq s ?x] => let E := fresh in destruct (beq s x) eqn:E;
      [apply beq_true in E; intros [= <-]; exact E|] end. done.
  - intros ->. by destruct f.
Qed.

Lemma parse_iff s b : is_utf8 s = true -> parse s = Ok b <-> valid_ref b /\ s = slug b.
Proof.
  intros Hs. unfold parse. destruct (strip_prefix IMPORTED_PREFIX s) as [name|] eqn:E.
  - pose proof E as E'. apply strip_prefix_Some in E. 
    assert (Hn : is_utf8 name = true).
    { rewrite E in Hs. unfold is_utf8 in Hs. rewrite utf8_items_app, forallb_app in Hs by done.
      by apply andb_true_iff in Hs as [_ ?]. }
    split.
    + intros (p & Hp & [= <-])%rbind_Ok. destruct (imported_image_path _ _) eqn:Ei; [|done].
      apply imported_path_iff in Ei as [? _]; done.
    + destruct b as [f|n]; cbn [slug valid_ref]; intros [Hv Es].
      * exfalso. rewrite Es in E'. by destruct f.
      * rewrite E in Es. apply app_inv_head in Es as ->.
        assert (Hi : imported_image_path (B "/") n = Ok (path_join (path_join (B "/") (B "oci")) (n ++ B ".sqfs")))
          by (by apply imported_path_iff). by rewrite Hi.
  - split.
    + destruct (from_slug s) as [f|e] eqn:Ef; [|done]. intros [= <-]. by apply from_slug_Ok in Ef.
    + destruct b as [f|n]; intros [_ Es].
      * cbn in Es. apply from_slug_Ok in Es. by rewrite Es.
      * exfalso. cbn [slug] in Es. assert (strip_prefix IMPORTED_PREFIX s = Some n) by (by apply strip_prefix_Some). congruence.
Qed.

(** *** The name derived from a source *)

Lemma trim_start_spec (p : ascii -> bool) s :
  trim_start_matches p s `suffix_of` s /\ (forall c, head (trim_start_matches p s) = Some c -> p c = false).
Proof.
  induction s as [|x s [IH1 IH2]]; cbn [trim_start_matches]; [done|]. destruct (p x) eqn:E.
  - split; [by apply suffix_cons_r|done].
  - split; [done|]. by intros c [= <-].
Qed.

Lemma last_rev {A} (l : list A) : last (rev l) = head l.
Proof. destruct l as [|x l]; [done|]. cbn [rev head]. by rewrite last_snoc. Qed.

Lemma trim_end_spec (p : ascii -> bool) s :
  trim_end_matches p s `prefix_of` s /\ (forall c, last (trim_end_matches p s) = Some c -> p c = false).
Proof.
  unfold trim_end_matches. destruct (trim_start_spec p (rev s)) as [[k Hk] H]. split.
  - exists (rev k). rewrite <- rev_app_distr, <- Hk. by rewrite rev_involutive.
  - intros c. rewrite last_rev. apply H.
Qed.

Lemma head_prefix {A} (a b : list A) : a `prefix_of` b -> a <> [] -> head a = head b.
Proof. intros [k ->]. by destruct a. Qed.

Lemma prefix_elem {A} (a b : list A) x : a `prefix_of` b -> x ∈ a -> x ∈ b.
Proof. intros [k ->] H. set_solver. Qed.

Lemma suffix_elem {A} (a b : list A) x : a `suffix_of` b -> x ∈ a -> x ∈ b.
Proof. intros [k ->] H. set_solver. Qed.

Lemma slug_bytes source : Forall (fun c => name_byte c = true) (fold_left push_slug (chars source) []).
Proof.
  assert (H : forall l out, Forall (fun c => name_byte c = true) out -> Forall (fun c => name_byte c = true) (fold_left push_slug l out)).
  { induction l as [|c l IH]; intros out Ho; cbn [fold_left]; [done|]. apply IH. unfold push_slug.
    destruct (_ || _) eqn:E; [|destruct (ends_with _ _); [done|]; apply Forall_app; split; [done|by repeat constructor]].
    apply Forall_app. split; [done|]. repeat constructor. unfold name_byte, name_char.
    assert (Hc : name_char c = true).
    { unfold name_char. apply orb_true_iff in E as [->|E]; [done|]. apply orb_true_iff. right. cbn [existsb] in *.
      rewrite !orb_true_iff in *. tauto. }
    rewrite code_of_N by (apply name_char_ascii in Hc; lia). exact Hc. }
  by apply H.
Qed.

(** What [slug_for] gives is a name but for its length. *)
Lemma slug_for_name source : let s := slug_for source in
  s <> [] /\ Forall (fun c => name_byte c = true) s /\ head s <> Some "."%char /\ head s <> Some "-"%char /\
  last s <> Some "."%char /\ last s <> Some "-"%char.
Proof.
  unfold slug_for. set (out := fold_left push_slug _ _).
  destruct (beq (trim_matches dash_or_dot out) []) eqn:E; [vm_compute; split_and!; try done; repeat constructor|].
  assert (Hne : trim_matches dash_or_dot out <> []) by (intros H; rewrite H in E; done).
  unfold trim_matches in *. destruct (trim_start_spec dash_or_dot out) as [Hs Hh].
  destruct (trim_end_spec dash_or_dot (trim_start_matches dash_or_dot out)) as [Hp Hl]. cbn zeta.
  pose proof (head_prefix _ _ Hp Hne) as Hhd.
  split_and!; [done| |intros H|intros H|intros H|intros H].
  - apply Forall_forall. intros x Hx. pose proof (slug_bytes source) as Hb. rewrite Forall_forall in Hb. apply Hb.
    eapply suffix_elem, prefix_elem; eassumption.
  - rewrite Hhd in H. apply Hh in H. done.
  - rewrite Hhd in H. apply Hh in H. done.
  - apply Hl in H. done.
  - apply Hl in H. done.
Qed.

Lemma name_byte_ascii c : name_byte c = true -> (code c < 128)%N.
Proof. apply name_char_ascii. Qed.

Lemma utf8_of_ascii s : Forall (fun c => (code c < 128)%N) s -> is_utf8 s = true.
Proof.
  unfold is_utf8. induction 1 as [|c s Hc _ IH]; [done|]. cbn [utf8_items]. apply N.ltb_lt in Hc. rewrite Hc. done.
Qed.

Lemma valid_name_utf8 s : Forall (fun c => name_byte c = true) s -> is_utf8 s = true.
Proof. intros H. apply utf8_of_ascii. eapply Forall_impl; [exact H|]. apply name_byte_ascii. Qed.

(** *** Keys of the blob cache *)

Section cache_keys.
Context (sha256_hex : bytes -> bytes).
(** The digest of SHA-256 in lowercase hex. *)
Hypothesis hex_len : forall s, length (sha256_hex s) = 64%nat.
Hypothesis hex_bytes : forall s, Forall (fun c => is_lower_hex c = true) (sha256_hex s).

Lemma cache_key_parts reference : exists readable, readable `prefix_of` slug_for reference /\ (length readable <= 48)%nat /\
  blob_cache_key sha256_hex reference = readable ++ B "-" ++ take 16 (sha256_hex reference).
Proof using.
  unfold blob_cache_key. eexists. split; [|split; [|done]].
  - etrans; [apply trim_end_spec|]. apply prefix_take.
  - destruct (trim_end_spec dash_or_dot (take CACHE_NAME_MAX (slug_for reference))) as [Hp _].
    apply prefix_length in Hp. rewrite length_take in Hp. unfold CACHE_NAME_MAX in *. lia.
Qed.

Lemma hex_name_byte c : is_lower_hex c = true -> name_byte c = true.
Proof using.
  unfold is_lower_hex, is_ascii_digit. intros H. unfold name_byte, name_char, char_alphanumeric.
  assert (Hc : (48 <= code c <= 57)%N \/ (97 <= code c <= 102)%N) by (apply orb_true_iff in H as [H|H]; apply between_range in H; lia).
  assert ((code c <? 128)%N = true) as -> by (apply N.ltb_lt; lia). unfold code at 1. rewrite ascii_N_embedding. cbn [andb].
  assert (is_ascii_alphanumeric c = true) as ->; [|done].
  unfold is_ascii_alphanumeric, is_ascii_alphabetic, is_ascii_digit, is_ascii_lowercase.
  rewrite !orb_true_iff, !between_range. lia.
Qed.

Lemma cache_key_spec reference :
  Forall (fun c => name_byte c = true) (blob_cache_key sha256_hex reference) /\
  (17 <= length (blob_cache_key sha256_hex reference) <= 65)%nat.
Proof using hex_len hex_bytes.
  destruct (cache_key_parts reference) as (rd & Hp & Hl & ->). split.
  - rewrite !Forall_app. split_and!.
    + apply Forall_forall. intros x Hx. destruct (slug_for_name reference) as (_ & Hf & _). rewrite Forall_forall in Hf.
      apply Hf. by eapply prefix_elem.
    + by repeat constructor.
    + apply Forall_take. eapply Forall_impl; [apply hex_bytes|]. apply hex_name_byte.
  - rewrite !length_app, length_take, hex_len. change (length (B "-")) with 1%nat. lia.
Qed.

Lemma cache_key_digest r1 r2 : blob_cache_key sha256_hex r1 = blob_cache_key sha256_hex r2 ->
  take 16 (sha256_hex r1) = take 16 (sha256_hex r2).
Proof using hex_len.
  destruct (cache_key_parts r1) as (a & _ & _ & ->). destruct (cache_key_parts r2) as (b & _ & _ & ->).
  rewrite !app_assoc. intros H. apply app_inj_2 in H as [_ ?]; [done|]. by rewrite !length_take, !hex_len.
Qed.
End cache_keys.

(** *** Defaults under a run *)

Lemma from_provenance_names p k v : (k, v) ∈ default_env (from_provenance p) -> k <> [] /\ "="%char ∉ k.
Proof.
  cbn. rewrite list_elem_of_In, filter_In, <- list_elem_of_In, list_elem_of_omap. intros [(kv & _ & Hs) Hk].
  apply split_once_Some in Hs as [_ ?]. split; [|done]. intros ->. done.
Qed.

Definition of_key (k : bytes) (env : list (bytes * bytes)) : list (bytes * bytes) :=
  List.filter (fun kv => beq (fst kv) k) env.

Lemma of_key_named k env : existsb (beq k) (map fst env) = false -> of_key k env = [].
Proof.
  unfold of_key. induction env as [|[k1 v] env IH]; cbn [List.filter map existsb fst]; [done|].
  intros [H1 H2]%orb_false_iff. rewrite IH by done.
  destruct (beq k1 k) eqn:E; [|done]. apply beq_true in E as ->. assert (beq k k = true) by by apply beq_true. congruence.
Qed.

Lemma of_key_under k (env img : list (bytes * bytes)) :
  of_key k (List.filter (fun kv => negb (existsb (beq (fst kv)) (map fst env))) img) =
  if existsb (beq k) (map fst env) then [] else of_key k img.
Proof.
  unfold of_key. induction img as [|[k1 v] img IH]; cbn [List.filter fst]; [by destruct (existsb _ _)|].
  destruct (existsb (beq k1) (map fst env)) eqn:E1; cbn [negb List.filter fst]; rewrite IH;
    (destruct (beq k1 k) eqn:E; [apply beq_true in E as ->; by rewrite E1|by destruct (existsb _ _)]).
Qed.

Lemma run_defaults_spec d env cwd : let (e, c) := apply d env cwd in
  (forall k, of_key k e = if existsb (beq k) (map fst env) then of_key k env else of_key k (default_env d)) /\
  (exists img, e = img ++ env) /\
  c = match cwd with Some _ => cwd | None => default_cwd d end.
Proof.
  unfold apply. destruct (default_env d) as [|kv l] eqn:Ed.
  - split_and!; [intros k|by exists []|by destruct cwd]. destruct (existsb _ _) eqn:E; [done|]. by rewrite (of_key_named k env).
  - split_and!; [|by eexists|by destruct cwd]. intros k. rewrite <- Ed. unfold of_key. rewrite List.filter_app.
    change (of_key k (List.filter (fun kv => negb (existsb (beq (fst kv)) (map fst env))) (default_env d)) ++ of_key k env =
      (if existsb (beq k) (map fst env) then of_key k env else of_key k (default_env d))).
    rewrite of_key_under. destruct (existsb _ _) eqn:E; [done|]. rewrite (of_key_named k env), app_nil_r by done. done.
Qed.

(** *** What the host accepts, the guest accepts *)

Lemma contains_has c s : contains c s = Server.has c s.
Proof. done. Qed.

Lemma validate_env_guest debug_str env e : validate_env env = Ok tt ->
  set_request_env debug_str env e = Ok (fold_left set_env env e).
Proof.
  revert e. induction env as [|[k v] env IH]; intros e; cbn [validate_env set_request_env fold_left]; [done|].
  unfold validate_env_pair. change (Server.NUL) with nul. unfold Server.has.
  destruct (beq k []); [done|]. change (contains "=" k) with (existsb (Ascii.eqb "=") k).
  change (contains nul k) with (existsb (Ascii.eqb nul) k). change (contains nul v) with (existsb (Ascii.eqb nul) v).
  destruct (_ || _); [done|]. destruct (existsb _ v); [done|]. cbn [rbind]. intros H. by rewrite (IH _ H).
Qed.

Lemma validate_env_Ok env : validate_env env = Ok tt ->
  Forall (fun kv => fst kv <> [] /\ "="%char ∉ fst kv /\ nul ∉ fst kv /\ nul ∉ snd kv) env.
Proof.
  induction env as [|[k v] env IH]; cbn [validate_env]; [by constructor|].
  destruct (beq k []) eqn:E0; [done|]. destruct (contains "=" k) eqn:E1; [done|]. destruct (contains nul k) eqn:E2; [done|].
  cbn [orb]. destruct (contains nul v) eqn:E3; [done|]. intros H. constructor; [|by apply IH]. cbn [fst snd].
  apply contains_false in E1, E2, E3. split_and!; try done. by intros ->.
Qed.

Lemma parse_env_kv_Ok items env : parse_env_kv items = Ok env ->
  map (fun kv => fst kv ++ "="%char :: snd kv) env = items /\ Forall (fun kv => fst kv <> [] /\ "="%char ∉ fst kv) env.
Proof.
  unfold parse_env_kv. revert env. induction items as [|i items IH]; intros env; cbn [traverse]; [by intros [= <-]|].
  intros (kv & Hk & (r & Hr & [= <-])%rbind_Ok)%rbind_Ok. apply IH in Hr as [<- Hf].
  destruct (split_once "=" i) as [[[|c k] v]|] eqn:E; [done| |done]. injection Hk as <-.
  apply split_once_Some in E as [-> Hc]. split; [done|]. by constructor.
Qed.

Definition first_of {A} (x y : option A) : option A := match x with Some _ => x | None => y end.

Lemma assoc_last_go l k : forall acc,
  fold_left (fun acc (kv : bytes * bytes) => if bool_decide (fst kv = k) then Some (snd kv) else acc) l acc =
  first_of (assoc_last l k) acc.
Proof.
  unfold assoc_last. induction l as [|[k1 v] l IH]; intros acc; cbn [fold_left fst snd]; [done|].
  rewrite IH, (IH (if bool_decide _ then _ else _)). unfold first_of.
  destruct (fold_left _ l None); [done|]. by case_bool_decide.
Qed.

Lemma assoc_last_app a b k : assoc_last (a ++ b) k = first_of (assoc_last b k) (assoc_last a k).
Proof. unfold assoc_last at 1. rewrite fold_left_app. apply assoc_last_go. Qed.

Lemma assoc_last_of_key l k : assoc_last l k = assoc_last (of_key k l) k.
Proof.
  unfold of_key. induction l as [|[k1 v] l IH] using rev_ind; [done|]. rewrite List.filter_app, !assoc_last_app, IH.
  cbn [List.filter fst]. destruct (beq k1 k) eqn:E; [done|]. unfold assoc_last at 1. cbn [fold_left fst snd].
  rewrite bool_decide_eq_false_2; [done|]. intros ->. assert (beq k k = true) by by apply beq_true. congruence.
Qed.

Lemma assoc_last_named l k : existsb (beq k) (map fst l) = true -> is_Some (assoc_last l k).
Proof.
  induction l as [|[k1 v] l IH] using rev_ind; [done|]. rewrite map_app, existsb_app, orb_true_iff, assoc_last_app.
  intros [H|H]; cbn in *.
  - apply IH in H as [x Hx]. rewrite Hx. unfold first_of. case_match; by eexists.
  - rewrite orb_false_r in H. apply beq_true in H as ->. unfold assoc_last. cbn. rewrite bool_decide_eq_true_2 by done. by eexists.
Qed.

(** The value of a variable under the merge. *)
Lemma apply_assoc d env cwd k :
  assoc_last (fst (apply d env cwd)) k = first_of (assoc_last env k) (assoc_last (default_env d) k).
Proof.
  pose proof (run_defaults_spec d env cwd) as H. destruct (apply d env cwd) as [e c]. destruct H as (Hk & _). cbn [fst].
  rewrite assoc_last_of_key, Hk. destruct (existsb _ _) eqn:E; rewrite <- assoc_last_of_key.
  - apply assoc_last_named in E as [x ->]. done.
  - rewrite (assoc_last_of_key env), (of_key_named k env) by done. done.
Qed.

(** *** The theorems *)

(** C30: a base is one string and a string is one base: what a reference prints, and a stage records,
    parses back to that reference, whatever the reference, and a string that parses is what its reference
    prints.  The image of an import is a file of its own directly under [images/oci], and two imports have
    two files. *)
Theorem base_names_roundtrip images s b : is_utf8 s = true ->
  (parse s = Ok b <-> valid_ref b /\ s = slug b) /\
  (forall name p, b = Imported name -> parse s = Ok b -> imported_image_path images name = Ok p ->
     p = oci_prefix images ++ name ++ B ".sqfs" /\ ("/"%char ∉ name) /\ (nul ∉ name) /\
     forall name', is_utf8 name' = true -> imported_image_path images name' = Ok p -> name' = name).
Proof.
  intros Hs. split; [by apply parse_iff|]. intros name p -> Hp Hi. apply parse_iff in Hp as [Hv _]; [|done].
  assert (Hn : is_utf8 name = true) by (apply valid_name_utf8, Hv).
  apply imported_path_iff in Hi as [_ ->]; [|done]. rewrite import_file by done.
  destruct (valid_name_slash _ Hv). split_and!; try done. intros name' Hu Hi.
  apply imported_path_iff in Hi as [Hv' E]; [|done]. rewrite import_file in E by done.
  apply app_inv_head in E. symmetry. by apply app_inv_tail in E.
Qed.

(** The name an import derives from its source is accepted exactly when it is not too long, and the
    directory that caches a reference's blobs is one path component, bounded, the same for two
    references only if the first sixteen digits of their digests are. *)
Theorem derived_names sha256_hex source r1 r2 :
  (forall s, length (sha256_hex s) = 64%nat) -> (forall s, Forall (fun c => is_lower_hex c = true) (sha256_hex s)) ->
  validate_slug (slug_for source) =
    (if (128 <? Text.len (slug_for source))%Z then Err (LongName (slug_for source)) else Ok tt) /\
  (let k := blob_cache_key sha256_hex r1 in
   ("/"%char ∉ k) /\ k <> [] /\ k <> B "." /\ k <> B ".." /\ (length k <= 65)%nat) /\
  (blob_cache_key sha256_hex r1 = blob_cache_key sha256_hex r2 -> take 16 (sha256_hex r1) = take 16 (sha256_hex r2)).
Proof.
  intros Hl Hh. split_and!.
  - destruct (slug_for_name source) as (Hne & Hf & H1 & H2 & _). destruct (Z.ltb_spec 128 (Text.len (slug_for source))) as [Hlt|Hle].
    + unfold validate_slug. destruct (beq _ []) eqn:E; [by apply beq_true in E|]. apply Z.ltb_lt in Hlt. by rewrite Hlt.
    + apply validate_slug_iff; [by apply valid_name_utf8|]. unfold Text.len in Hle. split_and!; try done. lia.
  - destruct (cache_key_spec sha256_hex Hl Hh r1) as [Hf Hb]. cbn zeta. rewrite Forall_forall in Hf. split_and!.
    + intros Hin. apply Hf in Hin. by vm_compute in Hin.
    + intros E. rewrite E in Hb. change (length (@nil ascii)) with 0%nat in Hb. lia.
    + intros E. rewrite E in Hb. change (length (B ".")) with 1%nat in Hb. lia.
    + intros E. rewrite E in Hb. change (length (B "..")) with 2%nat in Hb. lia.
    + lia.
  - by apply cache_key_digest.
Qed.

(** The variables of a command that runs on an imported base: the run's own value, or else the
    image's, or else the guest's proxy settings, or else the guest's baseline; what the host's check
    accepted the guest never refuses; and the directory is the run's, or else the image's. *)
Theorem imported_environment debug_str p env cwd proxy w req cmd :
  let d := from_provenance p in let (e, c) := apply d env cwd in
  validate_env e = Ok tt ->
  is_ok (set_request_env debug_str e ∅) = true /\
  (Rpc.exec_env req = e -> Rpc.cwd req = c -> command debug_str proxy w req = Ok cmd ->
   (forall k, environ cmd !! k =
      first_of (assoc_last env k) (first_of (assoc_last (default_env d) k) (assoc_last (BASE_ENV ++ proxy) k))) /\
   current_dir cmd = default DEFAULT_CWD (match cwd with Some _ => cwd | None => default_cwd d end)).
Proof.
  cbn zeta. pose proof (run_defaults_spec (from_provenance p) env cwd) as Ha. pose proof (apply_assoc (from_provenance p) env cwd) as Hk.
  destruct (apply _ _ _) as [e c]. destruct Ha as (_ & _ & Hc). cbn [fst] in Hk. intros Hv.
  split; [by rewrite (validate_env_guest debug_str _ _ Hv)|]. intros He Hcw. unfold command.
  set (base := fold_left set_env proxy (fold_left set_env BASE_ENV ∅)).
  destruct (Rpc.argv req) as [|prog l]; [done|]. rewrite He, (validate_env_guest debug_str _ _ Hv), Hcw.
  cbn [rbind]. intros (u & _ & [= <-])%rbind_Ok. cbn [environ current_dir]. split; [|by rewrite Hc].
  intros k. subst base. rewrite !fold_set_env, lookup_empty, !assoc_last_go, assoc_last_app, Hk.
  change (fold_left (fun acc (kv : bytes * bytes) => if bool_decide (fst kv = k) then Some (snd kv) else acc) BASE_ENV None) with (assoc_last BASE_ENV k).
  unfold first_of. by destruct (assoc_last env k), (assoc_last (default_env (from_provenance p)) k), (assoc_last proxy k), (assoc_last BASE_ENV k).
Qed.

(** ** Concrete names *)

Example slugs :
  slug_for (B "alpine:3.20") = B "alpine-3.20" /\ slug_for (B "ghcr.io/org/app:v1") = B "ghcr.io-org-app-v1" /\
  slug_for (B "///") = B "image" /\ slug_for (B "./out//layout/") = B "out-layout" /\
  slug_for (B "a/b:c") = slug_for (B "a-b-c").
Proof. by vm_compute. Qed.

Example refusals :
  map (fun s => is_ok (parse (B s))) ["oci:../escape"; "oci:a/b"; "oci:"; "oci:.hidden"; "oci:has space"; "alpine-3.20"]%string =
  repeat false 6 /\
  imported_name (B "base-alpine") = Err (BuiltinName (B "base-alpine")) /\
  imported_name (B "oci:base-alpine") = Ok (B "base-alpine").
Proof. by vm_compute. Qed.

(** A name can be derived that is refused for its length. *)
Example long_derived_name :
  let source := B "registry.example.org/" ++ repeat "a"%char 120 in
  validate_slug (slug_for source) = Err (LongName (B "registry.example.org-" ++ repeat "a"%char 120)).
Proof. by vm_compute. Qed.

Lemma base_names_roundtrip_witness :
  parse (B "oci:alpine-3.20") = Ok (Imported (B "alpine-3.20")) /\
  (forall name', is_utf8 name' = true ->
     imported_image_path (B "/images") name' = Ok (B "/images/oci/alpine-3.20.sqfs") -> name' = B "alpine-3.20").
Proof.
  destruct (base_names_roundtrip (B "/images") (B "oci:alpine-3.20") (Imported (B "alpine-3.20")) eq_refl) as [_ H].
  split; [by vm_compute|]. apply (H (B "alpine-3.20") (B "/images/oci/alpine-3.20.sqfs")); by vm_compute.
Defined.

(** A digest that gives each text one that starts with its length. *)
Definition length_hex (s : bytes) : bytes :=
  let d := show_N (N.of_nat (length s)) in take 64 (d ++ repeat "0"%char 64).

Lemma length_hex_ok : (forall s, length (length_hex s) = 64%nat) /\
  (forall s, Forall (fun c => is_lower_hex c = true) (length_hex s)).
Proof.
  split; intros s; unfold length_hex.
  - rewrite length_take, length_app, repeat_length. lia.
  - apply Forall_take, Forall_app. split; [|by repeat constructor]. pose proof (show_N_digits (N.of_nat (length s))) as H.
    apply forallb_Forall_true in H. eapply Forall_impl; [exact H|]. intros c Hc. unfold is_lower_hex. by rewrite Hc.
Qed.

Lemma derived_names_witness :
  validate_slug (slug_for (B "ghcr.io/org/app:v1")) = Ok tt /\
  blob_cache_key length_hex (B "a/b:c1") <> blob_cache_key length_hex (B "a-b-c").
Proof.
  destruct length_hex_ok as [Hl Hh].
  destruct (derived_names length_hex (B "ghcr.io/org/app:v1") (B "a/b:c1") (B "a-b-c") Hl Hh) as (H1 & _ & H3).
  split; [exact H1|]. intros E. apply H3 in E. by vm_compute in E.
Defined.

Definition python_image : OciProvenance :=
  MkProvenance (B "python:3.12") (B "linux/amd64") (B "sha256:aa") (B "sha256:bb") []
    [B "PATH=/usr/local/bin:/usr/bin"; B "LANG=C.UTF-8"; B "NOEQUALS"; B "=novalue"; B "EMPTY="]
    (Some (B "/app")) [] [B "python3"] None false [].

Definition run_request (env : list (bytes * bytes)) (cwd : option bytes) : Rpc.ExecRequest :=
  Rpc.MkExec [B "python3"] env cwd (Some 1000%N) None.

(** The image's interpreter is found: its [PATH] is under the run's, above the guest's. *)
Lemma imported_environment_witness :
  match command no_debug [] busy (run_request [(B "LANG", B "C"); (B "EMPTY", B "1")] None) with Ok _ => True | Err _ => False end /\
  let '(e, c) := apply (from_provenance python_image) [(B "LANG", B "C")] None in
  match command no_debug [] busy (run_request e c) with
  | Ok cmd => environ cmd !! B "PATH" = Some (B "/usr/local/bin:/usr/bin") /\ environ cmd !! B "LANG" = Some (B "C") /\
              environ cmd !! B "HOME" = Some (B "/root") /\ current_dir cmd = B "/app"
  | Err _ => False
  end.
Proof.
  split; [by vm_compute|].
  pose proof (imported_environment no_debug python_image [(B "LANG", B "C")] None [] busy
    (run_request (fst (apply (from_provenance python_image) [(B "LANG", B "C")] None))
                 (snd (apply (from_provenance python_image) [(B "LANG", B "C")] None)))) as H.
  cbv beta iota zeta in H.
  destruct (apply (from_provenance python_image) [(B "LANG", B "C")] None) as [e c] eqn:Ea. cbn [fst snd] in H.
  destruct (command no_debug [] busy (run_request e c)) as [cmd|x] eqn:E.
  - specialize (H cmd). destruct H as [_ H]; [injection Ea as <- <-; by vm_compute|].
    destruct (H eq_refl eq_refl eq_refl) as [Hk Hd]. rewrite !Hk, Hd. by vm_compute.
  - injection Ea as <- <-. by vm_compute in E.
Defined.
