(* ===== verification/Paper.v ===== *)
(** * A codec for concrete runs

    The developments of components that store records as text take the codec as a parameter with its
    round trip as a hypothesis.  This is one that satisfies it, linear in the data, for their concrete
    runs: a string is its bytes, each after a mark, and a full stop. *)
From S2P Require Import Prelude Text.

Class Codec (A : Type) : Type := {
  put : A -> bytes;
  get : bytes -> option (A * bytes);
  get_put : forall a r, get (put a ++ r) = Some (a, r) }.

Fixpoint put_bytes (s : bytes) : bytes :=
  match s with [] => ["."%char] | c :: s => "x"%char :: c :: put_bytes s end.

Fixpoint get_bytes (s : bytes) : option (bytes * bytes) :=
  match s with
  | m :: r =>
      if Ascii.eqb m "." then Some ([], r)
      else match r with
           | c :: r => match get_bytes r with Some (t, r) => Some (c :: t, r) | None => None end
           | [] => None
           end
  | [] => None
  end.

#[export] Instance codec_bytes : Codec bytes.
Proof.
  refine {| put := put_bytes; get := get_bytes |}.
  intros a r. induction a as [|c a IH]; [done|]. cbn. by rewrite IH.
Defined.

#[export] Instance codec_N : Codec N.
Proof.
  refine {| put (n : N) := put (show_N n);
            get s := match get s with Some (d, r) => Some (value_of d, r) | None => None end |}.
  intros n r. by rewrite get_put, value_of_show_N.
Defined.

#[export] Instance codec_bool : Codec bool.
Proof.
  refine {| put (b : bool) := [if b then "t"%char else "f"%char];
            get s := match s with m :: r => Some (Ascii.eqb m "t", r) | [] => None end |}.
  intros [] r; reflexivity.
Defined.

#[export] Instance codec_prod {A B} `{Codec A, Codec B} : Codec (A * B).
Proof.
  refine {| put (p : A * B) := put (fst p) ++ put (snd p);
            get s := match get s with
                     | Some (a, r) => match get r with Some (b, r) => Some ((a, b), r) | None => None end
                     | None => None
                     end |}.
  intros [a b] r. cbn [fst snd]. by rewrite <- app_assoc, get_put, get_put.
Defined.

#[export] Instance codec_option {A} `{Codec A} : Codec (option A).
Proof.
  refine {| put (o : option A) := match o with Some a => "+"%char :: put a | None => ["."%char] end;
            get s := match s with
                     | m :: r => if Ascii.eqb m "." then Some (None, r)
                                 else match get r with Some (a, r) => Some (Some a, r) | None => None end
                     | [] => None
                     end |}.
  intros [a|] r; [|done]. cbn. by rewrite get_put.
Defined.

(** As many items as the count says. *)
Fixpoint get_items {A} `{Codec A} (n : nat) (s : bytes) : option (list A * bytes) :=
  match n with
  | O => Some ([], s)
  | S n => match get s with
           | Some (a, r) => match get_items n r with Some (l, r) => Some (a :: l, r) | None => None end
           | None => None
           end
  end.

#[export] Instance codec_list {A} `{Codec A} : Codec (list A).
Proof.
  refine {| put (l : list A) := put (N.of_nat (length l)) ++ concat (map put l);
            get s := match get s with Some (n, r) => get_items (N.to_nat n) r | None => None end |}.
  intros l r. rewrite <- app_assoc, get_put, Nat2N.id.
  induction l as [|a l IH]; [done|]. cbn [length map concat get_items]. by rewrite <- app_assoc, get_put, IH.
Defined.

(** A record by its fields. *)
Definition codec_record {A T} `{Codec T} (to : A -> T) (from : T -> A) (back : forall a, from (to a) = a) : Codec A.
Proof.
  refine {| put a := put (to a); get s := match get s with Some (t, r) => Some (from t, r) | None => None end |}.
  intros a r. by rewrite get_put, back.
Defined.

(** A whole text. *)
Definition print {A} `{Codec A} (a : A) : bytes := put a.
Definition scan {A} `{Codec A} (s : bytes) : option A :=
  match get s with Some (a, []) => Some a | _ => None end.

Lemma scan_print {A} `{Codec A} (a : A) : scan (print a) = Some a.
Proof. unfold scan, print. rewrite <- (app_nil_r (put a)). by rewrite get_put. Qed.
