(* ===== verification/Images.v ===== *)
(** * Images ([crates/core/src/image/rootfs.rs], [import/mod.rs], [base.rs], and the base of a run in
    [vm/mod.rs])

    An image is a file under [images/], built or imported, and beside it a stamp, [<image>.meta.json],
    which records the protocol and the agent that the image was made with and the digest of its bytes.
    The digest is what a stage records of its base and what the warm pool keys on, so a stamp must
    never stand beside other bytes.

    The state is the disk: what lies under each path.  The file has the guest agent's check, the
    publication and the removal of an image and its stamp, the checks before a boot, the listing, the
    removal of an import against the stages that stand on it, and the choice of the base of a run.
    Every call that reads or changes the disk may fail, by an oracle, so the state in which a run of
    an operation is abandoned is one of the states in which a failing call leaves it.  SHA-256, the JSON
    codec, the clock and the bytes that a failed write leaves are parameters. *)
From stdpp Require Import fin_maps sorting.
From S2P Require Import Prelude Text Effects Order Digest Rpc Stage Base Paper.

(** ** The guest agent *)

(** [u16::from_le_bytes] and its kin, at an offset inside the data. *)
Definition byte_at (data : bytes) (o : N) : N := match data !! N.to_nat o with Some c => code c | None => 0 end.
Fixpoint le (n : nat) (data : bytes) (o : N) : N :=
  match n with O => 0 | S n => (byte_at data o + 256 * le n data (o + 1))%N end.

Definition usize_mod : N := 18446744073709551616.

(** The scan of the program headers: [None] where an index is out of range, which panics.  The
    offsets wrap, as release builds do. *)
Fixpoint scan_headers (data : bytes) (phoff phentsize : N) (n : nat) (i : N) : option bool :=
  match n with
  | O => Some true
  | S n =>
      let off := ((phoff + i * phentsize) mod usize_mod)%N in
      if (N.of_nat (length data) <? (off + 4) mod usize_mod)%N then Some true
      else if (N.of_nat (length data) <? off + 4)%N then None
      else if (le 4 data off =? 3)%N then Some false
      else scan_headers data phoff phentsize n (i + 1)
  end.

Definition elf_is_static_x86_64 (data : bytes) : option bool :=
  if (length data <? 64)%nat || negb (beq (take 4 data) (ascii_of_N 127 :: B "ELF")) then Some false
  else if negb (byte_at data 4 =? 2)%N then Some false
  else if negb (le 2 data 18 =? 62)%N then Some false
  else if (le 2 data 54 =? 0)%N then Some false
  else scan_headers data (le 8 data 32) (le 2 data 54) (N.to_nat (le 2 data 56)) 0.

(** ** The disk *)

(** What a path leads to: a link to a file counts as one. *)
Inductive node : Type := Regular (content : bytes) | Directory | Dangling.
#[export] Instance node_eq_dec : EqDecision node.
Proof. solve_decision. Defined.
Abbreviation Disk := (gmap bytes node).

Definition exists_at (d : Disk) (p : bytes) : bool :=
  match d !! p with Some (Regular _) | Some Directory => true | _ => false end.

Inductive Call : Type :=
  | RemoveFile (p : bytes) | Rename (a b : bytes) | ReadFile (p : bytes) | CreateFile (p : bytes)
  | WriteAll (p : bytes) | SyncAll (p : bytes) | ReadDir (p : bytes).

Inductive Kind : Type := NotFound | Other.
#[export] Instance Kind_eq_dec : EqDecision Kind.
Proof. solve_decision. Defined.

Record ImageMeta : Type := MkMeta {
  flavor : bytes;
  proto_version : option N;
  agent_sha256 : option bytes;
  sha256 : bytes;
  built_unix : N;
  oci : option OciProvenance }.

Inductive ImageError : Type :=
  | IoFailed (c : Call)
  | BadStamp (path : bytes)
  | NoAgent
  | AgentPanic
  | DynamicAgent (path : bytes)
  | WrongName (e : NameError)
  | NotSquashfs (slug : bytes)
  | NotBuilt (path slug : bytes)
  | NotImported (base path : bytes)
  | StaleProto (image : bytes) (v : N)
  | StaleAgent (image stamped host : bytes)
  | StillBase (base : bytes) (holders : list StageMeta)
  | StageRefused (e : StageError)
  | WillNotBoot (why : BaseCheck).

Definition image_meta_path (image : bytes) : bytes := image ++ B ".meta.json".
Definition image_meta_tmp_path (image : bytes) : bytes := image_meta_path image ++ B ".partial".

Section images.
Context (sha256_hex : bytes -> bytes).
(** [serde_json::to_vec_pretty], [from_slice]; the clock; what a failed write leaves of its bytes. *)
Context (to_vec : ImageMeta -> bytes) (from_slice : bytes -> option ImageMeta).
Context (now_unix : N) (torn : bytes -> bytes).
Context (fails : Call -> bool).

Abbreviation Io := (SE Disk ImageError).

(** *** The calls *)

Definition remove_file (p : bytes) : SE Disk Kind unit := fun d =>
  if fails (RemoveFile p) then (Err Other, d)
  else match d !! p with
       | None => (Err NotFound, d)
       | Some Directory => (Err Other, d)
       | Some _ => (Ok tt, delete p d)
       end.

(** [rename] of a file. *)
Definition rename (a b : bytes) : Io unit := fun d =>
  if fails (Rename a b) then (Err (IoFailed (Rename a b)), d)
  else match d !! a, d !! b with
       | Some (Regular c), (None | Some (Regular _) | Some Dangling) => (Ok tt, <[b := Regular c]> (delete a d))
       | _, _ => (Err (IoFailed (Rename a b)), d)
       end.

Definition read_file (d : Disk) (p : bytes) : result bytes Kind :=
  if fails (ReadFile p) then Err Other
  else match d !! p with
       | Some (Regular c) => Ok c
       | Some Directory => Err Other
       | _ => Err NotFound
       end.

Definition create_file (p : bytes) : Io unit := fun d =>
  if fails (CreateFile p) then (Err (IoFailed (CreateFile p)), d)
  else match d !! p with
       | Some Directory => (Err (IoFailed (CreateFile p)), d)
       | _ => (Ok tt, <[p := Regular []]> d)
       end.

Definition write_all (p data : bytes) : Io unit := fun d =>
  if fails (WriteAll p) then (Err (IoFailed (WriteAll p)), <[p := Regular (torn data)]> d)
  else (Ok tt, <[p := Regular data]> d).

Definition sync_all (p : bytes) : Io unit :=
  se_ret (if fails (SyncAll p) then Err (IoFailed (SyncAll p)) else Ok tt).

Definition reading {A} (f : Disk -> result A ImageError) : Io A := fun d => (f d, d).

(** [paths::sha256_file] *)
Definition sha256_file (d : Disk) (p : bytes) : result bytes ImageError :=
  let? c := map_err (fun _ => IoFailed (ReadFile p)) (read_file d p) in Ok (sha256_hex c).

(** *** The agent's place *)

(** [explicit] and [target] are the two environment variables, [root] is [workspace_root()]. *)
Definition locate_guest_agent (explicit target : option bytes) (root : bytes) (d : Disk) : result bytes ImageError :=
  match explicit with
  | Some p => if exists_at d p then Ok p else Err NoAgent
  | None =>
      let bin := path_join (default (path_join root (B "target")) target)
                   (B "x86_64-unknown-linux-musl/release/isopod-guest-agent") in
      let system := B "/usr/lib/isopod/isopod-guest-agent" in
      if exists_at d bin then Ok bin else if exists_at d system then Ok system else Err NoAgent
  end.

Context (explicit target : option bytes) (root : bytes).

Definition locate_checked_agent (d : Disk) : result bytes ImageError :=
  let? agent := locate_guest_agent explicit target root d in
  let? data := map_err (fun _ => IoFailed (ReadFile agent)) (read_file d agent) in
  match elf_is_static_x86_64 data with
  | None => Err AgentPanic
  | Some false => Err (DynamicAgent agent)
  | Some true => Ok agent
  end.

Definition host_agent_sha256 (d : Disk) : option bytes :=
  match locate_guest_agent explicit target root d with
  | Ok agent => match sha256_file d agent with Ok h => Some h | Err _ => None end
  | Err _ => None
  end.

(** *** Stamps *)

Definition write_meta (image : bytes) (meta : ImageMeta) : Io unit :=
  let tmp := image_meta_tmp_path image in
  do! _ := create_file tmp in
  do! _ := write_all tmp (to_vec meta) in
  do! _ := sync_all tmp in
  rename tmp (image_meta_path image).

Definition write_image_meta (f : RootfsFlavor) (image : bytes) : Io unit :=
  do! pa := (if has_agent f then
               reading (fun d =>
                 let? agent := locate_checked_agent d in
                 let? h := sha256_file d agent in
                 Ok (Some PROTO_VERSION, Some h))
             else se_ret (Ok (None, None))) in
  do! sha := reading (fun d => sha256_file d image) in
  write_meta image (MkMeta (flavor_slug f) (fst pa) (snd pa) sha now_unix None).

Definition read_image_meta (d : Disk) (image : bytes) : result (option ImageMeta) ImageError :=
  let path := image_meta_path image in
  match read_file d path with
  | Ok raw => match from_slice raw with Some m => Ok (Some m) | None => Err (BadStamp path) end
  | Err NotFound => Ok None
  | Err Other => Err (IoFailed (ReadFile path))
  end.

(** *** Publishing *)

Definition publish_image (tmp dest : bytes) (stamp : bytes -> Io unit) : Io unit :=
  let sidecar := image_meta_path dest in
  do! r := se_try (remove_file sidecar) in
  match r with
  | Err Other => se_ret (Err (IoFailed (RemoveFile sidecar)))
  | _ => do! _ := rename tmp dest in stamp dest
  end.

(** The end of [build_rootfs]: the packed file goes into its place. *)
Definition publish_built (images tmp : bytes) (f : RootfsFlavor) : Io unit :=
  do! _ := sync_all tmp in
  publish_image tmp (image_dest images f) (write_image_meta f).

Definition publish_imported_image (tmp dest slug : bytes) (provenance : OciProvenance) : Io unit :=
  do! agent := reading locate_checked_agent in
  do! agent_sha := reading (fun d => sha256_file d agent) in
  publish_image tmp dest (fun img =>
    do! sha := reading (fun d => sha256_file d img) in
    write_meta img (MkMeta (B "oci:" ++ slug) (Some PROTO_VERSION) (Some agent_sha) sha now_unix (Some provenance))).

(** *** Before a boot *)

(** What the check reports on its error stream when it lets an image pass. *)
Inductive Notice : Type := NoStamp (image : bytes) | Unreadable (image : bytes) (e : ImageError).

Definition check_image_freshness (d : Disk) (host_agent : option bytes) (image : bytes) :
    result (option Notice) ImageError :=
  match read_image_meta d image with
  | Ok (Some meta) =>
      let? _ := match proto_version meta with
                | Some v => if (v =? PROTO_VERSION)%N then Ok tt else Err (StaleProto image v)
                | None => Ok tt
                end in
      let? _ := match agent_sha256 meta, host_agent with
                | Some stamped, Some host => if beq stamped host then Ok tt else Err (StaleAgent image stamped host)
                | _, _ => Ok tt
                end in
      Ok None
  | Ok None => Ok (Some (NoStamp image))
  | Err e => Ok (Some (Unreadable image e))
  end.

(** [host_agent] is computed once in a process: a parameter from here on. *)
Context (host_agent : option bytes) (images : bytes) (dir_len : N).

Definition check_image_proto (d : Disk) (image : bytes) : result (option Notice) ImageError :=
  check_image_freshness d host_agent image.

Definition base_image_path_in (d : Disk) (f : RootfsFlavor) : result bytes ImageError :=
  if negb (is_squashfs_flavor f) then Err (NotSquashfs (flavor_slug f))
  else
    let dest := image_dest images f in
    if negb (exists_at d dest) then Err (NotBuilt dest (flavor_slug f))
    else let? _ := check_image_proto d dest in Ok dest.

Definition import_path (name : bytes) : result bytes ImageError :=
  map_err WrongName (imported_image_path images name).

Definition image_path_in (d : Disk) (b : BaseRef) : result bytes ImageError :=
  match b with
  | Builtin f => base_image_path_in d f
  | Imported name =>
      let? path := import_path name in
      if negb (exists_at d path) then Err (NotImported (slug b) path)
      else let? _ := check_image_proto d path in Ok path
  end.

Definition base_content_id (d : Disk) (f : RootfsFlavor) : result bytes ImageError :=
  let? m := read_image_meta d (image_dest images f) in
  Ok (match m with Some m => sha256 m | None => B "unstamped" end).

Definition content_id (d : Disk) (b : BaseRef) : result bytes ImageError :=
  match b with
  | Builtin f => base_content_id d f
  | Imported name =>
      let? path := import_path name in
      let? m := read_image_meta d path in
      Ok (match m with Some m => sha256 m | None => B "unstamped" end)
  end.

Definition read_provenance (d : Disk) (image : bytes) : result (option OciProvenance) ImageError :=
  let? m := read_image_meta d image in Ok (m ≫= oci).

Definition provenance_in (d : Disk) (b : BaseRef) : result (option OciProvenance) ImageError :=
  match b with
  | Builtin _ => Ok None
  | Imported name => let? path := import_path name in read_provenance d path
  end.

(** *** The listing *)

Record ImageEntry : Type := MkEntry {
  entry_flavor : bytes; kind : bytes; path : bytes; present : bool; bytes_apparent : option N;
  entry_proto : option N; is_unstamped : bool; stale : bool; stale_reason : option bytes;
  entry_built : option N; entry_source : option bytes }.

Definition image_entry (d : Disk) (path flavor kind : bytes) : result ImageEntry ImageError :=
  let present := exists_at d path in
  let? meta := (if present then read_image_meta d path else Ok None) in
  let bytes_apparent := match d !! path with Some (Regular c) => Some (N.of_nat (length c)) | Some Directory => Some dir_len | _ => None end in
  let proto_version := meta ≫= proto_version in
  let proto_stale := match proto_version with Some v => negb (v =? PROTO_VERSION)%N | None => false end in
  let agent_stale := match meta ≫= agent_sha256, host_agent with
                     | Some stamped, Some host => negb (beq stamped host)
                     | _, _ => false
                     end in
  let stale_reason := if proto_stale then Some (B "proto") else if agent_stale then Some (B "agent") else None in
  Ok (MkEntry flavor kind path present bytes_apparent proto_version
        (present && match meta with None => true | Some _ => false end) (proto_stale || agent_stale) stale_reason
        (option_map built_unix meta) (option_map source_ref (meta ≫= oci))).

(** [Path::extension] and [file_stem] of a name. *)
Definition stem_of (ext name : bytes) : option bytes :=
  match rsplit_once "." name with
  | Some ([], _) => None
  | Some (stem, e) => if beq e ext then Some stem else None
  | None => None
  end.

(** The names directly under a directory's prefix. *)
Definition children (prefix : bytes) (d : Disk) : list bytes :=
  omap (fun kv => match strip_prefix prefix (fst kv) with
                  | Some name => if beq name [] || contains "/" name then None else Some name
                  | None => None
                  end) (map_to_list d).

Definition listed_name (d : Disk) (dir : bytes) (entry : bytes) : option bytes :=
  match stem_of (B "sqfs") entry with
  | Some name =>
      match d !! path_join dir entry with
      | Some (Regular _) => if is_utf8 name && is_ok (validate_slug name) then Some name else None
      | _ => None
      end
  | None => None
  end.

Definition list_imported (d : Disk) : result (list (bytes * bytes)) ImageError :=
  let dir := path_join images (B "oci") in
  match d !! dir with
  | Some Directory =>
      if fails (ReadDir dir) then Err (IoFailed (ReadDir dir))
      else Ok (map (fun n => (n, path_join dir (n ++ B ".sqfs"))) (sort_bytes (omap (listed_name d dir) (children (as_prefix dir) d))))
  | Some (Regular _) => Err (IoFailed (ReadDir dir))
  | _ => Ok []
  end.

Definition list_images_in (d : Disk) : result (list ImageEntry) ImageError :=
  let? built := traverse (fun f => image_entry d (image_dest images f) (flavor_slug f) (B "builtin")) ALL in
  let? imported := list_imported d in
  let? rows := traverse (fun np => image_entry d (snd np) (IMPORTED_PREFIX ++ fst np) (B "imported")) imported in
  Ok (built ++ rows).

(** *** Removing *)

Definition remove_if_present (p : bytes) : Io unit :=
  do! r := se_try (remove_file p) in
  se_ret (match r with Err Other => Err (IoFailed (RemoveFile p)) | _ => Ok tt end).

Definition size_of (d : Disk) (p : bytes) : N :=
  match d !! p with Some (Regular c) => N.of_nat (length c) | _ => 0 end.

Definition remove_image_and_meta (image : bytes) : Io N :=
  do! freed := reading (fun d => Ok (size_of d image)) in
  do! _ := se_map_err (fun _ => IoFailed (RemoveFile image)) (remove_file image) in
  let sidecar := image_meta_path image in
  do! more := reading (fun d => Ok (size_of d sidecar)) in
  do! _ := remove_if_present sidecar in
  do! _ := remove_if_present (image_meta_tmp_path image) in
  se_ret (Ok (freed + more)%N).

(** The stages, listed: [stage::list_in(stages)]. *)
Context (stages : result (list StageMeta) StageError).

Record RemoveOutcome : Type := MkRemoved {
  removed : bytes; removed_path : bytes; bytes_freed : N; forced : bool; orphaned : list StageMeta; kept_cache : option bytes }.

Definition remove_imported_in (spelling : bytes) (force : bool) : Io RemoveOutcome :=
  do! name := se_ret (map_err WrongName (imported_name spelling)) in
  do! path := se_ret (import_path name) in
  do! here := reading (fun d => Ok (exists_at d path)) in
  let base := IMPORTED_PREFIX ++ name in
  if negb here then se_ret (Err (NotImported base path))
  else
    do! all := se_ret (map_err StageRefused stages) in
    let holders := List.filter (fun s => beq (Stage.base s) base) all in
    if negb (length holders =? 0)%nat && negb force then se_ret (Err (StillBase base holders))
    else
      do! prov := reading (fun d => read_provenance d path) in
      do! freed := remove_image_and_meta path in
      se_ret (Ok (MkRemoved base path freed (force && negb (length holders =? 0)%nat)
        (if force then holders else [])
        (option_map (fun p => blob_cache_dir sha256_hex images (source_ref p)) prov))).

(** *** The base of a run ([vm/mod.rs]) *)

Definition STAGE_BASE : bytes := B "base".

Record StagePlan : Type := MkPlan {
  base_sqfs : bytes; plan_base : BaseId; layer_paths : list bytes; plan_parent : option bytes; allow_base_skew : bool }.

Definition base_identity (d : Disk) (base_sqfs slug : bytes) : BaseId :=
  match read_image_meta d base_sqfs with
  | Ok m => MkBaseId slug (option_map sha256 m)
  | Err _ => unstamped slug
  end.

Definition enforce_base_compat_with (verdict : BaseCheck) (allow_skew : bool) : result unit ImageError :=
  match verdict with
  | Fine | Unverifiable _ => Ok tt
  | WrongFlavor _ => Err (WillNotBoot verdict)
  | RebuiltBase _ => if allow_skew then Ok tt else Err (WillNotBoot verdict)
  end.

Context (stage_from_str : bytes -> option StageMeta) (stage_fails : Stage.Call -> bool).

Definition of_stage {A} (r : result A StageError) : result A ImageError := map_err StageRefused r.

Definition resolve_stage_plan_in (store : Store) (d : Disk) (stage_ref : bytes) (base : BaseRef) (allow_base_skew : bool) :
    result StagePlan ImageError :=
  if beq stage_ref STAGE_BASE then
    let? base_sqfs := image_path_in d base in
    Ok (MkPlan base_sqfs (base_identity d base_sqfs (slug base)) [] None allow_base_skew)
  else
    let? meta := of_stage (resolve_in stage_from_str stage_fails store stage_ref) in
    let? recorded_base := map_err WrongName (parse (Stage.base meta)) in
    let? base_sqfs := image_path_in d recorded_base in
    let base_id := base_identity d base_sqfs (slug recorded_base) in
    let? verdict := of_stage (check_base_chain_in stage_from_str store meta base_id) in
    let? _ := enforce_base_compat_with verdict allow_base_skew in
    let? layers := of_stage (chain_paths_in store meta) in
    Ok (MkPlan base_sqfs base_id layers (Some (stage_id meta)) allow_base_skew).
End images.

(** *** The newest kernel *)

(** [newest_with_prefix], of the regular files of a directory: the greatest name with the prefix. *)
Definition newest_with_prefix (names : list bytes) (prefix : bytes) : option bytes :=
  fold_left (fun best name =>
    if negb (starts_with prefix name) then best
    else match best with
         | Some b => if bytes_leb name b then best else Some name
         | None => Some name
         end) names None.

(** ** Stamps and images *)

Section soundness.
Context (sha256_hex : bytes -> bytes) (to_vec : ImageMeta -> bytes) (from_slice : bytes -> option ImageMeta).
(** The codec reads back what it writes. *)
Hypothesis codec : forall m, from_slice (to_vec m) = Some m.
Context (images : bytes).

Definition is_image (p : bytes) : Prop :=
  (exists f, p = image_dest images f) \/ exists n, valid_name n /\ p = oci_prefix images ++ n ++ B ".sqfs".

(** A stamp that can be read stands beside the bytes whose digest it records. *)
Definition vouched (d : Disk) (image : bytes) : Prop :=
  forall c raw m, d !! image = Some (Regular c) -> d !! image_meta_path image = Some (Regular raw) ->
    from_slice raw = Some m -> sha256 m = sha256_hex c.

Definition images_sound (d : Disk) : Prop := forall image, is_image image -> vouched d image.

(** A path that is neither an image nor a stamp of one. *)
Definition aside (p : bytes) : Prop :=
  ~ is_image p /\ forall image, is_image image -> p <> image_meta_path image.

Lemma last_app_Some {A} (a b : list A) x : last b = Some x -> last (a ++ b) = Some x.
Proof. intros H. by rewrite last_app, H. Qed.

Lemma path_join_last a b x : last b = Some x -> last (path_join a b) = Some x.
Proof. intros H. unfold path_join. repeat case_match; [done|by apply last_app_Some|]. by apply last_app_Some, last_app_Some. Qed.

Lemma image_last p : is_image p -> last p = Some "s"%char \/ last p = Some "4"%char.
Proof.
  intros [[[] ->]|(n & _ & ->)]; unfold image_dest; [right|right|left|left|left]; try by apply path_join_last.
  by apply last_app_Some, last_app_Some.
Qed.

Lemma stamp_last p : last (image_meta_path p) = Some "n"%char.
Proof. by apply last_app_Some. Qed.

Lemma partial_last p : last (image_meta_tmp_path p) = Some "l"%char.
Proof. by apply last_app_Some. Qed.

Lemma image_not_stamp p i : is_image p -> p <> image_meta_path i.
Proof. intros Hp ->. apply image_last in Hp. rewrite stamp_last in Hp. naive_solver. Qed.

Lemma partial_aside i : aside (image_meta_tmp_path i).
Proof.
  split.
  - intros Hp. apply image_last in Hp. rewrite partial_last in Hp. naive_solver.
  - intros j _ E. apply (f_equal last) in E. rewrite partial_last, stamp_last in E. naive_solver.
Qed.

Lemma stamp_inj i j : image_meta_path i = image_meta_path j -> i = j.
Proof. apply app_inv_tail. Qed.

(** *** What keeps the invariant *)

Lemma sound_aside d d' p : aside p -> (forall q, q <> p -> d' !! q = d !! q) -> images_sound d -> images_sound d'.
Proof using.
  intros [H1 H2] Hd Hs i Hi c raw m. rewrite !Hd; [by apply Hs| |by intros ->]. intros E. by apply (H2 i).
Qed.

Lemma sound_unstamped d d' i : (forall q, q <> image_meta_path i -> d' !! q = d !! q) -> d' !! image_meta_path i = None ->
  images_sound d -> images_sound d'.
Proof using.
  intros Hd Hn Hs j Hj c raw m. rewrite (Hd j) by by apply image_not_stamp.
  destruct (decide (j = i)) as [->|Hne]; [by rewrite Hn|]. rewrite Hd; [by apply Hs|]. by intros E%stamp_inj.
Qed.

Lemma sound_image d d' i : is_image i -> (forall q, q <> i -> d' !! q = d !! q) ->
  (d' !! i = None \/ d !! image_meta_path i = None) -> images_sound d -> images_sound d'.
Proof using.
  intros Hi Hd Hor Hs j Hj c raw m. rewrite (Hd (image_meta_path j)) by by intros E; apply (image_not_stamp i j).
  destruct (decide (j = i)) as [->|Hne]; [|rewrite Hd by done; by apply Hs]. destruct Hor as [->| ->]; done.
Qed.

Lemma sound_stamp d i c meta : is_image i -> d !! i = Some (Regular c) -> sha256 meta = sha256_hex c ->
  images_sound d -> images_sound (<[image_meta_path i := Regular (to_vec meta)]> d).
Proof using codec.
  intros Hi Hc Hm Hs j Hj c' raw m. destruct (decide (j = i)) as [->|Hne].
  - rewrite lookup_insert_ne by (intros E; by apply (image_not_stamp i i)). rewrite Hc, lookup_insert_eq.
    intros [= <-] [= <-]. rewrite codec. by intros [= <-].
  - rewrite !lookup_insert_ne; [by apply Hs| |]; intros E; [by apply stamp_inj in E|by apply (image_not_stamp j i)].
Qed.

(** *** The operations *)

Section run.
Context (now_unix : N) (torn : bytes -> bytes) (fails : Call -> bool).

Lemma remove_file_cases p d r d' : remove_file fails p d = (r, d') ->
  (forall q, q <> p -> d' !! q = d !! q) /\
  match r with
  | Ok _ => d' !! p = None
  | Err NotFound => d' = d /\ d !! p = None
  | Err Other => d' = d
  end.
Proof using.
  unfold remove_file. destruct (fails _); [by intros [= <- <-]|]. destruct (d !! p) as [[]|] eqn:E; intros [= <- <-]; try done.
  - split; [by intros q Hq; rewrite lookup_delete_ne|apply lookup_delete_eq].
  - split; [by intros q Hq; rewrite lookup_delete_ne|apply lookup_delete_eq].
Qed.

Lemma rename_cases a b d r d' : rename fails a b d = (r, d') ->
  (exists e, r = Err e /\ d' = d) \/
  exists c, r = Ok tt /\ d !! a = Some (Regular c) /\ d' = <[b := Regular c]> (delete a d).
Proof using.
  unfold rename. destruct (fails _); [intros [= <- <-]; left; by eexists|].
  destruct (d !! a) as [[c| |]|] eqn:E; try (intros [= <- <-]; left; by eexists).
  destruct (d !! b) as [[]|]; intros [= <- <-]; try (left; by eexists); right; by exists c.
Qed.

Lemma create_file_cases p d r d' : create_file fails p d = (r, d') ->
  (exists e, r = Err e /\ d' = d) \/ r = Ok tt /\ d' = <[p := Regular []]> d.
Proof using.
  unfold create_file. destruct (fails _); [intros [= <- <-]; left; by eexists|].
  destruct (d !! p) as [[]|]; intros [= <- <-]; try (by right); left; by eexists.
Qed.

Lemma write_all_cases p data d r d' : write_all torn fails p data d = (r, d') ->
  exists c, d' = <[p := Regular c]> d /\ (r = Ok tt -> c = data) /\ (r = Ok tt \/ exists e, r = Err e).
Proof using.
  unfold write_all. destruct (fails _); intros [= <- <-]; eexists; split_and!; try done; [by right; eexists|by left].
Qed.

Lemma sync_all_cases p d r d' : sync_all fails p d = (r, d') -> d' = d.
Proof using. unfold sync_all. by intros [= _ <-]. Qed.

(** The stamp of an image that is there, whatever fails: it appears whole or not at all. *)
Lemma write_meta_sound image meta c d r d' : write_meta to_vec torn fails image meta d = (r, d') ->
  is_image image -> d !! image = Some (Regular c) -> sha256 meta = sha256_hex c -> images_sound d ->
  images_sound d' /\ d' !! image = Some (Regular c) /\
  (r = Ok tt -> d' !! image_meta_path image = Some (Regular (to_vec meta))).
Proof using codec.
  intros Hw Hi Hc Hm Hs. set (tmp := image_meta_tmp_path image) in *.
  assert (Hti : image <> tmp) by (intros E; apply (proj1 (partial_aside image)); fold tmp; by rewrite <- E).
  assert (Hts : image_meta_path image <> tmp) by (intros E; by apply (proj2 (partial_aside image) image)).
  assert (Hk : forall x y, images_sound (<[tmp := x]> d) /\ images_sound (<[tmp := y]> (<[tmp := x]> d))).
  { intros x y. split; (apply (sound_aside d _ tmp); [apply partial_aside| |done]); intros q Hq;
      by rewrite ?insert_insert_eq, lookup_insert_ne. }
  unfold write_meta in Hw. fold tmp in Hw. unfold se_bind in Hw.
  destruct (create_file fails tmp d) as [r1 d1] eqn:E1. apply create_file_cases in E1 as [(e & -> & ->)|[-> ->]].
  { by injection Hw as <- <-. }
  destruct (write_all torn fails tmp (to_vec meta) _) as [r2 d2] eqn:E2. apply write_all_cases in E2 as (c2 & -> & Hok & Hr2).
  assert (Hend : images_sound (<[tmp := Regular c2]> (<[tmp := Regular []]> d)) /\
    (<[tmp := Regular c2]> (<[tmp := Regular []]> d) : Disk) !! image = Some (Regular c)).
  { split; [apply Hk|]. by rewrite !lookup_insert_ne. }
  destruct Hr2 as [->|[e ->]]; [|injection Hw as <- <-; naive_solver]. rewrite Hok in * by done.
  unfold sync_all, se_ret in Hw. destruct (fails (SyncAll tmp)); [injection Hw as <- <-; naive_solver|].
  destruct (rename fails tmp _ _) as [r3 d3] eqn:E3. apply rename_cases in E3 as [(e & -> & ->)|(c3 & -> & H3 & ->)].
  { injection Hw as <- <-. naive_solver. }
  injection Hw as <- <-. rewrite lookup_insert_eq in H3. injection H3 as <-.
  split_and!.
  - apply sound_stamp with (c := c); try done.
    + rewrite lookup_delete_ne, !lookup_insert_ne; done.
    + apply (sound_aside d _ tmp); [apply partial_aside| |done]. intros q Hq. by rewrite lookup_delete_ne, !lookup_insert_ne.
  - rewrite lookup_insert_ne, lookup_delete_ne, !lookup_insert_ne; try done.
    intros E. by apply (image_not_stamp image image).
  - intros _. apply lookup_insert_eq.
Qed.

(** Publication, over any stamp that keeps the invariant once the image is there. *)
Lemma publish_sound (Q : Disk -> Prop) tmp dest stamp d r d' c : publish_image fails tmp dest stamp d = (r, d') ->
  is_image dest -> aside tmp -> d !! tmp = Some (Regular c) -> images_sound d ->
  (forall d1 r1 d2, images_sound d1 -> d1 !! dest = Some (Regular c) -> stamp dest d1 = (r1, d2) ->
     images_sound d2 /\ (r1 = Ok tt -> Q d2)) ->
  images_sound d' /\ (r = Ok tt -> Q d').
Proof using.
  intros Hp Hi Ht Hc Hs Hst. unfold publish_image, se_bind, se_try in Hp.
  destruct (remove_file fails (image_meta_path dest) d) as [r1 d1] eqn:E1. apply remove_file_cases in E1 as [Hf Hr].
  assert (Hgo : r1 <> Err Other -> images_sound d1 /\ d1 !! image_meta_path dest = None).
  { intros Hne. destruct r1 as [[]|[]]; try done.
    - split; [|done]. by apply (sound_unstamped d d1 dest).
    - destruct Hr as [-> ?]. done. }
  assert (Htd : tmp <> dest) by (intros ->; by apply Ht).
  assert (Hts : tmp <> image_meta_path dest) by by apply Ht.
  assert (Hc1 : d1 !! tmp = Some (Regular c)) by by rewrite Hf.
  destruct (decide (r1 = Err Other)) as [->|Hne].
  { subst d1. by injection Hp as <- <-. }
  destruct (Hgo Hne) as [Hs1 Hn1].
  assert (Hp' : (let '(r, s') := rename fails tmp dest d1 in match r with Ok _ => stamp dest s' | Err e => (Err e, s') end) = (r, d')).
  { destruct r1 as [|[]]; done. }
  destruct (rename fails tmp dest d1) as [r2 d2] eqn:E2.
  apply rename_cases in E2 as [(e & -> & ->)|(c2 & -> & H2 & ->)]; [by injection Hp' as <- <-|].
  rewrite Hc1 in H2. injection H2 as <-.
  assert (Hs2 : images_sound (<[dest := Regular c]> (delete tmp d1))).
  { apply (sound_image (delete tmp d1) _ dest); try done.
    - intros q Hq. by rewrite lookup_insert_ne.
    - right. by rewrite lookup_delete_ne.
    - apply (sound_aside d1 _ tmp); try done. intros q Hq. by rewrite lookup_delete_ne. }
  eapply Hst; [exact Hs2|apply lookup_insert_eq|exact Hp'].
Qed.

(** What a published image is, once its stamp is written. *)
Definition stamped_as (P : ImageMeta -> Prop) (dest c name : bytes) (prov : option OciProvenance) (d : Disk) : Prop :=
  exists m, d !! dest = Some (Regular c) /\ d !! image_meta_path dest = Some (Regular (to_vec m)) /\
    flavor m = name /\ sha256 m = sha256_hex c /\ built_unix m = now_unix /\ oci m = prov /\ P m.

Lemma read_file_Ok d p c : read_file fails d p = Ok c <-> fails (ReadFile p) = false /\ d !! p = Some (Regular c).
Proof using. clear sha256_hex to_vec from_slice codec images now_unix torn. unfold read_file. destruct (fails _); [naive_solver|]. destruct (d !! p) as [[]|]; naive_solver. Qed.

Lemma sha256_file_Ok d p h c : sha256_file sha256_hex fails d p = Ok h -> d !! p = Some (Regular c) -> h = sha256_hex c.
Proof using.
  unfold sha256_file. intros (x & Hx & [= <-])%rbind_Ok Hc. destruct (read_file fails d p) eqn:E; [|done].
  injection Hx as <-. apply read_file_Ok in E as [_ E]. congruence.
Qed.

(** A stamp that hashes the image and writes what it found. *)
Lemma stamp_sound {A} (P : ImageMeta -> Prop) (dest name : bytes) (prov : option OciProvenance) (agent : SE Disk ImageError A) (mk : A -> bytes -> ImageMeta) c d r d' :
  (forall d r d', agent d = (r, d') -> d' = d) ->
  (forall a sha, flavor (mk a sha) = name /\ sha256 (mk a sha) = sha /\ built_unix (mk a sha) = now_unix /\ oci (mk a sha) = prov /\ P (mk a sha)) ->
  (do! a := agent in
   do! sha := reading (fun d => sha256_file sha256_hex fails d dest) in
   write_meta to_vec torn fails dest (mk a sha)) d = (r, d') ->
  is_image dest -> d !! dest = Some (Regular c) -> images_sound d ->
  images_sound d' /\ (r = Ok tt -> stamped_as P dest c name prov d').
Proof using codec.
  intros Ha Hmk Hrun Hi Hc Hs. unfold se_bind, reading in Hrun.
  destruct (agent d) as [[a|e] d1] eqn:E; apply Ha in E as ->; [|by injection Hrun as <- <-].
  destruct (sha256_file _ _ d dest) as [sha|e] eqn:Eh; [|by injection Hrun as <- <-].
  pose proof (sha256_file_Ok _ _ _ _ Eh Hc) as ->. destruct (Hmk a (sha256_hex c)) as (H1 & H2 & H3 & H4 & H5).
  eapply write_meta_sound in Hrun as (Hs' & Hc' & Hok); try done. split; [done|]. intros Hr. exists (mk a (sha256_hex c)).
  split_and!; try done. by apply Hok.
Qed.

Lemma built_is_image f : is_image (image_dest images f).
Proof using. left. by exists f. Qed.

Lemma import_is_image (slug dest : bytes) : is_utf8 slug = true -> imported_image_path images slug = Ok dest -> is_image dest.
Proof using.
  intros Hu [Hv ->]%imported_path_iff; [|done]. right. exists slug. split; [done|]. by rewrite import_file.
Qed.

Context (explicit target : option bytes) (root : bytes).

Lemma publish_built_spec (tmp : bytes) (f : RootfsFlavor) (d : Disk) r d' c :
  publish_built sha256_hex to_vec now_unix torn fails explicit target root images tmp f d = (r, d') ->
  aside tmp -> d !! tmp = Some (Regular c) -> images_sound d ->
  images_sound d' /\ (r = Ok tt -> stamped_as (fun _ => True) (image_dest images f) c (flavor_slug f) None d').
Proof using codec.
  intros Hp Ht Hc Hs. unfold publish_built in Hp. unfold se_bind in Hp at 1.
  destruct (sync_all fails tmp d) as [r1 d1] eqn:E1. pose proof (sync_all_cases _ _ _ _ E1) as ->.
  destruct r1 as [u|e]; [|by injection Hp as <- <-].
  eapply publish_sound in Hp; [exact Hp|apply built_is_image|done|done|done|].
  intros d1 r1 d2 Hs1 Hc1 Hst. unfold write_image_meta in Hst.
  eapply (stamp_sound (fun _ => True) (image_dest images f) (flavor_slug f) None _
           (fun pa sha => MkMeta (flavor_slug f) (fst pa) (snd pa) sha now_unix None)) in Hst;
    try done; [|apply built_is_image].
  intros d0 r0 d0'. destruct (has_agent f); [unfold reading|unfold se_ret]; by intros [= _ <-].
Qed.

Lemma publish_imported_spec (tmp dest slug : bytes) (prov : OciProvenance) (d : Disk) r d' c :
  publish_imported_image sha256_hex to_vec now_unix torn fails explicit target root tmp dest slug prov d = (r, d') ->
  is_utf8 slug = true -> imported_image_path images slug = Ok dest ->
  aside tmp -> d !! tmp = Some (Regular c) -> images_sound d ->
  images_sound d' /\ (r = Ok tt -> stamped_as (fun m => proto_version m = Some PROTO_VERSION /\
     agent_sha256 m = host_agent_sha256 sha256_hex fails explicit target root d) dest c (IMPORTED_PREFIX ++ slug) (Some prov) d').
Proof using codec.
  intros Hp Hu Hd Ht Hc Hs. unfold publish_imported_image, reading in Hp. unfold se_bind in Hp at 1.
  destruct (locate_checked_agent _ _ _ _ d) as [agent|e] eqn:Ea; [|by injection Hp as <- <-]. unfold se_bind in Hp at 1.
  destruct (sha256_file _ _ d agent) as [ah|e] eqn:Eh; [|by injection Hp as <- <-].
  assert (Hh : host_agent_sha256 sha256_hex fails explicit target root d = Some ah).
  { unfold host_agent_sha256. unfold locate_checked_agent in Ea. apply rbind_Ok in Ea as (q & Hq & (data & _ & Ea)%rbind_Ok).
    rewrite Hq. destruct (elf_is_static_x86_64 data) as [[]|]; try done. injection Ea as ->. by rewrite Eh. }
  eapply publish_sound in Hp; [exact Hp|by eapply import_is_image|done|done|done|].
  intros d1 r1 d2 Hs1 Hc1 Hst.
  eapply (stamp_sound (fun m => proto_version m = Some PROTO_VERSION /\
    agent_sha256 m = host_agent_sha256 sha256_hex fails explicit target root d) dest (IMPORTED_PREFIX ++ slug) (Some prov) (se_ret (Ok tt))
           (fun _ sha => MkMeta (B "oci:" ++ slug) (Some PROTO_VERSION) (Some ah) sha now_unix (Some prov))) in Hst;
    try done; [by intros d0 r0 d0' [= _ <-]|by eapply import_is_image].
Qed.

(** *** Removal *)

Lemma remove_if_present_cases p d r d' : remove_if_present fails p d = (r, d') ->
  (forall q, q <> p -> d' !! q = d !! q) /\ (d' = d \/ d' !! p = None) /\ (r = Ok tt -> d' !! p = None).
Proof using.
  clear sha256_hex to_vec from_slice codec images now_unix torn explicit target root.
  unfold remove_if_present, se_bind, se_try, se_ret. destruct (remove_file fails p d) as [r1 d1] eqn:E.
  apply remove_file_cases in E as [Hf Hr]. destruct r1 as [[]|[]]; intros [= <- <-]; naive_solver.
Qed.

(** Either nothing has changed, or the image is gone. *)
Lemma remove_image_cases image d r d' : remove_image_and_meta fails image d = (r, d') -> is_image image -> images_sound d ->
  images_sound d' /\
  (forall q, q <> image -> q <> image_meta_path image -> q <> image_meta_tmp_path image -> d' !! q = d !! q) /\
  match r with
  | Ok _ => d' !! image = None /\ d' !! image_meta_path image = None /\ d' !! image_meta_tmp_path image = None
  | Err _ => d' = d \/ d' !! image = None
  end.
Proof using.
  clear to_vec codec now_unix torn explicit target root.
  intros Hr Hi Hs. unfold remove_image_and_meta, reading, se_bind, se_map_err, se_ret in Hr.
  assert (Hn1 : image <> image_meta_path image) by by apply image_not_stamp.
  assert (Hn2 : image <> image_meta_tmp_path image) by (intros E; apply (proj1 (partial_aside image)); by rewrite <- E).
  assert (Hn3 : image_meta_path image <> image_meta_tmp_path image) by (intros E; by apply (proj2 (partial_aside image) image)).
  destruct (remove_file fails image d) as [r1 d1] eqn:E1. apply remove_file_cases in E1 as [Hf1 Hr1].
  destruct r1 as [u|k]; cbn [map_err] in Hr; [|injection Hr as <- <-; destruct k; naive_solver].
  assert (Hs1 : images_sound d1) by (apply (sound_image d d1 image); naive_solver).
  destruct (remove_if_present fails (image_meta_path image) d1) as [r2 d2] eqn:E2.
  apply remove_if_present_cases in E2 as (Hf2 & Hor2 & Hr2).
  assert (Hs2 : images_sound d2) by (destruct Hor2 as [->|Hn]; [done|by apply (sound_unstamped d1 d2 image)]).
  assert (Hi2 : d2 !! image = None) by by rewrite Hf2.
  destruct r2 as [[]|e]; [|injection Hr as <- <-; split_and!; [done| |by right]; intros q ???; by rewrite Hf2, Hf1].
  destruct (remove_if_present fails (image_meta_tmp_path image) d2) as [r3 d3] eqn:E3.
  apply remove_if_present_cases in E3 as (Hf3 & _ & Hr3).
  assert (Hs3 : images_sound d3) by (apply (sound_aside d2 d3 (image_meta_tmp_path image)); [apply partial_aside|done|done]).
  assert (Hfr : forall q, q <> image -> q <> image_meta_path image -> q <> image_meta_tmp_path image -> d3 !! q = d !! q)
    by (intros q ???; by rewrite Hf3, Hf2, Hf1).
  destruct r3 as [[]|e]; injection Hr as <- <-; split_and!; try done.
  - by rewrite Hf3.
  - rewrite Hf3; [|done]. by apply Hr2.
  - by apply Hr3.
  - right. by rewrite Hf3.
Qed.
End run.
End soundness.

(** ** The invariant of the images directory *)

Section store.
Context (sha256_hex : bytes -> bytes) (to_vec : ImageMeta -> bytes) (from_slice : bytes -> option ImageMeta).
Context (codec : forall m, from_slice (to_vec m) = Some m).
Context (images : bytes).

(** What happens to the directory: a build or an import is published from a file that lies aside, an
    import is removed, and files that are neither images nor stamps come and go.  Each operation runs with
    its own clock, its own agent and its own failures. *)
Inductive image_step : Disk -> Disk -> Prop :=
  | StepBuild (now : N) (torn : bytes -> bytes) (fails : Call -> bool) (explicit target : option bytes) (root tmp c : bytes) (f : RootfsFlavor) (d : Disk) :
      aside images tmp -> d !! tmp = Some (Regular c) ->
      image_step d (snd (publish_built sha256_hex to_vec now torn fails explicit target root images tmp f d))
  | StepImport (now : N) (torn : bytes -> bytes) (fails : Call -> bool) (explicit target : option bytes) (root tmp dest slug c : bytes) (prov : OciProvenance) (d : Disk) :
      aside images tmp -> d !! tmp = Some (Regular c) ->
      is_utf8 slug = true -> imported_image_path images slug = Ok dest ->
      image_step d (snd (publish_imported_image sha256_hex to_vec now torn fails explicit target root tmp dest slug prov d))
  | StepRemove (fails : Call -> bool) (stages : result (list StageMeta) StageError) (spelling : bytes) (force : bool) (d : Disk) :
      is_utf8 spelling = true ->
      image_step d (snd (remove_imported_in sha256_hex from_slice fails images stages spelling force d))
  | StepAside (p : bytes) (n : option node) (d : Disk) : aside images p -> image_step d (partial_alter (fun _ => n) p d).

Lemma imported_name_utf8 (s n : bytes) : is_utf8 s = true -> imported_name s = Ok n -> is_utf8 n = true.
Proof using.
  unfold imported_name. intros Hs. destruct (strip_prefix IMPORTED_PREFIX s) as [m|] eqn:E.
  - intros [= <-]. apply strip_prefix_Some in E. rewrite E in Hs. unfold is_utf8 in Hs.
    rewrite utf8_items_app, forallb_app in Hs by done. by apply andb_true_iff in Hs as [_ ?].
  - destruct (is_ok _); [done|]. by intros [= <-].
Qed.

Lemma removal_cases (fails : Call -> bool) (stages : result (list StageMeta) StageError) (spelling : bytes) (force : bool) (d d' : Disk) r :
  remove_imported_in sha256_hex from_slice fails images stages spelling force d = (r, d') ->
  is_utf8 spelling = true -> images_sound sha256_hex from_slice images d ->
  images_sound sha256_hex from_slice images d' /\
  (d' = d /\ (exists e, r = Err e) \/
   exists name path all, imported_name spelling = Ok name /\ imported_image_path images name = Ok path /\
     stages = Ok all /\ (force = true \/ forall s, s ∈ all -> Stage.base s <> IMPORTED_PREFIX ++ name) /\
     d' !! path = None /\
     (forall q, q <> path -> q <> image_meta_path path -> q <> image_meta_tmp_path path -> d' !! q = d !! q) /\
     forall o, r = Ok o -> d' !! image_meta_path path = None /\ d' !! image_meta_tmp_path path = None /\
       (forall s, s ∈ orphaned o <-> force = true /\ s ∈ all /\ Stage.base s = IMPORTED_PREFIX ++ name)).
Proof using.
  intros Hr Hu Hs. unfold remove_imported_in, se_bind, reading, se_ret, import_path in Hr.
  destruct (imported_name spelling) as [name|e] eqn:En; cbn [map_err] in Hr; [|injection Hr as <- <-; naive_solver].
  destruct (imported_image_path images name) as [path|e] eqn:Ep; cbn [map_err] in Hr; [|injection Hr as <- <-; naive_solver].
  destruct (exists_at d path); cbn [negb] in Hr; [|injection Hr as <- <-; naive_solver].
  destruct stages as [all|e]; cbn [map_err] in Hr; [|injection Hr as <- <-; naive_solver].
  set (holders := List.filter _ all) in *.
  assert (Hh : forall s, s ∈ holders <-> s ∈ all /\ Stage.base s = IMPORTED_PREFIX ++ name).
  { intros s. unfold holders. by rewrite list_elem_of_In, filter_In, <- list_elem_of_In, beq_true. }
  destruct (negb (length holders =? 0)%nat && negb force) eqn:Eh; [injection Hr as <- <-; naive_solver|].
  destruct (read_provenance _ _ d path) as [prov|e]; [|injection Hr as <- <-; naive_solver].
  assert (Hi : is_image images path) by (eapply import_is_image; [by eapply imported_name_utf8|done]).
  destruct (remove_image_and_meta fails path d) as [r1 d1] eqn:E1.
  eapply remove_image_cases in E1 as (Hs1 & Hf & Hr1); [|done|done].
  assert (Hhold : force = true \/ forall s, s ∈ all -> Stage.base s <> IMPORTED_PREFIX ++ name).
  { destruct force; [by left|]. right. intros s Hin Hb. assert (s ∈ holders) by by apply Hh.
    destruct holders; [by apply elem_of_nil in H|done]. }
  destruct r1 as [freed|e]; injection Hr as <- <-.
  - destruct Hr1 as (H1 & H2 & H3). split; [done|]. right. exists name, path, all. split_and!; try done.
    intros o [= <-]. split_and!; try done. intros s. cbn [orphaned]. destruct force; [rewrite Hh; naive_solver|].
    split; [by intros ?%elem_of_nil|naive_solver].
  - split; [done|]. destruct Hr1 as [->|H1]; [left; split; [done|by eexists]|right].
    exists name, path, all. split_and!; done.
Qed.

Lemma step_sound d d' : image_step d d' -> images_sound sha256_hex from_slice images d -> images_sound sha256_hex from_slice images d'.
Proof using codec.
  intros [now torn fails ex ta root tmp c f d0 Ht Hc|now torn fails ex ta root tmp dest slug c prov d0 Ht Hc Hu Hd|fails stages sp force d0 Hu|p n d0 Hp] Hs.
  - destruct (publish_built _ _ _ _ _ _ _ _ _ _ _ d0) as [r d1] eqn:E. eapply publish_built_spec in E as [? _]; done.
  - destruct (publish_imported_image _ _ _ _ _ _ _ _ _ _ _ _ d0) as [r d1] eqn:E. eapply publish_imported_spec in E as [? _]; done.
  - destruct (remove_imported_in _ _ _ _ _ _ _ d0) as [r d1] eqn:E. by apply removal_cases in E as [? _].
  - apply (sound_aside _ _ _ d0 _ p); [done| |done]. intros q Hq. by rewrite lookup_partial_alter_ne.
Qed.

Lemma steps_sound d d' : rtc image_step d d' -> images_sound sha256_hex from_slice images d -> images_sound sha256_hex from_slice images d'.
Proof using codec. induction 1 as [d|d1 d2 d3 H12 _ IH]; [done|]. intros Hs. eapply IH, step_sound; done. Qed.

(** *** What a reader learns from a stamp *)

Lemma read_meta_Ok fails d image m : read_image_meta from_slice fails d image = Ok (Some m) ->
  exists raw, d !! image_meta_path image = Some (Regular raw) /\ from_slice raw = Some m.
Proof using.
  unfold read_image_meta. destruct (read_file fails d _) as [raw|[]] eqn:E; [|done|done].
  apply read_file_Ok in E as [_ E]. destruct (from_slice raw) eqn:Ef; [|done]. intros [= <-]. by exists raw.
Qed.

Lemma stamp_tells fails d image m c : images_sound sha256_hex from_slice images d -> is_image images image ->
  read_image_meta from_slice fails d image = Ok (Some m) -> d !! image = Some (Regular c) -> sha256 m = sha256_hex c.
Proof using. intros Hs Hi (raw & Hr & Hm)%read_meta_Ok Hc. by eapply Hs. Qed.
End store.

(** ** The listing *)

Lemma NoDup_omap_inj {A B} (f : A -> option B) l : NoDup l ->
  (forall x y z, x ∈ l -> y ∈ l -> f x = Some z -> f y = Some z -> x = y) -> NoDup (omap f l).
Proof.
  induction 1 as [|x l Hx _ IH]; intros Hf; [constructor|]. cbn.
  assert (Hn : NoDup (omap f l)) by (apply IH; intros a b z ??; apply Hf; by right).
  destruct (f x) as [z|] eqn:E; [|done]. constructor; [|done].
  intros (y & Hy & Ey)%list_elem_of_omap. apply Hx. by rewrite (Hf x y z) by (done || by (left || right)).
Qed.

Lemma stem_of_spec (ext name stem : bytes) : stem_of ext name = Some stem -> name = stem ++ "."%char :: ext /\ stem <> [].
Proof.
  unfold stem_of. destruct (rsplit_once "." name) as [[[|x a] b]|] eqn:E; [done| |done].
  destruct (beq b ext) eqn:Eb; [|done]. apply beq_true in Eb as ->. intros [= <-]. apply rsplit_once_Some in E as [-> _]. done.
Qed.

Lemma stem_of_sqfs (n : bytes) : n <> [] -> stem_of (B "sqfs") (n ++ B ".sqfs") = Some n.
Proof.
  intros Hn. unfold stem_of. assert (rsplit_once "." (n ++ B ".sqfs") = Some (n, B "sqfs")) as ->.
  { apply rsplit_once_Some. split; [done|]. vm_compute. set_solver. }
  by destruct n.
Qed.

Lemma elem_children (prefix : bytes) (d : Disk) (name : bytes) : name ∈ children prefix d <->
  name <> [] /\ ("/"%char ∉ name) /\ is_Some (d !! (prefix ++ name)).
Proof.
  unfold children. rewrite list_elem_of_omap. split.
  - intros ([p nd] & Hin & H). cbn [fst] in H. apply elem_of_map_to_list in Hin.
    destruct (strip_prefix prefix p) as [n|] eqn:E; [|done]. apply strip_prefix_Some in E as ->.
    destruct (beq n []) eqn:E1; [done|]. destruct (contains "/" n) eqn:E2; [done|]. injection H as <-.
    apply contains_false in E2. split_and!; [by intros ->|done|by exists nd].
  - intros (Hn & Hs & [nd Hd]). exists (prefix ++ name, nd). split; [by apply elem_of_map_to_list|]. cbn [fst].
    assert (strip_prefix prefix (prefix ++ name) = Some name) as -> by by apply strip_prefix_Some.
    destruct (beq name []) eqn:E1; [by apply beq_true in E1|]. apply contains_false in Hs. by rewrite Hs.
Qed.

Lemma listed_name_Some (d : Disk) (dir e n : bytes) : listed_name d dir e = Some n <->
  e = n ++ B ".sqfs" /\ valid_name n /\ exists c, d !! path_join dir e = Some (Regular c).
Proof.
  unfold listed_name. split.
  - destruct (stem_of _ e) as [m|] eqn:Es; [|done]. apply stem_of_spec in Es as [-> Hm].
    destruct (d !! path_join dir _) as [[c| |]|] eqn:Ed; try done. destruct (is_utf8 m) eqn:Eu; cbn [andb]; [|done].
    destruct (validate_slug m) as [[]|] eqn:Ev; cbn [is_ok]; [|done]. intros [= <-]. apply validate_slug_iff in Ev; [|done].
    split_and!; [done|done|by exists c].
  - intros (-> & Hv & c & Hc). rewrite stem_of_sqfs by apply Hv. rewrite Hc.
    assert (Hu : is_utf8 n = true) by (apply valid_name_utf8, Hv). rewrite Hu.
    assert (validate_slug n = Ok tt) as -> by (by apply validate_slug_iff). done.
Qed.

(** The listing of imports names exactly the images that can be booted by name: a row for each
    name the import could have given whose file is there, each once, in order, with the path that the name
    leads to. *)
Theorem list_imported_spec (fails : Call -> bool) (images : bytes) (d : Disk) l : list_imported fails images d = Ok l ->
  d !! path_join images (B "oci") = Some Directory ->
  (forall n p, (n, p) ∈ l <-> imported_image_path images n = Ok p /\ is_utf8 n = true /\ exists c, d !! p = Some (Regular c)) /\
  Sorted bytes_le (map fst l) /\ NoDup (map fst l).
Proof.
  unfold list_imported. intros Hl Hdir. rewrite Hdir in Hl. destruct (fails _); [done|]. injection Hl as <-.
  set (dir := path_join images (B "oci")) in *. set (names := omap (listed_name d dir) (children (as_prefix dir) d)).
  assert (Hmem : forall n, n ∈ names <-> valid_name n /\ exists c, d !! path_join dir (n ++ B ".sqfs") = Some (Regular c)).
  { intros n. unfold names. rewrite list_elem_of_omap. split.
    - intros (e & He & (-> & Hv & Hc)%listed_name_Some); done.
    - intros (Hv & c & Hc). exists (n ++ B ".sqfs").
      assert (He : n ++ B ".sqfs" ∈ children (as_prefix dir) d).
      { apply elem_children. split_and!; [by destruct n| |].
        - apply not_elem_of_app. split; [by apply valid_name_slash|]. vm_compute. set_solver.
        - rewrite <- path_join_relative by by apply valid_name_relative. by exists (Regular c). }
      split; [done|]. apply listed_name_Some. split_and!; [done|done|by exists c]. }
  split_and!.
  - intros n p. rewrite list_elem_of_fmap. split.
    + intros (m & [= -> ->] & Hm). apply elem_of_sort_bytes, Hmem in Hm as [Hv Hc].
      assert (Hu : is_utf8 m = true) by (apply valid_name_utf8, Hv). split_and!; try done. by apply imported_path_iff.
    + intros (Hp & Hu & Hc). apply imported_path_iff in Hp as [Hv ->]; [|done]. exists n. split; [done|].
      apply elem_of_sort_bytes, Hmem. done.
  - rewrite map_map. cbn [fst]. rewrite map_id. apply Sorted_merge_sort, _.
  - rewrite map_map. cbn [fst]. rewrite map_id. unfold sort_bytes. rewrite merge_sort_Permutation. unfold names, children.
    apply NoDup_omap_inj; [apply NoDup_omap_inj; [apply NoDup_map_to_list|]|].
    + intros [p1 x1] [p2 x2] z H1 H2 E1 E2. cbn [fst] in *.
      destruct (strip_prefix (as_prefix dir) p1) as [n1|] eqn:F1; [|done]. destruct (strip_prefix (as_prefix dir) p2) as [n2|] eqn:F2; [|done].
      apply strip_prefix_Some in F1 as ->, F2 as ->. repeat case_match; simplify_eq.
      apply elem_of_map_to_list in H1, H2. congruence.
    + intros e1 e2 n H1 H2 E1 E2. unfold listed_name in E1, E2.
      destruct (stem_of _ e1) as [m1|] eqn:F1; [|done]. destruct (stem_of _ e2) as [m2|] eqn:F2; [|done].
      apply stem_of_spec in F1 as [-> _], F2 as [-> _]. repeat case_match; simplify_eq; done.
Qed.

(** What the listing says of an image and what a run finds are the same: an image that is listed as
    present and not stale passes the check before a boot, one that is listed as stale is refused by it,
    and the one it calls unstamped is the one that the check warns of. *)
Theorem listing_agrees (from_slice : bytes -> option ImageMeta) (fails : Call -> bool) (host : option bytes) (dir_len : N) (d : Disk) (p fl k : bytes) e :
  image_entry from_slice fails host dir_len d p fl k = Ok e -> present e = true ->
  is_ok (check_image_freshness from_slice fails d host p) = negb (stale e) /\
  (check_image_freshness from_slice fails d host p = Ok (Some (NoStamp p)) <-> is_unstamped e = true) /\
  (stale e = true <-> is_Some (stale_reason e)).
Proof.
  unfold image_entry, check_image_freshness. intros (m & Hm & [= <-])%rbind_Ok. cbn [present stale is_unstamped stale_reason].
  intros Hp. rewrite Hp in Hm. rewrite Hm, Hp. destruct m as [m|]; cbn [mbind option_bind andb].
  - assert (Hend : forall (o : option bytes) (b : bool) (ck : result (option Notice) ImageError),
      is_ok ck = negb b -> ck <> Ok (Some (NoStamp p)) -> (b = true <-> is_Some o) ->
      is_ok ck = negb b /\ (ck = Ok (Some (NoStamp p)) <-> false = true) /\ (b = true <-> is_Some o)) by naive_solver.
    apply Hend; clear Hend;
      repeat first [progress cbn | case_match]; first [done | split; [by eexists | done] | split; [done | by intros []]].
  - cbn. split_and!; [done|done|split; [done|by intros []]].
Qed.

(** ** The base of a run *)

Section boot.
Context (sha256_hex : bytes -> bytes).
Hypothesis hex_bytes : forall s, Forall (fun c => is_lower_hex c = true) (sha256_hex s).
Hypothesis hex_ne : forall s, sha256_hex s <> [].
Context (from_slice : bytes -> option ImageMeta) (images : bytes).
Context (stage_from_str : bytes -> option StageMeta) (blake3_hex : bytes -> bytes).

Lemma hex_not_white c : is_lower_hex c = true -> (code c < 128)%N /\ is_whitespace (code c) = false.
Proof using.
  intros Hc. assert (H : forallb (fun c => negb (is_lower_hex c) || ((code c <? 128)%N && negb (is_whitespace (code c)))) every_byte = true) by by vm_compute.
  rewrite forallb_forall in H. specialize (H c (every_byte_complete c)). rewrite Hc in H. cbn [negb orb] in H.
  apply andb_true_iff in H as [H1%N.ltb_lt H2%negb_true_iff]. done.
Qed.

Lemma items_ascii s : Forall (fun c => (code c < 128)%N) s -> utf8_items s = map (fun c => Chr (code c) [c]) s.
Proof using. induction 1 as [|c s Hc _ IH]; [done|]. cbn [utf8_items map]. apply N.ltb_lt in Hc. by rewrite Hc, IH. Qed.

Lemma drop_white_hex s : Forall (fun c => is_lower_hex c = true) s ->
  drop_white (map (fun c => Chr (code c) [c]) s) = map (fun c => Chr (code c) [c]) s.
Proof using. intros [|c s' Hc _]; [done|]. cbn [map drop_white]. by rewrite (proj2 (hex_not_white c Hc)). Qed.

Lemma trim_hex s : Forall (fun c => is_lower_hex c = true) s -> trim s = s.
Proof using.
  intros Hs. unfold trim. rewrite items_ascii by (eapply Forall_impl; [exact Hs|]; intros c Hc; by apply hex_not_white).
  rewrite drop_white_hex, <- map_rev, drop_white_hex, <- map_rev, rev_involutive by (done || by apply Forall_rev).
  induction s as [|c s IH]; [done|]. cbn. f_equal. apply IH. by apply Forall_cons in Hs as [_ ?].
Qed.

Lemma non_empty_hex s : non_empty (Some (sha256_hex s)) = Some (sha256_hex s).
Proof using hex_bytes hex_ne.
  unfold non_empty. cbn [option_map]. rewrite trim_hex by done. destruct (beq _ []) eqn:E; [apply beq_true in E; by apply hex_ne in E|done].
Qed.

Lemma image_path_image (fails : Call -> bool) (host : option bytes) (d : Disk) b p : is_utf8 (slug b) = true -> 
  image_path_in from_slice fails host images d b = Ok p ->
  is_image images p /\ exists_at d p = true /\ is_ok (check_image_freshness from_slice fails d host p) = true.
Proof using.
  destruct b as [f|name]; cbn [image_path_in slug]; intros Hu.
  - unfold base_image_path_in. destruct (is_squashfs_flavor f); [|done]. cbn [negb].
    destruct (exists_at d (image_dest images f)) eqn:E; [|done]. cbn [negb]. unfold check_image_proto.
    intros (u & Hc & [= <-])%rbind_Ok. split_and!; [apply built_is_image|done|by rewrite Hc].
  - intros (path & Hp & H)%rbind_Ok. unfold import_path in Hp. destruct (imported_image_path images name) as [q|] eqn:Ei; [|done].
    injection Hp as <-. destruct (exists_at d q) eqn:E; [|done]. cbn [negb] in H. unfold check_image_proto in H.
    apply rbind_Ok in H as (u & Hc & [= <-]). split_and!; [|done|by rewrite Hc].
    eapply import_is_image; [|done]. unfold is_utf8, IMPORTED_PREFIX in Hu. rewrite utf8_items_app, forallb_app in Hu by done.
    by apply andb_true_iff in Hu as [_ ?].
Qed.

Lemma base_identity_sha (fails : Call -> bool) (d : Disk) (image sl : bytes) meta : read_image_meta from_slice fails d image = Ok (Some meta) ->
  base_identity from_slice fails d image sl = MkBaseId sl (Some (sha256 meta)).
Proof using. unfold base_identity. by intros ->. Qed.

Lemma base_identity_flavor (fails : Call -> bool) (d : Disk) (image sl : bytes) : Stage.flavor (base_identity from_slice fails d image sl) = sl.
Proof using. unfold base_identity. by destruct (read_image_meta _ _ _ _) as [[]|]. Qed.

(** What a verdict that lets a run go on says of one layer. *)
Lemma layer_on_base (fails : Call -> bool) (d : Disk) (image sl : bytes) (ma : StageMeta) (c0 : BaseCheck) (skew : bool) :
  images_sound sha256_hex from_slice images d -> is_image images image ->
  enforce_base_compat_with c0 skew = Ok tt ->
  (rank (check_base ma (base_identity from_slice fails d image sl)) <= rank c0)%nat ->
  Stage.base ma = sl /\
  (skew = false -> forall h c meta, non_empty (base_sha256 ma) = Some h -> d !! image = Some (Regular c) ->
     read_image_meta from_slice fails d image = Ok (Some meta) -> h = sha256_hex c).
Proof using hex_bytes hex_ne.
  intros Hs Hi Hv Hr. destruct (check_base_rank (fun _ => None) (fun _ => []) (fun x => x) (fun _ => 0%N) ma (base_identity from_slice fails d image sl)) as [H1 H2].
  assert (Hlt : (rank c0 < 3)%nat /\ (skew = false -> (rank c0 < 2)%nat)).
  { destruct c0; cbn in *; try (split; [lia|intros; lia]); [|done]. destruct skew; [split; [lia|done]|done]. }
  rewrite base_identity_flavor in H1. split; [apply H1; lia|]. intros Hk h c meta Hh Hc Hm.
  rewrite (base_identity_sha _ _ _ _ _ Hm) in *. apply H2; [destruct Hlt as [_ Hlt]; specialize (Hlt Hk); lia|done|].
  cbn [Stage.sha256]. rewrite (stamp_tells _ _ _ _ _ _ _ _ Hs Hi Hm Hc). apply non_empty_hex.
Qed.

(** C15: what a run boots is what its stage was made on.  Over an images directory and a store that meet
    their invariants, a plan's root is an image that is there and fresh; a fork mounts the whole chain of
    its stage, every layer of which records the very base that boots, by name; and unless the operator
    opted out, a layer that recorded a digest recorded the digest of the bytes that boot, if their stamp can
    be read. *)
Theorem booted_base (sfails : Stage.Call -> bool) (fails : Call -> bool) (host : option bytes) (store : Store) (d : Disk) (reference : bytes) (b : BaseRef) (skew : bool) plan :
  images_sound sha256_hex from_slice images d -> store_wf stage_from_str blake3_hex store -> is_utf8 (slug b) = true ->
  (forall id m, meta_at stage_from_str store id = Some m -> is_utf8 (Stage.base m) = true) ->
  resolve_stage_plan_in from_slice fails host images stage_from_str sfails store d reference b skew = Ok plan ->
  is_image images (base_sqfs plan) /\ exists_at d (base_sqfs plan) = true /\
  is_ok (check_image_freshness from_slice fails d host (base_sqfs plan)) = true /\
  match plan_parent plan with
  | None => reference = STAGE_BASE /\ layer_paths plan = [] /\ Stage.flavor (plan_base plan) = slug b
  | Some id => exists m, meta_at stage_from_str store id = Some m /\ layer_paths plan = map layer_path (chain m) /\
      forall a, a ∈ chain m -> exists ma, meta_at stage_from_str store a = Some ma /\
        Stage.base ma = Stage.flavor (plan_base plan) /\
        (skew = false -> forall h c meta, non_empty (base_sha256 ma) = Some h -> d !! base_sqfs plan = Some (Regular c) ->
           read_image_meta from_slice fails d (base_sqfs plan) = Ok (Some meta) -> h = sha256_hex c)
  end.
Proof using hex_bytes hex_ne.
  intros Hs Hw Hu Hj. unfold resolve_stage_plan_in. destruct (beq reference STAGE_BASE) eqn:Er.
  - apply beq_true in Er as ->. intros (p & Hp & [= <-])%rbind_Ok. cbn [base_sqfs plan_parent layer_paths plan_base].
    apply image_path_image in Hp as (? & ? & ?); [|done]. by rewrite base_identity_flavor.
  - intros (m & Hm & (rb & Hrb & (p & Hp & (v & Hv & (u & He & (layers & Hl & [= <-])%rbind_Ok)%rbind_Ok)%rbind_Ok)%rbind_Ok)%rbind_Ok)%rbind_Ok.
    cbn [base_sqfs plan_parent layer_paths plan_base]. destruct u.
    unfold of_stage in Hm, Hv, Hl. destruct (resolve_in _ _ store reference) as [m'|] eqn:Em; [|done]. injection Hm as ->.
    apply resolve_in_member in Em as (stages & Hst & Hin). apply (list_in_spec _ (fun _ => []) blake3_hex (fun _ => 0%N) _ _ _ _ Hst) in Hin as [id Hid].
    pose proof (wf_id _ _ _ Hw _ _ Hid) as [Hsi _]. rewrite Hsi.
    destruct (parse (Stage.base m)) as [rb'|] eqn:Eb; [|done]. injection Hrb as ->.
    assert (Hub : is_utf8 (Stage.base m) = true) by by eapply Hj.
    apply parse_iff in Eb as [_ Eb]; [|done]. rewrite Eb in Hub.
    apply image_path_image in Hp as (Hi & Hex & Hfr); [|done]. split_and!; try done. exists m.
    destruct (check_base_chain_in _ store m _) as [v'|] eqn:Ev; [|done]. injection Hv as ->.
    rewrite (chain_paths_ok _ _ _ _ _ Hw Hid) in Hl. injection Hl as <-. split_and!; try done.
    intros a Ha. destruct (chain_checked _ _ _ _ _ _ _ Hw Hid Ev a Ha) as (ma & Hma & Hr). exists ma.
    rewrite base_identity_flavor. destruct (layer_on_base fails d p (slug rb) ma v skew Hs Hi He Hr) as [H1 H2]. done.
Qed.
End boot.

(** C21: a stamp that can be read stands beside the bytes whose digest it records: over any builds,
    imports and removals, each of which may fail or be abandoned at any call, so the content id that keys
    the warm pool and that a stage records is the digest of the image that boots, or says that there is
    none. *)
Theorem stamps_never_lie (sha256_hex : bytes -> bytes) (to_vec : ImageMeta -> bytes) (from_slice : bytes -> option ImageMeta) (images : bytes) (d0 d : Disk) (fails : Call -> bool) (b : BaseRef) (p id c : bytes) :
  (forall m, from_slice (to_vec m) = Some m) -> images_sound sha256_hex from_slice images d0 ->
  rtc (image_step sha256_hex to_vec from_slice images) d0 d ->
  is_utf8 (slug b) = true ->
  p = match b with Builtin f => image_dest images f | Imported n => oci_prefix images ++ n ++ B ".sqfs" end ->
  content_id from_slice fails images d b = Ok id -> d !! p = Some (Regular c) ->
  id = sha256_hex c \/ id = B "unstamped" /\ read_image_meta from_slice fails d p = Ok None.
Proof.
  intros Hcodec H0 Hsteps Hu Hp Hid Hc. pose proof (steps_sound _ _ _ Hcodec _ _ _ Hsteps H0) as Hs.
  assert (Hgo : is_image images p /\ exists m, read_image_meta from_slice fails d p = Ok m /\
    id = match m with Some m => sha256 m | None => B "unstamped" end).
  { destruct b as [f|name]; cbn [content_id] in Hid.
    - unfold base_content_id in Hid. apply rbind_Ok in Hid as (m & Hm & [= <-]). rewrite Hp. split; [apply built_is_image|by exists m].
    - apply rbind_Ok in Hid as (q & Hq & (m & Hm & [= <-])%rbind_Ok). unfold import_path in Hq.
      destruct (imported_image_path images name) as [q'|] eqn:Ei; [|done]. injection Hq as ->.
      assert (Hn : is_utf8 name = true).
      { cbn [slug] in Hu. unfold is_utf8, IMPORTED_PREFIX in Hu. rewrite utf8_items_app, forallb_app in Hu by done.
        by apply andb_true_iff in Hu as [_ ?]. }
      pose proof Ei as Ei'. apply imported_path_iff in Ei' as [Hv ->]; [|done]. rewrite import_file in * by done.
      rewrite Hp. split; [by eapply import_is_image|by exists m]. }
  destruct Hgo as (Hi & [m|] & Hm & ->); [left|by right]. by eapply stamp_tells.
Qed.

(** An import is removed whole or kept whole, as far as a boot can tell.  Whatever call fails, the
    disk is as it was or the image is gone; nothing but the image, its stamp and a stamp's leftover is
    touched; a stamp is never taken from an image that stays.  Without [--force] nothing is removed that a
    stage of the store stands on, and with it the caller is told which stages those were. *)
Theorem import_removal (sha256_hex : bytes -> bytes) (from_slice : bytes -> option ImageMeta) (fails : Call -> bool) (images : bytes)
    (stages : result (list StageMeta) StageError) (spelling : bytes) (force : bool) (d d' : Disk) r :
  is_utf8 spelling = true -> images_sound sha256_hex from_slice images d ->
  remove_imported_in sha256_hex from_slice fails images stages spelling force d = (r, d') ->
  d' = d /\ (exists e, r = Err e) \/
  exists name path all, imported_name spelling = Ok name /\ imported_image_path images name = Ok path /\
    stages = Ok all /\ (force = true \/ forall s, s ∈ all -> Stage.base s <> slug (Imported name)) /\
    d' !! path = None /\
    (forall q, q <> path -> q <> image_meta_path path -> q <> image_meta_tmp_path path -> d' !! q = d !! q) /\
    forall o, r = Ok o -> d' !! image_meta_path path = None /\ d' !! image_meta_tmp_path path = None /\
      (forall s, s ∈ orphaned o <-> force = true /\ s ∈ all /\ Stage.base s = slug (Imported name)).
Proof. intros Hu Hs Hr. by eapply removal_cases in Hr as [_ Hr]. Qed.

(** An import that succeeds can be booted under its name: with the agent it was packed for, its
    path resolves, past the check, to the packed file; its content id is the digest of those bytes; and its
    configuration is the one the import recorded.  One that fails leaves no other stamp beside the image
    than one of its own bytes. *)
Theorem published_import_boots (sha256_hex : bytes -> bytes) (to_vec : ImageMeta -> bytes) (from_slice : bytes -> option ImageMeta)
    (now : N) (torn : bytes -> bytes) (fails : Call -> bool) (explicit target : option bytes)
    (root images tmp dest slug_ c : bytes) (prov : OciProvenance) (d d' : Disk) r :
  (forall m, from_slice (to_vec m) = Some m) -> images_sound sha256_hex from_slice images d ->
  is_utf8 slug_ = true -> imported_image_path images slug_ = Ok dest ->
  aside images tmp -> d !! tmp = Some (Regular c) ->
  publish_imported_image sha256_hex to_vec now torn fails explicit target root tmp dest slug_ prov d = (r, d') ->
  images_sound sha256_hex from_slice images d' /\
  (r = Ok tt -> forall fails', fails' (ReadFile (image_meta_path dest)) = false ->
     let host := host_agent_sha256 sha256_hex fails explicit target root d in
     image_path_in from_slice fails' host images d' (Imported slug_) = Ok dest /\
     check_image_freshness from_slice fails' d' host dest = Ok None /\
     content_id from_slice fails' images d' (Imported slug_) = Ok (sha256_hex c) /\
     provenance_in from_slice fails' images d' (Imported slug_) = Ok (Some prov) /\
     d' !! dest = Some (Regular c)).
Proof.
  intros Hcodec Hs Hu Hd Ht Hc Hp.
  eapply publish_imported_spec in Hp as [Hs' Hok]; try done. split; [done|]. intros Hr fails' Hf. cbn zeta.
  destruct (Hok Hr) as (m & Hdc & Hst & Hfl & Hsh & Hb & Ho & Hpr & Ha).
  assert (Hm : read_image_meta from_slice fails' d' dest = Ok (Some m)).
  { unfold read_image_meta, read_file. by rewrite Hf, Hst, Hcodec. }
  assert (Hck : check_image_freshness from_slice fails' d' (host_agent_sha256 sha256_hex fails explicit target root d) dest = Ok None).
  { unfold check_image_freshness. rewrite Hm, Hpr, Ha. cbn. destruct (host_agent_sha256 _ _ _ _ _ d) as [h|]; [|done].
    assert (beq h h = true) as -> by by apply beq_true. done. }
  cbn [image_path_in content_id provenance_in]. unfold import_path. rewrite Hd. cbn [map_err rbind].
  unfold exists_at. rewrite Hdc. cbn [negb]. unfold check_image_proto, read_provenance. rewrite Hck, Hm. cbn [rbind mbind option_bind].
  by rewrite Hsh, Ho.
Qed.

(** The check of the agent's binary lets none through that names an interpreter in a program
    header that the file has: it accepts only a file with an ELF header of a 64-bit x86 machine, and no
    header before the first that lies outside the file is an interpreter's. *)
Theorem static_agent data : elf_is_static_x86_64 data = Some true ->
  (64 <= length data)%nat /\ take 4 data = ascii_of_N 127 :: B "ELF" /\ byte_at data 4 = 2%N /\ le 2 data 18 = 62%N /\
  forall i, (i < N.to_nat (le 2 data 56))%nat ->
    let off j := ((le 8 data 32 + N.of_nat j * le 2 data 54) mod usize_mod)%N in
    (forall j, (j <= i)%nat -> ((off j + 4) mod usize_mod <= N.of_nat (length data))%N) -> le 4 data (off i) <> 3%N.
Proof.
  unfold elf_is_static_x86_64. destruct (Nat.ltb_spec (length data) 64); [done|].
  destruct (beq (take 4 data) _) eqn:Em; [|done]. apply beq_true in Em. cbn [negb orb].
  destruct (N.eqb_spec (byte_at data 4) 2); [|done]. cbn [negb]. destruct (N.eqb_spec (le 2 data 18) 62); [|done]. cbn [negb].
  destruct (_ =? 0)%N; [done|]. intros Hscan. split_and!; try done. intros i Hi.
  assert (Hgo : forall n k, scan_headers data (le 8 data 32) (le 2 data 54) n (N.of_nat k) = Some true ->
    forall i, (k <= i < k + n)%nat ->
    (forall j, (k <= j <= i)%nat -> ((((le 8 data 32 + N.of_nat j * le 2 data 54) mod usize_mod) + 4) mod usize_mod <= N.of_nat (length data))%N) ->
    le 4 data ((le 8 data 32 + N.of_nat i * le 2 data 54) mod usize_mod) <> 3%N).
  { clear i Hi. induction n as [|n IH]; intros k Hs i Hi Hall; [lia|]. cbn [scan_headers] in Hs.
    pose proof (Hall k ltac:(lia)) as Hk. apply N.ltb_ge in Hk. rewrite Hk in Hs.
    destruct (N.of_nat (length data) <? _)%N; [done|]. destruct (N.eqb_spec (le 4 data ((le 8 data 32 + N.of_nat k * le 2 data 54) mod usize_mod)) 3) as [|Hne]; [done|].
    replace (N.of_nat k + 1)%N with (N.of_nat (S k)) in Hs by lia.
    destruct (decide (i = k)) as [->|Hik]; [done|]. apply (IH (S k) Hs i); [lia|]. intros j Hj. apply Hall. lia. }
  cbn zeta. intros Hall. apply (Hgo _ 0%nat Hscan i); [lia|]. intros j Hj. apply Hall. lia.
Qed.

(** ** A directory of images on paper *)

Lemma aside_by_last images p : last p <> Some "s"%char -> last p <> Some "4"%char -> last p <> Some "n"%char -> aside images p.
Proof.
  intros H1 H2 H3. split; [intros H%image_last; naive_solver|]. intros i _ ->. by rewrite stamp_last in H3.
Qed.

Lemma sound_no_stamps (sha256_hex : bytes -> bytes) (from_slice : bytes -> option ImageMeta) (images : bytes) (d : Disk) :
  map_Forall (fun p _ => last p <> Some "n"%char) d -> images_sound sha256_hex from_slice images d.
Proof. intros H i _ c raw m _ Hr. apply H in Hr. by rewrite stamp_last in Hr. Qed.

#[export] Instance codec_provenance : Codec OciProvenance.
Proof.
  refine (codec_record
    (fun m => (source_ref m, platform m, manifest_digest m, config_digest m, layer_digests m, env m,
               working_dir m, entrypoint m, cmd m, user m, replaced_init m, setuid_paths m))
    (fun '(a, b, c, d, e, f, g, h, i, j, k, l) => MkProvenance a b c d e f g h i j k l) _).
  by intros [].
Defined.

#[export] Instance codec_meta : Codec ImageMeta.
Proof.
  refine (codec_record (fun m => (flavor m, proto_version m, agent_sha256 m, sha256 m, built_unix m, oci m))
    (fun '(a, b, c, d, e, f) => MkMeta a b c d e f) _).
  by intros [].
Defined.

Definition no_fail (c : Call) : bool := false.

(** A header without program headers, and one whose table starts two bytes before the end of the
    address space. *)
Definition elf (table : bytes) : bytes :=
  ascii_of_N 127 :: B "ELF" ++ [ascii_of_N 2] ++ repeat (ascii_of_N 0) 13 ++ [ascii_of_N 62; ascii_of_N 0] ++
  repeat (ascii_of_N 0) 12 ++ table ++ repeat (ascii_of_N 0) 14 ++ [ascii_of_N 1; ascii_of_N 0; ascii_of_N 1; ascii_of_N 0] ++
  repeat (ascii_of_N 0) 6.
Definition table_at_64 : bytes := ascii_of_N 64 :: repeat (ascii_of_N 0) 7.

Example agent_checks :
  elf_is_static_x86_64 (elf table_at_64 ++ [ascii_of_N 1; ascii_of_N 0; ascii_of_N 0; ascii_of_N 0]) = Some true /\
  elf_is_static_x86_64 (elf table_at_64 ++ [ascii_of_N 3; ascii_of_N 0; ascii_of_N 0; ascii_of_N 0]) = Some false /\
  elf_is_static_x86_64 (elf table_at_64) = Some true.
Proof. by vm_compute. Qed.

(** The offset of a program header is not checked against the width of an address: the check of such a
    file panics. *)
Example agent_check_panics : elf_is_static_x86_64 (elf (ascii_of_N 254 :: repeat (ascii_of_N 255) 7)) = None.
Proof. by vm_compute. Qed.

Definition paper_agent : bytes := elf table_at_64.
Definition paper_images : bytes := B "/i".
Definition paper_tmp : bytes := B "/i/.tmpAb".
Definition paper_disk (packed : string) : Disk :=
  <[B "/a/agent" := Regular paper_agent]> (<[paper_tmp := Regular (B packed)]> (<[B "/i/oci" := Directory]> ∅)).

Lemma paper_sound packed : images_sound length_hex scan paper_images (paper_disk packed).
Proof.
  apply sound_no_stamps. unfold paper_disk. by repeat (apply map_Forall_insert_2; [done|]).
Qed.

Lemma paper_tmp_aside : aside paper_images paper_tmp.
Proof. by apply aside_by_last. Qed.

Definition paper_build (fails : Call -> bool) (d : Disk) : Disk :=
  snd (publish_built length_hex print 7 (fun c => take 3 c) fails (Some (B "/a/agent")) None [] paper_images paper_tmp BaseAlpine d).

Definition paper_built : Disk := paper_build no_fail (paper_disk "alpine one").

(** A rebuild whose stamp cannot be finished: the image is the new one and nothing vouches for it. *)
Definition paper_rebuilt : Disk :=
  paper_build (fun c => match c with WriteAll _ => true | _ => false end) (<[paper_tmp := Regular (B "alpine two!")]> paper_built).

Lemma paper_steps : rtc (image_step length_hex print scan paper_images) (paper_disk "alpine one") paper_rebuilt.
Proof.
  apply (rtc_l _ _ paper_built).
  { apply (StepBuild _ _ _ _ 7 (fun c => take 3 c) no_fail (Some (B "/a/agent")) None [] paper_tmp (B "alpine one")); [apply paper_tmp_aside|done]. }
  apply (rtc_l _ _ (<[paper_tmp := Regular (B "alpine two!")]> paper_built)).
  { apply (StepAside _ _ _ _ paper_tmp (Some (Regular (B "alpine two!"))) paper_built), paper_tmp_aside. }
  apply rtc_once. eapply StepBuild; [apply paper_tmp_aside|by rewrite lookup_insert_eq].
Qed.

Lemma stamps_never_lie_witness :
  content_id scan no_fail paper_images paper_built (Builtin BaseAlpine) = Ok (length_hex (B "alpine one")) /\
  content_id scan no_fail paper_images paper_rebuilt (Builtin BaseAlpine) = Ok (B "unstamped") /\
  (B "unstamped" = length_hex (B "alpine two!") \/
   B "unstamped" = B "unstamped" /\ read_image_meta scan no_fail paper_rebuilt (B "/i/base-alpine.sqfs") = Ok None).
Proof.
  split; [by vm_compute|]. split; [by vm_compute|].
  apply (stamps_never_lie length_hex print scan paper_images (paper_disk "alpine one") paper_rebuilt no_fail
    (Builtin BaseAlpine) (B "/i/base-alpine.sqfs") (B "unstamped") (B "alpine two!") scan_print (paper_sound _) paper_steps);
    by vm_compute.
Defined.

Definition paper_row (d : Disk) : result ImageEntry ImageError :=
  image_entry scan no_fail (Some (B "other agent")) 0 d (B "/i/base-alpine.sqfs") (B "base-alpine") (B "builtin").

Lemma listing_agrees_witness :
  let check d := check_image_freshness scan no_fail d (Some (B "other agent")) (B "/i/base-alpine.sqfs") in
  is_ok (check paper_built) = false /\ check paper_rebuilt = Ok (Some (NoStamp (B "/i/base-alpine.sqfs"))).
Proof.
  assert (E1 : rmap (fun e => (present e, stale e)) (paper_row paper_built) = Ok (true, true)) by by vm_compute.
  assert (E2 : rmap (fun e => (present e, is_unstamped e)) (paper_row paper_rebuilt) = Ok (true, true)) by by vm_compute.
  cbn zeta. split.
  - destruct (paper_row paper_built) as [e|x] eqn:E; [|done]. unfold paper_row in E. cbn [rmap] in E1. injection E1 as Hp Hs.
    destruct (listing_agrees _ _ _ _ _ _ _ _ _ E Hp) as (H & _). by rewrite H, Hs.
  - destruct (paper_row paper_rebuilt) as [e|x] eqn:E; [|done]. unfold paper_row in E. cbn [rmap] in E2. injection E2 as Hp Hs.
    destruct (listing_agrees _ _ _ _ _ _ _ _ _ E Hp) as (_ & H & _). exact (proj2 H Hs).
Defined.

(** An import of the packed file, under a name. *)
Definition paper_import (d : Disk) : result unit ImageError * Disk :=
  publish_imported_image length_hex print 7 (fun c => take 3 c) no_fail (Some (B "/a/agent")) None [] paper_tmp
    (B "/i/oci/py.sqfs") (B "py") python_image d.

Definition paper_imported : Disk := snd (paper_import (paper_disk "python")).

Lemma paper_import_runs : paper_import (paper_disk "python") = (Ok tt, paper_imported).
Proof. unfold paper_imported. assert (E : fst (paper_import (paper_disk "python")) = Ok tt) by by vm_compute.
  destruct (paper_import _) as [r d]. cbn [fst snd] in *. by rewrite E.
Qed.

Lemma published_import_boots_witness :
  image_path_in scan no_fail (host_agent_sha256 length_hex no_fail (Some (B "/a/agent")) None [] (paper_disk "python")) paper_images paper_imported
    (Imported (B "py")) = Ok (B "/i/oci/py.sqfs") /\
  content_id scan no_fail paper_images paper_imported (Imported (B "py")) = Ok (length_hex (B "python")).
Proof.
  assert (H1 : is_utf8 (B "py") = true) by by vm_compute.
  assert (H2 : imported_image_path paper_images (B "py") = Ok (B "/i/oci/py.sqfs")) by by vm_compute.
  assert (H3 : paper_disk "python" !! paper_tmp = Some (Regular (B "python"))) by by vm_compute.
  destruct (published_import_boots _ _ _ _ _ _ _ _ _ _ _ _ _ _ _ _ _ _ scan_print (paper_sound _) H1 H2 paper_tmp_aside H3 paper_import_runs) as [_ H].
  destruct (H eq_refl no_fail eq_refl) as (E1 & _ & E3 & _). split; [exact E1|exact E3].
Defined.

Lemma list_imported_spec_witness :
  exists l, list_imported no_fail paper_images paper_imported = Ok l /\ (B "py", B "/i/oci/py.sqfs") ∈ l.
Proof.
  destruct (list_imported no_fail paper_images paper_imported) as [l|e] eqn:E; [|by vm_compute in E].
  exists l. split; [done|]. destruct (list_imported_spec no_fail paper_images paper_imported l E) as [H _]; [by vm_compute|].
  apply H. split; [by vm_compute|]. split; [by vm_compute|]. exists (B "python"). by vm_compute.
Defined.

Lemma static_agent_witness : (64 <= length paper_agent)%nat /\ byte_at paper_agent 4 = 2%N.
Proof. destruct (static_agent paper_agent eq_refl) as (H1 & _ & H3 & _). split; [exact H1|exact H3]. Defined.

(** A stage made on the image that was built, and a fork of it. *)
Definition paper_base : BaseId := MkBaseId (B "base-alpine") (Some (length_hex (B "alpine one"))).

#[export] Instance codec_stage : Codec StageMeta.
Proof.
  refine (codec_record (fun m => (stage_id m, name m, label m, parent m, chain m, Stage.base m, base_sha256 m,
                                  created_unix m, Stage.bytes_apparent m, bytes_allocated m))
    (fun '(a, b, c, d, e, f, g, h, i, j) => MkStageMeta a b c d e f g h i j) _).
  by intros [].
Defined.

Definition paper_commit : result StageMeta StageError * Store :=
  commit_in scan print (fun c => c) (fun _ => 0%N) 7 (fun _ => false)
    (Some (B "0000000000000000")) (B "one") None paper_base false None.
Definition paper_store : Store := snd paper_commit.

Lemma paper_store_wf : store_wf scan (fun c => c) paper_store.
Proof.
  apply (commit_wf _ print (fun c => c) (fun _ => 0%N) 7 (fun _ => false) scan_print
    (Some (B "0000000000000000")) (B "one") None paper_base false None (fst paper_commit) paper_store).
  - split; intros; done.
  - apply surjective_pairing.
Qed.

Definition on_alpine (e : entry) : bool :=
  match e with
  | IsDir d => match meta_file d ≫= scan with Some m => beq (Stage.base m) (B "base-alpine") | None => true end
  | NotDir => true
  end.

Lemma paper_store_bases (id : bytes) (m : StageMeta) : meta_at scan paper_store id = Some m -> Stage.base m = B "base-alpine".
Proof.
  assert (H : match paper_store with Some dirs => forallb (fun kv => on_alpine (snd kv)) (map_to_list dirs) | None => true end = true)
    by by vm_compute.
  unfold meta_at, dir_of. destruct paper_store as [dirs|]; [|done]. cbn [mbind option_bind].
  rewrite forallb_forall in H. destruct (dirs !! id) as [[|d]|] eqn:Ed; [done| |done].
  apply elem_of_map_to_list, list_elem_of_In, H in Ed. cbn [snd on_alpine mbind option_bind] in *.
  intros Hm. rewrite Hm in Ed. by apply beq_true in Ed.
Qed.

Definition paper_plan (d : Disk) : result StagePlan ImageError :=
  resolve_stage_plan_in scan no_fail None paper_images scan (fun _ => false) paper_store d (B "one") (Builtin BaseSqfs) false.

Lemma paper_built_sound : images_sound length_hex scan paper_images paper_built.
Proof.
  eapply (step_sound _ print); [apply scan_print| |apply (paper_sound "alpine one")].
  apply (StepBuild _ _ _ _ 7 (fun c => take 3 c) no_fail (Some (B "/a/agent")) None [] paper_tmp (B "alpine one")); [apply paper_tmp_aside|by vm_compute].
Qed.

Lemma booted_base_witness :
  exists plan, paper_plan paper_built = Ok plan /\ is_image paper_images (base_sqfs plan) /\
    is_Some (plan_parent plan) /\ is_ok (check_image_freshness scan no_fail paper_built None (base_sqfs plan)) = true.
Proof.
  assert (Hp : is_ok (paper_plan paper_built) = true) by by vm_compute.
  assert (Hpar : rmap (fun p => bool_decide (is_Some (plan_parent p))) (paper_plan paper_built) = Ok true) by by vm_compute.
  destruct (paper_plan paper_built) as [plan|e] eqn:E; [|done]. exists plan. split; [done|].
  assert (Hu : is_utf8 (slug (Builtin BaseSqfs)) = true) by by vm_compute.
  unfold paper_plan in E. destruct length_hex_ok as [Hlen Hhex].
  assert (Hne : forall s, length_hex s <> []) by (intros s E0; specialize (Hlen s); by rewrite E0 in Hlen).
  destruct (booted_base length_hex Hhex Hne scan paper_images scan (fun c => c) (fun _ => false) no_fail None paper_store
    paper_built (B "one") (Builtin BaseSqfs) false plan paper_built_sound paper_store_wf Hu) as (H1 & _ & H3 & _).
  - intros id m Hm. rewrite (paper_store_bases id m Hm). by vm_compute.
  - exact E.
  - split; [exact H1|]. split; [|exact H3]. cbn [rmap] in Hpar. injection Hpar as Hpar. by apply bool_decide_eq_true in Hpar.
Defined.

(** The rebuilt root has another digest: the fork is refused unless the operator opts out.  While nothing
    vouches for it, there is nothing to compare and the fork is let through. *)
Example rebuilt_base :
  let rebuilt := paper_build no_fail (<[paper_tmp := Regular (B "alpine two!")]> paper_built) in
  match paper_plan rebuilt with Err (WillNotBoot (RebuiltBase _)) => True | _ => False end /\
  is_ok (paper_plan paper_rebuilt) = true.
Proof. by vm_compute. Qed.

(** A removal that fails after the image: the stamp stays, for a file that is gone. *)
Definition stamp_stays (c : Call) : bool :=
  match c with RemoveFile p => beq p (B "/i/oci/py.sqfs.meta.json") | _ => false end.
Definition paper_removal (fails : Call -> bool) (stages : list StageMeta) (force : bool) : result RemoveOutcome ImageError * Disk :=
  remove_imported_in length_hex scan fails paper_images (Ok stages) (B "oci:py") force paper_imported.

Lemma paper_imported_sound : images_sound length_hex scan paper_images paper_imported.
Proof.
  eapply (step_sound _ print); [apply scan_print| |apply (paper_sound "python")].
  apply (StepImport _ _ _ _ 7 (fun c => take 3 c) no_fail (Some (B "/a/agent")) None [] paper_tmp (B "/i/oci/py.sqfs") (B "py") (B "python") python_image);
    [apply paper_tmp_aside| | |]; by vm_compute.
Qed.

Definition stage_on_py : StageMeta := MkStageMeta (B "st-1") (B "calm-fox") (B "mine") None [B "st-1"] (B "oci:py") None 1 1 1.
Definition stage_on_py2 : StageMeta := MkStageMeta (B "st-2") (B "dry-owl") (B "other") None [B "st-2"] (B "oci:py-2") None 1 1 1.

Lemma import_removal_witness :
  fst (paper_removal no_fail [stage_on_py; stage_on_py2] false) = Err (StillBase (B "oci:py") [stage_on_py]) /\
  let d' := snd (paper_removal stamp_stays [stage_on_py2] false) in
  d' = paper_imported \/ d' !! B "/i/oci/py.sqfs" = None.
Proof.
  split; [by vm_compute|]. cbn zeta. destruct (paper_removal stamp_stays [stage_on_py2] false) as [r d'] eqn:E. cbn [snd].
  assert (Hu : is_utf8 (B "oci:py") = true) by by vm_compute. unfold paper_removal in E.
  destruct (import_removal length_hex scan stamp_stays paper_images (Ok [stage_on_py2]) (B "oci:py") false paper_imported d' r Hu paper_imported_sound E)
    as [[H _]|(name & path & all & Hn & Hp & _ & _ & H & _)]; [by left|right].
  assert (En : imported_name (B "oci:py") = Ok (B "py")) by by vm_compute. rewrite En in Hn. injection Hn as <-.
  assert (Ep : imported_image_path paper_images (B "py") = Ok (B "/i/oci/py.sqfs")) by by vm_compute. rewrite Ep in Hp. injection Hp as <-.
  exact H.
Defined.

(** A stamp that does not parse is not read as no stamp: the check before a boot lets its image
    pass, but the content id fails, and the whole listing with it. *)
Definition paper_torn : Disk := <[B "/i/base-alpine.sqfs.meta.json" := Regular (B "{")]> paper_built.

Example torn_stamp_fails_listing :
  is_ok (check_image_freshness scan no_fail paper_torn None (B "/i/base-alpine.sqfs")) = true /\
  content_id scan no_fail paper_images paper_torn (Builtin BaseAlpine) = Err (BadStamp (B "/i/base-alpine.sqfs.meta.json")) /\
  list_images_in scan no_fail None paper_images 0 paper_torn = Err (BadStamp (B "/i/base-alpine.sqfs.meta.json")).
Proof. by vm_compute. Qed.

(** The greatest name is not the newest version. *)
Example newest_is_not_newest :
  newest_with_prefix [B "vmlinux-6.18.10"; B "vmlinux-6.18.9"; B "base.sqfs"] (B "vmlinux-6.18") = Some (B "vmlinux-6.18.9").
Proof. by vm_compute. Qed.
