(* ===== verification/Adapt.v ===== *)
(** * Adapting an unpacked image ([crates/core/src/image/import/mod.rs])

    An unpacked root file system becomes a base by a few changes, made with calls of [std::fs] on paths
    below the tree: the directories that the guest's agent mounts on, the agent, and the link [/init].
    The tree is the image author's, its links included.

    The state is the host's file system, by place: the names from the root, without links, of
    directories, files with the numbers of their inodes, modes and bytes, and links.  A path is resolved as
    the kernel does ([HostIo.walk]); a call may fail, by an oracle, a path too long among the reasons.  The file has the resolution of a path against the
    tree's own root ([resolve_in_tree]), the adaptation, the pseudo-file that carries the special modes and
    the count of them in a listing, and their theorems. *)
From stdpp Require Import fin_maps.
From S2P Require Import Prelude Text Effects HostIo.

(** ** The host *)

(** A file has the number of its inode: places with the same number are names of one file (hard links),
    and what is written to it under one of them is there under all. *)
Inductive inode : Type :=
  | IDir (mode : N)
  | IFile (number : positive) (mode : N) (content : bytes)
  | ILink (target : bytes)
  | IOther.
#[export] Instance inode_eq_dec : EqDecision inode.
Proof. solve_decision. Defined.

Abbreviation place := (list bytes).
Abbreviation Host := (gmap (list bytes) inode).

(** What a walk sees: a directory may be searched if its owner may. *)
Definition shape (i : inode) : node :=
  match i with
  | IDir m => Dir (N.testbit m 6)
  | IFile _ _ _ => File 1
  | ILink t => Link t
  | IOther => Special
  end.
Definition nodes_of (h : Host) : gmap (list bytes) node := shape <$> h.

Definition at_path (mode : last_mode) (h : Host) (p : place) : result place Errno :=
  walk mode (nodes_of h) MAXSYMLINKS [] (canon p).

(** Another name of the file at [p]. *)
Definition shares (h : Host) (p q : place) : Prop :=
  exists i m c m' c', h !! p = Some (IFile i m c) /\ h !! q = Some (IFile i m' c').

Definition number_of (i : inode) : option positive := match i with IFile n _ _ => Some n | _ => None end.

(** The number of a new inode. *)
Definition new_number (h : Host) : positive := fresh (omap number_of (map snd (map_to_list h))).

(** A file's mode and bytes from now on, under each of its names; a place without a file gets one. *)
Definition put_file (p : place) (mode : N) (content : bytes) (h : Host) : Host :=
  match h !! p with
  | Some (IFile i _ _) => (fun x => if bool_decide (number_of x = Some i) then IFile i mode content else x) <$> h
  | _ => <[p := IFile (new_number h) mode content]> h
  end.

Definition beq_place (p q : place) : bool := bool_decide (p = q).

Inductive Call : Type :=
  | Lstat (p : place) | ReadLink (p : place) | Mkdir (p : place) | Chmod (p : place) | OpenCopy (p : place)
  | ChmodCopy (p : place) | WriteCopy (p : place) | RemoveAll (p : place) | RemoveFile (p : place) | Symlink (p : place).

Inductive AdaptError : Type :=
  | NoShell
  | NotADirectory (rel : bytes)
  | CallFailed (c : Call).

Definition DIR_MODE : N := 493.
Definition AGENT_DIR : bytes := B ".isopod".
Definition AGENT_PATH : bytes := B ".isopod/init".
Definition OVERLAY_DIRS : list bytes := [B "overlay"; B "mnt"; B "layers"].
Definition PSEUDO_DIRS : list bytes := [B "proc"; B "sys"; B "dev"; B "etc"; B "var"].

Record AdaptReport : Type := MkReport {
  dirs_created : list bytes; replaced_init : bool; created_tmp : bool; special_modes : nat }.

Section adapt.
Context (fails : Call -> bool).
(** The process's umask; what a write that fails leaves of the bytes; what a removal that fails leaves
    of a directory. *)
Context (umask : N) (torn : bytes -> bytes) (left_ : place -> bool).

Abbreviation Fs := (SE Host AdaptError).

(** *** The calls *)

(** [std::fs::symlink_metadata] *)
Definition lstat (h : Host) (p : place) : result inode Errno :=
  if fails (Lstat p) then Err EACCES
  else let? l := at_path NoFollow h p in
       match l with [] => Ok (IDir DIR_MODE) | _ => ok_or (h !! l) ENOENT end.

(** Where a new name goes: its directory is there and can be searched, and nothing has the name. *)
Definition new_place (h : Host) (p : place) : option place :=
  match at_path Follow h (removelast p), last p with
  | Ok d, Some n =>
      if is_ok (search (nodes_of h) d) then match h !! (d ++ [n]) with None => Some (d ++ [n]) | Some _ => None end else None
  | _, _ => None
  end.

Definition add_new (c : Call) (p : place) (i : inode) : Fs unit := fun h =>
  if fails c then (Err (CallFailed c), h)
  else match new_place h p with Some l => (Ok tt, <[l := i]> h) | None => (Err (CallFailed c), h) end.

(** [create_dir_all] of a path that is not there and whose parent is. *)
Definition create_dir (p : place) : Fs unit := add_new (Mkdir p) p (IDir (N.ldiff 511 umask)).

Definition symlink (target : bytes) (p : place) : Fs unit := add_new (Symlink p) p (ILink target).

(** [set_permissions], which follows a link at the end. *)
Definition set_permissions (p : place) (mode : N) : Fs unit := fun h =>
  if fails (Chmod p) then (Err (CallFailed (Chmod p)), h)
  else match at_path Follow h p with
       | Ok l => match h !! l with
                 | Some (IDir _) => (Ok tt, <[l := IDir mode]> h)
                 | Some (IFile _ _ c) => (Ok tt, put_file l mode c h)
                 | _ => (Err (CallFailed (Chmod p)), h)
                 end
       | Err _ => (Err (CallFailed (Chmod p)), h)
       end.

(** [std::fs::copy(from, to)] of a file with these bytes and this mode: it opens [to] to be made or
    cut, following a link there, and gives the open file the mode before the bytes. *)
Definition copy (content : bytes) (mode : N) (p : place) : Fs unit := fun h =>
  if fails (OpenCopy p) then (Err (CallFailed (OpenCopy p)), h)
  else match at_path Create h p with
       | Ok l =>
           match h !! l with
           | None | Some (IFile _ _ _) =>
               let opened := match h !! l with Some (IFile _ m _) => m | _ => N.ldiff mode umask end in
               if beq_place l [] then (Err (CallFailed (OpenCopy p)), h)
               else if fails (ChmodCopy p) then (Err (CallFailed (ChmodCopy p)), put_file l opened [] h)
               else if fails (WriteCopy p) then (Err (CallFailed (WriteCopy p)), put_file l mode (torn content) h)
               else (Ok tt, put_file l mode content h)
           | _ => (Err (CallFailed (OpenCopy p)), h)
           end
       | Err _ => (Err (CallFailed (OpenCopy p)), h)
       end.

Definition under (p q : place) : bool := bool_decide (p `prefix_of` q).

(** [remove_any]: the last name is not followed. *)
Definition remove_any (p : place) : Fs unit := fun h =>
  match lstat h p with
  | Err _ => (Err (CallFailed (Lstat p)), h)
  | Ok i =>
      match at_path NoFollow h p with
      | Err _ => (Err (CallFailed (Lstat p)), h)
      | Ok l =>
          match i with
          | IDir _ =>
              if fails (RemoveAll p) then (Err (CallFailed (RemoveAll p)), filter (fun kv => under l kv.1 = true -> left_ kv.1 = true) h)
              else (Ok tt, filter (fun kv => under l kv.1 = false) h)
          | _ => if fails (RemoveFile p) then (Err (CallFailed (RemoveFile p)), h) else (Ok tt, delete l h)
          end
      end
  end.

(** *** Resolution against the tree's root *)

Definition MAX_HOPS : nat := 40.

(** The names resolved so far and the ones to come; [links] are the hops still allowed. *)
Fixpoint resolve_names (h : Host) (tree : place) (links : nat) : list bytes -> list bytes -> option (list bytes) :=
  fix go resolved pending :=
    match pending with
    | [] => Some resolved
    | c :: r =>
        if beq c [] || beq c (B ".") then go resolved r
        else if beq c (B "..") then go (removelast resolved) r
        else
          match lstat h (tree ++ resolved ++ [c]) with
          | Err _ => None
          | Ok (ILink target) =>
              match links with
              | O => None
              | S links =>
                  if fails (ReadLink (tree ++ resolved ++ [c])) || negb (is_utf8 target) then None
                  else resolve_names h tree links (if starts_with (B "/") target then [] else resolved) (split "/" target ++ r)
              end
          | Ok _ => go (resolved ++ [c]) r
          end
    end.

Definition resolve_in_tree (h : Host) (tree : place) (rel : bytes) : option place :=
  match resolve_names h tree MAX_HOPS [] (split "/" rel) with
  | Some l => if is_ok (lstat h (tree ++ l)) then Some (tree ++ l) else None
  | None => None
  end.

(** *** The adaptation *)

Definition reading {A} (f : Host -> result A AdaptError) : Fs A := fun h => (f h, h).

Definition ensure_dir (tree : place) (rel : bytes) : Fs bool :=
  let path := tree ++ [rel] in
  do! found := reading (fun h =>
    match lstat h path with
    | Ok (IDir _) | Ok (ILink _) => Ok true
    | Ok _ => Err (NotADirectory rel)
    | Err ENOENT => Ok false
    | Err _ => Err (CallFailed (Lstat path))
    end) in
  if found then se_ret (Ok false)
  else
    do! _ := create_dir path in
    do! _ := set_permissions path DIR_MODE in
    se_ret (Ok true).

Fixpoint ensure_dirs (tree : place) (rels : list bytes) : Fs (list bytes) :=
  match rels with
  | [] => se_ret (Ok [])
  | rel :: rels =>
      do! made := ensure_dir tree rel in
      do! more := ensure_dirs tree rels in
      se_ret (Ok (if made then (B "/" ++ rel) :: more else more))
  end.

Definition agent_place (tree : place) : place := tree ++ [AGENT_DIR; B "init"].

Definition install_agent (tree : place) (agent : bytes) (agent_mode : N) : Fs unit :=
  do! _ := ensure_dir tree AGENT_DIR in
  do! _ := copy agent agent_mode (agent_place tree) in
  set_permissions (agent_place tree) DIR_MODE.

(** Whether there was one. *)
Definition replace_init (tree : place) : Fs bool :=
  let init := tree ++ [B "init"] in
  do! replaced := reading (fun h => Ok (is_ok (lstat h init))) in
  do! _ := (if replaced then remove_any init else se_ret (Ok tt)) in
  do! _ := symlink AGENT_PATH init in
  se_ret (Ok replaced).

(** [agent] and [agent_mode] are the bytes and the permissions of the guest agent's binary. *)
Definition adapt (tree : place) (agent : bytes) (agent_mode : N) : Fs AdaptReport :=
  do! shell := reading (fun h => Ok (resolve_in_tree h tree (B "bin/sh"))) in
  match shell with
  | None => se_ret (Err NoShell)
  | Some _ =>
      do! dirs := ensure_dirs tree (PSEUDO_DIRS ++ OVERLAY_DIRS) in
      do! tmp := ensure_dir tree (B "tmp") in
      do! _ := install_agent tree agent agent_mode in
      do! replaced := replace_init tree in
      se_ret (Ok (MkReport (dirs ++ (if tmp then [B "/tmp"] else [])) replaced tmp 0))
  end.
End adapt.

(** ** Special modes *)

Definition TMP_MODE : N := 1023.

Fixpoint show_octal_go (fuel : nat) (n : N) (acc : bytes) : bytes :=
  match fuel with
  | O => acc
  | S fuel => let acc := digit (n mod 8) :: acc in if (n <? 8)%N then acc else show_octal_go fuel (n / 8) acc
  end.
Definition show_octal (n : N) : bytes := show_octal_go (S (N.size_nat n)) n [].

Definition quote : ascii := ascii_of_N 34.
Definition backslash : ascii := ascii_of_N 92.

(** [str::replace] of one character. *)
Definition replace (c : ascii) (by_ : bytes) (s : bytes) : bytes :=
  flat_map (fun x => if Ascii.eqb x c then by_ else [x]) s.

Definition escape (path : bytes) : bytes :=
  replace quote [backslash; quote] (replace backslash [backslash; backslash] path).

Definition pseudo_line (path : bytes) (mode : N) : bytes :=
  quote :: escape path ++ quote :: B " m " ++ show_octal mode ++ B " 0 0" ++ [line_feed].

(** What [write_pseudo_file] writes. *)
Definition pseudo_file (modes : list (bytes * N)) : bytes := concat (map (fun pm => pseudo_line (fst pm) (snd pm)) modes).

(** How a line of the pseudo-file reads: a quoted name, where a backslash takes the next character as
    it is, the kind [m], the mode, the owner. *)
Fixpoint read_quoted (s : bytes) : option (bytes * bytes) :=
  match s with
  | [] => None
  | c :: r =>
      if Ascii.eqb c quote then Some ([], r)
      else if Ascii.eqb c backslash then
        match r with [] => None | d :: r' => prod_map (cons d) id <$> read_quoted r' end
      else prod_map (cons c) id <$> read_quoted r
  end.

Definition octal_of (ds : bytes) : N := fold_left (fun a d => 8 * a + digit_value d)%N ds 0%N.

Definition read_pseudo_line (line : bytes) : option (bytes * N) :=
  match line with
  | [] => None
  | q :: r =>
      if Ascii.eqb q quote then
        match read_quoted r with
        | Some (path, rest) =>
            match strip_prefix (B " m ") rest with
            | Some r2 =>
                match split_once (ascii_of_N 32) r2 with
                | Some (ds, owner) =>
                    if forallb is_ascii_digit ds && beq owner (B "0 0") then Some (path, octal_of ds) else None
                | None => None
                end
            | None => None
            end
        | None => None
        end
      else None
  end.

(** A line of [unsquashfs -ll]: the mode comes first. *)
Definition is_special_line (line : bytes) : bool :=
  match split_whitespace line with
  | [] => false
  | mode :: _ =>
      (length mode =? 10)%nat &&
      existsb (fun c => existsb (N.eqb c) [code "s"; code "S"; code "t"; code "T"]) (tail (chars mode))
  end.

Definition count_special_modes (listing : bytes) : nat :=
  length (List.filter is_special_line (str_lines (from_utf8_lossy listing))).

(** ** One step below a directory *)

Lemma nodes_lookup h p : nodes_of h !! p = shape <$> (h !! p).
Proof. apply lookup_fmap. Qed.

Lemma child_ne {A} (t : list A) n : t ++ [n] <> [].
Proof. by destruct t. Qed.

Lemma canon_child t n : canon (t ++ [n]) = RootDir :: map Normal t ++ [Normal n].
Proof. unfold canon. by rewrite map_app. Qed.

(** The resolution of a name in a directory that is where it is said to be. *)
Lemma at_child mode h t n : searchable_to (nodes_of h) t ->
  at_path mode h (t ++ [n]) =
    match h !! (t ++ [n]) with
    | None => match mode with Create => Ok (t ++ [n]) | _ => Err ENOENT end
    | Some (ILink target) =>
        match mode with
        | NoFollow => Ok (t ++ [n])
        | _ => match target with [] => Err ENOENT | _ => walk mode (nodes_of h) 39 t (kernel_components target) end
        end
    | Some _ => Ok (t ++ [n])
    end.
Proof.
  intros Ht. unfold at_path. rewrite canon_child, walk_root, walk_searchable by done. cbn [app].
  rewrite walk_normal, (proj2 (search_ok _ _ tt)) by (apply (Ht t []); by rewrite app_nil_r). cbn [rbind].
  rewrite nodes_lookup. destruct (h !! (t ++ [n])) as [[m|m c|target|]|]; cbn [fmap option_map option_fmap shape];
    [by rewrite walk_nil|by rewrite walk_nil| |by rewrite walk_nil|by destruct mode].
  unfold MAXSYMLINKS. destruct mode; destruct target; try done; by rewrite app_nil_r.
Qed.

Lemma at_dir mode h t : searchable_to (nodes_of h) t -> at_path mode h t = Ok t.
Proof.
  intros Ht. unfold at_path, canon. rewrite walk_root, <- (app_nil_r (map Normal t)), walk_searchable by done. by rewrite walk_nil.
Qed.

Lemma searchable_same h h' t : (forall q, q `prefix_of` t -> h' !! q = h !! q) ->
  searchable_to (nodes_of h) t -> searchable_to (nodes_of h') t.
Proof.
  intros Hq Ht p1 p2 ->. specialize (Ht p1 p2 eq_refl). destruct p1 as [|x p1]; [done|]. cbn [node_at] in *.
  rewrite nodes_lookup in *. rewrite Hq by by exists p2. done.
Qed.

Lemma below_not_prefix {A} (t q : list A) n : q `prefix_of` t -> t ++ [n] `prefix_of` q -> False.
Proof. intros [a ->] [b Hb]. apply (f_equal length) in Hb. rewrite !length_app in Hb. cbn in Hb. lia. Qed.

Lemma searchable_insert h t n i : searchable_to (nodes_of h) t -> searchable_to (nodes_of (<[t ++ [n] := i]> h)) t.
Proof.
  apply searchable_same. intros q Hq. apply lookup_insert_ne. intros <-. by apply (below_not_prefix t (t ++ [n]) n).
Qed.

(** *** The names of a file *)

Lemma new_number_fresh h q m c : h !! q = Some (IFile (new_number h) m c) -> False.
Proof.
  intros Hq. apply (infinite_is_fresh (omap number_of (map snd (map_to_list h)))), list_elem_of_omap.
  exists (IFile (new_number h) m c). split; [|done]. apply list_elem_of_In, in_map_iff. exists (q, IFile (new_number h) m c).
  split; [done|]. by apply list_elem_of_In, elem_of_map_to_list.
Qed.

Lemma put_file_at p m c h : exists i, put_file p m c h !! p = Some (IFile i m c).
Proof.
  unfold put_file. destruct (h !! p) as [[|i m0 c0| |]|] eqn:E; try (eexists; apply lookup_insert_eq).
  exists i. rewrite lookup_fmap, E. cbn. by rewrite bool_decide_true.
Qed.

Lemma put_file_other p m c h q : q <> p -> ~ shares h p q -> put_file p m c h !! q = h !! q.
Proof.
  intros Hq Hs. unfold put_file. destruct (h !! p) as [[|i m0 c0| |]|] eqn:E; try by rewrite lookup_insert_ne.
  rewrite lookup_fmap. destruct (h !! q) as [x|] eqn:Ex; [|done]. cbn. case_bool_decide as Hx; [|done].
  destruct x as [|j m1 c1| |]; try done. injection Hx as ->. destruct Hs. by exists i, m0, c0, m1, c1.
Qed.

Lemma put_file_shares p m c h q : shares (put_file p m c h) p q -> q = p \/ shares h p q.
Proof.
  intros (i & m1 & c1 & m2 & c2 & Hp & Hq). destruct (decide (q = p)) as [|Hne]; [by left|right].
  unfold put_file in *. destruct (h !! p) as [[|j m0 c0| |]|] eqn:E.
  2: { rewrite lookup_fmap in Hp, Hq. rewrite E in Hp. cbn in Hp. rewrite bool_decide_true in Hp by done. injection Hp as -> _ _.
       destruct (h !! q) as [x|] eqn:Ex; [|done]. cbn in Hq. case_bool_decide as Hx; [|injection Hq as ->; done].
       destruct x as [|k m3 c3| |]; try done. injection Hx as ->. by exists i, m0, c0, m3, c3. }
  all: rewrite lookup_insert_eq in Hp; rewrite lookup_insert_ne in Hq by done; injection Hp as <- _ _; by apply new_number_fresh in Hq.
Qed.

Lemma put_file_node p m c h q : q <> p -> nodes_of (put_file p m c h) !! q = nodes_of h !! q.
Proof.
  intros Hq. rewrite !nodes_lookup. unfold put_file. destruct (h !! p) as [[|i m0 c0| |]|]; try by rewrite lookup_insert_ne.
  rewrite lookup_fmap. destruct (h !! q) as [x|]; [|done]. cbn. case_bool_decide as Hx; [|done]. by destruct x.
Qed.

Lemma searchable_put h t n m c : searchable_to (nodes_of h) t -> searchable_to (nodes_of (put_file (t ++ [n]) m c h)) t.
Proof.
  intros Ht p1 p2 E. specialize (Ht p1 p2 E). destruct p1 as [|x p1]; [done|]. cbn [node_at] in *. rewrite put_file_node; [done|].
  intros Ex. apply (below_not_prefix t (x :: p1) n); [by exists p2|by rewrite Ex].
Qed.

Section facts.
Context (fails : Call -> bool) (umask : N) (torn : bytes -> bytes) (left_ : place -> bool).

Lemma lstat_child h t n : searchable_to (nodes_of h) t ->
  lstat fails h (t ++ [n]) = if fails (Lstat (t ++ [n])) then Err EACCES else ok_or (h !! (t ++ [n])) ENOENT.
Proof using.
  intros Ht. unfold lstat. destruct (fails _); [done|]. rewrite (at_child NoFollow h t n Ht).
  destruct (h !! (t ++ [n])) as [i|] eqn:E; [|done].
  assert (Hl : match i with ILink target => Ok (t ++ [n]) | _ => @Ok place Errno (t ++ [n]) end = Ok (t ++ [n])) by by destruct i.
  transitivity (let? l := (@Ok place Errno (t ++ [n])) in match l with [] => Ok (IDir DIR_MODE) | _ => ok_or (h !! l) ENOENT end).
  { f_equal. by destruct i. }
  cbn [rbind]. rewrite E. by destruct (t ++ [n]) eqn:E'; [destruct t|].
Qed.

Lemma new_place_child h t n : searchable_to (nodes_of h) t ->
  new_place h (t ++ [n]) = match h !! (t ++ [n]) with None => Some (t ++ [n]) | Some _ => None end.
Proof using.
  intros Ht. unfold new_place. rewrite removelast_snoc, last_snoc, (at_dir Follow h t Ht).
  rewrite (proj2 (search_ok _ _ tt)) by (apply (Ht t []); by rewrite app_nil_r). done.
Qed.

(** *** [ensure_dir] *)

Definition dir_like (o : option inode) : Prop := match o with Some (IDir _) | Some (ILink _) => True | _ => False end.

Lemma ensure_dir_cases h t n r h' : ensure_dir fails umask t n h = (r, h') -> searchable_to (nodes_of h) t ->
  h' = h /\ (forall b, r = Ok b -> b = false /\ dir_like (h !! (t ++ [n]))) \/
  h !! (t ++ [n]) = None /\ exists m, h' = <[t ++ [n] := IDir m]> h /\ (forall b, r = Ok b -> b = true /\ m = DIR_MODE).
Proof using.
  intros Hr Ht. unfold ensure_dir, reading, se_bind in Hr. rewrite (lstat_child h t n Ht) in Hr.
  destruct (fails (Lstat _)); [injection Hr as <- <-; by left|].
  destruct (h !! (t ++ [n])) as [i|] eqn:E; cbn [ok_or] in Hr.
  { left. destruct i; unfold se_ret in Hr; injection Hr as <- <-; (split; [done|]); intros b Hb; try done; by injection Hb as <-. }
  unfold create_dir, add_new in Hr. destruct (fails (Mkdir _)); [injection Hr as <- <-; by left|].
  rewrite (new_place_child h t n Ht), E in Hr. right. split; [done|].
  unfold set_permissions in Hr. destruct (fails (Chmod _)); [injection Hr as <- <-; by eexists|].
  rewrite (at_child Follow _ t n) in Hr by by apply searchable_insert. rewrite lookup_insert_eq in Hr.
  rewrite lookup_insert_eq in Hr. unfold se_ret in Hr. injection Hr as <- <-. exists DIR_MODE. split; [by rewrite insert_insert_eq|].
  by intros b [= <-].
Qed.

Lemma ensure_dir_searchable h t n r h' : ensure_dir fails umask t n h = (r, h') -> searchable_to (nodes_of h) t ->
  searchable_to (nodes_of h') t.
Proof using.
  intros Hr Ht. destruct (ensure_dir_cases _ _ _ _ _ Hr Ht) as [[-> _]|(_ & m & -> & _)]; [done|by apply searchable_insert].
Qed.

(** *** The directories *)

(** What a made directory may be at. *)
Definition made_in (t : place) (rels : list bytes) (h : Host) (q : place) : Prop :=
  exists rel, rel ∈ rels /\ q = t ++ [rel] /\ h !! q = None.

Lemma snoc_inj {A} (t : list A) x y : t ++ [x] = t ++ [y] -> x = y.
Proof using. intros H. by apply app_inv_head in H as [= ->]. Qed.

Lemma ensure_dirs_cases rels h t r h' : ensure_dirs fails umask t rels h = (r, h') -> searchable_to (nodes_of h) t ->
  searchable_to (nodes_of h') t /\
  (forall q, ~ made_in t rels h q -> h' !! q = h !! q) /\
  (forall l, r = Ok l -> forall rel, rel ∈ rels -> dir_like (h' !! (t ++ [rel])) /\
     (h !! (t ++ [rel]) = None -> h' !! (t ++ [rel]) = Some (IDir DIR_MODE) /\ B "/" ++ rel ∈ l)).
Proof using.
  revert h r h'. induction rels as [|n rels IH]; intros h r h'; cbn [ensure_dirs].
  { intros [= <- <-] Ht. split_and!; try done. by intros l _ rel ?%elem_of_nil. }
  unfold se_bind at 1. destruct (ensure_dir fails umask t n h) as [[made|e] h1] eqn:E1; intros Hr Ht;
    pose proof (ensure_dir_searchable _ _ _ _ _ E1 Ht) as Ht1; pose proof (ensure_dir_cases _ _ _ _ _ E1 Ht) as Hc1.
  2: { injection Hr as <- <-. split_and!; [done| |done]. intros q Hq. destruct Hc1 as [[-> _]|(Hn & m & -> & _)]; [done|].
       apply lookup_insert_ne. intros <-. apply Hq. exists n. split; [by left|done]. }
  unfold se_bind in Hr. destruct (ensure_dirs fails umask t rels h1) as [r2 h2] eqn:E2.
  destruct (IH _ _ _ E2 Ht1) as (Ht2 & Hf2 & Hok2).
  assert (Hr' : h' = h2 /\ forall l, r = Ok l -> exists l2, r2 = Ok l2 /\ l = if made then (B "/" ++ n) :: l2 else l2).
  { destruct r2 as [l2|e2]; injection Hr as <- <-; (split; [done|]); intros l Hl; [|done]. injection Hl as <-. by exists l2. }
  destruct Hr' as [-> Hl]. clear Hr.
  assert (Hkeep : forall q, h !! q <> None -> h1 !! q = h !! q).
  { intros q Hq. destruct Hc1 as [[-> _]|(Hn & m & -> & _)]; [done|]. apply lookup_insert_ne. by intros <-. }
  split; [done|]. split.
  - intros q Hq. rewrite Hf2.
    + destruct Hc1 as [[-> _]|(Hn & m & -> & _)]; [done|]. apply lookup_insert_ne. intros <-. apply Hq. exists n. split; [by left|done].
    + intros (rel & Hin & -> & Hn). apply Hq. exists rel. split; [by right|]. split; [done|].
      destruct (h !! (t ++ [rel])) as [i|] eqn:E; [|done]. rewrite Hkeep, E in Hn; [done|by rewrite E].
  - intros l Hrl. destruct (Hl l Hrl) as (l2 & -> & ->). specialize (Hok2 l2 eq_refl).
    assert (Hn2 : forall x i, h1 !! (t ++ [x]) = Some i -> h2 !! (t ++ [x]) = Some i).
    { intros x i Hx. rewrite Hf2, Hx; [done|]. intros (rel & _ & E & Hn). congruence. }
    intros rel [->|Hin]%elem_of_cons.
    + destruct Hc1 as [[-> Hb]|(Hn & m & -> & Hb)]; destruct (Hb made eq_refl) as [-> Hd].
      * destruct (h !! (t ++ [n])) as [i|] eqn:Ei; [|done]. rewrite (Hn2 _ _ Ei). done.
      * rewrite (Hn2 n (IDir m)) by apply lookup_insert_eq. subst m. split; [done|]. split; [done|by left].
    + destruct (Hok2 rel Hin) as [Hd Hmk]. split; [done|]. intros Hnone.
      destruct (h1 !! (t ++ [rel])) as [i|] eqn:E1'.
      * destruct Hc1 as [[-> _]|(Hn & m & -> & Hb)]; [congruence|]. destruct (Hb made eq_refl) as [-> ->].
        destruct (decide (rel = n)) as [->|Hne]; [rewrite (Hn2 n (IDir DIR_MODE)) by apply lookup_insert_eq; split; [done|by left]|].
        rewrite lookup_insert_ne in E1' by (intros E; by apply snoc_inj in E). congruence.
      * destruct (Hmk eq_refl) as [H1 H2]. split; [done|]. destruct made; [by right|done].
Qed.

(** *** The agent *)

Definition not_link (o : option inode) : Prop := match o with Some (ILink _) => False | _ => True end.

Lemma agent_place_snoc t : agent_place t = (t ++ [AGENT_DIR]) ++ [B "init"].
Proof using. unfold agent_place. by rewrite <- app_assoc. Qed.

Lemma copy_cases content mode h t n r h' : copy fails umask torn content mode (t ++ [n]) h = (r, h') ->
  searchable_to (nodes_of h) t -> not_link (h !! (t ++ [n])) ->
  h' = h /\ (exists e, r = Err e) \/ exists m c, h' = put_file (t ++ [n]) m c h /\ (r = Ok tt -> c = content).
Proof using.
  intros Hr Ht Hl. unfold copy in Hr. destruct (fails (OpenCopy _)); [injection Hr as <- <-; left; by split; [|eexists]|].
  rewrite (at_child Create h t n Ht) in Hr.
  assert (Hne : beq_place (t ++ [n]) [] = false) by (apply bool_decide_eq_false; apply child_ne).
  destruct (h !! (t ++ [n])) as [[m|i m c|target|]|] eqn:E; cbn [not_link] in Hl; [| |done| |]; rewrite E in Hr;
    try (injection Hr as <- <-; left; by split; [|eexists]);
    rewrite Hne in Hr; (destruct (fails (ChmodCopy _)); [|destruct (fails (WriteCopy _))]); injection Hr as <- <-; right; eexists _, _; (split; [done|]); intros ?; congruence.
Qed.

(** A path through a directory that may not be searched. *)
Lemma copy_unsearchable content mode h t d n m : searchable_to (nodes_of h) t -> h !! (t ++ [d]) = Some (IDir m) -> N.testbit m 6 = false ->
  exists e, copy fails umask torn content mode ((t ++ [d]) ++ [n]) h = (Err e, h).
Proof using.
  intros Ht Hd Hm. unfold copy. destruct (fails _); [by eexists|].
  assert (E : at_path Create h ((t ++ [d]) ++ [n]) = Err EACCES).
  { unfold at_path. rewrite canon_child, walk_root, map_app, <- app_assoc, walk_searchable by done. cbn [map app].
    rewrite walk_normal, (proj2 (search_ok _ _ tt)) by (apply (Ht t []); by rewrite app_nil_r). cbn [rbind].
    rewrite nodes_lookup, Hd. cbn [fmap option_map option_fmap shape]. rewrite walk_normal. unfold search.
    rewrite node_at_snoc, nodes_lookup, Hd. cbn [fmap option_map option_fmap shape]. by rewrite Hm. }
  rewrite E. by eexists.
Qed.

Lemma chmod_file_cases mode h t n r h' i m c : set_permissions fails (t ++ [n]) mode h = (r, h') ->
  searchable_to (nodes_of h) t -> h !! (t ++ [n]) = Some (IFile i m c) ->
  h' = h /\ (exists e, r = Err e) \/ h' = put_file (t ++ [n]) mode c h.
Proof using.
  intros Hr Ht Hc. unfold set_permissions in Hr. destruct (fails _); [injection Hr as <- <-; left; by split; [|eexists]|].
  rewrite (at_child Follow h t n Ht), Hc, Hc in Hr. injection Hr as <- <-. by right.
Qed.

(** The agent's bytes and mode, in a directory that can be searched. *)
Lemma place_agent agent mode h t n r h' :
  (do! _ := copy fails umask torn agent mode (t ++ [n]) in set_permissions fails (t ++ [n]) DIR_MODE) h = (r, h') ->
  searchable_to (nodes_of h) t -> not_link (h !! (t ++ [n])) ->
  searchable_to (nodes_of h') t /\
  (forall q, q <> t ++ [n] -> ~ shares h (t ++ [n]) q -> h' !! q = h !! q) /\
  (r = Ok tt -> exists i, h' !! (t ++ [n]) = Some (IFile i DIR_MODE agent)).
Proof using.
  intros Hr Ht Hl. apply se_bind_cases in Hr as [(e & E & ->)|(u & h1 & E & Hr)]; apply copy_cases in E as [[-> (e' & E)]|(m & c & -> & Hc)]; try done.
  { split; [by apply searchable_put|]. split; [|done]. intros q. apply put_file_other. }
  destruct u. rewrite (Hc eq_refl) in *. destruct (put_file_at (t ++ [n]) m agent h) as [i Hi].
  apply (chmod_file_cases _ _ _ _ _ _ i m agent) in Hr; [|by apply searchable_put|done].
  destruct Hr as [[-> (e & ->)]|Hr]; (split; [subst; by repeat apply searchable_put|split]); [|done| |].
  - intros q. apply put_file_other.
  - intros q Hq Hs. rewrite Hr, put_file_other; [by apply put_file_other|done|]. intros [?|?]%put_file_shares; done.
  - intros _. rewrite Hr. apply put_file_at.
Qed.

Lemma install_agent_cases agent mode h t r h' : install_agent fails umask torn t agent mode h = (r, h') ->
  searchable_to (nodes_of h) t -> not_link (h !! (t ++ [AGENT_DIR])) -> not_link (h !! agent_place t) ->
  searchable_to (nodes_of h') t /\
  (forall q, q <> t ++ [AGENT_DIR] -> q <> agent_place t -> ~ shares h (agent_place t) q -> h' !! q = h !! q) /\
  (r = Ok tt -> (exists i, h' !! agent_place t = Some (IFile i DIR_MODE agent)) /\ searchable_to (nodes_of h') (t ++ [AGENT_DIR])).
Proof using.
  intros Hr Ht Hd Ha. unfold install_agent in Hr. rewrite agent_place_snoc in *.
  assert (Hne : (t ++ [AGENT_DIR]) ++ [B "init"] <> t ++ [AGENT_DIR]).
  { intros E. apply (f_equal length) in E. rewrite !length_app in E. cbn in E. lia. }
  apply se_bind_cases in Hr as [(e & E1 & ->)|(b & h1 & E1 & Hr)];
    pose proof (ensure_dir_searchable _ _ _ _ _ E1 Ht) as Ht1; pose proof (ensure_dir_cases _ _ _ _ _ E1 Ht) as Hc1.
  { split; [done|]. split; [|done]. intros q Hq _ _. destruct Hc1 as [[-> _]|(_ & m & -> & _)]; [done|by rewrite lookup_insert_ne]. }
  assert (Hdir : exists m, h1 !! (t ++ [AGENT_DIR]) = Some (IDir m)).
  { destruct Hc1 as [[-> Hb]|(_ & m & -> & _)]; [|exists m; apply lookup_insert_eq]. destruct (Hb b eq_refl) as [_ Hl].
    destruct (h !! _) as [[m| | |]|]; try done. by exists m. }
  assert (Hf1 : forall q, q <> t ++ [AGENT_DIR] -> h1 !! q = h !! q).
  { intros q Hq. destruct Hc1 as [[-> _]|(_ & m & -> & _)]; [done|by rewrite lookup_insert_ne]. }
  assert (Hsh : forall q, q <> t ++ [AGENT_DIR] -> shares h1 ((t ++ [AGENT_DIR]) ++ [B "init"]) q -> shares h ((t ++ [AGENT_DIR]) ++ [B "init"]) q).
  { unfold shares. intros q Hq. by rewrite !Hf1 by done. }
  clear Hc1 E1. destruct Hdir as [m Hm]. destruct (N.testbit m 6) eqn:Em.
  2: { apply se_bind_cases in Hr. destruct (copy_unsearchable agent mode h1 t AGENT_DIR (B "init") m Ht1 Hm Em) as [e He]. rewrite He in Hr.
       destruct Hr as [(e' & [= -> ->] & ->)|(u & h2 & [=] & _)]. split; [done|]. split; [intros q Hq _ _; by apply Hf1|done]. }
  assert (Hs1 : searchable_to (nodes_of h1) (t ++ [AGENT_DIR])).
  { apply searchable_to_snoc; [done|]. rewrite node_at_snoc, nodes_lookup, Hm. cbn. by rewrite Em. }
  apply place_agent in Hr as (Hs' & Hf2 & Hok); [|done|by rewrite Hf1]. split_and!.
  - intros p1 p2 E. apply (Hs' p1 (p2 ++ [AGENT_DIR])). by rewrite E, app_assoc.
  - intros q Hq1 Hq2 Hq3. rewrite Hf2; [by apply Hf1|done|]. intros Hq. by apply Hq3, Hsh.
  - intros Hr. by split; [apply Hok|].
Qed.

(** *** [/init] *)

Lemma under_spec p q : under p q = true <-> p `prefix_of` q.
Proof using. apply bool_decide_eq_true. Qed.

Lemma remove_any_cases h t n r h' : remove_any fails left_ (t ++ [n]) h = (r, h') -> searchable_to (nodes_of h) t ->
  (forall q, ~ t ++ [n] `prefix_of` q -> h' !! q = h !! q) /\ (r = Ok tt -> h' !! (t ++ [n]) = None).
Proof using.
  intros Hr Ht. unfold remove_any in Hr. rewrite (lstat_child h t n Ht) in Hr.
  destruct (fails (Lstat _)); [by injection Hr as <- <-|]. rewrite (at_child NoFollow h t n Ht) in Hr.
  assert (Hdel : forall q, ~ t ++ [n] `prefix_of` q -> (delete (t ++ [n]) h : Host) !! q = h !! q).
  { intros q Hq. apply lookup_delete_ne. by intros <-. }
  destruct (h !! (t ++ [n])) as [[m|m c|target|]|] eqn:E; cbn [ok_or] in Hr; [| | | |by injection Hr as <- <-].
  2-4: destruct (fails (RemoveFile _)); injection Hr as <- <-; [done|]; split; [done|intros _; apply lookup_delete_eq].
  destruct (fails (RemoveAll _)); injection Hr as <- <-.
  - split; [|done]. intros q Hq. rewrite map_lookup_filter. destruct (h !! q) as [i|]; [|done]. cbn.
    rewrite option_guard_True; [done|]. cbn. by rewrite under_spec.
  - split.
    + intros q Hq. rewrite map_lookup_filter. destruct (h !! q) as [i|]; [|done]. cbn. rewrite option_guard_True; [done|]. cbn.
      apply not_true_iff_false. by rewrite under_spec.
    + intros _. rewrite map_lookup_filter, E. cbn. rewrite option_guard_False; [done|]. cbn. 
      apply not_false_iff_true. by apply under_spec.
Qed.

Lemma replace_init_cases h t r h' : replace_init fails left_ t h = (r, h') -> searchable_to (nodes_of h) t ->
  (forall q, ~ t ++ [B "init"] `prefix_of` q -> h' !! q = h !! q) /\
  (forall b, r = Ok b -> h' !! (t ++ [B "init"]) = Some (ILink AGENT_PATH)).
Proof using.
  intros Hr Ht. unfold replace_init, reading in Hr. unfold se_bind in Hr at 1.
  set (init := t ++ [B "init"]) in *.
  assert (Hrem : exists r1 h1, (if is_ok (lstat fails h init) then remove_any fails left_ init else se_ret (Ok tt)) h = (r1, h1) /\
    (forall q, ~ init `prefix_of` q -> h1 !! q = h !! q)).
  { destruct (is_ok _); [|by exists (Ok tt), h]. destruct (remove_any fails left_ init h) as [r1 h1] eqn:E.
    exists r1, h1. split; [done|]. by apply remove_any_cases in E as [? _]. }
  destruct Hrem as (r1 & h1 & E1 & Hf1). unfold se_bind in Hr. rewrite E1 in Hr.
  destruct r1 as [u|e]; [|by injection Hr as <- <-].
  assert (Ht1 : searchable_to (nodes_of h1) t).
  { apply (searchable_same h); [|done]. intros q Hq. apply Hf1. intros Hq'. exact (below_not_prefix t q _ Hq Hq'). }
  unfold symlink, add_new in Hr. destruct (fails (Symlink init)); [by injection Hr as <- <-|].
  subst init. rewrite (new_place_child h1 t (B "init") Ht1) in Hr.
  destruct (h1 !! (t ++ [B "init"])) as [i|]; [by injection Hr as <- <-|].
  unfold se_ret in Hr. injection Hr as <- <-. split.
  - intros q Hq. rewrite lookup_insert_ne; [by apply Hf1|]. intros <-. by apply Hq.
  - intros b _. apply lookup_insert_eq.
Qed.

(** What an adaptation may change. *)
Definition adaptable (t : place) (h : Host) (q : place) : Prop :=
  made_in t (PSEUDO_DIRS ++ OVERLAY_DIRS ++ [B "tmp"]) h q \/
  q = t ++ [AGENT_DIR] \/ q = agent_place t \/ t ++ [B "init"] `prefix_of` q.

Lemma tree_below t n q : q = t ++ [n] \/ q = agent_place t \/ t ++ [n] `prefix_of` q -> ~ q `prefix_of` t.
Proof using.
  intros [->|[->|H]] Hq; [by apply (below_not_prefix t (t ++ [n]) n)| |by apply (below_not_prefix t q n)].
  apply (below_not_prefix t _ AGENT_DIR Hq). by exists [B "init"]; rewrite agent_place_snoc.
Qed.

(** The directories: all of them, and [/tmp]. *)
Definition all_dirs (t : place) : SE Host AdaptError (list bytes * bool) :=
  do! dirs := ensure_dirs fails umask t (PSEUDO_DIRS ++ OVERLAY_DIRS) in
  do! tmp := ensure_dir fails umask t (B "tmp") in
  se_ret (Ok (dirs, tmp)).

Lemma all_dirs_cases t h r h' : all_dirs t h = (r, h') -> searchable_to (nodes_of h) t ->
  searchable_to (nodes_of h') t /\
  (forall q, ~ made_in t (PSEUDO_DIRS ++ OVERLAY_DIRS ++ [B "tmp"]) h q -> h' !! q = h !! q) /\
  (forall dt, r = Ok dt -> forall rel, rel ∈ PSEUDO_DIRS ++ OVERLAY_DIRS ++ [B "tmp"] -> dir_like (h' !! (t ++ [rel])) /\
     (h !! (t ++ [rel]) = None -> h' !! (t ++ [rel]) = Some (IDir DIR_MODE) /\
        B "/" ++ rel ∈ fst dt ++ (if snd dt then [B "/tmp"] else []))).
Proof using.
  intros Hr Ht. unfold all_dirs in Hr. rewrite app_assoc.
  assert (Htmp : B "tmp" ∉ PSEUDO_DIRS ++ OVERLAY_DIRS) by (apply (bool_decide_unpack _); by vm_compute).
  apply se_bind_cases in Hr as [(e & E1 & ->)|(dirs & h1 & E1 & Hr)].
  { apply ensure_dirs_cases in E1 as (? & Hf & _); [|done]. split_and!; try done. intros q Hq. apply Hf.
    intros (rel & ? & ? & ?). apply Hq. exists rel. split; [|done]. apply elem_of_app. by left. }
  apply ensure_dirs_cases in E1 as (Ht1 & Hf1 & Hok1); [|done]. specialize (Hok1 dirs eq_refl).
  assert (Hsame : h1 !! (t ++ [B "tmp"]) = h !! (t ++ [B "tmp"])).
  { apply Hf1. intros (rel & Hin & E & _). apply snoc_inj in E as <-. done. }
  assert (Hend : exists r2, ensure_dir fails umask t (B "tmp") h1 = (r2, h') /\ forall dt, r = Ok dt -> exists b, r2 = Ok b /\ dt = (dirs, b)).
  { apply se_bind_cases in Hr as [(e & E2 & ->)|(b & h2 & E2 & Hr)]; [by exists (Err e)|].
    unfold se_ret in Hr. injection Hr as <- <-. exists (Ok b). split; [done|]. intros dt [= <-]. by exists b. }
  destruct Hend as (r2 & E2 & Hend). pose proof (ensure_dir_searchable _ _ _ _ _ E2 Ht1) as Ht2.
  apply ensure_dir_cases in E2; [|done].
  assert (Hf2 : forall q, q <> t ++ [B "tmp"] \/ h !! q <> None -> h' !! q = h1 !! q).
  { intros q Hq. destruct E2 as [[-> _]|(Hn & m & -> & _)]; [done|]. apply lookup_insert_ne. intros <-.
    rewrite Hsame in Hn. by destruct Hq as [?|?]. }
  split; [done|]. split.
  - intros q Hq. rewrite Hf2.
    + apply Hf1. intros (rel & ? & ? & ?). apply Hq. exists rel. split; [|done]. apply elem_of_app. by left.
    + destruct (decide (q = t ++ [B "tmp"])) as [->|]; [right|by left]. intros Hn. apply Hq. exists (B "tmp"). split; [|done].
      apply elem_of_app. right. by left.
  - intros dt Hdt rel. destruct (Hend dt Hdt) as (b & -> & ->). cbn [fst snd].
    intros [Hin|Hin%list_elem_of_singleton]%elem_of_app.
    + destruct (Hok1 rel Hin) as [Hd Hm]. rewrite Hf2.
      * split; [done|]. intros Hn. destruct (Hm Hn) as [? ?]. split; [done|]. apply elem_of_app. by left.
      * left. intros E. apply snoc_inj in E as ->. done.
    + subst rel. destruct E2 as [[-> Hb]|(Hn & m & -> & Hb)]; destruct (Hb b eq_refl) as [-> Hd].
      * rewrite Hsame in *. split; [done|]. intros Hn. by rewrite Hn in Hd.
      * rewrite lookup_insert_eq. subst m. split; [done|]. intros _. split; [done|]. apply elem_of_app. right. by left.
Qed.

Lemma adapt_unfold t agent mode h : is_Some (resolve_in_tree fails h t (B "bin/sh")) ->
  adapt fails umask torn left_ t agent mode h =
  (do! dt := all_dirs t in
   do! _ := install_agent fails umask torn t agent mode in
   do! replaced := replace_init fails left_ t in
   se_ret (Ok (MkReport (fst dt ++ (if snd dt then [B "/tmp"] else [])) replaced (snd dt) 0))) h.
Proof using.
  intros [p Hp]. unfold adapt, all_dirs, reading, se_bind. rewrite Hp.
  destruct (ensure_dirs _ _ _ _ h) as [[dirs|e] h1]; [|done]. destruct (ensure_dir _ _ _ _ h1) as [[b|e] h2]; done.
Qed.

Lemma adapt_cases t agent mode h r h' : adapt fails umask torn left_ t agent mode h = (r, h') ->
  searchable_to (nodes_of h) t -> not_link (h !! (t ++ [AGENT_DIR])) -> not_link (h !! agent_place t) ->
  (forall q, ~ adaptable t h q -> ~ shares h (agent_place t) q -> h' !! q = h !! q) /\
  (forall rep, r = Ok rep -> is_Some (resolve_in_tree fails h t (B "bin/sh")) /\
     (forall rel, rel ∈ PSEUDO_DIRS ++ OVERLAY_DIRS ++ [B "tmp"] -> dir_like (h' !! (t ++ [rel])) /\
        (h !! (t ++ [rel]) = None -> h' !! (t ++ [rel]) = Some (IDir DIR_MODE) /\ B "/" ++ rel ∈ dirs_created rep)) /\
     (exists i, h' !! agent_place t = Some (IFile i DIR_MODE agent)) /\ searchable_to (nodes_of h') (t ++ [AGENT_DIR]) /\
     h' !! (t ++ [B "init"]) = Some (ILink AGENT_PATH)).
Proof using.
  intros Hr Ht Hd Ha. destruct (resolve_in_tree fails h t (B "bin/sh")) as [sh|] eqn:Esh.
  2: { unfold adapt, reading, se_bind in Hr. rewrite Esh in Hr. by injection Hr as <- <-. }
  rewrite adapt_unfold in Hr by by rewrite Esh. clear Esh.
  assert (Hnames : forall rel, rel ∈ PSEUDO_DIRS ++ OVERLAY_DIRS ++ [B "tmp"] -> rel <> AGENT_DIR /\ rel <> B "init")
    by (intros rel Hin; apply (bool_decide_unpack _); revert rel Hin; apply Forall_forall; repeat constructor).
  apply se_bind_cases in Hr as [(e & E1 & ->)|(dt & h1 & E1 & Hr)]; apply all_dirs_cases in E1 as (Ht1 & Hf1 & Hok1); try done.
  { split; [|done]. intros q Hq _. apply Hf1. intros Hm. apply Hq. by left. }
  specialize (Hok1 dt eq_refl).
  assert (Hd1 : h1 !! (t ++ [AGENT_DIR]) = h !! (t ++ [AGENT_DIR])).
  { apply Hf1. intros (rel & Hin & E & _). apply snoc_inj in E as <-. by apply Hnames in Hin as [? _]. }
  assert (Ha1 : h1 !! agent_place t = h !! agent_place t).
  { apply Hf1. intros (rel & Hin & E & _). unfold agent_place in E. by apply app_inv_head in E. }
  assert (Hq1 : forall q, ~ adaptable t h q -> h1 !! q = h !! q).
  { intros q Hq. apply Hf1. intros Hm. apply Hq. by left. }
  assert (Hsh : forall q, ~ adaptable t h q -> shares h1 (agent_place t) q -> shares h (agent_place t) q).
  { unfold shares. intros q Hq. by rewrite Ha1, Hq1. }
  apply se_bind_cases in Hr as [(e & E2 & ->)|(u & h2 & E2 & Hr)];
    apply install_agent_cases in E2 as (Ht2 & Hf2 & Hok2); [|done|by rewrite Hd1|by rewrite Ha1| |done|by rewrite Hd1|by rewrite Ha1].
  { split; [|done]. intros q Hq Hs. rewrite Hf2; [by apply Hq1| | |by intros ?%Hsh]; intros ->; apply Hq; unfold adaptable; auto. }
  destruct u. destruct (Hok2 eq_refl) as [Hagent Hs2].
  assert (Hend : exists r3, replace_init fails left_ t h2 = (r3, h') /\
    forall rep, r = Ok rep -> (exists b, r3 = Ok b) /\ dirs_created rep = fst dt ++ (if snd dt then [B "/tmp"] else [])).
  { apply se_bind_cases in Hr as [(e & E3 & ->)|(b & h3 & E3 & Hr)]; [by exists (Err e)|].
    unfold se_ret in Hr. injection Hr as <- <-. exists (Ok b). split; [done|]. intros rep [= <-]. split; [by exists b|done]. }
  destruct Hend as (r3 & E3 & Hend). apply replace_init_cases in E3 as [Hf3 Hok3]; [|done].
  assert (Hi : forall q n, n <> B "init" -> t ++ [n] `prefix_of` q -> ~ t ++ [B "init"] `prefix_of` q).
  { intros q n Hn [a ->] [b E]. rewrite <- !app_assoc in E. apply app_inv_head in E. injection E as E _. congruence. }
  split.
  - intros q Hq Hs. rewrite Hf3, Hf2; [by apply Hq1| | |by intros ?%Hsh|]; intros E; apply Hq; unfold adaptable; auto.
  - intros rep Hrep. destruct (Hend rep Hrep) as [[b ->] Hdc]. split; [by eexists|]. split; [|split_and!].
    + intros rel Hin. destruct (Hnames rel Hin) as [Hn1 Hn2]. rewrite Hf3, Hf2, Hdc.
      * by apply Hok1.
      * intros E. by apply snoc_inj in E.
      * unfold agent_place. intros E. by apply app_inv_head in E.
      * intros (i & m & c & m' & c' & _ & E). pose proof (proj1 (Hok1 rel Hin)) as Hdl. by rewrite E in Hdl.
      * by apply (Hi _ rel).
    + rewrite Hf3; [done|]. apply (Hi _ AGENT_DIR); [done|]. exists [B "init"]. apply agent_place_snoc.
    + apply (searchable_same h2); [|done]. intros q Hq. apply Hf3. intros Hq'.
      destruct Hq as [x Ex], Hq' as [y ->]. rewrite <- !app_assoc in Ex. apply app_inv_head in Ex. done.
    + by eapply Hok3.
Qed.
End facts.

(** ** The shell check against the guest's kernel *)

(** What the guest's kernel sees, as root: there every directory may be searched. *)
Definition guest_shape (i : inode) : node := match i with IDir _ => Dir true | _ => shape i end.

(** The image as the guest has it: the tree is its root. *)
Definition guest_nodes (h : Host) (tree : place) (ns : gmap (list bytes) node) : Prop :=
  forall l, l <> [] -> ns !! l = guest_shape <$> (h !! (tree ++ l)).

(** Every directory of the tree can be searched by its owner, who is the operator. *)
Definition owner_searchable (h : Host) (tree : place) : Prop :=
  forall (l : place) (m : N), h !! (tree ++ l) = Some (IDir m) -> N.testbit m 6 = true.

Section resolve.
Context (fails : Call -> bool) (h : Host) (tree : place).
Hypothesis tree_ok : searchable_to (nodes_of h) tree.

(** Then the guest's kernel and the operator see the same. *)
Definition same_nodes (ns : gmap (list bytes) node) : Prop :=
  forall l, l <> [] -> ns !! l = nodes_of h !! (tree ++ l).

Lemma guest_same ns : guest_nodes h tree ns -> owner_searchable h tree -> same_nodes ns.
Proof using.
  intros Hg Ho l Hl. rewrite (Hg l Hl), nodes_lookup. destruct (h !! (tree ++ l)) as [[m| | |]|] eqn:E; try done.
  cbn. by rewrite (Ho l m E).
Qed.

(** The components of the names to come, as the kernel has them. *)
Definition parts (pending : list bytes) : path := map part_of (List.filter not_blank pending).
Definition cur_free (p : path) : path := List.filter not_cur p.

Lemma resolve_names_cons links resolved c r : resolve_names fails h tree links resolved (c :: r) =
  if beq c [] || beq c (B ".") then resolve_names fails h tree links resolved r
  else if beq c (B "..") then resolve_names fails h tree links (removelast resolved) r
  else match lstat fails h (tree ++ resolved ++ [c]) with
       | Err _ => None
       | Ok (ILink target) =>
           match links with
           | O => None
           | S links =>
               if fails (ReadLink (tree ++ resolved ++ [c])) || negb (is_utf8 target) then None
               else resolve_names fails h tree links (if starts_with (B "/") target then [] else resolved) (split "/" target ++ r)
           end
       | Ok _ => resolve_names fails h tree links (resolved ++ [c]) r
       end.
Proof using. by destruct links. Qed.

Lemma resolve_names_nil links resolved : resolve_names fails h tree links resolved [] = Some resolved.
Proof using. by destruct links. Qed.

(** The next name that is not skipped. *)
Lemma next_part links resolved pending :
  match cur_free (parts pending) with
  | [] => resolve_names fails h tree links resolved pending = Some resolved
  | x :: l => exists c r, part_of c = x /\ c <> [] /\ cur_free (parts r) = l /\
      resolve_names fails h tree links resolved pending = resolve_names fails h tree links resolved (c :: r)
  end.
Proof using.
  induction pending as [|c pending IH]; [apply resolve_names_nil|]. unfold parts, cur_free in *. cbn [List.filter].
  destruct (not_blank c) eqn:Eb; cbn [map List.filter].
  - destruct (beq c (B ".")) eqn:Ec.
    + apply beq_true in Ec as ->. cbn [not_cur part_of]. destruct (List.filter not_cur (map part_of (List.filter not_blank pending))) as [|x l].
      * rewrite resolve_names_cons. exact IH.
      * destruct IH as (c' & r & H1 & H2 & H3 & H4). exists c', r. by rewrite resolve_names_cons.
    + assert (not_cur (part_of c) = true) as ->.
      { unfold part_of. rewrite Ec. by destruct (beq c (B "..")). }
      exists c, pending. split_and!; try done. by intros ->.
  - unfold not_blank in Eb. apply negb_false_iff, beq_true in Eb as ->.
    destruct (List.filter not_cur (map part_of (List.filter not_blank pending))) as [|x l].
    + rewrite resolve_names_cons. exact IH.
    + destruct IH as (c' & r & H1 & H2 & H3 & H4). exists c', r. by rewrite resolve_names_cons.
Qed.

Lemma part_of_Normal c n : part_of c = Normal n -> c = n /\ beq c (B ".") = false /\ beq c (B "..") = false.
Proof using. unfold part_of. destruct (beq c (B ".")); [done|]. destruct (beq c (B "..")); [done|]. by intros [= ->]. Qed.

Lemma part_of_Parent c : part_of c = ParentDir -> beq c (B ".") = false /\ beq c (B "..") = true.
Proof using. unfold part_of. destruct (beq c (B ".")); [done|]. by destruct (beq c (B "..")). Qed.

Lemma cur_free_app a b : cur_free (a ++ b) = cur_free a ++ cur_free b.
Proof using. apply List.filter_app. Qed.

Lemma cur_free_target t r : t <> [] -> cur_free (kernel_components t ++ r) =
  (if starts_with (B "/") t then [RootDir] else []) ++ cur_free (parts (split "/" t)) ++ cur_free r.
Proof using.
  intros _. unfold cur_free, kernel_components, parts. rewrite !List.filter_app, <- !app_assoc. f_equal.
  - by destruct (starts_with _ _).
  - f_equal. by destruct (ends_with _ _).
Qed.

Lemma parts_app a b : parts (a ++ b) = parts a ++ parts b.
Proof using. unfold parts. by rewrite List.filter_app, map_app. Qed.

Lemma parts_rootless pending l : cur_free (parts pending) = RootDir :: l -> False.
Proof using.
  intros E. assert (Hin : In RootDir (cur_free (parts pending))) by (rewrite E; by left).
  unfold cur_free, parts in Hin. apply filter_In in Hin as [Hin _]. apply in_map_iff in Hin as (c & Hc & _).
  unfold part_of in Hc. repeat case_match; done.
Qed.

(** A walk and a resolution at the same point: a root that is still to come has been taken already. *)
Definition agree (at_ : list bytes) (todo : path) (resolved pending : list bytes) : Prop :=
  match todo with
  | RootDir :: r => resolved = [] /\ cur_free r = cur_free (parts pending)
  | _ => resolved = at_ /\ cur_free todo = cur_free (parts pending)
  end.

(** Where a walk can stand: below directories that it searched. *)
Definition standing (ns : gmap (list bytes) node) (at_ : list bytes) : Prop :=
  is_Some (node_at ns at_) /\ forall p1 p2, at_ = p1 ++ p2 -> p2 <> [] -> node_at ns p1 = Some (Dir true).

Lemma agree_rootless at_ todo resolved pending : cur_free todo = cur_free (parts pending) -> resolved = at_ ->
  agree at_ todo resolved pending.
Proof using.
  intros H ->. unfold agree. destruct todo as [|[] todo]; try done. exfalso. cbn in H. symmetry in H. by apply parts_rootless in H.
Qed.

Lemma standing_search ns at_ : standing ns at_ -> node_at ns at_ = Some (Dir true) -> searchable_to ns at_.
Proof using.
  intros [_ Hs] Hd p1 p2 E. destruct p2 as [|x p2]; [rewrite app_nil_r in E; by subst|]. by eapply Hs.
Qed.

Lemma standing_root ns : standing ns [].
Proof using. split; [by eexists|]. intros p1 p2 E Hne. symmetry in E. apply app_eq_nil in E as [_ ?]. done. Qed.

Lemma standing_child ns at_ n x : standing ns at_ -> node_at ns at_ = Some (Dir true) -> ns !! (at_ ++ [n]) = Some x ->
  standing ns (at_ ++ [n]).
Proof using.
  intros Hs Hd Hx. split; [rewrite node_at_snoc; by eexists|]. intros p1 p2 E Hne.
  destruct p2 as [|y p2 _] using rev_ind; [done|]. rewrite app_assoc in E. apply app_inj_tail in E as [-> ->].
  by apply (standing_search ns (p1 ++ p2) Hs Hd p1 p2).
Qed.

Lemma standing_parent ns at_ : standing ns at_ -> standing ns (removelast at_).
Proof using.
  destruct at_ as [|x at_ _] using rev_ind; [done|]. rewrite removelast_snoc. intros [_ Hs].
  assert (Hd : node_at ns at_ = Some (Dir true)) by by apply (Hs at_ [x]).
  split; [by eexists|]. intros p1 p2 E Hne. apply (Hs p1 (p2 ++ [x])); [by rewrite E, app_assoc|by destruct p2].
Qed.

Lemma guest_searchable ns at_ : same_nodes ns -> searchable_to ns at_ -> searchable_to (nodes_of h) (tree ++ at_).
Proof using tree_ok.
  intros Hg Hs p1 p2 E. apply app_eq_app in E as [l [[-> ->]|[-> ->]]].
  - by apply (tree_ok p1 l).
  - destruct l as [|x l]; [rewrite app_nil_r; apply (tree_ok tree []); by rewrite app_nil_r|].
    specialize (Hs (x :: l) p2 eq_refl). cbn [node_at] in Hs. rewrite Hg in Hs by done.
    destruct (tree ++ x :: l) eqn:E; [by destruct tree|]. done.
Qed.

Hypothesis calls_work : forall c, fails c = false.
Hypothesis utf8_links : forall l t, h !! (tree ++ l) = Some (ILink t) -> is_utf8 t = true.

(** What the guest's kernel finds, the check finds, at the same place. *)
Lemma walk_found ns k at_ todo : same_nodes ns -> forall q resolved pending,
  standing ns at_ -> walk Follow ns k at_ todo = Ok q -> agree at_ todo resolved pending ->
  standing ns q /\ resolve_names fails h tree k resolved pending = Some q.
Proof using tree_ok calls_work utf8_links.
  intros Hg. induction k, at_, todo as [k at_|k at_ r IH|k at_ r IH|k at_ r IH|k at_ n r IH1 IH2]
    using (walk_ind Follow ns) ; intros q resolved pending Hs Hw Ha.
  - rewrite walk_nil in Hw. injection Hw as <-. destruct Ha as [-> Ha]. split; [done|].
    pose proof (next_part k at_ pending) as Hn. rewrite <- Ha in Hn. exact Hn.
  - rewrite walk_root in Hw. destruct Ha as [-> Ha]. apply IH; [apply standing_root|done|]. by apply agree_rootless.
  - rewrite walk_cur in Hw. apply rbind_Ok in Hw as (u & _ & Hw). destruct Ha as [-> Ha]. apply IH; [done|done|]. by apply agree_rootless.
  - rewrite walk_parent in Hw. apply rbind_Ok in Hw as (u & _ & Hw). destruct Ha as [-> Ha]. cbn in Ha.
    pose proof (next_part k at_ pending) as Hn. rewrite <- Ha in Hn. destruct Hn as (c & r' & Hc & Hne & Hr & ->).
    apply part_of_Parent in Hc as [E1 E2]. rewrite resolve_names_cons, E1, E2.
    destruct (beq c []) eqn:E0; [by apply beq_true in E0|]. cbn [orb].
    apply IH; [by apply standing_parent|done|]. by apply agree_rootless.
  - rewrite walk_normal in Hw. apply rbind_Ok in Hw as (u & Hu%search_ok & Hw). destruct Ha as [-> Ha]. cbn in Ha.
    pose proof (next_part k at_ pending) as Hn. rewrite <- Ha in Hn. destruct Hn as (c & r' & Hc & Hne & Hr & ->).
    apply part_of_Normal in Hc as (-> & E1 & E2). rewrite resolve_names_cons, E1, E2.
    destruct (beq n []) eqn:E0; [by apply beq_true in E0|]. cbn [orb].
    pose proof (guest_searchable ns at_ Hg (standing_search _ _ Hs Hu)) as Hsg.
    rewrite app_assoc, (lstat_child fails h _ n Hsg), calls_work. rewrite Hg in Hw by apply child_ne.
    rewrite app_assoc, nodes_lookup in Hw.
    destruct (h !! ((tree ++ at_) ++ [n])) as [i|] eqn:Ei; cbn [fmap option_map option_fmap ok_or] in *; [|done].
    assert (Hx : ns !! (at_ ++ [n]) = Some (shape i)) by (rewrite Hg, app_assoc, nodes_lookup, Ei; [done|apply child_ne]).
    destruct i as [m|m c|t|]; cbn [shape] in *;
      try (apply IH1; [by eapply standing_child|done|by apply agree_rootless]).
    destruct k as [|k]; [done|]. destruct t as [|c0 t]; [done|]. rewrite calls_work.
    rewrite (utf8_links (at_ ++ [n]) (c0 :: t)) by by rewrite app_assoc. cbn [orb negb].
    apply (IH2 k (c0 :: t) eq_refl Hx); [done|done|].
    pose proof (cur_free_target (c0 :: t) r ltac:(done)) as Hc. destruct (starts_with (B "/") (c0 :: t)) eqn:Es.
    + unfold kernel_components in *. rewrite Es in *. cbn [app agree]. split; [done|].
      rewrite <- app_assoc, cur_free_app in Hc. apply (app_inv_head [RootDir]) in Hc.
      rewrite Hc, parts_app, cur_free_app. by rewrite Hr.
    + apply agree_rootless; [|done]. rewrite Hc. cbn [app]. rewrite parts_app. unfold cur_free in *. by rewrite List.filter_app, Hr.
Qed.

Lemma searchable_init (p : list bytes) n : searchable_to (nodes_of h) (p ++ [n]) -> searchable_to (nodes_of h) p.
Proof using. intros H p1 p2 E. apply (H p1 (p2 ++ [n])). by rewrite E, app_assoc. Qed.

Lemma lstat_there l : (forall p1 p2, l = p1 ++ p2 -> p2 <> [] -> searchable_to (nodes_of h) (tree ++ p1)) ->
  is_Some (node_at (nodes_of h) (tree ++ l)) -> is_ok (lstat fails h (tree ++ l)) = true.
Proof using tree_ok calls_work.
  clear utf8_links. intros Hs [x Hx]. destruct l as [|n l _] using rev_ind.
  - rewrite app_nil_r in *. unfold lstat. rewrite calls_work, (at_dir NoFollow h tree tree_ok). cbn [rbind].
    destruct tree as [|y t']; [done|]. cbn [node_at] in Hx. rewrite nodes_lookup in Hx. destruct (h !! (y :: t')); done.
  - specialize (Hs l [n] eq_refl ltac:(done)). rewrite app_assoc, (lstat_child fails h _ n Hs), calls_work.
    rewrite app_assoc, node_at_snoc, nodes_lookup in Hx. by destruct (h !! ((tree ++ l) ++ [n])).
Qed.

(** A path that the guest's kernel resolves: the check finds it at the same place. *)
Lemma shell_found ns rel q : same_nodes ns -> rel <> [] -> starts_with (B "/") rel = false ->
  walk Follow ns MAXSYMLINKS [] (kernel_components rel) = Ok q -> resolve_in_tree fails h tree rel = Some (tree ++ q).
Proof using tree_ok calls_work utf8_links.
  intros Hg Hne Hrel Hw.
  assert (Ha : agree [] (kernel_components rel) [] (split "/" rel)).
  { apply agree_rootless; [|done]. pose proof (cur_free_target rel [] Hne) as E. rewrite Hrel in E.
    rewrite app_nil_r in E. rewrite E. cbn [app cur_free List.filter]. by rewrite app_nil_r. }
  destruct (walk_found ns MAXSYMLINKS [] _ Hg q [] _ (standing_root ns) Hw Ha) as [[Hq Hp] Hr].
  unfold resolve_in_tree. change MAX_HOPS with MAXSYMLINKS. rewrite Hr, lstat_there; [done| |].
  - intros p1 p2 -> Hp2. apply (guest_searchable ns); [done|]. intros a b ->.
    apply (Hp a (b ++ p2)); [by rewrite app_assoc|]. by destruct b.
  - destruct q as [|y q]; [rewrite app_nil_r; exists (Dir true); apply (tree_ok tree []); by rewrite app_nil_r|].
    cbn [node_at] in Hq. rewrite Hg in Hq by done. by destruct (tree ++ y :: q) eqn:E; [destruct tree|].
Qed.
End resolve.

(** What the check finds is in the tree: no link leads to it, each name is looked up in its directory. *)
Section inside.
Context (fails : Call -> bool) (h : Host) (tree : place).
Hypothesis tree_ok : searchable_to (nodes_of h) tree.

Definition in_tree (l : list bytes) : Prop :=
  (exists x, node_at (nodes_of h) (tree ++ l) = Some x /\ is_link (Some x) = false) /\
  forall p1 p2, l = p1 ++ p2 -> p2 <> [] -> node_at (nodes_of h) (tree ++ p1) = Some (Dir true).

Lemma in_tree_root : in_tree [].
Proof using tree_ok.
  split; [exists (Dir true); split; [rewrite app_nil_r; apply (tree_ok tree []); by rewrite app_nil_r|done]|].
  intros p1 p2 E Hp. symmetry in E. by apply app_eq_nil in E as [_ ?].
Qed.

Lemma in_tree_pop l : in_tree l -> in_tree (removelast l).
Proof using.
  destruct l as [|n l _] using rev_ind; [done|]. rewrite removelast_snoc. intros (_ & Hp). split.
  - exists (Dir true). split; [by apply (Hp l [n])|done].
  - intros p1 p2 -> Hne. apply (Hp p1 (p2 ++ [n])); [by rewrite app_assoc|by destruct p2].
Qed.

Lemma in_tree_searchable l : in_tree l -> node_at (nodes_of h) (tree ++ l) = Some (Dir true) -> searchable_to (nodes_of h) (tree ++ l).
Proof using tree_ok.
  intros [_ Hp] Hd p1 p2 E. apply app_eq_app in E as [a [[-> ->]|[-> ->]]]; [by apply (tree_ok p1 a)|].
  destruct p2 as [|x p2]; [by rewrite app_nil_r in Hd|]. by apply (Hp a (x :: p2)).
Qed.

(** A directory on the way that may not be searched, or is none. *)
Lemma lstat_in_tree l n i : in_tree l -> lstat fails h (tree ++ l ++ [n]) = Ok i ->
  node_at (nodes_of h) (tree ++ l) = Some (Dir true) /\ h !! (tree ++ l ++ [n]) = Some i.
Proof using tree_ok.
  intros Hl Hi. assert (Hd : node_at (nodes_of h) (tree ++ l) = Some (Dir true)).
  { unfold lstat in Hi. destruct (fails _); [done|]. apply rbind_Ok in Hi as (p & Hp & _). unfold at_path, canon in Hp.
    rewrite app_assoc in Hp. destruct l as [|m l _] using rev_ind.
    { rewrite app_nil_r. apply (tree_ok tree []). by rewrite app_nil_r. }
    pose proof (in_tree_pop _ Hl) as Hl'. rewrite removelast_snoc in Hl'.
    assert (Hs : searchable_to (nodes_of h) (tree ++ l)).
    { apply in_tree_searchable; [done|]. by apply (proj2 Hl l [m]). }
    destruct Hl as [(x & Hx & Hx') _]. rewrite walk_root in Hp. rewrite (app_assoc tree l) in Hp.
    rewrite <- (app_assoc (tree ++ l)), (map_app Normal (tree ++ l)), walk_searchable in Hp by done. cbn [app map] in Hp.
    rewrite walk_normal, (proj2 (search_ok _ _ tt)) in Hp by (apply (Hs _ []); by rewrite app_nil_r). cbn [rbind] in Hp.
    rewrite (app_assoc tree l) in Hx. rewrite node_at_snoc in Hx. rewrite Hx in Hp. rewrite app_assoc, node_at_snoc, Hx.
    destruct x as [s|k| |]; [|exfalso|done|exfalso]; rewrite walk_normal in Hp; apply rbind_Ok in Hp as (u & Hp%search_ok & _);
      rewrite node_at_snoc, Hx in Hp; done. }
  split; [done|]. pose proof (in_tree_searchable l Hl Hd) as Hs. rewrite app_assoc in Hi |- *.
  rewrite (lstat_child fails h _ n Hs) in Hi. destruct (fails _); [done|].
  destruct (h !! ((tree ++ l) ++ [n])); cbn in Hi; congruence.
Qed.

Lemma in_tree_child l n i : in_tree l -> node_at (nodes_of h) (tree ++ l) = Some (Dir true) ->
  h !! (tree ++ l ++ [n]) = Some i -> not_link (Some i) -> in_tree (l ++ [n]).
Proof using.
  intros [_ Hp] Hd Hi Hl. split.
  - exists (shape i). split; [rewrite app_assoc in *; by rewrite node_at_snoc, nodes_lookup, Hi|by destruct i].
  - intros p1 p2 E Hne. destruct p2 as [|y p2 _] using rev_ind; [done|]. rewrite app_assoc in E.
    apply app_inj_tail in E as [-> ->]. destruct p2 as [|y2 p2]; [by rewrite app_nil_r in Hd|]. by apply (Hp p1 (y2 :: p2)).
Qed.

Lemma resolved_in_tree links resolved pending l : in_tree resolved ->
  resolve_names fails h tree links resolved pending = Some l -> in_tree l.
Proof using tree_ok.
  revert resolved pending. induction links as [|links IHl]; intros resolved pending; revert resolved;
    induction pending as [|c pending IH]; intros resolved Hr; try (rewrite resolve_names_nil; by intros [= <-]);
    rewrite resolve_names_cons; destruct (_ || _); try (by apply IH); destruct (beq c (B "..")); try (by apply IH, in_tree_pop);
    destruct (lstat fails h (tree ++ resolved ++ [c])) as [i|] eqn:Ei; try done; apply (lstat_in_tree _ _ _ Hr) in Ei as [Hd Hi];
    destruct i as [m|m b|t|]; try done.
  all: try (by apply IH; eapply in_tree_child).
  destruct (_ || _); [done|]. apply IHl. destruct (starts_with _ t); [apply in_tree_root|done].
Qed.
End inside.

Lemma shell_found_inside fails h tree rel p : searchable_to (nodes_of h) tree ->
  resolve_in_tree fails h tree rel = Some p -> exists l, p = tree ++ l /\ in_tree h tree l.
Proof.
  intros Ht Hp. unfold resolve_in_tree in Hp. destruct (resolve_names fails h tree MAX_HOPS [] (split "/" rel)) as [l|] eqn:El; [|done].
  destruct (is_ok _); [|done]. injection Hp as <-. exists l. split; [done|].
  eapply resolved_in_tree; [done|by apply in_tree_root|done].
Qed.

(** C25: the check for a shell answers for the guest and not for the host: what it finds is inside the
    tree, each name looked up in its directory, no link among them.  And in a tree whose directories the
    operator may all search and whose links are all UTF-8, a shell that the guest's kernel finds, as root and
    through up to forty links, absolute or relative, with dots, the check finds at the same place when its
    calls work.  In other trees it can refuse a shell that the guest has ([locked_shell],
    [shell_behind_latin1]). *)
Theorem shell_check_faithful (fails : Call -> bool) (h : Host) (tree : place) (ns : gmap (list bytes) node) :
  searchable_to (nodes_of h) tree -> guest_nodes h tree ns ->
  (forall p : place, resolve_in_tree fails h tree (B "bin/sh") = Some p -> exists l : place, p = tree ++ l /\ in_tree h tree l) /\
  ((forall c : Call, fails c = false) -> owner_searchable h tree ->
   (forall (l : place) (t : bytes), h !! (tree ++ l) = Some (ILink t) -> is_utf8 t = true) ->
   forall q : place, walk Follow ns MAXSYMLINKS [] (kernel_components (B "/bin/sh")) = Ok q ->
     resolve_in_tree fails h tree (B "bin/sh") = Some (tree ++ q)).
Proof.
  intros Ht Hg. split; [intros p; by apply shell_found_inside|].
  intros Hc Ho Hu q Hq. eapply (shell_found fails h tree Ht Hc Hu ns); [by apply guest_same|done|done|done].
Qed.

(** *** What an adaptation does *)

Lemma under_tree t h q : adaptable t h q -> t `prefix_of` q /\ q <> t.
Proof.
  intros [(rel & _ & -> & _)|[->|[->|[a ->]]]].
  - split; [by eexists|]. intros E. apply (f_equal length) in E. rewrite length_app in E. cbn in E. lia.
  - split; [by eexists|]. intros E. apply (f_equal length) in E. rewrite length_app in E. cbn in E. lia.
  - split; [by eexists|]. intros E. apply (f_equal length) in E. unfold agent_place in E. rewrite length_app in E. cbn in E. lia.
  - rewrite <- app_assoc. split; [by eexists|]. intros E. apply (f_equal length) in E. rewrite !length_app in E. cbn in E. lia.
Qed.

Lemma adaptable_dec t h q : Decision (adaptable t h q).
Proof.
  unfold adaptable. apply or_dec; [|apply _].
  destruct (decide (Exists (fun rel => q = t ++ [rel] /\ h !! q = None) (PSEUDO_DIRS ++ OVERLAY_DIRS ++ [B "tmp"]))) as [H|H];
    [left|right]; rewrite Exists_exists in H; destruct_and?; naive_solver.
Qed.

(** The kernel's [init=/init] in an adapted image. *)
Lemma init_found h t ns : guest_nodes h t ns -> h !! (t ++ [B "init"]) = Some (ILink AGENT_PATH) ->
  searchable_to (nodes_of h) (t ++ [AGENT_DIR]) -> (exists i m c, h !! agent_place t = Some (IFile i m c)) ->
  walk Follow ns MAXSYMLINKS [] (kernel_components (B "/init")) = Ok [AGENT_DIR; B "init"].
Proof.
  intros Hg Hi Hs (i & m & c & Ha).
  assert (Hd : ns !! [AGENT_DIR] = Some (Dir true)).
  { specialize (Hs (t ++ [AGENT_DIR]) []). rewrite app_nil_r, node_at_snoc, nodes_lookup in Hs. specialize (Hs eq_refl).
    rewrite Hg by done. destruct (h !! (t ++ [AGENT_DIR])) as [[]|]; done. }
  change (kernel_components (B "/init")) with [RootDir; Normal (B "init")].
  rewrite walk_root, walk_normal. cbn [search node_at rbind app]. rewrite Hg, Hi by done.
  cbn [fmap option_map option_fmap guest_shape shape]. change (kernel_components AGENT_PATH) with [Normal AGENT_DIR; Normal (B "init")].
  unfold MAXSYMLINKS. cbn [AGENT_PATH]. change (B ".isopod/init") with AGENT_PATH.
  assert (Hw : walk Follow ns 39 [] [Normal AGENT_DIR; Normal (B "init")] = Ok [AGENT_DIR; B "init"]).
  { rewrite walk_normal. cbn [search node_at rbind app]. rewrite Hd, walk_normal.
    unfold search. cbn [node_at]. rewrite Hd. cbn [rbind app]. rewrite Hg by done. change (t ++ [AGENT_DIR; B "init"]) with (agent_place t).
    rewrite Ha. cbn [fmap option_map option_fmap guest_shape shape]. apply walk_nil. }
  exact Hw.
Qed.

#[local] Instance shares_dec h p q : Decision (shares h p q).
Proof.
  destruct (h !! p) as [[|i m c| |]|] eqn:Ep; try (right; intros (? & ? & ? & ? & ? & E & _); congruence).
  destruct (h !! q) as [[|j m' c'| |]|] eqn:Eq; try (right; intros (? & ? & ? & ? & ? & _ & E); congruence).
  destruct (decide (i = j)) as [->|Hne]; [left; by exists j, m, c, m', c'|right].
  intros (? & ? & ? & ? & ? & E1 & E2). congruence.
Qed.

(** C16: an image that ships no link at [/.isopod] or [/.isopod/init]: whatever call fails, the only places that
    change are in the tree, directories that were missing, the agent and [/init], or are other names of the
    file that the image shipped as [/.isopod/init]; so nothing outside the tree changes if that file's names
    are all in the tree, and no other file at all if it has but one.  After a success the kernel's [/init] is
    the agent, byte for byte and executable, every mount point is a directory or the image's own link, and
    one that was missing is a 0755 directory whatever the umask. *)
Theorem adapt_confined (fails : Call -> bool) (umask : N) (torn : bytes -> bytes) (left_ : place -> bool)
    (tree : place) (agent : bytes) (mode : N) (h h' : Host) (r : result AdaptReport AdaptError) :
  searchable_to (nodes_of h) tree -> not_link (h !! (tree ++ [AGENT_DIR])) -> not_link (h !! agent_place tree) ->
  adapt fails umask torn left_ tree agent mode h = (r, h') ->
  (forall q : place, h' !! q = h !! q \/ (tree `prefix_of` q /\ q <> tree /\ adaptable tree h q) \/ shares h (agent_place tree) q) /\
  (forall rep : AdaptReport, r = Ok rep ->
     (forall ns : gmap (list bytes) node, guest_nodes h' tree ns ->
        walk Follow ns MAXSYMLINKS [] (kernel_components (B "/init")) = Ok [AGENT_DIR; B "init"]) /\
     (exists i : positive, h' !! agent_place tree = Some (IFile i 493 agent)) /\
     (forall rel : bytes, rel ∈ PSEUDO_DIRS ++ OVERLAY_DIRS ++ [B "tmp"] -> dir_like (h' !! (tree ++ [rel])) /\
        (h !! (tree ++ [rel]) = None -> h' !! (tree ++ [rel]) = Some (IDir 493) /\ B "/" ++ rel ∈ dirs_created rep))).
Proof.
  intros Ht Hd Ha Hr. destruct (adapt_cases _ _ _ _ _ _ _ _ _ _ Hr Ht Hd Ha) as [Hf Hok]. split.
  - intros q. destruct (decide (h' !! q = h !! q)) as [|Hne]; [by left|right].
    destruct (decide (shares h (agent_place tree) q)) as [|Hs]; [by right|left].
    assert (Hq : adaptable tree h q) by (destruct (adaptable_dec tree h q) as [?|Hn]; [done|]; by destruct (Hne (Hf q Hn Hs))).
    by destruct (under_tree _ _ _ Hq) as [? ?].
  - intros rep Hrep. destruct (Hok rep Hrep) as (_ & Hdirs & [i Hagent] & Hs & Hi). split_and!; [|by exists i|done].
    intros ns Hg. apply (init_found h' tree ns Hg Hi Hs). by eexists _, _, _.
Qed.

(** *** The pseudo-file *)

Definition escape1 (c : ascii) : bytes :=
  if Ascii.eqb c backslash then [backslash; backslash] else if Ascii.eqb c quote then [backslash; quote] else [c].

Lemma escape_spec p : escape p = flat_map escape1 p.
Proof.
  induction p as [|c p IH]; [done|]. unfold escape, replace in *. cbn [flat_map]. rewrite flat_map_app, IH. f_equal.
  unfold escape1. destruct (Ascii.eqb c backslash) eqn:E; [done|]. cbn [flat_map]. by rewrite app_nil_r.
Qed.

Lemma read_backslash d s : read_quoted (backslash :: d :: s) = prod_map (cons d) id <$> read_quoted s.
Proof. done. Qed.

Lemma read_plain c s : c <> quote -> c <> backslash -> read_quoted (c :: s) = prod_map (cons c) id <$> read_quoted s.
Proof. intros Hq Hb. cbn [read_quoted]. by rewrite (proj2 (Ascii.eqb_neq c quote) Hq), (proj2 (Ascii.eqb_neq c backslash) Hb). Qed.

Lemma read_escaped p rest : read_quoted (escape p ++ quote :: rest) = Some (p, rest).
Proof.
  rewrite escape_spec. induction p as [|c p IH]; [done|]. cbn [flat_map]. rewrite <- app_assoc. unfold escape1 at 1.
  destruct (Ascii.eqb_spec c backslash) as [->|Hb]; [|destruct (Ascii.eqb_spec c quote) as [->|Hq]]; cbn [app];
    rewrite ?read_backslash, ?read_plain, IH by done; done.
Qed.

Lemma show_octal_go_app fuel n acc : show_octal_go fuel n acc = show_octal_go fuel n [] ++ acc.
Proof.
  revert n acc. induction fuel as [|f IH]; intros n acc; [done|]. cbn [show_octal_go].
  destruct (n <? 8)%N; [done|]. rewrite IH, (IH _ [_]), <- app_assoc. done.
Qed.

Lemma show_octal_go_spec fuel n : (n < 2 ^ N.of_nat fuel)%N -> fuel <> 0%nat ->
  octal_of (show_octal_go fuel n []) = n /\ forallb is_ascii_digit (show_octal_go fuel n []) = true.
Proof.
  revert n. induction fuel as [|f IH]; intros n Hn Hf; [done|]. cbn [show_octal_go].
  pose proof (N.mod_lt n 8 ltac:(done)) as Hm. pose proof (N.div_mod n 8 ltac:(done)) as Hdm.
  assert (Hd : is_ascii_digit (digit (n mod 8)) = true) by (apply is_digit_digit; lia).
  destruct (N.ltb_spec n 8) as [Hlt|Hge].
  - unfold octal_of. cbn [fold_left forallb]. rewrite Hd, digit_value_digit by lia. split; [|done]. rewrite N.mod_small by done. lia.
  - rewrite show_octal_go_app. assert (n / 8 < 2 ^ N.of_nat f)%N as Hq.
    { apply N.Div0.div_lt_upper_bound. rewrite Nat2N.inj_succ, N.pow_succ_r' in Hn. lia. }
    destruct (IH _ Hq) as [Hv Hh].
    { intros ->. change (2 ^ N.of_nat 0)%N with 1%N in Hq. lia. }
    split; [|by rewrite forallb_app, Hh; cbn [forallb]; rewrite Hd].
    unfold octal_of in *. rewrite fold_left_app, Hv. cbn [fold_left]. rewrite digit_value_digit by lia. lia.
Qed.

Lemma show_octal_spec n : octal_of (show_octal n) = n /\ forallb is_ascii_digit (show_octal n) = true.
Proof.
  apply show_octal_go_spec; [|done]. pose proof (size_nat_bound n). rewrite Nat2N.inj_succ, N.pow_succ_r'. lia.
Qed.

Definition pseudo_text (path : bytes) (mode : N) : bytes :=
  quote :: escape path ++ quote :: B " m " ++ show_octal mode ++ B " 0 0".

Lemma octal_no c ds : forallb is_ascii_digit ds = true -> is_ascii_digit c = false -> c ∉ ds.
Proof. intros H Hc Hin. rewrite forallb_forall in H. apply list_elem_of_In, H in Hin. congruence. Qed.

Lemma read_pseudo_text path mode : read_pseudo_line (pseudo_text path mode) = Some (path, mode).
Proof.
  unfold pseudo_text. cbn [read_pseudo_line]. rewrite Ascii.eqb_refl, read_escaped.
  destruct (show_octal_spec mode) as [Hv Hd].
  change (strip_prefix (B " m ") (B " m " ++ show_octal mode ++ B " 0 0")) with (Some (show_octal mode ++ B " 0 0")). cbn iota beta.
  change (B " 0 0") with (ascii_of_N 32 :: B "0 0"). rewrite split_once_app by by apply octal_no. by rewrite Hd, Hv.
Qed.

Lemma pseudo_line_split path mode rest : line_feed ∉ path ->
  split line_feed (pseudo_line path mode ++ rest) = pseudo_text path mode :: split line_feed rest.
Proof.
  intros Hp. assert (pseudo_line path mode ++ rest = pseudo_text path mode ++ line_feed :: rest) as ->.
  { unfold pseudo_line, pseudo_text. by repeat (rewrite <- app_assoc || rewrite <- app_comm_cons). }
  rewrite split_app_sep, split_none; [done|]. unfold pseudo_text. rewrite escape_spec, elem_of_cons, !elem_of_app, elem_of_cons, !elem_of_app.
  intros [H|[H|[H|[H|[H|H]]]]]; try (by vm_compute in H).
  - apply list_elem_of_In, in_flat_map in H as (c & Hc & H). apply list_elem_of_In in Hc. unfold escape1 in H.
    destruct (Ascii.eqb c backslash); [by destruct H as [H|[H|[]]]; vm_compute in H|].
    destruct (Ascii.eqb c quote); [by destruct H as [H|[H|[]]]; vm_compute in H|]. destruct H as [->|[]]. done.
  - revert H. by apply (bool_decide_unpack (line_feed ∉ B " m ")); vm_compute.
  - revert H. apply octal_no; [apply show_octal_spec|done].
  - revert H. by apply (bool_decide_unpack (line_feed ∉ B " 0 0")); vm_compute.
Qed.

(** Every line of the pseudo-file says what was recorded and nothing else: a name with no line feed,
    whatever quotes, backslashes, blanks or [#] it holds, is read back as it is, with its mode, and the
    lines are as many as the modes. *)
Theorem pseudo_file_faithful (modes : list (bytes * N)) : Forall (fun pm => line_feed ∉ pm.1) modes ->
  exists lines : list bytes, split line_feed (pseudo_file modes) = lines ++ [[]] /\ map read_pseudo_line lines = map Some modes.
Proof.
  induction 1 as [|[path mode] modes Hp _ (lines & Hl & Hr)]; [by exists []|].
  exists (pseudo_text path mode :: lines). unfold pseudo_file. cbn [map concat fst snd]. rewrite pseudo_line_split by done.
  unfold pseudo_file in Hl. rewrite Hl. split; [done|]. cbn [map]. by rewrite read_pseudo_text, Hr.
Qed.

(** ** At concrete inputs *)

Definition never (_ : Call) : bool := false.
Definition tree0 : place := [B "w"; B "rootfs"].
Definition agent0 : bytes := B "the agent".

Definition image0 : list (list bytes * inode) :=
  [([B "w"], IDir 493); (tree0, IDir 493);
   (tree0 ++ [B "bin"], ILink (B "usr/bin")); (tree0 ++ [B "usr"], IDir 493); (tree0 ++ [B "usr"; B "bin"], IDir 493);
   (tree0 ++ [B "usr"; B "bin"; B "sh"], ILink (B "/bin/busybox")); (tree0 ++ [B "usr"; B "bin"; B "busybox"], IFile 1 493 (B "busybox"));
   (tree0 ++ [B "etc"], IDir 493); (tree0 ++ [B "init"], IDir 493); (tree0 ++ [B "init"; B "x"], IFile 2 420 []);
   ([B "home"], IDir 493); ([B "home"; B "op"], IDir 448); ([B "home"; B "op"; B ".bashrc"], IFile 3 420 (B "export A=1"))].
Definition host0 : Host := list_to_map image0.

Definition adapt0 (h : Host) := adapt never 63 (fun b => b) (fun _ => true) tree0 agent0 493 h.

(** The guest's root, as an import leaves it: what is below the tree. *)
Definition guest_of (tree : place) (h : Host) : gmap (list bytes) node :=
  set_to_map (fun q => (drop (length tree) q, default Special (guest_shape <$> (h !! q)))) (filter (fun q => tree `prefix_of` q) (dom h)).

Lemma guest_of_spec tree h : guest_nodes h tree (guest_of tree h).
Proof.
  intros l _. apply option_eq. intros x. unfold guest_of. rewrite lookup_set_to_map.
  - split.
    + intros (q & Hq & E). apply elem_of_filter in Hq as [[m ->] Hq]. injection E as E <-. rewrite drop_app_length in E. subst m.
      apply elem_of_dom in Hq as [i Hi]. by rewrite Hi.
    + intros Hx. exists (tree ++ l). rewrite drop_app_length, Hx. split; [|done]. apply elem_of_filter. split; [by exists l|].
      apply elem_of_dom. by destruct (h !! (tree ++ l)).
  - intros q q' [[m ->] _]%elem_of_filter [[m' ->] _]%elem_of_filter E. cbn [fst] in E. rewrite !drop_app_length in E. by subst.
Qed.

Lemma host0_tree : searchable_to (nodes_of host0) tree0.
Proof.
  apply (searchable_to_snoc _ [B "w"]); [apply (searchable_to_snoc _ []); [apply searchable_nil|]|]; by vm_compute.
Qed.

(** The image's own [/init], a directory here, goes; what was missing is made. *)
Example adapted :
  (adapt0 host0).1 = Ok (MkReport [B "/proc"; B "/sys"; B "/dev"; B "/var"; B "/overlay"; B "/mnt"; B "/layers"; B "/tmp"] true true 0) /\
  walk Follow (guest_of tree0 (adapt0 host0).2) MAXSYMLINKS [] (kernel_components (B "/bin/sh")) = Ok [B "usr"; B "bin"; B "busybox"].
Proof. by vm_compute. Qed.

(** No shell, though the host has one at the place that the link spells. *)
Example distroless :
  let h := <[[B "bin"; B "sh"] := IFile 9 493 []]> (<[[B "bin"] := IDir 493]> (<[tree0 ++ [B "usr"; B "bin"; B "sh"] := ILink (B "/../bin/dash")]> host0)) in
  (adapt0 h).1 = Err NoShell.
Proof. by vm_compute. Qed.

(** A shipped directory [/.isopod] with a link [init], or a link [/.isopod]: the agent is written where
    the link leads, outside the tree, and the adaptation reports success. *)
Example agent_through_link :
  let h := <[agent_place tree0 := ILink (B "/home/op/.bashrc")]> (<[tree0 ++ [AGENT_DIR] := IDir 493]> host0) in
  let '(r, h') := adapt0 h in
  is_ok r = true /\ h' !! [B "home"; B "op"; B ".bashrc"] = Some (IFile 3 493 agent0).
Proof. by vm_compute. Qed.

Example agent_dir_through_link :
  let h := <[tree0 ++ [AGENT_DIR] := ILink (B "/home/op")]> host0 in
  let '(r, h') := adapt0 h in
  is_ok r = true /\ h !! [B "home"; B "op"; B "init"] = None /\ shape <$> h' !! [B "home"; B "op"; B "init"] = Some (File 1).
Proof. by vm_compute. Qed.

(** A shipped hard link, which is no link to [lstat]: the file under its other name becomes the agent. *)
Example agent_hard_linked :
  let h := <[agent_place tree0 := IFile 1 493 (B "busybox")]> (<[tree0 ++ [AGENT_DIR] := IDir 493]> host0) in
  let '(r, h') := adapt0 h in
  is_ok r = true /\ h' !! (tree0 ++ [B "usr"; B "bin"; B "busybox"]) = Some (IFile 1 493 agent0).
Proof. by vm_compute. Qed.

(** A shell that the guest has and the check refuses: in a directory that its owner may not search, and
    behind a link that is not UTF-8. *)
Example locked_shell :
  let h := <[tree0 ++ [B "usr"; B "bin"] := IDir 0]> host0 in
  walk Follow (guest_of tree0 h) MAXSYMLINKS [] (kernel_components (B "/bin/sh")) = Ok [B "usr"; B "bin"; B "busybox"] /\
  (adapt0 h).1 = Err NoShell.
Proof. by vm_compute. Qed.

Example shell_behind_latin1 :
  let caf := B "caf" ++ [ascii_of_N 233] in
  let h := <[tree0 ++ [B "usr"; B "bin"; B "sh"] := ILink caf]> (<[tree0 ++ [B "usr"; B "bin"; caf] := IFile 4 493 []]> host0) in
  walk Follow (guest_of tree0 h) MAXSYMLINKS [] (kernel_components (B "/bin/sh")) = Ok [B "usr"; B "bin"; caf] /\
  (adapt0 h).1 = Err NoShell.
Proof. by vm_compute. Qed.

(** A link to nothing stands for a mount point. *)
Example dangling_mount_point :
  let h := <[tree0 ++ [B "layers"] := ILink (B "/nowhere")]> host0 in
  is_ok (adapt0 h).1 = true /\ (adapt0 h).2 !! (tree0 ++ [B "layers"]) = Some (ILink (B "/nowhere")).
Proof. by vm_compute. Qed.

Example hostile_name : pseudo_line (B "evil c 0666 0 0 1 3") 2541 = quote :: B "evil c 0666 0 0 1 3" ++ quote :: B " m 4755 0 0" ++ [line_feed].
Proof. by vm_compute. Qed.

Example counted :
  count_special_modes (B "drwxr-xr-x root/root 27 2024-01-01 00:00 squashfs-root" ++ [line_feed] ++
    B "-rwsr-xr-x root/root 27 2024-01-01 00:00 squashfs-root/bin/su" ++ [line_feed] ++
    B "drwxrwxrwt root/root 27 2024-01-01 00:00 squashfs-root/tmp" ++ [line_feed]) = 2%nat.
Proof. by vm_compute. Qed.

Lemma shell_check_faithful_witness :
  resolve_in_tree never host0 tree0 (B "bin/sh") = Some (tree0 ++ [B "usr"; B "bin"; B "busybox"]).
Proof.
  refine (proj2 (shell_check_faithful never host0 tree0 (guest_of tree0 host0) host0_tree (guest_of_spec tree0 host0)) _ _ _ _ _).
  - done.
  - intros l m Hm. apply elem_of_list_to_map_2 in Hm.
    assert (Hall : Forall (fun kv => match snd kv with IDir m => N.testbit m 6 = true | _ => True end) image0) by by repeat constructor.
    rewrite Forall_forall in Hall. exact (Hall _ Hm).
  - intros l t Ht. apply elem_of_list_to_map_2 in Ht.
    assert (Hall : Forall (fun kv => match snd kv with ILink t => is_utf8 t = true | _ => True end) image0) by by repeat constructor.
    rewrite Forall_forall in Hall. exact (Hall _ Ht).
  - by vm_compute.
Defined.

Lemma adapt_confined_witness :
  (exists i, (adapt0 host0).2 !! agent_place tree0 = Some (IFile i 493 agent0)) /\
  (adapt0 host0).2 !! [B "home"; B "op"; B ".bashrc"] = Some (IFile 3 420 (B "export A=1")) /\
  walk Follow (guest_of tree0 (adapt0 host0).2) MAXSYMLINKS [] (kernel_components (B "/init")) = Ok [AGENT_DIR; B "init"].
Proof.
  destruct (adapt0 host0) as [r h'] eqn:E.
  assert (Hr : is_ok (adapt0 host0).1 = true) by by vm_compute. rewrite E in Hr. cbn [fst] in Hr. destruct r as [rep|e]; [|done].
  destruct (adapt_confined _ _ _ _ _ _ _ _ _ _ host0_tree ltac:(by vm_compute) ltac:(by vm_compute) E) as [Hf Hok].
  destruct (Hok rep eq_refl) as (Hi & Ha & _). cbn [snd]. split; [exact Ha|]. split.
  - destruct (Hf [B "home"; B "op"; B ".bashrc"]) as [->|[[[a Hp] _]|(i & m & c & m' & c' & Hp & _)]]; [by vm_compute|done|].
    exfalso. assert (Hn : host0 !! agent_place tree0 = None) by by vm_compute. rewrite Hn in Hp. done.
  - apply Hi. apply guest_of_spec.
Defined.

Lemma pseudo_file_faithful_witness : exists lines : list bytes,
  split line_feed (pseudo_file [(B "bin/su", 2541%N); (B "a b\", 1023%N)]) = lines ++ [[]] /\
  map read_pseudo_line lines = [Some (B "bin/su", 2541%N); Some (B "a b\", 1023%N)].
Proof.
  apply (pseudo_file_faithful [(B "bin/su", 2541%N); (B "a b\", 1023%N)]).
  repeat constructor; apply (bool_decide_unpack _); by vm_compute.
Defined.
