(* ===== verification/Import.v ===== *)
(** * An import's last steps ([crates/core/src/image/import/mod.rs])

    What [import] derives from a source, a manifest, a configuration and the unpacker's report: the name,
    the reader of a layer, the sidecar's provenance, the notes; and [pack_and_stamp]: the adapted tree is
    packed with its special modes, the entries of the packed image's listing that carry one are counted
    against the modes recorded, and only then is it published.

    The state is the disk of [Images].  [mksquashfs] and [unsquashfs] are parameters: what the packer makes
    of the pseudo-file's bytes, what a listing of an image says.  The rest of [import] joins parts that
    have files of their own. *)
From stdpp Require Import fin_maps sorting.
From S2P Require Import Prelude Text Effects Order Digest Layout Stage Base Paper Images.
From S2P Require Adapt Unpack.

(** ** Sources *)

Inductive ImportSource : Type :=
  | FromRegistry (reference : bytes)
  | FromOciLayout (dir : bytes)
  | FromDockerSave (tar : bytes).

(** Paths are shown as they are: [display] replaces what is not UTF-8. *)
Definition describe (s : ImportSource) : bytes :=
  match s with
  | FromRegistry r => r
  | FromOciLayout p | FromDockerSave p => from_utf8_lossy p
  end.

(** The name of the base. *)
Definition name_of (s : ImportSource) (slug : option bytes) : bytes :=
  match slug with Some s => s | None => slug_for (describe s) end.

Inductive ImportError : Type :=
  | ImageFailed (e : ImageError)
  | Exists (dest : bytes)
  | CallFailed (p : bytes)
  | PackFailed
  | ListFailed
  | ModesLost (applied recorded : nat)
  | UnknownMediaType (d : Descriptor)
  | ZstdLayer (d : Descriptor).

(** The first check of [import]. *)
Definition import_dest (images : bytes) (d : Disk) (slug : bytes) (force : bool) : result bytes ImportError :=
  let? dest := map_err (fun e => ImageFailed (WrongName e)) (imported_image_path images slug) in
  if exists_at d dest && negb force then Err (Exists dest) else Ok dest.

(** *** Layers *)

Inductive LayerReader : Type := PlainTar | GzTar.

Definition layer_reader (layer : Descriptor) : result LayerReader ImportError :=
  match Compression.of_media (media_type layer) with
  | None => Err (UnknownMediaType layer)
  | Some Compression.None => Ok PlainTar
  | Some Compression.Gzip => Ok GzTar
  | Some Compression.Zstd => Err (ZstdLayer layer)
  end.

(** *** The sidecar and the notes *)

Definition provenance_of (source : ImportSource) (p : Platform.Platform) (pulled : option bytes) (m : Manifest)
    (config : ImageConfig) (adapted : Adapt.AdaptReport) (report : Unpack.Report) : OciProvenance :=
  MkProvenance (describe source) (Platform.display p)
    (default (show_digest (digest (config_desc m))) pulled)
    (show_digest (digest (config_desc m)))
    (map (fun l => show_digest (digest l)) (layers m))
    (Layout.env config) (Layout.working_dir config) (Layout.entrypoint config) (Layout.cmd config) (Layout.user config)
    (Adapt.replaced_init adapted) (map fst (Unpack.setuid_paths report)).

Inductive Note : Type :=
  | UserIgnored (user : bytes)
  | NeverExecuted
  | InitReplaced
  | DevicesSkipped (n : nat)
  | XattrsDropped (n : N).

Definition pack_notes (p : OciProvenance) (adapted : Adapt.AdaptReport) : list Note :=
  match Base.user p with Some u => [UserIgnored u] | None => [] end ++
  match Base.entrypoint p, Base.cmd p with [], [] => [] | _, _ => [NeverExecuted] end ++
  (if Adapt.replaced_init adapted then [InitReplaced] else []).

Definition unpack_notes (report : Unpack.Report) : list Note :=
  match Unpack.devices_skipped report with [] => [] | l => [DevicesSkipped (length l)] end ++
  (if (0 <? Unpack.xattrs_dropped report)%N then [XattrsDropped (Unpack.xattrs_dropped report)] else []).

(** ** The special modes *)

(** The order of pairs: the path, then the mode. *)
Definition mode_le (a b : bytes * N) : Prop :=
  if beq (fst a) (fst b) then (snd a <= snd b)%N else bytes_le (fst a) (fst b).
#[export] Instance mode_le_dec a b : Decision (mode_le a b).
Proof. unfold mode_le. destruct (beq _ _); apply _. Defined.

(** [dedup_by] on the path: the first of a run stays. *)
Fixpoint dedup_from (x : bytes * N) (l : list (bytes * N)) : list (bytes * N) :=
  match l with
  | [] => [x]
  | y :: r => if beq (fst y) (fst x) then dedup_from x r else x :: dedup_from y r
  end.
Definition dedup_modes (l : list (bytes * N)) : list (bytes * N) :=
  match l with [] => [] | x :: r => dedup_from x r end.

Definition modes_for (special : list (bytes * N)) (adapted : Adapt.AdaptReport) : list (bytes * N) :=
  dedup_modes (merge_sort mode_le (special ++ (if Adapt.created_tmp adapted then [(B "tmp", Adapt.TMP_MODE)] else []))).

(** ** Packing *)

Record ImportOutcome : Type := MkOutcome {
  image_path : bytes; out_slug : bytes; out_bytes : N; out_sha256 : bytes;
  out_adapt : Adapt.AdaptReport; out_provenance : OciProvenance; notes : list Note }.

Section pack.
Context (sha256_hex : bytes -> bytes) (to_vec : ImageMeta -> bytes).
Context (now_unix : N) (torn : bytes -> bytes) (fails : Call -> bool).
Context (explicit target : option bytes) (root : bytes) (dir_len : N).
(** Directories that cannot be made, files that cannot be looked at; what a removal of the work directory
    leaves. *)
Context (dir_fails stat_fails left_ : bytes -> bool).
(** What the packer makes of the tree with a pseudo-file, or what it leaves when it fails; what
    [unsquashfs -ll] prints of an image. *)
Context (mksquashfs : bytes -> result bytes (option bytes)) (unsquashfs : bytes -> option bytes).

Abbreviation Io := (SE Disk ImportError).

Definition image_io {A} (m : SE Disk ImageError A) : Io A := se_map_err ImageFailed m.

(** A directory that may be there. *)
Definition create_dir_all (p : bytes) : Io unit := fun d =>
  if dir_fails p then (Err (CallFailed p), d)
  else match d !! p with
       | Some Directory => (Ok tt, d)
       | None => (Ok tt, <[p := Directory]> d)
       | Some _ => (Err (CallFailed p), d)
       end.

(** A new directory of its own. *)
Definition tempdir (p : bytes) : Io unit := fun d =>
  if dir_fails p then (Err (CallFailed p), d)
  else match d !! p with None => (Ok tt, <[p := Directory]> d) | Some _ => (Err (CallFailed p), d) end.

Definition within (work p : bytes) : bool := beq p work || starts_with (work ++ B "/") p.

(** [TempDir]'s [Drop], at every way out. *)
Definition with_workdir {A} (work : bytes) (body : Io A) : Io A := fun d =>
  let '(r, d') := body d in (r, filter (fun kv => within work kv.1 = true -> left_ kv.1 = true) d').

Definition append (p data : bytes) : Io unit := fun d =>
  match d !! p with
  | Some (Regular c) =>
      if fails (WriteAll p) then (Err (CallFailed p), <[p := Regular (c ++ torn data)]> d)
      else (Ok tt, <[p := Regular (c ++ data)]> d)
  | _ => (Err (CallFailed p), d)
  end.

Definition write_pseudo_file (dir : bytes) (modes : list (bytes * N)) : Io bytes :=
  let path := path_join dir (B "pseudo") in
  do! _ := image_io (create_file fails path) in
  do! _ := se_iter (fun pm => append path (Adapt.pseudo_line (fst pm) (snd pm))) modes in
  do! _ := image_io (sync_all fails path) in
  se_ret (Ok path).

Definition pack_squashfs_with_pseudo (img pseudo : bytes) : Io unit := fun d =>
  match d !! pseudo with
  | Some (Regular c) =>
      match mksquashfs c with
      | Ok image => (Ok tt, <[img := Regular image]> d)
      | Err (Some part) => (Err PackFailed, <[img := Regular part]> d)
      | Err None => (Err PackFailed, d)
      end
  | _ => (Err PackFailed, d)
  end.

Definition count_special_modes (img : bytes) : Io nat := fun d =>
  match d !! img with
  | Some (Regular c) =>
      match unsquashfs c with Some listing => (Ok (Adapt.count_special_modes listing), d) | None => (Err ListFailed, d) end
  | _ => (Err ListFailed, d)
  end.

Definition file_len (p : bytes) : Io N := fun d =>
  if stat_fails p then (Err (CallFailed p), d)
  else match d !! p with
       | Some (Regular c) => (Ok (N.of_nat (length c)), d)
       | Some Directory => (Ok dir_len, d)
       | _ => (Err (CallFailed p), d)
       end.

(** [tmp_name] is what [tempfile] draws. *)
Definition pack_and_stamp (images tmp_name slug : bytes) (special : list (bytes * N)) (provenance : OciProvenance)
    (adapted : Adapt.AdaptReport) : Io ImportOutcome :=
  do! dest := se_ret (map_err (fun e => ImageFailed (WrongName e)) (imported_image_path images slug)) in
  let parent := path_join images (B "oci") in
  do! _ := create_dir_all parent in
  let work := path_join parent (B ".tmp" ++ tmp_name) in
  do! _ := tempdir work in
  with_workdir work (
    let modes := modes_for special adapted in
    do! pseudo := write_pseudo_file work modes in
    let tmp_img := path_join work (B "image.sqfs") in
    do! _ := pack_squashfs_with_pseudo tmp_img pseudo in
    do! applied := count_special_modes tmp_img in
    if negb (applied =? length modes)%nat then se_ret (Err (ModesLost applied (length modes)))
    else
      do! _ := image_io (sync_all fails tmp_img) in
      do! _ := image_io (publish_imported_image sha256_hex to_vec now_unix torn fails explicit target root tmp_img dest slug provenance) in
      do! n := file_len dest in
      do! sha := image_io (Images.reading (fun d => sha256_file sha256_hex fails d dest)) in
      se_ret (Ok (MkOutcome dest slug n sha
        (Adapt.MkReport (Adapt.dirs_created adapted) (Adapt.replaced_init adapted) (Adapt.created_tmp adapted) (length modes))
        provenance (pack_notes provenance adapted)))).
End pack.

(** ** The modes that are recorded *)

Lemma beq_same s : beq s s = true.
Proof. by apply beq_true. Qed.

Lemma mode_le_total : Total mode_le.
Proof.
  intros [p m] [q n]. unfold mode_le. cbn [fst snd]. destruct (beq p q) eqn:E.
  - apply beq_true in E as ->. rewrite beq_same. lia.
  - destruct (beq q p) eqn:E'; [apply beq_true in E' as ->; by rewrite beq_same in E|]. apply total, _.
Qed.

Lemma mode_le_trans : Transitive mode_le.
Proof.
  intros [p m] [q n] [r k]. unfold mode_le. cbn [fst snd].
  destruct (beq p q) eqn:E1; [apply beq_true in E1 as ->|]; destruct (beq q r) eqn:E2; try (apply beq_true in E2 as ->);
    rewrite ?beq_same, ?E1; try done; [lia|].
  intros H1 H2. destruct (beq p r) eqn:E3; [|by etrans]. apply beq_true in E3 as ->.
  pose proof (anti_symm bytes_le _ _ H1 H2) as ->. by rewrite beq_same in E1.
Qed.

(** What a run of a sorted list leaves: one entry a path, the least mode. *)
Lemma dedup_from_spec l x : StronglySorted mode_le (x :: l) ->
  NoDup (map fst (dedup_from x l)) /\ head (dedup_from x l) = Some x /\
  (forall a, a ∈ dedup_from x l -> a ∈ x :: l /\ forall b, b ∈ x :: l -> fst b = fst a -> mode_le a b) /\
  (forall a, a ∈ x :: l -> fst a ∈ map fst (dedup_from x l)).
Proof.
  revert x. induction l as [|y l IH]; intros x Hs.
  { cbn. split_and!; try done; [apply NoDup_singleton| |].
    - intros a ->%list_elem_of_singleton. split; [by left|]. intros b ->%list_elem_of_singleton _.
      destruct (mode_le_total x x); done.
    - intros a ->%list_elem_of_singleton. by left. }
  apply StronglySorted_inv in Hs as [Hs Hx]. cbn [dedup_from]. destruct (beq (fst y) (fst x)) eqn:E.
  - apply beq_true in E. assert (Hs' : StronglySorted mode_le (x :: l)).
    { constructor; [by apply StronglySorted_inv in Hs as [? _]|]. by apply Forall_cons in Hx as [_ ?]. }
    destruct (IH x Hs') as (Hn & Hh & Hin & Hall). split_and!; try done.
    + intros a Ha. destruct (Hin a Ha) as [Ha' Hle]. split; [set_solver|]. intros b Hb Hf.
      apply elem_of_cons in Hb as [->|[->|Hb]%elem_of_cons]; [by apply Hle; [left|]| |by apply Hle; [right|]].
      apply (mode_le_trans _ x); [apply Hle; [by left|congruence]|]. by apply Forall_cons in Hx as [? _].
    + intros a [->|[->|Ha]%elem_of_cons]%elem_of_cons; [apply Hall; by left| |apply Hall; by right].
      rewrite E. apply Hall. by left.
  - destruct (IH y Hs) as (Hn & Hh & Hin & Hall).
    assert (Hxn : forall a, a ∈ y :: l -> fst a <> fst x).
    { intros a Ha Hf. assert (Hya : mode_le y a).
      { apply elem_of_cons in Ha as [->|Ha]; [destruct (mode_le_total y y); done|]. apply StronglySorted_inv in Hs as [_ Hy].
        rewrite Forall_forall in Hy. by apply Hy. }
      apply Forall_cons in Hx as [Hxy _]. unfold mode_le in Hxy, Hya. rewrite Hf, E in Hya.
      destruct (beq (fst x) (fst y)) eqn:E'; [apply beq_true in E'; rewrite E', beq_same in E; done|].
      pose proof (anti_symm bytes_le _ _ Hxy Hya) as E2. rewrite E2, beq_same in E. done. }
    split_and!; try done.
    + cbn [map]. apply NoDup_cons. split; [|done]. intros (a & Hf & Ha)%list_elem_of_fmap. apply Hin in Ha as [Ha _]. by apply (Hxn a).
    + intros a [->|Ha]%elem_of_cons.
      * split; [by left|]. intros b [->|Hb]%elem_of_cons Hf; [destruct (mode_le_total x x); done|]. by apply Hxn in Hb.
      * destruct (Hin a Ha) as [Ha' Hle]. split; [by right|]. intros b [->|Hb]%elem_of_cons Hf; [|by apply Hle].
        by apply Hxn in Ha'.
    + intros a [->|Ha]%elem_of_cons; cbn [map]; [by left|right; by apply Hall].
Qed.

Definition recorded (special : list (bytes * N)) (adapted : Adapt.AdaptReport) : list (bytes * N) :=
  special ++ (if Adapt.created_tmp adapted then [(B "tmp", Adapt.TMP_MODE)] else []).

Lemma modes_for_spec special adapted : let l := modes_for special adapted in
  NoDup (map fst l) /\
  (forall p m, (p, m) ∈ l -> (p, m) ∈ recorded special adapted /\ forall m', (p, m') ∈ recorded special adapted -> (m <= m')%N) /\
  (forall p m, (p, m) ∈ recorded special adapted -> p ∈ map fst l).
Proof.
  cbn zeta. unfold modes_for. fold (recorded special adapted). pose proof (merge_sort_Permutation mode_le (recorded special adapted)) as Hp.
  pose proof (@StronglySorted_merge_sort _ mode_le _ mode_le_trans mode_le_total (recorded special adapted)) as Hs.
  destruct (merge_sort mode_le (recorded special adapted)) as [|x l] eqn:E.
  { cbn. split_and!; [constructor|by intros p m ?%elem_of_nil|]. intros p m. rewrite <- Hp. by intros ?%elem_of_nil. }
  destruct (dedup_from_spec l x Hs) as (Hn & _ & Hin & Hall). cbn [dedup_modes]. split_and!; [done| |].
  - intros p m Hpm. destruct (Hin _ Hpm) as [H1 H2]. rewrite Hp in H1. split; [done|]. intros m' Hm'. rewrite <- Hp in Hm'.
    specialize (H2 _ Hm' eq_refl). unfold mode_le in H2. cbn [fst snd] in H2. by rewrite beq_same in H2.
  - intros p m Hpm. rewrite <- Hp in Hpm. exact (Hall _ Hpm).
Qed.

(** ** Where a pack works *)

Definition oci_dir (images : bytes) : bytes := path_join images (B "oci").
Definition hidden (images q : bytes) : Prop := exists x, q = oci_prefix images ++ "."%char :: x.

Lemma oci_dir_prefix images : oci_dir images = as_prefix images ++ B "oci".
Proof. by apply path_join_relative. Qed.

Lemma as_prefix_cases a : as_prefix a = a \/ as_prefix a = a ++ B "/".
Proof. unfold as_prefix. destruct (_ || _); auto. Qed.

Lemma oci_prefix_eq images : oci_prefix images = as_prefix images ++ B "oci/".
Proof.
  unfold oci_prefix. fold (oci_dir images). rewrite oci_dir_prefix. unfold as_prefix at 1.
  destruct (beq (as_prefix images ++ B "oci") []) eqn:E0; [apply beq_true in E0; by apply app_eq_nil in E0 as [_ ?]|].
  destruct (ends_with (B "/") (as_prefix images ++ B "oci")) eqn:E; cbn [orb].
  - apply ends_with_true in E as [x E]. apply (f_equal last) in E. rewrite !last_app in E. done.
  - by rewrite <- app_assoc.
Qed.

Lemma hidden_aside images q : hidden images q -> aside images q.
Proof.
  intros [x ->]. assert (Hi : forall i s, is_image images i -> s = [] \/ s = B ".meta.json" -> oci_prefix images ++ "."%char :: x <> i ++ s).
  { intros i s [[f ->]|(n & Hn & ->)] _ E.
    - assert (exists b y, image_dest images f = as_prefix images ++ b :: y /\ b <> "o"%char) as (b & y & Ey & Hb).
      { destruct f; unfold image_dest; rewrite path_join_relative by done; by eexists _, _. }
      rewrite oci_prefix_eq, Ey, <- !app_assoc in E. apply app_inv_head in E.
      change (B "oci/") with ("o"%char :: B "ci/") in E. injection E as E _. by apply Hb.
    - rewrite <- app_assoc in E. apply app_inv_head in E. destruct Hn as (Hne & _ & _ & Hh & _). destruct n as [|c n]; [done|].
      cbn in *. congruence. }
  split; [intros H; apply (Hi _ [] H); [by left|by rewrite app_nil_r]|].
  intros i H E. apply (Hi i (B ".meta.json") H); [by right|exact E].
Qed.

Lemma oci_dir_aside images : aside images (oci_dir images).
Proof. apply aside_by_last; rewrite oci_dir_prefix, last_app; done. Qed.

Lemma image_not_aside images i : is_image images i -> ~ aside images i /\ ~ aside images (image_meta_path i).
Proof. intros Hi. split; intros [H1 H2]; [done|by apply (H2 i)]. Qed.

Definition work_dir (images tmp_name : bytes) : bytes := path_join (oci_dir images) (B ".tmp" ++ tmp_name).

Lemma work_dir_eq images name : work_dir images name = oci_prefix images ++ "."%char :: B "tmp" ++ name.
Proof. unfold work_dir. by rewrite path_join_relative. Qed.

Lemma in_work_hidden images name f : starts_with (B "/") f = false -> hidden images (path_join (work_dir images name) f).
Proof.
  intros Hf. rewrite path_join_relative by done. destruct (as_prefix_cases (work_dir images name)) as [-> | ->];
    rewrite work_dir_eq; unfold hidden; rewrite <- !app_assoc; by eexists.
Qed.

Lemma within_hidden images name q : within (work_dir images name) q = true -> hidden images q.
Proof.
  unfold within. intros [H|H]%orb_true_iff.
  - apply beq_true in H as ->. rewrite work_dir_eq. by eexists.
  - apply starts_with_true in H as [x ->]. rewrite work_dir_eq. unfold hidden. rewrite <- !app_assoc. by eexists.
Qed.

(** *** What a pack may change beside an image and its stamp *)

Definition around (images q : bytes) : Prop := hidden images q \/ q = oci_dir images.

Lemma around_aside images q : around images q -> aside images q.
Proof. intros [H| ->]; [by apply hidden_aside|apply oci_dir_aside]. Qed.

Definition agree_around (images : bytes) (d d' : Disk) : Prop := forall q, ~ around images q -> d' !! q = d !! q.

Lemma agree_refl images d : agree_around images d d.
Proof. done. Qed.

Lemma agree_trans images d1 d2 d3 : agree_around images d1 d2 -> agree_around images d2 d3 -> agree_around images d1 d3.
Proof. intros H1 H2 q Hq. by rewrite H2, H1. Qed.

Lemma agree_insert images d d' p n : agree_around images d d' -> around images p -> agree_around images d (<[p := n]> d').
Proof. intros H Hp q Hq. rewrite lookup_insert_ne; [by apply H|]. by intros ->. Qed.

Lemma agree_images images d d' i : agree_around images d d' -> is_image images i ->
  d' !! i = d !! i /\ d' !! image_meta_path i = d !! image_meta_path i.
Proof. intros H Hi. destruct (image_not_aside images i Hi) as [H1 H2]. split; apply H; intros Ha%around_aside; done. Qed.

Lemma agree_sound sha256_hex from_slice images d d' : agree_around images d d' ->
  images_sound sha256_hex from_slice images d -> images_sound sha256_hex from_slice images d'.
Proof. intros H Hs i Hi c raw m. destruct (agree_images images d d' i H Hi) as [-> ->]. by apply Hs. Qed.

Section steps.
Context (sha256_hex : bytes -> bytes) (to_vec : ImageMeta -> bytes) (from_slice : bytes -> option ImageMeta).
Hypothesis codec : forall m, from_slice (to_vec m) = Some m.
Context (now_unix : N) (torn : bytes -> bytes) (fails : Call -> bool).
Context (explicit target : option bytes) (root : bytes) (dir_len : N) (dir_fails stat_fails left_ : bytes -> bool).
Context (mksquashfs : bytes -> result bytes (option bytes)) (unsquashfs : bytes -> option bytes) (images : bytes).

Lemma image_io_cases {A : Type} (m : SE Disk ImageError A) d r d' : image_io m d = (r, d') ->
  exists r0, m d = (r0, d') /\ r = map_err ImageFailed r0.
Proof using. unfold image_io, se_map_err. destruct (m d) as [r0 d0]. intros [= <- <-]. by exists r0. Qed.

Lemma create_dir_all_agree d r d' : create_dir_all dir_fails (oci_dir images) d = (r, d') -> agree_around images d d'.
Proof using.
  unfold create_dir_all. repeat case_match; intros [= <- <-]; try apply agree_refl.
  apply agree_insert; [apply agree_refl|by right].
Qed.

Lemma tempdir_agree name d r d' : tempdir dir_fails (work_dir images name) d = (r, d') -> agree_around images d d'.
Proof using.
  unfold tempdir. repeat case_match; intros [= <- <-]; try apply agree_refl.
  apply agree_insert; [apply agree_refl|left; rewrite work_dir_eq; by eexists].
Qed.

Lemma appends_cases path lines c d r d' : around images path -> d !! path = Some (Regular c) ->
  se_iter (fun l => append torn fails path l) lines d = (r, d') ->
  agree_around images d d' /\ (r = Ok tt -> d' !! path = Some (Regular (c ++ concat lines))).
Proof using.
  intros Hp. revert c d. induction lines as [|l lines IH]; intros c d Hc; cbn [se_iter concat].
  { unfold se_ret. intros [= <- <-]. split; [apply agree_refl|]. by rewrite app_nil_r. }
  unfold append at 1. unfold se_bind. rewrite Hc. destruct (fails (WriteAll path)).
  { intros [= <- <-]. split; [|done]. by apply agree_insert. }
  intros Hr. destruct (IH (c ++ l) _ (lookup_insert_eq _ _ _) Hr) as [H1 H2]. split.
  - eapply agree_trans; [|exact H1]. by apply agree_insert.
  - intros Hok. rewrite H2 by done. by rewrite app_assoc.
Qed.

Lemma iter_map {A C : Type} (f : A -> C) (m : C -> SE Disk ImportError unit) l d :
  se_iter (fun x => m (f x)) l d = se_iter m (map f l) d.
Proof using.
  revert d. induction l as [|x l IH]; intros d; [done|]. cbn [se_iter map]. unfold se_bind. destruct (m (f x) d) as [[]]; done.
Qed.

Lemma write_pseudo_cases name modes d r d' : write_pseudo_file torn fails (work_dir images name) modes d = (r, d') ->
  agree_around images d d' /\ (forall p, r = Ok p -> hidden images p /\ d' !! p = Some (Regular (Adapt.pseudo_file modes))).
Proof using.
  assert (Hh : hidden images (path_join (work_dir images name) (B "pseudo"))) by by apply in_work_hidden.
  unfold write_pseudo_file. set (path := path_join _ (B "pseudo")) in *.
  intros [(e & E & ->)|([] & d1 & E & Hr)]%se_bind_cases; apply image_io_cases in E as (r0 & E & Er0);
    apply create_file_cases in E as [(e' & -> & ->)|[-> ->]]; try done; try (by split; [apply agree_refl|]).
  assert (H1 : agree_around images d (<[path := Regular []]> d)) by by apply agree_insert; [apply agree_refl|left].
  apply se_bind_cases in Hr as [(e & E & ->)|([] & d2 & E & Hr)];
    rewrite (iter_map (fun pm => Adapt.pseudo_line (fst pm) (snd pm))) in E;
    apply (appends_cases path _ []) in E as [H2 Hok]; [|by left|apply lookup_insert_eq| |by left|apply lookup_insert_eq].
  { split; [by eapply agree_trans|done]. }
  apply se_bind_cases in Hr as [(e & E & ->)|([] & d3 & E & Hr)];
    apply image_io_cases in E as (r0 & E & _); apply sync_all_cases in E as ->; [by split; [eapply agree_trans|]|].
  unfold se_ret in Hr. injection Hr as <- <-. split; [by eapply agree_trans|]. intros p [= <-]. split; [done|]. by apply Hok.
Qed.

(** What is packed and counted before anything is published: as many special entries as modes. *)
Definition packed_counted (modes : list (bytes * N)) (c : bytes) : Prop :=
  mksquashfs (Adapt.pseudo_file modes) = Ok c /\
  exists listing, unsquashfs c = Some listing /\ Adapt.count_special_modes listing = length modes.

Lemma pack_cases img pseudo modes d r d' : hidden images img -> d !! pseudo = Some (Regular (Adapt.pseudo_file modes)) ->
  pack_squashfs_with_pseudo mksquashfs img pseudo d = (r, d') ->
  agree_around images d d' /\ (r = Ok tt -> exists c, mksquashfs (Adapt.pseudo_file modes) = Ok c /\ d' !! img = Some (Regular c)).
Proof using.
  intros Hi Hp. unfold pack_squashfs_with_pseudo. rewrite Hp.
  destruct (mksquashfs _) as [c|[part|]]; intros [= <- <-]; (split; [|try done]);
    try (by apply agree_refl); try (apply agree_insert; [apply agree_refl|by left]).
  intros _. exists c. split; [done|]. apply lookup_insert_eq.
Qed.

(** The work of [pack_and_stamp] up to the publication, and the rest. *)
Definition prepare (name : bytes) (modes : list (bytes * N)) : SE Disk ImportError bytes :=
  do! pseudo := write_pseudo_file torn fails (work_dir images name) modes in
  let tmp_img := path_join (work_dir images name) (B "image.sqfs") in
  do! _ := pack_squashfs_with_pseudo mksquashfs tmp_img pseudo in
  do! applied := count_special_modes unsquashfs tmp_img in
  if negb (applied =? length modes)%nat then se_ret (Err (ModesLost applied (length modes)))
  else se_ret (Ok tmp_img).

Lemma prepare_cases name modes d r d' : prepare name modes d = (r, d') ->
  agree_around images d d' /\
  (forall img, r = Ok img -> hidden images img /\ exists c, d' !! img = Some (Regular c) /\ packed_counted modes c).
Proof using.
  unfold prepare. intros [(e & E & ->)|(pseudo & d1 & E & Hr)]%se_bind_cases; apply write_pseudo_cases in E as [H1 Hok]; [by split|].
  destruct (Hok pseudo eq_refl) as [Hh Hps]. cbn zeta in Hr.
  assert (Hi : hidden images (path_join (work_dir images name) (B "image.sqfs"))) by by apply in_work_hidden.
  set (img := path_join _ (B "image.sqfs")) in *.
  apply se_bind_cases in Hr as [(e & E & ->)|([] & d2 & E & Hr)]; eapply pack_cases in E as [H2 Hp]; try done;
    [split; [by eapply agree_trans|done]|].
  destruct (Hp eq_refl) as (c & Hm & Hc).
  apply se_bind_cases in Hr as [(e & E & ->)|(n & d3 & E & Hr)]; unfold count_special_modes in E; rewrite Hc in E;
    destruct (unsquashfs c) as [listing|] eqn:El; injection E as E <-; try done;
    [split; [by eapply agree_trans|done]|].
  destruct (Nat.eqb_spec n (length modes)) as [Hn|Hn]; unfold se_ret in Hr; injection Hr as <- <-;
    (split; [by eapply agree_trans|]); [|done].
  intros img' [= <-]. split; [done|]. exists c. split; [done|]. split; [done|]. exists listing. split; [done|]. congruence.
Qed.

Definition finish (img dest slug : bytes) (modes : list (bytes * N)) (provenance : OciProvenance) (adapted : Adapt.AdaptReport) :
    SE Disk ImportError ImportOutcome :=
  do! _ := image_io (sync_all fails img) in
  do! _ := image_io (publish_imported_image sha256_hex to_vec now_unix torn fails explicit target root img dest slug provenance) in
  do! n := file_len dir_len stat_fails dest in
  do! sha := image_io (Images.reading (fun d => sha256_file sha256_hex fails d dest)) in
  se_ret (Ok (MkOutcome dest slug n sha
    (Adapt.MkReport (Adapt.dirs_created adapted) (Adapt.replaced_init adapted) (Adapt.created_tmp adapted) (length modes))
    provenance (pack_notes provenance adapted))).

Lemma prepare_finish name modes dest slug prov adapted d :
  (do! pseudo := write_pseudo_file torn fails (work_dir images name) modes in
   let tmp_img := path_join (work_dir images name) (B "image.sqfs") in
   do! _ := pack_squashfs_with_pseudo mksquashfs tmp_img pseudo in
   do! applied := count_special_modes unsquashfs tmp_img in
   if negb (applied =? length modes)%nat then se_ret (Err (ModesLost applied (length modes)))
   else finish tmp_img dest slug modes prov adapted) d =
  (do! img := prepare name modes in finish img dest slug modes prov adapted) d.
Proof using.
  unfold prepare, se_bind. destruct (write_pseudo_file _ _ _ _ d) as [[p|e] d1]; [|done].
  destruct (pack_squashfs_with_pseudo _ _ p d1) as [[u|e] d2]; [|done]. destruct (count_special_modes _ _ d2) as [[n|e] d3]; [|done].
  by destruct (negb _).
Qed.

Lemma finish_cases img dest slug modes prov adapted c d r d' : finish img dest slug modes prov adapted d = (r, d') ->
  is_utf8 slug = true -> imported_image_path images slug = Ok dest -> hidden images img -> d !! img = Some (Regular c) ->
  images_sound sha256_hex from_slice images d ->
  images_sound sha256_hex from_slice images d' /\
  (forall out, r = Ok out ->
     stamped_as sha256_hex to_vec now_unix (fun _ => True) dest c (IMPORTED_PREFIX ++ slug) (Some prov) d' /\
     out = MkOutcome dest slug (N.of_nat (length c)) (sha256_hex c)
       (Adapt.MkReport (Adapt.dirs_created adapted) (Adapt.replaced_init adapted) (Adapt.created_tmp adapted) (length modes))
       prov (pack_notes prov adapted)).
Proof using codec.
  intros Hr Hu Hd Hh Hc Hs. unfold finish in Hr.
  apply se_bind_cases in Hr as [(e & E & ->)|([] & d1 & E & Hr)]; apply image_io_cases in E as (r1 & E & _); apply sync_all_cases in E as ->;
    [by split|].
  apply se_bind_cases in Hr as [(e & E & ->)|([] & d2 & E & Hr)]; apply image_io_cases in E as (r0 & E & Er);
    eapply publish_imported_spec in E as [Hs2 Hok]; try done; try by apply hidden_aside.
  destruct r0 as [[]|]; [|done]. destruct (Hok eq_refl) as (m & Hdc & Hst & H1 & H2 & H3 & H4 & _).
  assert (Hstate : d' = d2 /\ forall out, r = Ok out -> exists n sha, file_len dir_len stat_fails dest d2 = (Ok n, d2) /\
    sha256_file sha256_hex fails d2 dest = Ok sha /\
    out = MkOutcome dest slug n sha (Adapt.MkReport (Adapt.dirs_created adapted) (Adapt.replaced_init adapted) (Adapt.created_tmp adapted) (length modes)) prov (pack_notes prov adapted)).
  { apply se_bind_cases in Hr as [(e & E & ->)|(n & d3 & E & Hr)].
    - split; [|done]. unfold file_len in E. repeat case_match; by injection E.
    - assert (d3 = d2) as -> by (unfold file_len in E; repeat case_match; by injection E).
      apply se_bind_cases in Hr as [(e & E3 & ->)|(sha & d4 & E3 & Hr)]; apply image_io_cases in E3 as (r3 & E3 & Er3);
        unfold Images.reading in E3; injection E3 as <- <-; [done|]. unfold se_ret in Hr. injection Hr as <- <-. split; [done|].
      intros out [= <-]. exists n, sha. split; [done|]. split; [|done]. destruct (sha256_file _ _ _ _); cbn in Er3; congruence. }
  destruct Hstate as [-> Hout]. split; [done|]. intros out Hr'. destruct (Hout out Hr') as (n & sha & Hn & Hsha & ->).
  split; [by exists m|]. unfold file_len in Hn. destruct (stat_fails dest); [done|]. rewrite Hdc in Hn. injection Hn as <-.
  by rewrite (sha256_file_Ok _ _ _ _ _ _ Hsha Hdc).
Qed.

(** The work directory goes: nothing else does. *)
Lemma with_workdir_cases {A : Type} (name : bytes) (body : SE Disk ImportError A) (d d' : Disk) (r : result A ImportError) :
  with_workdir left_ (work_dir images name) body d = (r, d') -> exists d1, body d = (r, d1) /\ agree_around images d1 d'.
Proof using.
  unfold with_workdir. destruct (body d) as [r1 d1]. intros [= <- <-]. exists d1. split; [done|]. intros q Hq.
  rewrite map_lookup_filter. destruct (d1 !! q) as [n|]; [|done]. cbn. rewrite option_guard_True; [done|]. cbn.
  intros Hw. exfalso. apply Hq. left. by eapply within_hidden.
Qed.

Lemma stamped_agree (P : ImageMeta -> Prop) (dest c name : bytes) (prov : option OciProvenance) (d d' : Disk) : agree_around images d d' -> is_image images dest ->
  stamped_as sha256_hex to_vec now_unix P dest c name prov d -> stamped_as sha256_hex to_vec now_unix P dest c name prov d'.
Proof using.
  intros H Hi (m & H1 & H2 & Hm). exists m. destruct (agree_images images d d' dest H Hi) as [-> ->]. done.
Qed.
End steps.

(** A pack from the start to the end. *)
Lemma pack_and_stamp_cases (sha256_hex : bytes -> bytes) (to_vec : ImageMeta -> bytes) (from_slice : bytes -> option ImageMeta)
    (now_unix : N) (torn : bytes -> bytes) (fails : Call -> bool) (explicit target : option bytes) (root : bytes) (dir_len : N)
    (dir_fails stat_fails left_ : bytes -> bool) (mksquashfs : bytes -> result bytes (option bytes)) (unsquashfs : bytes -> option bytes)
    (images tmp_name slug : bytes) (special : list (bytes * N)) (prov : OciProvenance) (adapted : Adapt.AdaptReport) (d d' : Disk)
    (r : result ImportOutcome ImportError) :
  (forall m : ImageMeta, from_slice (to_vec m) = Some m) -> is_utf8 slug = true -> images_sound sha256_hex from_slice images d ->
  pack_and_stamp sha256_hex to_vec now_unix torn fails explicit target root dir_len dir_fails stat_fails left_ mksquashfs unsquashfs
    images tmp_name slug special prov adapted d = (r, d') ->
  let modes := modes_for special adapted in
  images_sound sha256_hex from_slice images d' /\
  (forall out : ImportOutcome, r = Ok out -> exists c : bytes,
     packed_counted mksquashfs unsquashfs modes c /\
     imported_image_path images slug = Ok (image_path out) /\
     stamped_as sha256_hex to_vec now_unix (fun _ => True) (image_path out) c (B "oci:" ++ slug) (Some prov) d' /\
     out_bytes out = N.of_nat (length c) /\ out_sha256 out = sha256_hex c /\ Adapt.special_modes (out_adapt out) = length modes) /\
  ((forall c : bytes, ~ packed_counted mksquashfs unsquashfs modes c) -> is_ok r = false /\
     forall image : bytes, is_image images image -> d' !! image = d !! image /\ d' !! image_meta_path image = d !! image_meta_path image).
Proof.
  intros Hcodec Hu Hs Hr modes.
  unfold pack_and_stamp in Hr. apply se_bind_cases in Hr as [(e & E & ->)|(dest & d0 & E & Hr)]; unfold se_ret in E; injection E as E <-.
  { split; [done|]. split; [done|]. by intros _. }
  assert (Hd : imported_image_path images slug = Ok dest) by (destruct (imported_image_path images slug); cbn in E; congruence). clear E.
  apply se_bind_cases in Hr as [(e & E & ->)|([] & d1 & E & Hr)]; apply create_dir_all_agree in E as H1;
    [split; [by eapply (agree_sound _ _ images)|]; split; [done|]; intros _; split; [done|]; intros i Hi; by apply (agree_images images d d')|].
  apply se_bind_cases in Hr as [(e & E2 & ->)|([] & d2 & E2 & Hr)]; apply tempdir_agree in E2 as H2; pose proof (agree_trans _ _ _ _ H1 H2) as H12;
    [split; [by eapply (agree_sound _ _ images)|]; split; [done|]; intros _; split; [done|]; intros i Hi; by apply (agree_images images d d')|].
  apply with_workdir_cases in Hr as (d3 & Hr & H3). fold modes in Hr.
  pose proof (prepare_finish sha256_hex to_vec now_unix torn fails explicit target root dir_len stat_fails mksquashfs unsquashfs images
    tmp_name modes dest slug prov adapted d2) as Hpf. unfold finish at 1, work_dir, oci_dir in Hpf.
  cbn zeta in Hpf, Hr. rewrite Hpf in Hr. clear Hpf.
  apply se_bind_cases in Hr as [(e & E3 & ->)|(img & d4 & E3 & Hr)]; apply prepare_cases in E3 as [H4 Hok]; pose proof (agree_trans _ _ _ _ H12 H4) as H14.
  { pose proof (agree_trans _ _ _ _ H14 H3) as H13. split; [by eapply (agree_sound _ _ images)|]. split; [done|]. intros _. split; [done|].
    intros i Hi. by apply (agree_images images d d'). }
  destruct (Hok img eq_refl) as (Hh & c & Hc & Hw).
  eapply finish_cases in Hr as [Hs' Hout]; try done; [|by eapply (agree_sound _ _ images)].
  split; [by eapply (agree_sound _ _ images)|]. split; [|by intros Hn; destruct (Hn c)].
  intros out Hr'. destruct (Hout out Hr') as [Hst ->]. exists c. split_and!; try done.
  eapply stamped_agree; [exact H3|by eapply import_is_image|exact Hst].
Qed.

(** C17: an import publishes an image whose listing counts as many setuid, setgid and sticky entries as
    modes were recorded, under its name and stamped with its digest and its provenance; unless the counts
    agree, whatever the packer exits with, no image and no stamp changes; and whatever call fails, no stamp
    comes to vouch for other bytes.  One mode is recorded for each path: the unpacker's, or the least it
    gave, and [/tmp]'s if the adaptation made it.  The code compares the counts and not the paths, so a
    listing with other paths passes ([other_paths]). *)
Theorem import_published_whole (sha256_hex : bytes -> bytes) (to_vec : ImageMeta -> bytes) (from_slice : bytes -> option ImageMeta)
    (now_unix : N) (torn : bytes -> bytes) (fails : Call -> bool) (explicit target : option bytes) (root : bytes) (dir_len : N)
    (dir_fails stat_fails left_ : bytes -> bool) (mksquashfs : bytes -> result bytes (option bytes)) (unsquashfs : bytes -> option bytes)
    (images tmp_name slug : bytes) (special : list (bytes * N)) (prov : OciProvenance) (adapted : Adapt.AdaptReport) (d d' : Disk)
    (r : result ImportOutcome ImportError) :
  (forall m : ImageMeta, from_slice (to_vec m) = Some m) -> is_utf8 slug = true -> images_sound sha256_hex from_slice images d ->
  pack_and_stamp sha256_hex to_vec now_unix torn fails explicit target root dir_len dir_fails stat_fails left_ mksquashfs unsquashfs
    images tmp_name slug special prov adapted d = (r, d') ->
  let modes := modes_for special adapted in
  images_sound sha256_hex from_slice images d' /\
  (forall out : ImportOutcome, r = Ok out -> exists c : bytes,
     packed_counted mksquashfs unsquashfs modes c /\
     imported_image_path images slug = Ok (image_path out) /\
     stamped_as sha256_hex to_vec now_unix (fun _ => True) (image_path out) c (B "oci:" ++ slug) (Some prov) d' /\
     out_bytes out = N.of_nat (length c) /\ out_sha256 out = sha256_hex c /\ Adapt.special_modes (out_adapt out) = length modes) /\
  ((forall c : bytes, ~ packed_counted mksquashfs unsquashfs modes c) -> is_ok r = false /\
     forall image : bytes, is_image images image -> d' !! image = d !! image /\ d' !! image_meta_path image = d !! image_meta_path image) /\
  NoDup (map fst modes) /\
  (forall (p : bytes) (m : N), (p, m) ∈ modes -> (p, m) ∈ recorded special adapted /\ forall m' : N, (p, m') ∈ recorded special adapted -> (m <= m')%N) /\
  (forall (p : bytes) (m : N), (p, m) ∈ recorded special adapted -> p ∈ map fst modes).
Proof.
  intros Hcodec Hu Hs Hr modes. destruct (pack_and_stamp_cases _ _ _ _ _ _ _ _ _ _ _ _ _ _ _ _ _ _ _ _ _ _ _ _ Hcodec Hu Hs Hr) as (H1 & H2 & H3).
  split_and!; [exact H1|exact H2|exact H3|..]; apply modes_for_spec.
Qed.

(** A layer of a manifest that [Layout.resolve] accepts has a reader, or is zstd. *)
Lemma resolved_layers m : manifest_wf m ->
  Forall (fun l => is_ok (layer_reader l) = true \/ layer_reader l = Err (ZstdLayer l)) (layers m).
Proof.
  intros (_ & _ & _ & H). eapply Forall_impl; [exact H|]. intros l [_ Hl]. unfold layer_reader.
  destruct (Compression.of_media (media_type l)) as [[]|]; auto; done.
Qed.

(** ** At concrete inputs *)

Definition adapted0 : Adapt.AdaptReport := Adapt.MkReport [B "/tmp"] true true 0.
Definition config0 : ImageConfig := MkImageConfig [B "PATH=/bin"] None [] [B "sh"] (Some (B "app")) [].
Definition report0 : Unpack.Report := Unpack.MkReport 3 10 0 0 [B "dev/null"] [(B "bin/su", 2541%N)] 2.
Definition prov0 : OciProvenance :=
  provenance_of (FromOciLayout (B "/img")) Platform.host None Sample.the_manifest config0 adapted0 report0.

(** A packer that keeps the pseudo-file as the image, and what a listing says of it: its first lines. *)
Definition packer0 (pseudo : bytes) : result bytes (option bytes) := Ok (B "hsqs" ++ pseudo).
Definition lines0 : list bytes :=
  [B "-rwsr-xr-x root/root 27 2024-01-01 00:00 squashfs-root/bin/su"; B "drwxrwxrwt root/root 3 2024-01-01 00:00 squashfs-root/tmp"].
Definition listing0 (n : nat) (_ : bytes) : option bytes := Some (concat (map (fun l => l ++ [line_feed]) (take n lines0))).

Definition pack0 (n : nat) (d : Disk) : result ImportOutcome ImportError * Disk :=
  pack_and_stamp length_hex print 7 (fun c => take 3 c) no_fail (Some (B "/a/agent")) None [] 4096
    (fun _ => false) (fun _ => false) (fun _ => false) packer0 (listing0 n) paper_images (B "Ab12") (B "app") [(B "bin/su", 2541%N)] prov0 adapted0 d.

Definition disk0 : Disk := paper_disk "alpine one".

Example packed :
  rmap (fun out => (image_path out, Adapt.special_modes (out_adapt out), notes out)) (fst (pack0 2 disk0)) =
  Ok (B "/i/oci/app.sqfs", 2%nat, [UserIgnored (B "app"); NeverExecuted; InitReplaced]).
Proof. by vm_compute. Qed.

(** The packer exits with success and one bit is not there. *)
Example bit_lost : fst (pack0 1 disk0) = Err (ModesLost 1 2) /\ snd (pack0 1 disk0) !! B "/i/oci/app.sqfs" = None.
Proof. by vm_compute. Qed.

(** The right number of bits, in the wrong places. *)
Example other_paths :
  packed_counted packer0 (fun _ => Some (concat (repeat (B "-rwsr-xr-x root/root 1 2024-01-01 00:00 squashfs-root/x" ++ [line_feed]) 2)))
    (modes_for [(B "bin/su", 2541%N)] adapted0) (B "hsqs" ++ Adapt.pseudo_file (modes_for [(B "bin/su", 2541%N)] adapted0)).
Proof. split; [done|]. eexists. split; [done|]. by vm_compute. Qed.

(** Of an image that was not pulled, the sidecar's digest of the manifest is the configuration's. *)
Example digest_of_the_config : manifest_digest prov0 = config_digest prov0 /\ config_digest prov0 = B "sha256:" ++ Sample.hex_of "d".
Proof. by vm_compute. Qed.

Lemma import_published_whole_witness :
  exists c m, snd (pack0 2 disk0) !! B "/i/oci/app.sqfs" = Some (Regular c) /\
    snd (pack0 2 disk0) !! B "/i/oci/app.sqfs.meta.json" = Some (Regular (print m)) /\
    sha256 m = length_hex c /\ oci m = Some prov0.
Proof.
  assert (E1 : rmap image_path (fst (pack0 2 disk0)) = Ok (B "/i/oci/app.sqfs")) by by vm_compute.
  destruct (pack0 2 disk0) as [r d'] eqn:E. unfold pack0 in E. cbn [fst snd] in *.
  assert (Hu : is_utf8 (B "app") = true) by by vm_compute.
  assert (Hs : images_sound length_hex scan paper_images disk0) by apply paper_sound.
  destruct (import_published_whole length_hex print scan 7 (fun c => take 3 c) no_fail (Some (B "/a/agent")) None [] 4096
    (fun _ => false) (fun _ => false) (fun _ => false) packer0 (listing0 2) paper_images (B "Ab12") (B "app") [(B "bin/su", 2541%N)] prov0
    adapted0 disk0 d' r scan_print Hu Hs E) as (_ & Hok & _).
  destruct r as [out|e]; [|done]. cbn [rmap] in E1. injection E1 as E1. destruct (Hok out eq_refl) as (c & _ & _ & Hst & _).
  rewrite E1 in Hst. destruct Hst as (m & H1 & H2 & _ & H3 & _ & H4 & _). exists c, m. by split_and!.
Defined.
