(* ===== verification/Snapshot.v ===== *)
(** * The warm pool ([crates/core/src/snapshot.rs])

    Memory snapshots of a booted guest: the key a snapshot is stored under, the check of its files
    against the digests recorded with them, its publication, the lock that keeps two runs from
    building the same one, the resume, and the store's list and removals.

    A hash is a parameter, and so are serde's JSON of the metadata and the host's answers. *)
From S2P Require Import Prelude Text Effects.
From S2P Require Dns Slots Resources Digest Order BootArgs Rpc Agent.

(** ** The key *)

Definition SNAPSHOT_FORMAT : bytes := B "v10".

Record SnapshotKey : Type := MkKey {
  fc_build : bytes; kernel_id : bytes; cpu_model : bytes; base : bytes; base_sha256 : bytes;
  vcpus : N; mem_mib : N; snapshot_format : bytes }.

Definition key_new (fc_build kernel_id cpu_model base base_sha256 : bytes) (r : Resources.Resources) : SnapshotKey :=
  MkKey fc_build kernel_id cpu_model base base_sha256 (Resources.vcpus r) (Resources.mem_mib r) SNAPSHOT_FORMAT.

Definition nl : bytes := [line_feed].

Definition key_material (k : SnapshotKey) : bytes :=
  B "isopod-snapshot-key-v2" ++ nl ++
  B "fc_build=" ++ fc_build k ++ nl ++
  B "kernel_id=" ++ kernel_id k ++ nl ++
  B "cpu_model=" ++ cpu_model k ++ nl ++
  B "base=" ++ base k ++ nl ++
  B "base_sha256=" ++ base_sha256 k ++ nl ++
  B "vcpus=" ++ show_N (vcpus k) ++ nl ++
  B "mem_mib=" ++ show_N (mem_mib k) ++ nl ++
  B "snapshot_format=" ++ snapshot_format k ++ nl.

Definition hex_digit (n : N) : ascii := ascii_of_N (if (n <? 10)%N then 48 + n else 87 + n).
Definition hex_encode (s : bytes) : bytes := flat_map (fun c => [hex_digit (code c / 16); hex_digit (code c mod 16)]) s.

(** The first line that is not blank, of stdout unless that is empty. *)
Definition detect_fc_build (out err : bytes) : option bytes :=
  let text := if beq out [] then from_utf8_lossy err else from_utf8_lossy out in
  find (fun l => negb (beq l [])) (map trim (str_lines text)).

Fixpoint model_name (ls : list bytes) : option bytes :=
  match ls with
  | [] => None
  | line :: ls =>
      match strip_prefix (B "model name") line with
      | Some rest =>
          match split_once ":" rest with
          | Some (_, val) => let val := trim val in if negb (beq val []) then Some val else model_name ls
          | None => model_name ls
          end
      | None => model_name ls
      end
  end.
Definition parse_cpu_model (cpuinfo : bytes) : option bytes := model_name (str_lines cpuinfo).

(** [name] is the last component of the kernel's path. *)
Definition kernel_identity (name : option bytes) (len : N) : bytes :=
  match name with Some n => from_utf8_lossy n | None => B "vmlinux" end ++ B ":" ++ show_N len.

Section hashed.
(** [Sha256::digest]: 32 bytes. *)
Context (sha256 : bytes -> bytes).
Definition keyhash (k : SnapshotKey) : bytes := hex_encode (take 8 (sha256 (key_material k))).
End hashed.

Definition middle_dot : bytes := map ascii_of_N [32; 194; 183; 32]%N.
Definition summary (k : SnapshotKey) : bytes :=
  base k ++ B "@" ++ take (Nat.min (length (base_sha256 k)) 8) (base_sha256 k) ++ B " " ++ show_N (vcpus k) ++ B "c/" ++ show_N (mem_mib k) ++
  B "m" ++ middle_dot ++ fc_build k ++ middle_dot ++ kernel_id k ++ middle_dot ++ cpu_model k ++ middle_dot ++ snapshot_format k.

(** ** The files of a snapshot *)

Record File : Type := MkFile { data : bytes; mtime_ns : N }.

Record SnapshotMeta : Type := MkMeta {
  key : SnapshotKey; meta_keyhash : bytes; meta_summary : bytes; created_unix : N;
  vmstate_bytes : N; memfile_bytes : N; vmstate_b3 : bytes; memfile_b3 : bytes; memfile_mtime_ns : N }.

(** A snapshot's directory: its three files, each missing, not regular, or there; and the names staged. *)
Inductive Slot : Type := Missing | NotRegular | Regular (f : File).
Record Dir : Type := MkDir { vmstate : Slot; memfile : Slot; meta : Slot }.

Definition regular (s : Slot) : option File := match s with Regular f => Some f | _ => None end.
Definition is_regular (s : Slot) : bool := match s with Regular _ => true | _ => false end.
Definition file_len (f : File) : N := N.of_nat (length (data f)).

Inductive Integrity : Type := Fast | Full.

Inductive Refusal : Type :=
  | Incomplete
  | Unreadable
  | Unparsable
  | Predates
  | VmstateLength
  | VmstateDigest
  | MemfileLength
  | MemfileDigest
  | MemfileTouched.

Section verify.
(** blake3 in hex, and [serde_json] of the metadata's text. *)
Context (b3 : bytes -> bytes) (parse_meta : bytes -> option SnapshotMeta).

Definition is_complete (d : Dir) : bool := is_regular (vmstate d) && is_regular (memfile d) && is_regular (meta d).

Definition verify (d : Dir) (level : Integrity) : result SnapshotMeta Refusal :=
  if negb (is_complete d) then Err Incomplete
  else
    match vmstate d, memfile d, meta d with
    | Regular state, Regular mem, Regular raw =>
        if negb (is_utf8 (data raw)) then Err Unreadable
        else
          match parse_meta (data raw) with
          | None => Err Unparsable
          | Some m =>
              if beq (vmstate_b3 m) [] || beq (memfile_b3 m) [] then Err Predates
              else if negb (file_len state =? vmstate_bytes m)%N then Err VmstateLength
              else if negb (beq (b3 (data state)) (vmstate_b3 m)) then Err VmstateDigest
              else if negb (file_len mem =? memfile_bytes m)%N then Err MemfileLength
              else
                match level with
                | Full => if negb (beq (b3 (data mem)) (memfile_b3 m)) then Err MemfileDigest else Ok m
                | Fast => if negb (mtime_ns mem =? memfile_mtime_ns m)%N then Err MemfileTouched else Ok m
                end
          end
    | _, _, _ => Err Unreadable
    end.

Definition is_usable (d : Dir) : bool := is_ok (verify d Fast).
End verify.

(** [ISOPOD_VERIFY_SNAPSHOT] *)
Definition hot_path_integrity (env : option bytes) : Integrity :=
  match env with Some v => if beq v (B "1") then Full else Fast | None => Fast end.

(** ** Publishing *)

Section publish.
Context (sha256 b3 : bytes -> bytes) (parse_meta : bytes -> option SnapshotMeta) (print_meta : SnapshotMeta -> bytes).

(** What [write_meta] writes, of the files as its reads find them: [len_of], [digested] and [stated] are
    the directory when the state file's length is read, when the two are digested and when the memory
    file is looked at; a file that cannot be read ends it. *)
Definition meta_of (k : SnapshotKey) (now : N) (len_of digested stated : Dir) : option SnapshotMeta :=
  match regular (vmstate digested), regular (memfile digested), regular (memfile stated) with
  | Some state, Some mem, Some mem' =>
      Some (MkMeta k (keyhash sha256 k) (summary k) now
        (match regular (vmstate len_of) with Some f => file_len f | None => 0 end) (file_len mem')
        (b3 (data state)) (b3 (data mem)) (mtime_ns mem'))
  | _, _, _ => None
  end.

Definition set_vmstate (f : File) (d : Dir) : Dir := MkDir (Regular f) (memfile d) (meta d).
Definition set_memfile (f : File) (d : Dir) : Dir := MkDir (vmstate d) (Regular f) (meta d).
Definition set_meta (f : File) (d : Dir) : Dir := MkDir (vmstate d) (memfile d) (Regular f).

(** The end of [write_meta]: the text, renamed over the old one. *)
Definition put_meta (m : SnapshotMeta) (written : N) (d : Dir) : Dir := set_meta (MkFile (print_meta m ++ nl) written) d.
End publish.

(** ** The build lock *)

(** Where a run is in [ensure]: a builder has dumped its files and has yet to rename the state file, then
    the memory file, then to write the metadata. *)
Inductive Pc : Type :=
  | Arrived
  | Waiting
  | Rechecking
  | RenamingState
  | RenamingMemory
  | WritingMeta
  | Reused
  | Built
  | TimedOut
  | Broke.

Definition holds_lock (c : Pc) : bool :=
  match c with Rechecking | RenamingState | RenamingMemory | WritingMeta => true | _ => false end.

Record World : Type := MkWorld { dir : Dir; holder : option nat; pcs : nat -> Pc }.

Section ensure.
Context (sha256 b3 : bytes -> bytes) (parse_meta : bytes -> option SnapshotMeta) (print_meta : SnapshotMeta -> bytes).
(** The key all the runs want, what each run's builder would dump, and its clock. *)
Context (k : SnapshotKey) (product : nat -> File * File) (clock : nat -> N).

Abbreviation usable d := (is_usable b3 parse_meta d).
Definition upd (f : nat -> Pc) (p : nat) (c : Pc) : nat -> Pc := fun q => if decide (q = p) then c else f q.
Definition at_pc (p : nat) (c : Pc) (w : World) : World := MkWorld (dir w) (holder w) (upd (pcs w) p c).

(** One move of run [p]; [late] is what its clock says when it looks, [ok] whether what it does works
    out.  A run that ends lets the lock go, and so does one that dies. *)
Definition release (p : nat) (c : Pc) (w : World) : World := MkWorld (dir w) None (upd (pcs w) p c).

(** A try for the lock, then the looks at the files and at the clock; [Ok (Some w)] is the world with the
    lock taken, or as it was while the run goes on waiting. *)
Definition acquire_build_lock (p : nat) (late ok : bool) (w : World) : result (option World) unit :=
  if negb ok then Err tt
  else
    match holder w with
    | None => Ok (Some (MkWorld (dir w) (Some p) (upd (pcs w) p Rechecking)))
    | Some _ => if is_complete (dir w) || late then Ok None else Ok (Some w)
    end.

Definition ensure_step (p : nat) (late ok : bool) (w : World) : World :=
  match pcs w p with
  | Arrived => if usable (dir w) then at_pc p Reused w else if ok then at_pc p Waiting w else at_pc p Broke w
  | Waiting =>
      match acquire_build_lock p late ok w with
      | Err tt => at_pc p Broke w
      | Ok (Some w) => w
      | Ok None => if usable (dir w) then at_pc p Reused w else at_pc p TimedOut w
      end
  | Rechecking => if usable (dir w) then release p Reused w else if ok then at_pc p RenamingState w else release p Broke w
  | RenamingState =>
      if ok then MkWorld (set_vmstate (fst (product p)) (dir w)) (holder w) (upd (pcs w) p RenamingMemory) else release p Broke w
  | RenamingMemory =>
      if ok then MkWorld (set_memfile (snd (product p)) (dir w)) (holder w) (upd (pcs w) p WritingMeta) else release p Broke w
  | WritingMeta =>
      match (if ok then meta_of sha256 b3 k (clock p) (dir w) (dir w) (dir w) else None) with
      | Some m => release p Built (MkWorld (put_meta print_meta m (clock p) (dir w)) (holder w) (pcs w))
      | None => release p Broke w
      end
  | _ => w
  end.

(** A move of a run, or its death at any moment. *)
Inductive Move : Type := Turn (p : nat) (late ok : bool) | Dies (p : nat).

Definition move (m : Move) (w : World) : World :=
  match m with
  | Turn p late ok => ensure_step p late ok w
  | Dies p =>
      match pcs w p with
      | Reused | Built | TimedOut | Broke => w
      | c => if holds_lock c then release p Broke w else at_pc p Broke w
      end
  end.

Definition moves (ms : list Move) (w : World) : World := fold_left (fun w m => move m w) ms w.
End ensure.

(** ** What a verified snapshot is *)

Section verified.
Context (b3 : bytes -> bytes) (parse_meta : bytes -> option SnapshotMeta).

Lemma beq_nil s : beq s [] = false <-> s <> [].
Proof. rewrite <- not_true_iff_false. by rewrite beq_true. Qed.

Lemma beq_self s : beq s s = true.
Proof. by apply beq_true. Qed.

Lemma verify_iff d level m :
  verify b3 parse_meta d level = Ok m <->
  exists state mem raw, d = MkDir (Regular state) (Regular mem) (Regular raw) /\
    is_utf8 (data raw) = true /\ parse_meta (data raw) = Some m /\ vmstate_b3 m <> [] /\ memfile_b3 m <> [] /\
    vmstate_bytes m = file_len state /\ vmstate_b3 m = b3 (data state) /\ memfile_bytes m = file_len mem /\
    match level with Full => memfile_b3 m = b3 (data mem) | Fast => memfile_mtime_ns m = mtime_ns mem end.
Proof.
  unfold verify, is_complete. destruct d as [[| |state] [| |mem] [| |raw]]; cbn [vmstate memfile meta is_regular negb andb];
    try (split; [done|by intros (? & ? & ? & [=] & _)]).
  split.
  - destruct (is_utf8 (data raw)) eqn:Eu; [|done]. cbn [negb]. destruct (parse_meta (data raw)) as [m'|] eqn:Ep; [|done].
    destruct (beq (vmstate_b3 m') []) eqn:E1; [done|]. destruct (beq (memfile_b3 m') []) eqn:E2; [done|]. cbn [orb].
    destruct (N.eqb_spec (file_len state) (vmstate_bytes m')); [|done]. destruct (beq (b3 (data state)) _) eqn:E3; [|done].
    destruct (N.eqb_spec (file_len mem) (memfile_bytes m')); [|done]. apply beq_true in E3.
    apply beq_nil in E1, E2. destruct level; cbn [negb].
    + destruct (N.eqb_spec (mtime_ns mem) (memfile_mtime_ns m')); [|done]. intros [= ->]. exists state, mem, raw. by split_and!.
    + destruct (beq (b3 (data mem)) _) eqn:E4; [|done]. apply beq_true in E4. intros [= ->]. exists state, mem, raw. by split_and!.
  - intros (state' & mem' & raw' & [= <- <- <-] & -> & -> & H1%beq_nil & H2%beq_nil & H3 & H4 & H5 & H6). cbn [negb].
    rewrite H1, H2, H3, H4, H5, !N.eqb_refl, beq_self. cbn [orb negb]. destruct level; rewrite H6; [by rewrite N.eqb_refl|by rewrite beq_self].
Qed.

(** What a check that passes has established: the three files are there, the metadata parses, and it
    is the metadata of exactly these files — the state file's length and digest at either level, the
    memory file's length, and its digest when the check is full, its modification time when it is
    fast.  A snapshot without digests never passes. *)
Theorem verify_spec d level m :
  verify b3 parse_meta d level = Ok m <->
  exists state mem raw, d = MkDir (Regular state) (Regular mem) (Regular raw) /\
    is_utf8 (data raw) = true /\ parse_meta (data raw) = Some m /\ vmstate_b3 m <> [] /\ memfile_b3 m <> [] /\
    vmstate_bytes m = file_len state /\ vmstate_b3 m = b3 (data state) /\ memfile_bytes m = file_len mem /\
    match level with Full => memfile_b3 m = b3 (data mem) | Fast => memfile_mtime_ns m = mtime_ns mem end.
Proof. apply verify_iff. Qed.

(** Captured by one build: the metadata records the digests of a state file and a memory file that were
    dumped together. *)
Definition recorded (captured : bytes -> bytes -> Prop) (m : SnapshotMeta) : Prop :=
  exists state mem, captured state mem /\ vmstate_b3 m = b3 state /\ memfile_b3 m = b3 mem.

Lemma full_pairs (captured : bytes -> bytes -> Prop) d m :
  (forall x y, b3 x = b3 y -> x = y) ->
  (forall raw m, meta d = Regular raw -> parse_meta (data raw) = Some m -> recorded captured m) ->
  verify b3 parse_meta d Full = Ok m ->
  exists state mem, vmstate d = Regular state /\ memfile d = Regular mem /\ captured (data state) (data mem).
Proof.
  intros Hinj Hrec Hv. apply verify_iff in Hv as (state & mem & raw & -> & _ & Hp & _ & _ & _ & Hs & _ & Hm).
  destruct (Hrec raw m eq_refl Hp) as (s & me & Hc & Es & Em). exists state, mem. split; [done|]. split; [done|].
  rewrite (Hinj (data state) s), (Hinj (data mem) me) by congruence. done.
Qed.

(** No mixture passes the full check.  Whatever stands in the directory — the leftovers of a build that
    died between two of its renames included — if its metadata is one that a build wrote and the full
    check passes, then, the digest having no collisions, the state and the memory it is resumed from
    were dumped together. *)
Theorem full_check_pairs (captured : bytes -> bytes -> Prop) d m :
  (forall x y, b3 x = b3 y -> x = y) ->
  (forall raw m, meta d = Regular raw -> parse_meta (data raw) = Some m -> recorded captured m) ->
  verify b3 parse_meta d Full = Ok m ->
  exists state mem, vmstate d = Regular state /\ memfile d = Regular mem /\ captured (data state) (data mem).
Proof. apply full_pairs. Qed.
End verified.

(** ** Runs that want the same snapshot *)

Section runs.
Context (sha256 b3 : bytes -> bytes) (parse_meta : bytes -> option SnapshotMeta) (print_meta : SnapshotMeta -> bytes).
Context (k : SnapshotKey) (product : nat -> File * File) (clock : nat -> N).
(** serde reads what it wrote, and a digest is not empty. *)
Hypothesis (json_roundtrip : forall m, parse_meta (print_meta m ++ nl) = Some m /\ is_utf8 (print_meta m ++ nl) = true).
Hypothesis (digest_ne : forall x, b3 x <> []).

Abbreviation usable := (is_usable b3 parse_meta).
Abbreviation move := (move sha256 b3 parse_meta print_meta k product clock).
Abbreviation moves := (moves sha256 b3 parse_meta print_meta k product clock).

(** The pairs that were dumped together: those the metadata told of at the start, and the builders'. *)
Definition captured (d0 : Dir) (state mem : bytes) : Prop :=
  (exists raw m, meta d0 = Regular raw /\ parse_meta (data raw) = Some m /\ b3 state = vmstate_b3 m /\ b3 mem = memfile_b3 m) \/
  exists p, state = data (fst (product p)) /\ mem = data (snd (product p)).

Definition publishing (c : Pc) : bool := match c with RenamingState | RenamingMemory | WritingMeta => true | _ => false end.

Record sound (d0 : Dir) (w : World) : Prop := {
  lock_held p : holds_lock (pcs w p) = true <-> holder w = Some p;
  state_own p : pcs w p = RenamingMemory \/ pcs w p = WritingMeta -> vmstate (dir w) = Regular (fst (product p));
  memory_own p : pcs w p = WritingMeta -> memfile (dir w) = Regular (snd (product p));
  meta_recorded : meta (dir w) = meta d0 \/ exists raw m, meta (dir w) = Regular raw /\ parse_meta (data raw) = Some m /\ recorded b3 (captured d0) m;
  built_usable p : pcs w p = Built -> usable (dir w) = true /\ forall q, publishing (pcs w q) = false;
  built_once p q : pcs w p = Built -> pcs w q = Built -> p = q }.

Lemma upd_eq f p c : upd f p c p = c.
Proof. unfold upd. by rewrite decide_True. Qed.
Lemma upd_ne f p c q : q <> p -> upd f p c q = f q.
Proof. intros H. unfold upd. by rewrite decide_False. Qed.

(** A move that keeps the files: run [p] goes from one place to another that is not [Built]. *)
Lemma sound_pc d0 w p c h : sound d0 w ->
  h = (if holds_lock c then Some p else if holds_lock (pcs w p) then None else holder w) ->
  (holds_lock c = true -> holds_lock (pcs w p) = true \/ holder w = None) ->
  pcs w p <> Built -> c <> Built -> c <> RenamingMemory -> c <> WritingMeta ->
  (c = RenamingState -> usable (dir w) = false) ->
  sound d0 (MkWorld (dir w) h (upd (pcs w) p c)).
Proof.
  intros [L S M R U O] -> Hc Hp H1 H2 H3 H4. split; cbn [dir holder pcs].
  - intros q. destruct (decide (q = p)) as [->|Hq].
    + rewrite upd_eq. destruct (holds_lock c) eqn:Ec; [done|]. destruct (holds_lock (pcs w p)) eqn:Ep; [done|].
      split; [done|]. intros E. apply L in E. congruence.
    + rewrite upd_ne by done. rewrite L. destruct (holds_lock c) eqn:Ec.
      * destruct (Hc eq_refl) as [Hl|Hn]; [apply L in Hl; rewrite Hl|rewrite Hn]; split; congruence.
      * destruct (holds_lock (pcs w p)) eqn:Ep; [|done]. apply L in Ep. rewrite Ep. split; congruence.
  - intros q. destruct (decide (q = p)) as [->|Hq]; [rewrite upd_eq; by intros [->| ->]|]. rewrite upd_ne by done. apply S.
  - intros q. destruct (decide (q = p)) as [->|Hq]; [rewrite upd_eq; by intros ->|]. rewrite upd_ne by done. apply M.
  - done.
  - intros q. destruct (decide (q = p)) as [->|Hq]; [by rewrite upd_eq|]. rewrite upd_ne by done. intros Hb.
    destruct (U q Hb) as [Hu Hpub]. split; [done|]. intros r. destruct (decide (r = p)) as [->|Hr]; [|rewrite upd_ne by done; apply Hpub].
    rewrite upd_eq. destruct c; try done. rewrite (H4 eq_refl) in Hu. done.
  - intros q r. destruct (decide (q = p)) as [->|Hq]; [by rewrite upd_eq|]. destruct (decide (r = p)) as [->|Hr]; [by rewrite upd_eq|].
    rewrite !upd_ne by done. apply O.
Qed.

(** While a run publishes, no other does and none is done. *)
Lemma publishing_alone d0 w p q : sound d0 w -> publishing (pcs w p) = true -> (publishing (pcs w q) = true -> q = p) /\ pcs w q <> Built.
Proof.
  intros [L S M R U O] Hp.
  assert (Hh : forall r, publishing (pcs w r) = true -> holder w = Some r) by (intros r Hr; apply L; by destruct (pcs w r)).
  split; [intros Hq; apply Hh in Hp, Hq; congruence|]. intros Hb. destruct (U q Hb) as [_ Hn]. by rewrite Hn in Hp.
Qed.

Lemma sound_publish d0 w p c d : sound d0 w -> publishing (pcs w p) = true -> publishing c = true ->
  vmstate d = Regular (fst (product p)) \/ c = RenamingState ->
  memfile d = Regular (snd (product p)) \/ c <> WritingMeta ->
  meta d = meta (dir w) ->
  sound d0 (MkWorld d (holder w) (upd (pcs w) p c)).
Proof.
  intros Hw Hp Hc Hs Hm Hmeta. pose proof (fun q => publishing_alone d0 w p q Hw Hp) as Ha. destruct Hw as [L S M R U O].
  assert (Hh : holder w = Some p) by (apply L; by destruct (pcs w p)).
  assert (Hother : forall q, q <> p -> publishing (pcs w q) = false).
  { intros q Hq. destruct (publishing (pcs w q)) eqn:E; [|done]. by apply Ha in E. }
  split; cbn [dir holder pcs].
  - intros q. destruct (decide (q = p)) as [->|Hq]; [rewrite upd_eq; split; [done|by destruct c]|]. rewrite upd_ne by done. apply L.
  - intros q. destruct (decide (q = p)) as [->|Hq].
    + rewrite upd_eq. intros E. destruct Hs as [Hs| ->]; [done|by destruct E].
    + rewrite upd_ne by done. intros E. specialize (Hother q Hq). by destruct E as [E|E]; rewrite E in Hother.
  - intros q. destruct (decide (q = p)) as [->|Hq].
    + rewrite upd_eq. intros E. by destruct Hm.
    + rewrite upd_ne by done. intros E. specialize (Hother q Hq). by rewrite E in Hother.
  - by rewrite Hmeta.
  - intros q. destruct (decide (q = p)) as [->|Hq]; [rewrite upd_eq; by intros ->|]. rewrite upd_ne by done. intros Hb. by apply Ha in Hb.
  - intros q r. destruct (decide (q = p)) as [->|Hq]; [rewrite upd_eq; by intros ->|]. rewrite upd_ne by done. intros Hb. by apply Ha in Hb.
Qed.

Lemma meta_of_own d p m : vmstate d = Regular (fst (product p)) -> memfile d = Regular (snd (product p)) ->
  meta_of sha256 b3 k (clock p) d d d = Some m ->
  vmstate_bytes m = file_len (fst (product p)) /\ vmstate_b3 m = b3 (data (fst (product p))) /\
  memfile_bytes m = file_len (snd (product p)) /\ memfile_b3 m = b3 (data (snd (product p))) /\
  memfile_mtime_ns m = mtime_ns (snd (product p)).
Proof. unfold meta_of. intros -> ->. cbn [regular]. by intros [= <-]. Qed.

Lemma sound_built d0 w p m : sound d0 w -> pcs w p = WritingMeta ->
  meta_of sha256 b3 k (clock p) (dir w) (dir w) (dir w) = Some m ->
  sound d0 (release p Built (MkWorld (put_meta print_meta m (clock p) (dir w)) (holder w) (pcs w))).
Proof.
  intros Hw Hp Hm. pose proof (fun q => publishing_alone d0 w p q Hw ltac:(by rewrite Hp)) as Ha. destruct Hw as [L S M R U O].
  pose proof (S p (or_intror Hp)) as Hs. pose proof (M p Hp) as Hmem.
  destruct (meta_of_own _ _ _ Hs Hmem Hm) as (E1 & E2 & E3 & E4 & E5). destruct (json_roundtrip m) as [J1 J2].
  assert (Hother : forall q, q <> p -> publishing (pcs w q) = false /\ pcs w q <> Built).
  { intros q Hq. destruct (Ha q) as [Hx Hy]. split; [|done]. destruct (publishing (pcs w q)); [by destruct Hq; apply Hx|done]. }
  assert (Hu : usable (put_meta print_meta m (clock p) (dir w)) = true).
  { unfold is_usable. rewrite (proj2 (verify_iff b3 parse_meta _ Fast m)); [done|].
    exists (fst (product p)), (snd (product p)), (MkFile (print_meta m ++ nl) (clock p)). unfold put_meta, set_meta. rewrite Hs, Hmem.
    split_and!; try done; rewrite ?E2, ?E4; apply digest_ne. }
  unfold release. split; cbn [dir holder pcs].
  - intros q. destruct (decide (q = p)) as [->|Hq]; [rewrite upd_eq; by split|]. rewrite upd_ne by done. rewrite L.
    assert (holder w = Some p) as -> by (apply L; by rewrite Hp). split; congruence.
  - intros q. destruct (decide (q = p)) as [->|Hq]; [rewrite upd_eq; by intros [?|?]|]. rewrite upd_ne by done. apply S.
  - intros q. destruct (decide (q = p)) as [->|Hq]; [by rewrite upd_eq|]. rewrite upd_ne by done. apply M.
  - right. exists (MkFile (print_meta m ++ nl) (clock p)), m. split; [done|]. split; [done|].
    exists (data (fst (product p))), (data (snd (product p))). split; [|done]. right. by exists p.
  - intros q _. split; [done|]. intros r. destruct (decide (r = p)) as [->|Hr]; [by rewrite upd_eq|]. rewrite upd_ne by done. by apply Hother.
  - intros q r. destruct (decide (q = p)) as [->|Hq]; destruct (decide (r = p)) as [->|Hr]; rewrite ?upd_eq, ?upd_ne by done; [done|..].
    + intros _ Hb. by destruct (Hother r Hr).
    + intros Hb. by destruct (Hother q Hq).
    + apply O.
Qed.

Lemma sound_release d0 w p c : sound d0 w -> holds_lock (pcs w p) = true -> (c = Reused \/ c = Broke) -> sound d0 (release p c w).
Proof.
  intros Hw Hp Hc. apply (sound_pc d0 w p c None Hw).
  - rewrite Hp. by destruct Hc as [->| ->].
  - by destruct Hc as [->| ->].
  - by intros E; rewrite E in Hp.
  - by destruct Hc as [->| ->].
  - by destruct Hc as [->| ->].
  - by destruct Hc as [->| ->].
  - by destruct Hc as [->| ->].
Qed.

Lemma sound_at_pc d0 w p c : sound d0 w -> holds_lock (pcs w p) = false -> pcs w p <> Built -> (c = Waiting \/ c = Reused \/ c = TimedOut \/ c = Broke) ->
  sound d0 (at_pc p c w).
Proof.
  intros Hw Hp Hb Hc. apply (sound_pc d0 w p c (holder w) Hw); try done; try (by destruct Hc as [->|[->|[->| ->]]]).
  rewrite Hp. by destruct Hc as [->|[->|[->| ->]]].
Qed.

Lemma move_sound d0 w mv : sound d0 w -> sound d0 (move mv w).
Proof.
  intros Hw. destruct mv as [p late ok|p]; cbn [Snapshot.move].
  - unfold ensure_step, acquire_build_lock. destruct (pcs w p) eqn:Ep; try done.
    + destruct (usable (dir w)); [apply sound_at_pc; rewrite ?Ep; auto; done|]. destruct ok; apply sound_at_pc; rewrite ?Ep; auto; done.
    + destruct ok; cbn [negb]; [|apply sound_at_pc; rewrite ?Ep; auto; done]. destruct (holder w) as [q|] eqn:Eh.
      * destruct (is_complete (dir w) || late); [|done]. destruct (usable (dir w)); apply sound_at_pc; rewrite ?Ep; auto; done.
      * apply (sound_pc d0 w p Rechecking (Some p) Hw); try done; [by right|by rewrite Ep].
    + destruct (usable (dir w)) eqn:Eu; [apply sound_release; rewrite ?Ep; auto|]. destruct ok; [|apply sound_release; rewrite ?Ep; auto].
      apply (sound_pc d0 w p RenamingState (holder w) Hw); try done; try (by rewrite Ep).
      * cbn [holds_lock]. apply (lock_held _ _ Hw). by rewrite Ep.
      * intros _. left. by rewrite Ep.
    + destruct ok; [|apply sound_release; rewrite ?Ep; auto]. apply (sound_publish d0 w p); rewrite ?Ep; try done; [by left|by right].
    + destruct ok; [|apply sound_release; rewrite ?Ep; auto]. apply (sound_publish d0 w p); rewrite ?Ep; try done; [|by left].
      left. cbn. apply (state_own _ _ Hw). by left.
    + destruct ok; [|apply sound_release; rewrite ?Ep; auto].
      destruct (meta_of _ _ _ _ _ _ _) as [m|] eqn:Em; [by apply sound_built|apply sound_release; rewrite ?Ep; auto].
  - destruct (pcs w p) eqn:Ep; try done; cbn [holds_lock]; first [apply sound_at_pc; rewrite ?Ep; auto; done|apply sound_release; rewrite ?Ep; auto].
Qed.

(** The runs that have just come. *)
Definition fresh (d0 : Dir) : World := MkWorld d0 None (fun _ => Arrived).

Lemma fresh_sound d0 : sound d0 (fresh d0).
Proof.
  split; cbn [fresh dir holder pcs].
  - intros p. by split.
  - by intros p [?|?].
  - done.
  - by left.
  - done.
  - done.
Qed.

Lemma moves_sound d0 ms w : sound d0 w -> sound d0 (moves ms w).
Proof. revert w. induction ms as [|mv ms IH]; intros w Hw; [done|]. apply IH. by apply move_sound. Qed.

(** A run comes to reuse what is there, or to publish its own, on what it sees. *)
Lemma move_reuses w mv p : pcs w p <> Reused -> pcs (move mv w) p = Reused -> usable (dir w) = true /\ dir (move mv w) = dir w.
Proof.
  destruct mv as [q late ok|q]; cbn [Snapshot.move]; unfold ensure_step, acquire_build_lock;
    repeat (case_match; simplify_eq); try done; unfold at_pc, release, upd; cbn [dir holder pcs]; by case_decide.
Qed.

Lemma move_publishes w mv p : publishing (pcs w p) = false -> publishing (pcs (move mv w) p) = true ->
  pcs w p = Rechecking /\ usable (dir w) = false.
Proof.
  intros H1 H2. destruct mv as [q late ok|q]; cbn [Snapshot.move] in H2; unfold ensure_step, acquire_build_lock in H2;
    repeat (case_match; simplify_eq); unfold at_pc, release, upd in H2; cbn [dir holder pcs] in H2; try congruence;
    try (case_decide; subst); try congruence; try (cbn in H2; congruence); by rewrite ?H in H1.
Qed.

Lemma usable_iff d : usable d = true <-> exists state mem raw m,
  d = MkDir (Regular state) (Regular mem) (Regular raw) /\ is_utf8 (data raw) = true /\ parse_meta (data raw) = Some m /\
  vmstate_b3 m <> [] /\ memfile_b3 m <> [] /\ vmstate_bytes m = file_len state /\ vmstate_b3 m = b3 (data state) /\
  memfile_bytes m = file_len mem /\ memfile_mtime_ns m = mtime_ns mem.
Proof.
  unfold is_usable. split.
  - destruct (verify b3 parse_meta d Fast) as [m|] eqn:E; [|done]. intros _. apply verify_iff in E as (state & mem & raw & H). by exists state, mem, raw, m.
  - intros (state & mem & raw & m & H). by rewrite (proj2 (verify_iff b3 parse_meta d Fast m)) by (by exists state, mem, raw).
Qed.

(** C12: the build lock does its work.  Whatever the runs that want one snapshot do, in whatever order, and
    whichever of them die or fail at whatever point: never are two between taking the lock and letting
    it go; the files a run writes the metadata of are the two it has dumped; one run at most has built
    the snapshot, and from then on it is usable and nobody publishes; a run that comes to reuse what is
    there leaves it as it is, and it passed the check then: the three files are there and the metadata
    has the lengths of both, the digest of the state file and the time of the memory file; a run that
    begins to publish holds the lock and what was there did not pass; and what a later full check lets
    through, the digest having no collisions, is a state and a memory dumped together. *)
Theorem builds_once d0 ms : let w := moves ms (fresh d0) in
  (forall p q, holds_lock (pcs w p) = true -> holds_lock (pcs w q) = true -> p = q) /\
  (forall p, pcs w p = WritingMeta -> vmstate (dir w) = Regular (fst (product p)) /\ memfile (dir w) = Regular (snd (product p))) /\
  (forall p q, pcs w p = Built -> pcs w q = Built -> p = q) /\
  (forall p, pcs w p = Built -> usable (dir w) = true /\ forall q, publishing (pcs w q) = false) /\
  (forall mv p, pcs w p <> Reused -> pcs (move mv w) p = Reused ->
     dir (move mv w) = dir w /\ exists state mem raw m,
     dir w = MkDir (Regular state) (Regular mem) (Regular raw) /\ is_utf8 (data raw) = true /\ parse_meta (data raw) = Some m /\
     vmstate_b3 m <> [] /\ memfile_b3 m <> [] /\ vmstate_bytes m = file_len state /\ vmstate_b3 m = b3 (data state) /\
     memfile_bytes m = file_len mem /\ memfile_mtime_ns m = mtime_ns mem) /\
  (forall mv p, publishing (pcs w p) = false -> publishing (pcs (move mv w) p) = true -> holder w = Some p /\ usable (dir w) = false) /\
  ((forall x y, b3 x = b3 y -> x = y) -> (forall raw m, meta d0 = Regular raw -> parse_meta (data raw) = Some m -> recorded b3 (captured d0) m) ->
   forall m, verify b3 parse_meta (dir w) Full = Ok m ->
   exists state mem, vmstate (dir w) = Regular state /\ memfile (dir w) = Regular mem /\ captured d0 (data state) (data mem)).
Proof.
  intros w. pose proof (moves_sound d0 ms _ (fresh_sound d0)) as Hw. fold w in Hw. split_and!.
  - intros p q Hp Hq. apply (lock_held _ _ Hw) in Hp, Hq. congruence.
  - intros p Hp. split; [apply (state_own _ _ Hw); by right|by apply (memory_own _ _ Hw)].
  - apply (built_once _ _ Hw).
  - apply (built_usable _ _ Hw).
  - intros mv p H1 H2. destruct (move_reuses w mv p H1 H2) as [Hu Hd]. split; [done|]. by apply usable_iff.
  - intros mv p H1 H2. destruct (move_publishes w mv p H1 H2) as [Hp Hu]. split; [|done]. apply (lock_held _ _ Hw). by rewrite Hp.
  - intros Hinj Hrec m Hv. eapply full_pairs; [exact Hinj| |exact Hv]. intros raw m' Hraw Hp.
    destruct (meta_recorded _ _ Hw) as [E|(raw' & m2 & E & Hp2 & Hr)]; [rewrite E in Hraw; by eapply Hrec|].
    rewrite E in Hraw. injection Hraw as <-. rewrite Hp in Hp2. by injection Hp2 as <-.
Qed.
End runs.

(** ** Keys *)

Lemma items_bytes x s : x ∈ concat (map item_bytes (utf8_items s)) -> x ∈ s.
Proof.
  induction s as [s IH] using bytes_len_ind. destruct s as [|b0 r0]; [done|].
  cbn [utf8_items]. repeat case_match; subst; cbn [map concat app item_bytes];
  repeat match goal with
    | |- context [utf8_items ?r] => let Hr := fresh in pose proof (IH r ltac:(cbn [length]; lia)) as Hr; revert Hr; generalize (concat (map item_bytes (utf8_items r))); intros
    end; rewrite ?elem_of_cons in *; naive_solver.
Qed.

Lemma drop_white_in i l : i ∈ drop_white l -> i ∈ l.
Proof.
  induction l as [|j l IH]; cbn [drop_white]; [done|]. destruct j as [c raw|]; [|done].
  destruct (is_whitespace c); [|done]. intros H%IH. by right.
Qed.

Lemma trim_in x s : x ∈ trim s -> x ∈ s.
Proof.
  unfold trim. intros Hx. apply items_bytes. apply list_elem_of_In in Hx. apply list_elem_of_In.
  rewrite in_concat in *. destruct Hx as (b & Hb & Hx). exists b. split; [|done]. rewrite in_map_iff in *.
  destruct Hb as (i & <- & Hi). exists i. split; [done|]. apply list_elem_of_In, drop_white_in, list_elem_of_In.
  apply in_rev, list_elem_of_In, drop_white_in, list_elem_of_In. by apply in_rev in Hi.
Qed.

Lemma strip_cr_in x l : x ∈ strip_cr l -> x ∈ l.
Proof.
  unfold strip_cr. destruct (strip_suffix _ l) as [r|] eqn:E; [|done]. apply strip_suffix_Some in E as ->.
  intros H. apply elem_of_app. by left.
Qed.

Lemma str_lines_one s l : l ∈ str_lines s -> line_feed ∉ l.
Proof.
  pose proof (split_no_sep line_feed s) as Hf. rewrite Forall_forall in Hf. unfold str_lines. rewrite elem_of_app. intros [H|H] Hin.
  - apply list_elem_of_In, in_map_iff in H as (p & <- & Hp). apply strip_cr_in in Hin. apply list_elem_of_In in Hp. apply (Hf p); [|done].
    destruct (split line_feed s) as [|a q _] using rev_ind; [done|]. rewrite removelast_last in Hp. apply elem_of_app. by left.
  - destruct (List.last (split line_feed s) []) as [|a q] eqn:E; [by apply elem_of_nil in H|]. apply list_elem_of_singleton in H as ->.
    apply (Hf (a :: q)); [|done]. rewrite <- E. destruct (split line_feed s) as [|b r _] using rev_ind; [done|].
    rewrite last_last. apply elem_of_app. right. by left.
Qed.

Lemma detected_build_one out err b : detect_fc_build out err = Some b -> line_feed ∉ b.
Proof.
  unfold detect_fc_build. intros H. apply find_some in H as [H _]. apply in_map_iff in H as (l & <- & Hl). intros Hin.
  apply trim_in in Hin. by apply list_elem_of_In, str_lines_one in Hl.
Qed.

Lemma parsed_model_one c m : parse_cpu_model c = Some m -> line_feed ∉ m.
Proof.
  unfold parse_cpu_model. assert (Hl : Forall (fun l => line_feed ∉ l) (str_lines c)) by (apply Forall_forall; apply str_lines_one).
  induction Hl as [|l ls Hl Hls IH]; cbn [model_name]; [done|].
  destruct (strip_prefix (B "model name") l) as [rest|] eqn:E1; [|done]. apply strip_prefix_Some in E1 as ->.
  destruct (split_once ":" rest) as [[a v]|] eqn:E2; [|done]. apply split_once_Some in E2 as [-> _].
  destruct (negb (beq (trim v) [])); [|done]. intros [= <-] Hin%trim_in. apply Hl. rewrite !elem_of_app, elem_of_cons. auto.
Qed.

Definition one_line (k : SnapshotKey) : Prop :=
  line_feed ∉ fc_build k /\ line_feed ∉ kernel_id k /\ line_feed ∉ cpu_model k /\ line_feed ∉ base k /\ line_feed ∉ base_sha256 k /\ line_feed ∉ snapshot_format k.

Lemma line_inj (p a r a' r' : bytes) : line_feed ∉ a -> line_feed ∉ a' -> p ++ a ++ nl ++ r = p ++ a' ++ nl ++ r' -> a = a' /\ r = r'.
Proof.
  intros Ha Ha' E%app_inv_head. pose proof (split_once_app line_feed a r Ha) as H1. pose proof (split_once_app line_feed a' r' Ha') as H2.
  unfold nl in E. cbn [app] in E. rewrite E in H1. rewrite H1 in H2. by injection H2.
Qed.

Lemma number_one_line n : line_feed ∉ show_N n.
Proof.
  intros Hin. pose proof (show_N_digits n) as Hd. rewrite forallb_forall in Hd. apply list_elem_of_In, Hd in Hin. by vm_compute in Hin.
Qed.

Lemma hex_digit_hex n : (n < 16)%N -> Digest.is_lower_hex (hex_digit n) = true.
Proof.
  intros Hn. assert (Hc : n ∈ map N.of_nat (seq 0 16)).
  { apply list_elem_of_In, in_map_iff. exists (N.to_nat n). split; [lia|]. apply in_seq. lia. }
  revert n Hn Hc. intros n _. rewrite list_elem_of_In. intros Hc.
  assert (Hall : forallb (fun n => Digest.is_lower_hex (hex_digit n)) (map N.of_nat (seq 0 16)) = true) by (vm_compute; reflexivity).
  rewrite forallb_forall in Hall. by apply Hall.
Qed.

Lemma hex_encode_spec s : length (hex_encode s) = 2 * length s /\ Forall (fun c => Digest.is_lower_hex c = true) (hex_encode s).
Proof.
  induction s as [|c s [IH1 IH2]]; [done|]. cbn [hex_encode flat_map app length]. fold (hex_encode s). split; [lia|].
  pose proof (code_lt c). constructor; [apply hex_digit_hex; apply N.Div0.div_lt_upper_bound; lia|]. constructor; [apply hex_digit_hex, N.mod_lt; lia|done].
Qed.

(** The key.  Two shapes of one line each with the same key material are the same shape, what the host
    is asked for — Firecracker's build and the CPU's model — is one line, and the directory's name is
    sixteen lowercase hex digits. *)
Theorem key_spec (sha256 : bytes -> bytes) :
  (forall k k', one_line k -> one_line k' -> key_material k = key_material k' -> k = k') /\
  (forall out err b, detect_fc_build out err = Some b -> line_feed ∉ b) /\
  (forall c m, parse_cpu_model c = Some m -> line_feed ∉ m) /\
  ((forall s, length (sha256 s) = 32%nat) -> forall k, length (keyhash sha256 k) = 16%nat /\ Forall (fun c => Digest.is_lower_hex c = true) (keyhash sha256 k)).
Proof.
  split; [|split; [exact detected_build_one|split; [exact parsed_model_one|]]].
  - intros [a b c d e v m f] [a' b' c' d' e' v' m' f'] (H1 & H2 & H3 & H4 & H5 & H6) (K1 & K2 & K3 & K4 & K5 & K6).
    cbn [fc_build kernel_id cpu_model base base_sha256 snapshot_format] in *. unfold key_material.
    cbn [fc_build kernel_id cpu_model base base_sha256 snapshot_format vcpus mem_mib]. intros E.
    apply app_inv_head in E. apply (app_inv_head nl) in E. apply line_inj in E as [-> E]; [|done..]. apply line_inj in E as [-> E]; [|done..].
    apply line_inj in E as [-> E]; [|done..]. apply line_inj in E as [-> E]; [|done..]. apply line_inj in E as [-> E]; [|done..].
    apply line_inj in E as [Ev%show_N_inj E]; [|apply number_one_line..]. apply line_inj in E as [Em%show_N_inj E]; [|apply number_one_line..].
    assert (E2 : B "snapshot_format=" ++ f ++ nl ++ [] = B "snapshot_format=" ++ f' ++ nl ++ []) by (by rewrite !app_nil_r).
    apply line_inj in E2 as [-> _]; [|done..]. by subst.
  - intros Hs k. unfold keyhash. destruct (hex_encode_spec (take 8 (sha256 (key_material k)))) as [Hl Hh]. split; [|done].
    rewrite Hl, length_take, Hs. done.
Qed.

(** A field of two lines can stand for two fields. *)
Example key_of_two_lines :
  let k := MkKey (B "fc") (B "k" ++ nl ++ B "cpu_model=x") (B "y") (B "b") (B "s") 1 256 (B "v10") in
  let k' := MkKey (B "fc") (B "k") (B "x" ++ nl ++ B "cpu_model=y") (B "b") (B "s") 1 256 (B "v10") in
  k <> k' /\ key_material k = key_material k'.
Proof. split; [done|by vm_compute]. Qed.

(** ** The builder's boot *)

Definition builder_args (slot : Slots.Slot) : bytes :=
  BootArgs.BOOT_ARGS ++ B " isopod.upper=ram isopod.net=" ++ Slots.guest_cidr (Slots.index slot) ++
  B " isopod.gw=" ++ Slots.host_ip (Slots.index slot) ++ B " isopod.dns=" ++ BootArgs.DEFAULT_DNS.

(** What Firecracker is asked before the builder starts, its vsock apart. *)
Definition configure_builder (api : list BootArgs.Put -> BootArgs.Put -> result unit bytes) (kernel base_sqfs : bytes)
    (r : Resources.Resources) (slot : Slots.Slot) : SE (list BootArgs.Put) BootArgs.BootError unit :=
  do! _ := BootArgs.put api (B "PUT /machine-config") (BootArgs.MachineConfig (Resources.vcpus r) (Resources.mem_mib r)) in
  do! _ := BootArgs.put api (B "PUT /boot-source") (BootArgs.BootSource kernel (builder_args slot)) in
  do! _ := BootArgs.put api (B "PUT /drives/base") (BootArgs.PutDrive (BootArgs.MkDrive (B "base") base_sqfs true true)) in
  BootArgs.put api (B "PUT /network-interfaces/eth0")
    (BootArgs.PutInterface (B "eth0") (BootArgs.slot_tap slot) (Slots.guest_mac (Slots.index slot))).

Definition builder_words (slot : Slots.Slot) : list bytes :=
  BootArgs.boot_words ++
  [BootArgs.pair_word Overlay.UPPER_KEY Overlay.UPPER_RAM;
   BootArgs.pair_word (B "isopod.net") (Slots.guest_cidr (Slots.index slot));
   BootArgs.pair_word (B "isopod.gw") (Slots.host_ip (Slots.index slot));
   BootArgs.pair_word (B "isopod.dns") BootArgs.DEFAULT_DNS].

Lemma builder_args_words slot : builder_args slot = join [" "%char] (builder_words slot).
Proof.
  unfold builder_words. rewrite BootArgs.join_words by done. rewrite BootArgs.boot_words_join.
  unfold builder_args, BootArgs.pair_word. cbn [map concat]. rewrite <- ?app_assoc, ?app_nil_r. reflexivity.
Qed.

Lemma builder_words_wf slot : Forall Cmdline.word (builder_words slot).
Proof.
  destruct (BootArgs.slot_graphic (Slots.index slot)) as [Hc Hh]. unfold builder_words. apply Forall_app. split.
  - apply Forall_forall. assert (H : forallb (fun w => negb (beq w []) && forallb is_ascii_graphic w) BootArgs.boot_words = true)
      by (vm_compute; reflexivity). rewrite forallb_forall in H.
    intros w Hw. apply list_elem_of_In, H in Hw. reflect_bools. split; [|done]. intros ->. done.
  - repeat (apply Forall_cons; split); [by apply BootArgs.word_app..|constructor].
Qed.

(** The guest that is snapshotted.  Its whole shape is the base as a read-only root and the
    interface — no drive that a copy would have to share; and the guest, reading its command line
    back, puts its upper layer in memory over no stage layers, with the builder's addresses. *)
Theorem builder_shape api kernel base_sqfs r slot puts cmdline :
  configure_builder api kernel base_sqfs r slot [] = (Ok tt, puts) ->
  BootArgs.cmdline_of (builder_args slot) cmdline [] ->
  omap (fun p => match p with BootArgs.PutDrive d => Some (BootArgs.drive_id d, BootArgs.is_read_only d) | _ => None end) puts = [(B "base", true)] /\
  Overlay.parse_upper cmdline = Overlay.Ram /\ Overlay.parse_layers cmdline = None /\
  Cmdline.value cmdline (B "isopod.net") = Some (Slots.guest_cidr (Slots.index slot)) /\
  Cmdline.value cmdline (B "isopod.gw") = Some (Slots.host_ip (Slots.index slot)) /\
  Cmdline.value cmdline (B "isopod.dns") = Some BootArgs.DEFAULT_DNS.
Proof.
  intros Hc Hcmd. split.
  { unfold configure_builder in Hc.
    assert (Hs : BootArgs.sends api (configure_builder api kernel base_sqfs r slot)
      [BootArgs.MachineConfig (Resources.vcpus r) (Resources.mem_mib r); BootArgs.BootSource kernel (builder_args slot);
       BootArgs.PutDrive (BootArgs.MkDrive (B "base") base_sqfs true true);
       BootArgs.PutInterface (B "eth0") (BootArgs.slot_tap slot) (Slots.guest_mac (Slots.index slot))]).
    { apply (BootArgs.boot_sends_bind _ _ _ [_]); [apply BootArgs.sends_put|]. apply (BootArgs.boot_sends_bind _ _ _ [_]); [apply BootArgs.sends_put|].
      apply (BootArgs.boot_sends_bind _ _ _ [_]); [apply BootArgs.sends_put|]. apply BootArgs.sends_put. }
    specialize (Hs []). unfold configure_builder in Hs. rewrite Hc in Hs. by subst puts. }
  assert (Hv : forall key, starts_with (B "isopod.") key = true -> Cmdline.value cmdline key =
    Cmdline.find_value key (drop (length BootArgs.boot_words) (builder_words slot))).
  { intros key Hk. unfold Cmdline.value. rewrite Hcmd, app_nil_r, builder_args_words, split_whitespace_join by apply builder_words_wf.
    unfold builder_words. rewrite Cmdline.find_value_app, BootArgs.find_boot by done. by rewrite drop_app_length. }
  unfold Overlay.parse_upper, Overlay.parse_layers. rewrite !Hv by done. unfold builder_words. rewrite drop_app_length.
  unfold BootArgs.pair_word. rewrite !Cmdline.find_value_pair by (by apply contains_false). split_and!; reflexivity.
Qed.

(** ** The resume *)

Inductive FcCall : Type :=
  | Spawn (vm_id api_sock console_log : bytes)
  | LoadSnapshot (vmstate_path memfile_path iface host_dev_name vsock_uds : bytes).

Inductive ResumeError : Type := RefusingToResume (r : Refusal) | FcFailed (e : bytes) | AgentFailed (e : Agent.AgentError).

Definition default_dns_list : list bytes := List.filter (fun s => negb (beq s [])) (split "," BootArgs.DEFAULT_DNS).

Section resume.
Context (b3 : bytes -> bytes) (parse_meta : bytes -> option SnapshotMeta).
Context (fc : list FcCall -> FcCall -> result unit bytes).
Context (dial : list Rpc.Request -> Agent.Dial) (peer : list Rpc.Request -> Rpc.Request -> Agent.Wrote * list Agent.Event).
(** The clock's looks while the guest is waited for, the time it is given, the paths. *)
Context (late : list bool) (now_secs now_nanos : N) (vm_id vm_dir snapshot_dir : bytes).
Abbreviation R := (SE (list FcCall * Agent.Client) ResumeError).

Definition fc_call (c : FcCall) : R unit := fun '(cs, a) =>
  (map_err FcFailed (fc cs c), (cs ++ [c], a)).

Definition agent_call {A} (m : SE Agent.Client Agent.AgentError A) : R A := fun '(cs, a) =>
  let '(r, a) := m a in (map_err AgentFailed r, (cs, a)).

Definition resume (d : Dir) (env : option bytes) (slot : Slots.Slot) (broker : option BootArgs.BrokerEndpoints) : R unit :=
  do! _ := se_ret (map_err RefusingToResume (verify b3 parse_meta d (hot_path_integrity env))) in
  do! _ := fc_call (Spawn vm_id (vm_dir ++ B "/api.sock") (vm_dir ++ B "/console.log")) in
  do! _ := fc_call (LoadSnapshot (snapshot_dir ++ B "/vmstate") (snapshot_dir ++ B "/memfile") (B "eth0") (BootArgs.slot_tap slot) (vm_dir ++ B "/vsock.sock")) in
  do! _ := agent_call (Agent.wait_ready dial peer late) in
  let '(dns, broker_cfg) := match broker with
    | Some b => ([BootArgs.ep_dns b], Some (Rpc.MkBrokerConfig (BootArgs.ep_socks b) (BootArgs.ep_http b) (BootArgs.ep_inject b)))
    | None => (default_dns_list, None)
    end in
  do! _ := agent_call (Agent.configure_net dial peer (Slots.guest_cidr (Slots.index slot)) (Slots.host_ip (Slots.index slot)) dns broker_cfg) in
  agent_call (Agent.sync_clock_now dial peer now_secs now_nanos).

Lemma expect_ok_asked op c u c' : Agent.expect_ok dial peer op c = (Ok u, c') ->
  c' = Agent.asked c op /\ exists n es, peer (Agent.made c) (Rpc.MkRequest (Agent.next_id c) op) = (Agent.Written, Agent.Got (Rpc.MkResponse n Rpc.OkBody) :: es).
Proof.
  unfold Agent.expect_ok, Agent.request_one, Agent.connect, Agent.write_request, Agent.submit, se_bind, se_ret.
  destruct (dial (Agent.made c)); try done. destruct (peer _ _) as [w es] eqn:E. destruct w; try done.
  destruct es as [|[[n b]| |] es]; try done. cbn [Rpc.body]. destruct b; try done. intros [= _ <-]. split; [done|]. by exists n, es.
Qed.

(** C18: resuming.  Files the check refuses start nothing: no Firecracker, no load, no request.  A resume
    that succeeds has passed the check at the level the environment asks for, loaded these two files
    into a fresh process with the interface on the slot's tap, got a healthy pong, and only then told
    the guest its slot's addresses — a filtered run's resolver being the broker's and nobody else —
    and the time, both acknowledged. *)
Theorem resume_spec d env slot broker cs a :
  match resume d env slot broker (cs, a) with
  | (Err (RefusingToResume r), s) => verify b3 parse_meta d (hot_path_integrity env) = Err r /\ s = (cs, a)
  | (Err _, _) => True
  | (Ok _, (cs', a')) => exists m a1 dns cfg,
      verify b3 parse_meta d (hot_path_integrity env) = Ok m /\
      cs' = cs ++ [Spawn vm_id (vm_dir ++ B "/api.sock") (vm_dir ++ B "/console.log");
        LoadSnapshot (snapshot_dir ++ B "/vmstate") (snapshot_dir ++ B "/memfile") (B "eth0") (BootArgs.slot_tap slot) (vm_dir ++ B "/vsock.sock")] /\
      (exists a0 p, Agent.wait_ready dial peer late a = (Ok p, a0) /\ a1 = a0) /\
      a' = Agent.asked (Agent.asked a1 (Rpc.ConfigureNet (Slots.guest_cidr (Slots.index slot)) (Slots.host_ip (Slots.index slot)) dns cfg)) (Rpc.SyncClock now_secs now_nanos) /\
      match broker with
      | Some b => dns = [BootArgs.ep_dns b] /\ cfg = Some (Rpc.MkBrokerConfig (BootArgs.ep_socks b) (BootArgs.ep_http b) (BootArgs.ep_inject b))
      | None => dns = [B "1.1.1.1"; B "8.8.8.8"] /\ cfg = None
      end
  end.
Proof.
  unfold resume, se_bind, se_ret. destruct (verify b3 parse_meta d (hot_path_integrity env)) as [m|r]; cbn [map_err]; [|done].
  unfold fc_call. destruct (fc cs _) as [u1|e1]; cbn [map_err]; [|done]. destruct (fc (cs ++ _) _) as [u2|e2]; cbn [map_err]; [|done].
  unfold agent_call at 1. destruct (Agent.wait_ready dial peer late a) as [[p|e] a1] eqn:Ew; cbn [map_err]; [|done].
  destruct broker as [b|]; unfold agent_call, Agent.configure_net, Agent.sync_clock_now; cbn [fst snd];
    (destruct (Agent.expect_ok dial peer _ a1) as [[u3|e3] a2] eqn:E3; cbn [map_err]; [|done]);
    (destruct (Agent.expect_ok dial peer _ a2) as [[u4|e4] a3] eqn:E4; cbn [map_err]; [|done]);
    apply expect_ok_asked in E3 as [-> _]; apply expect_ok_asked in E4 as [-> _];
    eexists m, a1, _, _; (split; [done|]); (split; [by rewrite <- app_assoc|]); (split; [by eexists _, _|]); (split; [reflexivity|]); done.
Qed.
End resume.

(** ** The store *)

(** An entry of the snapshots directory: its name, and for a directory the text of its metadata. *)
Inductive Entry : Type := NotDirectory | Directory (meta_text : option bytes).

Inductive RemoveError : Type := NoMatch | Ambiguous (hashes : list bytes) | CannotRemove.

Section store.
Context (parse_meta : bytes -> option SnapshotMeta).

Definition entry_meta (e : bytes * Entry) : option SnapshotMeta :=
  match snd e with Directory (Some text) => if is_utf8 text then parse_meta text else None | _ => None end.

Definition list_ (entries : list (bytes * Entry)) : list SnapshotMeta := Order.newest_first created_unix (omap entry_meta entries).

(** [dir.join(name)], as text. *)
Definition join_path (dir name : bytes) : bytes := if starts_with (B "/") name then name else dir ++ B "/" ++ name.

(** The paths it removes, beside its result. *)
Definition remove (dir : bytes) (entries : list (bytes * Entry)) (remove_dir_all : bytes -> bool) (keyhash : bytes) :
    result SnapshotMeta RemoveError * list bytes :=
  match List.filter (fun m => beq (meta_keyhash m) keyhash || starts_with keyhash (meta_keyhash m)) (list_ entries) with
  | [] => (Err NoMatch, [])
  | [one] =>
      let target := join_path dir (meta_keyhash one) in
      (if remove_dir_all target then Ok one else Err CannotRemove, [target])
  | many => (Err (Ambiguous (map meta_keyhash many)), [])
  end.

Fixpoint remove_each (dir : bytes) (names : list bytes) (remove_dir_all : bytes -> bool) : result (list bytes) RemoveError * list bytes :=
  match names with
  | [] => (Ok [], [])
  | n :: names =>
      let target := dir ++ B "/" ++ n in
      if remove_dir_all target then
        let '(r, ts) := remove_each dir names remove_dir_all in (let? l := r in Ok (from_utf8_lossy n :: l), target :: ts)
      else (Err CannotRemove, [target])
  end.

Definition remove_all (dir : bytes) (entries : list (bytes * Entry)) (remove_dir_all : bytes -> bool) : result (list bytes) RemoveError * list bytes :=
  let dirs := omap (fun e => match snd e with Directory _ => Some (fst e) | NotDirectory => None end) entries in
  let '(r, ts) := remove_each dir dirs remove_dir_all in (let? l := r in Ok (Order.sort_bytes l), ts).

(** What a build leaves: each directory's metadata names the directory. *)
Definition named (entries : list (bytes * Entry)) : Prop :=
  forall n t m, (n, Directory (Some t)) ∈ entries -> is_utf8 t = true -> parse_meta t = Some m -> meta_keyhash m = n /\ ~ starts_with (B "/") n = true.

(** Removing by a prefix.  In a store whose metadata name their own directories, at most one thing is
    removed, it is a directory of the store whose name starts with what was asked for, and no other
    snapshot's does; an ambiguous or unknown prefix removes nothing. *)
Theorem remove_one dir entries rm keyhash : named entries ->
  match remove dir entries rm keyhash with
  | (Ok m, ts) => exists t, (meta_keyhash m, Directory (Some t)) ∈ entries /\ starts_with keyhash (meta_keyhash m) = true /\
      ts = [dir ++ B "/" ++ meta_keyhash m] /\
      forall m', m' ∈ list_ entries -> starts_with keyhash (meta_keyhash m') = true -> m' = m
  | (Err CannotRemove, ts) => exists n e, (n, e) ∈ entries /\ ts = [dir ++ B "/" ++ n]
  | (Err _, ts) => ts = []
  end.
Proof.
  intros Hn. unfold remove.
  assert (Hin : forall m, m ∈ List.filter (fun m => beq (meta_keyhash m) keyhash || starts_with keyhash (meta_keyhash m)) (list_ entries) ->
    (exists t, (meta_keyhash m, Directory (Some t)) ∈ entries) /\ starts_with keyhash (meta_keyhash m) = true /\ starts_with (B "/") (meta_keyhash m) = false).
  { intros m Hm. apply list_elem_of_In, filter_In in Hm as [Hm Hs]. apply list_elem_of_In in Hm. unfold list_ in Hm. rewrite Order.newest_first_in in Hm.
    apply list_elem_of_omap in Hm as ([n e] & He & Hem). unfold entry_meta in Hem. cbn [snd] in Hem. destruct e as [|[t|]]; try done.
    destruct (is_utf8 t) eqn:Eu; [|done]. destruct (Hn n t m He Eu Hem) as [<- Hna]. split; [by exists t|]. split.
    - apply orb_true_iff in Hs as [->%beq_true|Hs]; [|done]. apply starts_with_true. exists []. by rewrite app_nil_r.
    - by apply not_true_iff_false. }
  destruct (List.filter _ (list_ entries)) as [|one [|two rest]] eqn:Ef; [done| |done].
  destruct (Hin one ltac:(by left)) as ((t & He) & Hs & Hna). unfold join_path. rewrite Hna. destruct (rm _).
  - exists t. split_and!; try done. intros m' Hm' Hs'.
    assert (Hf : m' ∈ [one]).
    { rewrite <- Ef. apply list_elem_of_In, filter_In. split; [by apply list_elem_of_In|]. rewrite Hs'. by rewrite orb_true_r. }
    by apply list_elem_of_singleton in Hf.
  - by eexists _, _.
Qed.
End store.

(** ** Concrete snapshots *)

Definition demo_key : SnapshotKey := MkKey (B "Firecracker v1.16.1") (B "vmlinux:9") (B "CPU") (B "base-sqfs") (B "unstamped") 2 512 SNAPSHOT_FORMAT.
Definition demo_b3 (s : bytes) : bytes := B "b3" ++ s.
Definition demo_sha (s : bytes) : bytes := take 32 (s ++ repeat "0"%char 32).
Definition state1 : File := MkFile (B "regs") 5.
Definition memory1 : File := MkFile (B "ram1") 6.
Definition memory2 : File := MkFile (B "ram2") 7.
Definition meta_text : File := MkFile (B "{}") 8.

Definition demo_meta (m : option SnapshotMeta) : bytes -> option SnapshotMeta := fun _ => m.
Definition dumped (mem : File) : Dir := MkDir (Regular state1) (Regular mem) (Regular meta_text).

(** A write to the memory file after it was digested and before its time was read: the recorded time is that
    of the new bytes, and the check of the hot path does not see them. *)
Example touched_while_digested :
  let m := meta_of demo_sha demo_b3 demo_key 1 (dumped memory1) (dumped memory1) (dumped memory2) in
  is_ok (verify demo_b3 (demo_meta m) (dumped memory2) Fast) = true /\
  verify demo_b3 (demo_meta m) (dumped memory2) Full = Err MemfileDigest.
Proof. by vm_compute. Qed.

(** A snapshot from before the digests: while run 0 rebuilds it, run 1 does not wait at all. *)
Definition predating : SnapshotMeta := MkMeta demo_key (B "k") (B "s") 0 4 4 [] [] 0.
Example rebuild_not_awaited :
  let w := moves demo_sha demo_b3 (demo_meta (Some predating)) (fun _ => B "{}") demo_key (fun _ => (state1, memory1)) (fun _ => 9%N)
    [Turn 0 false true; Turn 0 false true; Turn 0 false true; Turn 1 false true; Turn 1 false true] (fresh (dumped memory1)) in
  pcs w 0%nat = RenamingState /\ pcs w 1%nat = TimedOut.
Proof. by vm_compute. Qed.

(** The name a removal joins to the store's path is the one in the file. *)
Example removed_elsewhere :
  let m := MkMeta demo_key (B "../vms") (B "s") 0 4 4 (B "x") (B "y") 0 in
  snd (remove (demo_meta (Some m)) (B "/home/u/.isopod/snapshots") [(B "0011223344556677", Directory (Some (B "{}")))] (fun _ => true) (B ".."))
    = [B "/home/u/.isopod/snapshots/../vms"].
Proof. by vm_compute. Qed.

Lemma verify_spec_witness : exists state mem raw, dumped memory1 = MkDir (Regular state) (Regular mem) (Regular raw).
Proof.
  pose (m := MkMeta demo_key (B "k") (B "s") 0 4 4 (B "b3regs") (B "b3ram1") 6).
  destruct (proj1 (verify_spec demo_b3 (demo_meta (Some m)) (dumped memory1) Full m) eq_refl) as (state & mem & raw & E & _).
  by exists state, mem, raw.
Defined.

(** Metadata as a number. *)
Definition tuple_of (m : SnapshotMeta) :=
  (fc_build (key m), kernel_id (key m), cpu_model (key m), base (key m), base_sha256 (key m), vcpus (key m), mem_mib (key m), snapshot_format (key m),
   (meta_keyhash m, meta_summary m, created_unix m, vmstate_bytes m, memfile_bytes m, vmstate_b3 m, memfile_b3 m, memfile_mtime_ns m)).
Definition of_tuple (t : bytes * bytes * bytes * bytes * bytes * N * N * bytes * (bytes * bytes * N * N * N * bytes * bytes * N)) : SnapshotMeta :=
  let '(a, b, c, d, e, f, g, h, (i, j, k, l, m, n, o, p)) := t in MkMeta (MkKey a b c d e f g h) i j k l m n o p.

Definition print_number (m : SnapshotMeta) : bytes := show_N (Npos (encode (tuple_of m))).
Definition parse_number (t : bytes) : option SnapshotMeta :=
  match strip_suffix nl t with
  | Some d => match value_of d with Npos p => option_map of_tuple (decode p) | _ => None end
  | None => None
  end.

Lemma number_roundtrip m : parse_number (print_number m ++ nl) = Some m /\ is_utf8 (print_number m ++ nl) = true.
Proof.
  split.
  - unfold parse_number, print_number. rewrite (proj2 (strip_suffix_Some _ _ _) eq_refl), value_of_show_N, decode_encode. by destruct m as [[] ? ? ? ? ? ? ? ?].
  - apply Dns.ascii_utf8. apply Forall_app. split; [|by repeat constructor]. apply Forall_forall. intros c Hc.
    pose proof (show_N_digits (Npos (encode (tuple_of m)))) as Hd. rewrite forallb_forall in Hd. apply list_elem_of_In, Hd in Hc.
    revert Hc. by all_bytes c.
Qed.

Lemma builds_once_witness :
  let w := moves demo_sha demo_b3 parse_number print_number demo_key (fun _ => (state1, memory1)) (fun _ => 9%N)
    [Turn 0 false true; Turn 1 false true; Turn 0 false true; Turn 1 false true] (fresh (MkDir Missing Missing Missing)) in
  (forall p q, holds_lock (pcs w p) = true -> holds_lock (pcs w q) = true -> p = q) /\ (forall p q, pcs w p = Built -> pcs w q = Built -> p = q).
Proof.
  intros w. destruct (builds_once demo_sha demo_b3 parse_number print_number demo_key (fun _ => (state1, memory1)) (fun _ => 9%N) number_roundtrip
    (fun x => ltac:(by cbn)) (MkDir Missing Missing Missing)
    [Turn 0 false true; Turn 1 false true; Turn 0 false true; Turn 1 false true]) as (H1 & _ & H3 & _). split; [exact H1|exact H3].
Defined.

Lemma full_check_pairs_witness :
  let m := MkMeta demo_key (B "k") (B "s") 0 4 4 (B "b3regs") (B "b3ram1") 6 in
  exists state mem, vmstate (dumped memory1) = Regular state /\ memfile (dumped memory1) = Regular mem /\ data state = B "regs" /\ data mem = B "ram1".
Proof.
  intros m. refine (full_check_pairs demo_b3 (demo_meta (Some m)) (fun s me => s = B "regs" /\ me = B "ram1") (dumped memory1) m _ _ eq_refl).
  - intros x y E. unfold demo_b3 in E. by injection E.
  - intros raw m' _ [= <-]. by exists (B "regs"), (B "ram1").
Defined.

Lemma key_spec_witness : length (keyhash demo_sha demo_key) = 16%nat.
Proof. refine (proj1 (proj2 (proj2 (proj2 (key_spec demo_sha))) _ demo_key)). intros s. unfold demo_sha. rewrite length_take, length_app. rewrite repeat_length. lia. Defined.

Lemma builder_shape_witness : Overlay.parse_upper (builder_args (Slots.MkSlot 3 1%positive false)) = Overlay.Ram.
Proof.
  refine (proj1 (proj2 (builder_shape (fun _ _ => Ok tt) (B "vmlinux") (B "base.sqfs") (Resources.MkResources 2 512) (Slots.MkSlot 3 1%positive false) _
    (builder_args (Slots.MkSlot 3 1%positive false)) eq_refl _))).
  unfold BootArgs.cmdline_of. by rewrite app_nil_r.
Defined.

Lemma remove_one_witness :
  let m := MkMeta demo_key (B "0011223344556677") (B "s") 0 4 4 (B "x") (B "y") 0 in
  remove (demo_meta (Some m)) (B "/s") [(B "0011223344556677", Directory (Some (B "{}")))] (fun _ => true) (B "0011") = (Ok m, [B "/s/0011223344556677"]) /\
  exists t, (meta_keyhash m, Directory (Some t)) ∈ [(B "0011223344556677", Directory (Some (B "{}")))].
Proof.
  intros m. assert (E : remove (demo_meta (Some m)) (B "/s") [(B "0011223344556677", Directory (Some (B "{}")))] (fun _ => true) (B "0011") = (Ok m, [B "/s/0011223344556677"]))
    by (vm_compute; reflexivity).
  split; [exact E|].
  pose proof (remove_one (demo_meta (Some m)) (B "/s") [(B "0011223344556677", Directory (Some (B "{}")))] (fun _ => true) (B "0011")) as Hr.
  rewrite E in Hr. destruct Hr as (t & Ht & _); [|by exists t].
  intros n t m' Hin _ [= <-]. apply list_elem_of_singleton in Hin as [= -> ->]. split; [done|]. by vm_compute.
Defined.
