(* ===== verification/Records.v ===== *)
(** * VM records ([crates/core/src/vm/registry.rs])

    The directories runs leave under [vms/]: their list, the garbage collection, the reaping of a
    Firecracker whose run is gone, and the token that says whether a run still goes.

    [/proc] is a table of processes, the store a list of directories in the order they are read;
    [serde_json]'s view of a metadata file is a parameter. *)
From stdpp Require Import sorting.
From S2P Require Import Prelude Text.
From S2P Require HostIo Order GuestNet.

(** ** Processes *)

(** What [/proc/<pid>] shows: [stat] as text when it is UTF-8, and [cmdline]. *)
Record Process : Type := MkProcess { stat : option bytes; cmdline : option bytes }.
Abbreviation Procs := (gmap Z Process).

Definition parse_i32 : bytes -> option Z := parse_int i32_min i32_max.
Definition parse_u64 : bytes -> option N := parse_uint u64_max.

Definition pid_alive (procs : Procs) (pid : Z) : bool := (0 <? pid)%Z && match procs !! pid with Some _ => true | None => false end.

(** What follows the last [)], word 19 from zero. *)
Definition starttime_of (stat : bytes) : option N :=
  match rsplit_once ")" stat with
  | Some (_, after_comm) => match split_whitespace after_comm !! 19%nat with Some w => parse_u64 w | None => None end
  | None => None
  end.

Definition proc_starttime (procs : Procs) (pid : Z) : option N :=
  match procs !! pid with Some p => match stat p with Some s => starttime_of s | None => None end | None => None end.

Definition owner_token (procs : Procs) (pid : N) : bytes :=
  match proc_starttime procs (Z.of_N pid) with
  | Some started => show_N pid ++ B " " ++ show_N started
  | None => show_N pid
  end.

Definition owner_token_alive (procs : Procs) (token : bytes) : bool :=
  match split_whitespace token with
  | [] => false
  | p :: rest =>
      match parse_i32 p with
      | None => false
      | Some pid =>
          if negb (pid_alive procs pid) then false
          else
            match (match rest with s :: _ => parse_u64 s | [] => None end) with
            | Some recorded => bool_decide (proc_starttime procs pid = Some recorded)
            | None => true
            end
      end
  end.

(** The words of a command line, and the id after the first [--id]. *)
Definition argv_of (raw : bytes) : list bytes :=
  map from_utf8_lossy (List.filter (fun s => negb (beq s [])) (split "000" raw)).

Fixpoint after_id (args : list bytes) : option bytes :=
  match args with
  | a :: r => if beq a (B "--id") then head r else after_id r
  | [] => None
  end.

Definition firecracker_id (p : Process) : option bytes :=
  match cmdline p with
  | None => None
  | Some raw =>
      let args := argv_of raw in
      match args with
      | a :: _ =>
          if ends_with (B "firecracker") a then
            match after_id args with Some id => if starts_with (B "dev-") id then Some id else None | None => None end
          else None
      | [] => None
      end
  end.

(** [order] is the order in which [/proc] is read. *)
Definition firecracker_procs (procs : Procs) (order : list Z) : list (Z * bytes) :=
  omap (fun pid => match procs !! pid with Some p => option_map (pair pid) (firecracker_id p) | None => None end) order.

(** ** Records *)

(** A directory's files: a symbolic link and anything else that is no directory is a leaf of its own length;
    a directory that cannot be read has nothing. *)
Inductive Tree : Type := Leaf (len : N) | Node (children : list Tree).

Fixpoint weigh (fuel : nat) (stack : list (list Tree)) (total : N) : option N :=
  match fuel with
  | 0%nat => None
  | S fuel =>
      match stack with
      | [] => Some total
      | entries :: stack =>
          (* the directories among the entries are pushed as they come; the last pushed is popped first *)
          let '(stack, total) := fold_left (fun '(st, t) e => match e with Leaf n => (st, t + n)%N | Node es => (es :: st, t) end) entries (stack, total) in
          weigh fuel stack total
      end
  end.

Record MetaFields : Type := MkFields { f_created : option N; f_name : option bytes; f_flavor : option bytes }.

Record VmDir : Type := MkVmDir {
  is_dir : bool; meta_json : option bytes; owner_pid : option bytes; mtime : option N; contents : list Tree }.

Record VmRecord : Type := MkRecord { vm_id : bytes; name : bytes; flavor : bytes; created_unix : N; dir_bytes : N; live : bool }.

Definition MAX_TIMEOUT_S : N := 3600.
Definition OWNER_CLAIM_MAX_AGE_S : N := MAX_TIMEOUT_S.

Fixpoint nodes (t : Tree) : nat := match t with Leaf _ => 0 | Node es => S (list_sum (map nodes es)) end.
Definition dir_size (d : VmDir) : N := default 0%N (weigh (2 + list_sum (map nodes (contents d))) [contents d] 0).

Section registry.
Context (parse_meta : bytes -> option MetaFields) (procs : Procs) (order : list Z) (now : N).

Definition owner_alive (d : VmDir) : bool :=
  match owner_pid d with
  | None => false
  | Some token =>
      if negb (owner_token_alive procs (trim token)) then false
      else match mtime d with None => true | Some created => (now - created <? OWNER_CLAIM_MAX_AGE_S)%N end
  end.

Definition read_record (entry : bytes * VmDir) : VmRecord :=
  let d := snd entry in
  let m := match meta_json d with Some raw => default (MkFields None None None) (parse_meta raw) | None => MkFields None None None end in
  MkRecord (from_utf8_lossy (fst entry)) (default (B "?") (f_name m)) (default (B "?") (f_flavor m))
    (match f_created m with Some c => c | None => default 0%N (mtime d) end) (dir_size d) (owner_alive d).

Definition list_in (root : list (bytes * VmDir)) : list VmRecord :=
  Order.newest_first created_unix (map read_record (List.filter (fun e => is_dir (snd e)) root)).

Record GcReport : Type := MkReport { removed : list bytes; kept : nat; freed_bytes : N }.

Definition one_component (id : bytes) : bool := (length (HostIo.components id) =? 1)%nat.

(** What keeps the [i]-th record, the newest being the first. *)
Definition spared (live_vmms : list bytes) (keep_last : nat) (min_age : N) (i : nat) (rec : VmRecord) : bool :=
  let age_ok := (min_age <=? now - created_unix rec)%N in
  let is_live := live rec || existsb (beq (vm_id rec)) live_vmms in
  (i <? keep_last)%nat || negb age_ok || is_live.

(** [rm] is what [remove_dir_all] of an id's directory does. *)
Definition gc_in (root : list (bytes * VmDir)) (keep_last : nat) (min_age : N) (rm : bytes -> bool) : GcReport :=
  let live_vmms := map snd (firecracker_procs procs order) in
  snd (fold_left (fun '(i, rep) rec =>
    (S i,
     if spared live_vmms keep_last min_age i rec then MkReport (removed rep) (S (kept rep)) (freed_bytes rep)
     else if negb (one_component (vm_id rec)) then MkReport (removed rep) (S (kept rep)) (freed_bytes rep)
     else if rm (vm_id rec) then MkReport (removed rep ++ [vm_id rec]) (kept rep) (freed_bytes rep + dir_bytes rec)
     else rep)) (list_in root) (0%nat, MkReport [] 0 0)).

(** The processes killed; [owner] reads [owner.pid] under an id. *)
Definition reap_orphans (owner : bytes -> option bytes) : list Z :=
  omap (fun '(pid, id) => match owner id with
    | Some s => if owner_token_alive procs (trim s) then None else Some pid
    | None => Some pid
    end) (firecracker_procs procs order).

(** ** The garbage collection *)

Definition doomed (live_vmms : list bytes) (keep_last : nat) (min_age : N) (i : nat) (rec : VmRecord) : bool :=
  negb (spared live_vmms keep_last min_age i rec) && one_component (vm_id rec).

(** The records of [l] from place [i] on that are removed. *)
Fixpoint victims (live_vmms : list bytes) (keep_last : nat) (min_age : N) (rm : bytes -> bool) (i : nat) (l : list VmRecord) : list VmRecord :=
  match l with
  | [] => []
  | r :: l =>
      let rest := victims live_vmms keep_last min_age rm (S i) l in
      if doomed live_vmms keep_last min_age i r && rm (vm_id r) then r :: rest else rest
  end.

Fixpoint survivors (live_vmms : list bytes) (keep_last : nat) (min_age : N) (i : nat) (l : list VmRecord) : nat :=
  match l with
  | [] => 0
  | r :: l => (if doomed live_vmms keep_last min_age i r then 0 else 1) + survivors live_vmms keep_last min_age (S i) l
  end%nat.

Definition total (l : list VmRecord) : N := foldr (fun r n => dir_bytes r + n)%N 0%N l.

Lemma gc_in_victims root keep_last min_age rm :
  let live_vmms := map snd (firecracker_procs procs order) in
  let v := victims live_vmms keep_last min_age rm 0 (list_in root) in
  gc_in root keep_last min_age rm = MkReport (map vm_id v) (survivors live_vmms keep_last min_age 0 (list_in root)) (total v).
Proof.
  cbn zeta. unfold gc_in. set (lv := map snd _). generalize (list_in root) as l. intros l.
  match goal with |- snd (fold_left ?f _ _) = _ => set (step := f) end.
  assert (H : forall i rep, snd (fold_left step l (i, rep)) =
    MkReport (removed rep ++ map vm_id (victims lv keep_last min_age rm i l)) (kept rep + survivors lv keep_last min_age i l)
      (freed_bytes rep + total (victims lv keep_last min_age rm i l))).
  { induction l as [|r l IH]; intros i [re ke fr]; cbn [fold_left victims survivors total foldr map].
    - cbn. by rewrite app_nil_r, Nat.add_0_r, N.add_0_r.
    - unfold step at 2. rewrite IH. unfold doomed. destruct (spared lv keep_last min_age i r); cbn [negb andb removed kept freed_bytes];
        [f_equal; lia|]. destruct (one_component (vm_id r)); cbn [negb andb removed kept freed_bytes]; [|f_equal; lia].
      destruct (rm (vm_id r)); cbn [removed kept freed_bytes map total foldr]; [|f_equal; lia].
      rewrite <- app_assoc. f_equal. fold (total (victims lv keep_last min_age rm (S i) l)). lia. }
  rewrite H. cbn [removed kept freed_bytes]. done.
Qed.

Lemma victims_in lv keep_last min_age rm i l r :
  r ∈ victims lv keep_last min_age rm i l <-> exists j, l !! j = Some r /\ doomed lv keep_last min_age (i + j) r = true /\ rm (vm_id r) = true.
Proof.
  revert i. induction l as [|x l IH]; intros i; cbn [victims]; [rewrite elem_of_nil; split; [done|by intros (? & ? & _)]|].
  assert (Hsplit : (exists j, (x :: l) !! j = Some r /\ doomed lv keep_last min_age (i + j) r = true /\ rm (vm_id r) = true) <->
    (x = r /\ doomed lv keep_last min_age i r = true /\ rm (vm_id r) = true) \/ r ∈ victims lv keep_last min_age rm (S i) l).
  { rewrite IH. split.
    - intros ([|j] & Hj & Hd & Hr); cbn in Hj; [left|right].
      + injection Hj as ->. by rewrite Nat.add_0_r in Hd.
      + exists j. by rewrite Nat.add_succ_comm.
    - intros [(-> & Hd & Hr)|(j & Hj & Hd & Hr)]; [exists 0%nat; by rewrite Nat.add_0_r|].
      exists (S j). by rewrite <- Nat.add_succ_comm. }
  rewrite Hsplit. destruct (doomed _ _ _ _ x && rm (vm_id x)) eqn:E.
  - apply andb_true_iff in E as [Ed Er]. rewrite elem_of_cons. split; [intros [->|?]; auto|intros [(-> & _)|?]; auto].
  - split; [auto|]. intros [(-> & Hd & Hr)|?]; [|done]. by rewrite Hd, Hr in E.
Qed.

Lemma survivors_le lv keep_last min_age i l : (survivors lv keep_last min_age i l <= length l)%nat.
Proof. revert i. induction l as [|r l IH]; intros i; cbn [survivors length]; [lia|]. specialize (IH (S i)). destruct (doomed _ _ _ _ _); lia. Qed.

Lemma survivors_ge lv keep_last min_age i l : (Nat.min (keep_last - i) (length l) <= survivors lv keep_last min_age i l)%nat.
Proof.
  revert i. induction l as [|r l IH]; intros i; cbn [survivors length]; [lia|]. specialize (IH (S i)).
  unfold doomed, spared. destruct (Nat.ltb_spec i keep_last); cbn [orb negb andb]; [lia|].
  destruct (_ && _); lia.
Qed.

Lemma victims_survivors lv keep_last min_age rm i l :
  (length (victims lv keep_last min_age rm i l) + survivors lv keep_last min_age i l <= length l)%nat.
Proof.
  revert i. induction l as [|r l IH]; intros i; cbn [victims survivors length]; [lia|]. specialize (IH (S i)).
  destruct (doomed _ _ _ _ _); cbn [andb]; [|lia]. destruct (rm _); cbn [length]; lia.
Qed.

Lemma firecracker_procs_in pid id : (pid, id) ∈ firecracker_procs procs order <->
  pid ∈ order /\ exists p, procs !! pid = Some p /\ firecracker_id p = Some id.
Proof.
  unfold firecracker_procs. rewrite list_elem_of_omap. split.
  - intros (q & Hq & E). destruct (procs !! q) as [p|] eqn:Ep; [|done]. destruct (firecracker_id p) as [i|] eqn:Ei; [|done].
    injection E as <- <-. split; [done|]. by exists p.
  - intros (Hq & p & Ep & Ei). exists pid. split; [done|]. by rewrite Ep, Ei.
Qed.

Lemma reaped pid owner : pid ∈ reap_orphans owner <->
  exists id, (pid, id) ∈ firecracker_procs procs order /\ match owner id with Some s => owner_token_alive procs (trim s) = false | None => True end.
Proof.
  unfold reap_orphans. rewrite list_elem_of_omap. split.
  - intros ([q id] & Hq & E). destruct (owner id) as [s|] eqn:Eo; [destruct (owner_token_alive procs (trim s)) eqn:Ea; [done|]|]; injection E as <-;
      exists id; split; [done|by rewrite Eo|done|by rewrite Eo].
  - intros (id & Hq & Ho). exists (pid, id). split; [done|]. destruct (owner id) as [s|]; [by rewrite Ho|done].
Qed.

Lemma listed root r : r ∈ list_in root <-> exists e, e ∈ root /\ is_dir (snd e) = true /\ r = read_record e.
Proof.
  unfold list_in. rewrite Order.newest_first_in, list_elem_of_fmap. split.
  - intros (e & -> & He). apply list_elem_of_In, filter_In in He as [He Hd]. apply list_elem_of_In in He. by exists e.
  - intros (e & He & Hd & ->). exists e. split; [done|]. apply list_elem_of_In, filter_In. split; [by apply list_elem_of_In|done].
Qed.

Lemma no_vmm id : existsb (beq id) (map snd (firecracker_procs procs order)) = false <-> forall pid, (pid, id) ∉ firecracker_procs procs order.
Proof.
  rewrite existsb_false, Forall_forall. split.
  - intros H pid Hp. specialize (H id). rewrite list_elem_of_fmap in H.
    assert (E : beq id id = false) by (apply H; by exists (pid, id)). by rewrite (proj2 (beq_true id id) eq_refl) in E.
  - intros H x ([pid i] & -> & Hp)%list_elem_of_fmap. cbn [snd]. apply not_true_iff_false. intros ->%beq_true. by apply (H pid).
Qed.

Lemma doomed_true keep_last min_age i r :
  doomed (map snd (firecracker_procs procs order)) keep_last min_age i r = true <->
  one_component (vm_id r) = true /\ (keep_last <= i)%nat /\ (min_age <= now - created_unix r)%N /\ live r = false /\
  forall pid, (pid, vm_id r) ∉ firecracker_procs procs order.
Proof.
  unfold doomed, spared. rewrite andb_true_iff, negb_true_iff, !orb_false_iff, negb_false_iff, N.leb_le, Nat.ltb_ge, no_vmm. tauto.
Qed.

Lemma removed_in root keep_last min_age rm id : id ∈ removed (gc_in root keep_last min_age rm) <->
  exists i r, list_in root !! i = Some r /\ vm_id r = id /\ rm id = true /\ one_component id = true /\
    (keep_last <= i)%nat /\ (min_age <= now - created_unix r)%N /\ live r = false /\ forall pid, (pid, id) ∉ firecracker_procs procs order.
Proof.
  rewrite gc_in_victims. cbn [removed]. rewrite list_elem_of_fmap. setoid_rewrite victims_in. cbn [Nat.add]. split.
  - intros (r & -> & i & Hi & (Hd & Hk & Ha & Hl & Hv)%doomed_true & Hr). by exists i, r.
  - intros (i & r & Hi & <- & Hr & Hd & Hk & Ha & Hl & Hv). exists r. split; [done|]. exists i. split; [done|]. split; [|done]. by apply doomed_true.
Qed.

Lemma reap_after_gc root keep_last min_age rm owner :
  reap_orphans (fun id => if decide (id ∈ removed (gc_in root keep_last min_age rm)) then None else owner id) = reap_orphans owner.
Proof.
  unfold reap_orphans. assert (H : forall pid id, (pid, id) ∈ firecracker_procs procs order -> id ∉ removed (gc_in root keep_last min_age rm)).
  { intros pid id Hp (_ & _ & _ & _ & _ & _ & _ & _ & _ & Hv)%removed_in. by destruct (Hv pid). }
  revert H. induction (firecracker_procs procs order) as [|[pid id] l IH]; intros H; [done|]. cbn [omap list_omap].
  rewrite decide_False by (apply (H pid); by left). rewrite IH; [done|]. intros q i Hq. apply (H q). by right.
Qed.

Lemma list_in_sorted root i j r r' : list_in root !! i = Some r -> list_in root !! j = Some r' -> (i <= j)%nat ->
  (created_unix r' <= created_unix r)%N.
Proof.
  intros Hi Hj Hij. destruct (decide (i = j)) as [->|Hne]; [by simplify_eq|].
  assert (Hs : StronglySorted (Order.newer created_unix) (list_in root))
    by (apply Sorted_StronglySorted; [unfold Order.newer; intros ???; lia|apply Order.newest_first_sorted]).
  revert i j Hi Hj Hij Hne. induction Hs as [|x l Hs IH Hx]; intros [|i] [|j] Hi Hj Hij Hne; try done; try lia; cbn in Hi, Hj.
  - injection Hi as <-. rewrite Forall_forall in Hx. apply (Hx r'). by eapply list_elem_of_lookup_2.
  - apply (IH i j); [done|done|lia|lia].
Qed.

(** The first [k] of the list are as new as what comes after them, and other directories. *)
Lemma newest_kept root i k r : list_in root !! i = Some r -> (k <= i)%nat ->
  exists kept_ones, (kept_ones ++ [r]) ⊆+ map read_record (List.filter (fun e => is_dir (snd e)) root) /\ length kept_ones = k /\
    Forall (fun r' => (created_unix r <= created_unix r')%N) kept_ones.
Proof.
  intros Hi Hk. pose proof (lookup_lt_Some _ _ _ Hi) as Hlt. exists (take k (list_in root)). split_and!.
  - rewrite <- (Order.newest_first_perm created_unix (map read_record _)). fold (list_in root). transitivity (take k (list_in root) ++ drop k (list_in root)); [|by rewrite take_drop].
    apply submseteq_app; [done|]. apply singleton_submseteq_l.
    apply (list_elem_of_lookup_2 _ (i - k)%nat). rewrite lookup_drop. by replace (k + (i - k))%nat with i by lia.
  - rewrite length_take. lia.
  - apply Forall_forall. intros r' (m & Hm)%list_elem_of_lookup_1. apply lookup_take_Some in Hm as [Hm Hmk].
    apply (list_in_sorted root m i); [done..|lia].
Qed.

(** C22: the collection is safe.  The list it goes through has every directory of the store once, newest
    first, so that its first [keep_last] are the newest; what is removed is a directory of the store, one
    component of a path, past those (so many others are at least as new), at least [min_age] old, whose run
    is not going, and behind which there
    is no Firecracker; everything that is all this goes, and nothing else; so many stay as were to be
    kept, the freed bytes are those of the removed, and the collection makes no orphan: a reaping
    after it kills exactly what one before it would have killed. *)
Theorem gc_safe root keep_last min_age rm owner :
  let rep := gc_in root keep_last min_age rm in
  let dirs := List.filter (fun e => is_dir (snd e)) root in
  list_in root ≡ₚ map read_record dirs /\
  (forall i j r r', list_in root !! i = Some r -> list_in root !! j = Some r' -> (i <= j)%nat -> (created_unix r' <= created_unix r)%N) /\
  (forall id, id ∈ removed rep -> exists i n d, list_in root !! i = Some (read_record (n, d)) /\ (keep_last <= i)%nat /\
    (n, d) ∈ root /\ is_dir d = true /\ id = from_utf8_lossy n /\ one_component id = true /\
    owner_alive d = false /\ (min_age <= now - created_unix (read_record (n, d)))%N /\ (forall pid, (pid, id) ∉ firecracker_procs procs order) /\
    exists kept_ones, (kept_ones ++ [read_record (n, d)]) ⊆+ map read_record dirs /\ length kept_ones = keep_last /\
      Forall (fun r => (created_unix (read_record (n, d)) <= created_unix r)%N) kept_ones) /\
  (forall i r, list_in root !! i = Some r -> (i < keep_last)%nat \/ (now - created_unix r < min_age)%N \/ live r = true \/
    (exists pid, (pid, vm_id r) ∈ firecracker_procs procs order) \/ one_component (vm_id r) = false \/ rm (vm_id r) = false \/ vm_id r ∈ removed rep) /\
  (Nat.min keep_last (length (list_in root)) <= kept rep)%nat /\
  (length (removed rep) + kept rep <= length (list_in root))%nat /\
  (exists v, Forall (fun r => r ∈ list_in root) v /\ removed rep = map vm_id v /\ freed_bytes rep = total v) /\
  reap_orphans (fun id => if decide (id ∈ removed rep) then None else owner id) = reap_orphans owner.
Proof.
  cbn zeta. split_and!.
  - apply Order.newest_first_perm.
  - apply list_in_sorted.
  - intros id (i & r & Hi & <- & _ & Hc & Hk & Ha & Hl & Hv)%removed_in.
    pose proof (newest_kept root i keep_last r Hi Hk) as Hnew. pose proof Hi as ([n d] & He & Hd & ->)%list_elem_of_lookup_2%listed.
    exists i, n, d. by split_and!.
  - intros i r Hi. destruct (decide (i < keep_last)%nat); [by left|]. destruct (decide (now - created_unix r < min_age)%N); [by right; left|].
    destruct (live r) eqn:El; [by do 2 right; left|]. destruct (existsb (beq (vm_id r)) (map snd (firecracker_procs procs order))) eqn:Ev.
    { do 3 right. left. apply existsb_Exists, Exists_exists in Ev as (x & Hx & ->%beq_true). apply list_elem_of_fmap in Hx as ([pid y] & -> & Hp). by exists pid. }
    destruct (one_component (vm_id r)) eqn:Eo; [|by do 4 right; left]. destruct (rm (vm_id r)) eqn:Er; [|by do 5 right; left].
    do 6 right. apply removed_in. exists i, r. split_and!; try done; [lia|lia|]. by apply no_vmm.
  - rewrite gc_in_victims. cbn [kept]. etransitivity; [|apply survivors_ge]. lia.
  - rewrite gc_in_victims. cbn [removed kept]. rewrite length_map. apply victims_survivors.
  - rewrite gc_in_victims. cbn [removed freed_bytes]. eexists. split; [|done]. apply Forall_forall.
    intros r (i & Hi & _)%victims_in. by apply list_elem_of_lookup_2 in Hi.
  - apply reap_after_gc.
Qed.
End registry.

(** ** Who a token speaks of *)

Lemma digits_word n : show_N n <> [] /\ forallb is_ascii_graphic (show_N n) = true.
Proof.
  split; [apply show_N_ne|]. pose proof (show_N_digits n) as H. rewrite forallb_forall in *. intros c Hc. specialize (H c Hc).
  revert H. by all_bytes c.
Qed.

Lemma parse_i32_show n : (Z.of_N n <= i32_max)%Z -> parse_i32 (show_N n) = Some (Z.of_N n).
Proof.
  intros Hn. unfold parse_i32, parse_int. pose proof (show_N_digits n) as Hd. pose proof (show_N_ne n) as Hne. pose proof (value_of_show_N n) as Hv.
  destruct (show_N n) as [|c s]; [done|]. destruct (Ascii.eqb_spec c "-") as [->|_]; [discriminate Hd|].
  destruct (Ascii.eqb_spec c "+") as [->|_]; [discriminate Hd|]. cbn [forallb] in *. rewrite Hd, Hv.
  rewrite (proj2 (Z.leb_le _ _)) by (unfold i32_min; lia). by rewrite (proj2 (Z.leb_le _ _) Hn).
Qed.

(** The words of a line, with the blank before it and the line's end. *)
Lemma words_line ws : Forall (fun w => w <> [] /\ forallb is_ascii_graphic w = true) ws ->
  split_whitespace (space :: join [space] ws ++ [line_feed]) = ws.
Proof.
  unfold split_whitespace. intros Hws. change (utf8_items (space :: ?r)) with (Chr 32 [space] :: utf8_items r). rewrite words_white by done. cbn [app].
  induction Hws as [|w ws [Hne Hw] Hws IH]; [done|]. destruct ws as [|w' ws].
  - cbn [join]. rewrite words_word by done. cbn. by destruct w.
  - change (join [space] (w :: w' :: ws)) with (w ++ space :: join [space] (w' :: ws)). rewrite <- app_assoc. rewrite words_word by done.
    change (utf8_items ((space :: ?r) ++ ?t)) with (Chr 32 [space] :: utf8_items (r ++ t)).
    rewrite words_white by done. rewrite IH. by destruct w.
Qed.

Lemma starttime_read (pid comm : bytes) (fields : list bytes) (t : N) :
  Forall (fun w => w <> [] /\ forallb is_ascii_graphic w = true) fields -> Forall (fun w => (")"%char ∉ w)) fields ->
  fields !! 19%nat = Some (show_N t) -> (t <= u64_max)%N ->
  starttime_of (pid ++ B " (" ++ comm ++ B ")" ++ space :: join [space] fields ++ [line_feed]) = Some t.
Proof.
  intros Hw Hp Hf Ht. unfold starttime_of.
  rewrite (proj2 (rsplit_once_Some ")" _ (pid ++ B " (" ++ comm) (space :: join [space] fields ++ [line_feed]))).
  - rewrite words_line, Hf by done. by apply parse_show.
  - split; [by rewrite <- !app_assoc|]. rewrite elem_of_cons, elem_of_app, list_elem_of_singleton. intros [?|[H|?]]; [done| |done].
    assert (Hj : forall c ws, c <> space -> Forall (fun w => c ∉ w) ws -> c ∉ join [space] ws).
    { clear. intros c ws Hc. induction 1 as [|w ws Hw Hws IH]; [by intros ?%elem_of_nil|]. destruct ws as [|w' ws]; [done|].
      change (join [space] (w :: w' :: ws)) with (w ++ space :: join [space] (w' :: ws)). rewrite elem_of_app, elem_of_cons. intros [?|[?|?]]; done. }
    by apply (Hj ")"%char fields).
Qed.

Lemma ascii_items s : forallb (fun c => (code c <? 128)%N) s = true -> utf8_items s = map (fun c => Chr (code c) [c]) s.
Proof.
  induction s as [|c s IH]; [done|]. cbn [forallb]. intros [Hc Hs]%andb_true_iff. cbn [utf8_items map]. by rewrite Hc, IH.
Qed.

(** A line of ASCII that neither starts nor ends with a blank. *)
Lemma trim_ascii a m b : forallb (fun c => (code c <? 128)%N) (a :: m ++ [b]) = true ->
  is_ascii_graphic a = true -> is_ascii_graphic b = true -> trim (a :: m ++ [b]) = a :: m ++ [b].
Proof.
  intros Hs Ha Hb. assert (Hw : forall c, is_ascii_graphic c = true -> is_whitespace (code c) = false) by (intros c; by all_bytes c).
  unfold trim. rewrite ascii_items by done. cbn [map drop_white]. rewrite Hw by done.
  rewrite map_app. cbn [map]. change (?x :: ?l ++ [?y]) with ((x :: l) ++ [y]). rewrite rev_app_distr. cbn [rev app drop_white]. rewrite Hw by done.
  cbn [rev]. rewrite rev_app_distr, rev_involutive. cbn [rev app map]. rewrite map_app, map_map. cbn [item_bytes map concat app].
  rewrite concat_app. cbn [concat app]. f_equal. f_equal. clear. induction m as [|c m IH]; [done|]. cbn. by rewrite IH.
Qed.

Lemma token_trim a b : trim (show_N a ++ B " " ++ show_N b) = show_N a ++ B " " ++ show_N b.
Proof.
  destruct (digits_word a) as [Ha Ga], (digits_word b) as [Hb Gb].
  destruct (show_N a) as [|x l]; [done|]. destruct (exists_last Hb) as (m & y & E). rewrite E in *.
  change ((x :: l) ++ B " " ++ m ++ [y]) with (x :: l ++ B " " ++ m ++ [y]). rewrite (app_assoc (B " ")), (app_assoc l).
  rewrite forallb_app in Gb. cbn [forallb] in Ga, Gb. apply andb_true_iff in Ga as [Gx Gl], Gb as [Gm [Gy _]%andb_true_iff].
  assert (Hg : forall c, is_ascii_graphic c = true -> (code c <? 128)%N = true) by (intros c; by all_bytes c).
  assert (Hs : forall s, forallb is_ascii_graphic s = true -> forallb (fun c => (code c <? 128)%N) s = true).
  { intros s. rewrite !forallb_forall. intros H c Hc. by apply Hg, H. }
  apply trim_ascii; [|done|done]. cbn [forallb]. rewrite !forallb_app, (Hs l), (Hs m) by done. cbn [forallb]. by rewrite (Hg x), (Hg y) by done.
Qed.

Lemma owner_token_trim procs pid : trim (owner_token procs pid) = owner_token procs pid.
Proof.
  unfold owner_token. destruct (proc_starttime procs (Z.of_N pid)); [apply token_trim|]. apply GuestNet.trim_graphic, digits_word.
Qed.

(** A token is read as the pid and the start time it was made of. *)
Lemma token_alive procs procs' pid : (0 < pid)%N -> (Z.of_N pid <= i32_max)%Z ->
  owner_token_alive procs' (trim (owner_token procs pid)) =
    bool_decide (is_Some (procs' !! Z.of_N pid)) &&
    match proc_starttime procs (Z.of_N pid) with Some s => bool_decide (proc_starttime procs' (Z.of_N pid) = Some s) | None => true end.
Proof.
  intros H0 Hmax. rewrite owner_token_trim. unfold owner_token.
  assert (Ha : pid_alive procs' (Z.of_N pid) = bool_decide (is_Some (procs' !! Z.of_N pid))).
  { unfold pid_alive. rewrite (proj2 (Z.ltb_lt _ _)) by lia. destruct (procs' !! Z.of_N pid); cbn [andb]; symmetry;
      [by apply bool_decide_eq_true_2|apply bool_decide_eq_false_2; by intros [? [=]]]. }
  destruct (proc_starttime procs (Z.of_N pid)) as [s|] eqn:Es.
  - assert (Hs : (s <= u64_max)%N).
    { unfold proc_starttime, starttime_of, parse_u64 in Es. repeat case_match; try done. by eapply parse_uint_bound. }
    change (show_N pid ++ B " " ++ show_N s) with (join [space] [show_N pid; show_N s]).
    unfold owner_token_alive. rewrite split_whitespace_join by (repeat (apply Forall_cons; split); [apply digits_word..|constructor]).
    rewrite parse_i32_show, Ha by done. destruct (bool_decide (is_Some _)); cbn [negb andb]; [|done].
    unfold parse_u64. by rewrite parse_show.
  - change (show_N pid) with (join [space] [show_N pid]).
    unfold owner_token_alive. rewrite split_whitespace_join by (repeat (apply Forall_cons; split); [apply digits_word..|constructor]).
    rewrite parse_i32_show, Ha by done. by destruct (bool_decide (is_Some _)).
Qed.

(** A token is an identity.  What a process wrote into [owner.pid] reads as alive as long as that
    process is there, and as dead once it is gone or its pid is another's, born at another time; and the
    start time is read right whatever the process is called. *)
Theorem token_identity procs procs' pid s : (0 < pid)%N -> (Z.of_N pid <= i32_max)%Z ->
  proc_starttime procs (Z.of_N pid) = Some s ->
  (owner_token_alive procs' (trim (owner_token procs pid)) = true <-> proc_starttime procs' (Z.of_N pid) = Some s) /\
  (forall p0 comm fields p, procs' !! Z.of_N pid = Some p ->
    Forall (fun w => w <> [] /\ forallb is_ascii_graphic w = true) fields -> Forall (fun w => (")"%char ∉ w)) fields ->
    fields !! 19%nat = Some (show_N s) -> stat p = Some (p0 ++ B " (" ++ comm ++ B ")" ++ space :: join [space] fields ++ [line_feed]) ->
    owner_token_alive procs' (trim (owner_token procs pid)) = true).
Proof.
  intros H0 Hmax Es. rewrite token_alive, Es by done.
  assert (Hs : (s <= u64_max)%N).
  { unfold proc_starttime, starttime_of, parse_u64 in Es. repeat case_match; try done. by eapply parse_uint_bound. }
  assert (Hthere : forall t, proc_starttime procs' (Z.of_N pid) = Some t -> is_Some (procs' !! Z.of_N pid))
    by (intros t; unfold proc_starttime; by destruct (procs' !! Z.of_N pid)).
  split.
  - rewrite andb_true_iff, !bool_decide_eq_true. split; [tauto|]. intros E. split; [by eapply Hthere|done].
  - intros p0 comm fields p Hp Hw Hn Hf Hst.
    assert (E : proc_starttime procs' (Z.of_N pid) = Some s) by (unfold proc_starttime; rewrite Hp, Hst; by apply starttime_read).
    rewrite E, andb_true_iff, !bool_decide_eq_true. split; [by eapply Hthere|done].
Qed.

(** ** Sizes *)

Fixpoint size (t : Tree) : N := match t with Leaf n => n | Node es => foldr (fun e n => size e + n)%N 0%N es end.
Definition sizes (l : list Tree) : N := foldr (fun e n => size e + n)%N 0%N l.

Lemma weigh_step entries stack total :
  exists dirs sum, fold_left (fun '(st, t) e => match e with Leaf n => (st, t + n)%N | Node es => (es :: st, t) end) entries (stack, total) = (dirs ++ stack, total + sum)%N /\
    (sum + foldr (fun es n => sizes es + n) 0 dirs = sizes entries)%N /\
    (list_sum (map (fun es => S (list_sum (map nodes es))) dirs) = list_sum (map nodes entries))%nat.
Proof.
  revert stack total. induction entries as [|e entries IH]; intros stack total; cbn [fold_left].
  - exists [], 0%N. by rewrite N.add_0_r.
  - destruct e as [n|es].
    + destruct (IH stack (total + n)%N) as (dirs & sum & -> & Hs & Hn). exists dirs, (n + sum)%N. split; [f_equal; lia|]. split; [|done].
      change (sizes (Leaf n :: entries)) with (n + sizes entries)%N. lia.
    + destruct (IH (es :: stack) total) as (dirs & sum & -> & Hs & Hn). exists (dirs ++ [es]), sum. split; [by rewrite <- app_assoc|].
      change (sizes (Node es :: entries)) with (sizes es + sizes entries)%N. split.
      * rewrite foldr_app. cbn [foldr]. rewrite <- Hs. clear. induction dirs as [|d dirs IH]; cbn [foldr app]; lia.
      * rewrite map_app, list_sum_app. cbn [map nodes]. change (list_sum (?a :: ?l)) with (a + list_sum l)%nat. change (list_sum []) with 0%nat. lia.
Qed.

Lemma weigh_sizes fuel stack total : (length stack + list_sum (map (fun es => list_sum (map nodes es)) stack) < fuel)%nat ->
  weigh fuel stack total = Some (total + foldr (fun es n => sizes es + n) 0 stack)%N.
Proof.
  revert stack total. induction fuel as [|fuel IH]; intros stack total Hf; [lia|]. destruct stack as [|entries stack]; cbn [weigh]; [by rewrite N.add_0_r|].
  destruct (weigh_step entries stack total) as (dirs & sum & -> & Hs & Hn). rewrite IH.
  - f_equal. rewrite foldr_app. cbn [foldr]. rewrite <- Hs. clear. induction dirs as [|d dirs IH]; cbn [foldr]; lia.
  - cbn [length map] in Hf. change (list_sum (?a :: ?l)) with (a + list_sum l)%nat in Hf. rewrite length_app, map_app, list_sum_app.
    assert (Hd : (length dirs + list_sum (map (fun es => list_sum (map nodes es)) dirs) = list_sum (map (fun es => S (list_sum (map nodes es))) dirs))%nat).
    { clear. induction dirs as [|d dirs IH]; [done|]. cbn [length map]. change (list_sum (?a :: ?l)) with (a + list_sum l)%nat. lia. }
    lia.
Qed.

(** The walk with a stack of its own adds up every file below the directory, and always ends. *)
Theorem dir_size_spec d : dir_size d = sizes (contents d).
Proof.
  unfold dir_size. rewrite weigh_sizes; [change (0 + (sizes (contents d) + 0) = sizes (contents d))%N; lia|].
  cbn [length map]. change (list_sum [?a]) with (a + 0)%nat. lia.
Qed.

(** ** A run that goes on *)

(** What [owner.pid] holds under an id of the store. *)
Definition owner_of (root : list (bytes * VmDir)) (id : bytes) : option bytes :=
  match find (fun e => beq (fst e) id) root with Some (_, d) => owner_pid d | None => None end.

Lemma find_own (root : list (bytes * VmDir)) n d : NoDup (map fst root) -> (n, d) ∈ root -> find (fun e => beq (fst e) n) root = Some (n, d).
Proof.
  induction root as [|[m e] root IH]; cbn [map find fst]; [by intros _ ?%elem_of_nil|]. intros [Hm Hn]%NoDup_cons Hin.
  apply elem_of_cons in Hin as [[= -> ->]|Hin]; [by rewrite (proj2 (beq_true _ _) eq_refl)|].
  destruct (beq m n) eqn:E; [|by apply IH]. apply beq_true in E as ->. destruct Hm. apply list_elem_of_fmap. by exists (n, d).
Qed.

(** A run that goes on keeps what it has.  While the process that wrote a directory's [owner.pid] is
    there and the directory is less than the longest run old, no collection removes the directory,
    whatever it is asked for, and no reaping kills the Firecracker that carries its name. *)
Theorem live_run_kept parse_meta procs0 procs order now root keep_last min_age rm n d pid s :
  NoDup (map fst root) -> Forall (fun e => is_utf8 (fst e) = true) root -> (n, d) ∈ root ->
  owner_pid d = Some (owner_token procs0 pid) -> (0 < pid)%N -> (Z.of_N pid <= i32_max)%Z ->
  proc_starttime procs0 (Z.of_N pid) = Some s -> proc_starttime procs (Z.of_N pid) = Some s ->
  match mtime d with Some t => (now - t < OWNER_CLAIM_MAX_AGE_S)%N | None => True end ->
  n ∉ removed (gc_in parse_meta procs order now root keep_last min_age rm) /\
  forall q, (q, n) ∈ firecracker_procs procs order -> q ∉ reap_orphans procs order (owner_of root).
Proof.
  intros Hnd Hu Hin Ho H0 Hmax Es0 Es Ht.
  assert (Halive : owner_token_alive procs (trim (owner_token procs0 pid)) = true) by (by apply (token_identity procs0 procs pid s)).
  assert (Hlossy : forall m e, (m, e) ∈ root -> from_utf8_lossy m = m)
    by (intros m e He; rewrite Forall_forall in Hu; by apply lossy_valid, (Hu (m, e))).
  split.
  - intros (i & r & Hi & E & _ & _ & _ & _ & Hl & _)%removed_in. apply list_elem_of_lookup_2, listed in Hi as ([m e] & He & _ & ->).
    cbn [read_record vm_id live fst snd] in *. rewrite (Hlossy _ _ He) in E. subst m.
    pose proof (find_own _ _ _ Hnd Hin) as F. rewrite (find_own _ _ _ Hnd He) in F. injection F as ->.
    unfold owner_alive in Hl. rewrite Ho, Halive in Hl. cbn [negb] in Hl. destruct (mtime d); [|done]. by apply N.ltb_ge in Hl; lia.
  - intros q (Hq & p & Hp & Hid)%firecracker_procs_in (id & (_ & p' & Hp' & Hid')%firecracker_procs_in & Hr)%reaped.
    rewrite Hp in Hp'. injection Hp' as <-. rewrite Hid in Hid'. injection Hid' as <-.
    unfold owner_of in Hr. rewrite (find_own _ _ _ Hnd Hin), Ho, Halive in Hr. done.
Qed.

(** ** Concrete stores *)

Definition stat_line (comm : string) (started : N) : bytes :=
  B "1 (" ++ B comm ++ B ")" ++ space :: join [space] (repeat (B "0") 19 ++ [show_N started; B "7"]) ++ [line_feed].
Definition demo_procs : Procs :=
  {[ 41%Z := MkProcess (Some (stat_line "isopod (a) b" 900)) (Some (B "isopod"));
     43%Z := MkProcess (Some (stat_line "firecracker" 950)) (Some (B "/bin/firecracker" ++ ["000"%char] ++ B "--id" ++ ["000"%char] ++ B "dev-0000aaaa" ++ ["000"%char]));
     44%Z := MkProcess (Some (stat_line "firecracker" 960)) (Some (B "/bin/firecracker" ++ ["000"%char] ++ B "--id" ++ ["000"%char] ++ B "dev-0000bbbb" ++ ["000"%char])) ]}.
Definition demo_dir (owner : option bytes) (t : N) : VmDir := MkVmDir true None owner (Some t) [Leaf 10; Node [Leaf 5; Node []]].
Definition demo_root : list (bytes * VmDir) :=
  [(B "dev-0000aaaa", demo_dir (Some (owner_token demo_procs 41)) 9000); (B "dev-0000cccc", demo_dir None 8000); (B "dev-0000dddd", demo_dir (Some (B "41 7")) 7000)].
Definition no_fields : bytes -> option MetaFields := fun _ => None.

(** The run in flight stays, the finished and the recycled pid go; the VMM nobody owns is killed. *)
Example collected :
  gc_in no_fields demo_procs [41; 43; 44]%Z 9100 demo_root 0 60 (fun _ => true) = MkReport [B "dev-0000cccc"; B "dev-0000dddd"] 1 30 /\
  reap_orphans demo_procs [41; 43; 44]%Z (owner_of demo_root) = [44%Z].
Proof. by vm_compute. Qed.

(** Run for another state directory, the reaper does not see the owner and kills the VMM of a run that goes on. *)
Example other_home_reaped : reap_orphans demo_procs [41; 43; 44]%Z (owner_of []) = [43; 44]%Z.
Proof. by vm_compute. Qed.

Lemma live_run_kept_witness :
  B "dev-0000aaaa" ∉ removed (gc_in no_fields demo_procs [41; 43; 44]%Z 9100 demo_root 0 0 (fun _ => true)) /\
  43%Z ∉ reap_orphans demo_procs [41; 43; 44]%Z (owner_of demo_root).
Proof.
  destruct (live_run_kept no_fields demo_procs demo_procs [41; 43; 44]%Z 9100 demo_root 0 0 (fun _ => true) (B "dev-0000aaaa")
    (demo_dir (Some (owner_token demo_procs 41)) 9000) 41 900) as [H1 H2]; try (by vm_compute); try by left.
  - by apply (bool_decide_unpack _); vm_compute.
  - by repeat constructor.
  - split; [exact H1|]. apply H2. apply list_elem_of_In. vm_compute. by left.
Defined.

Lemma token_identity_witness : owner_token_alive demo_procs (trim (owner_token demo_procs 41)) = true.
Proof. by apply (token_identity demo_procs demo_procs 41 900). Defined.
