(* ===== verification/Mounts.v ===== *)
(** * Mount tables

    What mounts make of a tree of files, as mount_namespaces(7), mount(2) and mount_setattr(2) document
    it: the meaning of the calls by which the launcher of [crates/jail] builds the jail's root.  A path
    is a list of names without links. *)
From S2P Require Import Prelude Text.

Abbreviation names := (list bytes).

(** The host's file systems, and the one mounted afresh on [/proc]. *)
Inductive Fs : Type := OnHost (n : N) | Proc.
#[export] Instance Fs_eq_dec : EqDecision Fs.
Proof. solve_decision. Defined.

(** A mount: where it is, what its root is, and whether it is read-only. *)
Record Mount : Type := MkMount { point : names; fs : Fs; below : names; ro : bool }.
#[export] Instance Mount_eq_dec : EqDecision Mount.
Proof. solve_decision. Defined.

(** The mounts, the newest first: of those at or above a path the newest is the one the path is on. *)
Abbreviation Table := (list Mount).

Definition covers (p : names) (m : Mount) : bool := bool_decide (point m `prefix_of` p).
Definition top (t : Table) (p : names) : option Mount := find (covers p) t.

(** What a path shows: a place of a file system, and whether it may be written. *)
Record View : Type := MkView { v_fs : Fs; v_place : names; v_ro : bool }.
Definition view_of (m : Mount) (p : names) : View := MkView (fs m) (below m ++ drop (length (point m)) p) (ro m).
Definition seen (t : Table) (p : names) : option View := option_map (fun m => view_of m p) (top t p).

(** A recursive bind: what is at [src], and the mounts below it that can be seen. *)
Definition copy_of (src dst : names) (t : Table) (m : Mount) : option Mount :=
  if bool_decide (src `prefix_of` point m) && bool_decide (src <> point m) && bool_decide (top t (point m) = Some m)
  then Some (MkMount (dst ++ drop (length src) (point m)) (fs m) (below m) (ro m)) else None.

Definition bind (src dst : names) (t : Table) : Table :=
  match top t src with
  | Some m => omap (copy_of src dst t) t ++ MkMount dst (fs m) (below m ++ drop (length (point m)) src) (ro m) :: t
  | None => t
  end.

(** [mount_setattr] with [AT_RECURSIVE]: the mount at [dst] and the later ones below it. *)
Fixpoint read_only (dst : names) (t : Table) : Table :=
  match t with
  | [] => []
  | m :: t =>
      if bool_decide (dst `prefix_of` point m) then
        MkMount (point m) (fs m) (below m) true :: (if bool_decide (point m = dst) then t else read_only dst t)
      else m :: read_only dst t
  end.

(** A file system of its own. *)
Definition mount_fresh (f : Fs) (dst : names) (t : Table) : Table := MkMount dst f [] false :: t.

(** ** What the operations do to the view *)

Definition made_ro (v : View) : View := MkView (v_fs v) (v_place v) true.

Lemma find_app {A} (f : A -> bool) l l' : find f (l ++ l') = match find f l with Some x => Some x | None => find f l' end.
Proof. induction l as [|x l IH]; [done|]. cbn [app find]. by destruct (f x). Qed.

Lemma covers_true p m : covers p m = true <-> point m `prefix_of` p.
Proof. unfold covers. apply bool_decide_eq_true. Qed.

Lemma prefix_cut {A} (a b r : list A) : a `prefix_of` b ++ r -> a `prefix_of` b \/ exists x, a = b ++ x /\ x <> [] /\ x `prefix_of` r.
Proof.
  intros [s E]. destruct (app_eq_inv _ _ _ _ E) as [(x & -> & Hr)|(x & -> & Hr)]; [left; by exists x|].
  destruct x as [|y x]; [left; by rewrite app_nil_r|]. right. exists (y :: x). split_and!; [done|done|by exists s].
Qed.

Lemma frame_bind src dst t p : ~ dst `prefix_of` p -> top (bind src dst t) p = top t p.
Proof.
  intros Hp. unfold bind. destruct (top t src) as [m|] eqn:E; [|done]. clear E. unfold top at 1. rewrite find_app. cbn [find].
  assert (Hc : covers p (MkMount dst (fs m) (below m ++ drop (length (point m)) src) (ro m)) = false) by (by apply bool_decide_eq_false).
  rewrite Hc. destruct (find (covers p) (omap _ t)) as [x|] eqn:Ef; [|done].
  apply find_some in Ef as [Hin Hx%covers_true]. apply list_elem_of_In, list_elem_of_omap in Hin as (y & _ & Hy).
  unfold copy_of in Hy. case_match; [|done]. injection Hy as <-. cbn [point] in Hx. destruct Hp. etransitivity; [|exact Hx]. by eexists.
Qed.

Lemma seen_frame_bind src dst t p : ~ dst `prefix_of` p -> seen (bind src dst t) p = seen t p.
Proof. intros Hp. unfold seen. by rewrite frame_bind. Qed.

Lemma covers_deeper p q m : covers p m = true -> p `prefix_of` q -> covers q m = true.
Proof. rewrite !covers_true. intros ??. by etransitivity. Qed.

(** The copies show below [dst] what there is below [src]. *)
Lemma copies_find src dst t m r pre l : top t src = Some m -> t = pre ++ l -> Forall (fun x => covers (src ++ r) x = false) pre ->
  match find (covers (dst ++ r)) (omap (copy_of src dst t) l) with
  | Some y => Some (view_of y (dst ++ r))
  | None => Some (view_of (MkMount dst (fs m) (below m ++ drop (length (point m)) src) (ro m)) (dst ++ r))
  end = option_map (fun x => view_of x (src ++ r)) (find (covers (src ++ r)) l).
Proof.
  intros Htop. revert pre. induction l as [|x l IH]; intros pre Ht Hpre.
  - rewrite app_nil_r in Ht. subst pre. apply find_some in Htop as [Hin Hc]. apply list_elem_of_In in Hin.
    rewrite Forall_forall in Hpre. specialize (Hpre _ Hin). rewrite (covers_deeper src (src ++ r)) in Hpre; [done|done|by eexists].
  - assert (Hnone : forall q, q `prefix_of` src ++ r -> find (covers q) pre = None).
    { intros q Hq. destruct (find (covers q) pre) as [z|] eqn:Ez; [|done]. apply find_some in Ez as [Hin Hz]. apply list_elem_of_In in Hin.
      rewrite Forall_forall in Hpre. specialize (Hpre _ Hin). by rewrite (covers_deeper _ _ _ Hz Hq) in Hpre. }
    destruct (covers (src ++ r) x) eqn:Ex; cbn [find]; rewrite ?Ex.
    + apply covers_true in Ex as Ex'. destruct (prefix_cut _ _ _ Ex') as [Hup|(z & Hz & Hne & Hzr)].
      * (* at or above [src]: what is copied is hidden by [x] *)
        assert (Hx : m = x).
        { unfold top in Htop. rewrite Ht, find_app, Hnone in Htop by (by eexists). cbn [find] in Htop. rewrite (proj2 (covers_true _ _) Hup) in Htop. by injection Htop. }
        subst m. assert (Hno : find (covers (dst ++ r)) (omap (copy_of src dst t) (x :: l)) = None).
        { destruct (find (covers (dst ++ r)) (omap (copy_of src dst t) (x :: l))) as [y|] eqn:Ey; [exfalso|reflexivity]. apply find_some in Ey as [Hin Hy%covers_true]. apply list_elem_of_In, list_elem_of_omap in Hin as (w & _ & Hw).
          unfold copy_of in Hw. destruct (bool_decide (src `prefix_of` point w)) eqn:E1; [|done]. apply bool_decide_eq_true in E1 as [v Ev].
          destruct (bool_decide (src <> point w)) eqn:E2; [|done]. apply bool_decide_eq_true in E2.
          destruct (bool_decide (top t (point w) = Some w)) eqn:E3; [|done]. apply bool_decide_eq_true in E3. injection Hw as <-. cbn [point] in Hy.
          rewrite Ev, drop_app_length in Hy. apply prefix_app_inv in Hy.
          assert (Hwr : point w `prefix_of` src ++ r) by (rewrite Ev; by apply prefix_app).
          unfold top in E3. rewrite Ht, find_app, (Hnone _ Hwr) in E3. cbn [find] in E3.
          rewrite (proj2 (covers_true _ _)) in E3 by (etransitivity; [exact Hup|by exists v]). injection E3 as ->.
          apply E2. destruct Hup as [u Hu]. rewrite Ev in Hu. apply (f_equal length) in Hu. rewrite !length_app in Hu. destruct v; [by rewrite Ev, app_nil_r|cbn in Hu; lia]. }
        rewrite Hno. cbn [option_map]. unfold view_of. cbn [fs below ro point]. do 2 f_equal. rewrite drop_app_length.
        rewrite <- app_assoc. f_equal. destruct Hup as [u ->]. rewrite <- app_assoc, !drop_app_length. done.
      * assert (Hv : top t (point x) = Some x).
        { unfold top. rewrite Ht, find_app, Hnone by done. cbn [find]. by rewrite (proj2 (covers_true _ _)). }
        cbn [omap list_omap]. unfold copy_of at 1. rewrite (bool_decide_eq_true_2 (src `prefix_of` point x)) by (rewrite Hz; by eexists).
        rewrite (bool_decide_eq_true_2 (src <> point x)) by (rewrite Hz; intros E; apply (f_equal length) in E; rewrite length_app in E; destruct z; [done|cbn in E; lia]).
        rewrite (bool_decide_eq_true_2 (top t (point x) = Some x)) by done. cbn [andb find].
        rewrite Hz, drop_app_length. rewrite (proj2 (covers_true _ _)) by (cbn [point]; by apply prefix_app).
        unfold view_of. cbn [fs below ro point option_map]. do 2 f_equal. by rewrite Hz, !length_app, !drop_app_add.
    + assert (Hskip : find (covers (dst ++ r)) (omap (copy_of src dst t) (x :: l)) = find (covers (dst ++ r)) (omap (copy_of src dst t) l)).
      { cbn [omap list_omap]. destruct (copy_of src dst t x) as [y|] eqn:Ey; [|done]. cbn [find]. unfold copy_of in Ey.
        destruct (bool_decide (src `prefix_of` point x)) eqn:E1; [|done]. apply bool_decide_eq_true in E1 as [v Ev]. case_match; [|done]. injection Ey as <-.
        destruct (covers (dst ++ r) _) eqn:Ec; [|done]. apply covers_true in Ec. cbn [point] in Ec. rewrite Ev, drop_app_length in Ec. apply prefix_app_inv in Ec.
        rewrite (proj2 (covers_true _ _)) in Ex; [done|]. rewrite Ev. by apply prefix_app. }
      rewrite Hskip. apply (IH (pre ++ [x])); [by rewrite <- app_assoc|]. apply Forall_app. split; [done|]. by repeat constructor.
Qed.

(** Below [dst] a bind shows what there was below [src]. *)
Lemma seen_bind src dst t r : is_Some (top t src) -> seen (bind src dst t) (dst ++ r) = seen t (src ++ r).
Proof.
  intros [m Hm]. unfold seen, bind. rewrite Hm. unfold top. rewrite find_app. cbn [find].
  pose proof (copies_find src dst t m r [] t Hm eq_refl (Forall_nil_2 _)) as H. unfold top in H |- *. rewrite <- H.
  destruct (find (covers (dst ++ r)) (omap _ t)); [done|]. cbn [option_map].
  rewrite (proj2 (covers_true _ _)) by (cbn [point]; by eexists). done.
Qed.

Lemma seen_cons m t p : seen (m :: t) p = if covers p m then Some (view_of m p) else seen t p.
Proof. unfold seen, top. cbn [find]. by destruct (covers p m). Qed.

(** What was just mounted at [dst], with all there is below it, becomes read-only. *)
Lemma seen_read_only dst t r : (exists m, top t dst = Some m /\ point m = dst) ->
  seen (read_only dst t) (dst ++ r) = option_map made_ro (seen t (dst ++ r)).
Proof.
  induction t as [|x t IH]; intros (m & Hm & Hp); [done|]. cbn [read_only]. unfold top in Hm. cbn [find] in Hm.
  rewrite seen_cons. destruct (bool_decide (dst `prefix_of` point x)) eqn:Ed; rewrite seen_cons.
  - apply bool_decide_eq_true in Ed. change (covers (dst ++ r) (MkMount (point x) (fs x) (below x) true)) with (covers (dst ++ r) x).
    destruct (covers (dst ++ r) x) eqn:Ex; [done|]. assert (Hne : point x <> dst).
    { intros E. unfold covers in Ex. rewrite E, bool_decide_eq_true_2 in Ex; [done|by eexists]. }
    rewrite (bool_decide_eq_false_2 (point x = dst)) by done. apply IH. exists m. split; [|done]. destruct (covers dst x) eqn:Edx; [|done].
    apply covers_true in Edx. destruct Hne. destruct Ed as [u Eu], Edx as [v Ev]. rewrite Eu in Ev. apply (f_equal length) in Ev as El. rewrite !length_app in El.
    destruct u; [by rewrite app_nil_r in Eu|cbn in El; lia].
  - apply bool_decide_eq_false in Ed. destruct (covers dst x) eqn:Edx.
    + injection Hm as ->. by destruct Ed; rewrite Hp.
    + destruct (covers (dst ++ r) x) eqn:Ex; [|apply IH; by exists m].
      apply covers_true, prefix_cut in Ex as [Ex%covers_true|(z & Ez & _)]; [by rewrite Ex in Edx|]. destruct Ed. rewrite Ez. by eexists.
Qed.

Lemma seen_frame_read_only dst t p : ~ dst `prefix_of` p -> seen (read_only dst t) p = seen t p.
Proof.
  intros Hp. induction t as [|x t IH]; [done|]. cbn [read_only].
  destruct (bool_decide (dst `prefix_of` point x)) eqn:Ed.
  - apply bool_decide_eq_true in Ed. assert (Hc : forall b, covers p (MkMount (point x) (fs x) (below x) b) = false).
    { intros b. apply bool_decide_eq_false. cbn [point]. intros H. apply Hp. by etransitivity. }
    rewrite !seen_cons. rewrite Hc. change (covers p x) with (covers p (MkMount (point x) (fs x) (below x) true)). rewrite Hc.
    by case_bool_decide.
  - rewrite !seen_cons. by rewrite IH.
Qed.

(** A bind puts a mount at [dst]. *)
Lemma bind_top src dst t : is_Some (top t src) -> exists m, top (bind src dst t) dst = Some m /\ point m = dst.
Proof.
  intros [m Hm]. unfold bind. rewrite Hm. unfold top at 1. rewrite find_app. cbn [find].
  destruct (find (covers dst) (omap (copy_of src dst t) t)) as [y|] eqn:Ey.
  - apply find_some in Ey as [Hin Hy%covers_true]. exists y. split; [done|]. apply list_elem_of_In, list_elem_of_omap in Hin as (w & _ & Hw).
    unfold copy_of in Hw. case_match; [|done]. injection Hw as <-. cbn [point] in *. destruct Hy as [u Eu]. rewrite <- app_assoc in Eu.
    apply (f_equal length) in Eu as El. rewrite !length_app in El. destruct (drop _ _); [by rewrite app_nil_r|cbn in El; lia].
  - rewrite (proj2 (covers_true _ _)) by done. by eexists.
Qed.

(** ** The jail's root *)

(** Binds of sources to the same paths under [root], in order; the read-only ones made so at once. *)
Definition bind_one (root : names) (t : Table) (b : names * bool) : Table :=
  let t := bind (fst b) (root ++ fst b) t in if snd b then t else read_only (root ++ fst b) t.
Definition bind_all (root : names) (bs : list (names * bool)) (t : Table) : Table := fold_left (bind_one root) bs (bind root root t).

(** The last of the binds at or above a path. *)
Definition serving (bs : list (names * bool)) (p : names) : option (names * bool) :=
  fold_left (fun acc b => if bool_decide (fst b `prefix_of` p) then Some b else acc) bs None.

Lemma serving_snoc bs b p : serving (bs ++ [b]) p = if bool_decide (fst b `prefix_of` p) then Some b else serving bs p.
Proof. unfold serving. by rewrite fold_left_app. Qed.

Lemma serving_in bs p b : serving bs p = Some b -> b ∈ bs /\ fst b `prefix_of` p.
Proof.
  induction bs as [|x bs IH] using rev_ind; [done|]. rewrite serving_snoc. case_bool_decide; [intros [= <-]|]; set_solver.
Qed.

Lemma serving_split pre b post p : fst b `prefix_of` p -> Forall (fun x => ~ fst x `prefix_of` p) post -> serving (pre ++ b :: post) p = Some b.
Proof.
  intros Hb. induction post as [|x post IH] using rev_ind; intros Hp.
  - rewrite serving_snoc. by rewrite bool_decide_eq_true_2.
  - apply Forall_app in Hp as [Hp [Hx _]%Forall_cons]. rewrite app_comm_cons, app_assoc, serving_snoc, bool_decide_eq_false_2 by exact Hx. by apply IH.
Qed.

(** A path that a bind serves and no writable one does is served read-only. *)
Lemma serving_ro bs p b : b ∈ bs -> fst b `prefix_of` p -> (forall s, (s, true) ∈ bs -> ~ s `prefix_of` p) -> exists s, serving bs p = Some (s, false).
Proof.
  intros Hb Hp Hw. destruct (serving bs p) as [[s w]|] eqn:E.
  - apply serving_in in E as [Hin Hs]. destruct w; [by destruct (Hw s Hin)|by exists s].
  - exfalso. revert E Hb Hp. clear. induction bs as [|x bs IH] using rev_ind; [by intros _ ?%elem_of_nil|]. rewrite serving_snoc.
    case_bool_decide; [done|]. intros E [Hb|Hb%list_elem_of_singleton]%elem_of_app Hp; [by apply IH|by subst].
Qed.

Section jail.
Context (t0 : Table) (Hroot : exists m, m ∈ t0 /\ point m = []) (root : names).

Lemma rooted t p : (exists m, m ∈ t /\ point m = []) -> is_Some (top t p).
Proof.
  intros (m & Hm & Hp). destruct (top t p) as [x|] eqn:E; [by eexists|]. unfold top in E.
  apply list_elem_of_In in Hm. apply (find_none _ _ E) in Hm. unfold covers in Hm. rewrite Hp, bool_decide_eq_true_2 in Hm; [done|apply prefix_nil].
Qed.

Lemma bind_keeps src dst t m : m ∈ t -> m ∈ bind src dst t.
Proof. intros Hm. unfold bind. destruct (top t src); [|done]. apply elem_of_app. right. by right. Qed.

(** A mount above [dst] stays as it is. *)
Lemma read_only_keeps dst t m : m ∈ t -> ~ dst `prefix_of` point m -> m ∈ read_only dst t.
Proof.
  intros Hm Hp. induction t as [|x t IH]; [done|]. cbn [read_only]. apply elem_of_cons in Hm as [->|Hm].
  - rewrite bool_decide_eq_false_2 by done. by left.
  - case_bool_decide; [|right; by apply IH]. right. case_bool_decide; [done|by apply IH].
Qed.

Lemma bind_all_snoc bs b : bind_all root (bs ++ [b]) t0 = bind_one root (bind_all root bs t0) b.
Proof. unfold bind_all. by rewrite fold_left_app. Qed.

Hypothesis (Hne : root <> []).

Lemma bind_all_rooted bs : exists m, m ∈ bind_all root bs t0 /\ point m = [].
Proof.
  destruct Hroot as (m & Hm & Hp). exists m. split; [|done]. induction bs as [|b bs IH] using rev_ind; [by apply bind_keeps|].
  rewrite bind_all_snoc. unfold bind_one. destruct (snd b); [by apply bind_keeps|]. apply read_only_keeps; [by apply bind_keeps|].
  rewrite Hp. intros H%prefix_nil_inv. destruct root; done.
Qed.

(** Nothing outside [root] changes. *)
Lemma bind_all_outside bs p : ~ root `prefix_of` p -> seen (bind_all root bs t0) p = seen t0 p.
Proof.
  intros Hp. induction bs as [|b bs IH] using rev_ind; [by apply seen_frame_bind|]. rewrite bind_all_snoc. unfold bind_one.
  assert (Hb : ~ root ++ fst b `prefix_of` p) by (intros H; apply Hp; etransitivity; [|exact H]; by eexists).
  destruct (snd b); [by rewrite seen_frame_bind|by rewrite seen_frame_read_only, seen_frame_bind].
Qed.

Lemma bind_one_seen t b p : (exists m, m ∈ t /\ point m = []) ->
  seen (bind_one root t b) (root ++ p) =
    if bool_decide (fst b `prefix_of` p) then (if snd b then seen t p else option_map made_ro (seen t p)) else seen t (root ++ p).
Proof.
  intros Ht. unfold bind_one. case_bool_decide as Hp.
  - destruct Hp as [r ->]. rewrite app_assoc. destruct (snd b); [by rewrite seen_bind by (by apply rooted)|].
    rewrite seen_read_only by (by apply bind_top, rooted). by rewrite seen_bind by (by apply rooted).
  - assert (Hb : ~ root ++ fst b `prefix_of` root ++ p) by (intros H%prefix_app_inv; done).
    destruct (snd b); [by rewrite seen_frame_bind|by rewrite seen_frame_read_only, seen_frame_bind].
Qed.

(** What a path of the jail shows: what the host has at the same path, if it is bound, writable when
    the last bind over it is; and otherwise what the host has under the jail's own directory. *)
Lemma jail_view bs p : ~ root `prefix_of` p ->
  seen (bind_all root bs t0) (root ++ p) =
    match serving bs p with
    | Some (_, w) => if (w : bool) then seen t0 p else option_map made_ro (seen t0 p)
    | None => seen t0 (root ++ p)
    end.
Proof.
  intros Hp. induction bs as [|[s w] bs IH] using rev_ind; [unfold bind_all; cbn [fold_left]; by rewrite seen_bind by (by apply rooted)|].
  rewrite bind_all_snoc, bind_one_seen, serving_snoc by apply bind_all_rooted. cbn [fst snd]. case_bool_decide; [|done]. by rewrite bind_all_outside.
Qed.

(** Whatever a path of the jail shows, the host shows it at or below the jail's directory or a source;
    and where the jail may write, the source is a writable one and the host writes there too. *)
Lemma jail_bounds bs p v : seen (bind_all root bs t0) (root ++ p) = Some v ->
  exists b w q, (b, w) ∈ (root, true) :: bs /\ b `prefix_of` q /\
    exists u, seen t0 q = Some u /\ v_fs v = v_fs u /\ v_place v = v_place u /\ (v_ro v = false -> w = true /\ v_ro u = false).
Proof.
  revert p v. induction bs as [|[s w] bs IH] using rev_ind; intros p v.
  - unfold bind_all. cbn [fold_left]. rewrite seen_bind by (by apply rooted). intros Hv. exists root, true, (root ++ p).
    split; [by left|]. split; [by eexists|]. by exists v.
  - rewrite bind_all_snoc, bind_one_seen by apply bind_all_rooted. cbn [fst snd].
    assert (Hmore : forall p v, seen (bind_all root bs t0) (root ++ p) = Some v -> exists b w' q, (b, w') ∈ (root, true) :: bs ++ [(s, w)] /\ b `prefix_of` q /\
      exists u, seen t0 q = Some u /\ v_fs v = v_fs u /\ v_place v = v_place u /\ (v_ro v = false -> w' = true /\ v_ro u = false)).
    { intros p' v' (b & w' & q & Hb & Hq & Hu)%IH. exists b, w', q. split; [|done]. set_solver. }
    case_bool_decide as Hs; [|apply Hmore]. destruct (decide (root `prefix_of` p)) as [[r ->]|Hp].
    + destruct w; [apply Hmore|]. destruct (seen _ (root ++ r)) as [v'|] eqn:E; [|done]. intros [= <-].
      destruct (Hmore r v' E) as (b & w' & q & Hb & Hq & u & Hu & Hf & Hpl & _). exists b, w', q. split; [done|]. split; [done|]. by exists u.
    + rewrite bind_all_outside by done. exists s, w, p. split; [set_solver|]. split; [done|]. destruct w; [by exists v|].
      destruct (seen t0 p) as [u|]; [|done]. revert H. intros [= <-]. by exists u.
Qed.
End jail.
