(* ===== verification/Launcher.v ===== *)
(** * The jail launcher ([crates/jail/src/main.rs], [crates/jail/src/sys.rs])

    The program that is put before Firecracker's command line: its arguments, the calls by which it
    confines itself and then becomes Firecracker, what the confined process sees of the host's files,
    and the supervisor that stays behind. *)
From S2P Require Import Prelude Text Effects Sys Calls Mounts.
From S2P Require Digest GuestSys.

(** ** Arguments *)

Record Args : Type := MkArgs {
  cgroup : option bytes; root : bytes; uid : N; gid : N; binds : list (bytes * bool); devs : list bytes; program : list bytes }.
#[export] Instance Args_eq_dec : EqDecision Args.
Proof. solve_decision. Defined.

Inductive UsageError : Type :=
  | RequiresValue (name : bytes)
  | InvalidId (name value : bytes)
  | UnknownArgument (arg : bytes)
  | Required (name : bytes)
  | MissingProgram.
#[export] Instance UsageError_eq_dec : EqDecision UsageError.
Proof. solve_decision. Defined.

Definition parse_bind_spec (spec : bytes) : bytes * bool :=
  match rsplit_once ":" spec with
  | Some (path, mode) => if beq mode (B "ro") then (path, false) else if beq mode (B "rw") then (path, true) else (spec, true)
  | None => (spec, true)
  end.

(** What [parse] has gathered so far. *)
Record Gathered : Type := MkGathered {
  g_cgroup : option bytes; g_root : option bytes; g_uid : option N; g_gid : option N;
  g_binds : list (bytes * bool); g_devs : list bytes; g_program : list bytes }.

Definition parse_u32 : bytes -> option N := parse_uint u32_max.

Fixpoint parse_args (raw : list bytes) (g : Gathered) : result Gathered UsageError :=
  match raw with
  | [] => Ok g
  | flag :: rest =>
      if beq flag (B "--") then
        Ok (MkGathered (g_cgroup g) (g_root g) (g_uid g) (g_gid g) (g_binds g) (g_devs g) rest)
      else if existsb (beq flag) [B "--cgroup"; B "--root"; B "--uid"; B "--gid"; B "--bind"; B "--dev"] then
        match rest with
        | [] => Err (RequiresValue flag)
        | v :: rest =>
            if beq flag (B "--cgroup") then parse_args rest (MkGathered (Some v) (g_root g) (g_uid g) (g_gid g) (g_binds g) (g_devs g) (g_program g))
            else if beq flag (B "--root") then parse_args rest (MkGathered (g_cgroup g) (Some v) (g_uid g) (g_gid g) (g_binds g) (g_devs g) (g_program g))
            else if beq flag (B "--uid") then
              match parse_u32 v with
              | Some n => parse_args rest (MkGathered (g_cgroup g) (g_root g) (Some n) (g_gid g) (g_binds g) (g_devs g) (g_program g))
              | None => Err (InvalidId flag v)
              end
            else if beq flag (B "--gid") then
              match parse_u32 v with
              | Some n => parse_args rest (MkGathered (g_cgroup g) (g_root g) (g_uid g) (Some n) (g_binds g) (g_devs g) (g_program g))
              | None => Err (InvalidId flag v)
              end
            else if beq flag (B "--bind") then
              parse_args rest (MkGathered (g_cgroup g) (g_root g) (g_uid g) (g_gid g) (g_binds g ++ [parse_bind_spec v]) (g_devs g) (g_program g))
            else parse_args rest (MkGathered (g_cgroup g) (g_root g) (g_uid g) (g_gid g) (g_binds g) (g_devs g ++ [v]) (g_program g))
        end
      else Err (UnknownArgument flag)
  end.

Definition parse (raw : list bytes) : result Args UsageError :=
  let? g := parse_args raw (MkGathered None None None None [] [] []) in
  let? root := ok_or (g_root g) (Required (B "--root")) in
  let? uid := ok_or (g_uid g) (Required (B "--uid")) in
  let? gid := ok_or (g_gid g) (Required (B "--gid")) in
  match g_program g with
  | [] => Err MissingProgram
  | p => Ok (MkArgs (g_cgroup g) root uid gid (g_binds g) (g_devs g) p)
  end.

(** ** Calls *)

Definition CLONE_NEWNS : N := 131072.
Definition CLONE_NEWUSER : N := 268435456.
Definition CLONE_NEWPID : N := 536870912.
Definition MS_BIND : N := 4096.
Definition MOUNT_ATTR_RDONLY : N := 1.
Definition ENOSYS : N := 38.

Inductive Call : Type :=
  | COpenWrite (path : bytes)
  | CWriteAll (path body : bytes)
  | CWriteFile (path body : bytes)
  | CUnshare (flags : N)
  | CFork
  | CDieWithParent
  | CPropagation (target : bytes) (flags : N)
  | CBind (src dst : bytes) (flags : N)
  | CSetattrRecursive (dst : bytes) (attr_set : N)
  | CMountProc (dst : bytes)
  | CChdir (path : bytes)
  | CPivotRoot (new_root put_old : bytes)
  | CUmount (target : bytes) (flags : N)
  | CExec (program : bytes) (argv : list bytes)
  (** The looks at a path and the making of a mountpoint. *)
  | CLstat (path : bytes)
  | CIsDir (path : bytes)
  | CExists (path : bytes)
  | CCreateDirAll (path : bytes)
  | CCreateFile (path : bytes).

(** A directory, to [lstat]; a yes, to the other looks. *)
Definition is_directory (answer : bytes) : bool := beq answer (B "d").
Definition yes (r : result bytes IoError) : bool := match r with Ok (_ :: _) => true | _ => false end.

Section launcher.
(** The kernel; the launcher's pid; what [uname] says, if it says it. *)
Context (kernel : LogOf Call -> Call -> result bytes IoError) (own_pid : N) (kernel_release : option bytes).

Abbreviation L := (SE (LogOf Call) IoError).

Definition annotate_error (ctx : bytes) (e : IoError) : IoError := MkIoError None (ctx ++ B ": " ++ error_text e).
Definition annotate {A} (ctx : bytes) (m : L A) : L A := se_map_err (annotate_error ctx) m.

Definition cstr (s : bytes) : L bytes :=
  se_ret (match split_once GuestSys.NUL s with
          | Some (a, _) => Err (InvalidInput (B "nul byte found in provided data at position: " ++ show_N (N.of_nat (length a))))
          | None => Ok s
          end).

Definition path_str (p : bytes) : L bytes := se_ret (if is_utf8 p then Ok p else Err (InvalidInput (B "non-UTF-8 path " ++ from_utf8_lossy p))).

Definition unshare (flags : N) : L unit := ask_ kernel (CUnshare flags).
Definition set_pdeathsig_kill : L unit := ask_ kernel CDieWithParent.
Definition make_root_private : L unit := do! r := cstr (B "/") in ask_ kernel (CPropagation r (N.lor GuestSys.MS_REC GuestSys.MS_PRIVATE)).
Definition bind_mount (src dst : bytes) : L unit :=
  do! src := cstr src in do! dst := cstr dst in ask_ kernel (CBind src dst (N.lor MS_BIND GuestSys.MS_REC)).
Definition mount_proc (dst : bytes) : L unit := do! dst := cstr dst in ask_ kernel (CMountProc dst).
Definition chdir (path : bytes) : L unit := do! path := cstr path in ask_ kernel (CChdir path).
Definition pivot_root (new_root put_old : bytes) : L unit :=
  do! n := cstr new_root in do! p := cstr put_old in ask_ kernel (CPivotRoot n p).
Definition umount_detach (target : bytes) : L unit := do! t := cstr target in ask_ kernel (CUmount t GuestSys.MNT_DETACH).

Definition kernel_too_old_message (release : option bytes) : bytes :=
  B "this kernel has no mount_setattr(2), which the jail needs to make a bind read-only including every mount beneath it: Linux 5.12 or newer is required and this host reports " ++
  default (B "unknown") release ++
  B ". Without it a read-only bind leaves its submounts writable and says nothing, so the jail refuses to start rather than report a boundary it cannot enforce. Run without ISOPOD_JAIL=1 to start an unjailed VM instead".

Definition explain_setattr_failure (e : IoError) : IoError :=
  if is_errno e ENOSYS then MkIoError None (kernel_too_old_message kernel_release)
  else annotate_error (B "mount_setattr(AT_RECURSIVE)") e.

Definition remount_readonly_recursive (dst : bytes) : L unit :=
  se_map_err explain_setattr_failure (do! dst := cstr dst in ask_ kernel (CSetattrRecursive dst MOUNT_ATTR_RDONLY)).

Definition exec (prog : bytes) (argv : list bytes) : L unit :=
  do! prog := cstr prog in
  do! _ := se_iter (fun a => do! _ := cstr a in se_ret (Ok tt)) argv in
  ask_ kernel (CExec prog argv).

(** ** Setup *)

Definition join_cgroup (cgroup : bytes) : L unit :=
  let procs := Digest.path_join cgroup (B "cgroup.procs") in
  do! _ := annotate (B "opening " ++ procs) (ask_ kernel (COpenWrite procs)) in
  annotate (B "writing pid to " ++ procs) (ask_ kernel (CWriteAll procs (show_N own_pid))).

Definition write_id_maps (uid gid : N) : L unit :=
  do! _ := annotate (B "writing /proc/self/setgroups=deny") (ask_ kernel (CWriteFile (B "/proc/self/setgroups") (B "deny"))) in
  do! _ := annotate (B "writing /proc/self/uid_map") (ask_ kernel (CWriteFile (B "/proc/self/uid_map") (B "0 " ++ show_N uid ++ B " 1"))) in
  annotate (B "writing /proc/self/gid_map") (ask_ kernel (CWriteFile (B "/proc/self/gid_map") (B "0 " ++ show_N gid ++ B " 1"))).

(** [Path::strip_prefix("/")]: separators and [.]s around what is left go. *)
Definition blank (s : bytes) : bool := beq s [] || beq s (B ".").
Fixpoint drop_blank (l : list bytes) : list bytes := match l with s :: r => if blank s then drop_blank r else l | [] => [] end.
Definition strip_root (abs : bytes) : option bytes :=
  if starts_with (B "/") abs then Some (join ["/"%char] (rev (drop_blank (rev (drop_blank (split "/" abs)))))) else None.

Definition under_root (root abs : bytes) : bytes := Digest.path_join root (default abs (strip_root abs)).

Definition ensure_dir (dst : bytes) : L unit :=
  do! r := se_try (ask kernel (CIsDir dst)) in
  if yes r then se_ret (Ok tt) else annotate (B "creating dir mountpoint " ++ dst) (ask_ kernel (CCreateDirAll dst)).

(** [Path::parent] *)
Definition parent (s : bytes) : option bytes :=
  match drop_blank (rev (split "/" s)) with
  | [] => if starts_with (B ".") s then Some [] else None
  | _ :: rest =>
      match drop_blank rest with
      | [] => Some (if starts_with (B "/") s then B "/" else if starts_with (B "./") s then B "." else [])
      | r => Some (join ["/"%char] (rev r))
      end
  end.

Definition ensure_file (dst : bytes) : L unit :=
  do! r := se_try (ask kernel (CExists dst)) in
  if yes r then se_ret (Ok tt)
  else
    do! _ := match parent dst with
             | Some p => annotate (B "creating parent of mountpoint " ++ dst) (ask_ kernel (CCreateDirAll p))
             | None => se_ret (Ok tt)
             end in
    annotate (B "creating file mountpoint " ++ dst) (ask_ kernel (CCreateFile dst)).

Definition apply_bind (root src : bytes) (writable : bool) : L unit :=
  let dst := under_root root src in
  do! meta := annotate (B "stat bind source " ++ src) (ask kernel (CLstat src)) in
  do! _ := (if is_directory meta then ensure_dir dst else ensure_file dst) in
  do! src_s := path_str src in
  do! dst_s := path_str dst in
  do! _ := annotate (B "bind " ++ src ++ B " -> " ++ dst) (bind_mount src_s dst_s) in
  if negb writable then annotate (B "remount " ++ dst ++ B " read-only") (remount_readonly_recursive dst_s) else se_ret (Ok tt).

Definition child_setup (args : Args) : L unit :=
  do! _ := annotate (B "unshare(CLONE_NEWNS)") (unshare CLONE_NEWNS) in
  do! _ := annotate (B "prctl(PR_SET_PDEATHSIG)") set_pdeathsig_kill in
  do! _ := annotate (B "make root mount private") make_root_private in
  do! root_s := path_str (root args) in
  do! _ := annotate (B "bind new root onto itself") (bind_mount root_s root_s) in
  do! _ := se_iter (fun b => apply_bind (root args) (fst b) (snd b)) (binds args) in
  do! _ := se_iter (fun dev => apply_bind (root args) dev true) (devs args) in
  let proc_mnt := under_root (root args) (B "/proc") in
  do! _ := ensure_dir proc_mnt in
  do! proc_s := path_str proc_mnt in
  do! _ := annotate (B "mount /proc") (mount_proc proc_s) in
  do! _ := annotate (B "chdir to new root") (chdir root_s) in
  do! _ := annotate (B "pivot_root") (pivot_root (B ".") (B ".")) in
  do! _ := annotate (B "detach old root") (umount_detach (B ".")) in
  annotate (B "chdir to /") (chdir (B "/")).

(** How a process ends, or goes on. *)
Inductive End : Type := Replaced | Exits (code : N) | Supervises (child : N).

Definition child (args : Args) : L End :=
  do! r := se_try (child_setup args) in
  match r with
  | Ok _ =>
      do! r := se_try (exec (hd [] (program args)) (program args)) in
      se_ret (Ok (match r with Ok _ => Replaced | Err _ => Exits 127 end))
  | Err _ => se_ret (Ok (Exits 1))
  end.

(** The answer to [fork] is a pid, and zero in the child. *)
Definition run (args : Args) : L End :=
  do! _ := match cgroup args with Some c => join_cgroup c | None => se_ret (Ok tt) end in
  do! _ := annotate (B "unshare(CLONE_NEWUSER)") (unshare CLONE_NEWUSER) in
  do! _ := write_id_maps (uid args) (gid args) in
  do! _ := annotate (B "unshare(CLONE_NEWPID)") (unshare CLONE_NEWPID) in
  do! pid := annotate (B "fork") (ask kernel CFork) in
  if (value_of pid =? 0)%N then child args else se_ret (Ok (Supervises (value_of pid))).
End launcher.

(** ** What a launch has done when Firecracker starts *)

Definition is_exec (c : Call) : bool := match c with CExec _ _ => true | _ => false end.

(** All but the looks and the making of mountpoints. *)
Definition matters (c : Call) : bool :=
  match c with CLstat _ | CIsDir _ | CExists _ | CCreateDirAll _ | CCreateFile _ => false | _ => true end.

Definition REC_BIND : N := N.lor MS_BIND GuestSys.MS_REC.

Definition bind_calls (root : bytes) (b : bytes * bool) : list Call :=
  CBind (fst b) (under_root root (fst b)) REC_BIND ::
  if snd b then [] else [CSetattrRecursive (under_root root (fst b)) MOUNT_ATTR_RDONLY].

Definition mounts (args : Args) : list Call :=
  CBind (root args) (root args) REC_BIND ::
  flat_map (bind_calls (root args)) (binds args ++ map (fun d => (d, true)) (devs args)) ++
  [CMountProc (under_root (root args) (B "/proc"))].

Definition joining (own_pid : N) (args : Args) : list Call :=
  match cgroup args with
  | Some c => [COpenWrite (Digest.path_join c (B "cgroup.procs")); CWriteAll (Digest.path_join c (B "cgroup.procs")) (show_N own_pid)]
  | None => []
  end.

Definition mapping (args : Args) : list Call :=
  [CUnshare CLONE_NEWUSER; CWriteFile (B "/proc/self/setgroups") (B "deny");
   CWriteFile (B "/proc/self/uid_map") (B "0 " ++ show_N (uid args) ++ B " 1");
   CWriteFile (B "/proc/self/gid_map") (B "0 " ++ show_N (gid args) ++ B " 1"); CUnshare CLONE_NEWPID; CFork].

Definition confining (args : Args) : list Call :=
  [CUnshare CLONE_NEWNS; CDieWithParent; CPropagation (B "/") (N.lor GuestSys.MS_REC GuestSys.MS_PRIVATE)] ++ mounts args ++
  [CChdir (root args); CPivotRoot (B ".") (B "."); CUmount (B ".") GuestSys.MNT_DETACH; CChdir (B "/")].

Definition plan (own_pid : N) (args : Args) : list Call := joining own_pid args ++ mapping args ++ confining args.

Section planned.
Context (kernel : LogOf Call -> Call -> result bytes IoError) (own_pid : N) (kernel_release : option bytes).

Abbreviation does := (plans (fun c => negb (is_exec c)) matters).

Lemma does_cstr {B} s (k : bytes -> SE (LogOf Call) IoError B) cs : does (k s) cs -> does (se_bind (cstr s) k) cs.
Proof.
  intros Hk. unfold cstr. destruct (split_once GuestSys.NUL s) as [[a b]|]; [|exact Hk]. intros h. exists []. by rewrite app_nil_r.
Qed.

Lemma does_path_str {B} s (k : bytes -> SE (LogOf Call) IoError B) cs : does (k s) cs -> does (se_bind (path_str s) k) cs.
Proof.
  intros Hk. unfold path_str. destruct (is_utf8 s); [exact Hk|]. intros h. exists []. by rewrite app_nil_r.
Qed.

Lemma does_ask c : is_exec c = false -> does (ask kernel c) (if matters c then [c] else []).
Proof. intros Hc. apply plans_ask. by rewrite Hc. Qed.

Lemma does_ask_ c : is_exec c = false -> does (ask_ kernel c) (if matters c then [c] else []).
Proof. intros Hc. apply plans_ask_. by rewrite Hc. Qed.

Lemma does_annotate {A} ctx (m : SE (LogOf Call) IoError A) cs : does m cs -> does (annotate ctx m) cs.
Proof. apply plans_map_err. Qed.

Lemma does_bind_mount src dst : does (bind_mount kernel src dst) [CBind src dst REC_BIND].
Proof. apply does_cstr, does_cstr. by apply (does_ask_ (CBind _ _ _)). Qed.

Lemma does_ensure_dir dst : does (ensure_dir kernel dst) [].
Proof.
  eapply plans_then; [by apply plans_probe| |done]. intros r. cbn beta. destruct (yes r); [apply plans_ret|]. by apply does_annotate, (does_ask_ (CCreateDirAll _)).
Qed.

Lemma does_ensure_file dst : does (ensure_file kernel dst) [].
Proof.
  eapply plans_then; [by apply plans_probe| |done]. intros r. cbn beta. destruct (yes r); [apply plans_ret|].
  eapply (plans_then _ _ _ _ [] []); [| |done].
  - destruct (parent dst); [by apply does_annotate, (does_ask_ (CCreateDirAll _))|apply plans_ret].
  - intros _. by apply does_annotate, (does_ask_ (CCreateFile _)).
Qed.

Lemma does_apply_bind root b : does (apply_bind kernel kernel_release root (fst b) (snd b)) (bind_calls root b).
Proof.
  destruct b as [src w]. cbn [fst snd]. unfold apply_bind. eapply plans_then; [by apply does_annotate, (does_ask (CLstat _))| |reflexivity].
  intros meta. eapply (plans_then _ _ _ _ []); [| |reflexivity].
  - destruct (is_directory meta); [apply does_ensure_dir|apply does_ensure_file].
  - intros _. apply does_path_str, does_path_str. eapply plans_then; [apply does_annotate, does_bind_mount| |reflexivity]. intros _.
    cbn [fst snd]. destruct w; cbn [negb]; [apply plans_ret|]. apply does_annotate, plans_map_err, does_cstr.
    by apply (does_ask_ (CSetattrRecursive _ _)).
Qed.

Lemma does_child_setup args : does (child_setup kernel kernel_release args) (confining args).
Proof.
  unfold child_setup, confining, mounts. cbn [app].
  eapply plans_then; [by apply does_annotate, (does_ask_ (CUnshare _))| |reflexivity]. intros _.
  eapply plans_then; [by apply does_annotate, (does_ask_ CDieWithParent)| |reflexivity]. intros _.
  eapply plans_then; [apply does_annotate, does_cstr; by apply (does_ask_ (CPropagation _ _))| |reflexivity]. intros _.
  apply does_path_str. eapply plans_then; [apply does_annotate, does_bind_mount| |reflexivity]. intros _.
  rewrite flat_map_app, <- !app_assoc. eapply plans_then; [apply plans_iter; intros b _; apply does_apply_bind| |reflexivity]. intros _.
  eapply plans_then.
  { apply plans_iter. intros d _. apply (does_apply_bind _ (d, true)). }
  2: { f_equal. rewrite !flat_map_concat_map, map_map. reflexivity. }
  intros _. eapply plans_then; [apply does_ensure_dir| |reflexivity]. intros _. apply does_path_str.
  eapply plans_then; [apply does_annotate, does_cstr; by apply (does_ask_ (CMountProc _))| |reflexivity]. intros _.
  eapply plans_then; [apply does_annotate, does_cstr; by apply (does_ask_ (CChdir _))| |reflexivity]. intros _.
  eapply plans_then; [apply does_annotate, does_cstr, does_cstr; by apply (does_ask_ (CPivotRoot _ _))| |reflexivity]. intros _.
  eapply plans_then; [apply does_annotate, does_cstr; by apply (does_ask_ (CUmount _ _))| |reflexivity]. intros _.
  apply does_annotate, does_cstr. by apply (does_ask_ (CChdir _)).
Qed.

(** An attempt to become the program is the last call, with its arguments, and was preceded by [cs]. *)
Definition ends {A} (prog : list bytes) (m : SE (LogOf Call) IoError A) (cs : list Call) : Prop :=
  forall h, exists new, snd (m h) = h ++ new /\
    forall p a, CExec p a ∈ map fst new -> exists before ans, new = before ++ [(CExec p a, ans)] /\
      p = hd [] prog /\ a = prog /\ List.filter matters (granted before) = cs.

Lemma no_exec {A} (m : SE (LogOf Call) IoError A) cs prog cs' : does m cs -> ends prog m cs'.
Proof.
  intros Hm h. destruct (Hm h) as (new & E & Hs & _). exists new. split; [done|]. intros p a ([c r] & E' & Hin)%list_elem_of_fmap.
  rewrite Forall_forall in Hs. specialize (Hs _ Hin). cbn [fst] in *. by rewrite <- E' in Hs.
Qed.

Lemma launch_bind {A C} prog (m : SE (LogOf Call) IoError A) (k : A -> SE (LogOf Call) IoError C) cs cs' :
  does m cs -> (forall a, ends prog (k a) cs') -> ends prog (se_bind m k) (cs ++ cs').
Proof.
  intros Hm Hk h. destruct (Hm h) as (n1 & E1 & Hs & Ho). assert (Hno : forall p a, CExec p a ∉ map fst n1).
  { intros p a ([c r] & E' & Hin)%list_elem_of_fmap. rewrite Forall_forall in Hs. specialize (Hs _ Hin). cbn [fst] in *. by rewrite <- E' in Hs. }
  unfold se_bind. destruct (m h) as [[a|e] h1]; cbn [fst snd] in *; subst h1.
  - destruct (Hk a (h ++ n1)) as (n2 & E2 & H2). exists (n1 ++ n2). rewrite E2, app_assoc. split; [done|]. intros p q. rewrite map_app, elem_of_app.
    intros [H|H]; [by destruct (Hno p q)|]. destruct (H2 p q H) as (before & ans & -> & Hp & Hq & Hf). exists (n1 ++ before), ans.
    split_and!; [by rewrite app_assoc|done|done|]. rewrite granted_app, List.filter_app, Ho by done. by rewrite Hf.
  - exists n1. split; [done|]. intros p q H. by destruct (Hno p q).
Qed.

Lemma exec_ends prog : ends prog (exec kernel (hd [] prog) prog) [].
Proof.
  assert (Hc : forall s h, cstr s h = (Ok s, h) \/ exists e, cstr s h = (Err e, h)).
  { intros s h. unfold cstr, se_ret. destruct (split_once _ s) as [[? ?]|]; [right; by eexists|by left]. }
  assert (Hi : forall l h, exists r, se_iter (fun a => do! _ := cstr a in se_ret (Ok tt)) l h = (r, h)).
  { induction l as [|x l IH]; intros h; [by eexists|]. cbn [se_iter]. unfold se_bind at 1 2.
    destruct (Hc x h) as [->|[e ->]]; [apply IH|by eexists]. }
  intros h. unfold exec. unfold se_bind at 1. destruct (Hc (hd [] prog) h) as [->|[e ->]].
  - unfold se_bind at 1. destruct (Hi prog h) as ([[]|e] & E); rewrite E; [|exists []; rewrite app_nil_r; split; [done|by intros ?? ?%elem_of_nil]].
    exists [(CExec (hd [] prog) prog, kernel h (CExec (hd [] prog) prog))]. split; [unfold ask_, se_bind, ask; by destruct (kernel h _)|].
    intros p a [= -> ->]%list_elem_of_singleton. by exists [], (kernel h (CExec (hd [] prog) prog)).
  - exists []. rewrite app_nil_r. split; [done|]. by intros ?? ?%elem_of_nil.
Qed.

Lemma child_ends args : ends (program args) (child kernel kernel_release args) (confining args).
Proof.
  intros h. unfold child, se_bind, se_try. destruct (does_child_setup args h) as (n1 & E1 & Hs & Ho).
  assert (Hno : forall p a, CExec p a ∉ map fst n1).
  { intros p a ([c r] & E' & Hin)%list_elem_of_fmap. rewrite Forall_forall in Hs. specialize (Hs _ Hin). cbn [fst] in *. by rewrite <- E' in Hs. }
  destruct (child_setup kernel kernel_release args h) as [[u|e] h1]; cbn [fst snd] in *; subst h1.
  - destruct (exec_ends (program args) (h ++ n1)) as (n2 & E2 & H2). destruct (exec kernel _ _ (h ++ n1)) as [r h2]. cbn [snd] in E2. subst h2.
    exists (n1 ++ n2). split; [cbn [snd se_ret]; by rewrite app_assoc|]. intros p q. rewrite map_app, elem_of_app.
    intros [H|H]; [by destruct (Hno p q)|]. destruct (H2 p q H) as (before & ans & -> & Hp & Hq & Hf). exists (n1 ++ before), ans.
    split_and!; [by rewrite app_assoc|done|done|]. rewrite granted_app, List.filter_app, Ho by done. by rewrite Hf, app_nil_r.
  - exists n1. split; [done|]. intros p q H. by destruct (Hno p q).
Qed.

Lemma run_ends args : ends (program args) (run kernel own_pid kernel_release args) (plan own_pid args).
Proof.
  unfold run, plan. apply launch_bind.
  { unfold joining. destruct (cgroup args) as [c|]; [|apply plans_ret]. unfold join_cgroup.
    eapply plans_then; [by apply does_annotate, (does_ask_ (COpenWrite _))| |reflexivity]. intros _. by apply does_annotate, (does_ask_ (CWriteAll _ _)). }
  intros _. apply (launch_bind _ _ _ [_]); [by apply does_annotate, (does_ask_ (CUnshare _))|]. intros _.
  apply (launch_bind _ _ _ [_; _; _]).
  { unfold write_id_maps. eapply plans_then; [by apply does_annotate, (does_ask_ (CWriteFile _ _))| |reflexivity]. intros _.
    eapply plans_then; [by apply does_annotate, (does_ask_ (CWriteFile _ _))| |reflexivity]. intros _. by apply does_annotate, (does_ask_ (CWriteFile _ _)). }
  intros _. apply (launch_bind _ _ _ [_]); [by apply does_annotate, (does_ask_ (CUnshare _))|]. intros _.
  apply (launch_bind _ _ _ [_]); [by apply does_annotate, (does_ask CFork)|]. intros pid.
  destruct (_ =? 0)%N; [apply child_ends|]. eapply no_exec, plans_ret.
Qed.
End planned.

(** C9: nothing runs unconfined.  Whatever the kernel answers, and to whatever call it says no, the launcher
    tries to become Firecracker only as its last call, with its very arguments, after every step of the
    plan was granted and in this order: its pid in the cgroup, the user namespace with the map of the one
    id, the pid namespace, its own mount namespace and its death with its parent, every bind with its
    recursive read-only mark, [/proc], and the pivot to the new root with the old one detached. *)
Theorem exec_after_confinement kernel own_pid kernel_release args p a :
  CExec p a ∈ map fst (snd (run kernel own_pid kernel_release args [])) ->
  exists before ans, snd (run kernel own_pid kernel_release args []) = before ++ [(CExec p a, ans)] /\
    p = hd [] (program args) /\ a = program args /\ List.filter matters (granted before) = plan own_pid args.
Proof.
  destruct (run_ends kernel own_pid kernel_release args []) as (new & -> & H). apply H.
Qed.

(** ** What the jailed process sees *)

Definition path_names (s : bytes) : names := List.filter (fun x => negb (blank x)) (split "/" s).

Definition apply_call (t : Table) (c : Call) : Table :=
  match c with
  | CBind src dst _ => bind (path_names src) (path_names dst) t
  | CSetattrRecursive dst _ => read_only (path_names dst) t
  | CMountProc dst => mount_fresh Proc (path_names dst) t
  | _ => t
  end.

(** After the pivot a path is looked up below the new root. *)
Definition jail_sees (args : Args) (t0 : Table) (p : names) : option View :=
  seen (fold_left apply_call (mounts args) t0) (path_names (root args) ++ p).

Definition sources (args : Args) : list (names * bool) :=
  map (fun b => (path_names (fst b), snd b)) (binds args) ++ map (fun d => (path_names d, true)) (devs args).

Lemma path_names_app a b : path_names (a ++ "/"%char :: b) = path_names a ++ path_names b.
Proof. unfold path_names. by rewrite split_app_sep, List.filter_app. Qed.

Lemma path_names_join a b : starts_with (B "/") b = false -> path_names (Digest.path_join a b) = path_names a ++ path_names b.
Proof.
  intros Hb. unfold Digest.path_join. rewrite Hb. destruct (beq a []) eqn:Ea.
  - apply beq_true in Ea as ->. done.
  - cbn [orb]. destruct (ends_with (B "/") a) eqn:Ee; [|apply path_names_app]. apply ends_with_true in Ee as [a' ->].
    rewrite <- app_assoc. change (B "/" ++ b) with ("/"%char :: b). rewrite path_names_app. change (B "/") with ("/"%char :: []).
    rewrite path_names_app. by rewrite app_nil_r.
Qed.

Lemma drop_blank_filter l : List.filter (fun x => negb (blank x)) (drop_blank l) = List.filter (fun x => negb (blank x)) l.
Proof. induction l as [|s l IH]; [done|]. cbn [drop_blank List.filter]. destruct (blank s) eqn:E; cbn [negb]; [done|]. cbn [List.filter]. by rewrite E. Qed.

Lemma drop_blank_incl l x : x ∈ drop_blank l -> x ∈ l.
Proof. induction l as [|s l IH]; [done|]. cbn [drop_blank]. destruct (blank s); [|done]. intros H. right. by apply IH. Qed.

Lemma drop_blank_head l s r : drop_blank l = s :: r -> blank s = false.
Proof. induction l as [|x l IH]; [done|]. cbn [drop_blank]. destruct (blank x) eqn:E; [done|]. by intros [= <- <-]. Qed.

Lemma rev_filter {A} (f : A -> bool) l : List.filter f (rev l) = rev (List.filter f l).
Proof. induction l as [|x l IH]; [done|]. cbn [rev List.filter]. rewrite List.filter_app, IH. cbn [List.filter]. destruct (f x); [done|by rewrite app_nil_r]. Qed.

Lemma strip_root_names abs rel : strip_root abs = Some rel -> path_names rel = path_names abs /\ starts_with (B "/") rel = false.
Proof.
  unfold strip_root. destruct (starts_with (B "/") abs); [|done]. intros [= <-]. set (l := drop_blank (split "/" abs)).
  set (l' := rev (drop_blank (rev l))).
  assert (Hf : List.filter (fun x => negb (blank x)) l' = path_names abs).
  { unfold l'. rewrite rev_filter, drop_blank_filter, rev_filter, rev_involutive. apply drop_blank_filter. }
  assert (Hs : Forall (fun x => "/"%char ∉ x) l').
  { apply Forall_forall. intros x Hx. unfold l' in Hx. apply list_elem_of_In, in_rev, list_elem_of_In, drop_blank_incl, list_elem_of_In, in_rev, list_elem_of_In, drop_blank_incl in Hx.
    pose proof (split_no_sep "/" abs) as H. rewrite Forall_forall in H. by apply H. }
  destruct l' as [|x r] eqn:El; [split; [by rewrite <- Hf|done]|]. split.
  - unfold path_names at 1. by rewrite split_join.
  - destruct (starts_with (B "/") (join ["/"%char] (x :: r))) eqn:E; [|done]. apply starts_with_true in E as [y Ey].
    assert (Hx : x = []).
    { pose proof (split_join "/" (x :: r) ltac:(done) Hs) as H. rewrite Ey in H. change (B "/" ++ y) with ([] ++ "/"%char :: y) in H.
      rewrite split_app in H by apply not_elem_of_nil. by injection H. }
    exfalso. subst x. assert (Hin : [] ∈ List.filter (fun x => negb (blank x)) ([] :: r) -> False) by (intros [_ ?]%list_elem_of_In%filter_In; done).
    (* the first part that is kept is not blank *)
    unfold l' in El. assert (Hl : exists z, l = [] :: z).
    { assert (Hr : exists z, rev l = z ++ rev l').
      { clear. unfold l'. rewrite rev_involutive. induction (rev l) as [|s t [z IH]]; [by exists []|]. cbn [drop_blank]. destruct (blank s); [exists (s :: z); cbn; by f_equal|by exists []]. }
      destruct Hr as [z Hz]. apply (f_equal (@rev bytes)) in Hz. rewrite rev_app_distr, !rev_involutive in Hz. unfold l' in Hz at 1. rewrite El in Hz. by eexists. }
    destruct Hl as [z Hl]. apply drop_blank_head in Hl. done.
Qed.

Lemma names_under_root root abs : path_names (under_root root abs) = path_names root ++ path_names abs.
Proof.
  unfold under_root. destruct (strip_root abs) as [rel|] eqn:E; cbn [default].
  - apply strip_root_names in E as [<- H]. by apply path_names_join.
  - apply path_names_join. unfold strip_root in E. by destruct (starts_with (B "/") abs).
Qed.

Definition PROC : names := [B "proc"].

Lemma binds_applied root bs t :
  fold_left apply_call (flat_map (bind_calls root) bs) t =
  fold_left (bind_one (path_names root)) (map (fun b => (path_names (fst b), snd b)) bs) t.
Proof.
  revert t. induction bs as [|[s w] bs IH]; intros t; [done|]. cbn [flat_map map fold_left]. rewrite fold_left_app, IH. f_equal.
  unfold bind_calls, bind_one. cbn [fst snd]. rewrite <- names_under_root. by destruct w.
Qed.

Lemma jail_table args t0 :
  fold_left apply_call (mounts args) t0 = mount_fresh Proc (path_names (root args) ++ PROC) (bind_all (path_names (root args)) (sources args) t0).
Proof.
  unfold mounts. cbn [fold_left apply_call]. rewrite fold_left_app, binds_applied. cbn [fold_left apply_call]. rewrite names_under_root.
  unfold bind_all, sources. by rewrite map_app, map_map.
Qed.

Section sees.
Context (args : Args) (t0 : Table).
Hypothesis (Hroot : exists m, m ∈ t0 /\ point m = []) (Hne : path_names (root args) <> []).

Lemma sees_proc p : jail_sees args t0 (PROC ++ p) = Some (MkView Proc p false).
Proof.
  unfold jail_sees. rewrite jail_table. unfold mount_fresh. rewrite seen_cons, app_assoc.
  rewrite (proj2 (covers_true _ _)) by (cbn [point]; by eexists). unfold view_of. cbn [point fs below ro app]. by rewrite drop_app_length.
Qed.

Lemma sees_not_proc p : ~ PROC `prefix_of` p ->
  jail_sees args t0 p = seen (bind_all (path_names (root args)) (sources args) t0) (path_names (root args) ++ p).
Proof.
  intros Hp. unfold jail_sees. rewrite jail_table. unfold mount_fresh. rewrite seen_cons. unfold covers. cbn [point].
  rewrite bool_decide_eq_false_2; [done|]. by intros H%prefix_app_inv.
Qed.
End sees.

(** What the jail shows.  At a path that the last bind over it serves, the jail shows exactly what the
    host has at the same path, read-only when that bind is; elsewhere only what is in the jail's own
    directory, and its own [/proc]. *)
Theorem jail_identity args t0 p :
  (exists m, m ∈ t0 /\ point m = []) -> path_names (root args) <> [] ->
  ~ path_names (root args) `prefix_of` p ->
  jail_sees args t0 p =
    if bool_decide (PROC `prefix_of` p) then Some (MkView Proc (drop 1 p) false)
    else match serving (sources args) p with
         | Some (_, w) => if (w : bool) then seen t0 p else option_map made_ro (seen t0 p)
         | None => seen t0 (path_names (root args) ++ p)
         end.
Proof.
  intros Ht Hne Hp. case_bool_decide as Hproc; [destruct Hproc as [r ->]; by apply sees_proc|].
  rewrite sees_not_proc by done. by apply jail_view.
Qed.

(** The jail holds.  Whatever the host has mounted where, and in whatever order the binds were asked for,
    a place outside [/proc] that the jailed process can reach is one the host shows at or below the jail's
    directory, a bind's source or a device; and where it can write, the source is a writable one and
    the host could write there too: no mount below a read-only source is left writable. *)
Theorem jail_confines args t0 p v :
  (exists m, m ∈ t0 /\ point m = []) -> path_names (root args) <> [] ->
  jail_sees args t0 p = Some v ->
  v_fs v = Proc /\ PROC `prefix_of` p \/
  exists b w q u, (b, w) ∈ (path_names (root args), true) :: sources args /\ b `prefix_of` q /\ seen t0 q = Some u /\
    v_fs v = v_fs u /\ v_place v = v_place u /\ (v_ro v = false -> w = true /\ v_ro u = false).
Proof.
  intros Ht Hne Hv. destruct (decide (PROC `prefix_of` p)) as [[r ->]|Hp].
  - rewrite sees_proc in Hv. injection Hv as <-. left. split; [done|]. by exists r.
  - right. rewrite sees_not_proc in Hv by done. destruct (jail_bounds t0 Ht _ Hne _ _ _ Hv) as (b & w & q & Hb & Hq & u & Hu & Hf & Hpl & Hw).
    by exists b, w, q, u.
Qed.

(** ** The supervisor *)

Inductive Fate : Type := ExitsWith (code : N) | DiesOf (sig : N).

(** What [waitpid] gave, a status word or an errno; [terminates] are the signals whose default action is to
    end a process. *)
Definition wait_and_proxy (terminates : N -> bool) (r : result N N) : Fate :=
  match r with
  | Err _ => ExitsWith 1
  | Ok status =>
      if GuestSys.WIFEXITED status then ExitsWith (GuestSys.WEXITSTATUS status)
      else if GuestSys.WIFSIGNALED status then
        let sig := GuestSys.WTERMSIG status in if terminates sig then DiesOf sig else ExitsWith (128 + sig)
      else ExitsWith 1
  end.

(** The supervisor passes on what became of the child: the same exit code, or the same signal. *)
Theorem proxy_faithful terminates :
  (forall c, (c < 256)%N -> wait_and_proxy terminates (Ok (256 * c)%N) = ExitsWith c) /\
  (forall sig core, (0 < sig < 127)%N -> core = 0%N \/ core = 128%N -> terminates sig = true ->
    wait_and_proxy terminates (Ok (sig + core)%N) = DiesOf sig).
Proof.
  assert (H : forall status, wait_and_proxy terminates (Ok status) =
    match GuestSys.decode_status 0 status with
    | Reaper.MkWaitResult _ (Some c) _ => ExitsWith (Z.to_N c)
    | Reaper.MkWaitResult _ None (Some s) => if terminates (Z.to_N s) then DiesOf (Z.to_N s) else ExitsWith (128 + Z.to_N s)
    | _ => ExitsWith 1
    end).
  { intros status. unfold wait_and_proxy, GuestSys.decode_status. destruct (GuestSys.WIFEXITED status); [by rewrite N2Z.id|].
    destruct (GuestSys.WIFSIGNALED status); [by rewrite N2Z.id|done]. }
  split; intros; rewrite H; [rewrite GuestSys.decode_exited by done|rewrite GuestSys.decode_killed by done]; rewrite N2Z.id; [done|].
  by rewrite H2.
Qed.

(** The two processes after the fork, and what befalls them in turn. *)
Inductive Supervisor : Type := Forked | Handling | Gone.
Inductive Jailed : Type := Unguarded | Guarded | Ended.
#[export] Instance Supervisor_eq_dec : EqDecision Supervisor.
Proof. solve_decision. Defined.
#[export] Instance Jailed_eq_dec : EqDecision Jailed.
Proof. solve_decision. Defined.

Inductive Event : Type :=
  | Installs  (** the supervisor has its handlers *)
  | Guards    (** the child has asked to die with its parent *)
  | Sigterm   (** [SIGTERM] or [SIGINT] to the supervisor *)
  | Sigkill   (** any death of the supervisor that it does not handle *)
  | Finishes. (** the child ends, and the supervisor with it *)

Definition dies_with (c : Jailed) : Jailed := match c with Guarded => Ended | c => c end.

Definition befall (e : Event) (w : Supervisor * Jailed) : Supervisor * Jailed :=
  let '(s, c) := w in
  match e, s with
  | Installs, Forked => (Handling, c)
  | Guards, _ => (s, match c with Unguarded => Guarded | c => c end)
  | Sigterm, Handling => (Gone, Ended)
  | Sigterm, Forked | Sigkill, (Forked | Handling) => (Gone, dies_with c)
  | Finishes, (Forked | Handling) => (Gone, Ended)
  | Finishes, Gone => (Gone, Ended)
  | _, _ => w
  end.

Definition befalls (es : list Event) : Supervisor * Jailed := fold_left (fun w e => befall e w) es (Forked, Unguarded).

Lemma ended_stays es w : snd w = Ended -> snd (fold_left (fun w e => befall e w) es w) = Ended.
Proof.
  revert w. induction es as [|e es IH]; intros [s c] Hw; [done|]. cbn [fold_left]. apply IH. cbn in *. subst c. by destruct e, s.
Qed.

(** A child that was guarded before the supervisor was touched never outlives it; one whose supervisor
    dies first does. *)
Theorem guarded_dies_with_supervisor before after e :
  snd (befalls before) <> Unguarded -> fst (befalls before) <> Gone -> e = Sigterm \/ e = Sigkill \/ e = Finishes ->
  snd (befalls (before ++ e :: after)) = Ended.
Proof.
  unfold befalls. rewrite fold_left_app. cbn [fold_left]. destruct (fold_left _ before _) as [s c]. cbn [fst snd]. intros Hc Hs He.
  apply ended_stays. by destruct He as [->|[->| ->]], s, c.
Qed.

(** Nothing is looked at after the request to die with the parent: a child whose parent died a moment before
    goes on, guarded by nobody. *)
Example orphaned_before_guard : befalls [Sigkill; Guards] = (Gone, Guarded).
Proof. done. Qed.

(** ** Concrete launches *)

(** A kernel that grants everything, sources being directories. *)
Definition obliging (h : LogOf Call) (c : Call) : result bytes IoError :=
  match c with CFork => Ok (B "0") | CLstat _ => Ok (B "d") | _ => Ok [] end.
Definition demo_args : Args :=
  MkArgs (Some (B "/cg")) (B "/vm/jail-root") 1000 1000 [(B "/home", false); (B "/home/vm", true)] [B "/dev/kvm"] [B "/fc"; B "--id"; B "dev-1"].

Lemma exec_after_confinement_witness :
  exists before ans, snd (run obliging 7 None demo_args []) = before ++ [(CExec (B "/fc") [B "/fc"; B "--id"; B "dev-1"], ans)] /\
    List.filter matters (granted before) = plan 7 demo_args.
Proof.
  destruct (exec_after_confinement obliging 7 None demo_args (B "/fc") [B "/fc"; B "--id"; B "dev-1"]) as (before & ans & H1 & _ & _ & H2).
  - apply list_elem_of_In. vm_compute. repeat (first [left; reflexivity|right]).
  - exists before, ans. split; [exact H1|exact H2].
Defined.

(** On a kernel without [mount_setattr] nothing is launched. *)
Example old_kernel_refused :
  let kernel h c := match c with CSetattrRecursive _ _ => Err (MkIoError (Some ENOSYS) []) | _ => obliging h c end in
  fst (run kernel 7 None demo_args []) = Ok (Exits 1).
Proof. by vm_compute. Qed.

(** A source that is a symbolic link, to a directory or not, gets a file for its mountpoint; of a directory
    the bind onto it is refused. *)
Example linked_source_gets_a_file :
  let kernel h c := match c with CLstat _ => Ok (B "l") | _ => obliging h c end in
  In (CCreateFile (B "/vm/jail-root/home")) (map fst (snd (run kernel 7 None demo_args []))).
Proof. vm_compute. repeat (first [left; reflexivity|right]). Qed.

Definition demo_table : Table := [MkMount [B "home"; B "disk"] (OnHost 1) [] false; MkMount [] (OnHost 0) [] false].

Lemma jail_confines_witness :
  exists v, jail_sees demo_args demo_table [B "home"; B "disk"; B "f"] = Some v /\ v_ro v = true /\
    (v_fs v = Proc /\ PROC `prefix_of` [B "home"; B "disk"; B "f"] \/
     exists b w q u, (b, w) ∈ (path_names (root demo_args), true) :: sources demo_args /\ b `prefix_of` q /\ seen demo_table q = Some u /\
       v_fs v = v_fs u /\ v_place v = v_place u /\ (v_ro v = false -> w = true /\ v_ro u = false)).
Proof.
  exists (MkView (OnHost 1) [B "f"] true). split; [reflexivity|]. split; [reflexivity|].
  apply (jail_confines demo_args demo_table [B "home"; B "disk"; B "f"]).
  - exists (MkMount [] (OnHost 0) [] false). split; [right; by left|done].
  - done.
  - reflexivity.
Defined.

Lemma jail_identity_witness : jail_sees demo_args demo_table [B "home"; B "vm"; B "x"] = seen demo_table [B "home"; B "vm"; B "x"].
Proof.
  rewrite (jail_identity demo_args demo_table [B "home"; B "vm"; B "x"]); [reflexivity| |done|].
  - exists (MkMount [] (OnHost 0) [] false). split; [right; by left|done].
  - refine (proj1 (bool_decide_eq_false _) _). reflexivity.
Defined.

Lemma proxy_faithful_witness : wait_and_proxy (fun _ => true) (Ok 9%N) = DiesOf 9.
Proof. refine (proj2 (proxy_faithful (fun _ => true)) 9%N 0%N _ _ _); [lia|by left|done]. Defined.

Lemma guarded_witness : snd (befalls ([Guards; Installs] ++ Sigterm :: [])) = Ended.
Proof. apply guarded_dies_with_supervisor; [done|done|by left]. Defined.
