(* ===== verification/Jail.v ===== *)
(** * The jail, from the host's side ([crates/core/src/jail.rs])

    What [ISOPOD_JAIL=1] puts before Firecracker's command line and prepares for it: the preconditions, the
    cgroup with its limits, the binds and devices of the jail's root, and the launcher's arguments, which
    the launcher's own parser reads back.

    Calls are questions to a host that answers as it likes; texts of errors are left out, but for which
    step failed.  [u64] arithmetic wraps, as it does in a release build. *)
From S2P Require Import Prelude Text Effects Sys Calls Mounts.
From S2P Require Digest HostIo Resources Launcher.

Definition CGROUP_MOUNT : bytes := B "/sys/fs/cgroup".
Definition ISOPOD_SLICE : bytes := B "isopod.slice".
Definition CPU_PERIOD_US : N := 100000.
Definition PIDS_MAX : N := 128.

Inductive HostCall : Type :=
  | ReadFile (path : bytes)
  | IsDir (path : bytes)
  | Exists (path : bytes)
  | CreateDirAll (path : bytes)
  | WriteFile (path body : bytes)
  | OpenReadWrite (path : bytes)
  | RemoveDir (path : bytes)
  (** the names in a directory, each before a separator *)
  | ReadDir (path : bytes)
  (** seconds since a file's modification, when they can be told *)
  | AgeOf (path : bytes)
  (** the output of [ldd] when it succeeds *)
  | Ldd (path : bytes).

Inductive JailError : Type :=
  | Io (step : bytes)
  | NoHome
  | NoIds
  | NoFinalComponent
  | NoDelegatedRoot
  | NoV2Line
  | UsernsDisabled
  | UsernsUnreadable
  | UsernsCloneDisabled
  | MissingController (name : bytes)
  | OutsideDelegation
  | JailBinMissing (path : bytes)
  | NoJailBin.
#[export] Instance JailError_eq_dec : EqDecision JailError.
Proof. solve_decision. Defined.

Record Bind : Type := MkBind { bind_path : bytes; writable : bool }.
Definition ro (path : bytes) : Bind := MkBind path false.
Definition rw (path : bytes) : Bind := MkBind path true.

(** [Path::display] shows what is not UTF-8 as U+FFFD. *)
Definition arg (b : Bind) : bytes := from_utf8_lossy (bind_path b) ++ B ":" ++ (if writable b then B "rw" else B "ro").

Record JailSpec : Type := MkSpec { prefix : list bytes; cgroup_leaf : bytes; spec_root : bytes }.

Definition binds_for (home vm_dir fc_path : bytes) : list Bind :=
  [ro home; rw vm_dir] ++
  (if HostIo.path_starts_with (HostIo.components fc_path) (HostIo.components home) then [] else [ro fc_path]).

(** [PathBuf]'s equality, by components. *)
Definition same_path (a b : bytes) : bool :=
  let a := HostIo.components a in let b := HostIo.components b in HostIo.path_starts_with a b && HostIo.path_starts_with b a.

Definition ldd_path (line : bytes) : option bytes :=
  match split_once_str (B "=>") line with
  | Some (_, rhs) => head (split_whitespace rhs)
  | None => head (split_whitespace line)
  end.

Definition parse_ldd (text : bytes) : list bytes :=
  fold_left (fun libs line =>
    match ldd_path line with
    | Some c => if starts_with (B "/") c && negb (existsb (fun q => same_path q c) libs) then libs ++ [c] else libs
    | None => libs
    end) (str_lines text) [].

Definition standard_devs (network : bool) : list bytes :=
  [B "/dev/kvm"; B "/dev/null"; B "/dev/urandom"] ++ (if network then [B "/dev/net/tun"] else []).

(** ** Ids, limits, cgroup paths *)

Fixpoint parse_status_id_in (ls : list bytes) (key : bytes) : option N :=
  match ls with
  | [] => None
  | line :: ls =>
      match (match strip_prefix key line with
             | Some rest => match head (split_whitespace rest) with Some w => parse_uint u32_max w | None => None end
             | None => None
             end) with
      | Some n => Some n
      | None => parse_status_id_in ls key
      end
  end.
Definition parse_status_id (status key : bytes) : option N := parse_status_id_in (str_lines status) key.

Definition wrap64 (n : N) : N := n mod (u64_max + 1).

Definition default_overhead_mib (mem_mib : N) : N := N.max 256 (mem_mib / 4).

Fixpoint find_v2 (ls : list bytes) : option bytes :=
  match ls with
  | [] => None
  | line :: ls => match strip_prefix (B "0::") line with Some rest => Some (trim rest) | None => find_v2 ls end
  end.
Definition parse_cgroup_v2_path (raw : bytes) : option bytes := find_v2 (str_lines raw).

Definition is_user_service (comp : bytes) : bool :=
  match strip_prefix (B "user@") comp with
  | Some r => match strip_suffix (B ".service") r with Some digits => negb (beq digits []) && forallb is_ascii_digit digits | None => false end
  | None => false
  end.

Fixpoint through_user_service (kept comps : list bytes) : option bytes :=
  match comps with
  | [] => None
  | c :: comps =>
      let kept := kept ++ [c] in
      if is_user_service c then Some (B "/" ++ join ["/"%char] kept) else through_user_service kept comps
  end.
Definition truncate_through_user_service (rel : bytes) : option bytes :=
  through_user_service [] (List.filter (fun c => negb (beq c [])) (split "/" rel)).

(** [s.trim_start_matches('/')] *)
Fixpoint trim_slashes (s : bytes) : bytes := match s with c :: r => if Ascii.eqb c "/" then trim_slashes r else s | [] => [] end.

Section jail.
(** The host, the environment, [paths::isopod_home()] and [current_exe()]. *)
Context (host : LogOf HostCall -> HostCall -> result bytes IoError) (env : bytes -> option bytes) (home current_exe : option bytes).

Abbreviation J := (SE (LogOf HostCall) JailError).

Definition is_enabled : bool := match env (B "ISOPOD_JAIL") with Some v => beq v (B "1") | None => false end.

(** A call whose failure ends the step it is for. *)
Definition must (step : bytes) (c : HostCall) : J bytes := se_map_err (fun _ => Io step) (ask host c).
(** A look, which cannot fail. *)
Definition holds (c : HostCall) : J bool := do! r := se_try (ask host c) in se_ret (Ok (Launcher.yes r)).

Definition isopod_home : J bytes := se_ret (ok_or home NoHome).

Fixpoint filter_exists (ps : list bytes) : J (list bytes) :=
  match ps with
  | [] => se_ret (Ok [])
  | p :: ps =>
      do! e := holds (Exists p) in
      do! rest := filter_exists ps in
      se_ret (Ok (if (e : bool) then p :: rest else rest))
  end.

Definition fc_runtime_libs (fc_path : bytes) : J (list bytes) :=
  do! r := se_try (ask host (Ldd fc_path)) in
  match r with
  | Ok out => filter_exists (parse_ldd (from_utf8_lossy out))
  | Err _ => se_ret (Ok [])
  end.

Definition standard_binds (vm_dir fc_path : bytes) : J (list Bind) :=
  do! home := isopod_home in
  do! libs := fc_runtime_libs fc_path in
  se_ret (Ok (binds_for home vm_dir fc_path ++ map ro libs)).

Definition real_uid_gid : J (N * N) :=
  do! status := must (B "reading /proc/self/status") (ReadFile (B "/proc/self/status")) in
  se_ret (match parse_status_id status (B "Uid:"), parse_status_id status (B "Gid:") with
          | Some uid, Some gid => Ok (uid, gid)
          | _, _ => Err NoIds
          end).

Definition mem_overhead_mib (mem_mib : N) : N :=
  match env (B "ISOPOD_JAIL_MEM_OVERHEAD_MIB") with
  | Some v => default (default_overhead_mib mem_mib) (parse_uint u64_max (trim v))
  | None => default_overhead_mib mem_mib
  end.

Definition mem_max_bytes (r : Resources.Resources) : N :=
  let total_mib := wrap64 (Resources.mem_mib r + mem_overhead_mib (Resources.mem_mib r)) in
  wrap64 (wrap64 (total_mib * 1024) * 1024).

Definition cpu_max_value (r : Resources.Resources) : bytes :=
  show_N (wrap64 (Resources.vcpus r * CPU_PERIOD_US)) ++ B " " ++ show_N CPU_PERIOD_US.

(** A delegated root found in the process's own cgroup, if there is one. *)
Definition own_delegation (raw : result bytes JailError) : option bytes :=
  match raw with
  | Ok raw =>
      match parse_cgroup_v2_path raw with
      | Some rel => option_map (fun d => Digest.path_join CGROUP_MOUNT (trim_slashes d)) (truncate_through_user_service rel)
      | None => None
      end
  | Err _ => None
  end.

Definition conventional_root (uid : N) : bytes :=
  Digest.path_join (Digest.path_join (Digest.path_join CGROUP_MOUNT (B "user.slice")) (B "user-" ++ show_N uid ++ B ".slice"))
    (B "user@" ++ show_N uid ++ B ".service").

Definition delegated_cgroup_root : J bytes :=
  do! ids := real_uid_gid in
  do! raw := se_try (must [] (ReadFile (B "/proc/self/cgroup"))) in
  let conventional :=
    let conv := conventional_root (fst ids) in
    do! d := holds (IsDir conv) in
    se_ret (if (d : bool) then Ok conv else Err NoDelegatedRoot) in
  match own_delegation raw with
  | Some p => do! d := holds (IsDir p) in if (d : bool) then se_ret (Ok p) else conventional
  | None => conventional
  end.

Definition current_cgroup_abs : J bytes :=
  do! raw := must (B "reading /proc/self/cgroup") (ReadFile (B "/proc/self/cgroup")) in
  do! rel := se_ret (ok_or (parse_cgroup_v2_path raw) NoV2Line) in
  se_ret (Ok (Digest.path_join CGROUP_MOUNT (trim_slashes rel))).

Definition create_cgroup (vm_id : bytes) (r : Resources.Resources) : J bytes :=
  do! deleg := delegated_cgroup_root in
  let slice := Digest.path_join deleg ISOPOD_SLICE in
  do! _ := must (B "creating slice") (CreateDirAll slice) in
  do! _ := must (B "enabling controllers") (WriteFile (Digest.path_join slice (B "cgroup.subtree_control")) (B "+cpu +memory +pids")) in
  let leaf := Digest.path_join slice vm_id in
  do! _ := must (B "creating leaf cgroup") (CreateDirAll leaf) in
  do! _ := must (B "setting memory.max") (WriteFile (Digest.path_join leaf (B "memory.max")) (show_N (mem_max_bytes r))) in
  do! _ := must (B "setting cpu.max") (WriteFile (Digest.path_join leaf (B "cpu.max")) (cpu_max_value r)) in
  do! _ := must (B "setting pids.max") (WriteFile (Digest.path_join leaf (B "pids.max")) (show_N PIDS_MAX)) in
  se_ret (Ok leaf).

(** ** Preflight *)

Definition check_userns : J unit :=
  do! r := se_try (must [] (ReadFile (B "/proc/sys/user/max_user_namespaces"))) in
  match (match r with Ok s => parse_uint u64_max (trim s) | Err _ => None end) with
  | Some 0%N => se_ret (Err UsernsDisabled)
  | None => se_ret (Err UsernsUnreadable)
  | Some _ =>
      do! r := se_try (must [] (ReadFile (B "/proc/sys/kernel/unprivileged_userns_clone"))) in
      se_ret (match r with Ok s => if beq (trim s) (B "0") then Err UsernsCloneDisabled else Ok tt | Err _ => Ok tt end)
  end.

Fixpoint missing_controller (have : list bytes) (want : list bytes) : option bytes :=
  match want with
  | [] => None
  | c :: want => if existsb (beq c) have then missing_controller have want else Some c
  end.

Definition check_cgroup_delegation : J unit :=
  do! deleg := delegated_cgroup_root in
  do! controllers := must (B "reading controllers") (ReadFile (Digest.path_join deleg (B "cgroup.controllers"))) in
  match missing_controller (split_whitespace controllers) [B "cpu"; B "memory"; B "pids"] with
  | Some c => se_ret (Err (MissingController c))
  | None =>
      do! current := current_cgroup_abs in
      se_ret (if HostIo.path_starts_with (HostIo.components current) (HostIo.components deleg) then Ok tt else Err OutsideDelegation)
  end.

Definition check_kvm : J unit := do! _ := must (B "opening /dev/kvm") (OpenReadWrite (B "/dev/kvm")) in se_ret (Ok tt).

Definition resolve_jail_bin_from (env_bin sibling : option bytes) (home_bin : bytes) : J bytes :=
  match env_bin with
  | Some path => do! e := holds (Exists path) in se_ret (if (e : bool) then Ok path else Err (JailBinMissing path))
  | None =>
      let at_home := do! e := holds (Exists home_bin) in se_ret (if (e : bool) then Ok home_bin else Err NoJailBin) in
      match sibling with
      | Some s => do! e := holds (Exists s) in if (e : bool) then se_ret (Ok s) else at_home
      | None => at_home
      end
  end.

Definition resolve_jail_bin : J bytes :=
  let env_bin := match env (B "ISOPOD_JAIL_BIN") with Some [] | None => None | Some p => Some p end in
  let sibling := match current_exe with Some exe => option_map (fun d => Digest.path_join d (B "isopod-jail")) (Launcher.parent exe) | None => None end in
  do! home := isopod_home in
  resolve_jail_bin_from env_bin sibling (Digest.path_join home (B "bin/isopod-jail")).

Definition preflight : J unit :=
  do! _ := check_userns in
  do! _ := check_cgroup_delegation in
  do! _ := resolve_jail_bin in
  check_kvm.

(** ** Setup and teardown *)

Definition flags (leaf root : bytes) (uid gid : N) (binds : list Bind) (devs : list bytes) : list bytes :=
  [B "--cgroup"; from_utf8_lossy leaf; B "--root"; from_utf8_lossy root; B "--uid"; show_N uid; B "--gid"; show_N gid] ++
  flat_map (fun b => [B "--bind"; arg b]) binds ++
  flat_map (fun d => [B "--dev"; from_utf8_lossy d]) devs ++ [B "--"].

Definition jail_root (vm_dir : bytes) : bytes := Digest.path_join vm_dir (B "jail-root").

Definition setup (vm_dir : bytes) (r : Resources.Resources) (binds : list Bind) (devs : list bytes) : J JailSpec :=
  do! ids := real_uid_gid in
  do! vm_id := se_ret (ok_or (HostIo.file_name (HostIo.components vm_dir)) NoFinalComponent) in
  let root := jail_root vm_dir in
  do! _ := must (B "creating chroot dir") (CreateDirAll root) in
  do! leaf := create_cgroup (from_utf8_lossy vm_id) r in
  do! jail_bin := resolve_jail_bin in
  se_ret (Ok (MkSpec (from_utf8_lossy jail_bin :: flags leaf root (fst ids) (snd ids) binds devs) leaf root)).

Definition teardown (spec : JailSpec) : J unit :=
  do! _ := se_try (must [] (RemoveDir (cgroup_leaf spec))) in
  match Launcher.parent (cgroup_leaf spec) with
  | Some slice => do! _ := se_try (must [] (RemoveDir slice)) in se_ret (Ok tt)
  | None => se_ret (Ok tt)
  end.

Definition MIN_AGE : N := 60.

Definition sweep_one (path : bytes) : J unit :=
  do! d := holds (IsDir path) in
  if negb d then se_ret (Ok tt)
  else
    do! age := se_try (ask host (AgeOf path)) in
    let young := match age with Ok s => (value_of s <? MIN_AGE)%N | Err _ => true end in
    if young then se_ret (Ok tt) else do! _ := se_try (must [] (RemoveDir path)) in se_ret (Ok tt).

Definition sweep_stale_cgroups : J unit :=
  do! r := se_try delegated_cgroup_root in
  match r with
  | Err _ => se_ret (Ok tt)
  | Ok deleg =>
      let slice := Digest.path_join deleg ISOPOD_SLICE in
      do! entries := se_try (ask host (ReadDir slice)) in
      do! _ := match (entries : result bytes IoError) with
               | Ok ns => se_iter (fun n => sweep_one (Digest.path_join slice n)) (List.filter (fun n => negb (beq n [])) (split "/" ns))
               | Err _ => se_ret (Ok tt)
               end in
      do! _ := se_try (must [] (RemoveDir slice)) in se_ret (Ok tt)
  end.
End jail.

(** ** The launcher's arguments *)

Lemma parse_arg b : Launcher.parse_bind_spec (arg b) = (from_utf8_lossy (bind_path b), writable b).
Proof.
  unfold Launcher.parse_bind_spec, arg.
  assert (H : forall a m, ":"%char ∉ m -> rsplit_once ":" (a ++ B ":" ++ m) = Some (a, m)) by (intros a m Hm; by apply rsplit_once_Some).
  destruct (writable b); rewrite H by (cbn; set_solver); done.
Qed.

Lemma parse_binds bs rest g : Launcher.parse_args (flat_map (fun b => [B "--bind"; arg b]) bs ++ rest) g =
  Launcher.parse_args rest (Launcher.MkGathered (Launcher.g_cgroup g) (Launcher.g_root g) (Launcher.g_uid g) (Launcher.g_gid g)
    (Launcher.g_binds g ++ map (fun b => (from_utf8_lossy (bind_path b), writable b)) bs) (Launcher.g_devs g) (Launcher.g_program g)).
Proof.
  revert g. induction bs as [|b bs IH]; intros g; cbn [flat_map map].
  - rewrite app_nil_r. by destruct g.
  - change (Launcher.parse_args (([B "--bind"; arg b] ++ ?l) ++ rest) g) with
      (Launcher.parse_args (l ++ rest) (Launcher.MkGathered (Launcher.g_cgroup g) (Launcher.g_root g) (Launcher.g_uid g) (Launcher.g_gid g)
        (Launcher.g_binds g ++ [Launcher.parse_bind_spec (arg b)]) (Launcher.g_devs g) (Launcher.g_program g))).
    rewrite IH. cbn [Launcher.g_cgroup Launcher.g_root Launcher.g_uid Launcher.g_gid Launcher.g_binds Launcher.g_devs Launcher.g_program].
    by rewrite parse_arg, <- app_assoc.
Qed.

Lemma parse_devs ds rest g : Launcher.parse_args (flat_map (fun d => [B "--dev"; from_utf8_lossy d]) ds ++ rest) g =
  Launcher.parse_args rest (Launcher.MkGathered (Launcher.g_cgroup g) (Launcher.g_root g) (Launcher.g_uid g) (Launcher.g_gid g)
    (Launcher.g_binds g) (Launcher.g_devs g ++ map from_utf8_lossy ds) (Launcher.g_program g)).
Proof.
  revert g. induction ds as [|d ds IH]; intros g; cbn [flat_map map].
  - rewrite app_nil_r. by destruct g.
  - change (Launcher.parse_args (([B "--dev"; from_utf8_lossy d] ++ ?l) ++ rest) g) with
      (Launcher.parse_args (l ++ rest) (Launcher.MkGathered (Launcher.g_cgroup g) (Launcher.g_root g) (Launcher.g_uid g) (Launcher.g_gid g)
        (Launcher.g_binds g) (Launcher.g_devs g ++ [from_utf8_lossy d]) (Launcher.g_program g))).
    rewrite IH. cbn [Launcher.g_cgroup Launcher.g_root Launcher.g_uid Launcher.g_gid Launcher.g_binds Launcher.g_devs Launcher.g_program].
    by rewrite <- app_assoc.
Qed.

(** What the host writes the launcher reads, whatever the paths hold. *)
Lemma flags_parse leaf root uid gid binds devs argv : (uid <= u32_max)%N -> (gid <= u32_max)%N -> argv <> [] ->
  Launcher.parse (flags leaf root uid gid binds devs ++ argv) =
    Ok (Launcher.MkArgs (Some (from_utf8_lossy leaf)) (from_utf8_lossy root) uid gid
      (map (fun b => (from_utf8_lossy (bind_path b), writable b)) binds) (map from_utf8_lossy devs) argv).
Proof.
  intros Hu Hg Ha. unfold Launcher.parse, flags. rewrite <- !app_assoc.
  change ([B "--cgroup"; ?a; B "--root"; ?b; B "--uid"; ?c; B "--gid"; ?d] ++ ?l) with
    (B "--cgroup" :: a :: B "--root" :: b :: B "--uid" :: c :: B "--gid" :: d :: l).
  match goal with |- context [Launcher.parse_args (_ :: _ :: _ :: _ :: _ :: _ :: _ :: _ :: ?l) ?g] => set (rest := l); set (g0 := g) end.
  assert (E : Launcher.parse_args (B "--cgroup" :: from_utf8_lossy leaf :: B "--root" :: from_utf8_lossy root :: B "--uid" :: show_N uid :: B "--gid" :: show_N gid :: rest) g0 =
    match Launcher.parse_u32 (show_N uid) with
    | Some u => match Launcher.parse_u32 (show_N gid) with
                | Some g => Launcher.parse_args rest (Launcher.MkGathered (Some (from_utf8_lossy leaf)) (Some (from_utf8_lossy root)) (Some u) (Some g) [] [] [])
                | None => Err (Launcher.InvalidId (B "--gid") (show_N gid))
                end
    | None => Err (Launcher.InvalidId (B "--uid") (show_N uid))
    end) by reflexivity.
  rewrite E. unfold Launcher.parse_u32. rewrite !parse_show by done. unfold rest. rewrite parse_binds, parse_devs.
  cbn [Launcher.g_cgroup Launcher.g_root Launcher.g_uid Launcher.g_gid Launcher.g_binds Launcher.g_devs Launcher.g_program app].
  match goal with |- context [Launcher.parse_args (B "--" :: argv) ?g] =>
    change (Launcher.parse_args (B "--" :: argv) g) with
      (Ok (E := Launcher.UsageError) (Launcher.MkGathered (Launcher.g_cgroup g) (Launcher.g_root g) (Launcher.g_uid g) (Launcher.g_gid g) (Launcher.g_binds g) (Launcher.g_devs g) argv)) end.
  cbn. by destruct argv.
Qed.

(** ** The jail Firecracker is in *)

Lemma names_jail_root vm_dir : Launcher.path_names (jail_root vm_dir) = Launcher.path_names vm_dir ++ [B "jail-root"].
Proof. unfold jail_root. by rewrite Launcher.path_names_join. Qed.

Lemma comparable {A} (a b p : list A) : a `prefix_of` p -> b `prefix_of` p -> a `prefix_of` b \/ b `prefix_of` a.
Proof. apply prefix_weak_total. Qed.

Section jailed.
Context (home vm_dir fc_path leaf : bytes) (libs : list bytes) (network : bool) (uid gid : N) (argv : list bytes) (t0 : Table).

Abbreviation names_of := Launcher.path_names.

(** A state directory outside [/dev] and [/proc], the machine's directory in it, and nothing else that is
    bound above or below the machine's. *)
Record apart : Prop := {
  utf8 : Forall (fun s => is_utf8 s = true) (home :: vm_dir :: fc_path :: leaf :: libs);
  home_ne : names_of home <> [];
  home_dev : ~ names_of (B "/dev") `prefix_of` names_of home;
  home_proc : ~ Launcher.PROC `prefix_of` names_of home;
  vm_below : names_of home `prefix_of` names_of vm_dir;
  others : Forall (fun s => ~ names_of s `prefix_of` names_of vm_dir /\ ~ names_of vm_dir `prefix_of` names_of s) (fc_path :: libs) }.

Definition jailed_args : Launcher.Args :=
  Launcher.MkArgs (Some leaf) (jail_root vm_dir) uid gid
    (map (fun b => (bind_path b, writable b)) (binds_for home vm_dir fc_path ++ map ro libs)) (standard_devs network) argv.

Hypothesis (Hap : apart).

Definition fc_bind : list (names * bool) :=
  if HostIo.path_starts_with (HostIo.components fc_path) (HostIo.components home) then [] else [(names_of fc_path, false)].

Lemma jailed_sources : Launcher.sources jailed_args =
  (names_of home, false) :: (names_of vm_dir, true) :: (fc_bind ++ map (fun l => (names_of l, false)) libs) ++
  map (fun d => (names_of d, true)) (standard_devs network).
Proof.
  unfold Launcher.sources, jailed_args, binds_for, fc_bind. cbn [Launcher.binds Launcher.devs]. rewrite !map_app, !map_map.
  destruct (HostIo.path_starts_with _ _); cbn [map app]; done.
Qed.

Lemma devices_in_dev s : (s, true) ∈ map (fun d => (names_of d, true)) (standard_devs network) -> names_of (B "/dev") `prefix_of` s.
Proof using.
  clear Hap. unfold standard_devs. intros (d & [= ->] & Hd)%list_elem_of_fmap. revert Hd.
  assert (H : Forall (fun d => names_of (B "/dev") `prefix_of` names_of d) [B "/dev/kvm"; B "/dev/null"; B "/dev/urandom"; B "/dev/net/tun"]).
  { apply (Forall_impl (fun d => exists r, names_of d = names_of (B "/dev") ++ r)); [|intros e [r ->]; by eexists].
    repeat (apply Forall_cons; split); [by eexists [_]|by eexists [_]|by eexists [_]|by eexists [_; _]|done]. }
  rewrite Forall_forall in H. intros Hd. apply H. destruct network; set_solver.
Qed.

Lemma below_home p : names_of home `prefix_of` p -> ~ names_of (B "/dev") `prefix_of` p /\ ~ Launcher.PROC `prefix_of` p.
Proof.
  intros Hp. split; intros H; destruct (comparable _ _ _ Hp H) as [Hc|Hc];
    [|by apply (home_dev Hap)| |by apply (home_proc Hap)].
  - destruct (names_of home) as [|x l] eqn:E; [by destruct (home_ne Hap)|]. apply (home_dev Hap). rewrite E. change (names_of (B "/dev")) with [B "dev"] in *.
    destruct Hc as [k Hk]. destruct l; [|done]. injection Hk as ->. done.
  - destruct (names_of home) as [|x l] eqn:E; [by destruct (home_ne Hap)|]. apply (home_proc Hap). rewrite E. unfold Launcher.PROC in *.
    destruct Hc as [k Hk]. destruct l; [|done]. injection Hk as ->. done.
Qed.

Lemma quiet_sources p : names_of vm_dir `prefix_of` p ->
  Forall (fun x => ~ fst x `prefix_of` p) ((fc_bind ++ map (fun l => (names_of l, false)) libs) ++ map (fun d => (names_of d, true)) (standard_devs network)).
Proof.
  intros Hp. pose proof (others Hap) as Ho. apply Forall_app. split.
  - assert (Hs : forall s, s ∈ fc_path :: libs -> ~ names_of s `prefix_of` p).
    { intros s Hs H. rewrite Forall_forall in Ho. destruct (Ho s Hs) as [H1 H2]. by destruct (comparable _ _ _ H Hp). }
    apply Forall_app. split.
    + unfold fc_bind. destruct (HostIo.path_starts_with _ _); [done|]. apply Forall_singleton. cbn [fst]. apply Hs. by left.
    + apply Forall_forall. intros x (l & -> & Hl)%list_elem_of_fmap. apply Hs. by right.
  - apply Forall_forall. intros x (d & -> & Hd)%list_elem_of_fmap H. cbn [fst] in H.
    assert (Hdev : names_of (B "/dev") `prefix_of` names_of d) by (apply devices_in_dev, list_elem_of_fmap; by exists d).
    destruct (below_home p) as [Hnd _]; [etransitivity; [apply (vm_below Hap)|done]|]. apply Hnd. by etransitivity.
Qed.
End jailed.

(** C6: the jail Firecracker runs in.  The arguments the host puts before Firecracker's command line are read
    by the launcher as they are meant, and what the launcher then builds is this, whatever the host has
    mounted where: the whole state directory at its own path but read-only, its submounts included; the
    machine's directory at its own path, writable as the host has it; and nowhere outside [/proc] a
    place to write but in the machine's directory and the standard devices. *)
Theorem jailed_firecracker home vm_dir fc_path leaf libs network uid gid argv t0 :
  apart home vm_dir fc_path leaf libs -> (uid <= u32_max)%N -> (gid <= u32_max)%N -> argv <> [] ->
  (exists m, m ∈ t0 /\ point m = []) ->
  exists args,
    Launcher.parse (flags leaf (jail_root vm_dir) uid gid (binds_for home vm_dir fc_path ++ map ro libs) (standard_devs network) ++ argv) = Ok args /\
    Launcher.program args = argv /\
    (forall p, Launcher.path_names home `prefix_of` p -> ~ Launcher.path_names vm_dir `prefix_of` p ->
      Launcher.jail_sees args t0 p = option_map made_ro (seen t0 p)) /\
    (forall p, Launcher.path_names vm_dir `prefix_of` p -> ~ Launcher.path_names (jail_root vm_dir) `prefix_of` p ->
      Launcher.jail_sees args t0 p = seen t0 p) /\
    (forall p v, Launcher.jail_sees args t0 p = Some v -> v_ro v = false ->
      v_fs v = Proc /\ Launcher.PROC `prefix_of` p \/
      exists q u, (Launcher.path_names vm_dir `prefix_of` q \/ exists d, d ∈ standard_devs network /\ Launcher.path_names d `prefix_of` q) /\
        seen t0 q = Some u /\ v_fs v = v_fs u /\ v_place v = v_place u /\ v_ro u = false).
Proof.
  intros Hap Hu Hg Ha Ht. pose proof (utf8 _ _ _ _ _ Hap) as H8. rewrite !Forall_cons in H8. destruct H8 as (Hh & Hv & Hf & Hl & Hls).
  exists (jailed_args home vm_dir fc_path leaf libs network uid gid argv).
  assert (Hroot : Launcher.path_names (jail_root vm_dir) <> []) by (rewrite names_jail_root; by destruct (Launcher.path_names vm_dir)).
  assert (Hin : Launcher.path_names vm_dir `prefix_of` Launcher.path_names (jail_root vm_dir)) by (rewrite names_jail_root; by eexists).
  split_and!; [| | | |].
  - rewrite flags_parse by done. unfold jailed_args. f_equal. f_equal.
    + by rewrite lossy_valid.
    + apply lossy_valid. unfold jail_root, Digest.path_join. change (starts_with (B "/") (B "jail-root")) with false. cbn [negb].
      assert (Hlit : is_utf8 (B "jail-root") = true) by reflexivity.
      destruct (beq vm_dir [] || ends_with (B "/") vm_dir); [|rewrite app_assoc]; apply is_utf8_app; try done. by apply is_utf8_app.
    + apply map_ext_in. intros b Hb. f_equal. apply lossy_valid. apply in_app_or in Hb as [Hb|Hb].
      * unfold binds_for in Hb. destruct (HostIo.path_starts_with _ _); cbn in Hb; naive_solver.
      * apply in_map_iff in Hb as (x & <- & Hx). rewrite Forall_forall in Hls. apply Hls. by apply list_elem_of_In.
    + unfold standard_devs. by destruct network.
  - done.
  - intros p Hp Hnv. rewrite Launcher.jail_identity by (try done; cbn [Launcher.root jailed_args]; intros H; apply Hnv; by etransitivity).
    destruct (below_home _ _ _ _ _ Hap _ Hp) as [Hnd Hnp]. rewrite bool_decide_eq_false_2 by done.
    destruct (serving_ro (Launcher.sources (jailed_args home vm_dir fc_path leaf libs network uid gid argv)) p (Launcher.path_names home, false)) as [s ->]; [| | |done].
    + rewrite jailed_sources. by left.
    + done.
    + intros s. rewrite jailed_sources, !elem_of_cons, !elem_of_app. intros [[=]|[[= ->]|[[Hb|Hb]|Hb]]]; [done| | |].
      * unfold fc_bind in Hb. destruct (HostIo.path_starts_with _ _); [by apply elem_of_nil in Hb|by apply list_elem_of_singleton in Hb].
      * by apply list_elem_of_fmap in Hb as (? & [=] & _).
      * intros H. apply Hnd. etransitivity; [by apply (devices_in_dev network)|done].
  - intros p Hp Hnr. assert (Hph : Launcher.path_names home `prefix_of` p) by (etransitivity; [apply (vm_below _ _ _ _ _ Hap)|done]).
    rewrite Launcher.jail_identity by done. destruct (below_home _ _ _ _ _ Hap _ Hph) as [_ Hnp]. rewrite bool_decide_eq_false_2 by done.
    rewrite jailed_sources. change ((?a :: ?b :: ?l)) with ([a] ++ b :: l). rewrite serving_split; [done|done|].
    by eapply quiet_sources.
  - intros p v Hs Hro. destruct (Launcher.jail_confines (jailed_args home vm_dir fc_path leaf libs network uid gid argv) t0 p v Ht Hroot Hs) as [?|(b & w & q & u & Hb & Hq & Hu' & Hfs & Hpl & Hw)]; [by left|right].
    destruct (Hw Hro) as [-> Hur]. exists q, u. split; [|done]. cbn [Launcher.root jailed_args] in Hb. rewrite jailed_sources in Hb.
    rewrite !elem_of_cons, !elem_of_app in Hb. destruct Hb as [[= ->]|[[=]|[[= ->]|[[Hb|Hb]|Hb]]]].
    + left. by etransitivity.
    + by left.
    + unfold fc_bind in Hb. destruct (HostIo.path_starts_with _ _); [by apply elem_of_nil in Hb|by apply list_elem_of_singleton in Hb].
    + by apply list_elem_of_fmap in Hb as (? & [=] & _).
    + right. apply list_elem_of_fmap in Hb as (d & [= ->] & Hd). by exists d.
Qed.

(** ** What is prepared before the launch *)

(** The calls that change something. *)
Definition changes (c : HostCall) : bool := match c with CreateDirAll _ | WriteFile _ _ | RemoveDir _ => true | _ => false end.

(** From [h] to [h'] the changes that were granted are [cs]. *)
Definition changed (h h' : LogOf HostCall) (cs : list HostCall) : Prop := exists new, h' = h ++ new /\ List.filter changes (granted new) = cs.

Lemma changed_refl h : changed h h [].
Proof. exists []. by rewrite app_nil_r. Qed.

Lemma changed_trans h1 h2 h3 a b : changed h1 h2 a -> changed h2 h3 b -> changed h1 h3 (a ++ b).
Proof.
  intros (n1 & -> & <-) (n2 & -> & <-). exists (n1 ++ n2). split; [by rewrite app_assoc|]. by rewrite granted_app, List.filter_app.
Qed.

Section prepared.
Context (host : LogOf HostCall -> HostCall -> result bytes IoError) (env : bytes -> option bytes) (home current_exe : option bytes).

Lemma must_changed step c h a h' : must host step c h = (Ok a, h') -> changed h h' (if changes c then [c] else []).
Proof.
  unfold must, se_map_err, ask. destruct (host h c) as [x|e] eqn:E; cbn [map_err]; [|done]. intros [= <- <-]. exists [(c, Ok x)]. split; [done|].
  cbn [granted omap list_omap is_ok snd fst List.filter]. by destruct (changes c).
Qed.

Lemma holds_changed c h b h' : changes c = false -> holds host c h = (Ok b, h') -> changed h h' [].
Proof.
  intros Hc. unfold holds, se_bind, se_try, ask, se_ret. intros [= <- <-]. exists [(c, host h c)]. split; [done|].
  unfold granted. cbn [omap list_omap snd fst]. destruct (is_ok _); [|done]. cbn [List.filter]. by rewrite Hc.
Qed.

Lemma must_looks step c h r h' : changes c = false -> must host step c h = (r, h') -> changed h h' [].
Proof.
  intros Hc. unfold must, se_map_err, ask. intros [= <- <-]. exists [(c, host h c)]. split; [done|].
  unfold granted. cbn [omap list_omap snd fst]. destruct (is_ok _); [|done]. cbn [List.filter]. by rewrite Hc.
Qed.

(** What the process's status line says of its real ids. *)
Definition ids_read (h : LogOf HostCall) (uid gid : N) : Prop := exists status,
  host h (ReadFile (B "/proc/self/status")) = Ok status /\
  parse_status_id status (B "Uid:") = Some uid /\ parse_status_id status (B "Gid:") = Some gid.

Lemma ids_run h ids h' : real_uid_gid host h = (Ok ids, h') ->
  changed h h' [] /\ (fst ids <= u32_max)%N /\ (snd ids <= u32_max)%N /\ ids_read h (fst ids) (snd ids).
Proof.
  unfold real_uid_gid. intros (status & h1 & H1 & H2)%se_bind_Ok. pose proof (must_changed _ _ _ _ _ H1) as C1. cbn [changes] in C1. unfold se_ret in H2.
  destruct (parse_status_id status (B "Uid:")) as [u|] eqn:Eu; [|done]. destruct (parse_status_id status (B "Gid:")) as [g|] eqn:Eg; [|done].
  injection H2 as <- <-. split; [done|]. cbn [fst snd].
  assert (Hb : forall key n, parse_status_id status key = Some n -> (n <= u32_max)%N).
  { intros key n. unfold parse_status_id. induction (str_lines status) as [|l ls IH]; [done|]. cbn [parse_status_id_in].
    destruct (match strip_prefix key l with Some _ => _ | None => _ end) eqn:E; [|done]. intros [= <-].
    destruct (strip_prefix key l); [|done]. destruct (head _); [|done]. by eapply parse_uint_bound. }
  split_and!; [by eapply Hb..|]. exists status. split; [|done].
  unfold must, se_map_err, ask in H1. destruct (host h _) as [x|e]; cbn [map_err] in H1; [by injection H1 as -> _|done].
Qed.

(** The delegated root is the process's own, or the user's conventional one, and it is a directory. *)
Lemma delegated_run h d h' : delegated_cgroup_root host h = (Ok d, h') -> changed h h' [] /\
  (exists uid gid, (uid <= u32_max)%N /\ ids_read h uid gid /\ d = conventional_root uid) \/
  changed h h' [] /\ exists raw rel p, parse_cgroup_v2_path raw = Some rel /\ truncate_through_user_service rel = Some p /\ d = Digest.path_join CGROUP_MOUNT (trim_slashes p).
Proof.
  unfold delegated_cgroup_root. intros (ids & h1 & H1 & H2)%se_bind_Ok. apply ids_run in H1 as (C1 & Hu & _ & Hr). cbn zeta beta in H2.
  apply se_bind_Ok in H2 as (raw & h2 & H2 & H3). apply (proj1 (se_try_Ok (F := JailError) _ _ _ _)) in H2. apply must_looks in H2 as C2; [|done].
  assert (C12 : changed h h2 []) by (eapply (changed_trans _ _ _ [] []); eauto).
  set (conventional := do! d0 := holds host (IsDir (conventional_root (fst ids))) in se_ret (if (d0 : bool) then Ok (conventional_root (fst ids)) else Err NoDelegatedRoot)) in *.
  assert (Hconv : forall h0 h3, changed h h0 [] -> conventional h0 = (Ok d, h3) ->
    changed h h3 [] /\ (exists uid gid, (uid <= u32_max)%N /\ ids_read h uid gid /\ d = conventional_root uid)).
  { intros h0 h3 C (b & h4 & Hb & E)%se_bind_Ok. apply holds_changed in Hb; [|done]. unfold se_ret in E. destruct b; [|done]. injection E as <- <-.
    split; [by eapply (changed_trans _ _ _ [] [])|by exists (fst ids), (snd ids)]. }
  destruct (own_delegation raw) as [p|] eqn:Eo; [|left; by eapply Hconv].
  apply se_bind_Ok in H3 as (b & h3 & Hb & E). apply holds_changed in Hb; [|done].
  assert (C13 : changed h h3 []) by (eapply (changed_trans _ _ _ [] []); eauto). destruct b; [|left; by eapply Hconv].
  unfold se_ret in E. injection E as <- <-. right. split; [done|]. unfold own_delegation in Eo. destruct raw as [raw|]; [|done].
  destruct (parse_cgroup_v2_path raw) as [rel|] eqn:Er; [|done]. destruct (truncate_through_user_service rel) as [q|] eqn:Eq; [|done]. injection Eo as <-.
  by exists raw, rel, q.
Qed.

Lemma resolve_bin_run h b h' : resolve_jail_bin host env home current_exe h = (Ok b, h') -> changed h h' [].
Proof.
  unfold resolve_jail_bin. intros (hm & h1 & [= _ <-] & H)%se_bind_Ok. revert H. generalize (Digest.path_join hm (B "bin/isopod-jail")).
  intros hb. unfold resolve_jail_bin_from. set (at_home := do! e := holds host (Exists hb) in se_ret (if (e : bool) then Ok hb else Err NoJailBin)).
  assert (Hh : forall h0 h2, at_home h0 = (Ok b, h2) -> changed h0 h2 []).
  { intros h0 h2 (e & h3 & He & E)%se_bind_Ok. apply holds_changed in He; [|done]. unfold se_ret in E. destruct e; [|done]. by injection E as _ <-. }
  assert (H1 : forall p h0 h2 (k : bool -> SE (LogOf HostCall) JailError bytes), (forall e h3, k e h3 = (Ok b, h2) -> changed h3 h2 []) ->
    se_bind (holds host (Exists p)) k h0 = (Ok b, h2) -> changed h0 h2 []).
  { intros p h0 h2 k Hk (e & h3 & He & E)%se_bind_Ok. apply holds_changed in He; [|done]. eapply (changed_trans _ _ _ [] []); [done|by eapply Hk]. }
  assert (Hret : forall e (x y : result bytes JailError) h3 h2, se_ret (if (e : bool) then x else y) h3 = (Ok b, h2) -> changed h3 h2 []).
  { intros e x y h3 h2 [= _ <-]. apply changed_refl. }
  destruct (match env _ with Some _ => _ | None => _ end) as [p|]; [apply H1; intros e h3; by apply Hret|].
  destruct (match current_exe with Some _ => _ | None => _ end) as [s|]; [|apply Hh].
  apply H1. intros e h3. destruct e; [|apply Hh]. intros [= _ <-]. apply changed_refl.
Qed.

(** ** Numbers *)

(** The cap and the quota as numbers, which wrap at 64 bits. *)
Lemma mem_max_spec r : mem_max_bytes env r = (((Resources.mem_mib r + mem_overhead_mib env (Resources.mem_mib r)) * 1048576) mod 18446744073709551616)%N.
Proof.
  unfold mem_max_bytes, wrap64. change (u64_max + 1)%N with 18446744073709551616%N. by rewrite N.Div0.mul_mod_idemp_l, <- N.mul_assoc, N.Div0.mul_mod_idemp_l.
Qed.

Lemma cpu_max_spec r : cpu_max_value r = show_N ((Resources.vcpus r * 100000) mod 18446744073709551616)%N ++ B " 100000".
Proof. done. Qed.

(** The cap of a machine that fits the size check holds its memory and what was asked for on top, exactly,
    for every overhead below eight exbibytes; and the processors' quota is as many whole periods. *)
Lemma limits_exact m v o : (m <= 4096)%N -> (v <= 32)%N -> (o <= 8796093022208)%N ->
  (((m + o) * 1048576) mod 18446744073709551616 = (m + o) * 1048576)%N /\ ((v * 100000) mod 18446744073709551616 = v * 100000)%N.
Proof. intros Hm Hv Ho. split; apply N.mod_small; lia. Qed.

Definition limits (slice leaf : bytes) (mem_max quota : N) : list HostCall :=
  [CreateDirAll slice; WriteFile (Digest.path_join slice (B "cgroup.subtree_control")) (B "+cpu +memory +pids"); CreateDirAll leaf;
   WriteFile (Digest.path_join leaf (B "memory.max")) (show_N mem_max);
   WriteFile (Digest.path_join leaf (B "cpu.max")) (show_N quota ++ B " 100000");
   WriteFile (Digest.path_join leaf (B "pids.max")) (B "128")].

(** C29: no launch without limits.  A set-up that succeeds has made the jail's directory, and in the slice of a
    delegated root — the process's own, or the user's conventional one — the machine's cgroup with its
    limits, in this order and nothing else: as many bytes of memory as the machine's mebibytes and the
    overhead are (a quarter of the machine and at least 256 MiB, unless the environment has a number), of
    every 100000 microseconds as many as it has processors times over, and 128 processes.  The numbers
    wrap at 64 bits, which a machine within the size check and an overhead below eight exbibytes do not
    reach.  What it hands out as the command prefix names that cgroup, that directory, the real user and
    group of the process, in this order, and the binds and devices asked for. *)
Theorem setup_limits vm_dir r binds devs h spec h' :
  setup host env home current_exe vm_dir r binds devs h = (Ok spec, h') ->
  exists deleg name bin uid gid overhead mem_max quota,
    HostIo.file_name (HostIo.components vm_dir) = Some name /\ (uid <= u32_max)%N /\ (gid <= u32_max)%N /\ ids_read h uid gid /\
    let slice := Digest.path_join deleg ISOPOD_SLICE in
    let leaf := Digest.path_join slice (from_utf8_lossy name) in
    let root := Digest.path_join vm_dir (B "jail-root") in
    ((exists u g, (u <= u32_max)%N /\ (exists hu, ids_read hu u g) /\ deleg = conventional_root u) \/
      exists raw rel p, parse_cgroup_v2_path raw = Some rel /\ truncate_through_user_service rel = Some p /\ deleg = Digest.path_join CGROUP_MOUNT (trim_slashes p)) /\
    (env (B "ISOPOD_JAIL_MEM_OVERHEAD_MIB") = None -> overhead = N.max 256 (Resources.mem_mib r / 4)) /\
    (forall v n, env (B "ISOPOD_JAIL_MEM_OVERHEAD_MIB") = Some v -> parse_uint u64_max (trim v) = Some n -> overhead = n) /\
    mem_max = ((Resources.mem_mib r + overhead) * 1048576 mod 18446744073709551616)%N /\
    quota = (Resources.vcpus r * 100000 mod 18446744073709551616)%N /\
    ((Resources.mem_mib r <= 4096)%N -> (Resources.vcpus r <= 32)%N -> (overhead <= 8796093022208)%N ->
      mem_max = ((Resources.mem_mib r + overhead) * 1048576)%N /\ quota = (Resources.vcpus r * 100000)%N) /\
    changed h h' (CreateDirAll root :: limits slice leaf mem_max quota) /\
    cgroup_leaf spec = leaf /\ spec_root spec = root /\
    prefix spec = bin :: [B "--cgroup"; from_utf8_lossy leaf; B "--root"; from_utf8_lossy root; B "--uid"; show_N uid; B "--gid"; show_N gid] ++
      flat_map (fun b => [B "--bind"; arg b]) binds ++ flat_map (fun d => [B "--dev"; from_utf8_lossy d]) devs ++ [B "--"].
Proof.
  unfold setup. intros (ids & h1 & H1 & H)%se_bind_Ok. apply ids_run in H1 as (C1 & Hu & Hg & Hr).
  apply se_bind_Ok in H as (name & h2 & [= E2 <-] & H). apply se_bind_Ok in H as (u3 & h3 & H3 & H). apply must_changed in H3 as C3. cbn [changes] in C3.
  apply se_bind_Ok in H as (leaf & h4 & H4 & H). apply se_bind_Ok in H as (bin & h5 & H5 & [= <- <-]). apply resolve_bin_run in H5.
  unfold create_cgroup in H4. apply se_bind_Ok in H4 as (deleg & k1 & K1 & H4).
  apply se_bind_Ok in H4 as (? & k2 & K2%must_changed & H4). apply se_bind_Ok in H4 as (? & k3 & K3%must_changed & H4).
  apply se_bind_Ok in H4 as (? & k4 & K4%must_changed & H4). apply se_bind_Ok in H4 as (? & k5 & K5%must_changed & H4).
  apply se_bind_Ok in H4 as (? & k6 & K6%must_changed & H4). apply se_bind_Ok in H4 as (? & k7 & K7%must_changed & [= <- <-]).
  rewrite mem_max_spec in K5. rewrite cpu_max_spec in K6. cbn [changes] in *.
  eexists deleg, name, (from_utf8_lossy bin), (fst ids), (snd ids), (mem_overhead_mib env (Resources.mem_mib r)), _, _.
  destruct (HostIo.file_name _) as [n|]; [|done]. injection E2 as ->.
  apply delegated_run in K1. assert (CK1 : changed h3 k1 []) by tauto. cbn zeta. split_and!; try done.
  - destruct K1 as [[_ (u & g & Hu' & Hr' & ->)]|[_ K1]]; [left; exists u, g; eauto|by right].
  - unfold mem_overhead_mib. by intros ->.
  - unfold mem_overhead_mib. by intros v n -> ->.
  - by apply limits_exact.
  - change (CreateDirAll ?a :: limits ?s ?l ?m ?q) with ([] ++ [CreateDirAll a] ++ [] ++ [CreateDirAll s] ++ [WriteFile (Digest.path_join s (B "cgroup.subtree_control")) (B "+cpu +memory +pids")] ++
      [CreateDirAll l] ++ [WriteFile (Digest.path_join l (B "memory.max")) (show_N m)] ++ [WriteFile (Digest.path_join l (B "cpu.max")) (show_N q ++ B " 100000")] ++
      [WriteFile (Digest.path_join l (B "pids.max")) (B "128")] ++ []).
    repeat (eapply changed_trans; [eassumption|]). done.
Qed.
End prepared.

(** ** Overheads and cgroup paths *)

(** The default overhead is within it, and never less than a quarter of the machine. *)
Lemma default_overhead_bounds m : (m <= u32_max)%N -> (256 <= default_overhead_mib m /\ m / 4 <= default_overhead_mib m /\ default_overhead_mib m <= 8796093022208)%N.
Proof.
  unfold default_overhead_mib, u32_max. intros Hm. assert (m / 4 <= m)%N by (apply N.Div0.div_le_upper_bound; lia). lia.
Qed.

(** A larger overhead wraps: what is to widen the cap takes it away. *)
Example overhead_wraps :
  mem_max_bytes (fun v => if beq v (B "ISOPOD_JAIL_MEM_OVERHEAD_MIB") then Some (B "17592186044416") else None) (Resources.MkResources 2 512) = 536870912%N.
Proof. reflexivity. Qed.

Lemma through_spec kept comps p : through_user_service kept comps = Some p <->
  exists pre c post, comps = pre ++ c :: post /\ Forall (fun x => is_user_service x = false) pre /\ is_user_service c = true /\
    p = B "/" ++ join ["/"%char] (kept ++ pre ++ [c]).
Proof.
  revert kept. induction comps as [|c comps IH]; intros kept; cbn [through_user_service].
  - split; [done|]. by intros ([|? ?] & ? & ? & ? & _).
  - destruct (is_user_service c) eqn:Ec.
    + split; [intros [= <-]; by exists [], c, comps|]. intros ([|x pre] & c' & post & E & Hpre & Hc & ->).
      * by injection E as -> ->.
      * injection E as -> ->. apply Forall_cons in Hpre as [Hx _]. by rewrite Hx in Ec.
    + rewrite IH. split.
      * intros (pre & c' & post & -> & Hpre & Hc & ->). exists (c :: pre), c', post. split_and!; [done|by constructor|done|]. by rewrite <- app_assoc.
      * intros ([|x pre] & c' & post & E & Hpre & Hc & ->); [by injection E as -> ->; rewrite Hc in Ec|].
        injection E as -> ->. apply Forall_cons in Hpre as [_ Hpre]. exists pre, c', post. split_and!; [done..|]. by rewrite <- app_assoc.
Qed.

(** The delegated root is the path up to the first [user@<uid>.service] in it. *)
Theorem truncate_spec rel p : truncate_through_user_service rel = Some p <->
  exists pre c post, List.filter (fun c => negb (beq c [])) (split "/" rel) = pre ++ c :: post /\
    Forall (fun x => is_user_service x = false) pre /\ is_user_service c = true /\ p = B "/" ++ join ["/"%char] (pre ++ [c]).
Proof. apply through_spec. Qed.

(** The check before a run: the process is in the subtree it will make cgroups in, and the controllers are
    there. *)
Theorem delegation_contains host h h' : check_cgroup_delegation host h = (Ok tt, h') ->
  exists deleg rel, HostIo.components deleg `prefix_of` HostIo.components (Digest.path_join CGROUP_MOUNT (trim_slashes rel)) /\
    (exists raw, parse_cgroup_v2_path raw = Some rel) /\
    exists controllers, Forall (fun c => c ∈ split_whitespace controllers) [B "cpu"; B "memory"; B "pids"].
Proof.
  unfold check_cgroup_delegation. intros (deleg & h1 & _ & H)%se_bind_Ok. apply se_bind_Ok in H as (controllers & h2 & _ & H).
  destruct (missing_controller _ _) as [c|] eqn:Em; [done|]. apply se_bind_Ok in H as (cur & h3 & Hc & [= H <-]).
  unfold current_cgroup_abs in Hc. apply se_bind_Ok in Hc as (raw & h4 & _ & Hc). apply se_bind_Ok in Hc as (rel & h5 & [= Hr <-] & [= <- <-]).
  destruct (parse_cgroup_v2_path raw) as [rel'|] eqn:Er; [|done]. injection Hr as ->.
  destruct (HostIo.path_starts_with _ _) eqn:Es; [|done]. unfold HostIo.path_starts_with in Es. apply bool_decide_eq_true in Es.
  exists deleg, rel. split; [done|]. split; [by exists raw|]. exists controllers. revert Em. generalize [B "cpu"; B "memory"; B "pids"].
  intros want. induction want as [|c want IH]; [constructor|]. cbn [missing_controller]. destruct (existsb (beq c) _) eqn:E; [|done].
  intros Em. constructor; [|by apply IH]. apply existsb_Exists, Exists_exists in E as (x & Hx & ->%beq_true). done.
Qed.

(** ** A concrete jail *)

Definition demo_home : bytes := B "/home/u/.isopod".
Definition demo_vm : bytes := B "/home/u/.isopod/vms/dev-1".
Definition demo_fc : bytes := B "/home/u/.isopod/bin/firecracker".
(** The images are on a disk of their own. *)
Definition demo_mounts : Table :=
  [MkMount [B "home"; B "u"; B ".isopod"; B "images"] (OnHost 1) [] false; MkMount [] (OnHost 0) [] false].

Lemma jailed_firecracker_witness : exists args,
  Launcher.parse (flags (B "/cg") (jail_root demo_vm) 1000 1000 (binds_for demo_home demo_vm demo_fc ++ map ro []) (standard_devs true) ++ [demo_fc]) = Ok args /\
  Launcher.jail_sees args demo_mounts [B "home"; B "u"; B ".isopod"; B "images"; B "base"] = Some (MkView (OnHost 1) [B "base"] true).
Proof.
  destruct (jailed_firecracker demo_home demo_vm demo_fc (B "/cg") [] true 1000 1000 [demo_fc] demo_mounts) as (args & Hp & _ & Hro & _).
  - assert (Hn : forall a b : names, bool_decide (a `prefix_of` b) = false -> ~ a `prefix_of` b) by (intros a b; apply bool_decide_eq_false).
    assert (Hy : forall a b : names, bool_decide (a `prefix_of` b) = true -> a `prefix_of` b) by (intros a b; apply bool_decide_eq_true).
    split; [repeat constructor|done|by apply Hn|by apply Hn|by apply Hy|]. apply Forall_singleton. split; by apply Hn.
  - done.
  - done.
  - done.
  - exists (MkMount [] (OnHost 0) [] false). split; [right; by left|done].
  - exists args. split; [exact Hp|]. rewrite Hro; [reflexivity| |].
    + by exists [B "images"; B "base"].
    + refine (proj1 (bool_decide_eq_false _) _). reflexivity.
Defined.

(** A host that grants what it is asked. *)
Definition granting (h : LogOf HostCall) (c : HostCall) : result bytes IoError :=
  match c with
  | ReadFile p => if beq p (B "/proc/self/status") then Ok (B "Uid: 1000 1000" ++ [line_feed] ++ B "Gid: 1000 1000") else Err (MkIoError None [])
  | _ => Ok (B "y")
  end.

Definition demo_setup : result JailSpec JailError * LogOf HostCall :=
  setup granting (fun _ => None) (Some demo_home) None demo_vm (Resources.MkResources 2 512) [] [] [].

Lemma setup_limits_witness : exists spec deleg bin,
  fst demo_setup = Ok spec /\
  changed [] (snd demo_setup) (CreateDirAll (jail_root demo_vm) ::
    limits (Digest.path_join deleg ISOPOD_SLICE) (cgroup_leaf spec) 805306368 200000) /\
  prefix spec = [bin; B "--cgroup"; from_utf8_lossy (cgroup_leaf spec); B "--root"; from_utf8_lossy (jail_root demo_vm); B "--uid"; B "1000"; B "--gid"; B "1000"; B "--"].
Proof.
  destruct demo_setup as [[spec|e] h'] eqn:E; [|by vm_compute in E].
  destruct (setup_limits granting (fun _ => None) (Some demo_home) None demo_vm (Resources.MkResources 2 512) [] [] [] spec h' E)
    as (deleg & name & bin & uid & gid & o & m & q & Hn & _ & _ & Hid & _ & Ho & _ & _ & _ & Hx & Hc & Hl & Hr & Hp).
  rewrite (Ho eq_refl) in Hx. destruct Hx as [Em Eq]; [by vm_compute..|]. destruct Hid as (st & Es & Eu & Eg).
  injection Es as <-. vm_compute in Eu, Eg. injection Eu as <-. injection Eg as <-.
  exists spec, deleg, bin. split; [done|]. rewrite Hl. split; [|exact Hp]. vm_compute in Em, Eq. cbn [snd]. by rewrite Em, Eq in Hc.
Defined.
